(* ===== verification/_CoqProject ===== *)
-Q . S2P
Prelude.v
Effects.v
Bytes.v
Rng.v
FiniteIntegerSet.v
Bitmap.v
Mutators.v
MutationCacheEntry.v
MutationCacheContent.v
MutationCache.v
Messages.v
Trace.v
MutationSite.v
MutationCacheOps.v
Dwarf.v
X86.v
Jit.v
JitStub.v
JitPatch.v
SourceSites.v
Agent.v
AgentSync.v
AgentTheorems.v
AuxStream.v
Source.v
Protocol.v
Queue.v
EventCounter.v
Cerebrum.v
Scheduling.v
RunCommon.v
MutatorSteps.v
FuzzLoop.v
FuzzLoopTheorems.v
FuzzLoopRunner.v
Phases.v
Worker.v
WorkerTheorems.v
Config.v
ConfigTheorems.v
Sink.v
SinkTheorems.v
Common.v
CommonTheorems.v
Init.v
InitTheorems.v
Campaign.v
CoverageTrace.v
Coverage.v
Jail.v
ProcMaps.v
Launch.v
LaunchTheorems.v
Valgrind.v
ValgrindTheorems.v
Competitors.v
CompetitorsTheorems.v
Replay.v
ReplayTheorems.v
