(* ===== verification/Prelude.v ===== *)
(** * Fuzztruction-Net: a verification development

    ** The program

    Fuzztruction-Net fuzzes a consumer by mutating the data a generator produces.
    The LLVM pass inserts patch points into the generator; an agent in the generator
    ([generator/agent]) rewrites them at run time according to a mutation cache that
    it shares with the scheduler ([scheduler]), and reports which patch points ran.
    The workers of the scheduler take an input from the queue, trace it, give every
    covered patch point a mask with one chunk per execution, apply mutators to the
    masks, run generator and consumer, and compare the coverage bitmap of the
    consumer with all coverage seen before to decide whether to keep the mutations
    as a new queue entry.  [fuzztruction_shared] holds the types both sides share.

    ** The files

    - [Prelude] (this file): outcomes (a value or a panic), [Result], checked
      arithmetic, slices, the tactics [dlia] and [simpl_outcome], and generic lemmas
      on loops.
    - [Effects]: the monad of the code that changes a state, fails and panics, and its
      weakest precondition.
    - [Bytes]: bytes, little-endian words and bits of byte vectors.
    - [Rng]: the [rand] crate and the iteration order of hash sets as an interface
      ([Rng], [RngLaws]); an instance shows that the laws can hold.
    - [FiniteIntegerSet]: [scheduler/src/finite_integer_set.rs], a set of small
      integers as a bit vector.  [represents] relates it to a [gset nat].
    - [Bitmap]: [scheduler/src/sink_bitmap.rs], coverage maps, [has_new_bit],
      [classify_counts], [minimize].
    - [Mutators]: [scheduler/src/fuzzer/worker_impl/mutators.rs].  The trait is the
      class [Mutator], its contract the class [MutatorLaws]; each [next] is a step on
      the mutator's state and the borrowed mask.
    - [MutationCacheEntry], [MutationCacheContent], [MutationCache]: the files of
      these names in [fuzztruction_shared/src].  The memory of the cache is a list of
      bytes; an entry is its header and the bytes behind it.  The in-memory layout of
      the [repr(C)] header is the interface [EntryLayout].  [content_rep] and
      [cache_rep] are the abstract specification: the cache stands for a list of
      entries.
    - [Messages]: [fuzztruction_shared/src/messages.rs] and [recv_message] of
      [communication_channel.rs]; the trait is the class [Message], with the laws
      every message discharges in [MessageLaws].
    - [Trace]: [generator/agent/src/tracing.rs], the tracing part of [run] and
      [postprocess_trace_map] in [generator/agent/src/agent.rs],
      [scheduler/src/trace.rs], and the ids of [fuzztruction_shared/src/types.rs].
    - [MutationSite]: [scheduler/src/mutation_site.rs] with [MapRange] of
      [lib/proc-maps/src/linux_maps.rs] and [sanity_check_patch_points] of
      [scheduler/src/source.rs].
    - [MutationCacheOps]: [scheduler/src/mutation_cache_ops.rs], which connects
      sites, traces and caches.
    - [Dwarf]: [fuzztruction_shared/src/dwarf.rs] and [abi.rs], registers and their
      names at each size.
    - [X86]: the instructions the JIT emits, their text, and a machine that executes
      them (registers, memory, flags, calls into native functions).
    - [Jit], [JitStub], [JitPatch]: [generator/agent/src/jit/jit.rs], [jit/util.rs] and
      [mem.rs]: permissions, snapshots of patch points, the code cache, and the stubs;
      [JitStub] and [JitPatch] execute the stubs on the machine.  The assembler
      ([ks_asm]) and [mprotect] are parameters.
    - [SourceSites]: how [scheduler/src/source.rs] collects and filters the sites of a
      generator ([get_patchpoints]).
    - [Agent], [AgentSync], [AgentTheorems]: [generator/agent/src/agent.rs]:
      [sync_mutations], [run] and the message loop.  [AgentSync] holds the laws of
      [mprotect] and of the assembler and the invariant of the synchronisation,
      [AgentTheorems] what a synchronised generator does.
    - [AuxStream]: [aux_messages.rs] and [aux_stream.rs] of [fuzztruction_shared/src],
      strings split over messages.
    - [Source]: the message loops of [scheduler/src/source.rs] in a state and error
      monad over the inbox of the message queue.
    - [Protocol]: the agent's messages as bytes in the source's inbox, and the
      composition of [Source] with [Agent].
    - [Queue]: [scheduler/src/fuzzer/queue.rs]: inputs, entries whose statistics are
      shared between their copies (a store and references into it), the queue.
    - [EventCounter]: [scheduler/src/fuzzer/event_counter.rs], the statistics of a
      worker.
    - [Cerebrum]: [cerebrum.rs] and [cerebrum_query.rs] of
      [scheduler/src/fuzzer/worker_impl], what is known about each patch point.
    - [Scheduling]: [worker_impl/scheduling.rs] and the [FuzzerState] of [worker.rs], the
      choice of the next entry.
    - [RunCommon]: [phases/run_common.rs] and [check_virgin_maps], how a run is judged
      and queued.
    - [MutatorSteps], [FuzzLoop], [FuzzLoopTheorems], [FuzzLoopRunner]: [fuzz_candidates] of
      [phases/run_phase.rs].  [MutatorSteps] is what the loop needs of a mutator, [Runner]
      with [RunnerLaws] what it needs of an execution; [FuzzLoopRunner] discharges these
      laws with [RunCommon] and [Cerebrum].
    - [Phases]: [discovery.rs], [mutate.rs], [add.rs], [combine.rs] and [mod.rs] of
      [worker_impl/phases].
    - [Worker], [WorkerTheorems]: [worker_impl/main_loop.rs] and the tracing and loading of
      entries in [worker_impl/common.rs]; the composition of scheduling, phases and loop.
    - [Config], [ConfigTheorems]: [scheduler/src/config.rs] and [io_channels.rs], from the
      text of a configuration to a checked [Config].
    - [Sink], [SinkTheorems]: [scheduler/src/sink.rs], the protocol with the fork server of
      the consumer; [SinkTheorems] has the server as a step relation.
    - [Common], [CommonTheorems]: [fuzzer/common.rs], [fuzzer/common_networked.rs] and
      [networked.rs]: runs of source and sink, tracing and calibration.
    - [Init], [InitTheorems]: [worker_impl/init.rs], maps of a worker, seeds, and the shared
      state that one worker initialises.
    - [Campaign]: [fuzzer/campaign.rs], the proxies of workers in [fuzzer/worker.rs] and the
      supervising loop in [cli/handler.rs].
    - [CoverageTrace], [Coverage]: [fuzztruction_shared/src/eval/coverage_trace.rs],
      [lib/compute_coverage], [coverage/classic.rs] and [coverage/postprocess.rs] of the
      scheduler: parsing traces, reports of blocks and of branches.
    - [Jail]: [lib/jail/src/jail.rs], [scheduler/src/checks.rs] and the set-up of the jail in
      [cli/fuzztruction.rs], over the user and group ids of Linux.
    - [ProcMaps]: the parser of [lib/proc-maps/src/linux_maps.rs] and its use by the source.
    - [Launch], [LaunchTheorems]: how [source.rs] and [sink.rs] prepare the children that
      execute the targets, how the agent finds its queues
      ([communication_channel.rs]), and how fork servers are stopped.
    - [Valgrind], [ValgrindTheorems]: [scheduler/src/valgrind/core.rs] and its command in
      [cli/handler.rs].
    - [Competitors], [CompetitorsTheorems]: [scheduler/src/competitors] with its commands in
      [cli/handler.rs] and the durations of [cli/util.rs]: campaigns of other fuzzers, as a
      transition system of threads and processes.
    - [Replay], [ReplayTheorems]: [scheduler/src/coverage/aflnet.rs] with [sgfuzz.rs] and
      [stateafl.rs]: running the inputs of other fuzzers on the sink for coverage.

    The components meet in this order: [Campaign] starts workers, [Init] and [Worker] are
    such a worker, [Scheduling] picks its entry, [Phases] builds the cache and the mutators,
    [FuzzLoop] applies them, [Common] runs source and sink, [Source] and [Sink] talk to the
    processes that [Launch] started, [Agent] and [Jit] are the other side of [Source], and
    [RunCommon] judges what came out.

    ** Conventions

    Rust functions keep their names, prefixed by their type where several types have
    the same method.  A method on [&mut self] takes the old state and returns the new
    one.  [outcome] has the value [Panic] for panics ([assert!], [unwrap], index out
    of range, arithmetic overflow: the [dev] profile checks it); undefined behaviour
    the code can run into (an access outside an allocation, a [bool] that is neither
    0 nor 1, an enum with a discriminant it does not have) is [Panic] too.  [Result] is [result].  Fixed-width integers are [Z] with
    their wrap-around or checks written out; indices and lengths are [nat].  Code that
    is not in the repository (the [rand], [llvm_stackmap] and [sha2] crates) and
    unspecified behaviour (padding bytes, hash iteration order) are parameters or
    classes with named laws, each with a concrete instance.

    ** What the theorems show

    - Sets and maps: every operation of [FiniteIntegerSet] implements the set
      operation of its name and panics only above its bound; [has_new_bit] reports a
      new edge or hit exactly relative to all maps compared before, and its
      eight-byte chunks agree with the bytewise reference; [classify_counts] sorts
      counts into the AFL buckets (and is not idempotent).
    - Mutators: whatever they draw, they never panic on a proper mask (which is not empty
      for [RandomBit] and [Havoc]) and leave the original mask behind; the deterministic ones enumerate exactly their
      mutations; all stop.
    - Mutation cache: push, remove, consolidate, in-place updates, filters, union,
      flags and byte images implement operations on a list of entries; entries never
      overlap; the errors (no room, unknown ids, images too large) are exact.
    - Messages: every message survives its bytes and the ids of other messages are
      rejected; a byte that is the id of no message is undefined behaviour;
      [recv_message] dispatches by type and does not look at the received length.
    - Traces: the trace the scheduler receives has exactly the executed sites with
      their counts and order; ids are unique; fitting a cache to a trace gives each
      covered entry one chunk per hit without panicking.
    - Sites: a stack map gives one site per record at the right address; the
      sanity check of the sites misses overlaps.
    - JIT: the n-th execution of a mutation stub xors the n-th chunk of the mask into
      the spilled value and changes nothing else; which chunk sizes are supported,
      and where a stub writes behind the value.
    - Agent: from every reachable state [sync_mutations] returns, undoes the previous
      patches and installs for each entry a call of exactly its stubs; executing a
      patch point applies the mask, reports the hit and restores the registers.
    - Protocol: [Source::trace] against the agent returns the result of the child and
      the trace of exactly its hits; a timeout loses the trace.  Strings survive the
      auxiliary stream.
    - Patch points of a generator: the filters keep exactly the usable sites, no two
      at one address; twins of the same width are both lost.
    - Judging: workers with their own maps judge every run against the runs of all
      workers; each kind of run updates the right map, counters and queue; what the
      cerebrum learns from a queue entry.
    - Scheduling: the next entry is one the phase may fuzz, and there is one unless the
      queue has none; favoured entries dominate what they stand for.
    - Queue: ids and statistics are unique per entry and shared by its copies;
      discovery hands out every covered site exactly once.
    - Fuzzing loop: however a round ends, the masks are what they were before, and it
      executes the target at most as often as the mutators announce.
    - Worker: discovery ends after a number of iterations that the seeds bound, provided
      no trace is empty.
    - Running the targets: a run of the sink consumes exactly the messages of the child it
      started; the sink never runs twice on outputs with the same hash; tracing restores the
      mutation cache unless a networked run fails early; a calibration clears the
      coverage of exactly its twenty executions and marks an entry unstable when they differ.
    - Campaign: one worker initialises the shared state, and exactly from the seeds that
      could be calibrated; the number of workers is bounded however many crash; crashed
      workers are replaced; the campaign ends after its timeout if its workers end when they
      are told to.
    - Configuration: what [from_str] accepts is well-formed, and no section of it has an
      attribute that its parser does not expect.
    - Starting and stopping: whatever fails on the way, the source is executed only inside
      its jail, as its user and with its descriptors and limits; the pipes of the fork
      server are where it looks for them; a fork server that ignores the signal blocks the
      caller for ever.
    - Evaluation: traces and mappings are read back as they are written, up to the stated
      exceptions; the reports of blocks agree with each other; the ids of files are
      consistent whatever the threads do; known inputs are not queued again, and of an
      interrupted round all inputs but one for each job are lost.
    - Other fuzzers: a campaign that returns has waited for every process it started, and one
      that is told to stop does so as soon as its fuzzers do.  Which of their inputs are
      replayed for coverage, and that a server that ends early ends the replay.

    ** Fuel and bounds

    Loops over lists are structural.  [bsearch_range] (binary search) halves a range
    of at most [length data], which is its fuel; [iter_collect] pops one entry per
    step from a queue of [n] entries with fuel [n + 1]; the lemmas [bsearch_range_finds]
    and [iter_collect_rev] show that this is enough.  Runs of mutators are given by
    the number of calls of [next]; the theorems give the number after which they stop.
    The loops of [Source] consume at least one element of the inbox per iteration;
    [loop_fuel] is one more than its length, and running out of it is a panic, so the
    theorems about results show that it is enough.  [call_fn] of [X86] is the depth of
    nested calls; a patch point needs three.

    [mutator_loop] has fuel for the calls of [next]; the theorems of [FuzzLoopTheorems] ask
    for more than the mutator announces and show that this is enough.  [wait_for_data] of
    [Sink] repeats an interrupted poll; the theorems of [SinkTheorems] assume a bound on the
    interruptions and on the messages of a server, and take fuel beyond it.  The main loop
    of a worker and the supervising loop of a campaign run as long as nobody stops them:
    [main_loop] takes the number of iterations, [supervise] the number of rounds, and
    [campaign_ends] shows that rounds up to the timeout are enough; [join] takes how long one
    waits for a thread, and a thread that does not end in this time blocks.  [drop_duplicates] and
    [replace] shorten their argument in each step, and its length is their fuel.  The loop
    of the Valgrind manager is given by its number of iterations; [split_packages] takes at
    least four bytes per step, and the length of its argument is its fuel.

    ** What is not modelled

    - System calls themselves.  Their results are arguments where the code branches on
      them; creating the files, queues and shared memory of a source or sink, and the
      sockets of networked targets, is nothing but such calls.  Files and JSON are read and
      written by libraries.
    - The start of the agent and its allocator ([generator/agent/src/lib.rs], [allocator.rs],
      [logging.rs]), which consist of hooks for the linked program and of [mmap].
    - The encoding of instructions: the assembler is a parameter, and the machine executes
      instructions, not bytes.
    - Time beyond what the code decides by it: a message arrives in time or not, a clock is
      an argument.
    - Parsers of memory mappings for other systems than Linux, which are bindings to their
      libraries.
    - The runner of AFL++ ([aflpp/aflpp_core.rs]): no command starts it, and it refers to
      sections that the configuration does not have.
    - Command lines (declared by [clap]), the tools that replay or dump the own queue,
      logging and [Debug] output. *)

From stdpp Require Export base tactics numbers list gmap sorting strings.
From Stdlib Require Export ZArith Lia Zify ZifyNat.

#[global] Open Scope Z_scope.

(** ** The outcome of a Rust computation: a value or a panic *)

Inductive outcome (A : Type) : Type :=
| Ret (a : A)
| Panic.
Arguments Ret {A} a.
Arguments Panic {A}.

#[export] Instance outcome_ret : MRet outcome := fun A a => Ret a.
#[export] Instance outcome_bind : MBind outcome := fun A B f m =>
  match m with Ret a => f a | Panic => Panic end.
#[export] Instance outcome_fmap : FMap outcome := fun A B f m =>
  match m with Ret a => Ret (f a) | Panic => Panic end.
#[export] Instance outcome_eq_dec `{EqDecision A} : EqDecision (outcome A).
Proof. solve_decision. Defined.

(** Rust's [Result<T, E>]. *)
Inductive result (E A : Type) : Type :=
| Ok (a : A)
| Err (e : E).
Arguments Ok {E A} a.
Arguments Err {E A} e.

#[export] Instance result_eq_dec `{EqDecision E, EqDecision A} :
  EqDecision (result E A).
Proof. solve_decision. Defined.

(** [assert!(b)] *)
Definition assert_that (b : bool) : outcome unit :=
  if b then Ret tt else Panic.

(** [Option::unwrap] / [Option::expect] *)
Definition unwrap {A} (o : option A) : outcome A :=
  match o with Some a => Ret a | None => Panic end.

(** [v[i]] on a slice: panics out of range. *)
Definition slice_get {A} (l : list A) (i : nat) : outcome A := unwrap (l !! i).

(** [v[i] = x] on a slice: panics out of range. *)
Definition slice_set {A} (l : list A) (i : nat) (x : A) : outcome (list A) :=
  if decide (i < length l)%nat then Ret (<[i := x]> l) else Panic.

(** [a += b] on an unsigned integer of [w] bits; the [dev] profile the README
    builds with has overflow checks, so an overflow is a panic. *)
Definition checked_add (w a b : Z) : outcome Z :=
  if decide (a + b < 2 ^ w) then Ret (a + b) else Panic.

(** [a -= b] on an unsigned integer. *)
Definition checked_sub (a b : Z) : outcome Z :=
  if decide (b <= a) then Ret (a - b) else Panic.

(** [a * b] on an unsigned integer of [w] bits. *)
Definition checked_mul (w a b : Z) : outcome Z :=
  if decide (a * b < 2 ^ w) then Ret (a * b) else Panic.

Definition fits (w z : Z) : Prop := 0 <= z < 2 ^ w.
#[export] Instance fits_dec w z : Decision (fits w z).
Proof. unfold fits; solve_decision. Defined.

Abbreviation byte_ok := (fits 8).
Abbreviation bytes_ok := (Forall (fits 8)).

(** ** Tactics and hints *)

Create HintDb ft discriminated.

(** Linear arithmetic with division and remainder by constants. *)
Ltac dlia := zify; Z.to_euclidean_division_equations; lia.

Ltac simpl_outcome :=
  repeat match goal with
  | H : Ret _ = Ret _ |- _ => injection H as H; subst
  | H : Ret _ = Panic |- _ => discriminate H
  | H : Panic = Ret _ |- _ => discriminate H
  | H : mbind _ ?m = Ret _ |- _ =>
      let E := fresh "Hm" in destruct m eqn:E; cbn in H; [|discriminate H]
  | H : context [mbind _ (Ret _)] |- _ => cbn in H
  end.

Lemma checked_add_lt w a b : a + b < 2 ^ w -> checked_add w a b = Ret (a + b).
Proof. intros. unfold checked_add. by rewrite decide_True. Qed.

Lemma slice_get_Ret {A} (l : list A) i x :
  slice_get l i = Ret x <-> l !! i = Some x.
Proof. unfold slice_get, unwrap. destruct (l !! i); naive_solver. Qed.

Lemma slice_set_Ret {A} (l : list A) i x l' :
  slice_set l i x = Ret l' <-> (i < length l)%nat /\ l' = <[i := x]> l.
Proof. unfold slice_set. case_decide; naive_solver. Qed.

Lemma slice_get_lt {A} (l : list A) i :
  (i < length l)%nat -> exists x, slice_get l i = Ret x /\ l !! i = Some x.
Proof.
  intros [x Hx]%lookup_lt_is_Some_2. exists x. by rewrite slice_get_Ret.
Qed.

Lemma slice_set_lt {A} (l : list A) i x :
  (i < length l)%nat -> slice_set l i x = Ret (<[i := x]> l).
Proof. intros. by apply slice_set_Ret. Qed.

(** A loop whose body always returns. *)
Lemma mapM_Ret {A B} (f : A -> outcome B) (g : A -> B) (l : list A) :
  Forall (fun x => f x = Ret (g x)) l -> mapM f l = Ret (g <$> l).
Proof.
  induction 1 as [|x l Hx Hl IH]; [done|]. cbn [mapM]. rewrite Hx. cbn [mbind outcome_bind].
  by rewrite IH.
Qed.

(** ** Loops that collect into a set or count *)

(** [for a in l { if p(a) { res.insert(f(a)) } }] *)
Lemma elem_of_foldl_insert {A} `{Countable K} (p : A -> bool) (f : A -> K)
    (l : list A) (X : gset K) x :
  x ∈ foldl (fun acc a => if p a then {[ f a ]} ∪ acc else acc) X l <->
  x ∈ X \/ exists a, a ∈ l /\ p a = true /\ x = f a.
Proof.
  revert X. induction l as [|a l IH]; intros X; cbn.
  - split; [by left|]. intros [?|(a & Ha & _)]; [done|]. by apply elem_of_nil in Ha.
  - rewrite IH. setoid_rewrite elem_of_cons.
    destruct (p a) eqn:E; rewrite ?elem_of_union, ?elem_of_singleton; split.
    + intros [[->|HX]|(b & Hb & ?)]; eauto 10.
    + intros [HX|(b & [->|Hb] & Hp & ->)]; eauto 10.
    + intros [HX|(b & Hb & ?)]; eauto 10.
    + intros [HX|(b & [->|Hb] & Hp & ->)]; eauto 10. congruence.
Qed.

(** [for a in l { if p(a) { ret += 1 } }] *)
Lemma foldl_count {A} (p : A -> bool) (l : list A) (n : nat) :
  foldl (fun acc a => if p a then S acc else acc) n l
  = (n + length (List.filter p l))%nat.
Proof.
  revert n. induction l as [|a l IH]; intros n; cbn; [lia|].
  rewrite IH. destruct (p a); cbn; lia.
Qed.

(** A loop whose body adds a fixed amount per element. *)
Lemma foldl_add {A} (g : A -> nat) (l : list A) (n : nat) :
  foldl (fun acc a => (acc + g a)%nat) n l = (n + sum_list (g <$> l))%nat.
Proof. revert n. induction l as [|a l IH]; intros n; cbn; [lia|]. rewrite IH. lia. Qed.

(** [for a in l { if p(a) { ret.push(f(a)) } }] *)
Lemma foldl_push {A B} (p : A -> bool) (f : A -> B) (l : list A) (acc : list B) :
  foldl (fun acc a => if p a then acc ++ [f a] else acc) acc l
  = acc ++ (f <$> List.filter p l).
Proof.
  revert acc. induction l as [|a l IH]; intros acc; cbn; [by rewrite app_nil_r|].
  rewrite IH. destruct (p a); [|done]. by rewrite <- app_assoc.
Qed.

(** [enumerate] pairs each element with its index. *)
Lemma imap_pair_zip {A} (l : list A) : imap pair l = zip (seq 0 (length l)) l.
Proof.
  apply list_eq. intros i. rewrite list_lookup_imap.
  destruct (l !! i) as [x|] eqn:E; cbn.
  - symmetry. apply lookup_zip_with_Some. exists i, x. split; [done|].
    split; [|done]. rewrite lookup_seq_lt; [done|by eapply lookup_lt_Some].
  - symmetry. apply lookup_zip_with_None. by right.
Qed.

Lemma elem_of_imap_pair {A} (l : list A) i x : (i, x) ∈ imap pair l <-> l !! i = Some x.
Proof.
  rewrite list_elem_of_lookup. setoid_rewrite list_lookup_imap. split.
  - intros (j & Hj). apply fmap_Some in Hj as (y & Hy & [= -> ->]). done.
  - intros Hx. exists i. by rewrite Hx.
Qed.

(** ** Updating a prefix in place *)

(** [a.iter_mut().zip(b).for_each(|(x, y)| *x = f(x, y))]: positions of [a] past
    the end of [b] keep their value. *)
Fixpoint zip_onto {A B} (f : A -> B -> A) (a : list A) (b : list B) : list A :=
  match a, b with
  | x :: a, y :: b => f x y :: zip_onto f a b
  | a, _ => a
  end.

Lemma zip_onto_length {A B} (f : A -> B -> A) a b : length (zip_onto f a b) = length a.
Proof. revert b; induction a; intros [|]; cbn; auto. Qed.

Lemma zip_onto_lookup {A B} (f : A -> B -> A) a b i :
  length a = length b ->
  zip_onto f a b !! i = (x ← a !! i; y ← b !! i; Some (f x y)).
Proof.
  revert b i; induction a as [|x a IH]; intros [|y b] i Hl; try done.
  destruct i as [|i]; cbn; [done|]. apply IH. cbn in Hl. lia.
Qed.

Lemma zip_onto_zip_with {A B} (f : A -> B -> A) a b :
  length a = length b -> zip_onto f a b = zip_with f a b.
Proof.
  revert b; induction a as [|x a IH]; intros [|y b] Hl; try done.
  cbn. f_equal. apply IH. cbn in Hl. lia.
Qed.

Lemma Forall_zip_onto {A} (P : A -> Prop) (f : A -> A -> A) a b :
  (forall x y, P x -> P y -> P (f x y)) -> Forall P a -> Forall P b ->
  Forall P (zip_onto f a b).
Proof.
  intros Hf Ha; revert b. induction Ha as [|x a Hx Ha IH]; intros b Hb; cbn; [done|].
  destruct Hb as [|y b Hy Hb]; [by constructor|]. constructor; auto.
Qed.

(** ** Filters *)

Lemma List_filter_true {A} (l : list A) : List.filter (fun _ => true) l = l.
Proof. induction l as [|x l IH]; [done|]. cbn. by rewrite IH. Qed.

Lemma List_filter_filter {A} (f g : A -> bool) (l : list A) :
  List.filter f (List.filter g l) = List.filter (fun x => g x && f x) l.
Proof. induction l as [|x l IH]; [done|]. cbn. destruct (g x); cbn; by rewrite IH. Qed.

Lemma List_filter_sublist {A} (f : A -> bool) (l : list A) : List.filter f l `sublist_of` l.
Proof. induction l as [|x l IH]; [done|]. cbn. destruct (f x); by constructor. Qed.

Lemma List_Forall_filter {A} (P : A -> Prop) (f : A -> bool) (l : list A) : Forall P l -> Forall P (List.filter f l).
Proof. induction 1; cbn; [done|]. case_match; [by constructor|done]. Qed.
