(* ===== verification/Effects.v ===== *)
(** * Stateful computations that can fail

    The monad of the code that runs in a worker: a computation changes a state, returns
    [Ok] or [Err], or panics.  Destructors that run on every exit are [finally].  Such
    computations are verified with a weakest precondition that excludes panics. *)

From S2P Require Import Prelude.

Definition eff (S E A : Type) : Type := S -> outcome (result E A * S).

#[export] Instance eff_ret {S E} : MRet (eff S E) := fun A a s => Ret (Ok a, s).
#[export] Instance eff_bind {S E} : MBind (eff S E) := fun A B f m s =>
  match m s with
  | Ret (Ok a, s) => f a s
  | Ret (Err e, s) => Ret (Err e, s)
  | Panic => Panic
  end.

(** What is known of a computation that returned. *)
Lemma outcome_bind_Ret {A B} (m : outcome A) (f : A -> outcome B) b : m ≫= f = Ret b -> exists a, m = Ret a /\ f a = Ret b.
Proof. destruct m as [a|]; [by exists a|done]. Qed.

Section eff.
Context {S E : Type}.

Definition lift_outcome {A} (m : outcome A) : eff S E A := fun s => match m with Ret a => Ret (Ok a, s) | Panic => Panic end.
Definition get {A} (f : S -> A) : eff S E A := fun s => Ret (Ok (f s), s).
Definition update (f : S -> S) : eff S E unit := fun s => Ret (Ok tt, f s).
Definition of_result {A} (r : result E A) : eff S E A := fun s => Ret (r, s).
Definition panic {A} : eff S E A := fun _ => Panic.

(** [m] and then [k] on its result, error or not. *)
Definition after {A B} (m : eff S E A) (k : result E A -> eff S E B) : eff S E B := fun s =>
  match m s with Ret (r, s) => k r s | Panic => Panic end.

(** Destructors run whether a computation succeeds or fails. *)
Definition finally {A} (m : eff S E A) (cleanup : eff S E unit) : eff S E A :=
  after m (fun r => after cleanup (fun _ => of_result r)).
Definition on_error {A} (m : eff S E A) (cleanup : eff S E unit) : eff S E A :=
  after m (fun r => match r with Ok a => mret a | Err e => finally (of_result (Err e)) cleanup end).

(** ** Weakest preconditions *)

(** [m] does not panic on [s], and [Q] holds of its result. *)
Definition wp {A} (m : eff S E A) (Q : result E A -> S -> Prop) (s : S) : Prop :=
  match m s with Ret (r, s') => Q r s' | Panic => False end.

Lemma wp_mono {A} (m : eff S E A) (Q Q' : result E A -> S -> Prop) s :
  wp m Q s -> (forall r s', Q r s' -> Q' r s') -> wp m Q' s.
Proof. unfold wp. destruct (m s) as [[r s']|]; auto. Qed.

Lemma wp_bind {A B} (m : eff S E A) (f : A -> eff S E B) Q s :
  wp m (fun r s' => match r with Ok a => wp (f a) Q s' | Err e => Q (Err e) s' end) s -> wp (m ≫= f) Q s.
Proof. unfold wp, mbind, eff_bind. by destruct (m s) as [[[a|e] s']|]. Qed.

Lemma wp_after {A B} (m : eff S E A) (k : result E A -> eff S E B) Q s :
  wp m (fun r s' => wp (k r) Q s') s -> wp (after m k) Q s.
Proof. unfold wp, after. by destruct (m s) as [[r s']|]. Qed.

Lemma wp_finally {A} (m : eff S E A) (cleanup : eff S E unit) (Q : result E A -> S -> Prop) s :
  wp m (fun r s' => wp cleanup (fun _ s'' => Q r s'') s') s -> wp (finally m cleanup) Q s.
Proof.
  intros H'. apply wp_after. eapply wp_mono; [exact H'|]. intros r s' Hc. apply wp_after.
  eapply wp_mono; [exact Hc|]. done.
Qed.

Lemma wp_on_error {A} (m : eff S E A) cleanup Q s :
  wp m (fun r s' => match r with
                    | Ok a => Q (Ok a) s'
                    | Err e => wp cleanup (fun _ s'' => Q (Err e) s'') s'
                    end) s -> wp (on_error m cleanup) Q s.
Proof.
  intros H'. apply wp_after. eapply wp_mono; [exact H'|]. intros [a|e] s' HQ; [done|]. by apply wp_finally.
Qed.

Lemma wp_lift {A} (m : outcome A) a Q s : m = Ret a -> Q (Ok a) s -> wp (lift_outcome m) Q s.
Proof. by intros ->. Qed.

(** A weakest precondition gives a result. *)
Lemma wp_result {A} (m : eff S E A) Q s : wp m Q s -> exists r s', m s = Ret (r, s') /\ Q r s'.
Proof. unfold wp. destruct (m s) as [[r s']|]; [eauto|done]. Qed.
End eff.

(** ** Invariants *)

(** If [m] returns, it keeps [P]; nothing is said about panics. *)
Definition preserves {S E A} (P : S -> Prop) (m : eff S E A) : Prop :=
  forall s r s', m s = Ret (r, s') -> P s -> P s'.

Section preserves.
Context {S E : Type} (P : S -> Prop).

Lemma preserves_ret {A} (a : A) : preserves P (mret a : eff S E A).
Proof. by intros s r s' [= _ <-]. Qed.
Lemma preserves_of_result {A} (r : result E A) : preserves P (of_result r).
Proof. by intros s r' s' [= _ <-]. Qed.
Lemma preserves_panic {A} : preserves P (panic : eff S E A).
Proof. done. Qed.
Lemma preserves_lift {A} (m : outcome A) : preserves P (lift_outcome m : eff S E A).
Proof. intros s r s' Hm. unfold lift_outcome in Hm. destruct m; [|done]. by injection Hm as _ <-. Qed.
Lemma preserves_get {A} (f : S -> A) : preserves P (get f : eff S E A).
Proof. by intros s r s' [= _ <-]. Qed.
Lemma preserves_update (f : S -> S) : (forall s, P s -> P (f s)) -> preserves P (update f : eff S E unit).
Proof. intros Hf s r s' [= _ <-]. apply Hf. Qed.
Lemma preserves_bind {A B} (m : eff S E A) (f : A -> eff S E B) :
  preserves P m -> (forall a, preserves P (f a)) -> preserves P (m ≫= f).
Proof.
  intros Hm Hf s r s' E'. unfold mbind, eff_bind in E'. destruct (m s) as [[[a|e] s1]|] eqn:Em; [| |done].
  - intros Hs. eapply Hf; [exact E'|]. by eapply Hm.
  - injection E' as _ <-. by eapply Hm.
Qed.
Lemma preserves_after {A B} (m : eff S E A) (k : result E A -> eff S E B) :
  preserves P m -> (forall r, preserves P (k r)) -> preserves P (after m k).
Proof.
  intros Hm Hk s r s' E'. unfold after in E'. destruct (m s) as [[r1 s1]|] eqn:Em; [|done].
  intros Hs. eapply Hk; [exact E'|]. by eapply Hm.
Qed.
Lemma preserves_finally {A} (m : eff S E A) cleanup :
  preserves P m -> preserves P cleanup -> preserves P (finally m cleanup).
Proof. intros Hm Hc. apply preserves_after; [done|]. intros r. apply preserves_after; [done|]. intros. apply preserves_of_result. Qed.
Lemma preserves_on_error {A} (m : eff S E A) cleanup :
  preserves P m -> preserves P cleanup -> preserves P (on_error m cleanup).
Proof.
  intros Hm Hc. apply preserves_after; [done|]. intros [a|e]; [apply preserves_ret|].
  apply preserves_finally; [apply preserves_of_result|done].
Qed.
Lemma preserves_if {A} (b : bool) (m m' : eff S E A) : preserves P m -> preserves P m' -> preserves P (if b then m else m').
Proof. by destruct b. Qed.
End preserves.

(** ** Partial weakest preconditions *)

(** [Q] holds of the result of [m] on [s], if there is one. *)
Definition wlp {S E A} (m : eff S E A) (Q : result E A -> S -> Prop) (s : S) : Prop :=
  forall r s', m s = Ret (r, s') -> Q r s'.

Section wlp.
Context {S E : Type}.

Lemma wlp_mono {A} (m : eff S E A) (Q Q' : result E A -> S -> Prop) s :
  wlp m Q s -> (forall r s', Q r s' -> Q' r s') -> wlp m Q' s.
Proof. intros Hm HQ r s' Er. by apply HQ, Hm. Qed.

Lemma wlp_bind {A B} (m : eff S E A) (f : A -> eff S E B) Q s :
  wlp m (fun r s' => match r with Ok a => wlp (f a) Q s' | Err e => Q (Err e) s' end) s -> wlp (m ≫= f) Q s.
Proof.
  intros Hm r s' Er. unfold mbind, eff_bind in Er. destruct (m s) as [[[a|e] s1]|] eqn:Em; [| |done].
  - by apply (Hm (Ok a) s1).
  - injection Er as <- <-. by apply (Hm (Err e) s1).
Qed.

Lemma wlp_after {A B} (m : eff S E A) (k : result E A -> eff S E B) Q s :
  wlp m (fun r s' => wlp (k r) Q s') s -> wlp (after m k) Q s.
Proof. intros Hm r s' Er. unfold after in Er. destruct (m s) as [[r1 s1]|] eqn:Em; [|done]. by apply (Hm r1 s1). Qed.

Lemma wlp_of_result {A} (r : result E A) (Q : result E A -> S -> Prop) s : Q r s -> wlp (of_result r) Q s.
Proof. by intros HQ r' s' [= <- <-]. Qed.
Lemma wlp_ret {A} (a : A) (Q : result E A -> S -> Prop) s : Q (Ok a) s -> wlp (mret a) Q s.
Proof. apply (wlp_of_result (Ok a)). Qed.
Lemma wlp_get {A} (f : S -> A) (Q : result E A -> S -> Prop) s : Q (Ok (f s)) s -> wlp (get f) Q s.
Proof. by intros HQ r' s' [= <- <-]. Qed.
Lemma wlp_update (f : S -> S) (Q : result E unit -> S -> Prop) s : Q (Ok tt) (f s) -> wlp (update f) Q s.
Proof. by intros HQ r' s' [= <- <-]. Qed.
Lemma wlp_lift {A} (m : outcome A) (Q : result E A -> S -> Prop) s :
  (forall a, m = Ret a -> Q (Ok a) s) -> wlp (lift_outcome m) Q s.
Proof. intros HQ r s' Er. unfold lift_outcome in Er. destruct m as [a|]; [|done]. injection Er as <- <-. by apply HQ. Qed.

Lemma wlp_preserves {A} (P : S -> Prop) (m : eff S E A) s : preserves P m -> P s -> wlp m (fun _ s' => P s') s.
Proof. intros Hm Hs r s' Er. by eapply Hm. Qed.
End wlp.

Create HintDb preserves discriminated.
#[export] Hint Resolve preserves_ret preserves_of_result preserves_panic preserves_lift preserves_get : preserves.

(** An invariant through the structure of a computation; the steps are in the database. *)
Ltac keeps :=
  repeat first
    [ solve [eauto with preserves]
    | apply preserves_bind; [|intros] | apply preserves_after; [|intros] | apply preserves_finally | apply preserves_on_error
    | apply preserves_if | apply preserves_update; intros | case_match ].

(** Steps that are plain reads and writes. *)
Ltac wp_step :=
  lazymatch goal with
  | |- wp (mbind _ _) _ _ => apply wp_bind
  | |- wp (after _ _) _ _ => apply wp_after
  | |- wp (finally _ _) _ _ => apply wp_finally
  | |- wp (mret ?a) ?Q ?s => change (Q (Ok a) s)
  | |- wp (of_result ?r) ?Q ?s => change (Q r s)
  | |- wp (get ?f) ?Q ?s => change (Q (Ok (f s)) s)
  | |- wp (update ?f) ?Q ?s => change (Q (Ok tt) (f s))
  | |- wp (lift_outcome (assert_that true)) ?Q ?s => change (Q (Ok tt) s)
  end; cbv beta iota.
Ltac wp_steps := repeat wp_step.
(** A computation that returns. *)
Ltac wp_returns := wp_steps; eapply wp_lift; [|cbv beta iota; wp_steps].
Ltac wlp_step :=
  lazymatch goal with
  | |- wlp (mbind _ _) _ _ => apply wlp_bind
  | |- wlp (after _ _) _ _ => apply wlp_after
  | |- wlp (mret _) _ _ => apply wlp_ret
  | |- wlp (of_result _) _ _ => apply wlp_of_result
  | |- wlp (get _) _ _ => apply wlp_get
  | |- wlp (update _) _ _ => apply wlp_update
  end; cbv beta iota.
Ltac wlp_steps := repeat wlp_step.
