(* ===== verification/Bytes.v ===== *)
(** * Bytes, words and little-endian groups

    The bit-level facts every component shares: the width invariant [fits] under
    the bit operations, one-bit masks, and the reading of a group of bytes as one
    little-endian word, which is how the code accesses its bitmaps and messages. *)

From S2P Require Import Prelude.

(** ** The width invariant and the bit operations *)

Lemma fits_testbit w z :
  0 <= w -> fits w z <-> (0 <= z /\ forall i, w <= i -> Z.testbit z i = false).
Proof.
  intros Hw. unfold fits. split.
  - intros [H0 Hlt]. split; [done|]. intros i Hi.
    destruct (decide (z = 0)) as [->|Hz]; [apply Z.testbit_0_l|].
    apply Z.bits_above_log2; [done|].
    assert (Z.log2 z < w) by (apply Z.log2_lt_pow2; lia). lia.
  - intros [H0 Hb]. split; [done|].
    destruct (decide (z = 0)) as [->|Hz]; [by apply Z.pow_pos_nonneg|].
    apply Z.log2_lt_pow2; [lia|].
    destruct (decide (w <= Z.log2 z)) as [Hle|]; [|lia].
    pose proof (Z.bit_log2 z ltac:(lia)) as Hl. rewrite Hb in Hl by done. done.
Qed.

Lemma fits_high w z i : 0 <= w -> fits w z -> w <= i -> Z.testbit z i = false.
Proof. intros Hw Hf. by apply fits_testbit in Hf as [_ ?]; auto. Qed.

Lemma fits_nonneg w z : fits w z -> 0 <= z.
Proof. unfold fits. lia. Qed.

Lemma fits_land_l w a b : 0 <= w -> fits w a -> fits w (Z.land a b).
Proof.
  intros Hw Ha. apply fits_testbit; [done|]. split.
  - apply Z.land_nonneg. left. by eapply fits_nonneg.
  - intros i Hi. rewrite Z.land_spec, (fits_high w a) by done. done.
Qed.

Lemma fits_lor w a b : 0 <= w -> fits w a -> fits w b -> fits w (Z.lor a b).
Proof.
  intros Hw Ha Hb. apply fits_testbit; [done|]. split.
  - apply Z.lor_nonneg. split; by eapply fits_nonneg.
  - intros i Hi. by rewrite Z.lor_spec, !(fits_high w) by done.
Qed.

Lemma fits_lxor w a b : 0 <= w -> fits w a -> fits w b -> fits w (Z.lxor a b).
Proof.
  intros Hw Ha Hb. apply fits_testbit; [done|]. split.
  - apply Z.lxor_nonneg. split; intros; by eapply fits_nonneg.
  - intros i Hi. by rewrite Z.lxor_spec, !(fits_high w) by done.
Qed.

Lemma fits_ones w : 0 <= w -> fits w (Z.ones w).
Proof. intros. unfold fits. rewrite Z.ones_equiv. pose proof (Z.pow_pos_nonneg 2 w). lia. Qed.

Lemma fits_pow2 w k : 0 <= k < w -> fits w (2 ^ k).
Proof.
  intros. unfold fits. split; [apply Z.pow_nonneg; lia|]. apply Z.pow_lt_mono_r; lia.
Qed.

#[export] Hint Resolve fits_land_l fits_lor fits_lxor fits_ones fits_pow2 : ft.

(** [!x] on an unsigned integer of [w] bits. *)
Definition not_w (w z : Z) : Z := Z.lxor z (Z.ones w).

Lemma not_w_spec w z i :
  0 <= i < w -> Z.testbit (not_w w z) i = negb (Z.testbit z i).
Proof.
  intros. unfold not_w. rewrite Z.lxor_spec, Z.ones_spec_low by lia.
  by destruct (Z.testbit z i).
Qed.

Lemma not_w_fits w z : 0 <= w -> fits w z -> fits w (not_w w z).
Proof. intros. unfold not_w. auto with ft. Qed.
#[export] Hint Resolve not_w_fits : ft.

Lemma not_w_involutive w z : not_w w (not_w w z) = z.
Proof. unfold not_w. by rewrite Z.lxor_assoc, Z.lxor_nilpotent, Z.lxor_0_r. Qed.

Lemma testbit_ext w a b :
  0 <= w -> fits w a -> fits w b ->
  (forall i, 0 <= i < w -> Z.testbit a i = Z.testbit b i) -> a = b.
Proof.
  intros Hw Ha Hb Hi. apply Z.bits_inj'. intros i H0.
  destruct (decide (i < w)) as [?|?]; [by apply Hi|].
  by rewrite !(fits_high w) by (done || lia).
Qed.

Lemma testbit_nonzero w z :
  0 <= w -> fits w z -> z <> 0 -> exists i, 0 <= i < w /\ Z.testbit z i = true.
Proof.
  intros Hw Hf Hz. exists (Z.log2 z). pose proof (fits_nonneg _ _ Hf).
  assert (Hb : Z.testbit z (Z.log2 z) = true) by (apply Z.bit_log2; lia).
  split; [|done]. split; [apply Z.log2_nonneg|].
  destruct (decide (Z.log2 z < w)); [done|].
  rewrite (fits_high w) in Hb by (done || lia). done.
Qed.

(** A one-bit mask selects that bit. *)
Lemma land_pow2 z i :
  0 <= i -> Z.land z (2 ^ i) = if Z.testbit z i then 2 ^ i else 0.
Proof.
  intros Hi. apply Z.bits_inj'. intros j Hj.
  rewrite Z.land_spec, Z.pow2_bits_eqb by done.
  destruct (Z.eqb_spec i j) as [->|Hne].
  - destruct (Z.testbit z j); [by rewrite Z.pow2_bits_true|by rewrite Z.testbit_0_l].
  - rewrite andb_false_r. destruct (Z.testbit z i).
    + symmetry. by apply Z.pow2_bits_false.
    + by rewrite Z.testbit_0_l.
Qed.

Lemma land_pow2_eqb z i :
  0 <= i -> (Z.land z (2 ^ i) =? 0) = negb (Z.testbit z i).
Proof.
  intros. rewrite land_pow2 by done. destruct (Z.testbit z i); [|done].
  apply Z.eqb_neq. pose proof (Z.pow_pos_nonneg 2 i). lia.
Qed.

Lemma land_pow2_gtb z i :
  0 <= i -> (Z.land z (2 ^ i) >? 0) = Z.testbit z i.
Proof.
  intros. rewrite land_pow2 by done. destruct (Z.testbit z i); [|done].
  apply Z.gtb_lt. apply Z.pow_pos_nonneg; lia.
Qed.

(** ** Little-endian groups of bytes *)

(** [uN::from_le_bytes] *)
Fixpoint of_le (bs : list Z) : Z :=
  match bs with
  | [] => 0
  | b :: bs => b + 256 * of_le bs
  end.

(** [uN::to_le_bytes], as [n] bytes *)
Fixpoint to_le (n : nat) (z : Z) : list Z :=
  match n with
  | O => []
  | S n => z mod 256 :: to_le n (z / 256)
  end.

Lemma to_le_length n z : length (to_le n z) = n.
Proof. revert z; induction n; intros; cbn; auto. Qed.

Lemma to_le_ok n z : bytes_ok (to_le n z).
Proof.
  revert z; induction n; intros z; cbn; constructor; [|done].
  unfold fits. change (2 ^ 8) with 256. apply Z.mod_pos_bound. lia.
Qed.
#[export] Hint Resolve to_le_ok : ft.

Lemma of_le_to_le n z : 0 <= z < 256 ^ Z.of_nat n -> of_le (to_le n z) = z.
Proof.
  revert z; induction n as [|n IH]; intros z Hz; cbn [to_le of_le].
  - cbn in Hz. lia.
  - rewrite IH; [pose proof (Z.div_mod z 256); lia|].
    rewrite Nat2Z.inj_succ, Z.pow_succ_r in Hz by lia.
    split; [apply Z.div_pos; lia|]. apply Z.div_lt_upper_bound; lia.
Qed.

Lemma to_le_of_le bs : bytes_ok bs -> to_le (length bs) (of_le bs) = bs.
Proof.
  induction 1 as [|b bs Hb _ IH]; [done|]. cbn [length to_le of_le].
  unfold fits in Hb. change (2 ^ 8) with 256 in Hb.
  rewrite Z.mul_comm, Z_mod_plus_full, Z.div_add, Z.mod_small, Z.div_small by lia.
  by rewrite Z.add_0_l, IH.
Qed.

Lemma of_le_bound bs : bytes_ok bs -> 0 <= of_le bs < 256 ^ Z.of_nat (length bs).
Proof.
  induction 1 as [|b bs Hb _ IH]; [cbn; lia|]. cbn [length of_le].
  unfold fits in Hb. change (2 ^ 8) with 256 in Hb.
  rewrite Nat2Z.inj_succ, Z.pow_succ_r by lia. lia.
Qed.

Lemma of_le_fits8 bs : bytes_ok bs -> length bs = 8%nat -> fits 64 (of_le bs).
Proof. intros H Hl. pose proof (of_le_bound bs H) as Hb. rewrite Hl in Hb. exact Hb. Qed.

(** The bits of a group: bit [i] of the word is bit [i mod 8] of byte [i / 8]. *)
Lemma of_le_testbit_cons b bs i :
  byte_ok b -> bytes_ok bs -> 0 <= i ->
  Z.testbit (of_le (b :: bs)) i =
    if decide (i < 8) then Z.testbit b i else Z.testbit (of_le bs) (i - 8).
Proof.
  intros Hb Hbs Hi. cbn [of_le].
  assert (E : b + 256 * of_le bs = Z.lor b (Z.shiftl (of_le bs) 8)).
  { rewrite Z.shiftl_mul_pow2 by lia. change (2 ^ 8) with 256.
    rewrite (Z.mul_comm (of_le bs)). rewrite <- Z.lxor_lor, <- Z.add_nocarry_lxor;
      [done| |]; apply Z.bits_inj'; intros j Hj;
      rewrite Z.land_spec, Z.testbit_0_l, Z.mul_comm;
      change 256 with (2 ^ 8); rewrite <- Z.shiftl_mul_pow2 by lia;
      (destruct (decide (j < 8));
        [rewrite Z.shiftl_spec_low by lia; apply andb_false_r
        |rewrite (fits_high 8 b) by (done || lia); done]). }
  rewrite E, Z.lor_spec, Z.shiftl_spec by lia. case_decide.
  - rewrite (Z.testbit_neg_r _ (i - 8)) by lia. apply orb_false_r.
  - by rewrite (fits_high 8 b) by (done || lia).
Qed.

(** A bit operation that keeps zero acts bytewise. *)
Section bitwise.
Context (op : Z -> Z -> Z) (bop : bool -> bool -> bool).
Context (op_spec : forall a b i, Z.testbit (op a b) i = bop (Z.testbit a i) (Z.testbit b i)).
Context (op_fits : forall w a b, 0 <= w -> fits w a -> fits w b -> fits w (op a b)).

Lemma of_le_bitop a b :
  bytes_ok a -> bytes_ok b -> length a = length b ->
  op (of_le a) (of_le b) = of_le (zip_with op a b).
Proof using op_spec op_fits.
  intros Ha; revert b. induction Ha as [|x a Hx Ha IH]; intros b Hb Hl.
  - destruct b; [|done]. cbn [zip_with of_le].
    pose proof (op_fits 0 0 0 ltac:(lia) ltac:(done) ltac:(done)) as H.
    unfold fits in H. lia.
  - destruct b as [|y b]; [done|]. inversion Hb as [|?? Hy Hb']; subst.
    cbn [zip_with]. apply Z.bits_inj'. intros i Hi.
    assert (bytes_ok (zip_with op a b)).
    { clear -op_fits Ha Hb'. revert b Hb'. induction Ha; intros [|] Hb; cbn; constructor;
        inversion Hb; subst; [apply op_fits; (done || lia)|auto]. }
    rewrite op_spec, !of_le_testbit_cons by (try done; apply op_fits; (done || lia)).
    case_decide; [by rewrite op_spec|]. rewrite <- IH, op_spec by (done || (cbn in Hl; lia)).
    done.
Qed.
End bitwise.

Lemma fits_land w a b : 0 <= w -> fits w a -> fits w b -> fits w (Z.land a b).
Proof. auto with ft. Qed.

Definition of_le_land := of_le_bitop Z.land andb Z.land_spec fits_land.
Definition of_le_lor := of_le_bitop Z.lor orb Z.lor_spec fits_lor.
Definition of_le_lxor := of_le_bitop Z.lxor xorb Z.lxor_spec fits_lxor.

Lemma of_le_zero bs : bytes_ok bs -> of_le bs = 0 <-> Forall (fun b => b = 0) bs.
Proof.
  induction 1 as [|b bs Hb Hbs IH]; [split; [constructor|done]|].
  cbn [of_le]. pose proof (of_le_bound bs Hbs). unfold fits in Hb.
  rewrite Forall_cons, <- IH. lia.
Qed.

Lemma of_le_repeat_ff n : of_le (replicate n 255) = Z.ones (8 * Z.of_nat n).
Proof.
  induction n as [|n IH]; [done|]. cbn [replicate of_le]. rewrite IH, !Z.ones_equiv.
  replace (8 * Z.of_nat (S n)) with (8 + 8 * Z.of_nat n) by lia.
  rewrite Z.pow_add_r by lia. change (2 ^ 8) with 256. lia.
Qed.

(** ** Single bits of a vector of bytes *)

(** [1 << i] as a [u8]. *)
Definition bit_u8 (i : nat) : Z := Z.shiftl 1 (Z.of_nat i).

(** Bit [e mod 8] of byte [e / 8]; [false] past the end. *)
Definition bit_at (data : list Z) (e : nat) : bool :=
  match data !! (e / 8)%nat with
  | Some b => Z.testbit b (Z.of_nat (e mod 8))
  | None => false
  end.

Lemma bit_u8_pow2 i : bit_u8 i = 2 ^ Z.of_nat i.
Proof. unfold bit_u8. rewrite Z.shiftl_mul_pow2 by lia. lia. Qed.

Lemma bit_u8_ok i : (i < 8)%nat -> byte_ok (bit_u8 i).
Proof. intros. rewrite bit_u8_pow2. apply fits_pow2. lia. Qed.

Lemma bit_u8_gtb b i : (Z.land b (bit_u8 i) >? 0) = Z.testbit b (Z.of_nat i).
Proof. rewrite bit_u8_pow2, land_pow2_gtb by lia. done. Qed.

Lemma bit_u8_eqb b i : (Z.land b (bit_u8 i) =? 0) = negb (Z.testbit b (Z.of_nat i)).
Proof. rewrite bit_u8_pow2, land_pow2_eqb by lia. done. Qed.

Lemma bit_u8_testbit i j : Z.testbit (bit_u8 i) (Z.of_nat j) = bool_decide (i = j).
Proof.
  rewrite bit_u8_pow2, Z.pow2_bits_eqb by lia. case_bool_decide; [subst; apply Z.eqb_refl|].
  apply Z.eqb_neq. lia.
Qed.

Lemma div_mod_8 k i : (i < 8 -> (k * 8 + i) / 8 = k /\ (k * 8 + i) mod 8 = i)%nat.
Proof. intros. dlia. Qed.

Lemma bit_at_cons b data e :
  bit_at (b :: data) e =
    if decide (e < 8)%nat then Z.testbit b (Z.of_nat e) else bit_at data (e - 8).
Proof.
  unfold bit_at. case_decide.
  - replace (e / 8)%nat with 0%nat by dlia. by replace (e mod 8)%nat with e by dlia.
  - replace (e / 8)%nat with (S ((e - 8) / 8)) by dlia.
    by replace ((e - 8) mod 8)%nat with (e mod 8)%nat by dlia.
Qed.

(** Replacing one byte changes the eight bits it holds. *)
Lemma bit_at_insert data k b e :
  (k < length data)%nat ->
  bit_at (<[k := b]> data) e =
    if decide (e / 8 = k)%nat then Z.testbit b (Z.of_nat (e mod 8)) else bit_at data e.
Proof.
  intros Hk. unfold bit_at. case_decide as Hd.
  - subst. by rewrite list_lookup_insert_eq.
  - by rewrite list_lookup_insert_ne.
Qed.

Lemma div_mod_8_inj (e e' : nat) : (e / 8 = e' / 8 -> e mod 8 = e' mod 8 -> e = e')%nat.
Proof. dlia. Qed.
