(* ===== verification/Rng.v ===== *)
(** * The random generator as an interface

    The code draws from the [rand] crate and iterates [HashSet]s in an
    unspecified order.  Both are outside the repository: they enter the model as
    the operations of [Rng], with the documented behaviour the code relies on as
    the laws of [RngLaws].  The [nat] argument stands for the state of the
    generator at the call. *)

From S2P Require Import Prelude.

Class Rng := {
  (** [SliceRandom::shuffle] *)
  rng_shuffle : forall {A}, nat -> list A -> list A;
  (** [IteratorRandom::choose_multiple] *)
  rng_choose_multiple : forall {A}, nat -> list A -> nat -> list A;
  (** [IteratorRandom::choose] *)
  rng_choose : forall {A}, nat -> list A -> option A;
  (** the order in which a [HashSet] of ids is iterated *)
  hash_iter : nat -> gset nat -> list nat;
}.

Class RngLaws `(R : Rng) := {
  (** [shuffle] permutes the slice in place. *)
  rng_shuffle_perm : forall A s (l : list A), rng_shuffle s l ≡ₚ l;
  (** [choose_multiple] samples without replacement, up to [n] elements. *)
  rng_choose_multiple_sub : forall A s (l : list A) n,
    exists rest, rng_choose_multiple s l n ++ rest ≡ₚ l;
  rng_choose_multiple_length : forall A s (l : list A) n,
    length (rng_choose_multiple s l n) = min n (length l);
  (** [choose] returns an element, and [None] only if there is none. *)
  rng_choose_elem : forall A s (l : list A),
    match rng_choose s l with Some x => x ∈ l | None => l = [] end;
  (** iterating a set visits each element once. *)
  hash_iter_elements : forall s X, hash_iter s X ≡ₚ elements X;
}.

(** A generator that always keeps the order and takes the first elements. *)
#[export] Instance first_rng : Rng := {|
  rng_shuffle := fun A _ l => l;
  rng_choose_multiple := fun A _ l n => take n l;
  rng_choose := fun A _ l => head l;
  hash_iter := fun _ X => elements X;
|}.

#[export] Instance first_rng_laws : RngLaws first_rng.
Proof.
  split; cbn; intros.
  - done.
  - exists (drop n l). by rewrite take_drop.
  - apply length_take.
  - destruct l; [done|]. by left.
  - done.
Qed.
