(* ===== verification/FiniteIntegerSet.v ===== *)
(** * [FiniteIntegerSet]: a set of small integers as a bit vector

    Models [scheduler/src/finite_integer_set.rs].  The [Vec<u8>] is a list of
    bytes; [usize] elements are [nat]; an operation that can panic returns an
    [outcome].  [represents] is the abstract specification: the structure stands
    for a finite set of integers up to [max_val], and every operation implements
    the set operation of its name. *)

From S2P Require Import Prelude Bytes Rng.

Record FiniteIntegerSet := mk_fis {
  fis_data : list Z;
  fis_max_val : nat;
}.

#[export] Instance FiniteIntegerSet_eq_dec : EqDecision FiniteIntegerSet.
Proof. solve_decision. Defined.

Definition FiniteIntegerSet_new (N : nat) : FiniteIntegerSet :=
  mk_fis (replicate (N / 8 + 1) 0) N.

Definition FiniteIntegerSet_idx (s : FiniteIntegerSet) (elem : nat) : outcome (nat * nat) :=
  if (elem <=? fis_max_val s)%nat
  then Ret ((elem / 8)%nat, (elem mod 8)%nat)
  else Panic.

Definition FiniteIntegerSet_insert (s : FiniteIntegerSet) (elem : nat)
    : outcome (bool * FiniteIntegerSet) :=
  idx ← FiniteIntegerSet_idx s elem;
  byte ← slice_get (fis_data s) idx.1;
  let ret := Z.land byte (bit_u8 idx.2) =? 0 in
  data ← slice_set (fis_data s) idx.1 (Z.lor byte (bit_u8 idx.2));
  mret (ret, mk_fis data (fis_max_val s)).

Definition FiniteIntegerSet_remove (s : FiniteIntegerSet) (elem : nat)
    : outcome FiniteIntegerSet :=
  idx ← FiniteIntegerSet_idx s elem;
  byte ← slice_get (fis_data s) idx.1;
  data ← slice_set (fis_data s) idx.1 (Z.land byte (not_w 8 (bit_u8 idx.2)));
  mret (mk_fis data (fis_max_val s)).

(** The three operators; [ret] starts as a clone of [self], so the bytes past the
    shorter operand keep the value of [self]. *)
Definition FiniteIntegerSet_bitor (s o : FiniteIntegerSet) : FiniteIntegerSet :=
  mk_fis (zip_onto Z.lor (fis_data s) (fis_data o)) (fis_max_val s).

Definition FiniteIntegerSet_bitand (s o : FiniteIntegerSet) : FiniteIntegerSet :=
  mk_fis (zip_onto Z.land (fis_data s) (fis_data o)) (fis_max_val s).

Definition FiniteIntegerSet_sub (s o : FiniteIntegerSet) : FiniteIntegerSet :=
  mk_fis (zip_onto (fun a b => Z.land a (not_w 8 b)) (fis_data s) (fis_data o))
         (fis_max_val s).

Definition FiniteIntegerSet_add (s o : FiniteIntegerSet) : FiniteIntegerSet :=
  FiniteIntegerSet_bitor s o.

(** [*self -= rhs] updates the bytes of [self] in place. *)
Definition FiniteIntegerSet_sub_assign (s o : FiniteIntegerSet) : FiniteIntegerSet :=
  mk_fis (zip_onto (fun a b => Z.land a (not_w 8 b)) (fis_data s) (fis_data o))
         (fis_max_val s).

Definition FiniteIntegerSet_symm_diff (s o : FiniteIntegerSet) : FiniteIntegerSet :=
  let in_both := FiniteIntegerSet_bitand s o in
  FiniteIntegerSet_sub (FiniteIntegerSet_bitor s o) in_both.

Definition FiniteIntegerSet_empty (s : FiniteIntegerSet) : bool :=
  negb (existsb (fun e => e >? 0) (fis_data s)).

Definition FiniteIntegerSet_size (s : FiniteIntegerSet) : nat :=
  foldl (fun ret b =>
    foldl (fun ret idx => if Z.land b (bit_u8 idx) >? 0 then S ret else ret)
      ret (seq 0 8)) 0%nat (fis_data s).

Definition FiniteIntegerSet_len (s : FiniteIntegerSet) : nat := FiniteIntegerSet_size s.

Definition FiniteIntegerSet_entries (s : FiniteIntegerSet) : gset nat :=
  foldl (fun res '(byte_idx, byte) =>
    foldl (fun res bit_idx =>
      if Z.land byte (bit_u8 bit_idx) >? 0
      then {[ (byte_idx * 8 + bit_idx)%nat ]} ∪ res else res)
      res (seq 0 8)) ∅ (imap pair (fis_data s)).

Definition FiniteIntegerSet_contains (s : FiniteIntegerSet) (id : nat) : bool :=
  bool_decide (id ∈ FiniteIntegerSet_entries s).

Definition FiniteIntegerSet_eq (s o : FiniteIntegerSet) : bool :=
  bool_decide (fis_data s = fis_data o) && (fis_max_val s =? fis_max_val o)%nat.

Fixpoint FiniteIntegerSet_extend (map : FiniteIntegerSet) (l : list nat)
    : outcome FiniteIntegerSet :=
  match l with
  | [] => mret map
  | v :: l => r ← FiniteIntegerSet_insert map v; FiniteIntegerSet_extend r.2 l
  end.

Definition FiniteIntegerSet_from_iter (N : nat) (l : list nat) : outcome FiniteIntegerSet :=
  FiniteIntegerSet_extend (FiniteIntegerSet_new N) l.

Section random.
Context `{R : Rng}.

Definition FiniteIntegerSet_into_iter (seed : nat) (s : FiniteIntegerSet) : list nat :=
  hash_iter seed (FiniteIntegerSet_entries s).

(** [N] is the const parameter of the type, which the result shares. *)
Definition FiniteIntegerSet_choose_random (seed N : nat) (s : FiniteIntegerSet) (max : nat)
    : outcome FiniteIntegerSet :=
  let entries := rng_choose_multiple seed
                   (hash_iter seed (FiniteIntegerSet_entries s)) max in
  FiniteIntegerSet_from_iter N (rng_shuffle seed entries).

Definition FiniteIntegerSet_get_sub_set (seed N : nat) (s : FiniteIntegerSet) (n : nat)
    : outcome FiniteIntegerSet :=
  let entries := rng_shuffle seed (hash_iter seed (FiniteIntegerSet_entries s)) in
  FiniteIntegerSet_from_iter N (take n entries).
End random.

(** ** The bits of the vector *)

(** The set bits of [data], numbered from byte [k] on. *)
Fixpoint set_bits (k : nat) (data : list Z) : list nat :=
  match data with
  | [] => []
  | b :: data =>
      ((fun i => k * 8 + i)%nat <$> List.filter (fun i => Z.testbit b (Z.of_nat i)) (seq 0 8))
      ++ set_bits (S k) data
  end.

Lemma elem_of_set_bits k data e :
  e ∈ set_bits k data <-> (k * 8 <= e)%nat /\ bit_at data (e - k * 8) = true.
Proof.
  revert k. induction data as [|b data IH]; intros k; cbn [set_bits].
  - unfold bit_at. rewrite lookup_nil, elem_of_nil. naive_solver.
  - rewrite elem_of_app, IH, list_elem_of_fmap, bit_at_cons.
    setoid_rewrite list_elem_of_In. setoid_rewrite filter_In. setoid_rewrite in_seq.
    case_decide as Hd.
    + split.
      * intros [(i & -> & Hi & Hb)|[? _]]; [|lia]. split; [lia|].
        by replace (k * 8 + i - k * 8)%nat with i by lia.
      * intros [Hk Hb]. left. exists (e - k * 8)%nat. split; [lia|]. split; [lia|done].
    + split.
      * intros [(i & -> & Hi & Hb)|[? Hb]]; [lia|]. split; [lia|].
        by replace (e - k * 8 - 8)%nat with (e - S k * 8)%nat by lia.
      * intros [Hk Hb]. right. split; [lia|].
        by replace (e - S k * 8)%nat with (e - k * 8 - 8)%nat by lia.
Qed.

Lemma set_bits_NoDup k data : NoDup (set_bits k data).
Proof.
  revert k. induction data as [|b data IH]; intros k; cbn [set_bits]; [constructor|].
  apply NoDup_app. split; [|split; [|apply IH]].
  - apply NoDup_fmap; [intros ??; lia|]. apply NoDup_ListNoDup, List.NoDup_filter, seq_NoDup.
  - intros e He [Hk _]%elem_of_set_bits. apply list_elem_of_fmap in He as (i & -> & Hi).
    apply list_elem_of_In, filter_In in Hi as [Hi _]. apply in_seq in Hi. lia.
Qed.

Lemma entries_fold_elem (l : list (nat * Z)) (X : gset nat) x :
  x ∈ foldl (fun res '(byte_idx, byte) =>
        foldl (fun res bit_idx =>
          if Z.land byte (bit_u8 bit_idx) >? 0
          then {[ (byte_idx * 8 + bit_idx)%nat ]} ∪ res else res)
          res (seq 0 8)) X l <->
  x ∈ X \/ exists k b, (k, b) ∈ l /\ (k * 8 <= x < k * 8 + 8)%nat /\
                 Z.testbit b (Z.of_nat (x - k * 8)) = true.
Proof.
  revert X. induction l as [|[k b] l IH]; intros X; cbn [foldl].
  - setoid_rewrite elem_of_nil. naive_solver.
  - rewrite IH, elem_of_foldl_insert. split.
    + intros [[HX|(i & Hi%elem_of_seq & Hb & ->)]|(k' & b' & Hl & ?)];
        [by left| |right; exists k', b'; split; [by right|done]].
      right. exists k, b. rewrite bit_u8_gtb in Hb. split; [by left|]. split; [lia|].
      by replace (k * 8 + i - k * 8)%nat with i by lia.
    + intros [HX|(k' & b' & [[= -> ->]|Hl]%elem_of_cons & Hr & Hb)]; [by eauto| |right; exists k', b'; auto].
      left. right. exists (x - k * 8)%nat. rewrite bit_u8_gtb, elem_of_seq.
      split; [lia|]. split; [done|lia].
Qed.

Lemma elem_of_entries s e :
  e ∈ FiniteIntegerSet_entries s <-> bit_at (fis_data s) e = true.
Proof.
  unfold FiniteIntegerSet_entries. rewrite entries_fold_elem. split.
  - intros [He|(k & b & Hl & Hr & Hb)]; [by apply elem_of_empty in He|].
    apply list_elem_of_lookup in Hl as [i Hi]. rewrite list_lookup_imap in Hi.
    apply fmap_Some in Hi as (b' & Hi & [= -> ->]). unfold bit_at.
    replace (e / 8)%nat with i by dlia. rewrite Hi.
    by replace (e mod 8)%nat with (e - i * 8)%nat by dlia.
  - unfold bit_at. destruct (fis_data s !! (e / 8)%nat) as [b|] eqn:E; [|done].
    intros Hb. right. exists (e / 8)%nat, b. split.
    + apply list_elem_of_lookup. exists (e / 8)%nat. by rewrite list_lookup_imap, E.
    + split; [dlia|]. by replace (e - e / 8 * 8)%nat with (e mod 8)%nat by dlia.
Qed.

Lemma entries_set_bits s :
  FiniteIntegerSet_entries s = list_to_set (set_bits 0 (fis_data s)).
Proof.
  apply set_eq. intros e. rewrite elem_of_entries, elem_of_list_to_set, elem_of_set_bits.
  rewrite Nat.mul_0_l, Nat.sub_0_r. intuition lia.
Qed.

Lemma size_fold_set_bits (data : list Z) k n :
  foldl (fun ret b =>
    foldl (fun ret idx => if Z.land b (bit_u8 idx) >? 0 then S ret else ret)
      ret (seq 0 8)) n data = (n + length (set_bits k data))%nat.
Proof.
  revert k n. induction data as [|b data IH]; intros k n; cbn [foldl set_bits]; [cbn; lia|].
  rewrite (IH (S k)), foldl_count, length_app, length_fmap.
  rewrite (List.filter_ext _ _ (bit_u8_gtb b)). lia.
Qed.

Lemma size_set_bits s : FiniteIntegerSet_size s = length (set_bits 0 (fis_data s)).
Proof. apply (size_fold_set_bits (fis_data s) 0 0). Qed.

Lemma fis_size_entries s :
  FiniteIntegerSet_size s = size (FiniteIntegerSet_entries s).
Proof.
  rewrite size_set_bits, entries_set_bits, size_list_to_set; [done|apply set_bits_NoDup].
Qed.

(** ** The representation invariant and the abstract set *)

Record fis_wf (s : FiniteIntegerSet) : Prop := {
  fis_wf_length : length (fis_data s) = (fis_max_val s / 8 + 1)%nat;
  fis_wf_bytes : bytes_ok (fis_data s);
  fis_wf_max : forall e, bit_at (fis_data s) e = true -> (e <= fis_max_val s)%nat;
}.

(** [s] is a well-formed set over [0..=N] whose members are [X]. *)
Definition represents (N : nat) (s : FiniteIntegerSet) (X : gset nat) : Prop :=
  fis_wf s /\ fis_max_val s = N /\ FiniteIntegerSet_entries s = X.

Lemma idx_in_range s e :
  fis_wf s -> (e <= fis_max_val s)%nat ->
  exists b, fis_data s !! (e / 8)%nat = Some b /\ byte_ok b.
Proof.
  intros [Hl Hb _] He.
  destruct (lookup_lt_is_Some_2 (fis_data s) (e / 8)) as [b E]; [rewrite Hl; dlia|].
  exists b. split; [done|]. by eapply Forall_lookup_1 in E.
Qed.

Lemma entries_ext s s' :
  (forall e, bit_at (fis_data s) e = bit_at (fis_data s') e) ->
  FiniteIntegerSet_entries s = FiniteIntegerSet_entries s'.
Proof. intros H. apply set_eq. intros e. by rewrite !elem_of_entries, H. Qed.

(** A write that changes at most bit [e mod 8] of byte [e / 8]. *)
Lemma update_bit s e b b' :
  fis_wf s -> (e <= fis_max_val s)%nat -> fis_data s !! (e / 8)%nat = Some b ->
  byte_ok b' ->
  (forall j, (j < 8)%nat -> j <> (e mod 8)%nat ->
     Z.testbit b' (Z.of_nat j) = Z.testbit b (Z.of_nat j)) ->
  let s' := mk_fis (<[(e / 8)%nat := b']> (fis_data s)) (fis_max_val s) in
  fis_wf s' /\
  forall x, bit_at (fis_data s') x =
    if decide (x = e) then Z.testbit b' (Z.of_nat (e mod 8)) else bit_at (fis_data s) x.
Proof.
  intros [Hl Hb Hm] He E Hb' Hj. pose proof (lookup_lt_Some _ _ _ E) as Hlt.
  assert (Hbit : forall x, bit_at (<[(e / 8)%nat := b']> (fis_data s)) x =
    if decide (x = e) then Z.testbit b' (Z.of_nat (e mod 8)) else bit_at (fis_data s) x).
  { intros x. rewrite bit_at_insert by done. repeat case_decide; subst; try done.
    unfold bit_at. replace (x / 8)%nat with (e / 8)%nat. rewrite E.
    apply Hj; [dlia|]. intros ?. by apply H0, div_mod_8_inj. }
  split; [|exact Hbit]. split; cbn.
  - by rewrite length_insert.
  - by apply Forall_insert.
  - intros x. rewrite Hbit. case_decide; [by subst|apply Hm].
Qed.

Lemma fis_insert_spec s e :
  fis_wf s -> (e <= fis_max_val s)%nat ->
  exists s', FiniteIntegerSet_insert s e
               = Ret (bool_decide (e ∉ FiniteIntegerSet_entries s), s') /\
    fis_wf s' /\ fis_max_val s' = fis_max_val s /\
    FiniteIntegerSet_entries s' = {[ e ]} ∪ FiniteIntegerSet_entries s.
Proof.
  intros Hwf He. destruct (idx_in_range s e Hwf He) as (b & E & Hb).
  assert (Hm : (e mod 8 < 8)%nat) by dlia.
  destruct (update_bit s e b (Z.lor b (bit_u8 (e mod 8))) Hwf He E) as [Hwf' Hbit].
  - apply fits_lor; [lia|done|by apply bit_u8_ok].
  - intros j Hj Hne. rewrite Z.lor_spec, bit_u8_testbit, bool_decide_false by done.
    apply orb_false_r.
  - eexists. split; [|split; [exact Hwf'|split; [done|]]].
    + unfold FiniteIntegerSet_insert, FiniteIntegerSet_idx.
      rewrite (proj2 (Nat.leb_le _ _) He). cbn [mbind outcome_bind fst snd].
      rewrite (proj2 (slice_get_Ret _ _ _) E). cbn [mbind outcome_bind].
      rewrite slice_set_lt by (by eapply lookup_lt_Some). cbn [mbind outcome_bind].
      rewrite bit_u8_eqb. do 3 f_equal.
      rewrite (bool_decide_ext _ (bit_at (fis_data s) e <> true)) by (by rewrite elem_of_entries).
      unfold bit_at. rewrite E. by destruct (Z.testbit b _).
    + apply set_eq. intros x.
      rewrite elem_of_union, elem_of_singleton, !elem_of_entries, Hbit.
      case_decide; [subst|by intuition].
      rewrite Z.lor_spec, bit_u8_testbit, bool_decide_true, orb_true_r by done. intuition.
Qed.

Lemma fis_remove_spec s e :
  fis_wf s -> (e <= fis_max_val s)%nat ->
  exists s', FiniteIntegerSet_remove s e = Ret s' /\
    fis_wf s' /\ fis_max_val s' = fis_max_val s /\
    FiniteIntegerSet_entries s' = FiniteIntegerSet_entries s ∖ {[ e ]}.
Proof.
  intros Hwf He. destruct (idx_in_range s e Hwf He) as (b & E & Hb).
  assert (Hm : (e mod 8 < 8)%nat) by dlia.
  destruct (update_bit s e b (Z.land b (not_w 8 (bit_u8 (e mod 8)))) Hwf He E) as [Hwf' Hbit].
  - by apply fits_land_l.
  - intros j Hj Hne. rewrite Z.land_spec, not_w_spec, bit_u8_testbit, bool_decide_false by (done || lia).
    apply andb_true_r.
  - eexists. split; [|split; [exact Hwf'|split; [done|]]].
    + unfold FiniteIntegerSet_remove, FiniteIntegerSet_idx.
      rewrite (proj2 (Nat.leb_le _ _) He). cbn [mbind outcome_bind fst snd].
      rewrite (proj2 (slice_get_Ret _ _ _) E). cbn [mbind outcome_bind].
      by rewrite slice_set_lt by (by eapply lookup_lt_Some).
    + apply set_eq. intros x.
      rewrite elem_of_difference, elem_of_singleton, !elem_of_entries, Hbit.
      case_decide; [subst|by intuition].
      rewrite Z.land_spec, not_w_spec, bit_u8_testbit, bool_decide_true, andb_false_r by (done || lia).
      intuition done.
Qed.

Lemma fis_idx_out_of_range s e :
  (fis_max_val s < e)%nat ->
  FiniteIntegerSet_insert s e = Panic /\ FiniteIntegerSet_remove s e = Panic.
Proof.
  intros He. unfold FiniteIntegerSet_insert, FiniteIntegerSet_remove, FiniteIntegerSet_idx.
  assert ((e <=? fis_max_val s)%nat = false) as -> by (apply Nat.leb_gt; lia). done.
Qed.

Lemma fis_new_wf N : fis_wf (FiniteIntegerSet_new N).
Proof.
  split; cbn.
  - apply length_replicate.
  - apply Forall_replicate. done.
  - intros e. unfold bit_at. destruct (_ !! _) eqn:E; [|done].
    apply lookup_replicate in E as [-> _]. by rewrite Z.testbit_0_l.
Qed.

Lemma fis_new_entries N : FiniteIntegerSet_entries (FiniteIntegerSet_new N) = ∅.
Proof.
  apply set_eq. intros e. rewrite elem_of_entries. cbn. unfold bit_at.
  destruct (_ !! _) eqn:E; [|split; [done|by intros ?%elem_of_empty]].
  apply lookup_replicate in E as [-> _]. rewrite Z.testbit_0_l.
  split; [done|by intros ?%elem_of_empty].
Qed.

(** ** The bytewise operators *)

Section bytewise.
Context (f : Z -> Z -> Z) (bop : bool -> bool -> bool).
Context (f_spec : forall a b j, (j < 8)%nat -> byte_ok a -> byte_ok b ->
  Z.testbit (f a b) (Z.of_nat j) = bop (Z.testbit a (Z.of_nat j)) (Z.testbit b (Z.of_nat j))).
Context (f_fits : forall a b, byte_ok a -> byte_ok b -> byte_ok (f a b)).
Context (bop_ff : bop false false = false).

Lemma zip_onto_bit a b e :
  length a = length b -> bytes_ok a -> bytes_ok b ->
  bit_at (zip_onto f a b) e = bop (bit_at a e) (bit_at b e).
Proof using f_spec bop_ff.
  intros Hl Ha Hb. unfold bit_at. rewrite zip_onto_lookup by done.
  destruct (a !! (e / 8)%nat) as [x|] eqn:Ex; cbn [mbind option_bind].
  - destruct (lookup_lt_is_Some_2 b (e / 8)) as [y Ey].
    { rewrite <- Hl. by eapply lookup_lt_Some. }
    rewrite Ey. cbn [mbind option_bind]. apply f_spec;
      [dlia|exact (Forall_lookup_1 _ _ _ _ Ha Ex)|exact (Forall_lookup_1 _ _ _ _ Hb Ey)].
  - apply lookup_ge_None in Ex. rewrite (lookup_ge_None_2 b) by lia. done.
Qed.

Lemma zip_onto_wf s o :
  fis_wf s -> fis_wf o -> fis_max_val s = fis_max_val o ->
  fis_wf (mk_fis (zip_onto f (fis_data s) (fis_data o)) (fis_max_val s)) /\
  forall e, bit_at (zip_onto f (fis_data s) (fis_data o)) e
            = bop (bit_at (fis_data s) e) (bit_at (fis_data o) e).
Proof using f_spec f_fits bop_ff.
  intros [Hl Hb Hm] [Hl' Hb' Hm'] HN.
  assert (Hlen : length (fis_data s) = length (fis_data o)) by congruence.
  split; [|intros e; by apply zip_onto_bit]. split; cbn.
  - by rewrite zip_onto_length.
  - by apply Forall_zip_onto.
  - intros e. rewrite zip_onto_bit by done. intros He.
    destruct (bit_at (fis_data s) e) eqn:E1; [by apply Hm|].
    destruct (bit_at (fis_data o) e) eqn:E2; [rewrite HN; by apply Hm'|].
    congruence.
Qed.
End bytewise.

Lemma andnot_bits a b (j : nat) :
  (j < 8)%nat ->
  Z.testbit (Z.land a (not_w 8 b)) (Z.of_nat j) =
  Z.testbit a (Z.of_nat j) && negb (Z.testbit b (Z.of_nat j)).
Proof. intros. by rewrite Z.land_spec, not_w_spec by lia. Qed.

Section set_ops.
Context (s o : FiniteIntegerSet).
Context (Hs : fis_wf s) (Ho : fis_wf o) (HN : fis_max_val s = fis_max_val o).

Lemma fis_bitor_spec :
  fis_wf (FiniteIntegerSet_bitor s o) /\
  FiniteIntegerSet_entries (FiniteIntegerSet_bitor s o)
    = FiniteIntegerSet_entries s ∪ FiniteIntegerSet_entries o.
Proof using Hs Ho HN.
  destruct (zip_onto_wf Z.lor orb) with (s := s) (o := o) as [Hwf Hbit]; auto with ft.
  { intros. apply Z.lor_spec. }
  { intros. apply fits_lor; (done || lia). }
  split; [exact Hwf|]. apply set_eq. intros e.
  rewrite elem_of_union, !elem_of_entries. cbn. rewrite Hbit, orb_true_iff. done.
Qed.

Lemma fis_bitand_spec :
  fis_wf (FiniteIntegerSet_bitand s o) /\
  FiniteIntegerSet_entries (FiniteIntegerSet_bitand s o)
    = FiniteIntegerSet_entries s ∩ FiniteIntegerSet_entries o.
Proof using Hs Ho HN.
  destruct (zip_onto_wf Z.land andb) with (s := s) (o := o) as [Hwf Hbit]; auto with ft.
  { intros. apply Z.land_spec. }
  { intros. by apply fits_land_l. }
  split; [exact Hwf|]. apply set_eq. intros e.
  rewrite elem_of_intersection, !elem_of_entries. cbn. rewrite Hbit, andb_true_iff. done.
Qed.

Lemma fis_sub_spec :
  fis_wf (FiniteIntegerSet_sub s o) /\
  FiniteIntegerSet_entries (FiniteIntegerSet_sub s o)
    = FiniteIntegerSet_entries s ∖ FiniteIntegerSet_entries o.
Proof using Hs Ho HN.
  destruct (zip_onto_wf (fun a b => Z.land a (not_w 8 b)) (fun a b => a && negb b))
    with (s := s) (o := o) as [Hwf Hbit]; auto.
  { intros. by apply andnot_bits. }
  { intros. by apply fits_land_l. }
  split; [exact Hwf|]. apply set_eq. intros e.
  rewrite elem_of_difference, !elem_of_entries. cbn.
  rewrite Hbit, andb_true_iff, negb_true_iff, not_true_iff_false. done.
Qed.
End set_ops.

Lemma fis_symm_diff_spec s o :
  fis_wf s -> fis_wf o -> fis_max_val s = fis_max_val o ->
  fis_wf (FiniteIntegerSet_symm_diff s o) /\
  FiniteIntegerSet_entries (FiniteIntegerSet_symm_diff s o)
    = (FiniteIntegerSet_entries s ∪ FiniteIntegerSet_entries o)
      ∖ (FiniteIntegerSet_entries s ∩ FiniteIntegerSet_entries o).
Proof.
  intros Hs Ho HN. destruct (fis_bitor_spec s o) as [Hor Eor]; [done..|].
  destruct (fis_bitand_spec s o) as [Hand Eand]; [done..|].
  destruct (fis_sub_spec (FiniteIntegerSet_bitor s o) (FiniteIntegerSet_bitand s o)) as [Hsub Esub];
    [done..|]. split; [done|]. unfold FiniteIntegerSet_symm_diff. by rewrite Esub, Eor, Eand.
Qed.

(** ** The observers *)

Lemma bit_at_byte data k b :
  data !! k = Some b -> byte_ok b ->
  b = 0 <-> forall j, (j < 8)%nat -> bit_at data (k * 8 + j) = false.
Proof.
  intros E Hb.
  assert (Hbit : forall j, (j < 8)%nat -> bit_at data (k * 8 + j) = Z.testbit b (Z.of_nat j)).
  { intros j Hj. unfold bit_at. destruct (div_mod_8 k j Hj) as [-> ->]. by rewrite E. }
  split.
  - intros -> j Hj. by rewrite Hbit, Z.testbit_0_l.
  - intros H. apply (testbit_ext 8); [lia|done|done|]. intros i Hi.
    specialize (H (Z.to_nat i) ltac:(lia)). rewrite Hbit, Z2Nat.id in H by lia.
    by rewrite H, Z.testbit_0_l.
Qed.

Lemma fis_empty_spec s :
  fis_wf s -> FiniteIntegerSet_empty s = true <-> FiniteIntegerSet_entries s = ∅.
Proof.
  intros [_ Hb _]. unfold FiniteIntegerSet_empty. rewrite negb_true_iff. split.
  - intros He. apply set_eq. intros x. split; [|by intros ?%elem_of_empty].
    intros Hx%elem_of_entries. exfalso. unfold bit_at in Hx.
    destruct (fis_data s !! _) as [b|] eqn:E; [|done].
    assert (Hf : existsb (fun e => e >? 0) (fis_data s) = true); [|congruence].
    apply existsb_exists. exists b. split; [eapply list_elem_of_In, list_elem_of_lookup_2, E|].
    pose proof (Forall_lookup_1 _ _ _ _ Hb E) as Hok. unfold fits in Hok.
    assert (b <> 0) by (intros ->; by rewrite Z.testbit_0_l in Hx). apply Z.gtb_lt. lia.
  - intros He. apply not_true_iff_false. intros (b & [k E]%list_elem_of_In%list_elem_of_lookup & Hgt)
      %existsb_exists. apply Z.gtb_lt in Hgt.
    assert (b = 0); [|lia]. apply (bit_at_byte _ k b E (Forall_lookup_1 _ _ _ _ Hb E)).
    intros j Hj. apply not_true_iff_false. rewrite <- elem_of_entries, He. apply not_elem_of_empty.
Qed.

Lemma bit_at_data_ext a b :
  length a = length b -> bytes_ok a -> bytes_ok b ->
  (forall e, bit_at a e = bit_at b e) -> a = b.
Proof.
  intros Hl Ha Hb Hbit. apply list_eq_same_length with (length a); [done..|].
  intros k x y Hk Ex Ey.
  apply (testbit_ext 8); [lia| | |];
    [exact (Forall_lookup_1 _ _ _ _ Ha Ex)|exact (Forall_lookup_1 _ _ _ _ Hb Ey)|].
  intros i Hi. specialize (Hbit (k * 8 + Z.to_nat i)%nat). unfold bit_at in Hbit.
  destruct (div_mod_8 k (Z.to_nat i)) as [E1 E2]; [lia|].
  by rewrite E1, E2, Ex, Ey, Z2Nat.id in Hbit by lia.
Qed.

Lemma fis_eq_spec s o :
  fis_wf s -> fis_wf o -> fis_max_val s = fis_max_val o ->
  FiniteIntegerSet_eq s o = true <-> FiniteIntegerSet_entries s = FiniteIntegerSet_entries o.
Proof.
  intros [Hl Hb _] [Hl' Hb' _] HN. unfold FiniteIntegerSet_eq.
  rewrite HN, Nat.eqb_refl, andb_true_r, bool_decide_eq_true. split.
  - intros E. apply entries_ext. by rewrite E.
  - intros E. apply bit_at_data_ext; [congruence|done..|]. intros e.
    apply eq_true_iff_eq. by rewrite <- !elem_of_entries, E.
Qed.

Lemma fis_extend_spec l s :
  fis_wf s -> Forall (fun e => e <= fis_max_val s)%nat l ->
  exists s', FiniteIntegerSet_extend s l = Ret s' /\ fis_wf s' /\
    fis_max_val s' = fis_max_val s /\
    FiniteIntegerSet_entries s' = list_to_set l ∪ FiniteIntegerSet_entries s.
Proof.
  revert s. induction l as [|e l IH]; intros s Hwf Hl; cbn [FiniteIntegerSet_extend].
  - exists s. do 3 (split; [done|]). cbn. by rewrite union_empty_l_L.
  - inversion Hl as [|?? He Hl']; subst.
    destruct (fis_insert_spec s e Hwf He) as (s1 & -> & Hwf1 & Hmax1 & E1).
    destruct (IH s1) as (s' & Es & Hwf' & Hmax' & E'); [done|by rewrite Hmax1|].
    exists s'. split; [exact Es|]. split; [done|]. split; [congruence|].
    rewrite E', E1, list_to_set_cons. by rewrite (assoc_L (∪)), (comm_L (∪) (list_to_set l)).
Qed.

Lemma fis_extend_panics l s :
  fis_wf s -> ~ Forall (fun e => e <= fis_max_val s)%nat l ->
  FiniteIntegerSet_extend s l = Panic.
Proof.
  revert s. induction l as [|e l IH]; intros s Hwf Hl; cbn [FiniteIntegerSet_extend].
  - destruct Hl. constructor.
  - destruct (decide (e <= fis_max_val s)%nat) as [He|He].
    + destruct (fis_insert_spec s e Hwf He) as (s1 & -> & Hwf1 & Hmax1 & _).
      apply (IH s1); [done|]. rewrite Hmax1. intros H. by destruct Hl; constructor.
    + destruct (fis_idx_out_of_range s e) as [-> _]; [lia|done].
Qed.

Lemma represents_bound N s X e : represents N s X -> e ∈ X -> (e <= N)%nat.
Proof. intros (Hwf & <- & <-) He%elem_of_entries. by apply fis_wf_max. Qed.

Lemma fis_from_iter_represents N l :
  Forall (fun e => e <= N)%nat l ->
  exists s, FiniteIntegerSet_from_iter N l = Ret s /\ represents N s (list_to_set l).
Proof.
  intros Hl. destruct (fis_extend_spec l (FiniteIntegerSet_new N) (fis_new_wf N) Hl)
    as (s & Es & Hwf & Hmax & E).
  exists s. split; [exact Es|]. split; [done|]. split; [done|].
  by rewrite E, fis_new_entries, union_empty_r_L.
Qed.

Lemma represents_size N s X : represents N s X -> FiniteIntegerSet_size s = size X /\ (size X <= S N)%nat.
Proof.
  intros Hr. split; [destruct Hr as (_ & _ & <-); apply fis_size_entries|].
  rewrite <- (size_set_seq (C := gset nat) 0 (S N)). apply subseteq_size. intros e He. apply elem_of_set_seq.
  pose proof (represents_bound _ _ _ _ Hr He). lia.
Qed.

(** [collect] returns only sets. *)
Lemma from_iter_Ret N l s : FiniteIntegerSet_from_iter N l = Ret s -> represents N s (list_to_set l).
Proof.
  intros E. destruct (decide (Forall (fun e => e <= N)%nat l)) as [Hl|Hl].
  - destruct (fis_from_iter_represents N l Hl) as (s' & E' & Hr). congruence.
  - pose proof (fis_extend_panics l (FiniteIntegerSet_new N) (fis_new_wf N) Hl) as Hp.
    unfold FiniteIntegerSet_from_iter in E. congruence.
Qed.

(** A sample of the members, in any order, rebuilds a subset of that size. *)
Lemma fis_sample N s X l rest :
  represents N s X -> l ++ rest ≡ₚ elements X ->
  exists s' Y, FiniteIntegerSet_from_iter N l = Ret s' /\
    represents N s' Y /\ Y ⊆ X /\ size Y = length l.
Proof.
  intros Hr Hp.
  assert (Hin : forall e, e ∈ l -> e ∈ X).
  { intros e He. apply elem_of_elements. rewrite <- Hp. apply elem_of_app. by left. }
  assert (Hnd : NoDup (l ++ rest)) by (rewrite Hp; apply NoDup_elements).
  apply NoDup_app in Hnd as [Hnd _].
  destruct (fis_from_iter_represents N l) as (s' & E & Hr').
  { apply Forall_forall. intros e He. eapply represents_bound; eauto. }
  exists s', (list_to_set l). split; [done|]. split; [done|]. split.
  - intros e He%elem_of_list_to_set. auto.
  - by apply size_list_to_set.
Qed.

Lemma hash_iter_length `{R : Rng, !RngLaws R} seed (X : gset nat) :
  length (hash_iter seed X) = size X.
Proof. by rewrite hash_iter_elements. Qed.

(** ** The refinement of finite sets *)

Lemma insert_represents N s X e :
  represents N s X -> (e <= N)%nat ->
  exists s', FiniteIntegerSet_insert s e = Ret (bool_decide (e ∉ X), s') /\
    represents N s' ({[ e ]} ∪ X).
Proof.
  intros (Hwf & <- & <-) He. destruct (fis_insert_spec s e Hwf He) as (s' & E & ?). by exists s'.
Qed.

(** C30: [insert] and [remove] implement set insertion and removal.  On a set over
    [0..=N] standing for [X] and an element up to [N], [insert] returns whether the
    element was new and leaves a well-formed set standing for [X] with it, and
    [remove] leaves one standing for [X] without it; on an element above [N] both
    panic. *)
Theorem fis_insert_remove_refine N s X e :
  represents N s X ->
  ((e <= N)%nat ->
    (exists s', FiniteIntegerSet_insert s e = Ret (bool_decide (e ∉ X), s') /\
       represents N s' ({[ e ]} ∪ X)) /\
    (exists s', FiniteIntegerSet_remove s e = Ret s' /\ represents N s' (X ∖ {[ e ]}))) /\
  ((N < e)%nat ->
    FiniteIntegerSet_insert s e = Panic /\ FiniteIntegerSet_remove s e = Panic).
Proof.
  intros Hr. pose proof Hr as (Hwf & <- & <-).
  split; [intros He; split; [by apply insert_represents|]|apply fis_idx_out_of_range].
  destruct (fis_remove_spec s e Hwf He) as (s' & E & ?). by exists s'.
Qed.

(** The operators [|], [+], [&], [-], [-=] and [symm_diff] on two sets over the
    same [0..=N] produce well-formed sets standing for the union, the union, the
    intersection, the difference, the difference and the symmetric difference. *)
Theorem fis_operators_refine N s o X Y :
  represents N s X -> represents N o Y ->
  represents N (FiniteIntegerSet_bitor s o) (X ∪ Y) /\
  represents N (FiniteIntegerSet_add s o) (X ∪ Y) /\
  represents N (FiniteIntegerSet_bitand s o) (X ∩ Y) /\
  represents N (FiniteIntegerSet_sub s o) (X ∖ Y) /\
  represents N (FiniteIntegerSet_sub_assign s o) (X ∖ Y) /\
  represents N (FiniteIntegerSet_symm_diff s o) ((X ∖ Y) ∪ (Y ∖ X)).
Proof.
  intros (Hs & HNs & <-) (Ho & HNo & <-). unfold represents.
  destruct (fis_bitor_spec s o) as [Hor Eor]; [congruence..|].
  destruct (fis_bitand_spec s o) as [Hand Eand]; [congruence..|].
  destruct (fis_sub_spec s o) as [Hsub Esub]; [congruence..|].
  destruct (fis_symm_diff_spec s o) as [Hsd Esd]; [congruence..|].
  repeat split; try (apply Hor || apply Hand || apply Hsub || apply Hsd || done).
  rewrite Esd. apply set_eq. intros x. destruct (decide (x ∈ FiniteIntegerSet_entries s));
    destruct (decide (x ∈ FiniteIntegerSet_entries o)); set_solver.
Qed.

(** [size] and [len] count the members, [empty] answers whether there are none,
    [contains] is membership, and [==], which compares the byte vectors, is
    equality of the sets they stand for. *)
Theorem fis_observers_refine N s o X Y :
  represents N s X -> represents N o Y ->
  FiniteIntegerSet_size s = size X /\
  FiniteIntegerSet_len s = size X /\
  (FiniteIntegerSet_empty s = true <-> X = ∅) /\
  (forall e, FiniteIntegerSet_contains s e = true <-> e ∈ X) /\
  (FiniteIntegerSet_eq s o = true <-> X = Y).
Proof.
  intros (Hs & HNs & <-) (Ho & HNo & <-). split; [apply fis_size_entries|].
  split; [apply fis_size_entries|]. split; [by apply fis_empty_spec|].
  split; [intros e; apply bool_decide_eq_true|]. apply fis_eq_spec; congruence.
Qed.

Lemma choose_random_spec `{R : Rng, !RngLaws R} seed N s X n :
  represents N s X ->
  exists s' Y, FiniteIntegerSet_choose_random seed N s n = Ret s' /\
    represents N s' Y /\ Y ⊆ X /\ size Y = min n (size X).
Proof.
  intros Hr. pose proof Hr as (_ & _ & HX).
  unfold FiniteIntegerSet_choose_random. rewrite HX.
  destruct (rng_choose_multiple_sub _ seed (hash_iter seed X) n) as [rest Hp].
  destruct (fis_sample N s X (rng_shuffle seed (rng_choose_multiple seed (hash_iter seed X) n))
    rest) as (s' & Y & E & Hr' & Hsub & Hsz); [done| |].
  - by rewrite rng_shuffle_perm, Hp, hash_iter_elements.
  - exists s', Y. do 3 (split; [done|]).
    by rewrite Hsz, rng_shuffle_perm, rng_choose_multiple_length, hash_iter_length.
Qed.

Lemma sub_assign_represents N s o X Y :
  represents N s X -> represents N o Y -> represents N (FiniteIntegerSet_sub_assign s o) (X ∖ Y).
Proof.
  intros (Hs & HNs & <-) (Ho & HNo & <-). destruct (fis_sub_spec s o) as [Hsub Esub]; [congruence..|].
  split; [apply Hsub|]. split; [exact HNs|exact Esub].
Qed.

(** For every generator that shuffles and samples as documented,
    [choose_random] and [get_sub_set] never panic and return a well-formed subset
    of exactly [min(n, size)] members. *)
Theorem fis_random_subset `{R : Rng, !RngLaws R} seed N s X n :
  represents N s X ->
  (exists s' Y, FiniteIntegerSet_choose_random seed N s n = Ret s' /\
     represents N s' Y /\ Y ⊆ X /\ size Y = min n (size X)) /\
  (exists s' Y, FiniteIntegerSet_get_sub_set seed N s n = Ret s' /\
     represents N s' Y /\ Y ⊆ X /\ size Y = min n (size X)).
Proof.
  intros Hr. pose proof Hr as (_ & _ & HX). split; [by apply choose_random_spec|].
  unfold FiniteIntegerSet_get_sub_set. rewrite HX.
    destruct (fis_sample N s X (take n (rng_shuffle seed (hash_iter seed X)))
      (drop n (rng_shuffle seed (hash_iter seed X)))) as (s' & Y & E & Hr' & Hsub & Hsz); [done| |].
  - by rewrite take_drop, rng_shuffle_perm, hash_iter_elements.
  - exists s', Y. do 3 (split; [done|]).
      by rewrite Hsz, length_take, rng_shuffle_perm, hash_iter_length.
Qed.

(** ** Witnesses *)

Definition demo_set : FiniteIntegerSet := mk_fis [10; 2] 10.

Lemma demo_set_represents : represents 10 demo_set (list_to_set [1; 3; 9]%nat).
Proof.
  destruct (fis_from_iter_represents 10 [1; 3; 9]%nat) as (s & E & H).
  - repeat constructor; lia.
  - vm_compute in E. injection E as <-. exact H.
Qed.

Lemma fis_insert_remove_refine_witness :
  (exists s', FiniteIntegerSet_insert demo_set 4 = Ret (true, s') /\
     represents 10 s' ({[ 4%nat ]} ∪ list_to_set [1; 3; 9]%nat)) /\
  FiniteIntegerSet_insert demo_set 11 = Panic.
Proof.
  split.
  - apply (fis_insert_remove_refine 10 demo_set _ 4 demo_set_represents). lia.
  - apply (fis_insert_remove_refine 10 demo_set _ 11 demo_set_represents). lia.
Defined.
