(* ===== verification/Bitmap.v ===== *)
(** * [Bitmap]: the coverage map of the sink

    Models [scheduler/src/sink_bitmap.rs].  A [Bitmap] lives in shared memory or on
    the heap; [bm_data] is the memory [data()] and [data_mut()] give access to, and
    [bm_shm_id] says which of the two it is.  The code walks a map in chunks of
    eight bytes read as one [u64]; [chunks8] is that view, and the theorems relate
    every chunked routine to its bytewise meaning. *)

From S2P Require Import Prelude Bytes.

Inductive BitmapStatus := NoChange | NewHit | NewEdge.

#[export] Instance BitmapStatus_eq_dec : EqDecision BitmapStatus.
Proof. solve_decision. Defined.

Record Bitmap := mk_bitmap {
  bm_shm_id : option Z;
  bm_data : list Z;
  bm_fill_pattern : Z;
  bm_size : nat;
}.

#[export] Instance Bitmap_eq_dec : EqDecision Bitmap.
Proof. solve_decision. Defined.

Definition with_data (m : Bitmap) (d : list Z) : Bitmap :=
  mk_bitmap (bm_shm_id m) d (bm_fill_pattern m) (bm_size m).

(** [usize::is_power_of_two] *)
Definition is_power_of_two (n : nat) : bool :=
  negb (n =? 0)%nat && (2 ^ Nat.log2 n =? n)%nat.

(** The results of [shmget] and [shmat] are arguments. *)
Definition Bitmap_new_in_shm (shmget shmat : Z) (size : nat) (fill_pattern : Z)
    : outcome Bitmap :=
  _ ← assert_that ((8 <=? size)%nat && is_power_of_two size);
  _ ← assert_that (negb (shmget =? -1));
  _ ← assert_that (negb (shmat =? -1));
  mret (mk_bitmap (Some shmget) (replicate size fill_pattern) fill_pattern size).

Definition Bitmap_new_in_mem (size : nat) (fill_pattern : Z) : outcome Bitmap :=
  _ ← assert_that ((8 <=? size)%nat && is_power_of_two size);
  mret (mk_bitmap None (replicate size fill_pattern) fill_pattern size).

(** [copy_from_slice] panics when the lengths differ. *)
Definition Bitmap_copy_from (m other : Bitmap) : outcome Bitmap :=
  _ ← assert_that (length (bm_data m) =? length (bm_data other))%nat;
  mret (with_data m (bm_data other)).

Definition Bitmap_shm_id (m : Bitmap) : outcome Z := unwrap (bm_shm_id m).

Definition Bitmap_reset (m : Bitmap) : Bitmap :=
  with_data m (replicate (length (bm_data m)) (bm_fill_pattern m)).

(** ** The view in chunks of eight bytes *)

(** [as_chunks_unchecked::<8>] *)
Fixpoint chunks8 (l : list Z) : list (list Z) :=
  match l with
  | b0 :: b1 :: b2 :: b3 :: b4 :: b5 :: b6 :: b7 :: l =>
      [b0; b1; b2; b3; b4; b5; b6; b7] :: chunks8 l
  | _ => []
  end.

Definition count_bytes_chunk (bytes_set : nat) (chunk : list Z) : nat :=
  let val := of_le chunk in
  if val >? 0 then
    foldl (fun n k => if negb (Z.land val (Z.shiftl 255 k) =? 0) then S n else n)
      bytes_set [0; 8; 16; 24; 32; 40; 48; 56]
  else bytes_set.

Definition Bitmap_count_bytes_set (m : Bitmap) : nat :=
  foldl count_bytes_chunk 0%nat (chunks8 (bm_data m)).

(** [u64::count_ones] *)
Definition count_ones (w : nat) (z : Z) : nat :=
  length (List.filter (fun i => Z.testbit z (Z.of_nat i)) (seq 0 w)).

Definition Bitmap_count_bits_set (m : Bitmap) : nat :=
  sum_list ((fun c => count_ones 64 (of_le c)) <$> chunks8 (bm_data m)).

Definition Bitmap_not (m : Bitmap) : Bitmap :=
  with_data m (mjoin ((fun c => to_le 8 (not_w 64 (of_le c))) <$> chunks8 (bm_data m))).

(** One iteration of the loop of [has_new_bit]: the status so far, the chunk of
    [self] and the chunk of [virgin]; returns the status and the new chunk of
    [virgin]. *)
Definition has_new_bit_chunk (ret : BitmapStatus) (se vi : list Z)
    : BitmapStatus * list Z :=
  let self_bytes := of_le se in
  let virgin_bytes := of_le vi in
  if negb (self_bytes =? 0) && negb (Z.land self_bytes virgin_bytes =? 0) then
    let ret :=
      if bool_decide (ret = NewEdge) then ret
      else if existsb (fun p => negb (p.1 =? 0) && (p.2 =? 255)) (zip se vi)
      then NewEdge else NewHit in
    (ret, to_le 8 (Z.land virgin_bytes (not_w 64 self_bytes)))
  else (ret, vi).

Fixpoint has_new_bit_loop (ret : BitmapStatus) (se vi : list (list Z))
    : BitmapStatus * list (list Z) :=
  match se, vi with
  | s :: se, v :: vi =>
      let r := has_new_bit_chunk ret s v in
      let rest := has_new_bit_loop r.1 se vi in
      (rest.1, r.2 :: rest.2)
  | _, _ => (ret, vi)
  end.

Definition Bitmap_has_new_bit (m virgin : Bitmap) : BitmapStatus * Bitmap :=
  let r := has_new_bit_loop NoChange (chunks8 (bm_data m)) (chunks8 (bm_data virgin)) in
  (r.1, with_data virgin (mjoin r.2)).

(** ** Hit-count buckets *)

Definition LOOKUP_U8_IDX : list (Z * Z) :=
  [(0, 1); (1, 2); (2, 3); (3, 4); (4, 8); (8, 16); (16, 32); (32, 128); (128, 256)].

Definition LOOKUP_BUCKET : list Z := [0; 1; 2; 4; 8; 16; 32; 64; 128].

(** [LOOKUP_U8_IDX.iter().position(|r| r.contains(b)).map(|idx| LOOKUP_BUCKET[idx])] *)
Definition lookup_bucket (b : Z) : option Z :=
  '(idx, _) ← list_find (fun r => r.1 <= b < r.2) LOOKUP_U8_IDX;
  LOOKUP_BUCKET !! idx.

(** The [unwrap] of the table's construction; every byte has a bucket
    ([lookup_bucket_total]). *)
Definition bucket (b : Z) : Z := default 0 (lookup_bucket b).

(** The table, filled at [(b1 << 8) + b2] in the order of the two loops. *)
Definition LOOKUP_U16 : list Z :=
  b1 ← seqZ 0 256; b2 ← seqZ 0 256;
  [Z.lor (Z.shiftl (bucket b1) 8) (bucket b2)].

(** [*s = LOOKUP_U16[*s as usize]] on the [u16] at two bytes. *)
Definition classify_u16 (lo hi : Z) : list Z :=
  to_le 2 (default 0 (LOOKUP_U16 !! Z.to_nat (of_le [lo; hi]))).

Definition classify_chunk (c : list Z) : list Z :=
  if negb (of_le c =? 0) then
    match c with
    | [b0; b1; b2; b3; b4; b5; b6; b7] =>
        classify_u16 b0 b1 ++ classify_u16 b2 b3 ++ classify_u16 b4 b5 ++ classify_u16 b6 b7
    | _ => c
    end
  else c.

Definition Bitmap_classify_counts (m : Bitmap) : Bitmap :=
  with_data m (mjoin (classify_chunk <$> chunks8 (bm_data m))).

(** ** Copies, hash, minimisation, edges and operators *)

Definition Bitmap_clone_as_mem_backed (m : Bitmap) : outcome Bitmap :=
  bm ← Bitmap_new_in_mem (bm_size m) (bm_fill_pattern m);
  Bitmap_copy_from bm m.

Definition Bitmap_clone_with_pattern (m : Bitmap) (pattern : Z) : outcome Bitmap :=
  Bitmap_new_in_mem (bm_size m) pattern.

Definition Bitmap_clone (m : Bitmap) : outcome Bitmap := Bitmap_clone_as_mem_backed m.

Definition wrap64 (z : Z) : Z := Z.land z (Z.ones 64).
Definition rotate_left64 (z k : Z) : Z :=
  Z.lor (wrap64 (Z.shiftl z k)) (Z.shiftr z (64 - k)).

Definition hash32_chunk (h1 : Z) (chunk : list Z) : Z :=
  let k1 := of_le chunk in
  let k1 := wrap64 (k1 * 0x87c37b91114253d5) in
  let k1 := rotate_left64 k1 31 in
  let k1 := wrap64 (k1 * 0x4cf5ad432745937f) in
  let h1 := Z.lxor h1 k1 in
  let h1 := rotate_left64 h1 27 in
  let h1 := wrap64 (h1 * 5) in
  wrap64 (h1 + 0x52dce729).

(** [debug_assert!((len % 8) == 0)] is active in the profile the README builds. *)
Definition Bitmap_hash32 (m : Bitmap) : outcome Z :=
  let len := Z.of_nat (length (bm_data m)) in
  _ ← assert_that (len mod 8 =? 0);
  let h1 := foldl hash32_chunk (Z.lxor len 0xef8e8af80708ef32) (chunks8 (bm_data m)) in
  let h1 := Z.lxor h1 (Z.shiftr h1 33) in
  let h1 := wrap64 (h1 * 0xff51afd7ed558ccd) in
  let h1 := Z.lxor h1 (Z.shiftr h1 33) in
  let h1 := wrap64 (h1 * 0xc4ceb9fe1a85ec53) in
  let h1 := Z.lxor h1 (Z.shiftr h1 33) in
  mret (Z.land h1 (Z.ones 32)).

(** [new_map_mem[idx / 8] |= 1 << (idx % 8)] *)
Definition minimize_step (new_map : outcome (list Z)) (e : nat * Z) : outcome (list Z) :=
  mem ← new_map;
  if e.2 >? 0 then
    byte ← slice_get mem (e.1 / 8);
    slice_set mem (e.1 / 8) (Z.lor byte (Z.shiftl 1 (Z.of_nat (e.1 mod 8))))
  else mret mem.

Definition Bitmap_minimize (m : Bitmap) : outcome Bitmap :=
  new_map ← Bitmap_new_in_mem (bm_size m / 8) 0;
  mem ← foldl minimize_step (mret (bm_data new_map)) (imap pair (bm_data m));
  mret (with_data new_map mem).

Definition Bitmap_edges (m : Bitmap) : list nat :=
  foldl (fun ret e => if e.2 >? 0 then ret ++ [e.1] else ret) []
    (imap pair (bm_data m)).

(** [impl_ops!]: the result starts as zeroes of the size of [self]; the chunks past
    the shorter operand stay zero. *)
Fixpoint ops_loop (op : Z -> Z -> Z) (ret b1 b2 : list (list Z)) : outcome (list (list Z)) :=
  match b1, b2 with
  | c1 :: b1, c2 :: b2 =>
      match ret with
      | _ :: ret => rest ← ops_loop op ret b1 b2; mret (to_le 8 (op (of_le c1) (of_le c2)) :: rest)
      | [] => Panic
      end
  | _, _ => mret ret
  end.

Definition Bitmap_impl_ops (op : Z -> Z -> Z) (m rhs : Bitmap) : outcome Bitmap :=
  ret ← Bitmap_clone_with_pattern m 0;
  r ← ops_loop op (chunks8 (bm_data ret)) (chunks8 (bm_data m)) (chunks8 (bm_data rhs));
  mret (with_data ret (mjoin r)).

Definition Bitmap_bitand := Bitmap_impl_ops Z.land.
Definition Bitmap_bitor := Bitmap_impl_ops Z.lor.
Definition Bitmap_bitxor := Bitmap_impl_ops Z.lxor.

Definition Bitmap_index (m : Bitmap) (index : nat) : outcome Z := slice_get (bm_data m) index.

Definition Bitmap_index_mut (m : Bitmap) (index : nat) (v : Z) : outcome Bitmap :=
  d ← slice_set (bm_data m) index v; mret (with_data m d).

(** ** The chunk view and the bytes *)

Lemma chunks8_app c l : length c = 8%nat -> chunks8 (c ++ l) = c :: chunks8 l.
Proof. intros H. do 8 (destruct c as [|? c]; [done|]). by destruct c. Qed.

Lemma mjoin_cons (c : list Z) l : mjoin (c :: l) = c ++ mjoin l.
Proof. done. Qed.

(** Induction over the whole chunks of a list. *)
Lemma chunks8_ind (P : list Z -> Prop) :
  P [] -> (forall c l, length c = 8%nat -> P l -> P (c ++ l)) ->
  forall l, (length l mod 8 = 0)%nat -> P l.
Proof.
  intros H0 Hc l Hl. remember (length l / 8)%nat as n eqn:En.
  revert l Hl En. induction n as [|n IH]; intros l Hl En.
  - by destruct l; [|exfalso; cbn [length] in *; dlia].
  - rewrite <- (take_drop 8 l). apply Hc; [rewrite length_take; dlia|].
    apply IH; rewrite length_drop; dlia.
Qed.

(** The same over two lists of one length. *)
Lemma chunks8_ind2 (P : list Z -> list Z -> Prop) :
  P [] [] ->
  (forall c d l k, length c = 8%nat -> length d = 8%nat -> length l = length k ->
     P l k -> P (c ++ l) (d ++ k)) ->
  forall l k, (length l mod 8 = 0)%nat -> length l = length k -> P l k.
Proof.
  intros H0 Hc l k Hl. revert k. revert l Hl. apply (chunks8_ind (fun l => forall k, _ -> P l k)).
  - intros k Hk. by destruct k.
  - intros c l Hlc IH k Hk. rewrite length_app in Hk. rewrite <- (take_drop 8 k).
    apply Hc; [done|rewrite length_take; lia|rewrite length_drop; lia|].
    apply IH. rewrite length_drop. lia.
Qed.

Lemma of_le_shiftr bs k :
  bytes_ok bs -> Z.shiftr (of_le bs) (8 * Z.of_nat k) = of_le (drop k bs).
Proof.
  revert bs. induction k as [|k IH]; intros bs Hbs; [by rewrite Z.mul_0_r, Z.shiftr_0_r|].
  destruct Hbs as [|b bs Hb Hbs]; [apply Z.shiftr_0_l|]. cbn [drop]. rewrite <- IH by done.
  replace (8 * Z.of_nat (S k)) with (8 + 8 * Z.of_nat k) by lia.
  rewrite <- Z.shiftr_shiftr by lia. f_equal. cbn [of_le].
  rewrite Z.shiftr_div_pow2 by lia. unfold fits in Hb. dlia.
Qed.

(** [val & 0xff << 8k] tests byte [k]. *)
Lemma mask_byte bs k b :
  bytes_ok bs -> bs !! k = Some b ->
  (Z.land (of_le bs) (Z.shiftl 255 (8 * Z.of_nat k)) =? 0) = (b =? 0).
Proof.
  intros Hbs Hk. pose proof (Forall_lookup_1 _ _ _ _ Hbs Hk) as Hb.
  apply (eq_bool_prop_intro _ _). rewrite !Is_true_true, !Z.eqb_eq.
  assert (E : Z.land (of_le bs) (Z.shiftl 255 (8 * Z.of_nat k)) = Z.shiftl b (8 * Z.of_nat k)).
  { apply Z.bits_inj'. intros i Hi. rewrite Z.land_spec.
    destruct (decide (8 * Z.of_nat k <= i)) as [Hle|];
      [|rewrite !Z.shiftl_spec_low by lia; apply andb_false_r].
    rewrite !Z.shiftl_spec by lia.
    replace i with (i - 8 * Z.of_nat k + 8 * Z.of_nat k) at 1 by lia.
    rewrite <- Z.shiftr_spec, of_le_shiftr, (drop_S _ _ _ Hk) by (done || lia).
    rewrite of_le_testbit_cons by (done || (try apply Forall_drop; done) || lia).
    change 255 with (Z.ones 8). case_decide.
    - rewrite Z.ones_spec_low by lia. apply andb_true_r.
    - rewrite Z.ones_spec_high, (fits_high 8 b) by (done || lia). apply andb_false_r. }
  rewrite E. split; [|intros ->; apply Z.shiftl_0_l].
  rewrite Z.shiftl_eq_0_iff; lia.
Qed.

Lemma count_bytes_chunk_spec n c :
  length c = 8%nat -> bytes_ok c ->
  count_bytes_chunk n c = (n + length (List.filter (fun b => negb (b =? 0)%Z) c))%nat.
Proof.
  intros Hl Hc. unfold count_bytes_chunk. pose proof (of_le_bound c Hc).
  destruct (of_le c >? 0) eqn:E.
  - change [0; 8; 16; 24; 32; 40; 48; 56] with ((fun k => 8 * Z.of_nat k) <$> seq 0 8).
    rewrite <- Hl. clear -Hc.
    rewrite foldl_count. f_equal.
    assert (H : forall k, (k <= length c)%nat ->
      length (List.filter (fun a => negb (Z.land (of_le c) (Z.shiftl 255 a) =? 0))
        ((fun k => 8 * Z.of_nat k) <$> seq k (length c - k)))
      = length (List.filter (fun b => negb (b =? 0)) (drop k c))).
    { intros k Hk. remember (length c - k)%nat as m eqn:Em. revert k Hk Em.
      induction m as [|m IH]; intros k Hk Em.
      - rewrite drop_ge by lia. done.
      - destruct (lookup_lt_is_Some_2 c k) as [b Hb]; [lia|].
        rewrite (drop_S _ _ _ Hb). cbn [seq fmap list_fmap List.filter].
        rewrite (mask_byte c k b Hc Hb). destruct (b =? 0); cbn [negb length]; rewrite IH; lia. }
    specialize (H 0%nat). rewrite Nat.sub_0_r in H. rewrite H by lia. done.
  - assert (Hz : of_le c = 0) by lia. rewrite of_le_zero in Hz by done.
    clear -Hz. induction Hz as [|b c -> Hz IH]; cbn; [lia|]. exact IH.
Qed.

(** ** The bytewise meaning of [has_new_bit] *)

Definition status_max (a b : BitmapStatus) : BitmapStatus :=
  match a, b with
  | NewEdge, _ | _, NewEdge => NewEdge
  | NewHit, _ | _, NewHit => NewHit
  | NoChange, NoChange => NoChange
  end.

Definition byte_status (s v : Z) : BitmapStatus :=
  if negb (s =? 0) && (v =? 255) then NewEdge
  else if negb (Z.land s v =? 0) then NewHit else NoChange.

Definition bytes_status (s v : list Z) : BitmapStatus :=
  foldr status_max NoChange (zip_with byte_status s v).

(** [virgin & !self] on a byte. *)
Definition and_not (v s : Z) : Z := Z.land v (not_w 8 s).

#[export] Instance status_max_assoc : Assoc (=) status_max.
Proof. by intros [] [] []. Qed.
#[export] Instance status_max_left_id : LeftId (=) NoChange status_max.
Proof. by intros []. Qed.
#[export] Instance status_max_right_id : RightId (=) NoChange status_max.
Proof. by intros []. Qed.

Lemma bytes_status_app s1 s2 v1 v2 :
  length s1 = length v1 ->
  bytes_status (s1 ++ s2) (v1 ++ v2) = status_max (bytes_status s1 v1) (bytes_status s2 v2).
Proof.
  intros Hl. unfold bytes_status. rewrite zip_with_app by done.
  induction (zip_with byte_status s1 v1) as [|x l IH]; cbn [app foldr].
  - by rewrite (left_id_L NoChange status_max).
  - rewrite IH. apply (assoc_L status_max).
Qed.

Lemma and_not_ok v s : byte_ok v -> byte_ok (and_not v s).
Proof. intros. by apply fits_land_l. Qed.

(** Two bytes without a common bit: clearing the bits of one keeps the other. *)
Lemma and_not_disjoint v s : byte_ok v -> Z.land s v = 0 -> and_not v s = v.
Proof.
  intros Hv H. apply (testbit_ext 8); [lia|by apply and_not_ok|done|]. intros i Hi.
  unfold and_not. rewrite Z.land_spec, not_w_spec by done.
  assert (Hb : Z.testbit (Z.land s v) i = false) by (rewrite H; apply Z.testbit_0_l).
  rewrite Z.land_spec in Hb. destruct (Z.testbit v i), (Z.testbit s i); done.
Qed.

Lemma land_255 z : byte_ok z -> Z.land z 255 = z.
Proof. intros. change 255 with (Z.ones 8). rewrite Z.land_ones, Z.mod_small; (done || lia). Qed.

Lemma bytes_ok_zip_with f a b :
  (forall x y, byte_ok x -> byte_ok y -> byte_ok (f x y)) ->
  bytes_ok a -> bytes_ok b -> bytes_ok (zip_with f a b).
Proof.
  intros Hf Ha. revert b. induction Ha as [|x a Hx Ha IH]; intros b Hb; [constructor|].
  destruct Hb as [|y b Hy Hb]; cbn; [constructor|]. constructor; auto.
Qed.

Lemma not_w_64 c :
  bytes_ok c -> length c = 8%nat -> not_w 64 (of_le c) = of_le (not_w 8 <$> c).
Proof.
  intros Hc Hl. unfold not_w. change (Z.ones 64) with (of_le (replicate 8 255)).
  rewrite of_le_lxor; [|done|repeat constructor; done|by rewrite Hl].
  f_equal. do 8 (destruct c as [|? c]; [done|]). by destruct c.
Qed.

Lemma word_and_not se vi :
  bytes_ok se -> bytes_ok vi -> length se = 8%nat -> length vi = 8%nat ->
  to_le 8 (Z.land (of_le vi) (not_w 64 (of_le se))) = zip_with and_not vi se.
Proof.
  intros Hs Hv Hls Hlv. rewrite not_w_64 by done. rewrite of_le_land;
    [|done|apply Forall_fmap, (Forall_impl _ _ _ Hs); intros; by apply not_w_fits
     |by rewrite length_fmap, Hls].
  rewrite zip_with_fmap_r. change (zip_with _ vi se) with (zip_with and_not vi se).
  assert (Hl : length (zip_with and_not vi se) = 8%nat) by (rewrite length_zip_with; lia).
  rewrite <- Hl at 1. apply to_le_of_le.
  apply bytes_ok_zip_with; [|done..]. intros. by apply and_not_ok.
Qed.

Lemma bytes_status_NoChange s v :
  Forall (fun b => b = 0) (zip_with Z.land s v) -> bytes_ok s ->
  bytes_status s v = NoChange.
Proof.
  revert v. induction s as [|x s IH]; intros [|y v] Hz Hs; try done.
  inversion Hz as [|?? Hx Hz']; subst. inversion Hs as [|?? Hx' Hs']; subst.
  unfold bytes_status in *. cbn [zip_with foldr]. rewrite IH by done.
  unfold byte_status. rewrite Hx. cbn. destruct (x =? 0) eqn:E; [done|].
  destruct (y =? 255) eqn:E'; [|done]. apply Z.eqb_eq in E' as ->.
  rewrite land_255 in Hx by done. by apply Z.eqb_neq in E.
Qed.

Lemma bytes_status_hit s v :
  ~ Forall (fun b => b = 0) (zip_with Z.land s v) ->
  bytes_status s v =
    if existsb (fun p => negb (p.1 =? 0) && (p.2 =? 255)) (zip s v) then NewEdge else NewHit.
Proof.
  unfold bytes_status. revert v. induction s as [|x s IH]; intros [|y v] Hz; try by destruct Hz.
  cbn [zip_with foldr zip existsb fst snd].
  destruct (decide (Forall (fun b => b = 0) (zip_with Z.land s v))) as [Hs|Hs].
  - assert (Hx : Z.land x y <> 0) by (intros E; apply Hz; by constructor).
    apply Z.eqb_neq in Hx. unfold byte_status at 1. rewrite Hx. cbn [negb].
    destruct (negb (x =? 0) && (y =? 255)); [done|]. cbn [orb].
    clear -Hs. revert v Hs. induction s as [|a s IH]; intros [|b v] Hs; try done.
    cbn [zip_with foldr zip existsb fst snd]. inversion Hs as [|?? Ha Hs']; subst.
    unfold byte_status at 1. rewrite Ha. cbn [negb Z.eqb].
    destruct (negb (a =? 0) && (b =? 255)); [done|]. cbn [orb].
    specialize (IH v Hs'). rewrite <- IH. by destruct (foldr _ _ _).
  - rewrite IH by done. unfold byte_status at 1.
    destruct (negb (x =? 0) && (y =? 255)); [done|]. cbn [orb].
    destruct (negb (Z.land x y =? 0)), (existsb _ _); done.
Qed.

(** One iteration of the loop has the bytewise meaning. *)
Lemma has_new_bit_chunk_spec ret se vi :
  bytes_ok se -> bytes_ok vi -> length se = 8%nat -> length vi = 8%nat ->
  has_new_bit_chunk ret se vi = (status_max ret (bytes_status se vi), zip_with and_not vi se).
Proof.
  intros Hs Hv Hls Hlv. unfold has_new_bit_chunk. rewrite of_le_land by (done || lia).
  assert (Hok : bytes_ok (zip_with Z.land se vi)) by
    (apply bytes_ok_zip_with; [|done..]; intros; by apply fits_land_l).
  destruct (of_le (zip_with Z.land se vi) =? 0) eqn:E.
  - rewrite andb_false_r. apply Z.eqb_eq, of_le_zero in E; [|done].
    rewrite bytes_status_NoChange by done. rewrite (right_id_L NoChange status_max). f_equal.
    clear Hok. assert (Hl : length se = length vi) by lia. clear Hls Hlv. revert vi Hv E Hl.
    induction Hs as [|x se Hx Hs IH]; intros [|y vi] Hv E Hl; try done.
    inversion Hv; inversion E; subst. cbn [zip_with]. rewrite and_not_disjoint by done.
    f_equal. apply IH; [done..|]. cbn in Hl. lia.
  - assert (Hne : of_le se =? 0 = false).
    { apply Z.eqb_neq. intros Hz. apply of_le_zero in Hz; [|done]. apply Z.eqb_neq in E. apply E.
      apply of_le_zero; [done|]. clear -Hz. revert vi.
      induction Hz as [|x se -> Hz IH]; intros [|y vi]; cbn; constructor; auto. }
    rewrite Hne. cbn [negb andb]. rewrite word_and_not by done. f_equal.
    rewrite bytes_status_hit; [|intros Hz; apply Z.eqb_neq in E; by apply E, of_le_zero].
    destruct (existsb _ _), ret; done.
Qed.

Lemma has_new_bit_loop_spec s v :
  (length s mod 8 = 0)%nat -> length s = length v ->
  bytes_ok s -> bytes_ok v -> forall ret,
  exists v', has_new_bit_loop ret (chunks8 s) (chunks8 v)
               = (status_max ret (bytes_status s v), v') /\
    mjoin v' = zip_with and_not v s.
Proof.
  intros H8 Hl. revert s v H8 Hl. apply (chunks8_ind2 (fun s v =>
    bytes_ok s -> bytes_ok v -> forall ret, exists v', _ = (status_max ret (bytes_status s v), v') /\ _)).
  - intros _ _ ret. exists []. split; [by destruct ret|done].
  - intros c d l k Hc Hd Hlk IH Hcl Hdk ret.
    apply Forall_app in Hcl as [Hcok Hlok], Hdk as [Hdok Hkok].
    rewrite !chunks8_app by done. cbn [has_new_bit_loop].
    rewrite has_new_bit_chunk_spec by done. cbn [fst snd].
    destruct (IH Hlok Hkok (status_max ret (bytes_status c d))) as (v' & -> & Ev).
    eexists. split.
    + cbn [fst snd]. rewrite bytes_status_app by lia. by rewrite (assoc_L status_max).
    + rewrite mjoin_cons, Ev, zip_with_app by lia. done.
Qed.

(** ** Well-formed maps *)

Record bitmap_wf (m : Bitmap) : Prop := {
  bm_wf_length : length (bm_data m) = bm_size m;
  bm_wf_bytes : bytes_ok (bm_data m);
  bm_wf_fill : byte_ok (bm_fill_pattern m);
  bm_wf_size : (8 <= bm_size m)%nat /\ is_power_of_two (bm_size m) = true;
}.

Lemma power_of_two_mod8 n :
  (8 <= n)%nat -> is_power_of_two n = true -> (n mod 8 = 0)%nat.
Proof.
  intros H8 [_ Hp%Nat.eqb_eq]%andb_true_iff.
  assert (Hlog : (3 <= Nat.log2 n)%nat) by (apply (Nat.log2_le_mono 8 n) in H8; exact H8).
  rewrite <- Hp. replace (Nat.log2 n) with (3 + (Nat.log2 n - 3))%nat by lia.
  rewrite Nat.pow_add_r. change (2 ^ 3)%nat with 8%nat.
  rewrite Nat.mul_comm. apply Nat.Div0.mod_mul.
Qed.

Lemma power_of_two_div8 n :
  (64 <= n)%nat -> is_power_of_two n = true -> is_power_of_two (n / 8) = true.
Proof.
  intros H64 [_ Hp%Nat.eqb_eq]%andb_true_iff.
  assert (Hlog : (6 <= Nat.log2 n)%nat) by (apply (Nat.log2_le_mono 64 n) in H64; exact H64).
  assert (E : (n / 8 = 2 ^ (Nat.log2 n - 3))%nat).
  { rewrite <- Hp at 1. replace (Nat.log2 n) with (3 + (Nat.log2 n - 3))%nat at 1 by lia.
    rewrite Nat.pow_add_r. change (2 ^ 3)%nat with 8%nat. rewrite Nat.mul_comm.
    by apply Nat.div_mul. }
  unfold is_power_of_two. rewrite E, Nat.log2_pow2, Nat.eqb_refl, andb_true_r by lia.
  apply negb_true_iff, Nat.eqb_neq. by apply Nat.pow_nonzero.
Qed.

Lemma bitmap_wf_mod8 m : bitmap_wf m -> (length (bm_data m) mod 8 = 0)%nat.
Proof. intros [-> _ _ [? ?]]. by apply power_of_two_mod8. Qed.

Lemma new_in_mem_Ret n p m :
  Bitmap_new_in_mem n p = Ret m <->
  ((8 <= n)%nat /\ is_power_of_two n = true) /\ m = mk_bitmap None (replicate n p) p n.
Proof.
  unfold Bitmap_new_in_mem, assert_that. cbn [mbind outcome_bind].
  destruct ((8 <=? n)%nat && is_power_of_two n) eqn:E.
  - apply andb_true_iff in E as [E1%Nat.leb_le E2]. cbn.
    split; [by intros [= <-]|by intros [_ ->]].
  - split; [done|]. intros [[E1%Nat.leb_le E2] _]. rewrite E1, E2 in E. done.
Qed.

Lemma new_in_mem_wf n p m : byte_ok p -> Bitmap_new_in_mem n p = Ret m -> bitmap_wf m.
Proof.
  intros Hp [? ->]%new_in_mem_Ret. split; cbn; try done.
  - apply length_replicate.
  - by apply Forall_replicate.
Qed.

Lemma with_data_wf m d :
  bitmap_wf m -> length d = length (bm_data m) -> bytes_ok d -> bitmap_wf (with_data m d).
Proof. intros [] ? ?. split; cbn; congruence || done. Qed.

Lemma has_new_bit_spec m v :
  bitmap_wf m -> bitmap_wf v -> bm_size m = bm_size v ->
  Bitmap_has_new_bit m v =
    (bytes_status (bm_data m) (bm_data v),
     with_data v (zip_with and_not (bm_data v) (bm_data m))).
Proof.
  intros Hm Hv Hsz. unfold Bitmap_has_new_bit.
  destruct (has_new_bit_loop_spec (bm_data m) (bm_data v)) with (ret := NoChange)
    as (v' & -> & Ev).
  - by apply bitmap_wf_mod8.
  - destruct Hm, Hv. congruence.
  - apply Hm.
  - apply Hv.
  - cbn [fst snd]. by rewrite Ev, (left_id_L NoChange status_max).
Qed.

Lemma status_NewEdge l : foldr status_max NoChange l = NewEdge <-> NewEdge ∈ l.
Proof.
  induction l as [|x l IH]; cbn [foldr].
  - split; [done|]. by intros ?%elem_of_nil.
  - rewrite elem_of_cons, <- IH. destruct x, (foldr status_max NoChange l); naive_solver.
Qed.

Lemma status_NoChange l : foldr status_max NoChange l = NoChange <-> Forall (NoChange =.) l.
Proof.
  induction l as [|x l IH]; cbn [foldr]; [split; [constructor|done]|].
  rewrite Forall_cons, <- IH. destruct x, (foldr status_max NoChange l); naive_solver.
Qed.

Lemma bytes_status_NewEdge s v :
  bytes_status s v = NewEdge <->
  exists i a, s !! i = Some a /\ a <> 0 /\ v !! i = Some 255.
Proof.
  unfold bytes_status. rewrite status_NewEdge, list_elem_of_lookup. split.
  - intros (i & (a & b & E & Ha & Hb)%lookup_zip_with_Some). exists i, a.
    unfold byte_status in E. destruct (a =? 0) eqn:Ea, (b =? 255) eqn:Eb; cbn in E;
      try (destruct (Z.land a b =? 0); discriminate).
    apply Z.eqb_eq in Eb as ->. by apply Z.eqb_neq in Ea.
  - intros (i & a & Ha & Hne%Z.eqb_neq & Hv). exists i. apply lookup_zip_with_Some.
    exists a, 255. unfold byte_status. by rewrite Hne.
Qed.

Lemma byte_status_NoChange a b :
  byte_ok a -> byte_status a b = NoChange <-> Z.land a b = 0.
Proof.
  intros Ha. unfold byte_status. destruct (a =? 0) eqn:Ea.
  - apply Z.eqb_eq in Ea as ->. done.
  - apply Z.eqb_neq in Ea. destruct (b =? 255) eqn:Eb; cbn.
    + apply Z.eqb_eq in Eb as ->. rewrite land_255 by done. split; [done|lia].
    + destruct (Z.land a b =? 0) eqn:E; [apply Z.eqb_eq in E|apply Z.eqb_neq in E]; naive_solver.
Qed.

Lemma bytes_status_NoChange_iff s v :
  bytes_ok s ->
  bytes_status s v = NoChange <->
  forall i a b, s !! i = Some a -> v !! i = Some b -> Z.land a b = 0.
Proof.
  intros Hs. unfold bytes_status. rewrite status_NoChange, Forall_lookup. split.
  - intros H i a b Ha Hb. apply byte_status_NoChange; [exact (Forall_lookup_1 _ _ _ _ Hs Ha)|].
    symmetry. apply (H i). apply lookup_zip_with_Some. eauto.
  - intros H i x (a & b & -> & Ha & Hb)%lookup_zip_with_Some. symmetry.
    apply byte_status_NoChange; [|by eapply H]. exact (Forall_lookup_1 _ _ _ _ Hs Ha).
Qed.

(** ** The virgin map as the record of what was seen *)

(** The map reports bucket bit [j] of edge [i]. *)
Definition hit (m : Bitmap) (i : nat) (j : Z) : Prop :=
  exists b, bm_data m !! i = Some b /\ Z.testbit b j = true.

#[export] Instance hit_dec m i j : Decision (hit m i j).
Proof.
  unfold hit. destruct (bm_data m !! i) as [b|] eqn:E.
  - destruct (Z.testbit b j) eqn:Ht; [left; by exists b|].
    right. intros (c & [= <-] & ?). congruence.
  - right. by intros (c & ? & _).
Defined.

(** The virgin map after the maps of a campaign were compared with it in order. *)
Definition observe (virgin : Bitmap) (maps : list Bitmap) : Bitmap :=
  foldl (fun v m => (Bitmap_has_new_bit m v).2) virgin maps.

Definition map_of_size (n : nat) (m : Bitmap) : Prop := bitmap_wf m /\ bm_size m = n.

Record virgin_for (n : nat) (maps : list Bitmap) (v : Bitmap) : Prop := {
  vf_map : map_of_size n v;
  vf_maps : Forall (map_of_size n) maps;
  vf_bits : forall i b j, bm_data v !! i = Some b -> 0 <= j < 8 ->
    Z.testbit b j = true <-> (forall m, m ∈ maps -> ~ hit m i j);
}.

Lemma virgin_for_nil n v : Bitmap_new_in_mem n 255 = Ret v -> virgin_for n [] v.
Proof.
  intros Hv. split.
  - split; [by apply (new_in_mem_wf n 255)|]. by apply new_in_mem_Ret in Hv as [_ ->].
  - constructor.
  - intros i b j Hb Hj. apply new_in_mem_Ret in Hv as [_ ->]. cbn in Hb.
    apply lookup_replicate in Hb as [-> _]. change 255 with (Z.ones 8).
    rewrite Z.ones_spec_low by lia. split; [|done]. intros _ m Hm. by apply elem_of_nil in Hm.
Qed.

Lemma and_not_testbit v s j :
  0 <= j < 8 -> Z.testbit (and_not v s) j = Z.testbit v j && negb (Z.testbit s j).
Proof. intros. unfold and_not. by rewrite Z.land_spec, not_w_spec. Qed.

Lemma and_not_map_wf m v :
  bitmap_wf m -> bitmap_wf v -> bm_size m = bm_size v ->
  bitmap_wf (with_data v (zip_with and_not (bm_data v) (bm_data m))).
Proof.
  intros Hm Hv Hsz. apply with_data_wf; [done| |].
  - rewrite length_zip_with. destruct Hm, Hv. lia.
  - apply bytes_ok_zip_with; [intros; by apply and_not_ok|apply Hv|apply Hm].
Qed.

Lemma virgin_for_snoc n maps v m :
  virgin_for n maps v -> map_of_size n m ->
  virgin_for n (maps ++ [m]) (Bitmap_has_new_bit m v).2.
Proof.
  intros [[Hv Hvn] Hmaps Hbits] [Hm Hmn]. rewrite has_new_bit_spec by (done || congruence).
  cbn [snd]. split.
  - split; [|done]. apply and_not_map_wf; (done || congruence).
  - apply Forall_app. split; [done|]. by constructor.
  - intros i b j Hb Hj. cbn in Hb.
    apply lookup_zip_with_Some in Hb as (bv & bs & -> & Hbv & Hbs).
    rewrite and_not_testbit, andb_true_iff, negb_true_iff, (Hbits i bv j Hbv Hj) by done.
    setoid_rewrite elem_of_app. setoid_rewrite list_elem_of_singleton. split.
    + intros [Hold Hnew] m' [Hin| ->]; [by apply Hold|].
      intros (b & Hb & Ht). rewrite Hbs in Hb. injection Hb as <-. congruence.
    + intros H. split; [intros m' Hin; apply H; by left|].
      apply not_true_iff_false. intros Ht. apply (H m); [by right|]. by exists bs.
Qed.

Lemma virgin_for_observe n maps v :
  Bitmap_new_in_mem n 255 = Ret v -> Forall (map_of_size n) maps ->
  virgin_for n maps (observe v maps).
Proof.
  intros Hv. induction maps as [|m maps IH] using rev_ind; intros Hmaps.
  - by apply virgin_for_nil.
  - apply Forall_app in Hmaps as [Hmaps Hm]. unfold observe. rewrite foldl_app. cbn [foldl].
    apply virgin_for_snoc; [by apply IH|]. by inversion Hm.
Qed.

Lemma hit_lt8 n m i j : map_of_size n m -> hit m i j -> 0 <= j < 8.
Proof.
  intros [[_ Hb _ _] _] (b & Hi & Ht). pose proof (Forall_lookup_1 _ _ _ _ Hb Hi) as Hok.
  destruct (decide (j < 0)); [by rewrite Z.testbit_neg_r in Ht|].
  destruct (decide (8 <= j)); [by rewrite (fits_high 8) in Ht|lia].
Qed.

Lemma hit_lookup n m v i j :
  map_of_size n m -> map_of_size n v -> hit m i j ->
  exists b, bm_data v !! i = Some b /\ byte_ok b.
Proof.
  intros [Hm Hmn] [Hv Hvn] (b & Hi & _).
  destruct (lookup_lt_is_Some_2 (bm_data v) i) as [c Hc].
  - apply lookup_lt_Some in Hi. destruct Hm, Hv. lia.
  - exists c. split; [done|]. eapply Forall_lookup_1; [apply Hv|exact Hc].
Qed.

Lemma byte_255 b : byte_ok b -> (forall j, 0 <= j < 8 -> Z.testbit b j = true) -> b = 255.
Proof.
  intros Hb H. apply (testbit_ext 8); [lia|done|done|]. intros j Hj. rewrite H by done.
  change 255 with (Z.ones 8). by rewrite Z.ones_spec_low by lia.
Qed.

Lemma virgin_status_NewEdge n maps v m :
  virgin_for n maps v -> map_of_size n m ->
  bytes_status (bm_data m) (bm_data v) = NewEdge <->
  exists i, (exists j, hit m i j) /\ forall m', m' ∈ maps -> forall j, ~ hit m' i j.
Proof.
  intros [Hv Hmaps Hbits] Hm. rewrite bytes_status_NewEdge. split.
  - intros (i & a & Ha & Hne & Hff). exists i.
    assert (Hok : byte_ok a) by (eapply Forall_lookup_1; [apply Hm|exact Ha]).
    destruct (testbit_nonzero 8 a) as (j & Hj & Ht); [lia|done|done|].
    split; [by exists j, a|]. intros m' Hin k Hk.
    destruct (decide (0 <= k < 8)) as [Hk8|Hk8].
    + apply (Hbits i 255 k Hff Hk8) with m'; [|done..].
      change 255 with (Z.ones 8). by rewrite Z.ones_spec_low by lia.
    + eapply Forall_forall in Hmaps; [|exact Hin]. by apply Hk8, (hit_lt8 n m' i k).
  - intros (i & [j Hj] & Hnone). pose proof Hj as (a & Ha & Ht). exists i, a.
    split; [done|]. split; [intros ->; by rewrite Z.testbit_0_l in Ht|].
    destruct (hit_lookup n m v i j Hm Hv Hj) as (b & Hb & Hok). rewrite Hb. f_equal.
    apply byte_255; [done|]. intros k Hk. apply (Hbits i b k Hb Hk). auto.
Qed.

Lemma virgin_status_NoChange n maps v m :
  virgin_for n maps v -> map_of_size n m ->
  bytes_status (bm_data m) (bm_data v) = NoChange <->
  forall i j, hit m i j -> exists m', m' ∈ maps /\ hit m' i j.
Proof.
  intros [Hv Hmaps Hbits] Hm. rewrite bytes_status_NoChange_iff by apply Hm. split.
  - intros H i j Hj. pose proof Hj as (a & Ha & Ht).
    destruct (hit_lookup n m v i j Hm Hv Hj) as (b & Hb & Hok).
    pose proof (hit_lt8 n m i j Hm Hj) as Hj8.
    destruct (decide (Exists (fun m' => hit m' i j) maps)) as [He|He].
    + apply Exists_exists in He as (m' & ? & ?). eauto.
    + exfalso. assert (Hbt : Z.testbit b j = true).
      { apply (Hbits i b j Hb Hj8). intros m' Hin Hh. apply He, Exists_exists. eauto. }
      assert (Hz : Z.testbit (Z.land a b) j = false) by (rewrite (H i) by done; apply Z.testbit_0_l).
      by rewrite Z.land_spec, Ht, Hbt in Hz.
  - intros H i a b Ha Hb.
    assert (Hok : byte_ok a) by (eapply Forall_lookup_1; [apply Hm|exact Ha]).
    apply (testbit_ext 8); [lia|by apply fits_land_l|done|]. intros j Hj.
    rewrite Z.land_spec, Z.testbit_0_l. destruct (Z.testbit a j) eqn:Ht; [cbn|done].
    apply not_true_iff_false. intros Hbt. destruct (H i j) as (m' & Hin & Hh); [by exists a|].
    apply (Hbits i b j Hb Hj) with m' in Hbt; done.
Qed.

Lemma has_new_bit_status n m v :
  map_of_size n m -> map_of_size n v ->
  (Bitmap_has_new_bit m v).1 = bytes_status (bm_data m) (bm_data v).
Proof. intros [Hm ?] [Hv ?]. by rewrite has_new_bit_spec by (done || congruence). Qed.

(** C7: [has_new_bit] decides novelty against the whole history.  After the maps
    [maps] were compared with a fresh virgin map of [0xff] bytes, comparing [m]
    answers [NewEdge] exactly when some byte of [m] is non-zero at an index where
    every earlier map was zero; it answers [NoChange] exactly when every bit of [m]
    was reported by an earlier map; so [NewHit] is left for a new bit of known
    edges.  Comparing [m] again answers [NoChange]. *)
Theorem has_new_bit_history n v maps m :
  Bitmap_new_in_mem n 255 = Ret v -> Forall (map_of_size n) maps -> map_of_size n m ->
  let r := Bitmap_has_new_bit m (observe v maps) in
  (r.1 = NewEdge <->
     exists i, (exists j, hit m i j) /\ forall m', m' ∈ maps -> forall j, ~ hit m' i j) /\
  (r.1 = NoChange <-> forall i j, hit m i j -> exists m', m' ∈ maps /\ hit m' i j) /\
  (Bitmap_has_new_bit m r.2).1 = NoChange.
Proof.
  intros Hv Hmaps Hm r. subst r.
  pose proof (virgin_for_observe n maps v Hv Hmaps) as Hobs.
  pose proof (virgin_for_snoc n maps _ m Hobs Hm) as Hsnoc.
  pose proof (has_new_bit_status n m) as Hst.
  split; [|split]; rewrite Hst by (done || apply Hobs || apply Hsnoc).
  - by apply virgin_status_NewEdge with n.
  - by apply virgin_status_NoChange with n.
  - apply (virgin_status_NoChange n (maps ++ [m])); [done..|]. intros i j Hj.
    exists m. split; [|done]. apply elem_of_app. right. by apply list_elem_of_singleton.
Qed.

(** The chunked [has_new_bit] is the bytewise comparison: its status is the
    maximum of the byte statuses ([NewEdge] for a non-zero byte over an untouched
    [0xff], [NewHit] for a common bit), it clears in the virgin map exactly the bits
    [self] has set, and the virgin map stays well-formed with its size, backing and
    fill pattern. *)
Theorem has_new_bit_bytewise m v :
  bitmap_wf m -> bitmap_wf v -> bm_size m = bm_size v ->
  let r := Bitmap_has_new_bit m v in
  r.1 = bytes_status (bm_data m) (bm_data v) /\
  bm_data r.2 = zip_with (fun b s => Z.land b (not_w 8 s)) (bm_data v) (bm_data m) /\
  bitmap_wf r.2 /\ bm_size r.2 = bm_size v /\ bm_shm_id r.2 = bm_shm_id v /\
  bm_fill_pattern r.2 = bm_fill_pattern v.
Proof.
  intros Hm Hv Hsz r. subst r. rewrite has_new_bit_spec by done. cbn [fst snd].
  do 2 (split; [done|]). split; [by apply and_not_map_wf|done].
Qed.

(** ** Counting *)

Lemma chunks8_foldl_bytes n l :
  (length l mod 8 = 0)%nat -> bytes_ok l ->
  foldl count_bytes_chunk n (chunks8 l)
  = (n + length (List.filter (fun b => negb (b =? 0)%Z) l))%nat.
Proof.
  intros H8. revert l H8 n. apply (chunks8_ind (fun l => forall n, bytes_ok l -> _)).
  - intros n _. cbn. lia.
  - intros c l Hc IH n [Hcok Hlok]%Forall_app. rewrite chunks8_app by done. cbn [foldl].
    rewrite IH, count_bytes_chunk_spec, List.filter_app, length_app by done. lia.
Qed.

Lemma count_ones_cons b bs n :
  byte_ok b -> bytes_ok bs ->
  count_ones (8 + n) (of_le (b :: bs)) = (count_ones 8 b + count_ones n (of_le bs))%nat.
Proof.
  intros Hb Hbs. unfold count_ones. rewrite seq_app, List.filter_app, length_app. f_equal.
  - f_equal. apply filter_ext_in. intros i Hi%in_seq.
    rewrite of_le_testbit_cons, decide_True by (done || lia). done.
  - change (0 + 8)%nat with (8 + 0)%nat. rewrite <- fmap_add_seq.
    generalize (seq 0 n) as l. induction l as [|i l IH]; [done|]. cbn [fmap list_fmap List.filter].
    rewrite of_le_testbit_cons, decide_False by (done || lia).
    replace (Z.of_nat (8 + i) - 8) with (Z.of_nat i) by lia.
    destruct (Z.testbit (of_le bs) (Z.of_nat i)); cbn [length]; rewrite IH; done.
Qed.

Lemma count_ones_of_le bs :
  bytes_ok bs -> count_ones (8 * length bs) (of_le bs) = sum_list (count_ones 8 <$> bs).
Proof.
  induction 1 as [|b bs Hb Hbs IH]; [done|]. cbn [length].
  replace (8 * S (length bs))%nat with (8 + 8 * length bs)%nat by lia.
  rewrite count_ones_cons by done. cbn. rewrite <- IH. done.
Qed.

Lemma chunks8_bits l :
  (length l mod 8 = 0)%nat -> bytes_ok l ->
  sum_list ((fun c => count_ones 64 (of_le c)) <$> chunks8 l) = sum_list (count_ones 8 <$> l).
Proof.
  intros H8. revert l H8. apply (chunks8_ind (fun l => bytes_ok l -> _)); [done|].
  intros c l Hc IH [Hcok Hlok]%Forall_app. rewrite chunks8_app, fmap_app, sum_list_with_app by done.
  cbn [fmap list_fmap sum_list_with]. rewrite <- (count_ones_of_le c), Hc by done.
  unfold id. f_equal. by apply IH.
Qed.

(** ** Chunkwise updates are bytewise *)

Lemma chunks8_map (f : list Z -> list Z) (g : Z -> Z) l :
  (forall c, length c = 8%nat -> bytes_ok c -> f c = g <$> c) ->
  (length l mod 8 = 0)%nat -> bytes_ok l -> mjoin (f <$> chunks8 l) = g <$> l.
Proof.
  intros Hf H8. revert l H8. apply (chunks8_ind (fun l => bytes_ok l -> _)); [done|].
  intros c l Hc IH [Hcok Hlok]%Forall_app. rewrite chunks8_app, fmap_app by done.
  cbn [fmap list_fmap]. rewrite mjoin_cons, Hf by done. f_equal. by apply IH.
Qed.

Lemma not_chunk c :
  length c = 8%nat -> bytes_ok c -> to_le 8 (not_w 64 (of_le c)) = not_w 8 <$> c.
Proof.
  intros Hl Hc. rewrite not_w_64 by done.
  replace 8%nat with (length (not_w 8 <$> c)) by (by rewrite length_fmap).
  apply to_le_of_le. apply Forall_fmap, (Forall_impl _ _ _ Hc). intros. by apply not_w_fits.
Qed.

(** Every byte has a bucket: the [unwrap] of the table's construction succeeds. *)
Definition all_bytes : list Z := seqZ 0 256.

Lemma forall_bytes (p : Z -> bool) :
  forallb p all_bytes = true -> forall b, byte_ok b -> p b = true.
Proof.
  intros H b Hb. rewrite forallb_forall in H. apply H.
  apply list_elem_of_In, elem_of_seqZ. unfold fits in Hb. lia.
Qed.

Lemma lookup_bucket_total b : byte_ok b -> lookup_bucket b = Some (bucket b).
Proof.
  intros Hb. apply (bool_decide_unpack _), Is_true_true.
  revert b Hb. apply forall_bytes. by vm_compute.
Qed.

Lemma bucket_ok b : byte_ok b -> byte_ok (bucket b).
Proof.
  intros Hb. apply (bool_decide_unpack _), Is_true_true.
  revert b Hb. apply forall_bytes. by vm_compute.
Qed.

Lemma bucket_zero b : byte_ok b -> bucket b = 0 <-> b = 0.
Proof.
  intros Hb. enough (E : (bucket b =? 0) = (b =? 0)).
  { rewrite <- !Z.eqb_eq. by rewrite E. }
  apply eqb_prop. revert b Hb. apply forall_bytes. by vm_compute.
Qed.

(** Rows of one width: the element at column [j] of row [i]. *)
Lemma mbind_rows {A B} (f : A -> list B) (w : nat) (l : list A) i j :
  (forall x, x ∈ l -> length (f x) = w) -> (j < w)%nat ->
  (l ≫= f) !! (i * w + j)%nat = (x ← l !! i; f x !! j).
Proof.
  intros Hw Hj. revert i. induction l as [|x l IH]; intros i; [done|].
  change ((x :: l) ≫= f) with (f x ++ (l ≫= f)).
  pose proof (Hw x (list_elem_of_here _ _)) as Hx. destruct i as [|i].
  - rewrite lookup_app_l by lia. done.
  - rewrite lookup_app_r by lia. replace (S i * w + j - length (f x))%nat with (i * w + j)%nat by lia.
    rewrite IH; [done|]. intros y Hy. apply Hw. by right.
Qed.

Lemma LOOKUP_U16_lookup b1 b2 :
  byte_ok b1 -> byte_ok b2 ->
  LOOKUP_U16 !! Z.to_nat (of_le [b2; b1]) = Some (Z.lor (Z.shiftl (bucket b1) 8) (bucket b2)).
Proof.
  unfold fits. change (2 ^ 8) with 256. intros H1 H2. cbn [of_le].
  replace (Z.to_nat (b2 + 256 * (b1 + 256 * 0)))
    with (Z.to_nat b1 * 256 + Z.to_nat b2)%nat by lia.
  unfold LOOKUP_U16.
  assert (Hrow : forall g : Z -> Z, (b2 ← seqZ 0 256; [g b2]) = g <$> seqZ 0 256).
  { intros g. induction (seqZ 0 256) as [|x l IH]; [done|]. cbn. by f_equal. }
  rewrite mbind_rows; [|intros x _; rewrite Hrow, length_fmap; apply length_seqZ|lia].
  rewrite lookup_seqZ_lt by lia. cbn [mbind option_bind].
  rewrite Hrow, list_lookup_fmap, lookup_seqZ_lt by lia. cbn [fmap option_fmap option_map].
  do 3 f_equal; f_equal; lia.
Qed.
#[global] Opaque LOOKUP_U16.

Lemma classify_u16_spec lo hi :
  byte_ok lo -> byte_ok hi -> classify_u16 lo hi = [bucket lo; bucket hi].
Proof.
  intros Hl Hh. unfold classify_u16. rewrite LOOKUP_U16_lookup by done. cbn [default from_option].
  pose proof (bucket_ok lo Hl) as Hbl. pose proof (bucket_ok hi Hh) as Hbh.
  assert (Hok : bytes_ok [bucket lo; bucket hi]) by (constructor; [|constructor]; done).
  assert (E : Z.lor (Z.shiftl (bucket hi) 8) (bucket lo) = of_le [bucket lo; bucket hi]).
  { cbn [of_le]. apply Z.bits_inj'. intros i Hi.
    change (bucket lo + 256 * (bucket hi + 256 * 0)) with (of_le [bucket lo; bucket hi]).
    rewrite Z.lor_spec, of_le_testbit_cons by (lia || (by inversion Hok)).
    case_decide.
    - by rewrite Z.shiftl_spec_low by lia.
    - rewrite (fits_high 8 (bucket lo)), orb_false_r, Z.shiftl_spec by (done || lia).
      cbn [of_le]. f_equal. lia. }
  unfold id in *. rewrite E. by apply (to_le_of_le [bucket lo; bucket hi]).
Qed.

Lemma classify_chunk_spec c :
  length c = 8%nat -> bytes_ok c -> classify_chunk c = bucket <$> c.
Proof.
  intros Hl Hc. unfold classify_chunk. destruct (of_le c =? 0) eqn:E; cbn [negb].
  - apply Z.eqb_eq, of_le_zero in E; [|done]. clear -E.
    induction E as [|b c -> E IH]; [done|]. cbn. by rewrite <- IH.
  - do 8 (destruct c as [|? c]; [done|]). destruct c; [|done].
    repeat match goal with H : Forall _ (_ :: _) |- _ => inversion H; clear H; subst end.
    by rewrite !classify_u16_spec.
Qed.

Lemma classify_data m :
  bitmap_wf m -> bm_data (Bitmap_classify_counts m) = bucket <$> bm_data m.
Proof.
  intros Hm. apply chunks8_map; [apply classify_chunk_spec|by apply bitmap_wf_mod8|apply Hm].
Qed.

(** ** Edges and the minimised map *)

Lemma edges_filter m :
  Bitmap_edges m = fst <$> List.filter (fun e => e.2 >? 0) (imap pair (bm_data m)).
Proof. unfold Bitmap_edges. by rewrite foldl_push. Qed.

Lemma elem_of_edges m i :
  i ∈ Bitmap_edges m <-> exists b, bm_data m !! i = Some b /\ 0 < b.
Proof.
  rewrite edges_filter, list_elem_of_fmap. split.
  - intros ([i' b] & -> & [Hin Hb]%list_elem_of_In%filter_In).
    apply list_elem_of_In, elem_of_imap_pair in Hin. exists b. split; [done|].
    by apply Z.gtb_lt in Hb.
  - intros (b & Hi & Hb). exists (i, b). split; [done|].
    apply list_elem_of_In, filter_In. split; [|by apply Z.gtb_lt].
    by apply list_elem_of_In, elem_of_imap_pair.
Qed.

Lemma edges_zip_sorted k l :
  StronglySorted lt (fst <$> List.filter (fun e => e.2 >? 0) (zip (seq k (length l)) l)) /\
  Forall (fun i => k <= i)%nat (fst <$> List.filter (fun e => e.2 >? 0) (zip (seq k (length l)) l)).
Proof.
  revert k. induction l as [|b l IH]; intros k; cbn; [split; constructor|].
  destruct (IH (S k)) as [Hs Hk].
  destruct (b >? 0); cbn; (split; [|]); repeat constructor; try done;
    apply (Forall_impl _ _ _ Hk); cbn; lia.
Qed.

Lemma edges_length m :
  bytes_ok (bm_data m) ->
  length (Bitmap_edges m) = length (List.filter (fun b => negb (b =? 0)) (bm_data m)).
Proof.
  intros Hok. rewrite edges_filter, length_fmap, imap_pair_zip. generalize 0%nat as k.
  induction Hok as [|b l Hb Hok IH]; intros k; [done|].
  cbn [length seq zip zip_with List.filter snd].
  assert (E : (b >? 0) = negb (b =? 0)).
  { unfold fits in Hb. destruct (Z.eqb_spec b 0) as [->|]; [done|]. apply Z.gtb_lt. lia. }
  rewrite E. destruct (negb (b =? 0)); cbn [length]; rewrite IH; done.
Qed.

(** The bits of the new map after the first bytes [pre] of the source. *)
Definition minimized (n : nat) (pre mem : list Z) : Prop :=
  length mem = n /\ bytes_ok mem /\
  forall e, bit_at mem e = match pre !! e with Some b => b >? 0 | None => false end.

Lemma minimize_step_spec n pre b mem :
  minimized n pre mem -> (length pre < n * 8)%nat ->
  exists mem', minimize_step (Ret mem) (length pre, b) = Ret mem' /\
    minimized n (pre ++ [b]) mem'.
Proof.
  intros (Hl & Hok & Hbits) Hlt. unfold minimize_step. cbn [mbind outcome_bind fst snd].
  destruct (b >? 0) eqn:Eb.
  - destruct (slice_get_lt mem (length pre / 8)) as (byte & Eg & Hbyte); [dlia|].
    rewrite Eg. cbn [mbind outcome_bind]. rewrite slice_set_lt by dlia.
    eexists. split; [done|]. split; [by rewrite length_insert|]. split.
    + apply Forall_insert; [done|]. apply fits_lor; [lia| |apply bit_u8_ok; dlia].
      exact (Forall_lookup_1 _ _ _ _ Hok Hbyte).
    + intros e. rewrite bit_at_insert by dlia. change (Z.shiftl 1 ?x) with (Z.shiftl 1 x).
      fold (bit_u8 (length pre mod 8)).
      destruct (decide (e < length pre)%nat) as [Hlt'|Hge].
      * rewrite lookup_app_l, <- Hbits by done. case_decide as Hd; [|done].
        rewrite Z.lor_spec, bit_u8_testbit, bool_decide_false, orb_false_r by dlia.
        unfold bit_at. by rewrite Hd, Hbyte.
      * rewrite lookup_app_r by lia. destruct (decide (e = length pre)) as [->|Hne].
        -- rewrite decide_True, Nat.sub_diag, Z.lor_spec, bit_u8_testbit, bool_decide_true by done.
           cbn. by rewrite orb_true_r.
        -- rewrite (lookup_ge_None_2 [b]) by (cbn; lia). case_decide as Hd.
           ++ rewrite Z.lor_spec, bit_u8_testbit, bool_decide_false, orb_false_r by dlia.
              specialize (Hbits e). unfold bit_at in Hbits. rewrite Hd, Hbyte in Hbits.
              rewrite Hbits, lookup_ge_None_2 by lia. done.
           ++ rewrite Hbits, lookup_ge_None_2 by lia. done.
  - exists mem. split; [done|]. split; [done|]. split; [done|]. intros e. rewrite Hbits.
    destruct (decide (e < length pre)%nat); [by rewrite lookup_app_l|].
    rewrite lookup_app_r, lookup_ge_None_2 by lia.
    destruct (e - length pre)%nat; cbn; [by rewrite Eb|done].
Qed.

Lemma minimize_fold n l pre mem :
  minimized n pre mem -> (length pre + length l <= n * 8)%nat ->
  exists mem', foldl minimize_step (Ret mem) (zip (seq (length pre) (length l)) l) = Ret mem' /\
    minimized n (pre ++ l) mem'.
Proof.
  revert pre mem. induction l as [|b l IH]; intros pre mem Hm Hl.
  - exists mem. by rewrite app_nil_r.
  - cbn [length seq zip zip_with foldl] in *.
    destruct (minimize_step_spec n pre b mem Hm) as (mem1 & -> & Hm1); [lia|].
    destruct (IH (pre ++ [b]) mem1 Hm1) as (mem' & E & Hm'); [rewrite length_app; cbn; lia|].
    exists mem'. rewrite <- app_assoc in Hm'. split; [|done].
    rewrite <- E, length_app. cbn. by rewrite Nat.add_1_r.
Qed.

Lemma minimized_nil n : minimized n [] (replicate n 0).
Proof.
  split; [apply length_replicate|]. split; [by apply Forall_replicate|].
  intros e. rewrite lookup_nil. unfold bit_at. destruct (_ !! _) eqn:E; [|done].
  apply lookup_replicate in E as [-> _]. by rewrite Z.testbit_0_l.
Qed.

(** ** The operators *)

Section operators.
Context (op : Z -> Z -> Z).
Context (op_word : forall a b, bytes_ok a -> bytes_ok b -> length a = length b ->
  op (of_le a) (of_le b) = of_le (zip_with op a b)).
Context (op_ok : forall a b, byte_ok a -> byte_ok b -> byte_ok (op a b)).

Lemma ops_loop_spec s o z :
  (length s mod 8 = 0)%nat -> length s = length o -> length z = length s ->
  bytes_ok s -> bytes_ok o ->
  exists r, ops_loop op (chunks8 z) (chunks8 s) (chunks8 o) = Ret r /\
    mjoin r = zip_with op s o.
Proof using op_word op_ok.
  intros H8 Hl Hz. revert z Hz. revert s o H8 Hl.
  apply (chunks8_ind2 (fun s o => forall z, _ -> bytes_ok s -> bytes_ok o -> _)).
  - intros z Hz _ _. destruct z; [|done]. by exists [].
  - intros c d l k Hc Hd Hlk IH z Hz [Hcok Hlok]%Forall_app [Hdok Hkok]%Forall_app.
    rewrite length_app in Hz. rewrite <- (take_drop 8 z).
    rewrite !chunks8_app by (done || (rewrite length_take; lia)). cbn [ops_loop].
    destruct (IH (drop 8 z)) as (r & -> & Er); [rewrite length_drop; lia|done|done|].
    eexists. split; [done|]. rewrite mjoin_cons, Er, op_word, zip_with_app by (done || lia).
    f_equal. replace 8%nat with (length (zip_with op c d)) at 1
      by (rewrite length_zip_with; lia).
    apply to_le_of_le, bytes_ok_zip_with; auto.
Qed.

Lemma impl_ops_spec m rhs :
  bitmap_wf m -> bitmap_wf rhs -> bm_size m = bm_size rhs ->
  exists r, Bitmap_impl_ops op m rhs = Ret r /\ bitmap_wf r /\
    bm_size r = bm_size m /\ bm_data r = zip_with op (bm_data m) (bm_data rhs).
Proof using op_word op_ok.
  intros Hm Hr Hsz. unfold Bitmap_impl_ops, Bitmap_clone_with_pattern.
  assert (Enew : Bitmap_new_in_mem (bm_size m) 0
            = Ret (mk_bitmap None (replicate (bm_size m) 0) 0 (bm_size m))).
  { apply new_in_mem_Ret. split; [apply Hm|done]. }
  rewrite Enew. cbn [mbind outcome_bind bm_data].
  assert (Hlen : length (bm_data m) = length (bm_data rhs)) by (destruct Hm, Hr; congruence).
  destruct (ops_loop_spec (bm_data m) (bm_data rhs) (replicate (bm_size m) 0)) as (r & -> & Er);
    [by apply bitmap_wf_mod8|done|rewrite length_replicate; by destruct Hm|apply Hm|apply Hr|].
  eexists. split; [done|]. cbn [bm_data with_data mbind outcome_bind]. rewrite Er.
  split; [|done]. apply with_data_wf; [by apply (new_in_mem_wf (bm_size m) 0)| |].
  - cbn. rewrite length_zip_with, length_replicate. destruct Hm. lia.
  - apply bytes_ok_zip_with; [done|apply Hm|apply Hr].
Qed.
End operators.

(** ** The properties of the routines *)

(** [count_bytes_set], [count_bits_set], [edges] and [not] have their bytewise
    meaning although the code reads the map eight bytes at a time: the first counts
    the non-zero bytes, the second sums the set bits of the bytes, [edges] lists in
    increasing order exactly the indices of non-zero bytes (as many as
    [count_bytes_set]), and [not] complements every byte, so twice is the identity. *)
Theorem bitmap_counts m :
  bitmap_wf m ->
  Bitmap_count_bytes_set m = length (List.filter (fun b => negb (b =? 0)) (bm_data m)) /\
  Bitmap_count_bits_set m = sum_list (count_ones 8 <$> bm_data m) /\
  StronglySorted lt (Bitmap_edges m) /\
  (forall i, i ∈ Bitmap_edges m <-> exists b, bm_data m !! i = Some b /\ 0 < b) /\
  length (Bitmap_edges m) = Bitmap_count_bytes_set m /\
  bm_data (Bitmap_not m) = not_w 8 <$> bm_data m /\
  Bitmap_not (Bitmap_not m) = m.
Proof.
  intros Hm. pose proof (bitmap_wf_mod8 m Hm) as H8. pose proof (bm_wf_bytes m Hm) as Hok.
  assert (Hcount : Bitmap_count_bytes_set m
                   = length (List.filter (fun b => negb (b =? 0)) (bm_data m))).
  { by apply chunks8_foldl_bytes with (n := 0%nat). }
  assert (Hnot : forall l, (length l mod 8 = 0)%nat -> bytes_ok l ->
    mjoin ((fun c => to_le 8 (not_w 64 (of_le c))) <$> chunks8 l) = not_w 8 <$> l).
  { intros l ? ?. by apply chunks8_map; [apply not_chunk|..]. }
  repeat split; try done.
  - by apply chunks8_bits.
  - rewrite edges_filter, imap_pair_zip. apply edges_zip_sorted.
  - apply elem_of_edges.
  - apply elem_of_edges.
  - by rewrite edges_length, Hcount.
  - by apply Hnot.
  - destruct m as [id d p n]. unfold Bitmap_not, with_data.
    cbn [bm_data bm_shm_id bm_fill_pattern bm_size] in *. f_equal.
    rewrite (Hnot d) by done. rewrite Hnot; [|by rewrite length_fmap|].
    + rewrite <- list_fmap_compose. rewrite <- (list_fmap_id d) at 2.
      apply list_fmap_ext. intros ? x _. apply not_w_involutive.
    + apply Forall_fmap, (Forall_impl _ _ _ Hok). intros. by apply not_w_fits.
Qed.

(** [classify_counts] replaces every hit count by its AFL bucket, through the
    16-bit table and four lookups per chunk: the bucket is the table entry of the
    byte, it is zero exactly for zero, so the edges of the map are unchanged, and the
    map stays well-formed. *)
Theorem classify_counts_buckets m :
  bitmap_wf m ->
  let r := Bitmap_classify_counts m in
  bm_data r = bucket <$> bm_data m /\ bitmap_wf r /\
  (forall b, b ∈ bm_data m -> lookup_bucket b = Some (bucket b)) /\
  Bitmap_edges r = Bitmap_edges m.
Proof.
  intros Hm r. subst r. pose proof (bm_wf_bytes m Hm) as Hok.
  split; [by apply classify_data|]. split; [|split].
  - pose proof (classify_data m Hm) as E. unfold Bitmap_classify_counts in *.
    cbn [bm_data with_data] in E. rewrite E.
    apply with_data_wf; [done|apply length_fmap|].
    apply Forall_fmap, (Forall_impl _ _ _ Hok), bucket_ok.
  - intros b Hb. apply lookup_bucket_total. by eapply Forall_forall in Hok.
  - rewrite !edges_filter, classify_data, !imap_pair_zip, length_fmap by done.
    generalize 0%nat as k. clear Hm. induction Hok as [|b l Hb Hok IH]; intros k; [done|].
    cbn [length seq zip zip_with List.filter snd fmap list_fmap].
    assert (E : (bucket b >? 0) = (b >? 0)).
    { pose proof (bucket_ok b Hb) as Hbb. pose proof (bucket_zero b Hb) as Hz.
      unfold fits in Hb, Hbb. destruct (Z.gtb_spec (bucket b) 0), (Z.gtb_spec b 0); lia. }
    rewrite E. destruct (b >? 0); cbn [fmap list_fmap fst]; [f_equal|]; apply IH.
Qed.

(** Classifying a map a second time changes it: hit counts 3 and 4 are in
    different buckets, and after a second pass a single count 3 reads like a count
    of 4 to 7 did after the first. *)
Theorem classify_counts_not_idempotent :
  exists m, bitmap_wf m /\
    Bitmap_classify_counts (Bitmap_classify_counts m) <> Bitmap_classify_counts m /\
    bm_data (Bitmap_classify_counts (Bitmap_classify_counts m))
      = bm_data (Bitmap_classify_counts (mk_bitmap None (replicate 8 7) 0 8)).
Proof.
  assert (Hwf : forall b, byte_ok b -> bitmap_wf (mk_bitmap None (replicate 8 b) 0 8)).
  { intros b Hb. split; [done|by apply Forall_replicate|done|]. cbn. split; [lia|done]. }
  assert (H3 := Hwf 3 ltac:(done)). assert (H4 := Hwf 4 ltac:(done)). assert (H7 := Hwf 7 ltac:(done)).
  assert (E : Bitmap_classify_counts (mk_bitmap None (replicate 8 3) 0 8)
              = mk_bitmap None (replicate 8 4) 0 8).
  { pose proof (classify_data _ H3) as E. unfold Bitmap_classify_counts, with_data in *.
    cbn [bm_data bm_shm_id bm_fill_pattern bm_size] in *. by f_equal. }
  exists (mk_bitmap None (replicate 8 3) 0 8). split; [done|]. rewrite E. split.
  - intros H. pose proof (classify_data _ H4) as E4. rewrite H in E4. by vm_compute in E4.
  - by rewrite !classify_data.
Qed.

(** [minimize] packs the map to one bit per edge: on a map of at least 64 bytes
    it returns a well-formed map of an eighth of the size whose bit [e mod 8] of
    byte [e / 8] is set exactly when byte [e] of the map is non-zero; on a smaller
    map the assertion of [new_in_mem] fails. *)
Theorem minimize_packs m :
  bitmap_wf m ->
  ((64 <= bm_size m)%nat ->
    exists r, Bitmap_minimize m = Ret r /\ bitmap_wf r /\
      bm_size r = (bm_size m / 8)%nat /\
      forall e, bit_at (bm_data r) e = true <-> exists b, bm_data m !! e = Some b /\ 0 < b) /\
  ((bm_size m < 64)%nat -> Bitmap_minimize m = Panic).
Proof.
  intros Hm. destruct (bm_wf_size m Hm) as [H8 Hp]. unfold Bitmap_minimize. split.
  - intros H64. assert (Enew : Bitmap_new_in_mem (bm_size m / 8) 0
      = Ret (mk_bitmap None (replicate (bm_size m / 8) 0) 0 (bm_size m / 8))).
    { apply new_in_mem_Ret. split; [|done]. split; [dlia|by apply power_of_two_div8]. }
    rewrite Enew. cbn [mbind outcome_bind bm_data].
    pose proof (bitmap_wf_mod8 m Hm) as Hmod. rewrite (bm_wf_length m Hm) in Hmod.
    rewrite imap_pair_zip.
    destruct (minimize_fold (bm_size m / 8) (bm_data m) [] _ (minimized_nil _))
      as (mem & E & Hl & Hok & Hbits); [rewrite (bm_wf_length m Hm); cbn [length]; dlia|].
    cbn [length app] in E. unfold mret, outcome_ret. rewrite E. eexists. split; [done|]. split; [|split; [done|]].
    + apply with_data_wf; [by apply (new_in_mem_wf (bm_size m / 8) 0)| |done].
      cbn. by rewrite length_replicate.
    + intros e. cbn [bm_data with_data]. rewrite Hbits. cbn [app].
      destruct (bm_data m !! e) as [b|]; [|split; [done|by intros (? & ? & _)]].
      rewrite Z.gtb_lt. split; [by exists b|by intros (? & [= ->] & ?)].
  - intros H64. destruct (Bitmap_new_in_mem (bm_size m / 8) 0) as [r|] eqn:E; [|done].
    apply new_in_mem_Ret in E as [[? _] _]. exfalso. dlia.
Qed.

(** [&], [|] and [^] on maps of one size never panic and return a well-formed
    map of that size whose bytes are the bytewise operation. *)
Lemma bitmap_operators_bytewise m rhs :
  bitmap_wf m -> bitmap_wf rhs -> bm_size m = bm_size rhs ->
  (exists r, Bitmap_bitand m rhs = Ret r /\ bitmap_wf r /\ bm_size r = bm_size m /\
     bm_data r = zip_with Z.land (bm_data m) (bm_data rhs)) /\
  (exists r, Bitmap_bitor m rhs = Ret r /\ bitmap_wf r /\ bm_size r = bm_size m /\
     bm_data r = zip_with Z.lor (bm_data m) (bm_data rhs)) /\
  (exists r, Bitmap_bitxor m rhs = Ret r /\ bitmap_wf r /\ bm_size r = bm_size m /\
     bm_data r = zip_with Z.lxor (bm_data m) (bm_data rhs)).
Proof.
  intros Hm Hr Hsz. repeat split; apply impl_ops_spec; try done.
  - apply of_le_land.
  - intros. by apply fits_land_l.
  - apply of_le_lor.
  - intros. by apply fits_lor.
  - apply of_le_lxor.
  - intros. by apply fits_lxor.
Qed.

(** A clone is a heap copy: it succeeds on every well-formed map, has the bytes,
    size and fill pattern of the original and no shared-memory id, and resetting it
    fills it with the pattern. *)
Lemma bitmap_clone_reset m :
  bitmap_wf m ->
  Bitmap_clone m = Ret (mk_bitmap None (bm_data m) (bm_fill_pattern m) (bm_size m)) /\
  bitmap_wf (Bitmap_reset m) /\
  Bitmap_clone_with_pattern m (bm_fill_pattern m)
    = Ret (mk_bitmap None (bm_data (Bitmap_reset m)) (bm_fill_pattern m) (bm_size m)).
Proof.
  intros Hm. unfold Bitmap_clone, Bitmap_clone_as_mem_backed, Bitmap_clone_with_pattern.
  assert (Enew : Bitmap_new_in_mem (bm_size m) (bm_fill_pattern m) = Ret (mk_bitmap None
    (replicate (bm_size m) (bm_fill_pattern m)) (bm_fill_pattern m) (bm_size m))).
  { apply new_in_mem_Ret. split; [apply Hm|done]. }
  rewrite Enew. cbn [mbind outcome_bind]. split; [|split].
  - unfold Bitmap_copy_from. cbn [bm_data].
    rewrite length_replicate, (bm_wf_length m Hm), Nat.eqb_refl. done.
  - apply with_data_wf; [done|apply length_replicate|]. apply Forall_replicate, Hm.
  - unfold Bitmap_reset. cbn [bm_data with_data]. by rewrite (bm_wf_length m Hm).
Qed.

(** ** Witnesses *)

Definition demo_map (b : Z) : Bitmap := mk_bitmap None (replicate 64 b) 0 64.

Lemma demo_map_wf b : byte_ok b -> bitmap_wf (demo_map b).
Proof. intros Hb. split; [done|by apply Forall_replicate|done|]. cbn. split; [lia|done]. Qed.

Lemma has_new_bit_history_witness :
  (Bitmap_has_new_bit (demo_map 2) (observe (mk_bitmap None (replicate 64 255) 255 64)
     [demo_map 1])).1 <> NoChange.
Proof.
  intros H. destruct (has_new_bit_history 64 (mk_bitmap None (replicate 64 255) 255 64)
    [demo_map 1] (demo_map 2)) as (_ & [Hn _] & _); [done| | |].
  - clear H. constructor; [|done]. split; [by apply demo_map_wf|done].
  - clear H. split; [by apply demo_map_wf|done].
  - specialize (Hn H 0%nat 1). clear H.
    destruct Hn as (m' & [= ->]%list_elem_of_singleton & (b & [= <-] & Ht)); [by exists 2|]. done.
Defined.
