(* ===== verification/Mutators.v ===== *)
(** * The mutators

    Models [scheduler/src/fuzzer/worker_impl/mutators.rs].  A mutator borrows the
    mask of a mutation entry ([&'a mut [u8]]); here the borrowed bytes are the
    explicit argument [buf], and the other fields are a record.  The draws a call
    to [next] makes from [rand::thread_rng] and the clock are the argument
    [Draws].  The trait is the class [Mutator]; its contract, that the mutations
    are reverted when the mutator is dropped, is the class [MutatorLaws], which
    every implementation instantiates and against which the clients are proved. *)

From S2P Require Import Prelude Bytes.

Inductive MutatorType :=
| MT_Nop
| MT_FlipBit
| MT_FlipByte
| MT_FlipOnce
| MT_RandomBit (n : nat)
| MT_RandomByte (n : nat)
| MT_U8Counter
| MT_Havoc
| MT_Combine.

(** What one call of [next] reads from the generator and the clock. *)
Record Draws := mk_draws {
  (** [gen_range(0..n)] *)
  gen_range : nat -> nat;
  (** the [k]-th [gen::<u8>()] *)
  gen_u8 : nat -> Z;
  (** [gen::<usize>()] *)
  gen_usize : nat;
  (** [Instant::now()] and the later clock read by [elapsed()], in nanoseconds *)
  clock_now : Z;
  clock_elapsed_at : Z;
}.

Record draws_ok (d : Draws) : Prop := {
  gen_range_lt : forall n, (0 < n)%nat -> (gen_range d n < n)%nat;
  gen_u8_ok : forall k, byte_ok (gen_u8 d k);
}.

(** [gen_range] panics on an empty range. *)
Definition draw_range (d : Draws) (n : nat) : outcome nat :=
  if (n =? 0)%nat then Panic else Ret (gen_range d n).

(** The trait; [next] returns whether it yielded, the mutator and the buffer. *)
Class Mutator (M : Type) := {
  mutator_type : M -> MutatorType;
  needs_sync : M -> bool;
  one_shot : M -> bool;
  steps_total : M -> list Z -> nat;
  steps_done : M -> list Z -> nat;
  next : Draws -> M -> list Z -> outcome (bool * M * list Z);
  drop_mutator : M -> list Z -> outcome (list Z);
}.

Section defaults.
Context `{Mutator M}.

(** [self.steps_total() - self.steps_done()]; an underflow panics. *)
Definition steps_left (m : M) (buf : list Z) : outcome nat :=
  if (steps_done m buf <=? steps_total m buf)%nat
  then Ret (steps_total m buf - steps_done m buf)%nat else Panic.

Definition Duration_MAX : Z := (2 ^ 64 - 1) * 1000000000 + 999999999.

(** [Duration::saturating_mul], durations in nanoseconds *)
Definition estimate_runtime (m : M) (buf : list Z) (avg_exec_time : Z) : Z :=
  let steps := Z.of_nat (steps_total m buf) in
  let factor := if decide (steps < 2 ^ 32) then steps else 2 ^ 32 - 1 in
  Z.min (avg_exec_time * factor) Duration_MAX.
End defaults.

(** [if let Some(idx) = last.take() { buffer[idx] = saved }] *)
Definition revert_byte (last : option nat) (saved : Z) (buf : list Z) : outcome (list Z) :=
  match last with
  | Some idx => slice_set buf idx saved
  | None => Ret buf
  end.

(** [buffer[idx] ^= v] *)
Definition xor_at (buf : list Z) (idx : nat) (v : Z) : outcome (list Z) :=
  b ← slice_get buf idx; slice_set buf idx (Z.lxor b v).

(** ** [WithTimeout] *)

Record WithTimeout (M : Type) := mk_with_timeout {
  wt_mutator : M;
  wt_timeout : Z;
  wt_start_ts : option Z;
}.
Arguments mk_with_timeout {M}.
Arguments wt_mutator {M}.
Arguments wt_timeout {M}.
Arguments wt_start_ts {M}.

Definition WithTimeout_new {M} (mutator : M) (timeout : Z) : WithTimeout M :=
  mk_with_timeout mutator timeout None.

Definition WithTimeout_next `{Mutator M} (d : Draws) (w : WithTimeout M) (buf : list Z)
    : outcome (bool * WithTimeout M * list Z) :=
  let start_ts := default (clock_now d) (wt_start_ts w) in
  if Z.max 0 (clock_elapsed_at d - start_ts) >? wt_timeout w
  then Ret (false, mk_with_timeout (wt_mutator w) (wt_timeout w) (Some start_ts), buf)
  else
    '(r, m, buf) ← next d (wt_mutator w) buf;
    mret (r, mk_with_timeout m (wt_timeout w) (Some start_ts), buf).

#[export] Instance WithTimeout_Mutator `{Mutator M} : Mutator (WithTimeout M) := {|
  mutator_type := fun w => mutator_type (wt_mutator w);
  needs_sync := fun w => needs_sync (wt_mutator w);
  one_shot := fun w => one_shot (wt_mutator w);
  steps_total := fun w => steps_total (wt_mutator w);
  steps_done := fun w => steps_done (wt_mutator w);
  next := WithTimeout_next;
  drop_mutator := fun w => drop_mutator (wt_mutator w);
|}.

(** ** [RandomBit] *)

Record RandomBit := mk_random_bit {
  rbit_N : nat;
  rbit_current_step : nat;
  rbit_max_step : nat;
  rbit_last_idx : option nat;
  rbit_saved_byte : Z;
}.

Definition RandomBit_new (N steps : nat) : outcome RandomBit :=
  _ ← assert_that (N =? 1)%nat;
  mret (mk_random_bit N 0 steps None 0).

Definition RandomBit_next (d : Draws) (m : RandomBit) (buf : list Z)
    : outcome (bool * RandomBit * list Z) :=
  buf ← revert_byte (rbit_last_idx m) (rbit_saved_byte m) buf;
  if (rbit_current_step m =? rbit_max_step m)%nat
  then mret (false, mk_random_bit (rbit_N m) (rbit_current_step m) (rbit_max_step m) None
                      (rbit_saved_byte m), buf)
  else
    target_idx ← draw_range d (length buf);
    saved_byte ← slice_get buf target_idx;
    buf ← xor_at buf target_idx (Z.shiftl 1 (gen_u8 d 0 mod 8));
    mret (true, mk_random_bit (rbit_N m) (S (rbit_current_step m)) (rbit_max_step m)
                  (Some target_idx) saved_byte, buf).

#[export] Instance RandomBit_Mutator : Mutator RandomBit := {|
  mutator_type := fun m => MT_RandomBit (rbit_N m);
  needs_sync := fun _ => false;
  one_shot := fun _ => false;
  steps_total := fun m _ => rbit_max_step m;
  steps_done := fun m _ => rbit_current_step m;
  next := RandomBit_next;
  drop_mutator := fun m buf => revert_byte (rbit_last_idx m) (rbit_saved_byte m) buf;
|}.

(** ** [RandomByte] *)

Record RandomByte := mk_random_byte {
  rbyte_N : nat;
  rbyte_current_step : nat;
  rbyte_max_step : nat;
  rbyte_last_idx : option nat;
  rbyte_saved_bytes : list Z;
}.

(** [buffer[idx..(idx + src.len())].copy_from_slice(src)]: panics out of range. *)
Definition copy_at (buf : list Z) (idx : nat) (src : list Z) : outcome (list Z) :=
  if decide (idx + length src <= length buf)%nat
  then Ret (take idx buf ++ src ++ drop (idx + length src) buf) else Panic.

(** [&buffer[idx..(idx + n)]] *)
Definition slice_at (buf : list Z) (idx n : nat) : outcome (list Z) :=
  if decide (idx + n <= length buf)%nat then Ret (take n (drop idx buf)) else Panic.

Definition revert_bytes (last : option nat) (saved buf : list Z) : outcome (list Z) :=
  match last with
  | Some idx => copy_at buf idx saved
  | None => Ret buf
  end.

Definition RandomByte_new (N : nat) (buffer : list Z) (steps : nat) : option RandomByte :=
  if (length buffer <? N)%nat then None
  else Some (mk_random_byte N 0 steps None (replicate N 0)).

Definition RandomByte_next (d : Draws) (m : RandomByte) (buf : list Z)
    : outcome (bool * RandomByte * list Z) :=
  buf ← revert_bytes (rbyte_last_idx m) (rbyte_saved_bytes m) buf;
  if (rbyte_current_step m =? rbyte_max_step m)%nat
  then mret (false, mk_random_byte (rbyte_N m) (rbyte_current_step m) (rbyte_max_step m) None
                      (rbyte_saved_bytes m), buf)
  else
    _ ← assert_that (rbyte_N m <=? length buf)%nat;
    last_idx ← draw_range d (length buf - rbyte_N m + 1);
    saved_bytes ← slice_at buf last_idx (rbyte_N m);
    buf ← copy_at buf last_idx (imap (fun k e => Z.lxor e (gen_u8 d k)) saved_bytes);
    mret (true, mk_random_byte (rbyte_N m) (S (rbyte_current_step m)) (rbyte_max_step m)
                  (Some last_idx) saved_bytes, buf).

#[export] Instance RandomByte_Mutator : Mutator RandomByte := {|
  mutator_type := fun m => MT_RandomByte (rbyte_N m);
  needs_sync := fun _ => false;
  one_shot := fun _ => false;
  steps_total := fun m _ => rbyte_max_step m;
  steps_done := fun m _ => rbyte_current_step m;
  next := RandomByte_next;
  drop_mutator := fun m buf => revert_bytes (rbyte_last_idx m) (rbyte_saved_bytes m) buf;
|}.

(** ** [FlipByte] *)

Record FlipByte := mk_flip_byte {
  fbyte_next_idx : nat;
  fbyte_last_idx : option nat;
  fbyte_orig_byte : Z;
}.

Definition FlipByte_new : FlipByte := mk_flip_byte 0 None 0.

Definition FlipByte_next (d : Draws) (m : FlipByte) (buf : list Z)
    : outcome (bool * FlipByte * list Z) :=
  buf ← revert_byte (fbyte_last_idx m) (fbyte_orig_byte m) buf;
  if (fbyte_next_idx m =? length buf)%nat
  then mret (false, mk_flip_byte (fbyte_next_idx m) None (fbyte_orig_byte m), buf)
  else
    orig_byte ← slice_get buf (fbyte_next_idx m);
    buf ← xor_at buf (fbyte_next_idx m) 255;
    mret (true, mk_flip_byte (S (fbyte_next_idx m)) (Some (fbyte_next_idx m)) orig_byte, buf).

#[export] Instance FlipByte_Mutator : Mutator FlipByte := {|
  mutator_type := fun _ => MT_FlipByte;
  needs_sync := fun _ => false;
  one_shot := fun _ => false;
  steps_total := fun _ buf => length buf;
  steps_done := fun m _ => fbyte_next_idx m;
  next := FlipByte_next;
  drop_mutator := fun m buf => revert_byte (fbyte_last_idx m) (fbyte_orig_byte m) buf;
|}.

(** ** [FlipBit] *)

Record FlipBit := mk_flip_bit {
  fbit_size_in_bits : nat;
  fbit_next_bit : nat;
  fbit_last_byte_idx : option nat;
  fbit_last_byte_orig_value : Z;
}.

Definition FlipBit_new (buffer : list Z) : FlipBit :=
  mk_flip_bit (length buffer * 8) 0 None 0.

Definition FlipBit_next (d : Draws) (m : FlipBit) (buf : list Z)
    : outcome (bool * FlipBit * list Z) :=
  buf ← revert_byte (fbit_last_byte_idx m) (fbit_last_byte_orig_value m) buf;
  if (fbit_next_bit m =? fbit_size_in_bits m)%nat
  then mret (false, mk_flip_bit (fbit_size_in_bits m) (fbit_next_bit m) None
                      (fbit_last_byte_orig_value m), buf)
  else
    orig ← slice_get buf (fbit_next_bit m / 8);
    buf ← xor_at buf (fbit_next_bit m / 8) (Z.shiftl 1 (Z.of_nat (fbit_next_bit m mod 8)));
    mret (true, mk_flip_bit (fbit_size_in_bits m) (S (fbit_next_bit m))
                  (Some (fbit_next_bit m / 8)%nat) orig, buf).

#[export] Instance FlipBit_Mutator : Mutator FlipBit := {|
  mutator_type := fun _ => MT_FlipBit;
  needs_sync := fun _ => false;
  one_shot := fun _ => false;
  steps_total := fun m _ => fbit_size_in_bits m;
  steps_done := fun m _ => fbit_next_bit m;
  next := FlipBit_next;
  drop_mutator := fun m buf =>
    revert_byte (fbit_last_byte_idx m) (fbit_last_byte_orig_value m) buf;
|}.

(** ** [U8Counter] *)

Record U8Counter := mk_u8_counter {
  u8c_next_byte : nat;
  u8c_last_byte_idx : option nat;
  u8c_last_byte_orig_value : Z;
  u8c_ctr : Z;
}.

Definition U8Counter_new : U8Counter := mk_u8_counter 0 None 0 0.

Definition U8Counter_next (d : Draws) (m : U8Counter) (buf : list Z)
    : outcome (bool * U8Counter * list Z) :=
  buf ← revert_byte (u8c_last_byte_idx m) (u8c_last_byte_orig_value m) buf;
  if (u8c_next_byte m =? length buf)%nat
  then mret (false, mk_u8_counter (u8c_next_byte m) None (u8c_last_byte_orig_value m)
                      (u8c_ctr m), buf)
  else
    orig ← slice_get buf (u8c_next_byte m);
    buf ← xor_at buf (u8c_next_byte m) (u8c_ctr m);
    (* [match self.ctr.checked_add(1)] *)
    let '(ctr, next_byte) :=
      if decide (u8c_ctr m + 1 < 256) then (u8c_ctr m + 1, u8c_next_byte m)
      else (0, S (u8c_next_byte m)) in
    mret (true, mk_u8_counter next_byte (Some (u8c_next_byte m)) orig ctr, buf).

#[export] Instance U8Counter_Mutator : Mutator U8Counter := {|
  mutator_type := fun _ => MT_U8Counter;
  needs_sync := fun _ => false;
  one_shot := fun _ => false;
  steps_total := fun _ buf => (length buf * 256)%nat;
  steps_done := fun m _ => u8c_next_byte m;
  next := U8Counter_next;
  drop_mutator := fun m buf =>
    revert_byte (u8c_last_byte_idx m) (u8c_last_byte_orig_value m) buf;
|}.

(** ** [Havoc] *)

Inductive HavocMutationType := HMT_FlipBit | HMT_FlipByte | HMT_RandomByte | HMT_InterestingValue.

Definition HavocMutationType_from (value : Z) : outcome HavocMutationType :=
  match value with
  | 0 => Ret HMT_FlipBit
  | 1 => Ret HMT_FlipByte
  | 2 => Ret HMT_RandomByte
  | 3 => Ret HMT_InterestingValue
  | _ => Panic
  end.

Definition INTERESTING_VALUES : list Z := [0x80; 0x1; 0x0; 0x2].

Record Havoc := mk_havoc {
  hv_orig_buffer : list Z;
  hv_steps_done : nat;
  hv_max_stacks : nat;
  hv_repetitions : nat;
  hv_steps_total : nat;
}.

Definition Havoc_new (buffer : list Z) (max_stacks repetitions : nat) : Havoc :=
  mk_havoc buffer 0 max_stacks repetitions (max_stacks * repetitions).

(** [self.buffer.copy_from_slice(&orig)] *)
Definition copy_whole (buf orig : list Z) : outcome (list Z) :=
  if (length buf =? length orig)%nat then Ret orig else Panic.

(** [a % b] *)
Definition checked_rem (a b : nat) : outcome nat :=
  if (b =? 0)%nat then Panic else Ret (a mod b)%nat.

Definition havoc_apply (d : Draws) (buf : list Z) : outcome (list Z) :=
  let random_idx := gen_usize d in
  t ← HavocMutationType_from (gen_u8 d 0 mod 4);
  match t with
  | HMT_FlipBit =>
      idx ← checked_rem (random_idx / 8) (length buf);
      xor_at buf idx (Z.shiftl 1 (Z.of_nat (random_idx mod 8)))
  | HMT_FlipByte =>
      idx ← checked_rem random_idx (length buf);
      xor_at buf idx 255
  | HMT_RandomByte =>
      idx ← checked_rem random_idx (length buf);
      slice_set buf idx (gen_u8 d 1)
  | HMT_InterestingValue =>
      idx ← checked_rem random_idx (length INTERESTING_VALUES);
      v ← slice_get INTERESTING_VALUES idx;
      mret ((fun _ => v) <$> buf)
  end.

(** Reverts the stacked mutations after every [max_stacks] steps. *)
Definition havoc_revert (m : Havoc) (buf : list Z) : outcome (list Z) :=
  if (0 <? hv_steps_done m)%nat then
    r ← checked_rem (hv_steps_done m) (hv_max_stacks m);
    if (r =? 0)%nat then copy_whole buf (hv_orig_buffer m) else mret buf
  else mret buf.

Definition Havoc_next (d : Draws) (m : Havoc) (buf : list Z)
    : outcome (bool * Havoc * list Z) :=
  if (hv_steps_done m =? hv_steps_total m)%nat
  then buf ← copy_whole buf (hv_orig_buffer m); mret (false, m, buf)
  else
    buf ← havoc_revert m buf;
    buf ← havoc_apply d buf;
    mret (true, mk_havoc (hv_orig_buffer m) (S (hv_steps_done m)) (hv_max_stacks m)
                  (hv_repetitions m) (hv_steps_total m), buf).

#[export] Instance Havoc_Mutator : Mutator Havoc := {|
  mutator_type := fun _ => MT_Havoc;
  needs_sync := fun _ => false;
  one_shot := fun _ => false;
  steps_total := fun m _ => hv_steps_total m;
  steps_done := fun m _ => hv_steps_done m;
  next := Havoc_next;
  drop_mutator := fun m buf => copy_whole buf (hv_orig_buffer m);
|}.

(** ** [Nop]: it borrows no buffer *)

Record Nop := mk_nop {
  nop_steps : nat;
  nop_steps_done : nat;
}.

Definition Nop_new (steps : nat) : Nop := mk_nop steps 0.

Definition Nop_next (d : Draws) (m : Nop) (buf : list Z) : outcome (bool * Nop * list Z) :=
  match nop_steps m with
  | O => Ret (false, m, buf)
  | S steps => Ret (true, mk_nop steps (nop_steps_done m), buf)
  end.

#[export] Instance Nop_Mutator : Mutator Nop := {|
  mutator_type := fun _ => MT_Nop;
  needs_sync := fun _ => true;
  one_shot := fun _ => false;
  steps_total := fun m _ => nop_steps m;
  steps_done := fun m _ => nop_steps_done m;
  next := Nop_next;
  drop_mutator := fun _ buf => Ret buf;
|}.

(** ** [CombineMutator] *)

(** [cmb_msks] lists the masks in the order [pop] takes them, last first. *)
Record CombineMutator := mk_combine {
  cmb_steps : nat;
  cmb_steps_done : nat;
  cmb_msks : list (list Z);
  cmb_buffer_original : list Z;
  cmb_one_shot : bool;
}.

Definition CombineMutator_new (buffer : list Z) (msks : list (list Z)) (one_shot : bool)
    : CombineMutator :=
  mk_combine (length msks) 0 (reverse msks) buffer one_shot.

Definition CombineMutator_next (d : Draws) (m : CombineMutator) (buf : list Z)
    : outcome (bool * CombineMutator * list Z) :=
  match cmb_msks m with
  | msk :: msks =>
      buf ← copy_whole buf (cmb_buffer_original m);
      let copy_len := min (length buf) (length msk) in
      buf ← copy_at buf 0 (take copy_len msk);
      mret (true, mk_combine (cmb_steps m) (S (cmb_steps_done m)) msks
                    (cmb_buffer_original m) (cmb_one_shot m), buf)
  | [] =>
      buf ← copy_whole buf (cmb_buffer_original m);
      mret (false, m, buf)
  end.

#[export] Instance CombineMutator_Mutator : Mutator CombineMutator := {|
  mutator_type := fun _ => MT_Combine;
  needs_sync := fun _ => true;
  one_shot := fun m => cmb_one_shot m;
  steps_total := fun m _ => cmb_steps m;
  steps_done := fun m _ => cmb_steps_done m;
  next := CombineMutator_next;
  drop_mutator := fun m buf => copy_whole buf (cmb_buffer_original m);
|}.

(** ** [FlipOnce] *)

Record FlipOnce := mk_flip_once { fo_done : bool }.

Definition FlipOnce_new : FlipOnce := mk_flip_once false.

Definition FlipOnce_next (d : Draws) (m : FlipOnce) (buf : list Z)
    : outcome (bool * FlipOnce * list Z) :=
  if fo_done m then Ret (false, m, buf)
  else Ret (true, mk_flip_once true, not_w 8 <$> buf).

Definition FlipOnce_drop (m : FlipOnce) (buf : list Z) : outcome (list Z) :=
  if fo_done m then Ret (not_w 8 <$> buf) else Ret buf.

#[export] Instance FlipOnce_Mutator : Mutator FlipOnce := {|
  mutator_type := fun _ => MT_FlipOnce;
  needs_sync := fun _ => false;
  one_shot := fun _ => false;
  steps_total := fun _ _ => 1%nat;
  steps_done := fun m _ => if fo_done m then 1%nat else 0%nat;
  next := FlipOnce_next;
  drop_mutator := FlipOnce_drop;
|}.

(** ** The contract of the trait *)

(** [m_inv orig m buf]: [m] may be in use on [buf], and [orig] is what dropping it
    restores. *)
Class MutatorLaws (M : Type) `{!Mutator M} := {
  m_inv : list Z -> M -> list Z -> Prop;
  m_inv_next : forall orig d m buf, draws_ok d -> m_inv orig m buf ->
    exists r m' buf', next d m buf = Ret (r, m', buf') /\ m_inv orig m' buf';
  m_inv_drop : forall orig m buf, m_inv orig m buf -> drop_mutator m buf = Ret orig;
  m_inv_steps : forall orig m buf, m_inv orig m buf ->
    (steps_done m buf <= steps_total m buf)%nat;
}.

(** [while let Some(_) = mutator.next()], one [Draws] per call, until [None] or until
    the caller stops after the given calls.  Returns the buffers seen at each yield,
    whether the mutator was exhausted, the mutator and the buffer. *)
Fixpoint run_mutator `{Mutator M} (ds : list Draws) (m : M) (buf : list Z)
    : outcome (list (list Z) * bool * M * list Z) :=
  match ds with
  | [] => Ret ([], false, m, buf)
  | d :: ds =>
      '(r, m, buf) ← next d m buf;
      if r : bool then
        '(seen, ex, m', buf') ← run_mutator ds m buf;
        mret (buf :: seen, ex, m', buf')
      else mret ([], true, m, buf)
  end.

Section client.
Context `{MutatorLaws M}.

Lemma run_mutator_inv orig ds m buf :
  Forall draws_ok ds -> m_inv orig m buf ->
  exists seen ex m' buf', run_mutator ds m buf = Ret (seen, ex, m', buf') /\ m_inv orig m' buf'.
Proof.
  intros Hds. revert m buf. induction Hds as [|d ds Hd Hds IH]; intros m buf Hm; cbn.
  - by exists [], false, m, buf.
  - destruct (m_inv_next orig d m buf Hd Hm) as (r & m1 & buf1 & -> & Hm1). cbn.
    destruct r; [|by exists [], true, m1, buf1].
    destruct (IH m1 buf1 Hm1) as (seen & ex & m' & buf' & -> & Hm'). cbn.
    by exists (buf1 :: seen), ex, m', buf'.
Qed.

(** What every client of the trait gets. *)
Lemma run_then_drop orig ds m buf :
  Forall draws_ok ds -> m_inv orig m buf ->
  exists seen ex m' buf', run_mutator ds m buf = Ret (seen, ex, m', buf') /\
    drop_mutator m' buf' = Ret orig /\ exists n, steps_left m' buf' = Ret n.
Proof.
  intros Hds Hm. destruct (run_mutator_inv orig ds m buf Hds Hm) as (seen & ex & m' & buf' & E & Hm').
  exists seen, ex, m', buf'. split; [done|]. split; [by apply m_inv_drop|].
  unfold steps_left. apply m_inv_steps in Hm'. apply Nat.leb_le in Hm' as ->. eauto.
Qed.
End client.

(** ** The implementations meet the contract *)

(** At most byte [last] differs from [orig], and [saved] is its value there. *)
Definition one_byte_off (last : option nat) (saved : Z) (orig buf : list Z) : Prop :=
  match last with
  | Some i => orig !! i = Some saved /\ exists x, buf = <[i := x]> orig
  | None => buf = orig
  end.

Lemma revert_byte_ok last saved orig buf :
  one_byte_off last saved orig buf -> revert_byte last saved buf = Ret orig.
Proof.
  destruct last as [i|]; cbn; [|by intros ->]. intros (Hi & x & ->).
  rewrite slice_set_lt, list_insert_insert_eq, list_insert_id; [done..|].
  rewrite length_insert. by eapply lookup_lt_Some.
Qed.

Lemma xor_at_ok orig i v :
  (i < length orig)%nat ->
  exists b, slice_get orig i = Ret b /\ orig !! i = Some b /\
    xor_at orig i v = Ret (<[i := Z.lxor b v]> orig).
Proof.
  intros Hi. destruct (slice_get_lt orig i Hi) as (b & E & Hb). exists b.
  unfold xor_at. rewrite E. cbn. by rewrite slice_set_lt.
Qed.

(** The bytes from [last] on differ, and [saved] is what was there. *)
Definition bytes_off (last : option nat) (saved orig buf : list Z) : Prop :=
  match last with
  | Some i => (i + length saved <= length orig)%nat /\
      saved = take (length saved) (drop i orig) /\
      exists x, length x = length saved /\
        buf = take i orig ++ x ++ drop (i + length saved) orig
  | None => buf = orig
  end.

Lemma take_mid {A} (a x c : list A) i : length a = i -> take i (a ++ x ++ c) = a.
Proof. intros <-. rewrite take_app_le, take_ge by lia. done. Qed.

Lemma copy_back (orig saved x : list Z) i :
  (i + length saved <= length orig)%nat -> saved = take (length saved) (drop i orig) ->
  length x = length saved ->
  copy_at (take i orig ++ x ++ drop (i + length saved) orig) i saved = Ret orig.
Proof.
  intros Hi Hs Hx. unfold copy_at. rewrite decide_True.
  2: { rewrite !length_app, length_take, length_drop. lia. }
  f_equal. rewrite take_mid by (rewrite length_take; lia).
  replace (i + length saved)%nat with (length (take i orig ++ x)) at 1
    by (rewrite length_app, length_take; lia).
  rewrite (app_assoc (take i orig) x), drop_app_length.
  rewrite Hs at 1. rewrite <- drop_drop, take_drop, take_drop. done.
Qed.

Lemma revert_bytes_ok last saved orig buf :
  bytes_off last saved orig buf -> revert_bytes last saved buf = Ret orig.
Proof.
  destruct last as [i|]; cbn; [|by intros ->]. intros (Hi & Hs & x & Hx & ->).
  by apply copy_back.
Qed.

Lemma copy_whole_ok buf orig : length buf = length orig -> copy_whole buf orig = Ret orig.
Proof. intros E. unfold copy_whole. by rewrite E, Nat.eqb_refl. Qed.

Lemma draw_range_ok d n : draws_ok d -> (0 < n)%nat ->
  draw_range d n = Ret (gen_range d n) /\ (gen_range d n < n)%nat.
Proof.
  intros Hd Hn. split; [|by apply gen_range_lt].
  unfold draw_range. destruct n; [lia|done].
Qed.

(** Names the result of [next] and leaves the invariant. *)
Ltac yields := do 3 eexists; split; [reflexivity|cbn].

#[export] Program Instance WithTimeout_laws `{MutatorLaws M} : MutatorLaws (WithTimeout M) := {|
  m_inv orig w buf := m_inv orig (wt_mutator w) buf;
|}.
Next Obligation.
  intros M ?? orig d [m t ts] buf Hd Hm. cbn in *. unfold WithTimeout_next. cbn.
  case_match; [by eauto 10|].
  destruct (m_inv_next orig d m buf Hd Hm) as (r & m' & buf' & -> & Hm'). cbn. by eauto 10.
Qed.
Next Obligation. intros M ?? orig [m t ts] buf Hm. exact (m_inv_drop orig m buf Hm). Qed.
Next Obligation. intros M ?? orig [m t ts] buf Hm. exact (m_inv_steps orig m buf Hm). Qed.

#[export] Program Instance RandomBit_laws : MutatorLaws RandomBit := {|
  m_inv orig m buf := orig <> [] /\ (rbit_current_step m <= rbit_max_step m)%nat /\
    one_byte_off (rbit_last_idx m) (rbit_saved_byte m) orig buf;
|}.
Next Obligation.
  intros orig d [N cur mx last saved] buf Hd (Hne & Hle & Hoff). cbn in *.
  unfold RandomBit_next. cbn. rewrite (revert_byte_ok _ _ orig) by done. cbn.
  destruct (Nat.eqb_spec cur mx) as [->|Hcur]; [yields; auto|].
  destruct (draw_range_ok d (length orig) Hd) as [-> Hlt]; [destruct orig; cbn; [done|lia]|]. cbn.
  destruct (xor_at_ok orig _ (Z.shiftl 1 (gen_u8 d 0 mod 8)) Hlt) as (b & -> & Hb & Ex). cbn. rewrite Ex. cbn.
  yields. split; [done|]. split; [lia|]. split; [done|by eexists].
Qed.
Next Obligation. intros orig m buf (_ & _ & Hoff). by apply revert_byte_ok. Qed.
Next Obligation. intros orig m buf (_ & Hle & _). exact Hle. Qed.

#[export] Program Instance RandomByte_laws : MutatorLaws RandomByte := {|
  m_inv orig m buf := (rbyte_N m <= length orig)%nat /\
    length (rbyte_saved_bytes m) = rbyte_N m /\
    (rbyte_current_step m <= rbyte_max_step m)%nat /\
    bytes_off (rbyte_last_idx m) (rbyte_saved_bytes m) orig buf;
|}.
Next Obligation.
  intros orig d [N cur mx last saved] buf Hd (HN & HS & Hle & Hoff). cbn in *.
  unfold RandomByte_next. cbn. rewrite (revert_bytes_ok _ _ orig) by done. cbn.
  destruct (Nat.eqb_spec cur mx) as [->|Hcur]; [yields; auto|].
  apply Nat.leb_le in HN as HN'. rewrite HN'. cbn.
  destruct (draw_range_ok d (length orig - N + 1) Hd) as [-> Hlt]; [lia|]. cbn.
  set (i := gen_range d _) in *. unfold slice_at. rewrite decide_True by lia. cbn.
  assert (Hl : length (take N (drop i orig)) = N) by (rewrite length_take, length_drop; lia).
  unfold copy_at. rewrite decide_True by (rewrite length_imap, Hl; lia). cbn.
  yields. split; [done|]. split; [done|]. split; [lia|].
  rewrite Hl. split; [lia|]. split; [done|].
  eexists. split; [|by rewrite length_imap, Hl]. by rewrite length_imap.
Qed.
Next Obligation. intros orig m buf (_ & _ & _ & Hoff). by apply revert_bytes_ok. Qed.
Next Obligation. intros orig m buf (_ & _ & Hle & _). exact Hle. Qed.

#[export] Program Instance FlipByte_laws : MutatorLaws FlipByte := {|
  m_inv orig m buf := (fbyte_next_idx m <= length orig)%nat /\ length buf = length orig /\
    one_byte_off (fbyte_last_idx m) (fbyte_orig_byte m) orig buf;
|}.
Next Obligation.
  intros orig d [nxt last saved] buf Hd (Hle & Hlen & Hoff). cbn in *.
  unfold FlipByte_next. cbn. rewrite (revert_byte_ok _ _ orig) by done. cbn.
  destruct (Nat.eqb_spec nxt (length orig)) as [->|Hn]; [yields; auto|].
  destruct (xor_at_ok orig nxt 255) as (b & -> & Hb & Ex); [lia|]. cbn. rewrite Ex. cbn.
  yields. rewrite length_insert. split; [lia|]. split; [done|]. split; [done|by eexists].
Qed.
Next Obligation. intros orig m buf (_ & _ & Hoff). by apply revert_byte_ok. Qed.
Next Obligation. intros orig m buf (Hle & Hlen & _). cbn. lia. Qed.

#[export] Program Instance FlipBit_laws : MutatorLaws FlipBit := {|
  m_inv orig m buf := fbit_size_in_bits m = (length orig * 8)%nat /\
    (fbit_next_bit m <= fbit_size_in_bits m)%nat /\
    one_byte_off (fbit_last_byte_idx m) (fbit_last_byte_orig_value m) orig buf;
|}.
Next Obligation.
  intros orig d [sz nxt last saved] buf Hd (Hsz & Hle & Hoff). cbn in Hsz, Hle, Hoff. subst sz.
  cbn [next FlipBit_Mutator]. unfold FlipBit_next. cbn [fbit_last_byte_idx fbit_last_byte_orig_value fbit_next_bit fbit_size_in_bits].
  rewrite (revert_byte_ok _ _ orig) by done. cbn [mbind outcome_bind].
  destruct (Nat.eqb_spec nxt (length orig * 8)) as [->|Hn]; [yields; auto|].
  destruct (xor_at_ok orig (nxt / 8) (Z.shiftl 1 (Z.of_nat (nxt mod 8)))) as (b & -> & Hb & Ex); [dlia|].
  cbn [mbind outcome_bind]. rewrite Ex. cbn [mbind outcome_bind].
  do 3 eexists. split; [reflexivity|]. split; [done|]. cbn [fbit_next_bit fbit_size_in_bits].
  split; [lia|]. split; [done|by eexists].
Qed.
Next Obligation. intros orig m buf (_ & _ & Hoff). by apply revert_byte_ok. Qed.
Next Obligation. intros orig m buf (_ & Hle & _). exact Hle. Qed.

#[export] Program Instance U8Counter_laws : MutatorLaws U8Counter := {|
  m_inv orig m buf := (u8c_next_byte m <= length orig)%nat /\ length buf = length orig /\
    one_byte_off (u8c_last_byte_idx m) (u8c_last_byte_orig_value m) orig buf;
|}.
Next Obligation.
  intros orig d [nxt last saved ctr] buf Hd (Hle & Hlen & Hoff). cbn in *.
  unfold U8Counter_next. cbn. rewrite (revert_byte_ok _ _ orig) by done. cbn.
  destruct (Nat.eqb_spec nxt (length orig)) as [->|Hn]; [yields; auto|].
  destruct (xor_at_ok orig nxt ctr) as (b & -> & Hb & Ex); [lia|]. cbn. rewrite Ex. cbn.
  case_decide; yields; rewrite length_insert; (split; [lia|]); (split; [done|]);
    (split; [done|by eexists]).
Qed.
Next Obligation. intros orig m buf (_ & _ & Hoff). by apply revert_byte_ok. Qed.
Next Obligation. intros orig m buf (Hle & Hlen & _). cbn. lia. Qed.

Lemma checked_rem_ok a b :
  (0 < b)%nat -> exists r, checked_rem a b = Ret r /\ r = (a mod b)%nat /\ (r < b)%nat.
Proof.
  intros Hb. exists (a mod b)%nat. unfold checked_rem. destruct b; [lia|].
  split; [done|]. split; [done|]. apply Nat.mod_upper_bound. lia.
Qed.

Lemma havoc_type_ok z : exists t, HavocMutationType_from (z mod 4) = Ret t.
Proof.
  assert (H : 0 <= z mod 4 < 4) by (apply Z.mod_pos_bound; lia).
  assert (z mod 4 = 0 \/ z mod 4 = 1 \/ z mod 4 = 2 \/ z mod 4 = 3) as [-> |[-> |[-> | ->]]] by lia;
    cbn; eauto.
Qed.

(** On a non-empty buffer every havoc mutation succeeds and keeps the length. *)
Lemma havoc_apply_ok d buf :
  buf <> [] -> exists buf', havoc_apply d buf = Ret buf' /\ length buf' = length buf.
Proof.
  intros Hne. assert (Hl : (0 < length buf)%nat) by (destruct buf; cbn; [done|lia]).
  unfold havoc_apply. destruct (havoc_type_ok (gen_u8 d 0)) as [t ->].
  cbn [mbind outcome_bind]. destruct t.
  - destruct (checked_rem_ok (gen_usize d / 8) (length buf) Hl) as (i & -> & _ & Hi).
    cbn [mbind outcome_bind].
    destruct (xor_at_ok buf i (Z.shiftl 1 (Z.of_nat (gen_usize d mod 8))) Hi) as (b & _ & _ & ->).
    eexists. split; [done|]. apply length_insert.
  - destruct (checked_rem_ok (gen_usize d) (length buf) Hl) as (i & -> & _ & Hi).
    cbn [mbind outcome_bind]. destruct (xor_at_ok buf i 255 Hi) as (b & _ & _ & ->).
    eexists. split; [done|]. apply length_insert.
  - destruct (checked_rem_ok (gen_usize d) (length buf) Hl) as (i & -> & _ & Hi).
    cbn [mbind outcome_bind]. rewrite slice_set_lt by done.
    eexists. split; [done|]. apply length_insert.
  - destruct (checked_rem_ok (gen_usize d) (length INTERESTING_VALUES)) as (i & -> & _ & Hi); [cbn; lia|].
    cbn [mbind outcome_bind]. destruct (slice_get_lt INTERESTING_VALUES i Hi) as (v & -> & _).
    eexists. split; [done|]. apply length_fmap.
Qed.

Lemma havoc_revert_ok m orig buf :
  hv_orig_buffer m = orig -> length buf = length orig ->
  (hv_max_stacks m = 0 -> hv_steps_done m = 0)%nat ->
  exists buf', havoc_revert m buf = Ret buf' /\ length buf' = length orig.
Proof.
  intros Ho Hl H0. unfold havoc_revert. destruct (Nat.ltb_spec 0 (hv_steps_done m)); [|by exists buf].
  destruct (checked_rem_ok (hv_steps_done m) (hv_max_stacks m)) as (r & -> & _); [lia|].
  cbn [mbind outcome_bind]. destruct (r =? 0)%nat; [|by exists buf].
  rewrite Ho, copy_whole_ok by done. by exists orig.
Qed.

#[export] Program Instance Havoc_laws : MutatorLaws Havoc := {|
  m_inv orig m buf := orig <> [] /\ hv_orig_buffer m = orig /\ length buf = length orig /\
    hv_steps_total m = (hv_max_stacks m * hv_repetitions m)%nat /\
    (hv_steps_done m <= hv_steps_total m)%nat;
|}.
Next Obligation.
  intros orig d [ob dn st rp tot] buf Hd (Hne & Hob & Hlen & Htot & Hle). cbn in *. subst ob.
  unfold Havoc_next. cbn. destruct (Nat.eqb_spec dn tot) as [->|Hn].
  - rewrite copy_whole_ok by done. yields. auto.
  - destruct (havoc_revert_ok (mk_havoc orig dn st rp tot) orig buf) as (buf1 & -> & Hl1);
      [done|done|cbn; destruct st; lia|]. cbn [mbind outcome_bind].
    destruct (havoc_apply_ok d buf1) as (buf2 & -> & Hl2); [by destruct buf1, orig|].
    yields. split; [done|]. split; [done|]. split; [lia|]. split; [done|lia].
Qed.
Next Obligation. intros orig m buf (_ & E & Hlen & _). cbn. rewrite E. by apply copy_whole_ok. Qed.
Next Obligation. intros orig m buf (_ & _ & _ & _ & Hle). exact Hle. Qed.

#[export] Program Instance Nop_laws : MutatorLaws Nop := {|
  m_inv orig m buf := buf = orig /\ nop_steps_done m = 0%nat;
|}.
Next Obligation.
  intros orig d [[|st] dn] buf Hd [-> E]; cbn in *; subst; yields; auto.
Qed.
Next Obligation. by intros orig m buf [-> _]. Qed.
Next Obligation. intros orig m buf [_ E]. cbn. lia. Qed.

#[export] Program Instance CombineMutator_laws : MutatorLaws CombineMutator := {|
  m_inv orig m buf := cmb_buffer_original m = orig /\ length buf = length orig /\
    (cmb_steps_done m + length (cmb_msks m) = cmb_steps m)%nat;
|}.
Next Obligation.
  intros orig d [st dn msks ob os] buf Hd (Hob & Hlen & Hst). cbn in *. subst ob.
  unfold CombineMutator_next. cbn. destruct msks as [|msk msks]; rewrite copy_whole_ok by done; cbn.
  - yields. auto.
  - unfold copy_at. rewrite decide_True by (rewrite length_take; lia). cbn. yields.
    split; [done|]. split; [|cbn in Hst; lia].
    rewrite !length_app, length_drop, !length_take. lia.
Qed.
Next Obligation. intros orig m buf (E & Hlen & _). cbn. rewrite E. by apply copy_whole_ok. Qed.
Next Obligation. intros orig m buf (_ & _ & Hst). cbn. lia. Qed.

#[export] Program Instance FlipOnce_laws : MutatorLaws FlipOnce := {|
  m_inv orig m buf := buf = if fo_done m then not_w 8 <$> orig else orig;
|}.
Next Obligation.
  intros orig d [[|]] buf Hd ->; cbn; yields; auto.
Qed.
Next Obligation.
  intros orig [[|]] buf ->; cbn; [|done]. unfold FlipOnce_drop. cbn. f_equal.
  rewrite <- list_fmap_compose. rewrite <- (list_fmap_id orig) at 2.
  apply list_fmap_ext. intros ? x _. apply not_w_involutive.
Qed.
Next Obligation. intros orig [[|]] buf _; cbn; lia. Qed.

(** ** Runs to exhaustion *)

Section runs.
Context `{Mutator M}.

(** A mutator whose [k]-th state is [f k] and that stops after [n] yields. *)
Lemma run_family_from (f : nat -> M * list Z) (n : nat) (mend : M) (bend : list Z) ds0 :
  (forall k d, (k < n)%nat -> ds0 !! k = Some d ->
     next d (f k).1 (f k).2 = Ret (true, (f (S k)).1, (f (S k)).2)) ->
  (forall d, next d (f n).1 (f n).2 = Ret (false, mend, bend)) ->
  forall ds k, (k <= n)%nat -> (n - k < length ds)%nat -> ds = drop k ds0 ->
  run_mutator ds (f k).1 (f k).2
    = Ret ((fun j => (f j).2) <$> seq (S k) (n - k), true, mend, bend).
Proof.
  intros Hstep Hend. induction ds as [|d ds IH]; intros k Hk Hlen Hds; [cbn in Hlen; lia|].
  assert (Hd : ds0 !! k = Some d) by (by rewrite <- (Nat.add_0_r k), <- lookup_drop, <- Hds).
  assert (Hds' : ds = drop (S k) ds0).
  { rewrite (drop_S _ _ _ Hd) in Hds. by injection Hds. }
  cbn [run_mutator]. destruct (decide (k = n)) as [->|Hne].
  - by rewrite Hend, Nat.sub_diag.
  - rewrite (Hstep k d) by (done || lia). cbn [mbind outcome_bind].
    rewrite IH by (done || (cbn in Hlen; lia)). cbn [mbind outcome_bind].
    replace (n - k)%nat with (S (n - S k)) by lia. done.
Qed.

Lemma run_family (f : nat -> M * list Z) (n : nat) (mend : M) (bend : list Z) ds :
  (forall k d, (k < n)%nat -> ds !! k = Some d ->
     next d (f k).1 (f k).2 = Ret (true, (f (S k)).1, (f (S k)).2)) ->
  (forall d, next d (f n).1 (f n).2 = Ret (false, mend, bend)) ->
  (n < length ds)%nat ->
  run_mutator ds (f 0%nat).1 (f 0%nat).2
    = Ret ((fun j => (f (S j)).2) <$> seq 0 n, true, mend, bend).
Proof.
  intros Hstep Hend Hlen.
  rewrite (run_family_from f n mend bend ds Hstep Hend ds 0) by (done || lia).
  by rewrite Nat.sub_0_r, <- fmap_S_seq, <- list_fmap_compose.
Qed.

(** A mutator with [k] yields left, each buffer of which satisfies [Q]. *)
Lemma run_measure (P : nat -> M -> list Z -> Prop) (Q : list Z -> Prop) (bend : list Z) :
  (forall k d m buf, draws_ok d -> P (S k) m buf ->
     exists m' buf', next d m buf = Ret (true, m', buf') /\ P k m' buf' /\ Q buf') ->
  (forall d m buf, P 0%nat m buf -> exists m', next d m buf = Ret (false, m', bend)) ->
  forall ds k m buf, Forall draws_ok ds -> (k < length ds)%nat -> P k m buf ->
  exists seen m', run_mutator ds m buf = Ret (seen, true, m', bend) /\
    length seen = k /\ Forall Q seen.
Proof.
  intros Hstep Hend ds k m buf Hds. revert k m buf.
  induction Hds as [|d ds Hd Hds IH]; intros k m buf Hlen HP; [cbn in Hlen; lia|].
  cbn [run_mutator]. destruct k as [|k].
  - destruct (Hend d m buf HP) as [m' ->]. exists [], m'. auto.
  - destruct (Hstep k d m buf Hd HP) as (m1 & buf1 & -> & HP1 & HQ). cbn [mbind outcome_bind].
    destruct (IH k m1 buf1) as (seen & m' & -> & Hl & HF); [cbn in Hlen; lia|done|].
    exists (buf1 :: seen), m'. split; [done|]. split; [cbn; lia|]. by constructor.
Qed.
End runs.

(** The original with one byte xored. *)
Definition xored (orig : list Z) (i : nat) (v : Z) : list Z :=
  <[i := Z.lxor (orig !!! i) v]> orig.

Lemma xored_off orig i v :
  (i < length orig)%nat -> one_byte_off (Some i) (orig !!! i) orig (xored orig i v).
Proof. intros Hi. split; [by apply list_lookup_lookup_total_lt|by eexists]. Qed.

Lemma xor_at_xored orig i v :
  (i < length orig)%nat ->
  slice_get orig i = Ret (orig !!! i) /\ xor_at orig i v = Ret (xored orig i v).
Proof.
  intros Hi. destruct (xor_at_ok orig i v Hi) as (b & -> & Hb & ->).
  unfold xored. by rewrite (list_lookup_total_correct _ _ _ Hb).
Qed.

(** The states of the counting mutators. *)
Definition flip_byte_state (orig : list Z) (k : nat) : FlipByte * list Z :=
  match k with
  | O => (FlipByte_new, orig)
  | S j => (mk_flip_byte k (Some j) (orig !!! j), xored orig j 255)
  end.

Definition flip_bit_state (orig : list Z) (k : nat) : FlipBit * list Z :=
  match k with
  | O => (FlipBit_new orig, orig)
  | S j => (mk_flip_bit (length orig * 8) k (Some (j / 8)%nat) (orig !!! (j / 8)%nat),
            xored orig (j / 8) (2 ^ Z.of_nat (j mod 8)))
  end.

Definition u8_counter_state (orig : list Z) (k : nat) : U8Counter * list Z :=
  match k with
  | O => (U8Counter_new, orig)
  | S j => (mk_u8_counter (k / 256) (Some (j / 256)%nat) (orig !!! (j / 256)%nat)
              (Z.of_nat (k mod 256)),
            xored orig (j / 256) (Z.of_nat (j mod 256)))
  end.

Lemma flip_byte_run orig ds :
  (length orig < length ds)%nat ->
  run_mutator ds FlipByte_new orig
  = Ret ((fun k => xored orig k 255) <$> seq 0 (length orig), true,
         mk_flip_byte (length orig) None (fbyte_orig_byte (flip_byte_state orig (length orig)).1), orig).
Proof.
  intros Hl. rewrite (run_family (flip_byte_state orig) (length orig)
    (mk_flip_byte (length orig) None (fbyte_orig_byte (flip_byte_state orig (length orig)).1)) orig)
    ; [done|..|done].
  - intros k d Hk _. cbn [next FlipByte_Mutator]. unfold FlipByte_next.
    rewrite (revert_byte_ok _ _ orig) by (destruct k; [done|apply xored_off; lia]).
    cbn [mbind outcome_bind].
    replace (fbyte_next_idx (flip_byte_state orig k).1) with k by (by destruct k).
    destruct (Nat.eqb_spec k (length orig)); [lia|].
    destruct (xor_at_xored orig k 255 Hk) as [-> ->]. done.
  - intros d. cbn [next FlipByte_Mutator]. unfold FlipByte_next.
    rewrite (revert_byte_ok _ _ orig)
      by (destruct (length orig) eqn:E; [done|apply xored_off; lia]).
    cbn [mbind outcome_bind].
    replace (fbyte_next_idx (flip_byte_state orig (length orig)).1) with (length orig)
      by (by destruct (length orig)).
    by rewrite Nat.eqb_refl.
Qed.

Lemma flip_bit_run orig ds :
  (length orig * 8 < length ds)%nat ->
  exists m', run_mutator ds (FlipBit_new orig) orig
  = Ret ((fun k => xored orig (k / 8) (2 ^ Z.of_nat (k mod 8))) <$> seq 0 (length orig * 8),
         true, m', orig).
Proof.
  intros Hl. set (n := (length orig * 8)%nat) in *.
  assert (Hoff : forall k, (k <= n)%nat ->
    one_byte_off (fbit_last_byte_idx (flip_bit_state orig k).1)
      (fbit_last_byte_orig_value (flip_bit_state orig k).1) orig (flip_bit_state orig k).2).
  { intros [|k] Hk; [done|]. apply xored_off. unfold n in Hk. dlia. }
  assert (Hnext : forall k, fbit_next_bit (flip_bit_state orig k).1 = k) by (by intros [|k]).
  assert (Hsz : forall k, fbit_size_in_bits (flip_bit_state orig k).1 = n) by (by intros [|k]).
  eexists. rewrite (run_family (flip_bit_state orig) n (mk_flip_bit n n None
    (fbit_last_byte_orig_value (flip_bit_state orig n).1)) orig); [reflexivity|..|done].
  - intros k d Hk _. cbn [next FlipBit_Mutator]. unfold FlipBit_next.
    rewrite (revert_byte_ok _ _ orig) by (apply Hoff; lia). cbn [mbind outcome_bind].
    rewrite Hnext, Hsz. destruct (Nat.eqb_spec k n); [lia|].
    destruct (xor_at_xored orig (k / 8) (Z.shiftl 1 (Z.of_nat (k mod 8)))) as [-> ->];
      [unfold n in Hk; dlia|]. cbn [mbind outcome_bind].
    rewrite Z.shiftl_mul_pow2, Z.mul_1_l by lia. done.
  - intros d. cbn [next FlipBit_Mutator]. unfold FlipBit_next.
    rewrite (revert_byte_ok _ _ orig) by (apply Hoff; lia). cbn [mbind outcome_bind].
    rewrite Hnext, Hsz, Nat.eqb_refl. reflexivity.
Qed.

Lemma u8_counter_run_steps orig ds :
  (length orig * 256 < length ds)%nat ->
  exists m', run_mutator ds U8Counter_new orig
  = Ret ((fun k => xored orig (k / 256) (Z.of_nat (k mod 256))) <$> seq 0 (length orig * 256),
         true, m', orig) /\ steps_done m' orig = length orig.
Proof.
  intros Hl. set (n := (length orig * 256)%nat) in *.
  assert (Hoff : forall k, (k <= n)%nat ->
    one_byte_off (u8c_last_byte_idx (u8_counter_state orig k).1)
      (u8c_last_byte_orig_value (u8_counter_state orig k).1) orig (u8_counter_state orig k).2).
  { intros [|k] Hk; [done|]. apply xored_off. unfold n in Hk. dlia. }
  assert (Hnext : forall k, u8c_next_byte (u8_counter_state orig k).1 = (k / 256)%nat)
    by (by intros [|k]).
  assert (Hctr : forall k, u8c_ctr (u8_counter_state orig k).1 = Z.of_nat (k mod 256))
    by (by intros [|k]).
  exists (mk_u8_counter (n / 256) None
    (u8c_last_byte_orig_value (u8_counter_state orig n).1) (u8c_ctr (u8_counter_state orig n).1)).
  split; [|apply Nat.div_mul; lia]. rewrite (run_family (u8_counter_state orig) n (mk_u8_counter (n / 256) None
    (u8c_last_byte_orig_value (u8_counter_state orig n).1) (u8c_ctr (u8_counter_state orig n).1))
    orig); [reflexivity|..|done].
  - intros k d Hk _. cbn [next U8Counter_Mutator]. unfold U8Counter_next.
    rewrite (revert_byte_ok _ _ orig) by (apply Hoff; lia). cbn [mbind outcome_bind].
    assert (Hk' : (k / 256 < length orig)%nat) by (unfold n in Hk; dlia).
    rewrite Hnext, Hctr. destruct (Nat.eqb_spec (k / 256) (length orig)); [lia|].
    destruct (xor_at_xored orig (k / 256) (Z.of_nat (k mod 256)) Hk') as [-> ->].
    cbn [mbind outcome_bind u8_counter_state fst snd].
    assert (Hm : (k mod 256 < 256)%nat) by (apply Nat.mod_upper_bound; lia).
    case_decide as Hd.
    + replace (S k / 256)%nat with (k / 256)%nat by dlia.
      replace (Z.of_nat (k mod 256) + 1) with (Z.of_nat (S k mod 256)) by dlia. done.
    + replace (S k / 256)%nat with (S (k / 256)) by dlia.
      replace (S k mod 256)%nat with 0%nat by dlia. done.
  - intros d. cbn [next U8Counter_Mutator]. unfold U8Counter_next.
    rewrite (revert_byte_ok _ _ orig) by (apply Hoff; lia). cbn [mbind outcome_bind].
    rewrite Hnext.
    assert (En : (n / 256)%nat = length orig) by (apply Nat.div_mul; lia).
    rewrite En, Nat.eqb_refl. reflexivity.
Qed.

Lemma u8_counter_run orig ds :
  (length orig * 256 < length ds)%nat ->
  exists m', run_mutator ds U8Counter_new orig
  = Ret ((fun k => xored orig (k / 256) (Z.of_nat (k mod 256))) <$> seq 0 (length orig * 256),
         true, m', orig).
Proof. intros Hl. destruct (u8_counter_run_steps orig ds Hl) as (m' & E & _). by exists m'. Qed.

(** [buf] is [orig] with one bit flipped. *)
Definition one_bit_flipped (orig buf : list Z) : Prop :=
  exists i j, (i < length orig)%nat /\ 0 <= j < 8 /\ buf = xored orig i (2 ^ j).

Lemma random_bit_run orig ds steps m :
  orig <> [] -> RandomBit_new 1 steps = Ret m -> Forall draws_ok ds ->
  (steps < length ds)%nat ->
  exists seen m', run_mutator ds m orig = Ret (seen, true, m', orig) /\
    length seen = steps /\ Forall (one_bit_flipped orig) seen.
Proof.
  intros Hne [= <-] Hds Hlen.
  apply (run_measure (fun k m buf => (k + rbit_current_step m = rbit_max_step m)%nat /\
    one_byte_off (rbit_last_idx m) (rbit_saved_byte m) orig buf)); [..|done|done|cbn; auto with lia].
  - intros k d [N cur mx last saved] buf Hd [Hk Hoff]. cbn in *. unfold RandomBit_next. cbn.
    rewrite (revert_byte_ok _ _ orig) by done. cbn. destruct (Nat.eqb_spec cur mx); [lia|].
    destruct (draw_range_ok d (length orig) Hd) as [-> Hlt]; [destruct orig; cbn; [done|lia]|]. cbn.
    destruct (xor_at_xored orig _ (Z.shiftl 1 (gen_u8 d 0 mod 8)) Hlt) as [-> ->]. cbn.
    do 2 eexists. split; [reflexivity|]. cbn. split; [split; [lia|by apply xored_off]|].
    exists (gen_range d (length orig)), (gen_u8 d 0 mod 8). split; [done|].
    assert (0 <= gen_u8 d 0 mod 8 < 8) by (apply Z.mod_pos_bound; lia). split; [done|].
    by rewrite Z.shiftl_mul_pow2, Z.mul_1_l by lia.
  - intros d [N cur mx last saved] buf [Hk Hoff]. cbn in *. unfold RandomBit_next. cbn.
    rewrite (revert_byte_ok _ _ orig) by done. cbn. subst. rewrite Nat.eqb_refl. by eexists.
Qed.

(** [buf] agrees with [orig] outside [n] consecutive bytes. *)
Definition window_changed (n : nat) (orig buf : list Z) : Prop :=
  exists i x, (i + n <= length orig)%nat /\ length x = n /\
    buf = take i orig ++ x ++ drop (i + n) orig.

Lemma random_byte_run N orig ds steps m :
  RandomByte_new N orig steps = Some m -> Forall draws_ok ds -> (steps < length ds)%nat ->
  exists seen m', run_mutator ds m orig = Ret (seen, true, m', orig) /\
    length seen = steps /\ Forall (window_changed N orig) seen.
Proof.
  unfold RandomByte_new. destruct (Nat.ltb_spec (length orig) N) as [|HN]; [done|].
  intros [= <-] Hds Hlen.
  apply (run_measure (fun k m buf => (k + rbyte_current_step m = rbyte_max_step m)%nat /\
    rbyte_N m = N /\ bytes_off (rbyte_last_idx m) (rbyte_saved_bytes m) orig buf));
    [..|done|done|cbn; auto with lia].
  - intros k d [N' cur mx last saved] buf Hd (Hk & HN' & Hoff). cbn in *. subst N'.
    unfold RandomByte_next. cbn.
    rewrite (revert_bytes_ok _ _ orig) by done. cbn. destruct (Nat.eqb_spec cur mx); [lia|].
    apply Nat.leb_le in HN as HN'. rewrite HN'. cbn.
    destruct (draw_range_ok d (length orig - N + 1) Hd) as [-> Hlt]; [lia|]. cbn.
    set (i := gen_range d _) in *. unfold slice_at. rewrite decide_True by lia. cbn.
    assert (Hl : length (take N (drop i orig)) = N) by (rewrite length_take, length_drop; lia).
    unfold copy_at. rewrite decide_True by (rewrite length_imap, Hl; lia). cbn.
    do 2 eexists. split; [reflexivity|]. cbn. rewrite !length_imap, !Hl. split; [split; [lia|]|].
    + split; [done|]. split; [lia|]. split; [done|]. eexists. split; [|reflexivity].
      by rewrite length_imap.
    + eexists i, _. split; [lia|]. split; [|reflexivity]. by rewrite length_imap.
  - intros d [N' cur mx last saved] buf (Hk & HN' & Hoff). cbn in *. unfold RandomByte_next. cbn.
    rewrite (revert_bytes_ok _ _ orig) by done. cbn. subst. rewrite Nat.eqb_refl. by eexists.
Qed.

(** The buffer after [k] steps of havoc: the mutations since the last multiple of
    [max_stacks], stacked on the original. *)
Fixpoint havoc_stacked (orig : list Z) (max_stacks : nat) (ds : list Draws) (k : nat)
    : outcome (list Z) :=
  match k with
  | O => Ret orig
  | S j =>
      b ← (if (j mod max_stacks =? 0)%nat then Ret orig else havoc_stacked orig max_stacks ds j);
      d ← unwrap (ds !! j);
      havoc_apply d b
  end.

Definition havoc_buf orig max_stacks ds k : list Z :=
  match havoc_stacked orig max_stacks ds k with Ret b => b | Panic => [] end.

Definition havoc_state orig max_stacks repetitions ds k : Havoc * list Z :=
  (mk_havoc orig k max_stacks repetitions (max_stacks * repetitions),
   havoc_buf orig max_stacks ds k).

Lemma havoc_stacked_ok orig s ds k :
  orig <> [] -> (k <= length ds)%nat ->
  havoc_stacked orig s ds k = Ret (havoc_buf orig s ds k) /\
  length (havoc_buf orig s ds k) = length orig.
Proof.
  intros Hne. unfold havoc_buf. induction k as [|k IH]; intros Hk; [done|].
  destruct IH as [IH Hl]; [lia|]. cbn [havoc_stacked].
  assert (Hb : exists b, (if (k mod s =? 0)%nat then Ret orig else havoc_stacked orig s ds k)
                         = Ret b /\ length b = length orig).
  { destruct (k mod s =? 0)%nat; [by exists orig|]. rewrite IH. by eexists. }
  destruct Hb as (b & -> & Hlb). cbn [mbind outcome_bind].
  destruct (lookup_lt_is_Some_2 ds k) as [d ->]; [lia|]. cbn [unwrap mbind outcome_bind].
  destruct (havoc_apply_ok d b) as (b' & -> & Hb'); [by destruct b, orig|]. split; [done|lia].
Qed.

Lemma havoc_run orig s rep ds :
  orig <> [] -> (s * rep < length ds)%nat ->
  run_mutator ds (Havoc_new orig s rep) orig
  = Ret ((fun k => havoc_buf orig s ds (S k)) <$> seq 0 (s * rep), true,
         mk_havoc orig (s * rep) s rep (s * rep), orig).
Proof.
  intros Hne Hlen.
  apply (run_family (havoc_state orig s rep ds) (s * rep)
    (mk_havoc orig (s * rep) s rep (s * rep)) orig); [..|done].
  - intros k d Hk Hd. cbn [next Havoc_Mutator]. unfold Havoc_next.
    cbn [havoc_state fst snd hv_steps_done hv_steps_total hv_max_stacks hv_orig_buffer hv_repetitions].
    destruct (Nat.eqb_spec k (s * rep)); [lia|].
    destruct (havoc_stacked_ok orig s ds k) as [Ek Hlk]; [done|lia|].
    destruct (havoc_stacked_ok orig s ds (S k)) as [ES HlS]; [done|lia|].
    assert (Hr : havoc_revert (mk_havoc orig k s rep (s * rep)) (havoc_buf orig s ds k)
      = (if (k mod s =? 0)%nat then Ret orig else havoc_stacked orig s ds k)).
    { unfold havoc_revert. cbn [hv_steps_done hv_max_stacks hv_orig_buffer].
      destruct (Nat.ltb_spec 0 k) as [H0|H0].
      - destruct (checked_rem_ok k s) as (r & -> & -> & _); [destruct s; lia|].
        cbn [mbind outcome_bind]. rewrite Ek. by rewrite copy_whole_ok.
      - assert (k = 0%nat) as -> by lia. rewrite Nat.Div0.mod_0_l. done. }
    rewrite Hr. cbn [havoc_stacked] in ES. rewrite Hd in ES. cbn [unwrap mbind outcome_bind] in ES.
    destruct (if (k mod s =? 0)%nat then Ret orig else havoc_stacked orig s ds k) as [b|];
      [|done]. cbn [mbind outcome_bind] in *. rewrite ES. done.
  - intros d. cbn [next Havoc_Mutator]. unfold Havoc_next.
    cbn [havoc_state fst snd hv_steps_done hv_steps_total hv_orig_buffer].
    rewrite Nat.eqb_refl, copy_whole_ok; [done|]. by apply havoc_stacked_ok; [|lia].
Qed.

(** ** The properties *)

(** Running [m] on [orig] with the draws [ds] and dropping it afterwards gives back
    [orig], alone and under a timeout. *)
Definition run_drop_restores `{Mutator M} (ds : list Draws) (orig : list Z) (m : M) : Prop :=
  exists seen ex m' buf', run_mutator ds m orig = Ret (seen, ex, m', buf') /\
    drop_mutator m' buf' = Ret orig /\ exists n, steps_left m' buf' = Ret n.

Definition restores `{Mutator M} (ds : list Draws) (orig : list Z) (timeout : Z) (m : M) : Prop :=
  run_drop_restores ds orig m /\ run_drop_restores ds orig (WithTimeout_new m timeout).

Lemma fresh_restores `{MutatorLaws M} ds orig timeout (m : M) :
  Forall draws_ok ds -> m_inv orig m orig -> restores ds orig timeout m.
Proof.
  intros Hds Hm. split; [by apply run_then_drop|].
  apply (run_then_drop (M := WithTimeout M) orig); [done|exact Hm].
Qed.

(** The two mutators that draw an index panic on an empty buffer. *)
Lemma empty_buffer_panics d :
  (forall steps m, RandomBit_new 1 (S steps) = Ret m -> RandomBit_next d m [] = Panic) /\
  (forall max_stacks repetitions, (0 < max_stacks * repetitions)%nat -> gen_u8 d 0 mod 4 <> 3 ->
     Havoc_next d (Havoc_new [] max_stacks repetitions) [] = Panic).
Proof.
  split; [by intros steps m [= <-]|]. intros k n Hk Hd. unfold Havoc_next, Havoc_new. cbn [hv_steps_done hv_steps_total].
  destruct (Nat.eqb_spec 0 (k * n)); [lia|]. unfold havoc_revert, havoc_apply. cbn [hv_steps_done Nat.ltb Nat.leb mbind outcome_bind mret outcome_ret].
  pose proof (Z.mod_pos_bound (gen_u8 d 0) 4 ltac:(lia)) as Hb. set (v := gen_u8 d 0 mod 4) in *.
  assert (v = 0 \/ v = 1 \/ v = 2) as [-> | [-> | ->]] by lia; done.
Qed.

(** C12: the contract of the trait holds for every mutator of the file.  Started on
    [orig] with the constructor's result and driven by any number of [next] calls
    with any draws, the mutators do not panic, [steps_left] does not underflow,
    and dropping the mutator leaves exactly [orig]; the same holds for each of
    them under a timeout.  [RandomBit] and [Havoc] need a buffer that is not empty: on an
    empty one the first step of [RandomBit] panics, and that of [Havoc] does unless it
    draws an interesting value. *)
Theorem mutators_restore orig ds timeout :
  Forall draws_ok ds ->
  (forall steps m, orig <> [] -> RandomBit_new 1 steps = Ret m -> restores ds orig timeout m) /\
  (forall N steps m, RandomByte_new N orig steps = Some m -> restores ds orig timeout m) /\
  restores ds orig timeout FlipByte_new /\
  restores ds orig timeout (FlipBit_new orig) /\
  restores ds orig timeout U8Counter_new /\
  (forall max_stacks repetitions, orig <> [] ->
     restores ds orig timeout (Havoc_new orig max_stacks repetitions)) /\
  (forall steps, restores ds orig timeout (Nop_new steps)) /\
  (forall msks os, restores ds orig timeout (CombineMutator_new orig msks os)) /\
  restores ds orig timeout FlipOnce_new /\
  (forall d steps m, RandomBit_new 1 (S steps) = Ret m -> RandomBit_next d m [] = Panic) /\
  (forall d max_stacks repetitions, (0 < max_stacks * repetitions)%nat -> gen_u8 d 0 mod 4 <> 3 ->
     Havoc_next d (Havoc_new [] max_stacks repetitions) [] = Panic).
Proof.
  intros Hds. repeat split_and; intros; try (by eapply empty_buffer_panics); apply fresh_restores; try done.
  - injection H0 as <-. cbn. auto with lia.
  - unfold RandomByte_new in H. destruct (Nat.ltb_spec (length orig) N); [done|].
    injection H as <-. cbn. rewrite length_replicate. auto with lia.
  - cbn. auto with lia.
  - cbn. auto with lia.
  - cbn. auto with lia.
  - cbn. auto with lia.
  - cbn. by rewrite length_reverse.
Qed.

(** The deterministic mutators enumerate exactly their mutations and stop with
    the buffer restored: [FlipByte] complements each byte once, [FlipBit] flips each
    bit once in order, [U8Counter] xors every byte with each of 0 to 255, and after
    [length], [8 * length] and [256 * length] yields [next] returns [None]. *)
Theorem mutators_enumerate orig ds :
  ((length orig < length ds)%nat -> exists m',
     run_mutator ds FlipByte_new orig
     = Ret ((fun k => xored orig k 255) <$> seq 0 (length orig), true, m', orig)) /\
  ((length orig * 8 < length ds)%nat -> exists m',
     run_mutator ds (FlipBit_new orig) orig
     = Ret ((fun k => xored orig (k / 8) (2 ^ Z.of_nat (k mod 8))) <$> seq 0 (length orig * 8),
            true, m', orig)) /\
  ((length orig * 256 < length ds)%nat -> exists m',
     run_mutator ds U8Counter_new orig
     = Ret ((fun k => xored orig (k / 256) (Z.of_nat (k mod 256)))
              <$> seq 0 (length orig * 256), true, m', orig)).
Proof.
  split; [|split].
  - intros Hl. eexists. by apply flip_byte_run.
  - apply flip_bit_run.
  - apply u8_counter_run.
Qed.

(** The random mutators yield exactly the requested number of times whatever they
    draw, and then return [None] with the buffer restored: every buffer [RandomBit]
    shows differs from the original in one bit, every buffer [RandomByte<N>] shows
    agrees with it outside [N] consecutive bytes, and [Havoc] shows after step [k]
    the mutations since the last multiple of [max_stacks] stacked on the original. *)
Theorem random_mutators_steps orig ds :
  Forall draws_ok ds ->
  (forall steps m, orig <> [] -> RandomBit_new 1 steps = Ret m -> (steps < length ds)%nat ->
     exists seen m', run_mutator ds m orig = Ret (seen, true, m', orig) /\
       length seen = steps /\ Forall (one_bit_flipped orig) seen) /\
  (forall N steps m, RandomByte_new N orig steps = Some m -> (steps < length ds)%nat ->
     exists seen m', run_mutator ds m orig = Ret (seen, true, m', orig) /\
       length seen = steps /\ Forall (window_changed N orig) seen) /\
  (forall s rep, orig <> [] -> (s * rep < length ds)%nat ->
     exists seen m', run_mutator ds (Havoc_new orig s rep) orig = Ret (seen, true, m', orig) /\
       length seen = (s * rep)%nat /\
       forall k b, seen !! k = Some b -> havoc_stacked orig s ds (S k) = Ret b).
Proof.
  intros Hds. split; [|split].
  - intros. by apply random_bit_run.
  - intros. by eapply random_byte_run.
  - intros s rep Hne Hlen. do 2 eexists. split; [by apply havoc_run|].
    split; [by rewrite length_fmap, length_seq|]. intros k b Hb.
    apply list_lookup_fmap_Some in Hb as (j & -> & Hj).
    apply lookup_seq in Hj as [-> Hj]. apply havoc_stacked_ok; [done|lia].
Qed.

Lemma combine_run_from orig ds msks dn st os buf :
  length buf = length orig -> (length msks < length ds)%nat ->
  exists m', run_mutator ds (mk_combine st dn msks orig os) buf
  = Ret ((fun msk => take (length orig) msk ++ drop (length msk) orig) <$> msks, true, m', orig) /\
    steps_done m' orig = (dn + length msks)%nat.
Proof.
  revert ds dn buf. induction msks as [|msk msks IH]; intros [|d ds] dn buf Hl Hlen;
    cbn [length] in Hlen; try lia; cbn [run_mutator];
    change (next d ?m ?b) with (CombineMutator_next d m b);
    unfold CombineMutator_next; cbn [cmb_msks cmb_buffer_original cmb_steps cmb_steps_done cmb_one_shot];
    rewrite copy_whole_ok by done; cbn [mbind outcome_bind].
  - eexists. split; [done|]. cbn. lia.
  - assert (Hm : copy_at orig 0 (take (min (length orig) (length msk)) msk)
                 = Ret (take (length orig) msk ++ drop (length msk) orig)).
    { unfold copy_at. rewrite decide_True by (rewrite length_take; lia). f_equal.
      cbn [take app Nat.add]. rewrite length_take.
      destruct (decide (length orig <= length msk)%nat).
      - rewrite Nat.min_l, Nat.min_l, !(drop_ge orig) by lia. done.
      - rewrite Nat.min_r by lia. rewrite Nat.min_id, !(take_ge msk) by lia. done. }
    rewrite Hm. unfold mret, outcome_ret. cbn [mbind outcome_bind].
    destruct (IH ds (S dn) (take (length orig) msk ++ drop (length msk) orig)) as (m' & -> & Hdn).
    + rewrite length_app, length_take, length_drop. lia.
    + lia.
    + cbn [mbind outcome_bind]. eexists. split; [done|]. cbn [length]. lia.
Qed.

(** [CombineMutator] tries every mask once, from the last of the list to the
    first, each laid over the start of the original (the bytes past a shorter mask
    keep their original value), and then restores the buffer; [FlipOnce]
    complements the buffer once; both report all their steps as done. *)
Theorem combine_and_flip_once orig msks os ds :
  ((length msks < length ds)%nat -> exists m',
     run_mutator ds (CombineMutator_new orig msks os) orig
     = Ret ((fun msk => take (length orig) msk ++ drop (length msk) orig) <$> reverse msks,
            true, m', orig) /\ steps_done m' orig = length msks) /\
  ((1 < length ds)%nat -> exists m',
     run_mutator ds FlipOnce_new orig
     = Ret ([not_w 8 <$> orig], true, m', not_w 8 <$> orig) /\ steps_left m' orig = Ret 0%nat).
Proof.
  split.
  - intros Hl. destruct (combine_run_from orig ds (reverse msks) 0 (length msks) os orig)
      as (m' & E & Hd); [done|by rewrite length_reverse|].
    exists m'. split; [exact E|]. by rewrite length_reverse in Hd.
  - intros Hl. destruct ds as [|d1 [|d2 ds]]; cbn in Hl; [lia|lia|]. by eexists.
Qed.

(** The step counters of two mutators do not count mutations: [U8Counter] yields
    256 times per byte and announces that many steps, but [steps_done] ends at the
    number of bytes, and [Nop] announces fewer steps after each yield while
    [steps_done] stays 0. *)
Theorem step_counters_off orig ds :
  ((length orig * 256 < length ds)%nat -> exists seen m' buf',
     run_mutator ds U8Counter_new orig = Ret (seen, true, m', buf') /\
     length seen = steps_total U8Counter_new orig /\ steps_done m' buf' = length orig) /\
  (forall steps d, exists m',
     next d (Nop_new (S steps)) orig = Ret (true, m', orig) /\
     steps_total (Nop_new (S steps)) orig = S steps /\
     steps_total m' orig = steps /\ steps_done m' orig = 0%nat).
Proof.
  split; [|by eexists].
  intros Hl. destruct (u8_counter_run_steps orig ds Hl) as (m' & E & Hd).
  do 3 eexists. split; [exact E|]. split; [|done]. by rewrite length_fmap, length_seq.
Qed.

(** ** Witnesses *)

Definition demo_draws : Draws := mk_draws (fun _ => 0%nat) (fun _ => 3) 9 0 0.

Lemma demo_draws_ok n : Forall draws_ok (replicate n demo_draws).
Proof. apply Forall_replicate. split; cbn; [done|]. by intros. Qed.

Lemma mutators_restore_witness :
  restores (replicate 5 demo_draws) [1; 2; 3] 10 (Havoc_new [1; 2; 3] 2 2).
Proof. by apply (mutators_restore [1; 2; 3] _ 10 (demo_draws_ok 5)). Defined.
