(* ===== verification/MutationCacheEntry.v ===== *)
(** * [MutationCacheEntry]: one mutation and its mask

    Models [fuzztruction_shared/src/mutation_cache_entry.rs] and the entry flags of
    [mutation_cache.rs].  An entry is a [repr(C)] header followed by its mask and
    padding; [e_tail] is the memory that follows the header in the entry's
    allocation.  The stack-map types come from the [llvm_stackmap] crate and are
    the interface [StackMap]; the bytes of the header in memory are the interface
    [EntryLayout].  An access outside the allocation is undefined behaviour in the
    source; the model stops there with [Panic] ([in_bounds]). *)

From S2P Require Import Prelude Bytes.

(** The types of the [llvm_stackmap] crate the code stores and compares. *)
Class StackMap := {
  Location : Type;
  LocationType : Type;
  loc_type : Location -> LocationType;
  LocationType_Constant : LocationType;
  #[global] LocationType_eq_dec :: EqDecision LocationType;
  #[global] Location_eq_dec :: EqDecision Location;
}.

(** The variants the code matches on; the others are [OtherInstruction]. *)
Inductive LLVMInstruction :=
| Br | Load_ | Store | InjectedCall | CustomPatchPoint | Switch_ | Select | ICmp | Call
| OtherInstruction (code : Z).

#[export] Instance LLVMInstruction_eq_dec : EqDecision LLVMInstruction.
Proof. solve_decision. Defined.

Inductive MutationCacheEntryFlags := Flag_None | Flag_TracingEnabled | Flag_Disable.

(** [flag as u8] *)
Definition flag_u8 (f : MutationCacheEntryFlags) : Z :=
  match f with Flag_None => 0 | Flag_TracingEnabled => 1 | Flag_Disable => 2 end.

Record MutationCacheEntryMetadata `{StackMap} := mk_metadata {
  md_id : Z;
  md_llvm_instruction : LLVMInstruction;
  md_vma : Z;
  md_flags : Z;
  md_spill_slot : Location;
  md_target_value_size_bits : nat;
  md_read_pos_bits : Z;
  md_msk_len : nat;
}.

Arguments mk_metadata {_}.

#[export] Instance Metadata_eq_dec `{StackMap} : EqDecision MutationCacheEntryMetadata.
Proof. solve_decision. Defined.

(** The fields are within the widths of the struct. *)
Record metadata_ok `{StackMap} (m : MutationCacheEntryMetadata) : Prop := {
  mdok_id : fits 64 (md_id m);
  mdok_ins : match md_llvm_instruction m with OtherInstruction c => fits 32 c | _ => True end;
  mdok_vma : fits 64 (md_vma m);
  mdok_flags : fits 8 (md_flags m);
  mdok_bits : fits 32 (Z.of_nat (md_target_value_size_bits m));
  mdok_pos : fits 32 (md_read_pos_bits m);
  mdok_len : fits 32 (Z.of_nat (md_msk_len m));
}.

(** The [repr(C)] layout: [size_of::<MutationCacheEntryMetadata>()] bytes from which
    the struct can be read back.  [MutationCacheEntry] adds a zero-sized array, so
    it has the same size. *)
Class EntryLayout `{StackMap} := {
  meta_size : nat;
  meta_bytes : MutationCacheEntryMetadata -> list Z;
  meta_read : list Z -> MutationCacheEntryMetadata;
}.

Class EntryLayoutLaws `(L : EntryLayout) := {
  meta_bytes_length : forall m, length (meta_bytes m) = meta_size;
  meta_read_bytes : forall m rest, metadata_ok m -> meta_read (meta_bytes m ++ rest) = m;
}.

(** A raw access of the source that must stay inside its allocation. *)
Definition in_bounds (b : bool) : outcome unit := assert_that b.

Section entry.
Context `{L : EntryLayout}.

Record MutationCacheEntry := mk_entry {
  e_metadata : MutationCacheEntryMetadata;
  e_tail : list Z;
}.

Definition MAX_MASK_LEN : Z := 1024 * 1024 * 64.

(** [u32::div_ceil(8)] *)
Definition div_ceil_8 (n : nat) : nat := (n / 8 + (if (n mod 8 =? 0) then 0 else 1))%nat.

(** [size += 8 - (size % 8)] *)
Definition align_up_8 (n : nat) : nat := (n + (8 - n mod 8))%nat.

Definition Entry_id (e : MutationCacheEntry) : Z := md_id (e_metadata e).
Definition Entry_llvm_instruction (e : MutationCacheEntry) : LLVMInstruction :=
  md_llvm_instruction (e_metadata e).
Definition Entry_vma (e : MutationCacheEntry) : Z := md_vma (e_metadata e).
Definition Entry_spill_slot (e : MutationCacheEntry) : Location := md_spill_slot (e_metadata e).
Definition Entry_target_value_size_bit (e : MutationCacheEntry) : nat :=
  md_target_value_size_bits (e_metadata e).
Definition Entry_target_value_size_byte (e : MutationCacheEntry) : nat :=
  div_ceil_8 (Entry_target_value_size_bit e).
Definition Entry_msk_len (e : MutationCacheEntry) : nat := md_msk_len (e_metadata e).
Definition Entry_flags (e : MutationCacheEntry) : Z := md_flags (e_metadata e).

Definition Entry_size_wo_overflow_padding (e : MutationCacheEntry) : nat :=
  (meta_size + Entry_msk_len e)%nat.

Definition Entry_size (e : MutationCacheEntry) : nat :=
  let ret := Entry_size_wo_overflow_padding e in
  let ret := if (0 <? Entry_msk_len e)%nat
             then (ret + Entry_target_value_size_byte e)%nat else ret in
  align_up_8 ret.

Definition Entry_new (id : Z) (llvm_instruction : LLVMInstruction) (vma flags : Z)
    (spill_slot : Location) (target_value_size_bits msk_len : nat)
    : outcome MutationCacheEntry :=
  _ ← assert_that (Z.of_nat msk_len <? MAX_MASK_LEN);
  let target_value_size_byte := div_ceil_8 target_value_size_bits in
  let padded_msk_len := if (0 <? msk_len)%nat then (msk_len + 8)%nat else msk_len in
  let alloc_size := (meta_size + msk_len)%nat in
  let alloc_size := if (0 <? msk_len)%nat
                    then (alloc_size + target_value_size_byte)%nat else alloc_size in
  let alloc_size := align_up_8 alloc_size in
  _ ← in_bounds (meta_size + padded_msk_len <=? alloc_size)%nat;
  mret (mk_entry (mk_metadata id llvm_instruction vma flags spill_slot
                    target_value_size_bits 0 msk_len)
          (replicate (alloc_size - meta_size) 0)).

(** The first [size()] bytes of the entry's memory. *)
Definition Entry_image (e : MutationCacheEntry) : outcome (list Z) :=
  _ ← in_bounds (Entry_size e <=? meta_size + length (e_tail e))%nat;
  mret (take (Entry_size e) (meta_bytes (e_metadata e) ++ e_tail e)).

(** The entry at the start of a memory region. *)
Definition Entry_read (mem : list Z) : MutationCacheEntry :=
  let m := meta_read mem in
  let e := mk_entry m [] in
  mk_entry m (take (Entry_size e - meta_size) (drop meta_size mem)).

Definition Entry_clone_into_box (e : MutationCacheEntry) : outcome MutationCacheEntry :=
  img ← Entry_image e; mret (Entry_read img).

Definition with_msk_len (m : MutationCacheEntryMetadata) (n : nat) : MutationCacheEntryMetadata :=
  mk_metadata (md_id m) (md_llvm_instruction m) (md_vma m) (md_flags m) (md_spill_slot m)
    (md_target_value_size_bits m) (md_read_pos_bits m) n.

(** The copy takes the header and the first mask bytes; the new allocation is zero
    after them. *)
Definition Entry_clone_with_new_msk (e : MutationCacheEntry) (new_msk_len : nat)
    : outcome MutationCacheEntry :=
  _ ← assert_that ((Z.of_nat new_msk_len <=? MAX_MASK_LEN) && (0 <? new_msk_len)%nat);
  let new_size := align_up_8 (meta_size + new_msk_len + 8) in
  let bytes_to_copy :=
    (if (new_msk_len <? Entry_msk_len e)%nat
     then Entry_size_wo_overflow_padding e - (Entry_msk_len e - new_msk_len)
     else Entry_size_wo_overflow_padding e)%nat in
  _ ← in_bounds ((bytes_to_copy <=? meta_size + length (e_tail e)) && (bytes_to_copy <=? new_size))%nat;
  let copied := take (bytes_to_copy - meta_size) (e_tail e) in
  mret (mk_entry (with_msk_len (e_metadata e) new_msk_len)
          (copied ++ replicate (new_size - meta_size - length copied) 0)).

Definition with_flags (e : MutationCacheEntry) (f : Z) : MutationCacheEntry :=
  let m := e_metadata e in
  mk_entry (mk_metadata (md_id m) (md_llvm_instruction m) (md_vma m) f (md_spill_slot m)
              (md_target_value_size_bits m) (md_read_pos_bits m) (md_msk_len m)) (e_tail e).

Definition Entry_set_flag (e : MutationCacheEntry) (flag : MutationCacheEntryFlags)
    : MutationCacheEntry := with_flags e (Z.lor (Entry_flags e) (flag_u8 flag)).
Definition Entry_set_flags (e : MutationCacheEntry) (val : Z) : MutationCacheEntry :=
  with_flags e val.
Definition Entry_unset_flag (e : MutationCacheEntry) (flag : MutationCacheEntryFlags)
    : MutationCacheEntry := with_flags e (Z.land (Entry_flags e) (not_w 8 (flag_u8 flag))).
Definition Entry_reset_flags (e : MutationCacheEntry) : MutationCacheEntry :=
  with_flags e (flag_u8 Flag_None).
Definition Entry_is_flag_set (e : MutationCacheEntry) (flag : MutationCacheEntryFlags) : bool :=
  Z.land (Entry_flags e) (flag_u8 flag) >? 0.
Definition Entry_enable_tracing (e : MutationCacheEntry) := Entry_set_flag e Flag_TracingEnabled.
Definition Entry_disable_tracing (e : MutationCacheEntry) := Entry_unset_flag e Flag_TracingEnabled.
Definition Entry_enable (e : MutationCacheEntry) := Entry_unset_flag e Flag_Disable.
Definition Entry_disable (e : MutationCacheEntry) := Entry_set_flag e Flag_Disable.
Definition Entry_enabled (e : MutationCacheEntry) : bool := negb (Entry_is_flag_set e Flag_Disable).

Definition Entry_get_msk_as_slice (e : MutationCacheEntry) : list Z :=
  take (Entry_msk_len e) (e_tail e).

Definition Entry_get_padding_as_slice (e : MutationCacheEntry) : option (list Z) :=
  if (0 <? Entry_msk_len e)%nat
  then Some (take (Entry_target_value_size_byte e) (drop (Entry_msk_len e) (e_tail e)))
  else None.

Definition Entry_is_nop (e : MutationCacheEntry) : bool :=
  let msk := Entry_get_msk_as_slice e in
  if bool_decide (msk = []) then true else forallb (fun v => v =? 0) msk.

(** [u32 -> u16] by [try_into().unwrap()] *)
Definition try_into_u16 (n : nat) : outcome nat :=
  if decide (Z.of_nat n < 2 ^ 16) then Ret n else Panic.

Definition Entry_chunk_size_bits (e : MutationCacheEntry) : outcome nat :=
  match Entry_llvm_instruction e with
  | Br | Call =>
      ret ← try_into_u16 (Entry_target_value_size_bit e);
      _ ← assert_that (ret =? 1)%nat;
      mret ret
  | Load_ | Store | InjectedCall | CustomPatchPoint | Switch_ | Select | ICmp =>
      try_into_u16 (Entry_target_value_size_bit e)
  | OtherInstruction _ => Panic
  end.

Definition Entry_chunk_size_bytes (e : MutationCacheEntry) : outcome nat :=
  chunk_size_bits ← Entry_chunk_size_bits e;
  mret (if (0 <? chunk_size_bits mod 8)%nat
        then chunk_size_bits / 8 + 1 else chunk_size_bits / 8)%nat.

(** [PartialEq]: header and mask, not the padding *)
Definition Entry_eq (a b : MutationCacheEntry) : bool :=
  bool_decide (e_metadata a = e_metadata b) &&
  bool_decide (Entry_get_msk_as_slice a = Entry_get_msk_as_slice b).
End entry.

#[global] Arguments Entry_size : simpl never.
#[global] Arguments Entry_target_value_size_byte : simpl never.
#[global] Arguments div_ceil_8 : simpl never.
#[global] Arguments align_up_8 : simpl never.

(** ** Sizes *)

Lemma align_up_8_spec n : (n < align_up_8 n <= n + 8 /\ align_up_8 n mod 8 = 0)%nat.
Proof. unfold align_up_8. split; dlia. Qed.

Lemma align_up_8_mono a b : (a <= b -> align_up_8 a <= align_up_8 b)%nat.
Proof. unfold align_up_8. dlia. Qed.

Lemma div_ceil_8_spec n : (8 * div_ceil_8 n < n + 8 /\ n <= 8 * div_ceil_8 n)%nat.
Proof. unfold div_ceil_8. destruct (Nat.eqb_spec (n mod 8) 0); dlia. Qed.

Section entry_lemmas.
Context `{L : EntryLayout} `{!EntryLayoutLaws L}.
Implicit Types e : MutationCacheEntry.

Lemma Entry_size_metadata e e' :
  e_metadata e = e_metadata e' -> Entry_size e = Entry_size e'.
Proof.
  intros E. unfold Entry_size, Entry_size_wo_overflow_padding, Entry_target_value_size_byte,
    Entry_target_value_size_bit, Entry_msk_len. by rewrite E.
Qed.

Lemma Entry_size_bounds e :
  (meta_size + Entry_msk_len e < Entry_size e)%nat /\ (Entry_size e mod 8 = 0)%nat /\
  ((0 < Entry_msk_len e)%nat ->
   (meta_size + Entry_msk_len e + Entry_target_value_size_byte e < Entry_size e)%nat).
Proof.
  unfold Entry_size, Entry_size_wo_overflow_padding.
  destruct (Nat.ltb_spec 0 (Entry_msk_len e)) as [H1|H1].
  - pose proof (align_up_8_spec (meta_size + Entry_msk_len e + Entry_target_value_size_byte e)). lia.
  - pose proof (align_up_8_spec (meta_size + Entry_msk_len e)). lia.
Qed.

(** The allocation holds the whole entry. *)
Record entry_wf (e : MutationCacheEntry) : Prop := {
  ewf_metadata : metadata_ok (e_metadata e);
  ewf_alloc : (Entry_size e <= meta_size + length (e_tail e))%nat;
}.

(** The entry without what its allocation holds past [size()]. *)
Definition entry_trim (e : MutationCacheEntry) : MutationCacheEntry :=
  mk_entry (e_metadata e) (take (Entry_size e - meta_size) (e_tail e)).

Lemma entry_trim_size e : Entry_size (entry_trim e) = Entry_size e.
Proof. by apply Entry_size_metadata. Qed.

Lemma entry_trim_wf e : entry_wf e -> entry_wf (entry_trim e).
Proof.
  intros [Hm Ha]. split; [done|]. rewrite entry_trim_size. cbn. rewrite length_take.
  pose proof (Entry_size_bounds e). lia.
Qed.

Lemma entry_trim_idemp e : entry_trim (entry_trim e) = entry_trim e.
Proof.
  unfold entry_trim at 1. rewrite entry_trim_size. unfold entry_trim. cbn. f_equal.
  rewrite take_take. f_equal. lia.
Qed.

Lemma Entry_image_Ret e :
  entry_wf e -> exists img, Entry_image e = Ret img /\ length img = Entry_size e /\
    forall rest, Entry_read (img ++ rest) = entry_trim e.
Proof using EntryLayoutLaws0.
  intros [Hm Ha]. unfold Entry_image.
  apply Nat.leb_le in Ha as Ha'. rewrite Ha'. cbn [in_bounds assert_that mbind outcome_bind].
  pose proof (Entry_size_bounds e) as (Hlt & _).
  eexists. split; [reflexivity|]. split.
  - rewrite length_take, length_app, meta_bytes_length. lia.
  - intros rest. rewrite take_app_ge, <- app_assoc, meta_bytes_length
      by (rewrite meta_bytes_length; lia).
    unfold Entry_read. rewrite meta_read_bytes by done.
    rewrite (Entry_size_metadata _ e) by done.
    rewrite drop_app_length' by (symmetry; apply meta_bytes_length).
    unfold entry_trim. f_equal. rewrite take_app_le, take_take by (rewrite length_take; lia).
    f_equal. lia.
Qed.

Lemma Entry_image_fails e :
  (meta_size + length (e_tail e) < Entry_size e)%nat -> Entry_image e = Panic.
Proof.
  intros Hlt. unfold Entry_image, in_bounds, assert_that.
  destruct (Nat.leb_spec (Entry_size e) (meta_size + length (e_tail e))); [lia|done].
Qed.

Lemma msk_length e : entry_wf e -> length (Entry_get_msk_as_slice e) = Entry_msk_len e.
Proof.
  intros [_ Ha]. unfold Entry_get_msk_as_slice. rewrite length_take.
  pose proof (Entry_size_bounds e). lia.
Qed.

Lemma trim_msk e : Entry_get_msk_as_slice (entry_trim e) = Entry_get_msk_as_slice e.
Proof.
  unfold Entry_get_msk_as_slice, entry_trim. cbn. rewrite take_take. f_equal.
  pose proof (Entry_size_bounds e). unfold Entry_msk_len in *. cbn in *. lia.
Qed.

Lemma trim_padding e : Entry_get_padding_as_slice (entry_trim e) = Entry_get_padding_as_slice e.
Proof.
  unfold Entry_get_padding_as_slice. change (Entry_msk_len (entry_trim e)) with (Entry_msk_len e).
  destruct (Nat.ltb_spec 0 (Entry_msk_len e)) as [Hp|]; [|done]. f_equal.
  change (Entry_target_value_size_byte (entry_trim e)) with (Entry_target_value_size_byte e).
  unfold entry_trim. cbn [e_tail]. rewrite skipn_firstn_comm, take_take. f_equal.
  pose proof (Entry_size_bounds e) as (_ & _ & Hpad). specialize (Hpad Hp). lia.
Qed.

Lemma with_msk_len_ok m n :
  metadata_ok m -> Z.of_nat n <= MAX_MASK_LEN -> metadata_ok (with_msk_len m n).
Proof.
  intros [] Hn. split; cbn; try done. unfold fits, MAX_MASK_LEN in *.
  assert (2 ^ 32 = 4294967296) by done. lia.
Qed.

(** The bit of a flag. *)
Definition flag_bit (f : MutationCacheEntryFlags) : Z :=
  match f with Flag_Disable => 1 | _ => 0 end.

Lemma is_flag_set_bit e f :
  f <> Flag_None -> Entry_is_flag_set e f = Z.testbit (Entry_flags e) (flag_bit f).
Proof.
  intros Hf. unfold Entry_is_flag_set.
  replace (flag_u8 f) with (2 ^ flag_bit f) by (by destruct f).
  apply land_pow2_gtb. by destruct f.
Qed.

Lemma set_flag_bit e f g :
  f <> Flag_None -> g <> Flag_None ->
  Entry_is_flag_set (Entry_set_flag e f) g
  = Entry_is_flag_set e g || bool_decide (flag_bit f = flag_bit g).
Proof.
  intros Hf Hg. rewrite !is_flag_set_bit by done. cbn. rewrite Z.lor_spec. f_equal.
  by destruct f, g.
Qed.

Lemma unset_flag_bit e f g :
  f <> Flag_None -> g <> Flag_None ->
  Entry_is_flag_set (Entry_unset_flag e f) g
  = Entry_is_flag_set e g && negb (bool_decide (flag_bit f = flag_bit g)).
Proof.
  intros Hf Hg. rewrite !is_flag_set_bit by done. cbn. rewrite Z.land_spec. f_equal.
  by destruct f, g.
Qed.

Lemma forallb_zero n : forallb (fun v => v =? 0) (replicate n 0) = true.
Proof. by induction n. Qed.

(** [MutationCacheEntry::new] allocates exactly [size()] bytes, a multiple of
    eight that covers the header, the mask and one more target value, and returns
    an entry whose mask and padding are zero, so that it is a no-op; but it clears
    eight bytes of padding, so when the mask is not empty and the target value and
    the alignment leave less than eight bytes after it, it writes outside the
    allocation; masks of 64 MiB and more are refused. *)
Theorem entry_new_layout id ins vma flags slot bits len :
  let e := mk_entry (mk_metadata id ins vma flags slot bits 0 len)
             (replicate (Entry_size (mk_entry (mk_metadata id ins vma flags slot bits 0 len) [])
                         - meta_size) 0) in
  let room := (Entry_size e - (meta_size + len))%nat in
  Entry_new id ins vma flags slot bits len
    = (if decide (Z.of_nat len < MAX_MASK_LEN /\ (len = 0 \/ 8 <= room)%nat)
       then Ret e else Panic) /\
  (meta_size + length (e_tail e) = Entry_size e /\ Entry_size e mod 8 = 0)%nat /\
  ((0 < len)%nat -> (div_ceil_8 bits < room <= div_ceil_8 bits + 8)%nat) /\
  Entry_get_msk_as_slice e = replicate len 0 /\ Entry_is_nop e = true /\
  (forall p, Entry_get_padding_as_slice e = Some p -> p = replicate (div_ceil_8 bits) 0).
Proof.
  intros e room.
  assert (Hsz : Entry_size e = align_up_8 (if (0 <? len)%nat then meta_size + len + div_ceil_8 bits
                                           else meta_size + len)) by done.
  pose proof (Entry_size_bounds e) as (Hlt & Hmod & Hpad).
  change (Entry_msk_len e) with len in *.
  change (Entry_target_value_size_byte e) with (div_ceil_8 bits) in *.
  assert (Htail : e_tail e = replicate (Entry_size e - meta_size) 0) by done.
  assert (Hmsk : Entry_get_msk_as_slice e = replicate len 0).
  { unfold Entry_get_msk_as_slice. rewrite Htail, take_replicate. f_equal.
    change (Entry_msk_len e) with len. lia. }
  split; [|split; [|split; [|split; [done|split]]]].
  - unfold Entry_new, in_bounds, assert_that. cbv zeta. rewrite <- Hsz.
    destruct (Z.ltb_spec (Z.of_nat len) MAX_MASK_LEN) as [Hmax|Hmax]; cbn [mbind outcome_bind];
      [|rewrite decide_False by lia; done].
    destruct (Nat.ltb_spec 0 len) as [H0|H0].
    + destruct (Nat.leb_spec (meta_size + (len + 8)) (Entry_size e)); cbn [mbind outcome_bind];
        [rewrite decide_True by lia|rewrite decide_False by lia]; done.
    + destruct (Nat.leb_spec (meta_size + len) (Entry_size e)); [|lia]. cbn [mbind outcome_bind].
      rewrite decide_True by lia. done.
  - rewrite Htail, length_replicate. lia.
  - intros H0. unfold room. apply Nat.ltb_lt in H0 as H0'. rewrite H0' in Hsz.
    pose proof (align_up_8_spec (meta_size + len + div_ceil_8 bits)). lia.
  - unfold Entry_is_nop. rewrite Hmsk, forallb_zero. by case_bool_decide.
  - intros p. unfold Entry_get_padding_as_slice. change (Entry_msk_len e) with len.
    destruct (Nat.ltb_spec 0 len) as [H0|]; [|done]. intros Hp%(inj Some). subst p.
    change (Entry_target_value_size_byte e) with (div_ceil_8 bits).
    rewrite Htail, drop_replicate, take_replicate. f_equal. specialize (Hpad H0). lia.
Qed.

Lemma clone_with_new_msk_Ret e n :
  entry_wf e -> (0 < n)%nat -> Z.of_nat n <= MAX_MASK_LEN ->
  exists e', Entry_clone_with_new_msk e n = Ret e' /\
    e_metadata e' = with_msk_len (e_metadata e) n /\
    Entry_get_msk_as_slice e'
      = take n (Entry_get_msk_as_slice e) ++ replicate (n - Entry_msk_len e) 0 /\
    ((Entry_target_value_size_byte e <= 8)%nat -> entry_wf e' /\
     Entry_get_padding_as_slice e' = Some (replicate (Entry_target_value_size_byte e) 0)).
Proof.
  intros [Hm Ha]. pose proof (Entry_size_bounds e) as (Hlt & _ & _).
  unfold Entry_clone_with_new_msk.
  intros H0 Hmax.
  apply Z.leb_le in Hmax as Hmax'. apply Nat.ltb_lt in H0 as H0'. rewrite Hmax', H0'.
  cbn [andb assert_that mbind outcome_bind].
  set (k := min n (Entry_msk_len e)).
  assert (Hcopy : (if (n <? Entry_msk_len e)
     then Entry_size_wo_overflow_padding e - (Entry_msk_len e - n)
     else Entry_size_wo_overflow_padding e)%nat = (meta_size + k)%nat).
  { unfold Entry_size_wo_overflow_padding, k.
    destruct (Nat.ltb_spec n (Entry_msk_len e)); lia. }
  rewrite Hcopy. set (new_size := align_up_8 (meta_size + n + 8)).
  pose proof (align_up_8_spec (meta_size + n + 8)) as Hal. fold new_size in Hal.
  assert (Hb : ((meta_size + k <=? meta_size + length (e_tail e)) &&
                (meta_size + k <=? new_size))%nat = true).
  { apply andb_true_iff. rewrite !Nat.leb_le. lia. }
  rewrite Hb. cbn [in_bounds assert_that mbind outcome_bind].
  replace (meta_size + k - meta_size)%nat with k by lia.
  assert (Hkl : length (take k (e_tail e)) = k) by (rewrite length_take; lia).
  rewrite Hkl. eexists. split; [reflexivity|]. split; [done|].
  assert (Hk : take k (e_tail e) = take n (Entry_get_msk_as_slice e)).
  { unfold Entry_get_msk_as_slice. rewrite take_take. f_equal. }
  split.
  - unfold Entry_get_msk_as_slice at 1. cbn [e_tail Entry_msk_len e_metadata with_msk_len md_msk_len].
    rewrite take_app, Hkl, (take_ge (take k _)), take_replicate by lia. rewrite <- Hk.
    do 2 f_equal. unfold Entry_msk_len in *. cbn. lia.
  - intros Htv. split.
    + split; [by apply with_msk_len_ok|].
      unfold Entry_size, Entry_size_wo_overflow_padding.
      change (Entry_msk_len _) with n. rewrite H0'. cbn [e_tail].
      rewrite length_app, length_replicate, Hkl.
      pose proof (align_up_8_mono (meta_size + n + Entry_target_value_size_byte e)
        (meta_size + n + 8) ltac:(lia)) as Hmono. fold new_size in Hmono.
      change (Entry_target_value_size_byte (mk_entry _ _)) with (Entry_target_value_size_byte e).
      lia.
    + unfold Entry_get_padding_as_slice. change (Entry_msk_len _) with n. rewrite H0'. f_equal.
      change (Entry_target_value_size_byte (mk_entry _ _)) with (Entry_target_value_size_byte e).
      cbn [e_tail]. rewrite drop_app_ge, Hkl, drop_replicate, take_replicate by lia.
      f_equal. lia.
Qed.

(** [clone_with_new_msk] keeps every header field but the mask length, keeps the
    first bytes of the mask and zeroes what it adds, and the padding it leaves is
    zero; for target values of at most eight bytes the new allocation holds the
    whole entry.  It panics on a zero length or above 64 MiB. *)
Theorem entry_clone_with_new_msk e n :
  entry_wf e ->
  ((0 < n)%nat -> Z.of_nat n <= MAX_MASK_LEN ->
   exists e', Entry_clone_with_new_msk e n = Ret e' /\
     e_metadata e' = with_msk_len (e_metadata e) n /\
     Entry_get_msk_as_slice e'
       = take n (Entry_get_msk_as_slice e) ++ replicate (n - Entry_msk_len e) 0 /\
     ((Entry_target_value_size_byte e <= 8)%nat -> entry_wf e' /\
      Entry_get_padding_as_slice e' = Some (replicate (Entry_target_value_size_byte e) 0))) /\
  (n = 0%nat \/ MAX_MASK_LEN < Z.of_nat n -> Entry_clone_with_new_msk e n = Panic).
Proof.
  intros Hwf. split; [by apply clone_with_new_msk_Ret|].
  intros Hbad. unfold Entry_clone_with_new_msk, assert_that.
  destruct (Z.leb_spec (Z.of_nat n) MAX_MASK_LEN), (Nat.ltb_spec 0 n); cbn; done || lia.
Qed.

(** The flags are independent bits: setting, clearing and resetting them changes
    only the flags byte; a set flag reads as set, a cleared one as clear, the other
    flag keeps its value; [disable] and [enable] switch [enabled], and
    [enable_tracing]/[disable_tracing] do not touch it. *)
Theorem entry_flags_independent e :
  let T := Flag_TracingEnabled in let D := Flag_Disable in
  (forall f, f <> Flag_None ->
     Entry_is_flag_set (Entry_set_flag e f) f = true /\
     Entry_is_flag_set (Entry_unset_flag e f) f = false /\
     Entry_is_flag_set (Entry_reset_flags e) f = false) /\
  Entry_is_flag_set (Entry_set_flag e T) D = Entry_is_flag_set e D /\
  Entry_is_flag_set (Entry_set_flag e D) T = Entry_is_flag_set e T /\
  Entry_is_flag_set (Entry_unset_flag e T) D = Entry_is_flag_set e D /\
  Entry_is_flag_set (Entry_unset_flag e D) T = Entry_is_flag_set e T /\
  Entry_enabled (Entry_disable e) = false /\ Entry_enabled (Entry_enable e) = true /\
  Entry_enabled (Entry_enable_tracing e) = Entry_enabled e /\
  Entry_enabled (Entry_disable_tracing e) = Entry_enabled e /\
  (forall f, Entry_size (Entry_set_flag e f) = Entry_size e /\
     Entry_size (Entry_unset_flag e f) = Entry_size e /\
     e_tail (Entry_set_flag e f) = e_tail e /\ e_tail (Entry_unset_flag e f) = e_tail e).
Proof.
  intros T D. unfold Entry_enabled, Entry_disable, Entry_enable, Entry_enable_tracing,
    Entry_disable_tracing.
  split.
  { intros f Hf. rewrite set_flag_bit, unset_flag_bit, bool_decide_true by done.
    rewrite orb_true_r, andb_false_r. split; [done|]. split; [done|]. by destruct f. }
  rewrite !set_flag_bit, !unset_flag_bit by done. cbn.
  rewrite !orb_false_r, !andb_true_r, orb_true_r, andb_false_r. done.
Qed.
End entry_lemmas.

(** ** A concrete layout *)

#[local] Instance demo_stackmap : StackMap := {|
  Location := bool;
  LocationType := bool;
  loc_type := id;
  LocationType_Constant := true;
|}.

Definition demo_code (i : LLVMInstruction) : Z :=
  match i with
  | Br => 0 | Load_ => 1 | Store => 2 | InjectedCall => 3 | CustomPatchPoint => 4
  | Switch_ => 5 | Select => 6 | ICmp => 7 | Call => 8 | OtherInstruction c => 9 + c
  end.

Definition demo_uncode (z : Z) : LLVMInstruction :=
  match z with
  | 0 => Br | 1 => Load_ | 2 => Store | 3 => InjectedCall | 4 => CustomPatchPoint
  | 5 => Switch_ | 6 => Select | 7 => ICmp | 8 => Call | _ => OtherInstruction (z - 9)
  end.

Definition demo_fields (m : MutationCacheEntryMetadata) : list Z :=
  [md_id m; demo_code (md_llvm_instruction m); md_vma m; md_flags m;
   if md_spill_slot m : bool then 1 else 0;
   Z.of_nat (md_target_value_size_bits m); md_read_pos_bits m; Z.of_nat (md_msk_len m)].

Definition field (k : nat) (mem : list Z) : Z := of_le (take 8 (drop (k * 8) mem)).

(** Eight fields of eight bytes. *)
#[local] Instance demo_layout : EntryLayout := {|
  meta_size := 64;
  meta_bytes m := mjoin (to_le 8 <$> demo_fields m);
  meta_read mem := mk_metadata (field 0 mem) (demo_uncode (field 1 mem)) (field 2 mem)
    (field 3 mem) (field 4 mem =? 1) (Z.to_nat (field 5 mem)) (field 6 mem)
    (Z.to_nat (field 7 mem));
|}.

Lemma demo_uncode_code i :
  match i with OtherInstruction c => fits 32 c | _ => True end -> demo_uncode (demo_code i) = i.
Proof.
  destruct i as [| | | | | | | | |c]; try done. intros Hc. unfold fits in Hc. cbn [demo_code].
  unfold demo_uncode. destruct (9 + c) as [|p|p] eqn:E; [lia| |lia].
  do 4 (try destruct p as [p|p|]; try lia); rewrite <- E; f_equal; lia.
Qed.

Lemma field_join k fs rest :
  (k < length fs)%nat -> Forall (fits 64) fs ->
  field k (mjoin (to_le 8 <$> fs) ++ rest) = fs !!! k.
Proof.
  intros Hk Hfs. revert k Hk. induction Hfs as [|f fs Hf Hfs IH]; intros k Hk; [cbn in Hk; lia|].
  change (mjoin (to_le 8 <$> f :: fs)) with (to_le 8 f ++ mjoin (to_le 8 <$> fs)).
  rewrite <- app_assoc. destruct k as [|k]; unfold field.
  - change (0 * 8)%nat with 0%nat. rewrite drop_0, take_app_length' by (by rewrite to_le_length).
    rewrite of_le_to_le; [done|]. exact Hf.
  - rewrite drop_app_ge by (rewrite to_le_length; lia). rewrite to_le_length.
    replace (S k * 8 - 8)%nat with (k * 8)%nat by lia. apply IH. cbn in Hk. lia.
Qed.

#[local] Instance demo_layout_laws : EntryLayoutLaws demo_layout.
Proof.
  split; [done|]. intros m rest [Hid Hins Hvma Hfl Hb Hp Hl].
  assert (Hle : forall w z, fits w z -> 0 <= w <= 64 -> fits 64 z).
  { unfold fits. intros w z Hz Hw. pose proof (Z.pow_le_mono_r 2 w 64). lia. }
  assert (Hcode : fits 64 (demo_code (md_llvm_instruction m))).
  { destruct (md_llvm_instruction m) as [| | | | | | | | |c]; try done.
    unfold fits in *. cbn [demo_code]. lia. }
  assert (Hf : Forall (fits 64) (demo_fields m)).
  { unfold demo_fields. repeat (apply Forall_cons; split); [done|done|done| | | | | |constructor];
      try (eapply Hle; [eassumption|lia]). by destruct (md_spill_slot m : bool). }
  cbn [meta_read meta_bytes demo_layout]. rewrite !(field_join _ (demo_fields m)) by (done || cbn; lia).
  cbn [demo_fields lookup_total list_lookup_total]. rewrite demo_uncode_code, !Nat2Z.id by done.
  destruct m as [? ? ? ? [] ? ? ?]; done.
Qed.

(** ** Witnesses *)

Definition demo_entry (id : Z) (msk : list Z) : MutationCacheEntry :=
  mk_entry (mk_metadata id Load_ 4096 0 false 64 0 (length msk)) (msk ++ replicate 16 0).

Lemma demo_entry_wf id msk :
  fits 64 id -> (length msk < 1000)%nat -> entry_wf (demo_entry id msk).
Proof.
  intros Hid Hl. split.
  - split; cbn; try done. unfold fits. change (2 ^ 32) with 4294967296. lia.
  - unfold Entry_size, Entry_size_wo_overflow_padding. cbn [e_tail demo_entry].
    change (Entry_msk_len (demo_entry id msk)) with (length msk).
    change (Entry_target_value_size_byte (demo_entry id msk)) with 8%nat.
    change meta_size with 64%nat. rewrite length_app, length_replicate.
    pose proof (align_up_8_spec (64 + length msk + 8)). pose proof (align_up_8_spec (64 + length msk)).
    destruct (0 <? length msk)%nat; lia.
Qed.
