(* ===== verification/MutationCacheContent.v ===== *)
(** * [MutationCacheContent]: the entries of a cache in one memory region

    Models [fuzztruction_shared/src/mutation_cache_content.rs].  The content is a
    header with a table of descriptors, followed by the memory [cc_data] in which
    the entries are stored one after the other.  [content_rep] is the abstract
    specification: the content stands for a list of entries, and the theorems show
    that [push], [remove], [consolidate], [clear] and the in-place updates implement
    the list operations on that memory. *)

From S2P Require Import Prelude Bytes MutationCacheEntry.

(** [size_of::<MutationCacheContent>()] *)
Class ContentLayout := content_header_size : nat.

Definition MAX_MUTATION_CACHE_ENTRIES : Z := 200000.
Definition PENDING_DELETIONS_LIMIT : nat := 500.

(** A descriptor is the start offset of its entry. *)
Record MutationCacheContent := mk_content {
  cc_total_size : nat;
  cc_current_data_size : nat;
  cc_next_free_slot : nat;
  cc_pending_deletions : nat;
  cc_invalidate : bool;
  cc_entry_decriptor_tbl : list (option nat);
  cc_data : list Z;
}.

(** Writes [bytes] at [off]; the source copies without a check of its own. *)
Definition write_at (data : list Z) (off : nat) (bytes : list Z) : outcome (list Z) :=
  _ ← in_bounds (off + length bytes <=? length data)%nat;
  mret (take off data ++ bytes ++ drop (off + length bytes) data).

(** [a - b] on [usize] *)
Definition usize_sub (a b : nat) : outcome nat :=
  if (b <=? a)%nat then Ret (a - b)%nat else Panic.

Section content.
Context `{L : EntryLayout} `{CL : ContentLayout}.
Implicit Types c : MutationCacheContent.
Implicit Types e : MutationCacheEntry.

Definition Content_init c (size : nat) : outcome MutationCacheContent :=
  _ ← assert_that (content_header_size <=? size)%nat;
  mret (mk_content size 0 0 (cc_pending_deletions c) (cc_invalidate c)
          ((fun _ => None) <$> cc_entry_decriptor_tbl c) (cc_data c)).

Definition Content_update c (size : nat) : MutationCacheContent :=
  mk_content size (cc_current_data_size c) (cc_next_free_slot c) (cc_pending_deletions c)
    (cc_invalidate c) (cc_entry_decriptor_tbl c) (cc_data c).

Definition Content_space_left c : outcome nat :=
  s ← usize_sub (cc_total_size c) content_header_size;
  usize_sub s (cc_current_data_size c).

Definition Content_total_used_bytes c : nat :=
  (content_header_size + cc_current_data_size c)%nat.

Definition Content_clear c : MutationCacheContent :=
  mk_content (cc_total_size c) 0 0 (cc_pending_deletions c) true
    ((fun _ => None) <$> cc_entry_decriptor_tbl c) (cc_data c).

(** The pointers to the entries, as offsets into the data. *)
Definition Content_entries_raw c : list nat := omap id (cc_entry_decriptor_tbl c).

Definition entry_ref c (offset : nat) : MutationCacheEntry := Entry_read (drop offset (cc_data c)).

Definition Content_entries c : list MutationCacheEntry := entry_ref c <$> Content_entries_raw c.

(** Returns the offset of the stored entry, the pointer the source hands out. *)
Definition Content_push c e : outcome (option nat * MutationCacheContent) :=
  _ ← assert_that (cc_next_free_slot c <? length (cc_entry_decriptor_tbl c))%nat;
  space ← Content_space_left c;
  if (space <? Entry_size e)%nat then mret (None, c)
  else
    let start_offset := cc_current_data_size c in
    max_slot_idx ← usize_sub (length (cc_entry_decriptor_tbl c)) 1;
    slot ← slice_get (cc_entry_decriptor_tbl c) (cc_next_free_slot c);
    match slot with
    | Some _ => mret (None, c)
    | None =>
        img ← Entry_image e;
        data ← write_at (cc_data c) start_offset img;
        mret (Some start_offset,
              mk_content (cc_total_size c) (cc_current_data_size c + Entry_size e)
                (min (cc_next_free_slot c + 1) max_slot_idx) (cc_pending_deletions c) true
                (<[cc_next_free_slot c := Some start_offset]> (cc_entry_decriptor_tbl c)) data)
    end.

(** [for e in entries { self.push(e); }], ignoring the results *)
Fixpoint Content_push_all c (es : list MutationCacheEntry) : outcome MutationCacheContent :=
  match es with
  | [] => mret c
  | e :: es => r ← Content_push c e; Content_push_all r.2 es
  end.

(** [iter().map(f).collect()] with an [f] that can panic *)
Fixpoint map_outcome {A B} (f : A -> outcome B) (l : list A) : outcome (list B) :=
  match l with
  | [] => mret []
  | a :: l => b ← f a; bs ← map_outcome f l; mret (b :: bs)
  end.

Definition Content_consolidate c : outcome MutationCacheContent :=
  entries ← map_outcome Entry_clone_into_box (Content_entries c);
  Content_push_all (Content_clear c) entries.

(** The first slot whose entry has the id. *)
Fixpoint find_slot c (id : Z) (idx : nat) (tbl : list (option nat)) : option nat :=
  match tbl with
  | [] => None
  | Some off :: tbl =>
      if Entry_id (entry_ref c off) =? id then Some idx else find_slot c id (S idx) tbl
  | None :: tbl => find_slot c id (S idx) tbl
  end.

Definition Content_remove c (id : Z) : outcome MutationCacheContent :=
  match find_slot c id 0 (cc_entry_decriptor_tbl c) with
  | Some idx =>
      tbl ← slice_set (cc_entry_decriptor_tbl c) idx None;
      let pending := S (cc_pending_deletions c) in
      let c' pending := mk_content (cc_total_size c) (cc_current_data_size c)
                  (cc_next_free_slot c) pending true tbl (cc_data c) in
      if (PENDING_DELETIONS_LIMIT <? pending)%nat
      then Content_consolidate (c' 0%nat)
      else mret (c' pending)
  | None => Panic
  end.

Definition Content_is_invalidated c : bool := cc_invalidate c.

Definition Content_clear_invalidated c : MutationCacheContent :=
  mk_content (cc_total_size c) (cc_current_data_size c) (cc_next_free_slot c)
    (cc_pending_deletions c) false (cc_entry_decriptor_tbl c) (cc_data c).

Definition with_cache_data c (d : list Z) : MutationCacheContent :=
  mk_content (cc_total_size c) (cc_current_data_size c) (cc_next_free_slot c)
    (cc_pending_deletions c) (cc_invalidate c) (cc_entry_decriptor_tbl c) d.

(** [for e in entries_mut() { f(e) }]: each entry is updated where it is stored. *)
Definition Content_entries_mut c (f : MutationCacheEntry -> MutationCacheEntry)
    : outcome MutationCacheContent :=
  data ← foldl (fun acc off =>
           data ← acc;
           img ← Entry_image (f (Entry_read (drop off data)));
           write_at data off img) (mret (cc_data c)) (Content_entries_raw c);
  mret (with_cache_data c data).
End content.

Section content_lemmas.
Context `{L : EntryLayout} `{CL : ContentLayout} `{!EntryLayoutLaws L}.
Implicit Types c : MutationCacheContent.
Implicit Types e : MutationCacheEntry.

(** ** The abstract list of entries *)

(** The bytes of [e] are at [off]. *)
Definition stored (data : list Z) (off : nat) e : Prop :=
  entry_wf e /\ entry_trim e = e /\
  Entry_image e = Ret (take (Entry_size e) (drop off data)).

(** The entries [es] are stored at [offs], in order and without overlap, between
    [lo] and [hi]. *)
Fixpoint packed (data : list Z) (lo hi : nat) (offs : list nat) (es : list MutationCacheEntry) : Prop :=
  match offs, es with
  | [], [] => (lo <= hi)%nat
  | off :: offs, e :: es =>
      (lo <= off)%nat /\ stored data off e /\ packed data (off + Entry_size e) hi offs es
  | _, _ => False
  end.

Record content_rep (c : MutationCacheContent) (es : list MutationCacheEntry) : Prop := {
  cr_total : cc_total_size c = (content_header_size + length (cc_data c))%nat;
  cr_current : (cc_current_data_size c <= length (cc_data c))%nat;
  cr_slot : (cc_next_free_slot c < length (cc_entry_decriptor_tbl c))%nat;
  cr_free : forall i off, (cc_next_free_slot c <= i)%nat ->
    cc_entry_decriptor_tbl c !! i = Some (Some off) ->
    i = cc_next_free_slot c /\ S i = length (cc_entry_decriptor_tbl c);
  cr_packed : packed (cc_data c) 0 (cc_current_data_size c) (Content_entries_raw c) es;
}.

Definition sizes (es : list MutationCacheEntry) : nat := sum_list (Entry_size <$> es).

Lemma stored_read data off e : stored data off e -> Entry_read (drop off data) = e.
Proof using EntryLayoutLaws0.
  intros (Hwf & Htrim & Himg). destruct (Entry_image_Ret e Hwf) as (img & Ei & _ & Hread).
  rewrite Ei in Himg. injection Himg as ->.
  rewrite <- (take_drop (Entry_size e) (drop off data)), Hread. exact Htrim.
Qed.

Lemma stored_agree data data' hi off e :
  take hi data = take hi data' -> (off + Entry_size e <= hi)%nat ->
  stored data off e -> stored data' off e.
Proof.
  intros Htake Hle (Hwf & Htrim & Himg). split; [done|]. split; [done|]. rewrite Himg. f_equal.
  assert (Hsl : forall d : list Z, take (Entry_size e) (drop off d)
                = take (Entry_size e) (drop off (take hi d))).
  { intros d. rewrite skipn_firstn_comm, take_take. f_equal. lia. }
  by rewrite (Hsl data), (Hsl data'), Htake.
Qed.

Lemma packed_le data lo hi offs es : packed data lo hi offs es -> (lo + sizes es <= hi)%nat.
Proof.
  revert lo es. induction offs as [|off offs IH]; intros lo [|e es]; cbn; try done.
  - unfold sizes. cbn. lia.
  - intros (Hlo & _ & Hp). apply IH in Hp. unfold sizes in *. cbn. lia.
Qed.

Lemma packed_length data lo hi offs es : packed data lo hi offs es -> length offs = length es.
Proof.
  revert lo es. induction offs as [|off offs IH]; intros lo [|e es]; cbn; try done.
  intros (_ & _ & Hp). f_equal. by eapply IH.
Qed.

Lemma packed_agree data data' lo hi offs es :
  take hi data = take hi data' -> packed data lo hi offs es -> packed data' lo hi offs es.
Proof.
  intros Htake. revert lo es. induction offs as [|off offs IH]; intros lo [|e es]; cbn; try done.
  intros (Hlo & Hst & Hp). pose proof (packed_le _ _ _ _ _ Hp).
  split; [done|]. split; [|by apply IH]. apply (stored_agree data data' hi); [done|lia|done].
Qed.

Lemma packed_hi data lo hi hi' offs es :
  (hi <= hi')%nat -> packed data lo hi offs es -> packed data lo hi' offs es.
Proof.
  intros Hh. revert lo es. induction offs as [|off offs IH]; intros lo [|e es]; cbn; try done.
  - lia.
  - intros (Hlo & Hst & Hp). auto.
Qed.

Lemma packed_lo data lo lo' hi offs es :
  (lo' <= lo)%nat -> packed data lo hi offs es -> packed data lo' hi offs es.
Proof.
  intros Hl. destruct offs as [|off offs], es as [|e es]; cbn; try done; [lia|].
  intros (Hlo & Hst & Hp). split; [lia|done].
Qed.

Lemma packed_snoc data lo hi offs es off e :
  packed data lo hi offs es -> (hi <= off)%nat -> stored data off e ->
  packed data lo (off + Entry_size e) (offs ++ [off]) (es ++ [e]).
Proof.
  revert lo es. induction offs as [|o offs IH]; intros lo [|e0 es]; cbn; try done.
  - intros. split; [lia|]. split; [done|lia].
  - intros (Hlo & Hst & Hp) Hhi Hse. split; [done|]. split; [done|]. by apply IH.
Qed.

Lemma packed_entries data lo hi offs es :
  packed data lo hi offs es -> (fun off => Entry_read (drop off data)) <$> offs = es.
Proof using EntryLayoutLaws0.
  revert lo es. induction offs as [|off offs IH]; intros lo [|e es]; cbn; try done.
  intros (_ & Hst & Hp). rewrite (stored_read _ _ _ Hst). f_equal. by eapply IH.
Qed.

Lemma packed_stored data lo hi offs es :
  packed data lo hi offs es -> Forall (fun e => entry_wf e /\ entry_trim e = e) es.
Proof.
  revert lo es. induction offs as [|off offs IH]; intros lo [|e es]; cbn; try done.
  intros (_ & (Hw & Ht & _) & Hp). constructor; [done|]. by eapply IH.
Qed.

(** Removing the entry at one position. *)
Lemma packed_remove data lo hi offs1 off offs2 es1 e es2 :
  length offs1 = length es1 ->
  packed data lo hi (offs1 ++ off :: offs2) (es1 ++ e :: es2) ->
  packed data lo hi (offs1 ++ offs2) (es1 ++ es2).
Proof.
  revert lo es1. induction offs1 as [|o offs1 IH]; intros lo [|e1 es1] Hl; cbn in Hl; try done; cbn.
  - intros (Hlo & _ & Hp). apply (packed_lo _ (off + Entry_size e)); [lia|done].
  - intros (Hlo & Hst & Hp). split; [done|]. split; [done|]. apply IH; [lia|done].
Qed.

Lemma content_entries_rep c es : content_rep c es -> Content_entries c = es.
Proof using EntryLayoutLaws0. intros Hr. apply (packed_entries _ 0 (cc_current_data_size c)), Hr. Qed.

Lemma space_left_rep c es :
  content_rep c es ->
  Content_space_left c = Ret (length (cc_data c) - cc_current_data_size c)%nat.
Proof.
  intros [Ht Hc _ _ _]. unfold Content_space_left, usize_sub. rewrite Ht.
  destruct (Nat.leb_spec content_header_size (content_header_size + length (cc_data c))); [|lia].
  cbn [mbind outcome_bind].
  destruct (Nat.leb_spec (cc_current_data_size c)
    (content_header_size + length (cc_data c) - content_header_size)); [|lia]. f_equal. lia.
Qed.

(** ** The table *)

Lemma omap_id_none (l : list (option nat)) :
  (forall i off, l !! i <> Some (Some off)) -> omap id l = [].
Proof.
  induction l as [|[x|] l IH]; intros Hn; cbn; [done| |].
  - by destruct (Hn 0%nat x).
  - apply IH. intros i off. exact (Hn (S i) off).
Qed.

Lemma omap_id_insert (l : list (option nat)) i off :
  l !! i = Some None -> (forall j o, (i < j)%nat -> l !! j <> Some (Some o)) ->
  omap id (<[i := Some off]> l) = omap id l ++ [off].
Proof.
  intros Hi Hj. pose proof (lookup_lt_Some _ _ _ Hi) as Hlt.
  rewrite insert_take_drop by done.
  rewrite <- (take_drop_middle l i None Hi) at 3.
  rewrite !omap_app. cbn [omap list_omap id].
  rewrite (omap_id_none (drop (S i) l)).
  - by rewrite app_nil_r.
  - intros k o. rewrite lookup_drop. apply Hj. lia.
Qed.

Lemma omap_id_delete (l : list (option nat)) i off :
  l !! i = Some (Some off) ->
  exists l1 l2, omap id l = l1 ++ off :: l2 /\ omap id (<[i := None]> l) = l1 ++ l2 /\
    l1 = omap id (take i l).
Proof.
  intros Hi. pose proof (lookup_lt_Some _ _ _ Hi) as Hlt.
  exists (omap id (take i l)), (omap id (drop (S i) l)). split; [|split; [|done]].
  - rewrite <- (take_drop_middle l i _ Hi) at 1. by rewrite omap_app.
  - rewrite insert_take_drop by done. by rewrite omap_app.
Qed.

Lemma omap_id_length (l : list (option nat)) : (length (omap id l) <= length l)%nat.
Proof. induction l as [|[x|] l IH]; cbn; lia. Qed.

(** ** Writing into the data *)

Lemma write_at_Ret data off bytes :
  (off + length bytes <= length data)%nat ->
  write_at data off bytes = Ret (take off data ++ bytes ++ drop (off + length bytes) data).
Proof.
  intros Hle. unfold write_at, in_bounds, assert_that.
  apply Nat.leb_le in Hle. by rewrite Hle.
Qed.

Lemma written_length (data bytes : list Z) off :
  (off + length bytes <= length data)%nat ->
  length (take off data ++ bytes ++ drop (off + length bytes) data) = length data.
Proof. intros Hle. rewrite !length_app, length_take, length_drop. lia. Qed.

Lemma written_below (data bytes : list Z) off hi :
  (hi <= off)%nat -> (off <= length data)%nat ->
  take hi data = take hi (take off data ++ bytes ++ drop (off + length bytes) data).
Proof.
  intros Hhi Hoff. rewrite take_app_le by (rewrite length_take; lia).
  rewrite take_take. f_equal. lia.
Qed.

Lemma written_at (data bytes : list Z) off :
  (off <= length data)%nat ->
  take (length bytes) (drop off (take off data ++ bytes ++ drop (off + length bytes) data)) = bytes.
Proof.
  intros Hoff. rewrite drop_app_length' by (rewrite length_take; lia).
  by rewrite take_app_length.
Qed.

Lemma written_stored data off e img :
  entry_wf e -> Entry_image e = Ret img -> (off + length img <= length data)%nat ->
  stored (take off data ++ img ++ drop (off + length img) data) off (entry_trim e).
Proof using EntryLayoutLaws0.
  intros Hwf Ei Hle. destruct (Entry_image_Ret e Hwf) as (img' & Ei' & Hl & _).
  rewrite Ei in Ei'. injection Ei' as <-.
  split; [by apply entry_trim_wf|]. split; [apply entry_trim_idemp|].
  rewrite entry_trim_size, <- Hl, written_at by lia.
  rewrite <- Ei. unfold Entry_image. rewrite entry_trim_size. unfold entry_trim. cbn [e_tail e_metadata].
  destruct Hwf as [_ Ha]. pose proof (Entry_size_bounds e) as (Hlt & _).
  rewrite length_take.
  destruct (Nat.leb_spec (Entry_size e) (meta_size + min (Entry_size e - meta_size) (length (e_tail e)))); [|lia].
  destruct (Nat.leb_spec (Entry_size e) (meta_size + length (e_tail e))); [|lia].
  cbn [in_bounds assert_that mbind outcome_bind]. unfold mret, outcome_ret. f_equal.
  rewrite !take_app, !meta_bytes_length. f_equal. rewrite take_take. f_equal. lia.
Qed.

(** ** [push] *)

(** The slot [push] would use is taken: only the last one can be. *)
Definition table_full c : Prop :=
  exists off, cc_entry_decriptor_tbl c !! cc_next_free_slot c = Some (Some off).

#[export] Instance table_full_dec c : Decision (table_full c).
Proof.
  unfold table_full. destruct (cc_entry_decriptor_tbl c !! cc_next_free_slot c) as [[off|]|].
  - left. by exists off.
  - right. by intros [? [=]].
  - right. by intros [? [=]].
Defined.

Definition pushed c e (data : list Z) : MutationCacheContent :=
  mk_content (cc_total_size c) (cc_current_data_size c + Entry_size e)
    (min (cc_next_free_slot c + 1) (length (cc_entry_decriptor_tbl c) - 1))
    (cc_pending_deletions c) true
    (<[cc_next_free_slot c := Some (cc_current_data_size c)]> (cc_entry_decriptor_tbl c)) data.

Lemma push_rep c es e :
  content_rep c es -> entry_wf e ->
  (cc_current_data_size c + Entry_size e <= length (cc_data c))%nat -> ~ table_full c ->
  exists data, Content_push c e = Ret (Some (cc_current_data_size c), pushed c e data) /\
    length data = length (cc_data c) /\
    content_rep (pushed c e data) (es ++ [entry_trim e]).
Proof using EntryLayoutLaws0.
  intros Hr Hwf Hfit Hfull. pose proof Hr as [Ht Hc Hs Hfree Hp].
  destruct (Entry_image_Ret e Hwf) as (img & Ei & Hl & _).
  assert (Hslot : cc_entry_decriptor_tbl c !! cc_next_free_slot c = Some None).
  { destruct (lookup_lt_is_Some_2 _ _ Hs) as [[off|] E]; [|done]. destruct Hfull. by exists off. }
  set (data := take (cc_current_data_size c) (cc_data c) ++ img
                 ++ drop (cc_current_data_size c + length img) (cc_data c)).
  exists data. assert (Hlen : length data = length (cc_data c)) by (apply written_length; lia).
  split; [|split; [done|]].
  - unfold Content_push. apply Nat.ltb_lt in Hs as Hs'. rewrite Hs'.
    cbn [assert_that mbind outcome_bind]. rewrite (space_left_rep c es Hr). cbn [mbind outcome_bind].
    destruct (Nat.ltb_spec (length (cc_data c) - cc_current_data_size c) (Entry_size e)); [lia|].
    unfold usize_sub. destruct (Nat.leb_spec 1 (length (cc_entry_decriptor_tbl c))); [|lia].
    cbn [mbind outcome_bind]. rewrite (proj2 (slice_get_Ret _ _ _) Hslot). cbn [mbind outcome_bind].
    rewrite Ei. cbn [mbind outcome_bind]. rewrite write_at_Ret by lia. done.
  - split; cbn [pushed cc_total_size cc_data cc_current_data_size cc_next_free_slot cc_entry_decriptor_tbl].
    + by rewrite Hlen.
    + lia.
    + rewrite length_insert. lia.
    + intros i off Hi. rewrite length_insert.
      destruct (decide (i = cc_next_free_slot c)) as [->|Hne].
      * intros _. lia.
      * rewrite list_lookup_insert_ne by done. intros Hoff.
        destruct (Hfree i off) as [? _]; [lia|done|]. lia.
    + change (Content_entries_raw (pushed c e data)) with
        (omap id (<[cc_next_free_slot c := Some (cc_current_data_size c)]>
          (cc_entry_decriptor_tbl c))).
      rewrite omap_id_insert; [|done|].
      * rewrite <- (entry_trim_size e). apply packed_snoc with (cc_current_data_size c); [|done|].
        -- apply (packed_agree (cc_data c)); [by apply written_below; lia|done].
        -- apply written_stored; [done|done|lia].
      * intros j o Hj Hjo. destruct (Hfree j o) as [? _]; [lia|done|lia].
Qed.

Lemma push_none c es e :
  content_rep c es -> entry_wf e ->
  (length (cc_data c) < cc_current_data_size c + Entry_size e)%nat \/ table_full c ->
  Content_push c e = Ret (None, c).
Proof.
  intros Hr Hwf Hno. pose proof Hr as [Ht Hc Hs _ _]. unfold Content_push.
  apply Nat.ltb_lt in Hs as Hs'. rewrite Hs'. cbn [assert_that mbind outcome_bind].
  rewrite (space_left_rep c es Hr). cbn [mbind outcome_bind].
  destruct (Nat.ltb_spec (length (cc_data c) - cc_current_data_size c) (Entry_size e)); [done|].
  unfold usize_sub. destruct (Nat.leb_spec 1 (length (cc_entry_decriptor_tbl c))); [|lia].
  cbn [mbind outcome_bind].
  destruct Hno as [?|[off Hoff]]; [lia|]. by rewrite (proj2 (slice_get_Ret _ _ _) Hoff).
Qed.

(** ** [clear] and [consolidate] *)

Lemma fill_none_lookup (l : list (option nat)) i o :
  ((fun _ => None : option nat) <$> l) !! i = Some (Some o) -> False.
Proof. rewrite list_lookup_fmap. by destruct (l !! i). Qed.

Lemma clear_rep c es :
  content_rep c es -> content_rep (Content_clear c) [].
Proof.
  intros [Ht Hc Hs _ _]. split; cbn.
  - done.
  - lia.
  - rewrite length_fmap. lia.
  - intros i off _ Hi. by apply fill_none_lookup in Hi.
  - unfold Content_entries_raw. cbn. rewrite omap_id_none; [cbn; lia|].
    intros i off Hi. by apply fill_none_lookup in Hi.
Qed.

(** Compact content: the first slots are taken, the next one is the next free slot,
    and the data has no gaps. *)
Definition compact c es : Prop :=
  content_rep c es /\ cc_current_data_size c = sizes es /\
  cc_next_free_slot c = min (length es) (length (cc_entry_decriptor_tbl c) - 1) /\
  (forall i, (length es <= i)%nat -> forall off, cc_entry_decriptor_tbl c !! i <> Some (Some off)).

Lemma sizes_app es es' : sizes (es ++ es') = (sizes es + sizes es')%nat.
Proof. unfold sizes. by rewrite fmap_app, sum_list_with_app. Qed.

Lemma sizes_cons e es : sizes (e :: es) = (Entry_size e + sizes es)%nat.
Proof. done. Qed.

Lemma push_all_compact es2 c es1 :
  compact c es1 -> Forall (fun e => entry_wf e /\ entry_trim e = e) es2 ->
  (sizes es1 + sizes es2 <= length (cc_data c))%nat ->
  (length es1 + length es2 <= length (cc_entry_decriptor_tbl c))%nat ->
  exists c', Content_push_all c es2 = Ret c' /\ compact c' (es1 ++ es2) /\
    length (cc_data c') = length (cc_data c) /\
    cc_pending_deletions c' = cc_pending_deletions c /\
    (cc_invalidate c = true -> cc_invalidate c' = true) /\
    length (cc_entry_decriptor_tbl c') = length (cc_entry_decriptor_tbl c).
Proof using EntryLayoutLaws0.
  revert c es1. induction es2 as [|e es2 IH]; intros c es1 Hcomp Hwf Hsz Hlen.
  - exists c. by rewrite app_nil_r.
  - pose proof Hcomp as (Hr & Hcur & Hnfs & Hnone). inversion Hwf as [|?? [He Htrim] Hwf']; subst.
    rewrite sizes_cons in Hsz. cbn [length] in Hlen.
    assert (Hfull : ~ table_full c).
    { intros [off Hoff]. rewrite Hnfs in Hoff. eapply Hnone; [|exact Hoff]. lia. }
    destruct (push_rep c es1 e Hr He) as (data & Ep & Hd & Hr'); [lia|done|].
    cbn [Content_push_all]. rewrite Ep. cbn [mbind outcome_bind snd].
    destruct (IH (pushed c e data) (es1 ++ [e])) as (c' & Ec & Hc' & Hd' & Hp' & Hi' & Hl').
    + split; [by rewrite Htrim in Hr'|]. cbn. rewrite length_insert, length_app, sizes_app. cbn.
      split; [unfold sizes; cbn; unfold sizes in Hcur; lia|]. split; [lia|].
      intros i Hi off. rewrite list_lookup_insert_ne by lia. apply Hnone. lia.
    + done.
    + cbn. rewrite Hd, sizes_app. unfold sizes in *. cbn. lia.
    + cbn. rewrite length_insert, length_app. cbn. lia.
    + exists c'. rewrite <- app_assoc in Hc'. cbn in Hd', Hp', Hl', Hi'.
      split; [exact Ec|]. split; [exact Hc'|]. split; [lia|]. split; [done|]. split; [auto|].
      by rewrite length_insert in Hl'.
Qed.

Lemma clone_into_box_Ret e : entry_wf e -> Entry_clone_into_box e = Ret (entry_trim e).
Proof using EntryLayoutLaws0.
  intros He. unfold Entry_clone_into_box.
  destruct (Entry_image_Ret e He) as (img & -> & _ & Hread). cbn [mbind outcome_bind].
  specialize (Hread []). rewrite app_nil_r in Hread. by rewrite Hread.
Qed.

(** A run of pushes for which the slots and the memory suffice. *)
Lemma push_all_rep es2 c es1 :
  content_rep c es1 -> Forall entry_wf es2 ->
  (cc_current_data_size c + sizes es2 <= length (cc_data c))%nat ->
  (cc_next_free_slot c + length es2 < length (cc_entry_decriptor_tbl c))%nat ->
  exists c', Content_push_all c es2 = Ret c' /\ content_rep c' (es1 ++ (entry_trim <$> es2)) /\
    length (cc_data c') = length (cc_data c) /\
    length (cc_entry_decriptor_tbl c') = length (cc_entry_decriptor_tbl c).
Proof using EntryLayoutLaws0.
  revert c es1. induction es2 as [|e es2 IH]; intros c es1 Hr Hwf Hsz Hlen.
  - exists c. by rewrite app_nil_r.
  - inversion Hwf as [|?? He Hwf']; subst. rewrite sizes_cons in Hsz. cbn [length] in Hlen.
    assert (Hfull : ~ table_full c).
    { intros [off Hoff]. apply (cr_free _ _ Hr) in Hoff as [_ ?]; lia. }
    destruct (push_rep c es1 e Hr He) as (data & Ep & Hd & Hr'); [lia|done|].
    cbn [Content_push_all]. rewrite Ep. cbn [mbind outcome_bind snd].
    destruct (IH (pushed c e data) (es1 ++ [entry_trim e])) as (c' & Ec & Hc' & Hd' & Hl').
    + done.
    + done.
    + cbn. rewrite Hd. unfold sizes in *. lia.
    + cbn. rewrite length_insert. lia.
    + exists c'. rewrite <- app_assoc in Hc'. cbn in Hd', Hl'. rewrite length_insert in Hl'.
      split; [exact Ec|]. split; [exact Hc'|]. split; [lia|done].
Qed.

Lemma map_clone es :
  Forall (fun e => entry_wf e /\ entry_trim e = e) es ->
  map_outcome Entry_clone_into_box es = Ret es.
Proof using EntryLayoutLaws0.
  induction 1 as [|e es [He Ht] Hes IH]; [done|]. cbn [map_outcome].
  rewrite clone_into_box_Ret, Ht by done. cbn [mbind outcome_bind]. by rewrite IH.
Qed.

Lemma consolidate_compact c es :
  content_rep c es ->
  exists c', Content_consolidate c = Ret c' /\ compact c' es /\
    length (cc_data c') = length (cc_data c) /\ cc_invalidate c' = true /\
    cc_pending_deletions c' = cc_pending_deletions c /\
    length (cc_entry_decriptor_tbl c') = length (cc_entry_decriptor_tbl c).
Proof using EntryLayoutLaws0.
  intros Hr. pose proof Hr as [Ht Hc Hs _ Hp]. unfold Content_consolidate.
  rewrite (content_entries_rep c es Hr), map_clone by (by eapply packed_stored).
  cbn [mbind outcome_bind].
  destruct (push_all_compact es (Content_clear c) []) as (c' & E & Hc' & Hd & Hpd & Hi & Hl).
  - split; [by eapply clear_rep|]. cbn. split; [done|]. split; [done|].
    intros i _ off Hi. by apply fill_none_lookup in Hi.
  - by eapply packed_stored.
  - apply packed_le in Hp. cbn. unfold sizes in *. cbn in *. lia.
  - cbn. rewrite length_fmap, <- (packed_length _ _ _ _ _ Hp). apply omap_id_length.
  - exists c'. cbn in *. rewrite length_fmap in Hl. auto 10.
Qed.

(** ** [remove] *)

(** The list without the first entry that has the id. *)
Fixpoint remove_id (id : Z) (es : list MutationCacheEntry) : option (list MutationCacheEntry) :=
  match es with
  | [] => None
  | e :: es => if Entry_id e =? id then Some es else (e ::.) <$> remove_id id es
  end.

Lemma remove_id_app id es1 e es2 :
  Forall (fun e => Entry_id e <> id) es1 -> Entry_id e = id ->
  remove_id id (es1 ++ e :: es2) = Some (es1 ++ es2).
Proof.
  intros H1 He. induction H1 as [|e1 es1 Hne H1 IH]; cbn [app remove_id].
  - apply Z.eqb_eq in He. by rewrite He.
  - apply Z.eqb_neq in Hne. by rewrite Hne, IH.
Qed.

Lemma remove_id_none id es :
  Forall (fun e => Entry_id e <> id) es -> remove_id id es = None.
Proof.
  induction 1 as [|e es Hne He IH]; cbn [remove_id]; [done|].
  apply Z.eqb_neq in Hne. by rewrite Hne, IH.
Qed.

Lemma find_slot_spec c site tbl k :
  match find_slot c site k tbl with
  | Some idx => (k <= idx)%nat /\ exists off, tbl !! (idx - k)%nat = Some (Some off) /\
      Entry_id (entry_ref c off) = site /\
      Forall (fun off => Entry_id (entry_ref c off) <> site) (omap id (take (idx - k) tbl))
  | None => Forall (fun off => Entry_id (entry_ref c off) <> site) (omap id tbl)
  end.
Proof.
  revert k. induction tbl as [|[off|] tbl IH]; intros k; cbn [find_slot]; [constructor| |].
  - destruct (Z.eqb_spec (Entry_id (entry_ref c off)) site) as [He|He].
    + split; [lia|]. exists off. rewrite Nat.sub_diag. split; [done|]. split; [done|]. constructor.
    + specialize (IH (S k)). destruct (find_slot c site (S k) tbl) as [idx|].
      * destruct IH as (Hk & off' & Hl & Hid & Hall). split; [lia|]. exists off'.
        replace (idx - k)%nat with (S (idx - S k)) by lia. cbn. auto.
      * cbn. by constructor.
  - specialize (IH (S k)). destruct (find_slot c site (S k) tbl) as [idx|]; [|done].
    destruct IH as (Hk & off' & Hl & Hid & Hall). split; [lia|]. exists off'.
    replace (idx - k)%nat with (S (idx - S k)) by lia. cbn. auto.
Qed.

(** The next free slot is behind the entries. *)
Lemma rep_slots c es :
  content_rep c es ->
  (min (length es) (length (cc_entry_decriptor_tbl c) - 1) <= cc_next_free_slot c)%nat.
Proof.
  intros [_ _ Hs Hfree Hp]. apply packed_length in Hp. unfold Content_entries_raw in Hp.
  destruct (decide (table_full c)) as [[off Hoff]|Hfull].
  - apply Hfree in Hoff as [_ ?]; lia.
  - assert (Hn : omap id (drop (cc_next_free_slot c) (cc_entry_decriptor_tbl c)) = []).
    { apply omap_id_none. intros i off. rewrite lookup_drop. intros Hi.
      destruct (Hfree (cc_next_free_slot c + i)%nat off) as [E _]; [lia|done|].
      apply Hfull. exists off. by rewrite <- E. }
    rewrite <- (take_drop (cc_next_free_slot c) (cc_entry_decriptor_tbl c)), omap_app, Hn,
      app_nil_r in Hp.
    pose proof (omap_id_length (take (cc_next_free_slot c) (cc_entry_decriptor_tbl c))) as Hl.
    rewrite length_take in Hl. lia.
Qed.

Lemma remove_rep c es site :
  content_rep c es ->
  match remove_id site es with
  | Some es' => exists c', Content_remove c site = Ret c' /\ content_rep c' es' /\
      cc_invalidate c' = true /\ length (cc_data c') = length (cc_data c) /\
      length (cc_entry_decriptor_tbl c') = length (cc_entry_decriptor_tbl c) /\
      (cc_next_free_slot c' <= cc_next_free_slot c)%nat /\
      (cc_current_data_size c' <= cc_current_data_size c)%nat
  | None => Content_remove c site = Panic
  end.
Proof using EntryLayoutLaws0.
  intros Hr. pose proof Hr as [Ht Hc Hs Hfree Hp].
  pose proof (content_entries_rep c es Hr) as Hes.
  pose proof (find_slot_spec c site (cc_entry_decriptor_tbl c) 0) as Hfind. unfold Content_remove.
  destruct (find_slot c site 0 (cc_entry_decriptor_tbl c)) as [idx|].
  - destruct Hfind as (_ & off & Hoff & Hid & Hall). rewrite Nat.sub_0_r in *.
    destruct (omap_id_delete _ _ _ Hoff) as (o1 & o2 & E1 & E2 & E3).
    rewrite <- E3 in Hall.
    assert (Hsplit : es = (entry_ref c <$> o1) ++ entry_ref c off :: (entry_ref c <$> o2)).
    { rewrite <- Hes. unfold Content_entries, Content_entries_raw. rewrite E1.
      by rewrite fmap_app. }
    rewrite Hsplit, remove_id_app; [|by apply Forall_fmap|done].
    rewrite slice_set_lt by (by eapply lookup_lt_Some). cbn [mbind outcome_bind].
    set (c0 := fun pending => mk_content (cc_total_size c) (cc_current_data_size c)
       (cc_next_free_slot c) pending true (<[idx := None]> (cc_entry_decriptor_tbl c)) (cc_data c)).
    assert (Hr0 : forall n, content_rep (c0 n) ((entry_ref c <$> o1) ++ (entry_ref c <$> o2))).
    { intros n. split; cbn; [done|done|by rewrite length_insert| |].
      - intros i o Hi Hio. rewrite length_insert. apply (Hfree i o Hi).
        destruct (decide (i = idx)) as [->|Hne].
        + rewrite list_lookup_insert_eq in Hio by (by eapply lookup_lt_Some). done.
        + by rewrite list_lookup_insert_ne in Hio by done.
      - unfold Content_entries_raw. cbn. rewrite E2.
        apply (packed_remove _ _ _ _ off _ _ (entry_ref c off)); [by rewrite length_fmap|].
        rewrite <- Hsplit, <- E1. exact Hp. }
    destruct (PENDING_DELETIONS_LIMIT <? S (cc_pending_deletions c))%nat.
    + destruct (consolidate_compact _ _ (Hr0 0%nat)) as (c' & E & (Hc' & Hcur & Hnfs & _) & Hl & Hi & _ & Htl).
      pose proof (rep_slots _ _ (Hr0 0%nat)) as Hsl.
      pose proof (packed_le _ _ _ _ _ (cr_packed _ _ (Hr0 0%nat))) as Hsz.
      exists c'. cbn in Hl, Htl, Hsl, Hsz. rewrite Htl in Hnfs.
      rewrite length_insert in Htl, Hsl, Hnfs. do 5 (split; [done|]). lia.
    + eexists. split; [reflexivity|]. split; [apply Hr0|]. cbn. by rewrite length_insert.
  - rewrite remove_id_none; [done|]. rewrite <- Hes. by apply Forall_fmap.
Qed.

(** ** Updates in place *)

(** [f] keeps the size of an entry. *)
Definition in_place (f : MutationCacheEntry -> MutationCacheEntry) : Prop :=
  forall e, entry_wf e -> entry_trim e = e ->
    entry_wf (f e) /\ entry_trim (f e) = f e /\ Entry_size (f e) = Entry_size e.

Lemma stored_slice data data' off e :
  take (Entry_size e) (drop off data) = take (Entry_size e) (drop off data') ->
  stored data off e -> stored data' off e.
Proof. intros E (Hw & Ht & Hi). split; [done|]. split; [done|]. by rewrite Hi, E. Qed.

Lemma written_above (data bytes : list Z) off k :
  (off + length bytes <= k)%nat -> (off + length bytes <= length data)%nat ->
  drop k (take off data ++ bytes ++ drop (off + length bytes) data) = drop k data.
Proof.
  intros Hk Hl. rewrite app_assoc. rewrite drop_app_ge by (rewrite length_app, length_take; lia).
  rewrite drop_drop. f_equal. rewrite length_app, length_take. lia.
Qed.

Lemma packed_above data data' k lo hi offs es :
  (forall off, (k <= off)%nat -> drop off data = drop off data') -> (k <= lo)%nat ->
  packed data lo hi offs es -> packed data' lo hi offs es.
Proof.
  intros Hd. revert lo es. induction offs as [|off offs IH]; intros lo [|e es] Hlo; cbn; try done.
  intros (Hle & Hst & Hp). split; [done|]. split.
  - apply (stored_slice data); [|done]. by rewrite Hd by lia.
  - apply IH; [lia|done].
Qed.

Lemma packed_update data lo hi offs1 off offs2 es1 e es2 e' img :
  (hi <= length data)%nat -> length offs1 = length es1 ->
  packed data lo hi (offs1 ++ off :: offs2) (es1 ++ e :: es2) ->
  entry_wf e' -> entry_trim e' = e' -> Entry_size e' = Entry_size e -> Entry_image e' = Ret img ->
  packed (take off data ++ img ++ drop (off + length img) data) lo hi
    (offs1 ++ off :: offs2) (es1 ++ e' :: es2).
Proof using EntryLayoutLaws0.
  intros Hhi Hl Hp Hw Ht Hsz Himg.
  destruct (Entry_image_Ret e' Hw) as (img' & Ei & Hil & _). rewrite Himg in Ei. injection Ei as <-.
  revert lo es1 Hl Hp. induction offs1 as [|o offs1 IH]; intros lo [|e1 es1] Hl; cbn in Hl; try done; cbn.
  - intros (Hlo & Hst & Hp). pose proof (packed_le _ _ _ _ _ Hp).
    split; [done|]. split.
    + rewrite <- Ht. apply written_stored; [done|done|lia].
    + rewrite Hsz. apply (packed_above data _ (off + Entry_size e)); [|lia|done].
      intros o Ho. rewrite written_above by lia. done.
  - intros (Hlo & Hst & Hp). split; [done|].
    assert (Hup : (o + Entry_size e1 <= off)%nat /\ (off + Entry_size e <= hi)%nat).
    { clear -Hp Hl. remember (o + Entry_size e1)%nat as l0. clear Heql0.
      revert l0 es1 Hl Hp. induction offs1 as [|o1 offs1 IH]; intros l0 [|x es1] Hl; cbn in Hl; try done; cbn.
      - intros (? & _ & Hp). apply packed_le in Hp. lia.
      - intros (? & _ & Hp). apply IH in Hp; [lia|lia]. }
    split; [|apply IH; [lia|done]].
    apply (stored_agree data _ off); [apply written_below; lia|lia|done].
Qed.

Lemma entries_mut_fold f data lo hi offs1 offs2 es1 es2 :
  in_place f -> (hi <= length data)%nat -> length offs1 = length es1 ->
  packed data lo hi (offs1 ++ offs2) (es1 ++ es2) ->
  exists data', foldl (fun acc off =>
      data ← acc;
      img ← Entry_image (f (Entry_read (drop off data)));
      write_at data off img) (Ret data) offs2 = Ret data' /\
    length data' = length data /\ packed data' lo hi (offs1 ++ offs2) (es1 ++ (f <$> es2)).
Proof using EntryLayoutLaws0.
  intros Hf. revert data offs1 es1 es2.
  induction offs2 as [|off offs2 IH]; intros data offs1 es1 es2 Hhi Hl Hp.
  - assert (es2 = []) as ->.
    { apply packed_length in Hp. rewrite !length_app in Hp. destruct es2; [done|cbn in Hp; lia]. }
    by exists data.
  - destruct es2 as [|e es2].
    { apply packed_length in Hp. rewrite !length_app in Hp. cbn in Hp. lia. }
    cbn [foldl mbind outcome_bind].
    pose proof Hp as Hst. apply packed_entries in Hst. rewrite fmap_app in Hst.
    apply app_inj_1 in Hst as [_ Hst]; [|by rewrite length_fmap]. cbn in Hst. injection Hst as He _.
    rewrite He. pose proof (packed_stored _ _ _ _ _ Hp) as Hall.
    apply Forall_app in Hall as [_ Hall]. inversion Hall as [|?? [Hw Ht] _]; subst.
    destruct (Hf _ Hw Ht) as (Hw' & Ht' & Hsz).
    destruct (Entry_image_Ret _ Hw') as (img & Ei & Hil & _). rewrite Ei. cbn [mbind outcome_bind].
    assert (Hfit : (off + length img <= length data)%nat).
    { rewrite Hil, Hsz. clear -Hp Hl Hhi.
      revert lo es1 Hl Hp. induction offs1 as [|o1 offs1 IH]; intros lo [|x es1] Hl; cbn in Hl; try done; cbn.
      - intros (? & _ & Hp). apply packed_le in Hp. lia.
      - intros (? & _ & Hp). apply IH in Hp; [lia|lia]. }
    rewrite write_at_Ret by done.
    pose proof (packed_update _ _ _ _ _ _ _ _ _ _ img Hhi Hl Hp Hw' Ht' Hsz Ei) as Hp'.
    destruct (IH (take off data ++ img ++ drop (off + length img) data) (offs1 ++ [off]) (es1 ++ [f (Entry_read (drop off data))]) es2) as (data' & E & Hd & Hp'').
    + rewrite written_length by done. done.
    + rewrite !length_app. cbn. lia.
    + rewrite <- !app_assoc. exact Hp'.
    + exists data'. split; [exact E|]. rewrite written_length in Hd by done. split; [done|].
      rewrite <- !app_assoc in Hp''. exact Hp''.
Qed.

Lemma entries_mut_rep c es f :
  content_rep c es -> in_place f ->
  exists c', Content_entries_mut c f = Ret c' /\ content_rep c' (f <$> es) /\
    cc_current_data_size c' = cc_current_data_size c /\
    length (cc_entry_decriptor_tbl c') = length (cc_entry_decriptor_tbl c) /\
    cc_total_size c' = cc_total_size c.
Proof using EntryLayoutLaws0.
  intros [Ht Hc Hs Hfree Hp] Hf. unfold Content_entries_mut.
  destruct (entries_mut_fold f (cc_data c) 0 (cc_current_data_size c) [] (Content_entries_raw c) [] es)
    as (data & E & Hd & Hp'); [done|done|done|done|].
  unfold mret, outcome_ret. rewrite E. cbn [mbind outcome_bind].
  eexists. split; [reflexivity|]. split; [|done].
  split; cbn; rewrite ?Hd; done.
Qed.

Lemma set_flags_in_place (g : Z -> Z) :
  (forall z, byte_ok z -> byte_ok (g z)) -> in_place (fun e => with_flags e (g (Entry_flags e))).
Proof.
  intros Hg e [[] Ha] Ht. split; [|split; [|done]].
  - split; [|done]. split; cbn; try done. by apply Hg.
  - assert (Htail : take (Entry_size e - meta_size) (e_tail e) = e_tail e).
    { rewrite <- Ht at 3. done. }
    unfold entry_trim, with_flags at 1. cbn [e_tail e_metadata].
    unfold with_flags. f_equal. exact Htail.
Qed.

(** ** The refinement of lists of entries *)

(** C17: [push] appends.  On a content that stands for [es], with [n] bytes of space left, it
    accepts the entry exactly when the entry fits and the slot it would use is free: then it
    returns the place of the new entry and leaves a content standing for [es] with the
    entry at the end, using [size()] more bytes.  Otherwise it returns [None] and
    changes nothing.  It never panics, and only the last slot of the table is ever
    found taken. *)
Theorem content_push_appends c es e :
  content_rep c es -> entry_wf e ->
  exists n slot, Content_space_left c = Ret n /\ cc_entry_decriptor_tbl c !! cc_next_free_slot c = Some slot /\
  match slot with
  | None => if decide (Entry_size e <= n)%nat
      then exists c', Content_push c e = Ret (Some (cc_current_data_size c), c') /\
        content_rep c' (es ++ [entry_trim e]) /\
        cc_current_data_size c' = (cc_current_data_size c + Entry_size e)%nat /\
        cc_invalidate c' = true /\ Content_entries c' = es ++ [entry_trim e]
      else Content_push c e = Ret (None, c)
  | Some _ => Content_push c e = Ret (None, c) /\ S (cc_next_free_slot c) = length (cc_entry_decriptor_tbl c)
  end.
Proof.
  intros Hr Hwf. pose proof (cr_current _ _ Hr). destruct (lookup_lt_is_Some_2 _ _ (cr_slot _ _ Hr)) as [slot Hslot].
  eexists _, slot. split; [by apply (space_left_rep c es)|]. split; [done|]. destruct slot as [off|].
  - split; [apply (push_none c es); [done|done|right; by exists off]|]. by apply (cr_free _ _ Hr) in Hslot as [_ ?].
  - case_decide as Hfit; [|apply (push_none c es); [done|done|left; lia]].
    assert (Hfull : ~ table_full c) by (intros [off Hoff]; congruence).
    destruct (push_rep c es e Hr Hwf ltac:(lia) Hfull) as (data & E & _ & Hr').
    exists (pushed c e data). do 4 (split; [done|]). by apply content_entries_rep.
Qed.

(** C29: [remove] deletes the first entry with the id, consolidating the memory after
    every 500 deletions; the content then stands for the list without that entry.
    It panics exactly when no entry has the id. *)
Theorem content_remove_deletes c es site :
  content_rep c es ->
  match remove_id site es with
  | Some es' => exists c', Content_remove c site = Ret c' /\ content_rep c' es' /\
      cc_invalidate c' = true /\ Content_entries c' = es'
  | None => Content_remove c site = Panic
  end.
Proof.
  intros Hr. pose proof (remove_rep c es site Hr) as Hrem.
  destruct (remove_id site es) as [es'|]; [|done].
  destruct Hrem as (c' & E & Hr' & Hi & _). exists c'. do 3 (split; [done|]).
  by apply content_entries_rep.
Qed.

(** [consolidate] keeps the entries and their order and removes all gaps: the data
    is exactly as long as the entries, the free slots are the ones behind them, so
    a push fails afterwards only if the entry does not fit or every slot is in use. *)
Theorem content_consolidate_compacts c es :
  content_rep c es ->
  exists c', Content_consolidate c = Ret c' /\ Content_entries c' = es /\ content_rep c' es /\
    cc_current_data_size c' = sum_list (Entry_size <$> es) /\
    (cc_current_data_size c' <= cc_current_data_size c)%nat /\
    forall e, entry_wf e -> (length es < length (cc_entry_decriptor_tbl c))%nat ->
      (sum_list (Entry_size <$> es) + Entry_size e <= length (cc_data c))%nat ->
      exists c'' off, Content_push c' e = Ret (Some off, c'').
Proof.
  intros Hr. destruct (consolidate_compact c es Hr) as (c' & E & (Hr' & Hcur & Hnfs & Hnone) & Hd & _ & _ & Htl).
  exists c'. split; [done|]. split; [by apply content_entries_rep|]. split; [done|]. split; [done|].
  split; [rewrite Hcur; apply (packed_le _ 0 _ _ _ (cr_packed _ _ Hr))|].
  intros e Hwf Hlen Hsz. destruct (push_rep c' es e Hr' Hwf) as (data & Ep & _).
  - rewrite Hcur, Hd. unfold sizes. lia.
  - intros [off Hoff]. apply (Hnone (cc_next_free_slot c')) in Hoff; [done|]. lia.
  - by eexists _, _.
Qed.

(** Updating the entries in place, as the flag setters of the cache do, changes
    exactly the entries: for every update that keeps the size of an entry, the
    content stands afterwards for the updated list; no entry overlaps another. *)
Theorem content_update_in_place c es f :
  content_rep c es -> in_place f ->
  exists c', Content_entries_mut c f = Ret c' /\ content_rep c' (f <$> es) /\
    Content_entries c' = f <$> Content_entries c.
Proof.
  intros Hr Hf. destruct (entries_mut_rep c es f Hr Hf) as (c' & E & Hr' & _).
  exists c'. split; [done|]. split; [done|].
  rewrite (content_entries_rep c es Hr). by apply content_entries_rep.
Qed.

(** A push can be refused although the memory has room and slots are free: the
    table only grows towards its last slot, so once that one is used, slots freed
    before it are not reused until a consolidation. *)
Theorem content_push_ignores_holes c es e :
  content_rep c es -> entry_wf e -> table_full c ->
  Content_push c e = Ret (None, c) /\
  (exists c', Content_consolidate c = Ret c' /\
     ((length es < length (cc_entry_decriptor_tbl c))%nat -> ~ table_full c')).
Proof.
  intros Hr Hwf Hfull. split; [apply (push_none c es); auto|].
  destruct (consolidate_compact c es Hr) as (c' & E & (Hr' & _ & Hnfs & Hnone) & _ & _ & _ & Htl).
  exists c'. split; [done|]. intros Hlen [off Hoff]. apply Hnone in Hoff; [done|]. lia.
Qed.
End content_lemmas.

Lemma init_rep `{L : EntryLayout} `{CL : ContentLayout} c size c' :
  Content_init c size = Ret c' -> size = (content_header_size + length (cc_data c))%nat ->
  (0 < length (cc_entry_decriptor_tbl c))%nat -> content_rep c' [].
Proof.
  intros E Hsz Htbl. unfold Content_init, assert_that in E.
  destruct (content_header_size <=? size)%nat; [|done]. injection E as <-. split; cbn.
  - done.
  - lia.
  - by rewrite length_fmap.
  - intros i off _ Hi. by apply fill_none_lookup in Hi.
  - unfold Content_entries_raw. cbn. rewrite omap_id_none; [cbn; lia|].
    intros i off Hi. by apply fill_none_lookup in Hi.
Qed.

(** ** Witnesses *)

#[local] Existing Instance demo_stackmap.
#[local] Existing Instance demo_layout.
#[local] Existing Instance demo_layout_laws.

#[local] Instance demo_content_layout : ContentLayout := 40%nat.

Definition demo_content : MutationCacheContent :=
  mk_content 440 0 0 0 false (replicate 3 None) (replicate 400 0).

Lemma demo_content_rep : content_rep demo_content [].
Proof. by apply (init_rep demo_content 440); [| |cbn; lia]. Qed.

Lemma content_push_appends_witness :
  exists c', Content_push demo_content (demo_entry 7 [1; 2; 3]) = Ret (Some 0%nat, c') /\
    (length (Content_entries c') = 1)%nat.
Proof.
  assert (Hwf : entry_wf (demo_entry 7 [1; 2; 3])) by (by apply demo_entry_wf; [|cbn; lia]).
  destruct (content_push_appends demo_content [] (demo_entry 7 [1; 2; 3]) demo_content_rep Hwf) as (n & slot & En & Es & H).
  vm_compute in En. injection En as <-. cbn in Es. injection Es as <-. rewrite decide_True in H by (apply Nat.leb_le; vm_compute; reflexivity).
  destruct H as (c' & E & _ & _ & _ & He). exists c'. split; [exact E|]. by rewrite He.
Defined.

(** A content with one entry. *)
Lemma demo_content_one :
  exists c, content_rep c [entry_trim (demo_entry 7 [1; 2; 3])] /\
    (length (cc_entry_decriptor_tbl c) = 3)%nat.
Proof.
  destruct (push_rep demo_content [] (demo_entry 7 [1; 2; 3])) as (data & _ & _ & Hr).
  - apply demo_content_rep.
  - by apply demo_entry_wf; [|cbn; lia].
  - vm_compute. lia.
  - by intros [off [=]].
  - by eexists.
Qed.

Lemma content_remove_deletes_witness :
  exists c c', Content_remove c 7 = Ret c' /\ Content_entries c' = [] /\
    Content_remove c' 7 = Panic.
Proof.
  destruct demo_content_one as (c & Hr & _).
  destruct (content_remove_deletes c _ 7 Hr) as (c' & E & Hr' & _ & He).
  exists c, c'. split; [done|]. split; [done|]. exact (content_remove_deletes c' [] 7 Hr').
Defined.
