(* ===== verification/MutationCache.v ===== *)
(** * [MutationCache]: the set of mutations of a run

    Models [fuzztruction_shared/src/mutation_cache.rs]: the operations a cache offers
    on top of its content, the filters ([retain] and its users), the union, the
    flag setters and the byte images used to store and transfer a cache.  A byte
    image is the header struct followed by the used part of the data, so it is
    modelled as a [MutationCacheContent] whose [cc_data] ends with the used bytes.
    The shared-memory back end ([shm_open], [make_private]) is system calls only. *)

From S2P Require Import Prelude Bytes MutationCacheEntry MutationCacheContent.

Inductive Memory :=
| ShmMemory (name : string) (shm_fd : Z)
| HeapMemory.

Inductive MutationCacheError := CacheOverflow.

Record MutationCache := mk_cache {
  mc_backing_memory : Memory;
  mc_content_size : nat;
  mc_content : MutationCacheContent;
}.

Definition MUTATION_CACHE_DEFAULT_SIZE : Z := 256 * 1024 * 1024.

Section cache.
Context `{L : EntryLayout} `{CL : ContentLayout}.
Implicit Types mc : MutationCache.
Implicit Types e : MutationCacheEntry.

Definition with_content mc c : MutationCache :=
  mk_cache (mc_backing_memory mc) (mc_content_size mc) c.

(** A zeroed heap region of [size] bytes with a table of [slots] descriptors. *)
Definition MutationCache_new_sized (size slots : nat) : outcome MutationCache :=
  _ ← assert_that (content_header_size <? size)%nat;
  c ← Content_init (mk_content 0 0 0 0 false (replicate slots None)
                      (replicate (size - content_header_size) 0)) size;
  mret (mk_cache HeapMemory size c).

Definition MutationCache_new : outcome MutationCache :=
  MutationCache_new_sized (Z.to_nat MUTATION_CACHE_DEFAULT_SIZE)
    (Z.to_nat MAX_MUTATION_CACHE_ENTRIES).

Definition MutationCache_shm_name mc : option string :=
  match mc_backing_memory mc with ShmMemory name _ => Some name | HeapMemory => None end.

Definition MutationCache_total_size mc : nat := mc_content_size mc.
Definition MutationCache_bytes_used mc : nat := Content_total_used_bytes (mc_content mc).
Definition MutationCache_entries mc : list MutationCacheEntry := Content_entries (mc_content mc).

Definition MutationCache_push mc e : outcome (option nat * MutationCache) :=
  r ← Content_push (mc_content mc) e; mret (r.1, with_content mc r.2).

Definition MutationCache_remove mc (id : Z) : outcome MutationCache :=
  c ← Content_remove (mc_content mc) id; mret (with_content mc c).

Definition MutationCache_clear mc : MutationCache :=
  with_content mc (Content_clear (mc_content mc)).

Definition MutationCache_len mc : nat := length (MutationCache_entries mc).

(** ** Byte images *)

Definition image_length (img : MutationCacheContent) : nat :=
  (content_header_size + length (cc_data img))%nat.

(** The header is overwritten, the data up to the end of the image. *)
Definition MutationCache_load_bytes mc (img : MutationCacheContent) : outcome MutationCache :=
  _ ← assert_that (image_length img <=? mc_content_size mc)%nat;
  let c := mk_content (cc_total_size img) (cc_current_data_size img) (cc_next_free_slot img)
             (cc_pending_deletions img) (cc_invalidate img) (cc_entry_decriptor_tbl img)
             (cc_data img ++ drop (length (cc_data img)) (cc_data (mc_content mc))) in
  mret (with_content mc (Content_update c (mc_content_size mc))).

(** [content_slice()[0..total_used_bytes()]] *)
Definition used_image mc : outcome MutationCacheContent :=
  let c := mc_content mc in
  _ ← assert_that (Content_total_used_bytes c <=? mc_content_size mc)%nat;
  mret (with_cache_data c (take (cc_current_data_size c) (cc_data c))).

Definition MutationCache_save_bytes mc : outcome (MutationCacheContent * MutationCache) :=
  c ← Content_consolidate (mc_content mc);
  img ← used_image (with_content mc c);
  mret (img, with_content mc c).

Definition MutationCache_save_bytes_unconsolidated mc : outcome MutationCacheContent :=
  used_image mc.

(** [new()] followed by a load of the whole region. *)
Definition MutationCache_try_clone mc (new_cache : outcome MutationCache) : outcome MutationCache :=
  ret ← new_cache; MutationCache_load_bytes ret (mc_content mc).

Definition MutationCache_replace_content mc other
    : outcome (result MutationCacheError MutationCache) :=
  if (mc_content_size mc <? mc_content_size other)%nat then mret (Err CacheOverflow)
  else
    let o := mc_content other in
    let c := mk_content (cc_total_size o) (cc_current_data_size o) (cc_next_free_slot o)
               (cc_pending_deletions o) (cc_invalidate o) (cc_entry_decriptor_tbl o)
               (cc_data o ++ drop (length (cc_data o)) (cc_data (mc_content mc))) in
    mret (Ok (with_content mc (Content_update c (mc_content_size mc)))).

(** ** Filters *)

Fixpoint remove_all mc (ids : list Z) : outcome MutationCache :=
  match ids with
  | [] => mret mc
  | id :: ids => mc ← MutationCache_remove mc id; remove_all mc ids
  end.

Definition MutationCache_retain_whitelisted mc (whitelist : list Z) : outcome MutationCache :=
  let remove := Entry_id <$> List.filter (fun e => negb (bool_decide (Entry_id e ∈ whitelist)))
                               (MutationCache_entries mc) in
  remove_all mc remove.

(** [Vec::retain] with a closure that carries state *)
Fixpoint vec_retain {St} (f : St -> MutationCacheEntry -> bool * St) (st : St)
    (es : list MutationCacheEntry) : list MutationCacheEntry :=
  match es with
  | [] => []
  | e :: es => let r := f st e in
               if r.1 then e :: vec_retain f r.2 es else vec_retain f r.2 es
  end.

Definition MutationCache_retain {St} mc (f : St -> MutationCacheEntry -> bool * St) (st : St)
    : outcome MutationCache :=
  let wl := Entry_id <$> vec_retain f st (MutationCache_entries mc) in
  mc ← MutationCache_retain_whitelisted mc wl;
  _ ← assert_that (MutationCache_len mc =? length wl)%nat;
  mret mc.

(** A closure without state *)
Definition stateless (f : MutationCacheEntry -> bool) (_ : unit) e : bool * unit := (f e, tt).

Definition MutationCache_purge_nop_entries mc : outcome MutationCache :=
  let keep e := (0 <? Entry_msk_len e)%nat &&
                existsb (fun b => negb (b =? 0)) (Entry_get_msk_as_slice e) in
  MutationCache_retain mc (stateless keep) tt.

Definition MutationCache_limit mc (max : nat) : outcome MutationCache :=
  MutationCache_retain mc (fun limit _ =>
    if (0 <? limit)%nat then (true, limit - 1)%nat else (false, limit)) max.

Definition MutationCache_remove_by_location_type mc (t : LocationType) : outcome MutationCache :=
  MutationCache_retain mc (stateless (fun e => negb (bool_decide (loc_type (Entry_spill_slot e) = t)))) tt.

Definition MutationCache_remove_const_type mc : outcome MutationCache :=
  MutationCache_remove_by_location_type mc LocationType_Constant.

Definition push_entries mc (es : list MutationCacheEntry) : outcome MutationCache :=
  c ← Content_push_all (mc_content mc) es; mret (with_content mc c).

Definition MutationCache_union_and_replace mc other : outcome MutationCache :=
  let other_ids := Entry_id <$> MutationCache_entries other in
  mc ← MutationCache_retain mc (stateless (fun e => negb (bool_decide (Entry_id e ∈ other_ids)))) tt;
  push_entries mc (MutationCache_entries other).

Definition MutationCache_from_iter (new_cache : outcome MutationCache)
    (iter : list MutationCacheEntry) : outcome MutationCache :=
  ret ← new_cache; push_entries ret iter.

(** ** Flags and lengths *)

Definition for_each_mut mc (f : MutationCacheEntry -> MutationCacheEntry) : outcome MutationCache :=
  c ← Content_entries_mut (mc_content mc) f; mret (with_content mc c).

Definition MutationCache_reset_flags mc := for_each_mut mc Entry_reset_flags.
Definition MutationCache_set_flag mc (flag : MutationCacheEntryFlags) :=
  for_each_mut mc (fun e => Entry_set_flag e flag).
Definition MutationCache_unset_flag mc (flag : MutationCacheEntryFlags) :=
  for_each_mut mc (fun e => Entry_unset_flag e flag).
Definition MutationCache_enable_tracing mc := MutationCache_set_flag mc Flag_TracingEnabled.
Definition MutationCache_disable_tracing mc := MutationCache_unset_flag mc Flag_TracingEnabled.

Definition MutationCache_assert_msks_len_not_zero mc : outcome unit :=
  assert_that (forallb (fun e => (0 <? Entry_msk_len e)%nat) (MutationCache_entries mc)).

Definition MutationCache_total_msk_len mc : nat :=
  foldl (fun sum e => (sum + Entry_msk_len e)%nat) 0%nat (MutationCache_entries mc).
End cache.

Section cache_lemmas.
Context `{L : EntryLayout} `{CL : ContentLayout} `{!EntryLayoutLaws L}.
Implicit Types mc : MutationCache.
Implicit Types e : MutationCacheEntry.
Implicit Types es : list MutationCacheEntry.

(** The cache stands for the list of entries. *)
Definition cache_rep mc es : Prop :=
  content_rep (mc_content mc) es /\ mc_content_size mc = cc_total_size (mc_content mc).

(** [mc'] uses no more slots and memory than [mc], of the same dimensions. *)
Definition no_larger mc' mc : Prop :=
  length (cc_data (mc_content mc')) = length (cc_data (mc_content mc)) /\
  length (cc_entry_decriptor_tbl (mc_content mc'))
    = length (cc_entry_decriptor_tbl (mc_content mc)) /\
  (cc_next_free_slot (mc_content mc') <= cc_next_free_slot (mc_content mc))%nat /\
  (cc_current_data_size (mc_content mc') <= cc_current_data_size (mc_content mc))%nat.

#[export] Instance no_larger_trans : Transitive no_larger.
Proof. intros a b c (?&?&?&?) (?&?&?&?). split; [congruence|]. split; [congruence|lia]. Qed.

Lemma no_larger_refl mc : no_larger mc mc.
Proof. by repeat split. Qed.

Lemma cache_entries_rep mc es : cache_rep mc es -> MutationCache_entries mc = es.
Proof using EntryLayoutLaws0. intros [Hr _]. by apply content_entries_rep. Qed.

Lemma cache_remove_rep mc es1 e es2 :
  cache_rep mc (es1 ++ e :: es2) -> Forall (fun x => Entry_id x <> Entry_id e) es1 ->
  exists mc', MutationCache_remove mc (Entry_id e) = Ret mc' /\ cache_rep mc' (es1 ++ es2) /\
    no_larger mc' mc.
Proof using EntryLayoutLaws0.
  intros [Hr Hs] Hne. pose proof (remove_rep _ _ (Entry_id e) Hr) as Hrem.
  rewrite remove_id_app in Hrem by done.
  destruct Hrem as (c' & E & Hr' & _ & Hd & Ht & Hn & Hcur).
  exists (with_content mc c'). unfold MutationCache_remove. rewrite E. split; [done|].
  split; [|done]. split; [done|]. cbn. rewrite Hs, (cr_total _ _ Hr), (cr_total _ _ Hr'). lia.
Qed.

Lemma remove_all_rep (p : Z -> bool) mc es1 es2 :
  cache_rep mc (es1 ++ es2) -> NoDup (Entry_id <$> es1 ++ es2) ->
  exists mc', remove_all mc (Entry_id <$> List.filter (fun e => negb (p (Entry_id e))) es2) = Ret mc' /\
    cache_rep mc' (es1 ++ List.filter (fun e => p (Entry_id e)) es2) /\ no_larger mc' mc.
Proof using EntryLayoutLaws0.
  revert mc es1. induction es2 as [|e es2 IH]; intros mc es1 Hr Hnd.
  - exists mc. cbn. split; [done|]. split; [done|apply no_larger_refl].
  - cbn [List.filter]. destruct (p (Entry_id e)); cbn [negb fmap list_fmap remove_all].
    + destruct (IH mc (es1 ++ [e])) as (mc' & E & Hr' & Hl); [by rewrite <- app_assoc..|].
      exists mc'. rewrite <- app_assoc in Hr'. done.
    + rewrite fmap_app in Hnd. cbn in Hnd. apply NoDup_app in Hnd as (Hnd1 & Hdisj & Hnd2).
      apply NoDup_cons in Hnd2 as [Hnin Hnd2].
      destruct (cache_remove_rep mc es1 e es2 Hr) as (mc1 & E1 & Hr1 & Hl1).
      { apply Forall_forall. intros x Hx Heq. apply (Hdisj (Entry_id e)); [|by left].
        apply list_elem_of_fmap. by exists x. }
      rewrite E1. cbn [mbind outcome_bind].
      destruct (IH mc1 es1 Hr1) as (mc' & E & Hr' & Hl).
      { rewrite fmap_app. apply NoDup_app. split; [done|]. split; [|done].
        intros x Hx Hx2. apply (Hdisj x Hx). by right. }
      exists mc'. split; [exact E|]. split; [done|]. by transitivity mc1.
Qed.

Lemma vec_retain_sublist {St} (f : St -> MutationCacheEntry -> bool * St) st es :
  vec_retain f st es `sublist_of` es.
Proof.
  revert st. induction es as [|e es IH]; intros st; cbn; [done|].
  destruct ((f st e).1); [by apply sublist_skip|by apply sublist_cons].
Qed.

Lemma sublist_ids kept es x :
  kept `sublist_of` es -> x ∈ Entry_id <$> kept -> x ∈ Entry_id <$> es.
Proof.
  intros Hs (e & -> & He)%list_elem_of_fmap. apply list_elem_of_fmap. exists e. split; [done|].
  induction Hs as [|y l1 l2 Hs IH|y l1 l2 Hs IH]; [done| |right; auto].
  apply elem_of_cons in He as [->|He]; [by left|right; auto].
Qed.

(** With unique ids, a sublist is recovered from its ids. *)
Lemma filter_sublist kept es :
  kept `sublist_of` es -> NoDup (Entry_id <$> es) ->
  List.filter (fun e => bool_decide (Entry_id e ∈ Entry_id <$> kept)) es = kept.
Proof.
  intros Hs. induction Hs as [|e kept es Hs IH|e kept es Hs IH]; intros Hnd; [done| |];
    cbn in Hnd; apply NoDup_cons in Hnd as [Hnin Hnd]; cbn [List.filter].
  - rewrite bool_decide_true by (by left). f_equal. transitivity
      (List.filter (fun e => bool_decide (Entry_id e ∈ Entry_id <$> kept)) es); [|by apply IH].
    apply filter_ext_in. intros x Hx. apply bool_decide_ext. cbn. rewrite elem_of_cons.
    split; [|by right]. intros [Heq|?]; [|done]. destruct Hnin. rewrite <- Heq.
    apply list_elem_of_fmap. exists x. split; [done|]. by apply list_elem_of_In.
  - rewrite bool_decide_false; [by apply IH|]. intros Hin. apply Hnin. by eapply sublist_ids.
Qed.

Lemma retain_rep {St} mc es (f : St -> MutationCacheEntry -> bool * St) st :
  cache_rep mc es -> NoDup (Entry_id <$> es) ->
  exists mc', MutationCache_retain mc f st = Ret mc' /\ cache_rep mc' (vec_retain f st es) /\
    no_larger mc' mc.
Proof using EntryLayoutLaws0.
  intros Hr Hnd. unfold MutationCache_retain. cbv zeta. rewrite (cache_entries_rep mc es Hr).
  set (kept := vec_retain f st es).
  assert (Hk : kept `sublist_of` es) by apply vec_retain_sublist.
  unfold MutationCache_retain_whitelisted. rewrite (cache_entries_rep mc es Hr).
  destruct (remove_all_rep (fun i => bool_decide (i ∈ Entry_id <$> kept)) mc [] es Hr Hnd)
    as (mc' & E & Hr' & Hl). cbn [app] in Hr'. rewrite filter_sublist in Hr' by done.
  rewrite E. cbn [mbind outcome_bind].
  unfold MutationCache_len. rewrite (cache_entries_rep mc' kept Hr'), length_fmap, Nat.eqb_refl.
  exists mc'. done.
Qed.

Lemma vec_retain_stateless g es : vec_retain (stateless g) tt es = List.filter g es.
Proof. induction es as [|e es IH]; cbn; [done|]. by destruct (g e); rewrite IH. Qed.

Lemma vec_retain_limit n es :
  vec_retain (fun limit _ => if (0 <? limit)%nat then (true, limit - 1)%nat else (false, limit)) n es
  = take n es.
Proof.
  revert n. induction es as [|e es IH]; intros n; cbn; [by rewrite take_nil|].
  destruct n as [|n]; cbn; [apply (IH 0%nat)|]. by rewrite Nat.sub_0_r, IH.
Qed.

Lemma retain_filter mc es g :
  cache_rep mc es -> NoDup (Entry_id <$> es) ->
  exists mc', MutationCache_retain mc (stateless g) tt = Ret mc' /\
    cache_rep mc' (List.filter g es) /\ no_larger mc' mc.
Proof using EntryLayoutLaws0.
  intros Hr Hnd. destruct (retain_rep mc es (stateless g) tt Hr Hnd) as (mc' & E & Hr' & Hl).
  exists mc'. by rewrite vec_retain_stateless in Hr'.
Qed.

Lemma NoDup_ids_filter g es :
  NoDup (Entry_id <$> es) -> NoDup (Entry_id <$> List.filter g es).
Proof.
  induction es as [|e es IH]; cbn; [done|]. intros [Hnin Hnd]%NoDup_cons.
  destruct (g e); [|by apply IH]. cbn. apply NoDup_cons. split; [|by apply IH].
  intros Hin. apply Hnin. apply list_elem_of_fmap in Hin as (x & -> & Hx).
  apply list_elem_of_fmap. exists x. split; [done|].
  apply list_elem_of_In, filter_In in Hx as [Hx _]. by apply list_elem_of_In.
Qed.

Lemma rep_entries_stored mc es :
  cache_rep mc es -> Forall entry_wf es /\ entry_trim <$> es = es.
Proof.
  intros [Hr _]. pose proof (packed_stored _ _ _ _ _ (cr_packed _ _ Hr)) as Hall. clear Hr. split.
  - apply (Forall_impl _ _ _ Hall). by intros e [? _].
  - induction Hall as [|e es [_ Ht] _ IH]; [done|]. cbn. by rewrite Ht, IH.
Qed.

Lemma for_each_mut_rep mc es f :
  cache_rep mc es -> in_place f ->
  exists mc', for_each_mut mc f = Ret mc' /\ cache_rep mc' (f <$> es).
Proof using EntryLayoutLaws0.
  intros [Hr Hs] Hf. destruct (entries_mut_rep _ es f Hr Hf) as (c' & E & Hr' & Htot).
  exists (with_content mc c'). unfold for_each_mut. rewrite E. split; [done|].
  split; [done|]. cbn. destruct Htot as (_ & _ & Htot). congruence.
Qed.

(** ** Byte images *)

(** [img] is the used part of a content that stands for [es]. *)
Definition image_of (img : MutationCacheContent) es : Prop :=
  exists c, content_rep c es /\ img = with_cache_data c (take (cc_current_data_size c) (cc_data c)).

Lemma used_image_Ret mc es :
  cache_rep mc es ->
  exists img, used_image mc = Ret img /\
    image_length img = (content_header_size + cc_current_data_size (mc_content mc))%nat /\
    image_of img es.
Proof.
  intros [Hr Hs]. pose proof (cr_total _ _ Hr) as Ht. pose proof (cr_current _ _ Hr) as Hc.
  unfold used_image, Content_total_used_bytes, assert_that.
  destruct (Nat.leb_spec (content_header_size + cc_current_data_size (mc_content mc)) (mc_content_size mc));
    [|lia]. cbn [mbind outcome_bind]. eexists. split; [reflexivity|]. split.
  - unfold image_length. cbn. rewrite length_take. lia.
  - by exists (mc_content mc).
Qed.

Lemma load_image dst es0 img es :
  cache_rep dst es0 -> image_of img es ->
  ((image_length img <= mc_content_size dst)%nat ->
   exists dst', MutationCache_load_bytes dst img = Ret dst' /\ cache_rep dst' es) /\
  ((mc_content_size dst < image_length img)%nat -> MutationCache_load_bytes dst img = Panic).
Proof.
  intros [Hd Hs] (c & Hr & ->). pose proof (cr_current _ _ Hr) as Hc.
  unfold MutationCache_load_bytes, assert_that. split.
  - intros Hfit. apply Nat.leb_le in Hfit as Hfit'. rewrite Hfit'. cbn [mbind outcome_bind].
    eexists. split; [reflexivity|]. unfold image_length in Hfit. cbn in Hfit.
    rewrite length_take in Hfit. pose proof (cr_total _ _ Hd) as Ht.
    split; [|done]. destruct Hr as [_ _ Hsl Hfree Hp]. split; cbn.
    + rewrite length_app, length_take, length_drop. lia.
    + rewrite length_app, length_take, length_drop. lia.
    + done.
    + done.
    + apply (packed_agree (cc_data c)); [|exact Hp].
      rewrite take_app_le, take_take by (rewrite length_take; lia). f_equal. lia.
  - intros Hbig. destruct (Nat.leb_spec (image_length
      (with_cache_data c (take (cc_current_data_size c) (cc_data c)))) (mc_content_size dst)); [lia|done].
Qed.

(** ** Properties *)

(** The filters of the cache keep exactly the entries their closure accepts, in
    order: on a cache with unique ids [retain] removes the others from the content
    one by one without panicking, [purge_nop_entries] keeps the entries with a
    non-zero mask byte, [limit] the first [max], and [remove_const_type] those
    that are not constants. *)
Theorem cache_retain_filters {St} mc es (f : St -> MutationCacheEntry -> bool * St) st max :
  cache_rep mc es -> NoDup (Entry_id <$> es) ->
  (exists mc', MutationCache_retain mc f st = Ret mc' /\ cache_rep mc' (vec_retain f st es)) /\
  (exists mc', MutationCache_purge_nop_entries mc = Ret mc' /\
     cache_rep mc' (List.filter (fun e => (0 <? Entry_msk_len e)%nat &&
        existsb (fun b => negb (b =? 0)) (Entry_get_msk_as_slice e)) es)) /\
  (exists mc', MutationCache_limit mc max = Ret mc' /\ cache_rep mc' (take max es)) /\
  (exists mc', MutationCache_remove_const_type mc = Ret mc' /\
     cache_rep mc' (List.filter (fun e =>
       negb (bool_decide (loc_type (Entry_spill_slot e) = LocationType_Constant))) es)).
Proof.
  intros Hr Hnd. split; [|split; [|split]].
  - destruct (retain_rep mc es f st Hr Hnd) as (mc' & E & Hr' & _). by exists mc'.
  - destruct (retain_filter mc es (fun e => (0 <? Entry_msk_len e)%nat &&
      existsb (fun b => negb (b =? 0)) (Entry_get_msk_as_slice e)) Hr Hnd) as (mc' & E & Hr' & _).
    by exists mc'.
  - destruct (retain_rep mc es (fun limit _ => if (0 <? limit)%nat then (true, limit - 1)%nat
      else (false, limit)) max Hr Hnd) as (mc' & E & Hr' & _).
    exists mc'. split; [exact E|]. by rewrite vec_retain_limit in Hr'.
  - destruct (retain_filter mc es (fun e => negb (bool_decide
      (loc_type (Entry_spill_slot e) = LocationType_Constant))) Hr Hnd) as (mc' & E & Hr' & _).
    by exists mc'.
Qed.

Lemma push_entries_rep mc es es2 :
  cache_rep mc es -> Forall entry_wf es2 ->
  (cc_current_data_size (mc_content mc) + sizes es2 <= length (cc_data (mc_content mc)))%nat ->
  (cc_next_free_slot (mc_content mc) + length es2
    < length (cc_entry_decriptor_tbl (mc_content mc)))%nat ->
  exists mc', push_entries mc es2 = Ret mc' /\ cache_rep mc' (es ++ (entry_trim <$> es2)).
Proof using EntryLayoutLaws0.
  intros [Hr Hs] Hwf Hsz Hsl. destruct (push_all_rep es2 _ es Hr Hwf Hsz Hsl) as (c' & E & Hr' & Hd & Ht).
  exists (with_content mc c'). unfold push_entries. rewrite E. split; [done|].
  split; [done|]. cbn. rewrite Hs, (cr_total _ _ Hr), (cr_total _ _ Hr'). lia.
Qed.

(** [union_and_replace] keeps the entries whose id the other cache does not have
    and appends all entries of the other, so its entries win; with unique ids on
    both sides the result has unique ids.  It needs the memory and the slots for
    all of the other cache: pushes that fail are ignored by the code. *)
Theorem cache_union_and_replace mc other es es2 :
  cache_rep mc es -> cache_rep other es2 ->
  NoDup (Entry_id <$> es) -> NoDup (Entry_id <$> es2) ->
  (cc_current_data_size (mc_content mc) + sum_list (Entry_size <$> es2)
     <= length (cc_data (mc_content mc)))%nat ->
  (cc_next_free_slot (mc_content mc) + length es2
     < length (cc_entry_decriptor_tbl (mc_content mc)))%nat ->
  exists mc', MutationCache_union_and_replace mc other = Ret mc' /\
    cache_rep mc' (List.filter (fun e => negb (bool_decide (Entry_id e ∈ Entry_id <$> es2))) es ++ es2) /\
    NoDup (Entry_id <$> MutationCache_entries mc').
Proof.
  intros Hr Hr2 Hnd Hnd2 Hsz Hsl. unfold MutationCache_union_and_replace.
  rewrite (cache_entries_rep other es2 Hr2).
  destruct (retain_filter mc es (fun e => negb (bool_decide (Entry_id e ∈ Entry_id <$> es2))) Hr Hnd)
    as (mc1 & -> & Hr1 & Hd & Ht & Hn & Hc). cbn [mbind outcome_bind].
  destruct (rep_entries_stored other es2 Hr2) as [Hwf Htrim].
  destruct (push_entries_rep mc1 _ es2 Hr1 Hwf) as (mc' & E & Hr').
  - unfold sizes. lia.
  - lia.
  - exists mc'. rewrite Htrim in Hr'. split; [exact E|]. split; [done|].
    rewrite (cache_entries_rep _ _ Hr'), fmap_app. apply NoDup_app. split; [|split; [|done]].
    + by apply NoDup_ids_filter.
    + intros x Hx. apply list_elem_of_fmap in Hx as (e & -> & He).
      apply list_elem_of_In, filter_In in He as [_ He].
      by apply negb_true_iff, bool_decide_eq_false in He.
Qed.

(** The flag setters of the cache change the flags of every entry and nothing
    else: [set_flag], [unset_flag] and [reset_flags] leave a cache standing for the
    entries with their flags changed. *)
Lemma cache_set_flags mc es flag :
  cache_rep mc es ->
  (exists mc', MutationCache_set_flag mc flag = Ret mc' /\
     cache_rep mc' ((fun e => Entry_set_flag e flag) <$> es)) /\
  (exists mc', MutationCache_unset_flag mc flag = Ret mc' /\
     cache_rep mc' ((fun e => Entry_unset_flag e flag) <$> es)) /\
  (exists mc', MutationCache_reset_flags mc = Ret mc' /\
     cache_rep mc' (Entry_reset_flags <$> es)).
Proof.
  intros Hr. split; [|split]; apply for_each_mut_rep; try done.
  - apply (set_flags_in_place (fun z => Z.lor z (flag_u8 flag))). intros z Hz.
    apply fits_lor; [lia|done|by destruct flag].
  - apply (set_flags_in_place (fun z => Z.land z (not_w 8 (flag_u8 flag)))). intros z Hz.
    by apply fits_land_l.
  - by apply (set_flags_in_place (fun _ => 0)).
Qed.

(** C35: storing and loading a cache loses nothing.  [save_bytes] consolidates the
    cache, which keeps its entries, and returns an image of the header and the used
    data; loading that image, or the one of [save_bytes_unconsolidated], into any
    cache large enough makes it stand for the same entries, whatever it held and
    however large the two caches are; an image that does not fit is refused. *)
Theorem cache_save_load_roundtrip mc es :
  cache_rep mc es ->
  exists img mc', MutationCache_save_bytes mc = Ret (img, mc') /\ cache_rep mc' es /\
    image_length img = (content_header_size + sum_list (Entry_size <$> es))%nat /\
  exists img2, MutationCache_save_bytes_unconsolidated mc = Ret img2 /\
    forall dst es0, cache_rep dst es0 -> forall i, i = img \/ i = img2 ->
      ((image_length i <= mc_content_size dst)%nat ->
       exists dst', MutationCache_load_bytes dst i = Ret dst' /\ cache_rep dst' es) /\
      ((mc_content_size dst < image_length i)%nat -> MutationCache_load_bytes dst i = Panic).
Proof.
  intros [Hr Hs]. unfold MutationCache_save_bytes.
  destruct (consolidate_compact _ es Hr) as (c' & -> & (Hr' & Hcur & _) & Hd & _).
  cbn [mbind outcome_bind].
  assert (Hrep' : cache_rep (with_content mc c') es).
  { split; [done|]. cbn. rewrite Hs, (cr_total _ _ Hr), (cr_total _ _ Hr'). lia. }
  destruct (used_image_Ret _ _ Hrep') as (img & Ei & Hi1 & Hi2). rewrite Ei. cbn [mbind outcome_bind].
  destruct (used_image_Ret mc es (conj Hr Hs)) as (img2 & Ei2 & Hj1 & Hj2).
  eexists img, _. split; [reflexivity|]. split; [done|].
  split; [rewrite Hi1; cbn; by rewrite Hcur|]. exists img2. split; [done|].
  intros dst es0 Hdst i [->| ->]; by apply (load_image dst es0).
Qed.
End cache_lemmas.

(** ** Witnesses *)

#[local] Existing Instance demo_stackmap.
#[local] Existing Instance demo_layout.
#[local] Existing Instance demo_layout_laws.
#[local] Existing Instance demo_content_layout.

Definition demo_mc : MutationCache :=
  mk_cache HeapMemory 440 demo_content.

Lemma demo_mc_rep : cache_rep demo_mc [].
Proof. split; [apply demo_content_rep|done]. Qed.

Lemma demo_mc_one :
  exists mc, cache_rep mc [entry_trim (demo_entry 7 [1; 2; 3])] /\
    MutationCache_push demo_mc (demo_entry 7 [1; 2; 3]) = Ret (Some 0%nat, mc).
Proof.
  destruct (push_rep demo_content [] (demo_entry 7 [1; 2; 3])) as (data & E & Hd & Hr).
  - apply demo_content_rep.
  - by apply demo_entry_wf; [|cbn; lia].
  - vm_compute. lia.
  - by intros [off [=]].
  - eexists. split; [|unfold MutationCache_push; cbn [mc_content demo_mc]; rewrite E; reflexivity].
    split; [exact Hr|done].
Qed.

Lemma cache_save_load_roundtrip_witness :
  exists mc img mc' dst, MutationCache_save_bytes mc = Ret (img, mc') /\
    MutationCache_load_bytes demo_mc img = Ret dst /\
    MutationCache_entries dst = [entry_trim (demo_entry 7 [1; 2; 3])].
Proof.
  destruct demo_mc_one as (mc & Hr & _).
  destruct (cache_save_load_roundtrip mc _ Hr) as (img & mc' & E & _ & Hl & img2 & _ & Hload).
  destruct (Hload demo_mc [] demo_mc_rep img) as [[dst [Ed Hr']] _]; [by left| |].
  - rewrite Hl. vm_compute. lia.
  - exists mc, img, mc', dst. split; [done|]. split; [done|]. by apply cache_entries_rep.
Defined.
