(* ===== verification/Messages.v ===== *)
(** * The messages between scheduler and agent

    Models [fuzztruction_shared/src/messages.rs] and the receiving side of
    [communication_channel.rs].  A message is a [repr(C)] struct whose bytes are sent
    as they are in memory (little-endian, x86-64 layout); the padding between the
    fields is unspecified and is the argument [pad] of [to_bytes].  The parsing functions
    [ptr::read] a struct before they check it.  Reading a [bool] field from a byte that is
    neither 0 nor 1, or an enum from a byte that is not one of its discriminants, is
    undefined behaviour in the source; the model stops there with [Panic]. *)

From S2P Require Import Prelude Bytes.

Inductive MessageType :=
| MsgIdInvalid | MsgIdHello | MsgIdRun | MsgIdTerminated | MsgIdShutdown | MsgIdOk
| MsgIdTracePointStat | MsgIdSyncMutations | MT_KeepAlive | MT_ChildPid
| MT_AuxStreamMessage | MT_AfterListen | MT_AfterBind | MT_AfterConnect.

#[export] Instance MessageType_eq_dec : EqDecision MessageType.
Proof. solve_decision. Defined.

(** [t as u8] *)
Definition MessageType_u8 (t : MessageType) : Z :=
  match t with
  | MsgIdInvalid => 0 | MsgIdHello => 1 | MsgIdRun => 2 | MsgIdTerminated => 4
  | MsgIdShutdown => 5 | MsgIdOk => 6 | MsgIdTracePointStat => 10
  | MsgIdSyncMutations => 12 | MT_KeepAlive => 14 | MT_ChildPid => 15
  | MT_AuxStreamMessage => 16 | MT_AfterListen => 17 | MT_AfterBind => 18
  | MT_AfterConnect => 19
  end.

Definition MessageType_default : MessageType := MsgIdInvalid.

Definition MessageType_try_from (value : Z) : result unit MessageType :=
  if value =? MessageType_u8 MsgIdInvalid then Ok MsgIdInvalid
  else if value =? MessageType_u8 MsgIdHello then Ok MsgIdHello
  else if value =? MessageType_u8 MsgIdRun then Ok MsgIdRun
  else if value =? MessageType_u8 MsgIdTerminated then Ok MsgIdTerminated
  else if value =? MessageType_u8 MsgIdShutdown then Ok MsgIdShutdown
  else if value =? MessageType_u8 MsgIdOk then Ok MsgIdOk
  else if value =? MessageType_u8 MsgIdTracePointStat then Ok MsgIdTracePointStat
  else if value =? MessageType_u8 MsgIdSyncMutations then Ok MsgIdSyncMutations
  else if value =? MessageType_u8 MT_KeepAlive then Ok MT_KeepAlive
  else if value =? MessageType_u8 MT_ChildPid then Ok MT_ChildPid
  else if value =? MessageType_u8 MT_AuxStreamMessage then Ok MT_AuxStreamMessage
  else if value =? MessageType_u8 MT_AfterListen then Ok MT_AfterListen
  else if value =? MessageType_u8 MT_AfterBind then Ok MT_AfterBind
  else if value =? MessageType_u8 MT_AfterConnect then Ok MT_AfterConnect
  else Err tt.

(** The errors of parsing. *)
Inductive MessageError :=
| BufferTooSmall
| UnknownMessageType (id : Z)
| UnexpectedMessageId (expected id : MessageType).

Record MsgHeader := mk_header { hdr_id : MessageType }.

Definition MsgHeader_new (t : MessageType) : MsgHeader := mk_header t.
Definition MsgHeader_default : MsgHeader := MsgHeader_new MsgIdInvalid.

Definition MsgHeader_sanitize (h : MsgHeader) : result MessageError unit :=
  match MessageType_try_from (MessageType_u8 (hdr_id h)) with
  | Ok _ => Ok tt
  | Err _ => Err (UnknownMessageType (MessageType_u8 (hdr_id h)))
  end.

(** The enum value with this discriminant; there is none for other bytes. *)
Definition read_message_type (b : Z) : outcome MessageType :=
  match MessageType_try_from b with Ok t => Ret t | Err _ => Panic end.

Definition MsgHeader_from_bytes_unchecked (bytes : list Z) : outcome MsgHeader :=
  match bytes with
  | [] => Panic
  | b :: _ => t ← read_message_type b; mret (mk_header t)
  end.

Definition MsgHeader_try_from_bytes (bytes : list Z) : outcome (result MessageError MsgHeader) :=
  match bytes with
  | [] => Ret (Err BufferTooSmall)
  | _ =>
      ret ← MsgHeader_from_bytes_unchecked bytes;
      mret match MsgHeader_sanitize ret with Ok _ => Ok ret | Err e => Err e end
  end.

(** The trait: its type, size, the bytes in memory and the reading of them. *)
Class Message (M : Type) := {
  message_type : MessageType;
  msg_size : nat;
  msg_header : M -> MsgHeader;
  to_bytes : (nat -> Z) -> M -> list Z;
  read_raw : list Z -> outcome M;
}.
Arguments message_type M {_}.
Arguments msg_size M {_}.

Section trait.
Context (M : Type) `{Message M}.

(** Every [sanitize] of the file checks the header only. *)
Definition Message_sanitize (m : M) : result MessageError unit := MsgHeader_sanitize (msg_header m).

Definition Message_is_instance_of (bytes : list Z) : outcome bool :=
  if (length bytes <? msg_size M)%nat then mret false
  else
    header ← MsgHeader_from_bytes_unchecked bytes;
    mret (bool_decide (hdr_id header = message_type M)).

Definition Message_from_bytes_unchecked (bytes : list Z) : outcome M :=
  if (length bytes <? msg_size M)%nat then Panic else read_raw bytes.

Definition Message_try_from_bytes (bytes : list Z) : outcome (result MessageError M) :=
  if (length bytes <? msg_size M)%nat then mret (Err BufferTooSmall)
  else
    header ← MsgHeader_from_bytes_unchecked bytes;
    match MsgHeader_sanitize header with
    | Err e => mret (Err e)
    | Ok _ =>
        if negb (bool_decide (hdr_id header = message_type M))
        then mret (Err (UnexpectedMessageId (message_type M) (hdr_id header)))
        else
          ret ← read_raw bytes;
          mret match Message_sanitize ret with Ok _ => Ok ret | Err e => Err e end
    end.
End trait.

(** ** Fields *)

Definition read_u8 (bytes : list Z) (off : nat) : Z := default 0 (bytes !! off).
Definition read_u32 (bytes : list Z) (off : nat) : Z := of_le (take 4 (drop off bytes)).
Definition read_u64 (bytes : list Z) (off : nat) : Z := of_le (take 8 (drop off bytes)).
Definition read_i32 (bytes : list Z) (off : nat) : Z :=
  let u := read_u32 bytes off in if decide (u < 2 ^ 31) then u else u - 2 ^ 32.
Definition read_bool (bytes : list Z) (off : nat) : outcome bool :=
  let b := read_u8 bytes off in
  if b =? 0 then Ret false else if b =? 1 then Ret true else Panic.

Definition pads (pad : nat -> Z) (off n : nat) : list Z := pad <$> seq off n.
Definition put_i32 (z : Z) : list Z := to_le 4 (z mod 2 ^ 32).

(** ** The messages *)

Record HelloMessage := mk_hello { hello_header : MsgHeader; senders_tid : Z }.
Definition HelloMessage_default : HelloMessage := mk_hello (MsgHeader_new MsgIdHello) (-1).
Definition HelloMessage_new (tid : Z) : HelloMessage :=
  mk_hello (hello_header HelloMessage_default) tid.

#[export] Instance HelloMessage_Message : Message HelloMessage := {|
  message_type := MsgIdHello;
  msg_size := 8;
  msg_header := hello_header;
  to_bytes pad m := [MessageType_u8 (hdr_id (hello_header m))] ++ pads pad 1 3 ++ put_i32 (senders_tid m);
  read_raw b := h ← MsgHeader_from_bytes_unchecked b; mret (mk_hello h (read_i32 b 4));
|}.

Record RunMessage := mk_run { run_header : MsgHeader; timeout_ms : Z }.
Definition RunMessage_default : RunMessage := mk_run (MsgHeader_new MsgIdRun) 1000.
Definition RunMessage_from_millis (t : Z) : RunMessage := mk_run (run_header RunMessage_default) t.

#[export] Instance RunMessage_Message : Message RunMessage := {|
  message_type := MsgIdRun;
  msg_size := 8;
  msg_header := run_header;
  to_bytes pad m := [MessageType_u8 (hdr_id (run_header m))] ++ pads pad 1 3 ++ to_le 4 (timeout_ms m);
  read_raw b := h ← MsgHeader_from_bytes_unchecked b; mret (mk_run h (read_u32 b 4));
|}.

Record TerminatedMessage := mk_terminated {
  term_header : MsgHeader; exit_code : Z; is_timeout : bool;
}.
Definition TerminatedMessage_default : TerminatedMessage :=
  mk_terminated (MsgHeader_new MsgIdTerminated) 0 false.

#[export] Instance TerminatedMessage_Message : Message TerminatedMessage := {|
  message_type := MsgIdTerminated;
  msg_size := 12;
  msg_header := term_header;
  to_bytes pad m := [MessageType_u8 (hdr_id (term_header m))] ++ pads pad 1 3 ++ put_i32 (exit_code m)
                    ++ [if is_timeout m then 1 else 0] ++ pads pad 9 3;
  read_raw b := h ← MsgHeader_from_bytes_unchecked b;
                t ← read_bool b 8;
                mret (mk_terminated h (read_i32 b 4) t);
|}.

(** [execution_index] is an [Option<NonZeroU64>], stored as a [u64] with 0 for [None]. *)
Record TracePointStat := mk_trace_point {
  tp_header : MsgHeader; patch_point_id : Z; cnt : Z; execution_index : option Z;
}.
Definition TracePointStat_default : TracePointStat :=
  mk_trace_point (MsgHeader_new MsgIdTracePointStat) 0 0 None.
Definition TracePointStat_new (id c : Z) (i : option Z) : TracePointStat :=
  mk_trace_point (tp_header TracePointStat_default) id c i.

#[export] Instance TracePointStat_Message : Message TracePointStat := {|
  message_type := MsgIdTracePointStat;
  msg_size := 32;
  msg_header := tp_header;
  to_bytes pad m := [MessageType_u8 (hdr_id (tp_header m))] ++ pads pad 1 7 ++ to_le 8 (patch_point_id m)
                    ++ to_le 8 (cnt m) ++ to_le 8 (default 0 (execution_index m));
  read_raw b := h ← MsgHeader_from_bytes_unchecked b;
                mret (mk_trace_point h (read_u64 b 8) (read_u64 b 16)
                  (if read_u64 b 24 =? 0 then None else Some (read_u64 b 24)));
|}.

Record ChildPid := mk_child_pid { cp_header : MsgHeader; pid : Z }.
Definition ChildPid_default : ChildPid := mk_child_pid (MsgHeader_new MT_ChildPid) 0.
Definition ChildPid_new (p : Z) : ChildPid := mk_child_pid (cp_header ChildPid_default) p.

#[export] Instance ChildPid_Message : Message ChildPid := {|
  message_type := MT_ChildPid;
  msg_size := 16;
  msg_header := cp_header;
  to_bytes pad m := [MessageType_u8 (hdr_id (cp_header m))] ++ pads pad 1 7 ++ to_le 8 (pid m);
  read_raw b := h ← MsgHeader_from_bytes_unchecked b; mret (mk_child_pid h (read_u64 b 8));
|}.

(** The messages that consist of the header only. *)
Record HeaderOnly (t : MessageType) := mk_header_only { ho_header : MsgHeader }.
Arguments mk_header_only {t}.
Arguments ho_header {t}.

Definition HeaderOnly_default (t : MessageType) : HeaderOnly t := mk_header_only (MsgHeader_new t).

#[export] Instance HeaderOnly_Message t : Message (HeaderOnly t) := {|
  message_type := t;
  msg_size := 1;
  msg_header := ho_header;
  to_bytes pad m := [MessageType_u8 (hdr_id (ho_header m))];
  read_raw b := h ← MsgHeader_from_bytes_unchecked b; mret (mk_header_only h);
|}.

Definition ShutdownMessage : Type := HeaderOnly MsgIdShutdown.
Definition SyncMutations : Type := HeaderOnly MsgIdSyncMutations.
Definition KeepAlive : Type := HeaderOnly MT_KeepAlive.
Definition OkMessage : Type := HeaderOnly MsgIdOk.
Definition AfterListen : Type := HeaderOnly MT_AfterListen.
Definition AfterBind : Type := HeaderOnly MT_AfterBind.
Definition AfterConnect : Type := HeaderOnly MT_AfterConnect.

(** ** Receiving *)

Inductive ReceivableMessages :=
| RM_HelloMessage (m : HelloMessage)
| RM_RunMessage (m : RunMessage)
| RM_TerminatedMessage (m : TerminatedMessage)
| RM_ShutdownMessage (m : ShutdownMessage)
| RM_TracePointStat (m : TracePointStat)
| RM_SyncMutations (m : SyncMutations)
| RM_Ok (m : OkMessage)
| RM_ChildPid (m : ChildPid)
| RM_AfterListen (m : AfterListen)
| RM_AfterBind (m : AfterBind).

Inductive CommunicationChannelError :=
| MissingEnvironmentVariables
| FailedToOpenMessageQueues
| FailedToSend
| FailedToReceive
| MalformedMessage (e : MessageError).

(** The [anyhow] errors [recv_message] returns: one of the channel, the error of the
    header with its context, or the error of [try_from_bytes] as it is. *)
Inductive RecvError :=
| Channel (e : CommunicationChannelError)
| FailedToReadHeader (e : MessageError)
| Parse (e : MessageError).

(** [Ok(f(M::try_from_bytes(&buffer)?))] *)
Definition receive_as {M} (f : M -> ReceivableMessages)
    (r : outcome (result MessageError M))
    : outcome (result RecvError ReceivableMessages) :=
  r ← r; mret match r with Ok m => Ok (f m) | Err e => Err (Parse e) end.

(** [received] is the message [receive_timeout] copied to the start of the channel's
    buffer, or [None] if it failed; the buffer keeps its old content behind it, and
    the code parses the whole buffer. *)
Definition recv_message (buffer : list Z) (received : option (list Z))
    : list Z * outcome (result RecvError ReceivableMessages) :=
  match received with
  | None => (buffer, Ret (Err (Channel FailedToReceive)))
  | Some msg =>
      let buffer := msg ++ drop (length msg) buffer in
      (buffer,
       header ← MsgHeader_try_from_bytes buffer;
       match header with
       | Err e => mret (Err (FailedToReadHeader e))
       | Ok header =>
           match MsgHeader_sanitize header with
           | Err e => mret (Err (Channel (MalformedMessage e)))
           | Ok _ =>
               match hdr_id header with
               | MsgIdHello =>
                   receive_as RM_HelloMessage (Message_try_from_bytes HelloMessage buffer)
               | MsgIdRun => receive_as RM_RunMessage (Message_try_from_bytes RunMessage buffer)
               | MsgIdTerminated =>
                   receive_as RM_TerminatedMessage (Message_try_from_bytes TerminatedMessage buffer)
               | MsgIdShutdown =>
                   receive_as RM_ShutdownMessage (Message_try_from_bytes ShutdownMessage buffer)
               | MsgIdTracePointStat =>
                   receive_as RM_TracePointStat (Message_try_from_bytes TracePointStat buffer)
               | MsgIdSyncMutations =>
                   receive_as RM_SyncMutations (Message_try_from_bytes SyncMutations buffer)
               | _ => Panic
               end
           end
       end)
  end.

(** ** Round trips *)

Lemma try_from_u8 t : MessageType_try_from (MessageType_u8 t) = Ok t.
Proof. by destruct t. Qed.

Lemma try_from_sound b t : MessageType_try_from b = Ok t -> b = MessageType_u8 t.
Proof.
  unfold MessageType_try_from.
  repeat match goal with |- context [if ?b then _ else _] => destruct b eqn:?; [|] end;
    intros [= <-]; by apply Z.eqb_eq.
Qed.

Lemma header_from_u8 t l : MsgHeader_from_bytes_unchecked (MessageType_u8 t :: l) = Ret (MsgHeader_new t).
Proof. cbn [MsgHeader_from_bytes_unchecked]. unfold read_message_type. by rewrite try_from_u8. Qed.

Lemma sanitize_Ok h : MsgHeader_sanitize h = Ok tt.
Proof. unfold MsgHeader_sanitize. by rewrite try_from_u8. Qed.

Class MessageLaws (M : Type) `{!Message M} := {
  (** the values a sender builds: the header of the type, fields within their width *)
  msg_valid : M -> Prop;
  msg_size_pos : (0 < msg_size M)%nat;
  msg_valid_header : forall m, msg_valid m -> msg_header m = MsgHeader_new (message_type M);
  to_bytes_length : forall pad m, length (to_bytes pad m) = msg_size M;
  to_bytes_head : forall pad m rest,
    MsgHeader_from_bytes_unchecked (to_bytes pad m ++ rest) = Ret (msg_header m);
  read_to_bytes : forall pad m rest, msg_valid m -> read_raw (to_bytes pad m ++ rest) = Ret m;
}.

Lemma pads_length pad off n : length (pads pad off n) = n.
Proof. unfold pads. by rewrite length_fmap, length_seq. Qed.

Lemma read_u32_at a z rest : length a = 4%nat -> fits 32 z -> read_u32 (a ++ to_le 4 z ++ rest) 4 = z.
Proof.
  intros Hl Hz. unfold read_u32. rewrite drop_app_length' by done.
  rewrite take_app_length' by (by rewrite to_le_length). by apply of_le_to_le.
Qed.

Lemma read_u64_at a z rest off : length a = off -> fits 64 z -> read_u64 (a ++ to_le 8 z ++ rest) off = z.
Proof.
  intros Hl Hz. unfold read_u64. rewrite drop_app_length' by done.
  rewrite take_app_length' by (by rewrite to_le_length). by apply of_le_to_le.
Qed.

Lemma read_i32_at a z rest :
  length a = 4%nat -> - 2 ^ 31 <= z < 2 ^ 31 -> read_i32 (a ++ put_i32 z ++ rest) 4 = z.
Proof.
  intros Hl Hz. unfold read_i32, put_i32.
  assert (Hb : fits 32 (z mod 2 ^ 32)) by (apply Z.mod_pos_bound; lia).
  rewrite read_u32_at by done. change (2 ^ 31) with 2147483648 in *. change (2 ^ 32) with 4294967296 in *.
  case_decide; dlia.
Qed.

Lemma read_bool_at a (b : bool) rest off :
  length a = off -> read_bool (a ++ [if b then 1 else 0] ++ rest) off = Ret b.
Proof.
  intros <-. unfold read_bool, read_u8. rewrite lookup_app_r, Nat.sub_diag by lia.
  by destruct b.
Qed.

#[export] Program Instance HelloMessage_laws : MessageLaws HelloMessage := {|
  msg_valid m := hello_header m = MsgHeader_new MsgIdHello /\ - 2 ^ 31 <= senders_tid m < 2 ^ 31;
|}.
Next Obligation. cbn. lia. Qed.
Next Obligation. intros m [Hh _]. exact Hh. Qed.
Next Obligation. intros pad m. cbn [to_bytes HelloMessage_Message]. rewrite !length_app, pads_length. unfold put_i32. by rewrite to_le_length. Qed.
Next Obligation. intros pad [[h] t] rest. apply header_from_u8. Qed.
Next Obligation.
  intros pad [h t] rest [Hh Ht]. cbn [hello_header senders_tid] in *. subst h.
  cbn [to_bytes read_raw HelloMessage_Message hello_header senders_tid].
  rewrite <- !app_assoc, (app_assoc [_] (pads pad 1 3)). rewrite read_i32_at by (done || by rewrite length_app, pads_length).
  done.
Qed.

#[export] Program Instance RunMessage_laws : MessageLaws RunMessage := {|
  msg_valid m := run_header m = MsgHeader_new MsgIdRun /\ fits 32 (timeout_ms m);
|}.
Next Obligation. cbn. lia. Qed.
Next Obligation. intros m [Hh _]. exact Hh. Qed.
Next Obligation. intros pad m. cbn [to_bytes RunMessage_Message]. rewrite !length_app, pads_length. by rewrite to_le_length. Qed.
Next Obligation. intros pad [[h] t] rest. apply header_from_u8. Qed.
Next Obligation.
  intros pad [h t] rest [Hh Ht]. cbn [run_header timeout_ms] in *. subst h.
  cbn [to_bytes read_raw RunMessage_Message run_header timeout_ms].
  rewrite <- !app_assoc, (app_assoc [_] (pads pad 1 3)). rewrite read_u32_at by (done || by rewrite length_app, pads_length).
  done.
Qed.

#[export] Program Instance TerminatedMessage_laws : MessageLaws TerminatedMessage := {|
  msg_valid m := term_header m = MsgHeader_new MsgIdTerminated /\ - 2 ^ 31 <= exit_code m < 2 ^ 31;
|}.
Next Obligation. cbn. lia. Qed.
Next Obligation. intros m [Hh _]. exact Hh. Qed.
Next Obligation.
  intros pad m. cbn [to_bytes TerminatedMessage_Message]. rewrite !length_app, !pads_length.
  unfold put_i32. by rewrite to_le_length.
Qed.
Next Obligation. intros pad [[h] t b] rest. apply header_from_u8. Qed.
Next Obligation.
  intros pad [h t b] rest [Hh Ht]. cbn [term_header exit_code] in *. subst h.
  cbn [to_bytes read_raw TerminatedMessage_Message term_header exit_code is_timeout].
  rewrite <- !app_assoc, (app_assoc [_] (pads pad 1 3)).
  rewrite read_i32_at by (done || by rewrite length_app, pads_length).
  rewrite (app_assoc (_ ++ pads _ _ _)), read_bool_at; [done|].
  unfold put_i32. by rewrite !length_app, pads_length, to_le_length.
Qed.

#[export] Program Instance TracePointStat_laws : MessageLaws TracePointStat := {|
  msg_valid m := tp_header m = MsgHeader_new MsgIdTracePointStat /\ fits 64 (patch_point_id m) /\
    fits 64 (cnt m) /\ (forall i, execution_index m = Some i -> fits 64 i /\ i <> 0);
|}.
Next Obligation. cbn. lia. Qed.
Next Obligation. intros m [Hh _]. exact Hh. Qed.
Next Obligation.
  intros pad m. cbn [to_bytes TracePointStat_Message]. by rewrite !length_app, !pads_length, !to_le_length.
Qed.
Next Obligation. intros pad [[h] i c e] rest. apply header_from_u8. Qed.
Next Obligation.
  intros pad [h i c e] rest (Hh & Hi & Hc & He). cbn [tp_header patch_point_id cnt execution_index] in *.
  subst h. cbn [to_bytes read_raw TracePointStat_Message tp_header patch_point_id cnt execution_index].
  assert (Hx : fits 64 (default 0 e)) by (destruct e; [by apply He|done]).
  assert (H1 : length ([MessageType_u8 (hdr_id (MsgHeader_new MsgIdTracePointStat))] ++ pads pad 1 7) = 8%nat)
    by (by rewrite length_app, pads_length).
  rewrite <- !app_assoc, (app_assoc [_] (pads pad 1 7)). rewrite read_u64_at by done.
  rewrite (app_assoc (_ ++ pads _ _ _)). rewrite read_u64_at by (done || by rewrite length_app, H1, to_le_length).
  rewrite (app_assoc ((_ ++ pads _ _ _) ++ _)).
  rewrite read_u64_at by (done || by rewrite !length_app, H1, !to_le_length).
  assert (E : (if default 0 e =? 0 then None else Some (default 0 e)) = e).
  { destruct e as [x|]; [|done]. destruct (He x eq_refl) as [_ Hne]. cbn.
    apply Z.eqb_neq in Hne. by rewrite Hne. }
  unfold id in *. rewrite E. done.
Qed.

#[export] Program Instance ChildPid_laws : MessageLaws ChildPid := {|
  msg_valid m := cp_header m = MsgHeader_new MT_ChildPid /\ fits 64 (pid m);
|}.
Next Obligation. cbn. lia. Qed.
Next Obligation. intros m [Hh _]. exact Hh. Qed.
Next Obligation.
  intros pad m. cbn [to_bytes ChildPid_Message]. by rewrite !length_app, !pads_length, !to_le_length.
Qed.
Next Obligation. intros pad [[h] p] rest. apply header_from_u8. Qed.
Next Obligation.
  intros pad [h p] rest [Hh Hp]. cbn [cp_header pid] in *. subst h.
  cbn [to_bytes read_raw ChildPid_Message cp_header pid].
  rewrite <- !app_assoc, (app_assoc [_] (pads pad 1 7)).
  rewrite read_u64_at by (done || by rewrite length_app, pads_length). done.
Qed.

#[export] Program Instance HeaderOnly_laws t : MessageLaws (HeaderOnly t) := {|
  msg_valid m := ho_header m = MsgHeader_new t;
|}.
Next Obligation. cbn. lia. Qed.
Next Obligation. intros t m Hh. exact Hh. Qed.
Next Obligation. done. Qed.
Next Obligation. intros t pad [[h]] rest. apply header_from_u8. Qed.
Next Obligation. intros t pad [h] rest Hh. cbn [ho_header] in Hh. subst h. cbn [to_bytes read_raw HeaderOnly_Message ho_header app]. by rewrite header_from_u8. Qed.

Lemma try_from_bytes_valid `{MessageLaws M} pad (m : M) rest :
  msg_valid m -> Message_try_from_bytes M (to_bytes pad m ++ rest) = Ret (Ok m).
Proof.
  intros Hv. unfold Message_try_from_bytes. rewrite length_app, to_bytes_length.
  destruct (Nat.ltb_spec (msg_size M + length rest) (msg_size M)); [lia|].
  rewrite to_bytes_head, (msg_valid_header m Hv). cbn [mbind outcome_bind].
  rewrite sanitize_Ok, bool_decide_eq_true_2 by done.
  cbn [negb]. rewrite read_to_bytes by done. cbn [mbind outcome_bind]. unfold Message_sanitize. by rewrite sanitize_Ok.
Qed.

(** C36: every message survives the wire: for every message type, every valid value,
    whatever the padding bytes are and whatever follows in the buffer,
    [is_instance_of] recognises the bytes of the message and [try_from_bytes]
    returns it.  Conversely [try_from_bytes] rejects a buffer that is too short and the id
    of another message, and never returns a message for an id that no message has:
    the header is read before it is checked, so such an id is undefined behaviour, for
    [try_from_bytes] as for [is_instance_of] and for the parser of the header. *)
Theorem message_roundtrip `{MessageLaws M} pad (m : M) rest (bytes : list Z) b bs :
  msg_valid m ->
  Message_try_from_bytes M (to_bytes pad m ++ rest) = Ret (Ok m) /\
  Message_is_instance_of M (to_bytes pad m ++ rest) = Ret true /\
  Message_from_bytes_unchecked M (to_bytes pad m ++ rest) = Ret m /\
  ((length bytes < msg_size M)%nat -> Message_try_from_bytes M bytes = Ret (Err BufferTooSmall)) /\
  ((msg_size M <= length (b :: bs))%nat ->
   (forall t, MessageType_try_from b = Ok t -> t <> message_type M ->
      Message_try_from_bytes M (b :: bs) = Ret (Err (UnexpectedMessageId (message_type M) t)) /\
      Message_is_instance_of M (b :: bs) = Ret false) /\
   (MessageType_try_from b = Err tt ->
      Message_try_from_bytes M (b :: bs) = Panic /\ Message_is_instance_of M (b :: bs) = Panic /\
      MsgHeader_try_from_bytes (b :: bs) = Panic)).
Proof.
  intros Hv. split; [by apply try_from_bytes_valid|].
  unfold Message_is_instance_of, Message_from_bytes_unchecked.
  rewrite length_app, to_bytes_length.
  destruct (Nat.ltb_spec (msg_size M + length rest) (msg_size M)); [lia|].
  rewrite to_bytes_head, (msg_valid_header m Hv). cbn [mbind outcome_bind].
  rewrite bool_decide_eq_true_2 by done. split; [done|]. split; [by apply read_to_bytes|].
  unfold Message_try_from_bytes, MsgHeader_try_from_bytes. split.
  - intros Hl. apply Nat.ltb_lt in Hl. by rewrite Hl.
  - intros Hl. destruct (Nat.ltb_spec (length (b :: bs)) (msg_size M)); [lia|].
    cbn [MsgHeader_from_bytes_unchecked]. unfold read_message_type. split.
    + intros t Ht Hne. rewrite Ht. cbn [mbind outcome_bind mret outcome_ret]. rewrite sanitize_Ok, bool_decide_eq_false_2; done.
    + intros ->. done.
Qed.

Lemma header_try_valid `{MessageLaws M} pad (m : M) rest :
  msg_valid m ->
  MsgHeader_try_from_bytes (to_bytes pad m ++ rest) = Ret (Ok (MsgHeader_new (message_type M))).
Proof.
  intros Hv. unfold MsgHeader_try_from_bytes.
  destruct (to_bytes pad m ++ rest) as [|x l] eqn:E.
  - apply app_eq_nil in E as [E _]. pose proof (to_bytes_length pad m) as Hl.
    rewrite E in Hl. pose proof msg_size_pos. cbn in Hl. lia.
  - rewrite <- E, to_bytes_head, (msg_valid_header m Hv). cbn [mbind outcome_bind]. by rewrite sanitize_Ok.
Qed.

Ltac recv_valid :=
  intros ? Hv; unfold recv_message; cbn [snd]; rewrite header_try_valid by exact Hv;
  cbn [mbind outcome_bind hdr_id MsgHeader_new message_type MsgHeader_sanitize];
  unfold receive_as; cbn -[Message_try_from_bytes drop to_bytes];
  rewrite try_from_bytes_valid by exact Hv; reflexivity.

(** [recv_message] delivers the six messages the agent expects as the variant of
    their type, reports a failed receive as an error, and panics on the ids of all
    other messages, although [ReceivableMessages] has variants for
    four of them (Ok, ChildPid, AfterListen, AfterBind).  An id that no message has is
    read before it is checked, which is undefined. *)
Theorem recv_message_dispatch buffer pad :
  (forall m : HelloMessage, msg_valid m ->
     (recv_message buffer (Some (to_bytes pad m))).2 = Ret (Ok (RM_HelloMessage m))) /\
  (forall m : RunMessage, msg_valid m ->
     (recv_message buffer (Some (to_bytes pad m))).2 = Ret (Ok (RM_RunMessage m))) /\
  (forall m : TerminatedMessage, msg_valid m ->
     (recv_message buffer (Some (to_bytes pad m))).2 = Ret (Ok (RM_TerminatedMessage m))) /\
  (forall m : ShutdownMessage, msg_valid m ->
     (recv_message buffer (Some (to_bytes pad m))).2 = Ret (Ok (RM_ShutdownMessage m))) /\
  (forall m : TracePointStat, msg_valid m ->
     (recv_message buffer (Some (to_bytes pad m))).2 = Ret (Ok (RM_TracePointStat m))) /\
  (forall m : SyncMutations, msg_valid m ->
     (recv_message buffer (Some (to_bytes pad m))).2 = Ret (Ok (RM_SyncMutations m))) /\
  (recv_message buffer None).2 = Ret (Err (Channel FailedToReceive)) /\
  (forall b bs, MessageType_try_from b = Err tt -> (recv_message buffer (Some (b :: bs))).2 = Panic) /\
  (forall t bs, t ∈ [MsgIdInvalid; MsgIdOk; MT_KeepAlive; MT_ChildPid; MT_AuxStreamMessage;
                     MT_AfterListen; MT_AfterBind; MT_AfterConnect] ->
     (recv_message buffer (Some (MessageType_u8 t :: bs))).2 = Panic).
Proof.
  do 6 (split; [recv_valid|]).
  split; [done|]. split.
  - intros b bs Hb. unfold recv_message. cbn [snd app MsgHeader_try_from_bytes
      MsgHeader_from_bytes_unchecked mbind outcome_bind].
    unfold read_message_type. by rewrite Hb.
  - intros t bs Ht. repeat (apply elem_of_cons in Ht as [->|Ht]; [done|]).
    by apply elem_of_nil in Ht.
Qed.

(** [recv_message] does not look at the length of what was received: the first
    four bytes of a hello message are accepted, and the thread id is read from the
    bytes an earlier message left in the buffer. *)
Theorem recv_message_reads_stale_bytes pad pad' (m m0 : HelloMessage) rest :
  msg_valid m -> msg_valid m0 ->
  (recv_message (to_bytes pad' m0 ++ rest) (Some (take 4 (to_bytes pad m)))).2
  = Ret (Ok (RM_HelloMessage m0)).
Proof.
  intros [Hm _] Hm0. unfold recv_message. cbn [snd].
  assert (E : take 4 (to_bytes pad m) ++
     drop (length (take 4 (to_bytes pad m))) (to_bytes pad' m0 ++ rest)
    = to_bytes pad m0 ++ rest).
  { destruct m as [h t], m0 as [h0 t0]. cbn in Hm. destruct Hm0 as [Hm0 _]. cbn in Hm0. subst h h0.
    done. }
  rewrite E, header_try_valid by done. cbn [mbind outcome_bind].
  unfold receive_as. cbn -[Message_try_from_bytes to_bytes].
  by rewrite (try_from_bytes_valid pad m0 rest Hm0).
Qed.

(** ** Witnesses *)

Definition no_pad : nat -> Z := fun _ => 170.

Lemma message_roundtrip_witness :
  Message_try_from_bytes TracePointStat
    (to_bytes no_pad (TracePointStat_new 7 300 (Some 12)) ++ [1; 2; 3])
  = Ret (Ok (TracePointStat_new 7 300 (Some 12))).
Proof.
  destruct (message_roundtrip no_pad (TracePointStat_new 7 300 (Some 12)) [1; 2; 3] [] 0 [])
    as [H _]; [|exact H].
  split; [done|]. split; [done|]. split; [done|]. by intros i [= <-].
Defined.

Lemma hello_valid t : - 2 ^ 31 <= t < 2 ^ 31 -> msg_valid (HelloMessage_new t).
Proof. by split. Qed.
