(* ===== verification/Trace.v ===== *)
(** * Execution traces

    Models the agent's [generator/agent/src/tracing.rs] ([TraceMap]), its report to
    the scheduler ([postprocess_trace_map] and the tracing part of [run] in
    [generator/agent/src/agent.rs]), the scheduler's [scheduler/src/trace.rs]
    ([Trace]) and the ids of mutation sites ([fuzztruction_shared/src/types.rs]).

    The entries of a finalized [TraceMap] live in a mapping shared with the traced
    child; all its other fields are private to each process, so the child counts on
    a copy of [total_hits].  The results of [mmap] and [munmap] are arguments. *)

From S2P Require Import Prelude Messages.

(** [constants.rs]: the greatest number of patch points. *)
Definition MAX_PATCHPOINT_CNT : nat := N.to_nat 400000.

(** ** [TraceMap] *)

Record TraceEntry := mk_trace_entry { te_value : Z; te_hits : Z; te_order : option Z }.

Definition TraceEntry_new (value : Z) : TraceEntry := mk_trace_entry value 0 None.

(** [size_of::<TraceEntry<u64>>()] *)
Definition TraceEntry_size : Z := 24.

Record TraceMap := mk_trace_map {
  tm_data : option (list TraceEntry);
  tm_len_bytes : option Z;
  tm_allocated_slots : gset Z;
  tm_total_hits : Z;
}.

#[export] Instance TraceEntry_eq_dec : EqDecision TraceEntry.
Proof. solve_decision. Defined.
#[export] Instance TraceMap_eq_dec : EqDecision TraceMap.
Proof. solve_decision. Defined.

Definition TraceMap_new : TraceMap := mk_trace_map None None ∅ 0.

Definition alloc_slot (tm : TraceMap) (id : Z) : TraceMap :=
  mk_trace_map (tm_data tm) (tm_len_bytes tm) ({[ id ]} ∪ tm_allocated_slots tm) (tm_total_hits tm).

(** The ids of the slots in the order [sort] gives. *)
Definition sorted_ids (slots : gset Z) : list Z := merge_sort Z.le (elements slots).

Definition finalize (mmap_ok : bool) (tm : TraceMap) : outcome TraceMap :=
  if decide (tm_allocated_slots tm = ∅) then mret tm
  else
    let len := Z.of_nat (size (tm_allocated_slots tm)) * TraceEntry_size in
    _ ← assert_that mmap_ok;
    let wrapped_ids := TraceEntry_new <$> sorted_ids (tm_allocated_slots tm) in
    match tm_data tm with
    | Some _ => Panic
    | None => mret (mk_trace_map (Some wrapped_ids) (Some len) ∅ (tm_total_hits tm))
    end.

Definition hit_map (tm : TraceMap) : option (list TraceEntry) := tm_data tm.

(** [slice::binary_search_by] on the values of the entries: [lo] and [size] are the
    range that is left, halved until one element remains. *)
Fixpoint bsearch_range (fuel : nat) (data : list TraceEntry) (id : Z) (lo size : nat)
    : outcome nat :=
  match fuel with
  | O => mret lo
  | S fuel =>
      if (1 <? size)%nat
      then
        let half := (size / 2)%nat in
        let mid := (lo + half)%nat in
        e ← slice_get data mid;
        bsearch_range fuel data id (if te_value e >? id then lo else mid) (size - half)
      else mret lo
  end.

Definition binary_search (data : list TraceEntry) (id : Z) : outcome (option nat) :=
  if (length data =? 0)%nat then mret None
  else
    lo ← bsearch_range (length data) data id 0 (length data);
    e ← slice_get data lo;
    mret (if te_value e =? id then Some lo else None).

Definition report_hit (is_child : bool) (tm : TraceMap) (id : Z) : outcome TraceMap :=
  if negb is_child then mret tm
  else
    data ← unwrap (tm_data tm);
    idx ← binary_search data id;
    idx ← unwrap idx;
    total_hits ← checked_add 64 (tm_total_hits tm) 1;
    entry ← slice_get data idx;
    let order :=
      match te_order entry with
      | None => if total_hits =? 0 then None else Some total_hits
      | o => o
      end in
    hits ← checked_add 64 (te_hits entry) 1;
    data ← slice_set data idx (mk_trace_entry (te_value entry) hits order);
    mret (mk_trace_map (Some data) (tm_len_bytes tm) (tm_allocated_slots tm) total_hits).

Definition reset (munmap_ok : bool) (tm : TraceMap) : outcome TraceMap :=
  _ ← match tm_data tm with Some _ => assert_that munmap_ok | None => mret tt end;
  mret (mk_trace_map None None ∅ 0).

Definition reset_hits (tm : TraceMap) : TraceMap :=
  mk_trace_map (map (fun e => mk_trace_entry (te_value e) 0 None) <$> tm_data tm)
    (tm_len_bytes tm) (tm_allocated_slots tm) (tm_total_hits tm).

(** ** One run of the agent, as far as it concerns the trace *)

(** The loop over the entries: the sum of hits and the messages sent. *)
Fixpoint send_stats (trace_hits : Z) (entries : list TraceEntry) : outcome (list TracePointStat) :=
  match entries with
  | [] => mret []
  | e :: entries =>
      if te_hits e >? 0
      then
        trace_hits ← checked_add 64 trace_hits (te_hits e);
        msgs ← send_stats trace_hits entries;
        mret (TracePointStat_new (te_value e) (te_hits e) (te_order e) :: msgs)
      else send_stats trace_hits entries
  end.

Definition postprocess_trace_map (tm : TraceMap) : outcome (list TracePointStat * TraceMap) :=
  msgs ← match hit_map tm with Some entries => send_stats 0 entries | None => mret [] end;
  mret (msgs, reset_hits tm).

(** The hits the child reports through [__tracing_cb]; a panic ends the child, and
    [report_hit] panics before it changes anything. *)
Fixpoint child_run (tm : TraceMap) (hits : list Z) : TraceMap :=
  match hits with
  | [] => tm
  | id :: hits =>
      match report_hit true tm id with
      | Ret tm => child_run tm hits
      | Panic => tm
      end
  end.

(** [run] in the parent: finalize the map, fork a child that executes the source,
    wait for it and report the hits.  The entries are shared with the child, the
    other fields are not. *)
Definition run_traced (mmap_ok : bool) (tm : TraceMap) (hits : list Z)
    : outcome (list TracePointStat * TraceMap) :=
  tm ← finalize mmap_ok tm;
  let child := child_run tm hits in
  postprocess_trace_map
    (mk_trace_map (tm_data child) (tm_len_bytes tm) (tm_allocated_slots tm) (tm_total_hits tm)).

(** ** [Trace] *)

Definition TRACE_EXEC_CNT_LIMIT : Z := 16384.

Record Trace := mk_trace { exec_cnt : gmap Z Z; trace_exec_order : gmap Z Z }.

Definition from_trace_point_stats (msgs : list TracePointStat) : Trace :=
  foldl (fun t e =>
    if cnt e >? TRACE_EXEC_CNT_LIMIT then t
    else
      match execution_index e with
      | None => t
      | Some i => mk_trace (<[patch_point_id e := cnt e]> (exec_cnt t))
                           (<[patch_point_id e := i]> (trace_exec_order t))
      end) (mk_trace ∅ ∅) msgs.

Definition exec_order (t : Trace) (pp : Z) : option Z := trace_exec_order t !! pp.
Definition covered (t : Trace) : gset Z := dom (exec_cnt t).
Definition is_covered (t : Trace) (pp : Z) : bool := bool_decide (pp ∈ covered t).

(** [Ord] on [Option<u64>]: [None] is the least element. *)
Definition option_le (a b : option Z) : Prop :=
  match a, b with
  | None, _ => True
  | Some _, None => False
  | Some a, Some b => a <= b
  end.
#[export] Instance option_le_dec a b : Decision (option_le a b).
Proof. destruct a, b; cbn; apply _. Defined.

Definition order_le (t : Trace) (a b : Z) : Prop := option_le (exec_order t a) (exec_order t b).
#[export] Instance order_le_dec t a b : Decision (order_le t a b).
Proof. unfold order_le. apply _. Defined.

Definition covered_exec_ordered (t : Trace) : list Z :=
  merge_sort (order_le t) (elements (covered t)).

Definition hits_mapping (t : Trace) : gmap Z Z := exec_cnt t.
Definition exec_order_mapping (t : Trace) : gmap Z Z := trace_exec_order t.
Definition Trace_len (t : Trace) : nat := size (exec_cnt t).
Definition Trace_is_empty (t : Trace) : bool := (Trace_len t =? 0)%nat.

(** ** [MutationSiteID] *)

Definition MUTATION_SITE_ID_INVALID : Z := 0.

Record SiteIds := mk_site_ids { id_ctr : Z; id_map : gmap (Z * Z * Z) Z }.
Definition SiteIds_init : SiteIds := mk_site_ids (MUTATION_SITE_ID_INVALID + 1) ∅.

Definition MutationSiteID_get (st : SiteIds) (base_offset inode section_file_offset : Z)
    : outcome (Z * SiteIds) :=
  let key := (base_offset, inode, section_file_offset) in
  match id_map st !! key with
  | Some id => mret (id, st)
  | None =>
      let val := id_ctr st in
      let had_val := id_map st !! key in
      _ ← assert_that (bool_decide (had_val = None));
      ctr ← checked_add 64 (id_ctr st) 1;
      mret (val, mk_site_ids ctr (<[key := val]> (id_map st)))
  end.

Definition MutationSiteID_invalid : Z := MUTATION_SITE_ID_INVALID.

(** ** Sorting and searching *)

Lemma StronglySorted_lookup {A} (R : relation A) (l : list A) i j x y :
  StronglySorted R l -> l !! i = Some x -> l !! j = Some y -> (i < j)%nat -> R x y.
Proof.
  intros Hs. revert i j. induction Hs as [|a l Hs IH Ha]; intros i j Hi Hj Hij; [done|].
  destruct j as [|j]; [lia|]. destruct i as [|i]; cbn in Hi, Hj.
  - injection Hi as <-. rewrite Forall_forall in Ha. apply Ha.
    by eapply list_elem_of_lookup_2.
  - apply (IH i j); [done|done|lia].
Qed.

Lemma StronglySorted_strict (l : list Z) :
  StronglySorted Z.le l -> NoDup l -> StronglySorted Z.lt l.
Proof.
  induction 1 as [|a l Hs IH Ha]; intros Hn; [constructor|].
  apply NoDup_cons in Hn as [Hnin Hn]. constructor; [by apply IH|].
  rewrite Forall_forall in Ha |- *. intros x Hx. specialize (Ha x Hx).
  destruct (decide (a = x)) as [->|]; [done|lia].
Qed.

#[export] Instance Zle_total : Total Z.le.
Proof. intros x y. lia. Qed.

Lemma sorted_ids_sorted S : StronglySorted Z.lt (sorted_ids S).
Proof.
  apply StronglySorted_strict.
  - apply (StronglySorted_merge_sort Z.le).
  - unfold sorted_ids. rewrite merge_sort_Permutation. apply NoDup_elements.
Qed.

Lemma elem_of_sorted_ids S x : x ∈ sorted_ids S <-> x ∈ S.
Proof. unfold sorted_ids. by rewrite merge_sort_Permutation, elem_of_elements. Qed.

Lemma NoDup_sorted_ids S : NoDup (sorted_ids S).
Proof. unfold sorted_ids. rewrite merge_sort_Permutation. apply NoDup_elements. Qed.

(** The search stays within the slice. *)
Lemma bsearch_range_bounds fuel data id lo size :
  (0 < size)%nat -> (lo + size <= length data)%nat ->
  exists i, bsearch_range fuel data id lo size = Ret i /\ (i < length data)%nat.
Proof.
  revert lo size. induction fuel as [|fuel IH]; intros lo size Hs Hl; cbn [bsearch_range].
  { exists lo. split; [done|lia]. }
  destruct (Nat.ltb_spec 1 size); [|exists lo; split; [done|lia]].
  destruct (slice_get_lt data (lo + size / 2)) as (e & -> & _); [dlia|]. cbn [mbind outcome_bind].
  destruct (te_value e >? id); apply IH; dlia.
Qed.

(** In a strictly sorted slice it ends at the element it looks for. *)
Lemma bsearch_range_finds fuel data id lo size i :
  StronglySorted Z.lt (te_value <$> data) ->
  (te_value <$> data) !! i = Some id ->
  (lo <= i < lo + size)%nat -> (lo + size <= length data)%nat -> (size <= fuel)%nat ->
  bsearch_range fuel data id lo size = Ret i.
Proof.
  intros Hsort Hi. revert lo size. induction fuel as [|fuel IH]; intros lo size Hin Hl Hf;
    cbn [bsearch_range]; [lia|].
  destruct (Nat.ltb_spec 1 size); [|unfold mret, outcome_ret; f_equal; lia].
  destruct (slice_get_lt data (lo + size / 2)) as (e & -> & He); [dlia|]. cbn [mbind outcome_bind].
  assert (Hm : (te_value <$> data) !! (lo + size / 2)%nat = Some (te_value e))
    by (by rewrite list_lookup_fmap, He).
  rewrite Z.gtb_ltb. destruct (Z.ltb_spec id (te_value e)) as [Hlt|Hge].
  - assert ((i < lo + size / 2)%nat).
    { destruct (Nat.lt_trichotomy i (lo + size / 2)) as [|[E|Hij]]; [done| |].
      - rewrite E in Hi. rewrite Hi in Hm. injection Hm. lia.
      - pose proof (StronglySorted_lookup _ _ _ _ _ _ Hsort Hm Hi Hij). lia. }
    apply IH; dlia.
  - assert ((lo + size / 2 <= i)%nat).
    { destruct (Nat.le_gt_cases (lo + size / 2) i) as [|Hij]; [done|].
      pose proof (StronglySorted_lookup _ _ _ _ _ _ Hsort Hi Hm Hij). lia. }
    apply IH; dlia.
Qed.

Lemma binary_search_Some data id i :
  StronglySorted Z.lt (te_value <$> data) -> (te_value <$> data) !! i = Some id ->
  binary_search data id = Ret (Some i).
Proof.
  intros Hs Hi. unfold binary_search. pose proof (lookup_lt_Some _ _ _ Hi) as Hlt.
  rewrite length_fmap in Hlt. destruct (Nat.eqb_spec (length data) 0); [lia|].
  rewrite (bsearch_range_finds _ _ _ _ _ i) by (done || lia). cbn [mbind outcome_bind].
  rewrite list_lookup_fmap in Hi. apply fmap_Some in Hi as (e & He & ->).
  unfold slice_get. rewrite He. cbn. by rewrite Z.eqb_refl.
Qed.

Lemma binary_search_None data id :
  id ∉ te_value <$> data -> binary_search data id = Ret None.
Proof.
  intros Hn. unfold binary_search. destruct (Nat.eqb_spec (length data) 0); [done|].
  destruct (bsearch_range_bounds (length data) data id 0 (length data)) as (i & -> & Hi); [lia..|].
  cbn [mbind outcome_bind]. destruct (slice_get_lt data i Hi) as (e & -> & He).
  cbn [mbind outcome_bind]. destruct (Z.eqb_spec (te_value e) id) as [<-|]; [|done].
  contradict Hn. apply list_elem_of_fmap. exists e. split; [done|].
  by eapply list_elem_of_lookup_2.
Qed.

(** ** What the map holds after a sequence of hits *)

Definition hit_count (l : list Z) (id : Z) : Z := Z.of_nat (length (filter (eq id) l)).

(** The position of the first hit, counted from 1. *)
Definition first_hit (l : list Z) (id : Z) : option Z :=
  (fun r => Z.of_nat r.1 + 1) <$> list_find (eq id) l.

Definition entry_after (l : list Z) (id : Z) : TraceEntry :=
  mk_trace_entry id (hit_count l id) (first_hit l id).

Definition data_after (S : gset Z) (l : list Z) : list TraceEntry := entry_after l <$> sorted_ids S.

Lemma te_value_data_after S l : te_value <$> data_after S l = sorted_ids S.
Proof. unfold data_after. rewrite <- list_fmap_compose. apply list_fmap_id. Qed.

Lemma hit_count_snoc l id x :
  hit_count (l ++ [x]) id = hit_count l id + (if decide (id = x) then 1 else 0).
Proof.
  unfold hit_count. rewrite filter_app, length_app. cbn. case_decide; cbn; lia.
Qed.

Lemma hit_count_le l id : 0 <= hit_count l id <= Z.of_nat (length l).
Proof. unfold hit_count. pose proof (length_filter (eq id) l). lia. Qed.

Lemma first_hit_None l id : first_hit l id = None <-> id ∉ l.
Proof.
  unfold first_hit. rewrite fmap_None, list_find_None, Forall_forall. naive_solver.
Qed.

Lemma first_hit_snoc l id x :
  first_hit (l ++ [x]) id =
  match first_hit l id with
  | Some i => Some i
  | None => if decide (id = x) then Some (Z.of_nat (length l) + 1) else None
  end.
Proof.
  unfold first_hit. destruct (list_find (eq id) l) as [[i y]|] eqn:E; cbn.
  - by rewrite (list_find_app_l _ _ _ _ _ E).
  - rewrite list_find_app_r by done. cbn. by case_decide.
Qed.

Lemma hit_count_pos l id : 0 < hit_count l id <-> id ∈ l.
Proof.
  unfold hit_count. destruct (filter (eq id) l) as [|y k] eqn:E; cbn.
  - split; [lia|]. intros Hin. assert (H : id ∈ filter (eq id) l) by (by apply list_elem_of_filter).
    rewrite E in H. by apply elem_of_nil in H.
  - split; [|lia]. intros _. assert (H : y ∈ filter (eq id) l) by (rewrite E; by left).
    by apply list_elem_of_filter in H as [-> ?].
Qed.

(** A map that counts the hits [l] of the child since its run began. *)
Definition counting (S : gset Z) (l : list Z) (tm : TraceMap) : Prop :=
  tm_data tm = Some (data_after S l) /\ tm_total_hits tm = Z.of_nat (length l).

Lemma data_after_snoc S l id i :
  sorted_ids S !! i = Some id ->
  data_after S (l ++ [id]) = <[i := entry_after (l ++ [id]) id]> (data_after S l).
Proof.
  intros Hi. apply list_eq. intros j. unfold data_after.
  destruct (decide (j = i)) as [->|Hne].
  - rewrite list_lookup_insert_eq by (rewrite length_fmap; by eapply lookup_lt_Some).
    by rewrite list_lookup_fmap, Hi.
  - rewrite list_lookup_insert_ne by done. rewrite !list_lookup_fmap.
    destruct (sorted_ids S !! j) as [y|] eqn:Ej; [|done]. cbn. f_equal.
    assert (y <> id).
    { intros ->. apply Hne. by eapply NoDup_lookup; [apply NoDup_sorted_ids|..]. }
    unfold entry_after. rewrite hit_count_snoc, first_hit_snoc, !decide_False by done.
    f_equal; [lia|]. by destruct (first_hit l y).
Qed.

Lemma report_hit_counts S l tm id :
  counting S l tm -> id ∈ S -> Z.of_nat (length l) + 1 < 2 ^ 64 ->
  exists tm', report_hit true tm id = Ret tm' /\ counting S (l ++ [id]) tm' /\
    tm_len_bytes tm' = tm_len_bytes tm /\ tm_allocated_slots tm' = tm_allocated_slots tm.
Proof.
  intros [Hd Ht] Hid Hb. unfold report_hit. cbn [negb]. rewrite Hd. cbn [unwrap mbind outcome_bind].
  apply elem_of_sorted_ids, list_elem_of_lookup in Hid as (i & Hi).
  rewrite (binary_search_Some _ _ i); [|rewrite te_value_data_after..]; [|apply sorted_ids_sorted|exact Hi].
  cbn [unwrap mbind outcome_bind]. rewrite Ht, checked_add_lt by lia.
  cbn [mbind outcome_bind].
  assert (He : data_after S l !! i = Some (entry_after l id))
    by (unfold data_after; by rewrite list_lookup_fmap, Hi).
  unfold slice_get. rewrite He. cbn [unwrap mbind outcome_bind te_hits te_order te_value entry_after].
  pose proof (hit_count_le l id). rewrite checked_add_lt by lia.
  cbn [mbind outcome_bind]. rewrite slice_set_lt by (by eapply lookup_lt_Some).
  cbn [mbind outcome_bind]. eexists. split; [reflexivity|]. split; [|done].
  split; cbn [tm_data tm_total_hits]; [|rewrite length_app; cbn; lia].
  rewrite (data_after_snoc S l id i Hi). do 3 f_equal. unfold entry_after.
  rewrite hit_count_snoc, first_hit_snoc, decide_True by done. f_equal.
  destruct (first_hit l id); [done|]. rewrite decide_True by done.
  destruct (Z.eqb_spec (Z.of_nat (length l) + 1) 0); [lia|done].
Qed.

Lemma child_run_counts S l l' tm :
  counting S l tm -> Forall (fun id => id ∈ S) l' -> Z.of_nat (length l + length l') < 2 ^ 64 ->
  counting S (l ++ l') (child_run tm l').
Proof.
  intros Hc Hl'. revert l tm Hc. induction Hl' as [|id l' Hid Hl' IH]; intros l tm Hc Hb; cbn [child_run].
  { by rewrite app_nil_r. }
  cbn [length] in Hb. destruct (report_hit_counts S l tm id) as (tm' & -> & Hc' & _ & _); [done|done|lia|].
  rewrite (cons_middle id l l'), app_assoc. apply IH; [done|]. rewrite length_app. cbn. lia.
Qed.

(** ** The report of a run *)

(** A map that is ready for a run: slots are allocated but not finalized, or the
    entries of an earlier run were reset. *)
Definition ready (S : gset Z) (tm : TraceMap) : Prop :=
  S <> ∅ /\ tm_total_hits tm = 0 /\
  ((tm_data tm = None /\ tm_allocated_slots tm = S) \/
   (tm_data tm = Some (data_after S []) /\ tm_allocated_slots tm = ∅)).

Definition stat (l : list Z) (id : Z) : TracePointStat :=
  TracePointStat_new id (hit_count l id) (first_hit l id).

Lemma hit_count_cons l x id :
  hit_count (x :: l) id = hit_count l id + (if decide (id = x) then 1 else 0).
Proof. unfold hit_count. rewrite filter_cons. case_decide; cbn; lia. Qed.

Definition sum_Z (l : list Z) : Z := foldr Z.add 0 l.

Lemma sum_indicator (x : Z) ids :
  NoDup ids -> sum_Z ((fun id => if decide (id = x) then 1 else 0) <$> ids)
               = if decide (x ∈ ids) then 1 else 0.
Proof.
  induction 1 as [|id ids Hn Hnd IH]; [done|]. cbn. fold (sum_Z). unfold sum_Z in IH. rewrite IH.
  destruct (decide (x ∈ id :: ids)) as [Hx|Hx]; rewrite elem_of_cons in Hx; repeat case_decide;
    naive_solver lia.
Qed.

Lemma sum_hit_count l ids : NoDup ids -> sum_Z (hit_count l <$> ids) <= Z.of_nat (length l).
Proof.
  intros Hnd. induction l as [|x l IH].
  - clear Hnd. induction ids as [|id ids IH]; [done|]. change (sum_Z (hit_count [] <$> ids) <= 0). done.
  - assert (E : sum_Z (hit_count (x :: l) <$> ids)
      = sum_Z (hit_count l <$> ids) + sum_Z ((fun id => if decide (id = x) then 1 else 0) <$> ids)).
    { clear. induction ids as [|id ids IH]; cbn; [done|]. unfold sum_Z in IH. rewrite IH, hit_count_cons. lia. }
    rewrite E, (sum_indicator x ids Hnd). cbn [length]. case_decide; lia.
Qed.

Lemma send_stats_spec l ids acc :
  0 <= acc -> acc + sum_Z (hit_count l <$> ids) < 2 ^ 64 ->
  send_stats acc (entry_after l <$> ids) = Ret (stat l <$> filter (fun id => id ∈ l) ids).
Proof.
  revert acc. induction ids as [|id ids IH]; intros acc Ha Hb; [done|].
  cbn [fmap list_fmap sum_Z foldr] in Hb. fold (sum_Z (hit_count l <$> ids)) in Hb.
  pose proof (hit_count_le l id) as Hle. pose proof (hit_count_pos l id) as Hpos.
  assert (0 <= sum_Z (hit_count l <$> ids)).
  { clear. induction ids as [|i ids IH]; cbn; [done|]. pose proof (hit_count_le l i). unfold sum_Z in IH. lia. }
  cbn [fmap list_fmap send_stats]. rewrite filter_cons. cbn [entry_after te_hits te_value te_order].
  rewrite Z.gtb_ltb. destruct (Z.ltb_spec 0 (hit_count l id)) as [Hp|Hp].
  - rewrite checked_add_lt by lia. cbn [mbind outcome_bind]. rewrite IH by lia.
    rewrite decide_True by (by apply Hpos). done.
  - rewrite decide_False by (intros ?%Hpos; lia). apply IH; lia.
Qed.

Lemma finalize_ready S tm :
  ready S tm -> exists tm', finalize true tm = Ret tm' /\ tm_data tm' = Some (data_after S []) /\
    tm_total_hits tm' = 0 /\ tm_allocated_slots tm' = ∅.
Proof.
  intros (HS & Ht & [[Hd Hs]|[Hd Hs]]); unfold finalize.
  - rewrite Hs, decide_False by done. cbn [assert_that mbind outcome_bind]. rewrite Hd.
    eexists. split; [reflexivity|]. done.
  - rewrite decide_True by done. by exists tm.
Qed.

Lemma reset_data_after S l :
  map (fun e => mk_trace_entry (te_value e) 0 None) (data_after S l) = data_after S [].
Proof. unfold data_after. by rewrite <- list_fmap_compose. Qed.

Lemma run_traced_spec S tm hits :
  ready S tm -> Forall (fun id => id ∈ S) hits -> Z.of_nat (length hits) < 2 ^ 64 ->
  exists tm', ready S tm' /\
    run_traced true tm hits = Ret (stat hits <$> filter (fun id => id ∈ hits) (sorted_ids S), tm').
Proof.
  intros Hr Hh Hb. destruct (finalize_ready S tm Hr) as (tm1 & Hf & Hd & Ht & Hs).
  unfold run_traced. rewrite Hf. cbn [mbind outcome_bind].
  destruct (child_run_counts S [] hits tm1) as [Hc _]; [done|done|done|].
  cbn [app] in Hc. unfold postprocess_trace_map, hit_map. cbn [tm_data]. rewrite Hc.
  pose proof (sum_hit_count hits (sorted_ids S) (NoDup_sorted_ids S)).
  change (send_stats 0 (data_after S hits)) with (send_stats 0 (entry_after hits <$> sorted_ids S)). rewrite send_stats_spec by lia. cbn [mbind outcome_bind].
  eexists. split; [|reflexivity]. split; [apply Hr|]. split; [done|]. right.
  cbn [reset_hits tm_data tm_allocated_slots]. split; [|done]. cbn. by rewrite reset_data_after.
Qed.

(** ** The trace of a run *)

Definition add_stat (t : Trace) (e : TracePointStat) : Trace :=
  if cnt e >? TRACE_EXEC_CNT_LIMIT then t
  else
    match execution_index e with
    | None => t
    | Some i => mk_trace (<[patch_point_id e := cnt e]> (exec_cnt t))
                         (<[patch_point_id e := i]> (trace_exec_order t))
    end.

(** The sites a run covers: those hit, but not too often. *)
Definition site_covered (l : list Z) (id : Z) : Prop :=
  0 < hit_count l id <= TRACE_EXEC_CNT_LIMIT.

#[export] Instance site_covered_dec l id : Decision (site_covered l id).
Proof. unfold site_covered. apply _. Defined.

Lemma add_stats_spec l ids t id :
  Forall (fun i => i ∈ l) ids ->
  let t' := foldl add_stat t (stat l <$> ids) in
  exec_cnt t' !! id =
    (if decide (id ∈ ids /\ site_covered l id) then Some (hit_count l id) else exec_cnt t !! id) /\
  trace_exec_order t' !! id =
    (if decide (id ∈ ids /\ site_covered l id) then first_hit l id else trace_exec_order t !! id).
Proof.
  intros Hin. revert t. induction Hin as [|i ids Hi Hin IH]; intros t; cbn zeta.
  { cbn [fmap list_fmap foldl]. by rewrite !decide_False by (intros [[]%elem_of_nil _]). }
  cbn [fmap list_fmap foldl]. destruct (IH (add_stat t (stat l i))) as [-> ->]. clear IH.
  pose proof (proj2 (hit_count_pos l i) Hi) as Hpos.
  destruct (first_hit l i) as [p|] eqn:Ep; [|by apply first_hit_None in Ep].
  assert (Ea : add_stat t (stat l i) = if decide (site_covered l i)
     then mk_trace (<[i := hit_count l i]> (exec_cnt t)) (<[i := p]> (trace_exec_order t)) else t).
  { unfold add_stat, stat. cbn [cnt execution_index patch_point_id TracePointStat_new].
    rewrite Ep, Z.gtb_ltb. unfold site_covered.
    destruct (Z.ltb_spec TRACE_EXEC_CNT_LIMIT (hit_count l i)); case_decide; done || lia. }
  rewrite Ea. clear Ea.
  destruct (decide (id ∈ ids /\ site_covered l id)) as [[H1 H2]|Hn].
  - by rewrite !decide_True by (by split; [right|]).
  - destruct (decide (id = i)) as [->|Hne].
    + destruct (decide (site_covered l i)) as [Hc|Hc]; cbn [exec_cnt trace_exec_order].
      * rewrite !decide_True by (by split; [left|]). by rewrite !lookup_insert_eq, Ep.
      * by rewrite !decide_False by (intros [_ ?]; done).
    + rewrite (decide_False (P := id ∈ i :: ids /\ site_covered l id)), (decide_False (P := id ∈ i :: ids /\ site_covered l id))
        by (rewrite elem_of_cons; naive_solver).
      destruct (decide (site_covered l i)); cbn [exec_cnt trace_exec_order]; [|done].
      by rewrite !lookup_insert_ne by done.
Qed.

Lemma site_covered_in l id : site_covered l id -> id ∈ l.
Proof. intros [H _]. by apply hit_count_pos. Qed.

Lemma trace_of_stats S l :
  Forall (fun id => id ∈ S) l ->
  let t := from_trace_point_stats (stat l <$> filter (fun id => id ∈ l) (sorted_ids S)) in
  (forall id, exec_cnt t !! id = if decide (site_covered l id) then Some (hit_count l id) else None) /\
  (forall id, exec_order t id = if decide (site_covered l id) then first_hit l id else None).
Proof.
  intros HS t.
  assert (H : forall id, (id ∈ filter (fun i => i ∈ l) (sorted_ids S) /\ site_covered l id)
                         <-> site_covered l id).
  { intros id. split; [by intros [_ ?]|]. intros Hc. split; [|done]. apply list_elem_of_filter.
    pose proof (site_covered_in _ _ Hc). rewrite Forall_forall in HS. split; [done|].
    apply elem_of_sorted_ids. auto. }
  assert (Hin : Forall (fun i => i ∈ l) (filter (fun i => i ∈ l) (sorted_ids S))).
  { apply Forall_forall. intros i Hi. by apply list_elem_of_filter in Hi as [? _]. }
  split; intros id; destruct (add_stats_spec l _ (mk_trace ∅ ∅) id Hin) as [H1 H2].
  - rewrite (decide_ext _ _ _ _ (H id)) in H1. exact H1.
  - rewrite (decide_ext _ _ _ _ (H id)) in H2. exact H2.
Qed.

(** [first_hit] orders the sites strictly. *)
Definition hit_before (l : list Z) (a b : Z) : Prop :=
  exists p q, first_hit l a = Some p /\ first_hit l b = Some q /\ p < q.

Lemma first_hit_inj l a b p : first_hit l a = Some p -> first_hit l b = Some p -> a = b.
Proof.
  unfold first_hit. intros (ra & Ha & Ea)%fmap_Some (rb & Hb & Eb)%fmap_Some.
  destruct ra as [i x], rb as [j y]. cbn in *. assert (i = j) as <- by lia.
  apply list_find_Some in Ha as (Ha & -> & _). apply list_find_Some in Hb as (Hb & -> & _).
  congruence.
Qed.

#[export] Instance order_le_trans t : Transitive (order_le t).
Proof.
  intros a b c. unfold order_le. destruct (exec_order t a), (exec_order t b), (exec_order t c);
    cbn; intros; done || lia.
Qed.
#[export] Instance order_le_total t : Total (order_le t).
Proof.
  intros a b. unfold order_le. destruct (exec_order t a), (exec_order t b); cbn; auto. lia.
Qed.

Lemma elem_of_covered t id : id ∈ covered t <-> is_Some (exec_cnt t !! id).
Proof. unfold covered. apply elem_of_dom. Qed.

Lemma sorted_hit_before l t ids :
  (forall id, id ∈ ids -> is_Some (exec_order t id) /\ exec_order t id = first_hit l id) ->
  NoDup ids -> StronglySorted (order_le t) ids -> StronglySorted (hit_before l) ids.
Proof.
  intros Hf Hnd Hs. induction Hs as [|a ids Hs IH Ha]; [constructor|].
  apply NoDup_cons in Hnd as [Hn Hnd].
  assert (Hf' : forall id, id ∈ ids -> is_Some (exec_order t id) /\ exec_order t id = first_hit l id)
    by (intros; apply Hf; by right).
  constructor; [by apply IH|]. rewrite Forall_forall in Ha |- *. intros b Hb. specialize (Ha b Hb).
  destruct (Hf a) as [[p Hp] Ea]; [by left|]. destruct (Hf' b Hb) as [[q Hq] Eb].
  unfold order_le in Ha. rewrite Hp, Hq in Ha. cbn in Ha. rewrite Hp in Ea. rewrite Hq in Eb.
  exists p, q. split; [done|]. split; [done|].
  destruct (decide (p = q)) as [->|]; [|lia].
  rewrite (first_hit_inj l a b q) in Hn by done. done.
Qed.

Lemma covered_ordered S l :
  Forall (fun id => id ∈ S) l ->
  let t := from_trace_point_stats (stat l <$> filter (fun id => id ∈ l) (sorted_ids S)) in
  StronglySorted (hit_before l) (covered_exec_ordered t) /\
  (forall id, id ∈ covered_exec_ordered t <-> site_covered l id) /\
  Trace_len t = length (covered_exec_ordered t).
Proof.
  intros HS t. destruct (trace_of_stats S l HS) as [Hc Ho]. fold t in Hc, Ho.
  assert (Hel : forall id, id ∈ covered_exec_ordered t <-> site_covered l id).
  { intros id. unfold covered_exec_ordered.
    rewrite merge_sort_Permutation, elem_of_elements, elem_of_covered, Hc.
    case_decide; split; done || by intros [? [=]]. }
  split; [|split; [done|]].
  - apply (sorted_hit_before l t).
    + intros id Hid. rewrite Ho. apply Hel in Hid. rewrite decide_True by done. split; [|done].
      destruct (first_hit l id) eqn:E; [done|]. apply first_hit_None in E.
      by apply site_covered_in in Hid.
    + unfold covered_exec_ordered. rewrite merge_sort_Permutation. apply NoDup_elements.
    + apply (StronglySorted_merge_sort (order_le t)); apply _.
  - unfold Trace_len, covered_exec_ordered. rewrite merge_sort_Permutation.
    change (length (elements (covered t))) with (size (covered t)). unfold covered.
    by rewrite size_dom.
Qed.

(** C8: tracing is exact: when the traced child reports the hits [hits] of allocated
    sites, the trace the scheduler builds from the agent's messages contains exactly
    the sites that were hit, except those hit more than 16384 times; each with its
    number of hits and the position of its first hit, and [covered_exec_ordered] lists
    them in the order of their first hits.  The map is ready for the next run, so the
    runs do not influence each other. *)
Theorem trace_of_run S tm hits :
  ready S tm -> Forall (fun id => id ∈ S) hits -> Z.of_nat (length hits) < 2 ^ 64 ->
  exists msgs tm', run_traced true tm hits = Ret (msgs, tm') /\ ready S tm' /\
    let t := from_trace_point_stats msgs in
    (forall id, hits_mapping t !! id
                = if decide (site_covered hits id) then Some (hit_count hits id) else None) /\
    (forall id, exec_order t id = if decide (site_covered hits id) then first_hit hits id else None) /\
    (forall id, is_covered t id = bool_decide (site_covered hits id)) /\
    StronglySorted (hit_before hits) (covered_exec_ordered t) /\
    (forall id, id ∈ covered_exec_ordered t <-> site_covered hits id) /\
    Trace_len t = length (covered_exec_ordered t).
Proof.
  intros Hr Hh Hb. destruct (run_traced_spec S tm hits Hr Hh Hb) as (tm' & Hr' & Hrun).
  eexists _, tm'. split; [exact Hrun|]. split; [done|]. intros t.
  destruct (trace_of_stats S hits Hh) as [Hc Ho]. fold t in Hc, Ho.
  split; [exact Hc|]. split; [exact Ho|]. split; [|by apply covered_ordered].
  intros id. apply bool_decide_ext. rewrite elem_of_covered, Hc.
  case_decide; split; done || by intros [? [=]].
Qed.

(** The guards of [TraceMap]: the parent process never records a hit; in the child
    a hit panics when the map is not finalized or the site has no slot; [finalize]
    does nothing without new slots and panics when an earlier mapping was not reset;
    [reset] gives a new map; allocating slots and finalizing makes the map ready. *)
Theorem trace_map_guards tm id data S :
  report_hit false tm id = Ret tm /\
  (tm_data tm = None -> report_hit true tm id = Panic) /\
  (tm_data tm = Some data -> id ∉ te_value <$> data -> report_hit true tm id = Panic) /\
  (tm_allocated_slots tm = ∅ -> forall ok, finalize ok tm = Ret tm) /\
  (tm_allocated_slots tm <> ∅ -> is_Some (tm_data tm) -> forall ok, finalize ok tm = Panic) /\
  reset true tm = Ret TraceMap_new /\
  (S <> [] -> ready (list_to_set S) (foldl alloc_slot TraceMap_new S)).
Proof.
  split; [done|]. split; [by unfold report_hit; intros ->|]. split.
  { intros Hd Hn. unfold report_hit. rewrite Hd. cbn [negb unwrap mbind outcome_bind].
    by rewrite binary_search_None. }
  split; [by intros Hs ok; unfold finalize; rewrite decide_True|]. split.
  { intros Hs [d Hd] ok. unfold finalize. rewrite decide_False, Hd by done. by destruct ok. }
  split; [unfold reset; by destruct (tm_data tm)|].
  intros HS. assert (H : forall tm0, tm_allocated_slots (foldl alloc_slot tm0 S)
                                     = list_to_set S ∪ tm_allocated_slots tm0 /\
                         tm_data (foldl alloc_slot tm0 S) = tm_data tm0 /\
                         tm_total_hits (foldl alloc_slot tm0 S) = tm_total_hits tm0).
  { clear HS. induction S as [|x S IH]; intros tm0; cbn [foldl list_to_set].
    - split; [|done]. cbn. set_solver.
    - destruct (IH (alloc_slot tm0 x)) as (-> & -> & ->). split; [|done]. cbn. set_solver. }
  destruct (H TraceMap_new) as (H1 & H2 & H3). split; [|split; [done|left; split; [done|]]].
  - destruct S; [done|]. cbn. set_solver.
  - rewrite H1. cbn. set_solver.
Qed.

(** ** Unique ids *)

(** The calls of [get] for the sites of a list. *)
Fixpoint get_all (st : SiteIds) (keys : list (Z * Z * Z)) : outcome (list Z * SiteIds) :=
  match keys with
  | [] => mret ([], st)
  | (b, i, o) :: keys =>
      r ← MutationSiteID_get st b i o;
      rs ← get_all r.2 keys;
      mret (r.1 :: rs.1, rs.2)
  end.

Definition ids_wf (st : SiteIds) : Prop :=
  0 < id_ctr st /\
  (forall k id, id_map st !! k = Some id -> 0 < id < id_ctr st) /\
  (forall k k' id, id_map st !! k = Some id -> id_map st !! k' = Some id -> k = k').

Lemma get_spec st b i o :
  ids_wf st -> id_ctr st + 1 < 2 ^ 64 ->
  exists id st', MutationSiteID_get st b i o = Ret (id, st') /\ ids_wf st' /\
    id_map st' !! (b, i, o) = Some id /\ id_map st ⊆ id_map st' /\
    id_ctr st <= id_ctr st' <= id_ctr st + 1.
Proof.
  intros (Hp & Hr & Hi) Hb. unfold MutationSiteID_get.
  destruct (id_map st !! (b, i, o)) as [id|] eqn:E.
  - exists id, st. do 4 (split; [done|]). lia.
  - rewrite bool_decide_true by done. cbn [assert_that mbind outcome_bind].
    rewrite checked_add_lt by lia. cbn [mbind outcome_bind]. eexists _, _. split; [reflexivity|].
    cbn [id_map id_ctr]. split; [|split; [by apply lookup_insert_eq|split; [by apply insert_subseteq|lia]]].
    split; [cbn; lia|]. split; cbn [id_map id_ctr].
    + intros k id [[<- <-]|[_ Hk]]%lookup_insert_Some; [lia|]. specialize (Hr _ _ Hk). lia.
    + intros k k' id Hk Hk'.
      apply lookup_insert_Some in Hk as [[<- <-]|[Hne Hk]];
      apply lookup_insert_Some in Hk' as [[<- E']|[Hne' Hk']]; subst; try done.
      * specialize (Hr _ _ Hk'). lia.
      * specialize (Hr _ _ Hk). lia.
      * by eapply Hi.
Qed.

Lemma get_all_spec st keys :
  ids_wf st -> id_ctr st + Z.of_nat (length keys) < 2 ^ 64 ->
  exists ids st', get_all st keys = Ret (ids, st') /\ ids_wf st' /\ id_map st ⊆ id_map st' /\
    length ids = length keys /\
    (forall n k id, keys !! n = Some k -> ids !! n = Some id -> id_map st' !! k = Some id).
Proof.
  revert st. induction keys as [|[[b i] o] keys IH]; intros st Hwf Hb; cbn [get_all length] in *.
  { exists [], st. do 4 (split; [done|]). done. }
  destruct (get_spec st b i o) as (id & st1 & -> & Hwf1 & Hk & Hsub & Hc); [done|lia|].
  cbn [mbind outcome_bind fst snd]. destruct (IH st1) as (ids & st2 & -> & Hwf2 & Hsub2 & Hl & Hn); [done|lia|].
  cbn [mbind outcome_bind fst snd]. exists (id :: ids), st2. split; [done|]. split; [done|].
  split; [by etrans|]. split; [cbn; lia|]. intros [|n] k x Hkx Hx; cbn in Hkx, Hx; [|by eapply Hn].
  injection Hkx as <-. injection Hx as <-. by eapply lookup_weaken.
Qed.

(** The ids of mutation sites are stable and unique: over all calls from the start
    of the program, two calls return the same id exactly when they name the same site
    (address, inode and section offset), and no call returns the invalid id 0. *)
Theorem site_ids_unique keys :
  Z.of_nat (length keys) + 1 < 2 ^ 64 ->
  exists ids st, get_all SiteIds_init keys = Ret (ids, st) /\ length ids = length keys /\
    (forall n m k k' id id', keys !! n = Some k -> keys !! m = Some k' ->
       ids !! n = Some id -> ids !! m = Some id' -> (id = id' <-> k = k')) /\
    Forall (fun id => id <> MutationSiteID_invalid) ids.
Proof.
  intros Hb. destruct (get_all_spec SiteIds_init keys) as (ids & st & Hg & (Hp & Hr & Hi) & _ & Hl & Hn).
  - split; [cbn; unfold MUTATION_SITE_ID_INVALID; lia|]. by split; intros; cbn in *; rewrite lookup_empty in *.
  - cbn. unfold MUTATION_SITE_ID_INVALID. lia.
  - exists ids, st. split; [done|]. split; [done|]. split.
    + intros n m k k' id id' Hk Hk' Hid Hid'. pose proof (Hn _ _ _ Hk Hid). pose proof (Hn _ _ _ Hk' Hid').
      split; [intros <-; by eapply Hi|intros <-; congruence].
    + apply Forall_lookup. intros n id Hid.
      destruct (lookup_lt_is_Some_2 keys n) as [k Hk]; [rewrite <- Hl; by eapply lookup_lt_Some|].
      specialize (Hr _ _ (Hn _ _ _ Hk Hid)). unfold MutationSiteID_invalid, MUTATION_SITE_ID_INVALID. lia.
Qed.

(** ** Witnesses *)

Definition demo_slots : list Z := [7; 3; 9].
Definition demo_tm : TraceMap := foldl alloc_slot TraceMap_new demo_slots.

Lemma demo_tm_ready : ready (list_to_set demo_slots) demo_tm.
Proof.
  split; [|split; [done|left; split; [done|]]].
  - unfold demo_slots. cbn. set_solver.
  - cbn. set_solver.
Qed.

Lemma trace_of_run_witness :
  exists msgs tm', run_traced true demo_tm [9; 3; 9; 9] = Ret (msgs, tm') /\
    ready (list_to_set demo_slots) tm'.
Proof.
  destruct (trace_of_run (list_to_set demo_slots) demo_tm [9; 3; 9; 9] demo_tm_ready)
    as (msgs & tm' & Hrun & Hr & _); [|done|].
  - repeat (apply Forall_cons; split; [unfold demo_slots; set_solver|]). done.
  - by exists msgs, tm'.
Defined.

(** The run of the first witness, evaluated. *)
Example trace_example :
  (r ← run_traced true demo_tm [9; 3; 9; 9];
   let t := from_trace_point_stats r.1 in
   mret (covered_exec_ordered t, hits_mapping t !! 9, exec_order t 3))
  = Ret ([9; 3], Some 3, Some 2).
Proof. vm_compute. reflexivity. Qed.
