(* ===== verification/MutationSite.v ===== *)
(** * Mutation sites

    Models [scheduler/src/mutation_site.rs] with the [MapRange] of
    [lib/proc-maps/src/linux_maps.rs].  The parsed stack map and the ELF header come
    from the [llvm_stackmap] and [elf] crates: the records carry the fields the code
    reads, and the conversion of instruction codes is the parameter [ins_of_code].
    Integers are [u64] as [Z], with checked arithmetic. *)

From S2P Require Import Prelude Messages Trace MutationCacheEntry.

Record MapRange := mk_map_range {
  range_start : Z; range_end : Z; mr_offset : Z; mr_dev : string; mr_flags : string;
  mr_inode : Z; mr_pathname : option string;
}.

#[export] Instance MapRange_eq_dec : EqDecision MapRange.
Proof. solve_decision. Defined.

Definition MapRange_size (m : MapRange) : outcome Z := checked_sub (range_end m) (range_start m).
Definition MapRange_start (m : MapRange) : Z := range_start m.

Definition PATCH_POINT_SIZE : Z := 32.

(** What the code reads of [llvm_stackmap] besides [StackMap]. *)
Class StackMapRecords `{StackMap} := {
  LocationType_Register : LocationType;
  LocationType_Direct : LocationType;
  offset_or_constant : Location -> Z;
  (** [TryInto<LLVMInstruction> for u64] *)
  ins_of_code : Z -> option LLVMInstruction;
}.

Record StkSizeRecord := mk_size_record { ssr_function_address : Z; ssr_record_count : nat }.
Record StkMapRecord `{StackMap} := mk_map_record {
  smr_patch_point_id : Z; smr_instruction_offset : Z; smr_locations : list Location;
}.
Arguments mk_map_record {_}.

(** The two ELF types the code accepts, and all others. *)
Inductive ElfType := ET_DYN | ET_EXEC | ET_other.

Section site.
Context `{L : EntryLayout} `{!StackMapRecords}.

Record MutationSite := mk_site {
  ms_id : Z;
  ms_function_address : Z;
  ms_base : Z;
  ms_address : Z;
  ms_llvm_instruction : LLVMInstruction;
  ms_spill_slot : Location;
  ms_target_value_size_in_bit : nat;
  ms_mapping : MapRange;
}.

#[export] Instance MutationSite_eq_dec : EqDecision MutationSite.
Proof. solve_decision. Defined.

Definition MutationSite_new (st : SiteIds) (base address llvm_id : Z) (spill_slot : Location)
    (target_value_size_in_bit : nat) (mapping : MapRange) (function_address : Z)
    : outcome (MutationSite * SiteIds) :=
  s ← checked_add 64 address base;
  _ ← assert_that (0 <? s);
  id ← MutationSiteID_get st address (mr_inode mapping) (mr_offset mapping);
  ins ← unwrap (ins_of_code llvm_id);
  mret (mk_site id.1 function_address base address ins spill_slot target_value_size_in_bit mapping,
        id.2).

Definition MutationSite_vma (s : MutationSite) : outcome Z :=
  checked_add 64 (ms_base s) (ms_address s).

Definition MutationSite_vma_range (s : MutationSite) : outcome (Z * Z) :=
  vma ← MutationSite_vma s;
  fin ← checked_add 64 vma PATCH_POINT_SIZE;
  mret (vma, fin).

Definition MutationSite_target_value_size_byte (s : MutationSite) : nat :=
  div_ceil_8 (ms_target_value_size_in_bit s).

Definition into_mutation_cache_entry (pp : MutationSite) : outcome MutationCacheEntry :=
  vma ← MutationSite_vma pp;
  Entry_new (ms_id pp) (ms_llvm_instruction pp) vma (flag_u8 Flag_None) (ms_spill_slot pp)
    (ms_target_value_size_in_bit pp) 0.

(** [try_into().unwrap()] from the signed constant to [u32] *)
Definition try_into_u32 (z : Z) : outcome nat :=
  if decide (0 <= z < 2 ^ 32) then Ret (Z.to_nat z) else Panic.

(** The body of the loop over the records of a function. *)
Definition site_of_record (is_pic : bool) (base : Z) (mapping : MapRange) (fn : StkSizeRecord)
    (st : SiteIds) (record : StkMapRecord) : outcome (MutationSite * SiteIds) :=
  match smr_locations record with
  | [spill_slot_location; size_location] =>
      _ ← assert_that (bool_decide (loc_type spill_slot_location = LocationType_Register \/
                                    loc_type spill_slot_location = LocationType_Direct));
      _ ← assert_that (bool_decide (loc_type size_location = LocationType_Constant));
      let target_value_size := offset_or_constant size_location in
      _ ← assert_that (0 <? target_value_size);
      vma ← checked_add 64 (ssr_function_address fn) (smr_instruction_offset record);
      function_address ← checked_add 64 base (ssr_function_address fn);
      vf ← (if is_pic
            then
              vma ← checked_sub vma (mr_offset mapping);
              function_address ← checked_sub function_address (mr_offset mapping);
              absolute_vma ← checked_add 64 vma (MapRange_start mapping);
              size ← MapRange_size mapping;
              fin ← checked_add 64 (MapRange_start mapping) size;
              _ ← assert_that (absolute_vma <? fin);
              mret (vma, function_address)
            else mret (vma, function_address));
      size ← try_into_u32 target_value_size;
      MutationSite_new st base vf.1 (smr_patch_point_id record) spill_slot_location size
        mapping vf.2
  | _ => Panic
  end.

Fixpoint sites_of_records (is_pic : bool) (base : Z) (mapping : MapRange) (fn : StkSizeRecord)
    (st : SiteIds) (records : list StkMapRecord) : outcome (list MutationSite * SiteIds) :=
  match records with
  | [] => mret ([], st)
  | r :: records =>
      pp ← site_of_record is_pic base mapping fn st r;
      rest ← sites_of_records is_pic base mapping fn pp.2 records;
      mret (pp.1 :: rest.1, rest.2)
  end.

(** [for function in &map.stk_size_records]; [idx] counts the records consumed. *)
Fixpoint sites_of_functions (is_pic : bool) (base : Z) (mapping : MapRange)
    (all : list StkMapRecord) (idx : nat) (st : SiteIds) (fns : list StkSizeRecord)
    : outcome (list MutationSite * SiteIds) :=
  match fns with
  | [] => mret ([], st)
  | fn :: fns =>
      _ ← assert_that (0 <? ssr_function_address fn);
      _ ← assert_that (idx + ssr_record_count fn <=? length all)%nat;
      let records := take (ssr_record_count fn) (drop idx all) in
      pps ← sites_of_records is_pic base mapping fn st records;
      rest ← sites_of_functions is_pic base mapping all (idx + ssr_record_count fn) pps.2 fns;
      mret (pps.1 ++ rest.1, rest.2)
  end.

Definition from_stackmap (stk_size_records : list StkSizeRecord) (stk_map_records : list StkMapRecord)
    (mapping : MapRange) (e_type : ElfType) (st : SiteIds)
    : outcome (list MutationSite * SiteIds) :=
  match e_type with
  | ET_other => Panic
  | _ =>
      let is_pic := match e_type with ET_DYN => true | _ => false end in
      let base := if is_pic then MapRange_start mapping else 0 in
      sites_of_functions is_pic base mapping stk_map_records 0 st stk_size_records
  end.

(** ** [sanity_check_patch_points] of [scheduler/src/source.rs] *)

(** [sort_by_key] on ranges *)
Definition start_le (a b : Z * Z) : Prop := a.1 <= b.1.
Definition end_le (a b : Z * Z) : Prop := a.2 <= b.2.
#[export] Instance start_le_dec a b : Decision (start_le a b).
Proof. unfold start_le. apply _. Defined.
#[export] Instance end_le_dec a b : Decision (end_le a b).
Proof. unfold end_le. apply _. Defined.

Definition sanity_check_patch_points (patch_points : list MutationSite) : outcome unit :=
  vmas ← mapM MutationSite_vma patch_points;
  _ ← assert_that (size (list_to_set vmas : gset Z) =? length patch_points)%nat;
  let ids := ms_id <$> patch_points in
  _ ← assert_that (size (list_to_set ids : gset Z) =? length patch_points)%nat;
  patchpoint_ranges ← mapM MutationSite_vma_range patch_points;
  _ ← assert_that (length patchpoint_ranges =? length patch_points)%nat;
  let sorted_by_start := merge_sort start_le patchpoint_ranges in
  let sorted_by_end := merge_sort end_le patchpoint_ranges in
  assert_that (bool_decide (sorted_by_start = sorted_by_end)).

(** ** The sites of a well-formed stack map *)

(** The records with the function they belong to, as the nested loops visit them. *)
Fixpoint fn_records (all : list StkMapRecord) (idx : nat) (fns : list StkSizeRecord)
    : list (StkSizeRecord * StkMapRecord) :=
  match fns with
  | [] => []
  | fn :: fns => (pair fn <$> take (ssr_record_count fn) (drop idx all))
                 ++ fn_records all (idx + ssr_record_count fn) fns
  end.

Definition site_base (is_pic : bool) (mapping : MapRange) : Z :=
  if is_pic then range_start mapping else 0.

Definition site_address (is_pic : bool) (mapping : MapRange) (p : StkSizeRecord * StkMapRecord) : Z :=
  ssr_function_address p.1 + smr_instruction_offset p.2 - (if is_pic then mr_offset mapping else 0).

(** What the checks of the loop demand of a record. *)
Record record_ok (is_pic : bool) (mapping : MapRange) (p : StkSizeRecord * StkMapRecord) : Prop := {
  rok_locations : exists a b, smr_locations p.2 = [a; b] /\
    (loc_type a = LocationType_Register \/ loc_type a = LocationType_Direct) /\
    loc_type b = LocationType_Constant /\ 0 < offset_or_constant b < 2 ^ 32;
  rok_function : 0 < ssr_function_address p.1;
  rok_offset : 0 <= smr_instruction_offset p.2;
  rok_width : site_base is_pic mapping + ssr_function_address p.1 + smr_instruction_offset p.2 < 2 ^ 64;
  rok_instruction : is_Some (ins_of_code (smr_patch_point_id p.2));
  rok_mapping : is_pic = true ->
    0 <= mr_offset mapping <= ssr_function_address p.1 /\ 0 < range_start mapping /\
    range_start mapping + site_address is_pic mapping p < range_end mapping < 2 ^ 64;
}.

(** The site that belongs to a record. *)
Record site_matches (is_pic : bool) (mapping : MapRange) (p : StkSizeRecord * StkMapRecord)
    (s : MutationSite) : Prop := {
  sm_base : ms_base s = site_base is_pic mapping;
  sm_address : ms_address s = site_address is_pic mapping p;
  sm_vma : MutationSite_vma s = Ret (site_base is_pic mapping + site_address is_pic mapping p);
  sm_spill : Some (ms_spill_slot s) = smr_locations p.2 !! 0%nat;
  sm_size : Some (Z.of_nat (ms_target_value_size_in_bit s)) = offset_or_constant <$> smr_locations p.2 !! 1%nat;
  sm_instruction : Some (ms_llvm_instruction s) = ins_of_code (smr_patch_point_id p.2);
  sm_mapping : ms_mapping s = mapping;
}.

(** The key under which the id of a site is allocated. *)
Definition site_key (s : MutationSite) : Z * Z * Z :=
  (ms_address s, mr_inode (ms_mapping s), mr_offset (ms_mapping s)).

Lemma site_of_record_spec is_pic mapping fn r st :
  record_ok is_pic mapping (fn, r) -> ids_wf st -> id_ctr st + 1 < 2 ^ 64 ->
  exists s st', site_of_record is_pic (site_base is_pic mapping) mapping fn st r = Ret (s, st') /\
    site_matches is_pic mapping (fn, r) s /\ ids_wf st' /\ id_map st ⊆ id_map st' /\
    id_map st' !! site_key s = Some (ms_id s) /\ id_ctr st' <= id_ctr st + 1.
Proof.
  intros [(a & b & Hl & Ha & Hb & Hc) Hf Ho Hw [ins Hi] Hm] Hwf Hctr. cbn [fst snd] in *.
  unfold site_of_record. rewrite Hl, bool_decide_true, bool_decide_true by done.
  cbn [assert_that mbind outcome_bind]. rewrite (proj2 (Z.ltb_lt _ _)) by lia.
  assert (Hb0 : 0 <= site_base is_pic mapping)
    by (unfold site_base; destruct is_pic; [destruct (Hm eq_refl); lia|lia]).
  cbn [assert_that mbind outcome_bind]. rewrite !checked_add_lt by lia. cbn [mbind outcome_bind].
  set (addr := site_address is_pic mapping (fn, r)).
  match goal with |- context [mbind ?k (if is_pic then ?x else ?y)] =>
    assert (Hvf : exists f, (if is_pic then x else y) = Ret (addr, f)) end.
  { unfold addr, site_address in *. cbn [fst snd] in *. destruct is_pic.
    - destruct (Hm eq_refl) as (Hoff & Hst & Hend). unfold site_base, MapRange_start, MapRange_size, checked_sub in *.
      rewrite decide_True by lia. cbn [mbind outcome_bind]. rewrite decide_True by lia.
      cbn [mbind outcome_bind]. rewrite checked_add_lt by lia. cbn [mbind outcome_bind].
      rewrite decide_True by lia. cbn [mbind outcome_bind]. rewrite checked_add_lt by lia.
      cbn [mbind outcome_bind]. rewrite (proj2 (Z.ltb_lt _ _)) by lia. by eexists.
    - eexists. unfold mret, outcome_ret. do 2 f_equal. lia. }
  destruct Hvf as [f ->]. cbn [mbind outcome_bind fst snd]. unfold try_into_u32.
  rewrite decide_True by lia. cbn [mbind outcome_bind].
  assert (Haddr : 0 < addr + site_base is_pic mapping /\ addr + site_base is_pic mapping < 2 ^ 64).
  { unfold addr, site_address, site_base in *. cbn [fst snd] in *. destruct is_pic; [|lia].
    destruct (Hm eq_refl). lia. }
  unfold MutationSite_new. rewrite checked_add_lt by lia. cbn [mbind outcome_bind].
  rewrite (proj2 (Z.ltb_lt _ _)) by lia. cbn [assert_that mbind outcome_bind].
  destruct (get_spec st addr (mr_inode mapping) (mr_offset mapping) Hwf Hctr)
    as (id & st' & -> & Hwf' & Hk & Hsub & Hctr').
  cbn [mbind outcome_bind]. rewrite Hi. cbn [unwrap mbind outcome_bind fst snd].
  eexists _, st'. split; [reflexivity|]. split; [|split; [done|split; [done|split; [done|lia]]]].
  split; cbn; try done.
  - unfold MutationSite_vma. cbn. rewrite checked_add_lt by lia. done.
  - by rewrite Hl.
  - rewrite Hl. cbn. f_equal. lia.
Qed.

Lemma id_map_weaken st st' (s : MutationSite) id :
  id_map st ⊆ id_map st' -> id_map st !! site_key s = Some id -> id_map st' !! site_key s = Some id.
Proof. intros. by eapply lookup_weaken. Qed.

Lemma sites_of_records_spec is_pic mapping fn rs st :
  Forall (fun r => record_ok is_pic mapping (fn, r)) rs -> ids_wf st ->
  id_ctr st + Z.of_nat (length rs) < 2 ^ 64 ->
  exists ss st', sites_of_records is_pic (site_base is_pic mapping) mapping fn st rs = Ret (ss, st') /\
    Forall2 (site_matches is_pic mapping) (pair fn <$> rs) ss /\ ids_wf st' /\ id_map st ⊆ id_map st' /\
    Forall (fun s => id_map st' !! site_key s = Some (ms_id s)) ss /\
    id_ctr st' <= id_ctr st + Z.of_nat (length rs).
Proof.
  intros Hrs. revert st. induction Hrs as [|r rs Hr Hrs IH]; intros st Hwf Hctr; cbn [sites_of_records length] in *.
  { exists [], st. do 5 (split; [done || constructor|]). lia. }
  destruct (site_of_record_spec is_pic mapping fn r st) as (s & st1 & -> & Hs & Hwf1 & Hsub & Hk & Hc); [done..|lia|].
  cbn [mbind outcome_bind fst snd].
  destruct (IH st1) as (ss & st2 & -> & Hss & Hwf2 & Hsub2 & Hks & Hc2); [done|lia|].
  cbn [mbind outcome_bind fst snd]. exists (s :: ss), st2. split; [done|].
  split; [by constructor|]. split; [done|]. split; [by etrans|]. split; [|lia].
  constructor; [by eapply id_map_weaken|done].
Qed.

Lemma sites_of_functions_spec is_pic mapping all idx fns st :
  Forall (record_ok is_pic mapping) (fn_records all idx fns) ->
  Forall (fun fn => 0 < ssr_function_address fn) fns ->
  (idx + sum_list (ssr_record_count <$> fns) <= length all)%nat -> ids_wf st ->
  id_ctr st + Z.of_nat (sum_list (ssr_record_count <$> fns)) < 2 ^ 64 ->
  exists ss st', sites_of_functions is_pic (site_base is_pic mapping) mapping all idx st fns = Ret (ss, st') /\
    Forall2 (site_matches is_pic mapping) (fn_records all idx fns) ss /\ ids_wf st' /\
    id_map st ⊆ id_map st' /\ Forall (fun s => id_map st' !! site_key s = Some (ms_id s)) ss.
Proof.
  revert idx st. induction fns as [|fn fns IH]; intros idx st Hok Hfa Hlen Hwf Hctr;
    cbn [fn_records sites_of_functions fmap list_fmap sum_list_with] in *.
  { exists [], st. do 4 (split; [done || constructor|]). constructor. }
  change (id (ssr_record_count fn)) with (ssr_record_count fn) in *.
  apply Forall_app in Hok as [Hok1 Hok2]. apply Forall_cons_1 in Hfa as [Hfa1 Hfa2].
  rewrite (proj2 (Z.ltb_lt _ _)) by done. rewrite (proj2 (Nat.leb_le _ _)) by lia.
  cbn [assert_that mbind outcome_bind].
  assert (Hl : length (take (ssr_record_count fn) (drop idx all)) = ssr_record_count fn)
    by (rewrite length_take, length_drop; lia).
  destruct (sites_of_records_spec is_pic mapping fn (take (ssr_record_count fn) (drop idx all)) st)
    as (ss & st1 & -> & Hss & Hwf1 & Hsub & Hks & Hc); [rewrite Forall_fmap in Hok1; exact Hok1|done|lia|].
  cbn [mbind outcome_bind fst snd].
  destruct (IH (idx + ssr_record_count fn)%nat st1) as (ss2 & st2 & -> & Hss2 & Hwf2 & Hsub2 & Hks2);
    [done|done|lia|done|lia|].
  cbn [mbind outcome_bind fst snd]. exists (ss ++ ss2), st2. split; [done|].
  split; [by apply Forall2_app|]. split; [done|]. split; [by etrans|].
  apply Forall_app. split; [|done]. apply (Forall_impl _ _ _ Hks). intros s. by apply id_map_weaken.
Qed.

(** A stack map whose records pass the checks is turned into exactly one mutation
    site per record, in order; each has the address of its instruction (relative to
    the mapping for a position independent binary), the spill slot, size and
    instruction of its record, and two sites share an id exactly when they have the
    same address in the mapping. *)
Theorem stackmap_sites e_type mapping fns all st :
  let is_pic := match e_type with ET_DYN => true | _ => false end in
  e_type <> ET_other ->
  Forall (record_ok is_pic mapping) (fn_records all 0 fns) ->
  Forall (fun fn => 0 < ssr_function_address fn) fns ->
  (sum_list (ssr_record_count <$> fns) <= length all)%nat -> ids_wf st ->
  id_ctr st + Z.of_nat (sum_list (ssr_record_count <$> fns)) < 2 ^ 64 ->
  exists sites st', from_stackmap fns all mapping e_type st = Ret (sites, st') /\
    Forall2 (site_matches is_pic mapping) (fn_records all 0 fns) sites /\
    (forall i j s s', sites !! i = Some s -> sites !! j = Some s' ->
       (ms_id s = ms_id s' <-> ms_address s = ms_address s')).
Proof.
  intros is_pic Het Hok Hfa Hlen Hwf Hctr.
  destruct (sites_of_functions_spec is_pic mapping all 0 fns st)
    as (ss & st' & E & Hss & (_ & _ & Hinj) & _ & Hks); [done..|].
  exists ss, st'. split; [by destruct e_type|]. split; [done|]. intros i j s s' Hi Hj.
  rewrite Forall_lookup in Hks. pose proof (Hks _ _ Hi) as Hs. pose proof (Hks _ _ Hj) as Hs'.
  destruct (Forall2_lookup_r _ _ _ _ _ Hss Hi) as (p & _ & Hp).
  destruct (Forall2_lookup_r _ _ _ _ _ Hss Hj) as (p' & _ & Hp').
  split.
  - intros E'. rewrite E' in Hs. pose proof (Hinj _ _ _ Hs Hs') as Hkey.
    unfold site_key in Hkey. congruence.
  - intros E'. unfold site_key in Hs, Hs'.
    rewrite (sm_mapping _ _ _ _ Hp), E' in Hs. rewrite (sm_mapping _ _ _ _ Hp') in Hs'. congruence.
Qed.

(** ** The sanity check *)

Lemma size_list_to_set_length (l : list Z) :
  (size (list_to_set l : gset Z) <= length l)%nat /\
  (size (list_to_set l : gset Z) = length l <-> NoDup l).
Proof.
  induction l as [|x l [IHle IH]]; [split; [done|]; by split; [constructor|]|].
  cbn [list_to_set length]. destruct (decide (x ∈ l)) as [Hx|Hx].
  - assert (E : {[ x ]} ∪ list_to_set l = (list_to_set l : gset Z)) by set_solver.
    rewrite E. split; [lia|]. rewrite NoDup_cons. split; [lia|naive_solver].
  - rewrite size_union, size_singleton by set_solver. split; [lia|].
    rewrite NoDup_cons. rewrite <- IH. split; [|lia]. intros. split; [done|lia].
Qed.

Lemma ranges_sorts_agree (l : list (Z * Z)) :
  Forall (fun r => r.2 = r.1 + PATCH_POINT_SIZE) l -> merge_sort start_le l = merge_sort end_le l.
Proof.
  intros Hl. rewrite Forall_forall in Hl.
  apply (StronglySorted_unique_strong start_le).
  - intros [a1 a2] [b1 b2] Ha Hb H1 H2. rewrite merge_sort_Permutation in Ha, Hb.
    apply Hl in Ha, Hb. unfold start_le in *. cbn in *. f_equal; lia.
  - apply StronglySorted_merge_sort; unfold start_le; intros ?; intros; lia.
  - assert (Hs : StronglySorted end_le (merge_sort end_le l))
      by (apply StronglySorted_merge_sort; unfold end_le; intros ?; intros; lia).
    assert (Hin : forall r, r ∈ merge_sort end_le l -> r.2 = r.1 + PATCH_POINT_SIZE)
      by (intros r; rewrite merge_sort_Permutation; apply Hl).
    induction Hs as [|a k Hs IH Ha]; constructor.
    + apply IH. intros r Hr. apply Hin. by right.
    + rewrite Forall_forall in Ha |- *. intros b Hb. specialize (Ha b Hb). unfold start_le, end_le in *.
      rewrite (Hin a), (Hin b) in Ha by (by left || by right). lia.
  - by rewrite !merge_sort_Permutation.
Qed.

Definition site_vma (s : MutationSite) : Z := ms_base s + ms_address s.

Lemma vma_Ret s :
  site_vma s + PATCH_POINT_SIZE < 2 ^ 64 ->
  MutationSite_vma s = Ret (site_vma s) /\
  MutationSite_vma_range s = Ret (site_vma s, site_vma s + PATCH_POINT_SIZE).
Proof.
  intros Hs. assert (E : MutationSite_vma s = Ret (site_vma s)).
  { unfold MutationSite_vma, site_vma, PATCH_POINT_SIZE in *. by rewrite checked_add_lt by lia. }
  split; [done|]. unfold MutationSite_vma_range. rewrite E. cbn [mbind outcome_bind].
  by rewrite checked_add_lt.
Qed.

Lemma mapM_vma pps :
  Forall (fun s => site_vma s + PATCH_POINT_SIZE < 2 ^ 64) pps ->
  mapM MutationSite_vma pps = Ret (site_vma <$> pps) /\
  mapM MutationSite_vma_range pps = Ret ((fun s => (site_vma s, site_vma s + PATCH_POINT_SIZE)) <$> pps).
Proof.
  intros Hv. split; apply mapM_Ret; apply (Forall_impl _ _ _ Hv); intros s Hs; by apply vma_Ret.
Qed.

(** [sanity_check_patch_points] accepts a list of sites exactly when their addresses
    and their ids are unique.  Its overlap check never fails: all ranges have the same
    length, so sorting them by start and by end gives the same list, and sites whose
    patch points overlap are accepted. *)
Theorem sanity_check_misses_overlaps pps :
  Forall (fun s => site_vma s + PATCH_POINT_SIZE < 2 ^ 64) pps ->
  sanity_check_patch_points pps
  = if decide (NoDup (site_vma <$> pps) /\ NoDup (ms_id <$> pps)) then Ret tt else Panic.
Proof.
  intros Hv. destruct (mapM_vma pps Hv) as [E1 E2]. unfold sanity_check_patch_points.
  rewrite E1, E2. cbn [mbind outcome_bind]. rewrite length_fmap, Nat.eqb_refl.
  rewrite ranges_sorts_agree by (apply Forall_fmap, Forall_true; done).
  rewrite bool_decide_true by done.
  destruct (size_list_to_set_length (site_vma <$> pps)) as [_ Hv'].
  destruct (size_list_to_set_length (ms_id <$> pps)) as [_ Hi]. rewrite length_fmap in Hv', Hi.
  destruct (Nat.eqb_spec (size (list_to_set (site_vma <$> pps) : gset Z)) (length pps));
  destruct (Nat.eqb_spec (size (list_to_set (ms_id <$> pps) : gset Z)) (length pps));
    cbn; case_decide; done || naive_solver.
Qed.
End site.

(** ** Witness *)

(** With two kinds of locations, the spill slot is the one that is not constant. *)
#[local] Existing Instance demo_stackmap.
#[local] Existing Instance demo_layout.
#[local] Existing Instance demo_layout_laws.

#[local] Instance demo_records : StackMapRecords := {|
  LocationType_Register := false;
  LocationType_Direct := false;
  offset_or_constant := fun l => if (l : bool) then 32 else 0;
  ins_of_code := fun c => Some (demo_uncode c);
|}.

Definition demo_mapping : MapRange := mk_map_range 65536 131072 4096 "fd:01" "r-xp" 77 None.
Definition demo_fns : list StkSizeRecord := [mk_size_record 4200 2].
Definition demo_stk : list StkMapRecord :=
  [mk_map_record 1 8 [false; true]; mk_map_record 1 64 [false; true]].

Lemma demo_stk_ok : Forall (record_ok true demo_mapping) (fn_records demo_stk 0 demo_fns).
Proof.
  cbn. constructor; [|constructor; [|constructor]]; split; unfold site_base, site_address; cbn;
    try lia; try by eexists.
  all: exists false, true; split; [done|]; split; [by left|]; split; [done|lia].
Qed.

Example sites_example :
  (r ← from_stackmap demo_fns demo_stk demo_mapping ET_DYN SiteIds_init;
   mret (map (fun s => (ms_id s, ms_address s)) r.1))
  = Ret [(1, 112); (2, 168)].
Proof. vm_compute. reflexivity. Qed.

(** Two sites one byte apart. *)
Definition overlap_demo : list MutationSite :=
  [mk_site 1 4096 65536 112 Load_ false 32 demo_mapping; mk_site 2 4096 65536 113 Load_ false 32 demo_mapping].
