(* ===== verification/MutationCacheOps.v ===== *)
(** * Mutation caches and traces

    Models [scheduler/src/mutation_cache_ops.rs]: building a cache from mutation
    sites, and fitting a cache to an execution trace before fuzzing (dropping the
    uncovered entries and giving the covered ones a mask with one chunk per hit). *)

From S2P Require Import Prelude Bytes Messages Trace MutationCacheEntry MutationCacheContent MutationCache MutationSite.

Section ops.
Context `{L : EntryLayout} `{CL : ContentLayout}.
Implicit Types mc : MutationCache.
Implicit Types e : MutationCacheEntry.

(** [for p in patch_points { ret.push(&p.into()).unwrap() }] *)
Fixpoint push_sites mc (pps : list MutationSite) : outcome MutationCache :=
  match pps with
  | [] => mret mc
  | p :: pps =>
      e ← into_mutation_cache_entry p;
      r ← MutationCache_push mc e;
      _ ← unwrap r.1;
      push_sites r.2 pps
  end.

Definition from_patchpoints (new_cache : outcome MutationCache) (patch_points : list MutationSite)
    : outcome MutationCache :=
  ret ← new_cache; push_sites ret patch_points.

Definition remove_uncovered mc (trace : Trace) : outcome MutationCache :=
  let covered_ids := covered trace in
  MutationCache_retain mc (stateless (fun e => bool_decide (Entry_id e ∈ covered_ids))) tt.

(** The loop that clones the covered entries; [v as u32] truncates. *)
Fixpoint resize_loop (map : gmap Z Z) (entries : list MutationCacheEntry)
    : outcome (list MutationCacheEntry) :=
  match entries with
  | [] => mret []
  | entry :: entries =>
      match map !! Entry_id entry with
      | Some v =>
          chunk ← Entry_chunk_size_bytes entry;
          len ← checked_mul 32 (v mod 2 ^ 32) (Z.of_nat chunk);
          e ← Entry_clone_with_new_msk entry (Z.to_nat len);
          resized_entries ← resize_loop map entries;
          mret (e :: resized_entries)
      | None => resize_loop map entries
      end
  end.

Definition resize_covered_entries mc (trace : Trace) : outcome MutationCache :=
  resized_entries ← resize_loop (hits_mapping trace) (MutationCache_entries mc);
  mc ← remove_all mc (Entry_id <$> resized_entries);
  push_entries mc resized_entries.

(** The same body as [resize_covered_entries]: the entries that have a mask are not
    left out. *)
Definition resize_covered_entries_wo_msk mc (trace : Trace) : outcome MutationCache :=
  resized_entries ← resize_loop (hits_mapping trace) (MutationCache_entries mc);
  mc ← remove_all mc (Entry_id <$> resized_entries);
  push_entries mc resized_entries.
End ops.

Section ops_lemmas.
Context `{L : EntryLayout} `{CL : ContentLayout} `{!EntryLayoutLaws L}.
Implicit Types mc : MutationCache.
Implicit Types e : MutationCacheEntry.
Implicit Types es : list MutationCacheEntry.

(** ** Resizing *)

(** The mask a site with [v] hits gets: one chunk per hit. *)
Definition chunks_len e (v : Z) : nat := (Z.to_nat v * Entry_target_value_size_byte e)%nat.

Definition resized_to (trace : Trace) e e' : Prop :=
  exists v, hits_mapping trace !! Entry_id e = Some v /\
    e_metadata e' = with_msk_len (e_metadata e) (chunks_len e v) /\
    Entry_get_msk_as_slice e' = take (chunks_len e v) (Entry_get_msk_as_slice e)
                                ++ replicate (chunks_len e v - Entry_msk_len e) 0.

(** The size of an entry after resizing. *)
Definition resized_size (trace : Trace) e : nat :=
  match hits_mapping trace !! Entry_id e with
  | Some v => Entry_size (mk_entry (with_msk_len (e_metadata e) (chunks_len e v)) [])
  | None => 0
  end.

(** Values of one to eight bytes of instructions that can be mutated. *)
Definition mutable_value e : Prop :=
  (1 <= Entry_target_value_size_bit e <= 64)%nat /\ Entry_chunk_size_bits e <> Panic.

(** A trace as [trace_of_run] shows it: at least one and at most 16384 hits. *)
Definition trace_bounded (trace : Trace) : Prop :=
  forall id v, hits_mapping trace !! id = Some v -> 0 < v <= TRACE_EXEC_CNT_LIMIT.

Lemma chunk_size_bytes_Ret e :
  mutable_value e -> Entry_chunk_size_bytes e = Ret (Entry_target_value_size_byte e) /\
    (1 <= Entry_target_value_size_byte e <= 8)%nat.
Proof.
  intros [Hb Hc]. unfold Entry_target_value_size_byte.
  assert (Hbits : Entry_chunk_size_bits e = Ret (Entry_target_value_size_bit e)).
  { unfold Entry_chunk_size_bits, try_into_u16 in *. rewrite decide_True in * by lia.
    destruct (Entry_llvm_instruction e); cbn in *; try done;
      destruct (Entry_target_value_size_bit e =? 1)%nat; done. }
  split.
  - unfold Entry_chunk_size_bytes. rewrite Hbits. cbn [mbind outcome_bind].
    unfold div_ceil_8, mret, outcome_ret. f_equal.
    destruct (Nat.ltb_spec 0 (Entry_target_value_size_bit e mod 8));
      destruct (Nat.eqb_spec (Entry_target_value_size_bit e mod 8) 0); lia.
  - pose proof (div_ceil_8_spec (Entry_target_value_size_bit e)). lia.
Qed.

Definition is_traced (trace : Trace) e : bool := bool_decide (is_Some (hits_mapping trace !! Entry_id e)).

Lemma resize_loop_spec trace es :
  trace_bounded trace -> Forall entry_wf es -> Forall mutable_value es ->
  exists rs, resize_loop (hits_mapping trace) es = Ret rs /\
    Forall2 (fun e e' => resized_to trace e e' /\ entry_wf e') (List.filter (is_traced trace) es) rs.
Proof.
  intros Hb Hwf Hm. induction es as [|e es IH]; cbn [resize_loop List.filter].
  { exists []. split; [done|constructor]. }
  apply Forall_cons_1 in Hwf as [Hwf1 Hwf2]. apply Forall_cons_1 in Hm as [Hm1 Hm2].
  destruct (IH Hwf2 Hm2) as (rs & E & Hrs). unfold is_traced at 1.
  destruct (hits_mapping trace !! Entry_id e) as [v|] eqn:Ev.
  2: { rewrite bool_decide_false by (by intros []). by exists rs. }
  rewrite bool_decide_true by done. specialize (Hb _ _ Ev). unfold TRACE_EXEC_CNT_LIMIT in Hb.
  destruct (chunk_size_bytes_Ret e Hm1) as [-> Hc]. cbn [mbind outcome_bind].
  rewrite Z.mod_small by lia. unfold checked_mul. rewrite decide_True by nia. cbn [mbind outcome_bind].
  assert (Hn : Z.to_nat (v * Z.of_nat (Entry_target_value_size_byte e)) = chunks_len e v)
    by (unfold chunks_len; nia).
  rewrite Hn.
  destruct (clone_with_new_msk_Ret e (chunks_len e v) Hwf1) as (e' & -> & Hmd & Hmsk & Hw').
  { unfold chunks_len. nia. }
  { unfold chunks_len, MAX_MASK_LEN. nia. }
  cbn [mbind outcome_bind]. rewrite E. cbn [mbind outcome_bind]. exists (e' :: rs). split; [done|].
  constructor; [|done]. split; [by exists v|]. apply Hw'. lia.
Qed.

Lemma Entry_id_metadata e e' n : e_metadata e' = with_msk_len (e_metadata e) n -> Entry_id e' = Entry_id e.
Proof. intros E. unfold Entry_id. by rewrite E. Qed.

Lemma resized_ids trace es rs :
  Forall2 (fun e e' => resized_to trace e e' /\ entry_wf e') es rs ->
  Entry_id <$> rs = Entry_id <$> es /\ Forall entry_wf rs /\
  sizes rs = sum_list (resized_size trace <$> es) /\
  Forall2 (resized_to trace) es (entry_trim <$> rs).
Proof.
  induction 1 as [|e e' es rs [Hr Hwf] Hrs (IH1 & IH2 & IH3 & IH4)]; [done|].
  destruct Hr as (v & Hv & Hmd & Hmsk). split; [|split; [by constructor|split]].
  - cbn. by rewrite IH1, (Entry_id_metadata e e' _ Hmd).
  - unfold sizes in *. cbn. rewrite IH3. unfold resized_size at 2. rewrite Hv. f_equal.
    by apply Entry_size_metadata.
  - constructor; [|done]. exists v. split; [done|]. split; [done|]. by rewrite trim_msk.
Qed.

Lemma resize_rep mc es trace :
  cache_rep mc es -> NoDup (Entry_id <$> es) -> trace_bounded trace -> Forall mutable_value es ->
  (cc_current_data_size (mc_content mc) + sum_list (resized_size trace <$> List.filter (is_traced trace) es)
     <= length (cc_data (mc_content mc)))%nat ->
  (cc_next_free_slot (mc_content mc) + length (List.filter (is_traced trace) es)
     < length (cc_entry_decriptor_tbl (mc_content mc)))%nat ->
  exists mc' rs, resize_covered_entries mc trace = Ret mc' /\
    cache_rep mc' (List.filter (fun e => negb (is_traced trace e)) es ++ rs) /\
    Forall2 (resized_to trace) (List.filter (is_traced trace) es) rs.
Proof using EntryLayoutLaws0.
  intros Hr Hnd Hb Hm Hsz Hsl. destruct (rep_entries_stored mc es Hr) as [Hwf _].
  unfold resize_covered_entries. rewrite (cache_entries_rep mc es Hr).
  destruct (resize_loop_spec trace es Hb Hwf Hm) as (rs & -> & Hrs). cbn [mbind outcome_bind].
  pose proof (Forall2_length _ _ _ Hrs) as Hlen.
  destruct (resized_ids _ _ _ Hrs) as (Hids & Hwfr & Hszr & Hrs').
  set (p := fun id => negb (bool_decide (is_Some (hits_mapping trace !! id)))).
  destruct (remove_all_rep p mc [] es Hr Hnd) as (mc1 & E & Hr1 & Hd & Ht & Hn & Hc).
  assert (Hf : List.filter (fun e => negb (p (Entry_id e))) es = List.filter (is_traced trace) es).
  { apply filter_ext. intros e. unfold p, is_traced. apply negb_involutive. }
  rewrite Hf in E. rewrite Hids, E. cbn [mbind outcome_bind].
  destruct (push_entries_rep mc1 _ rs Hr1 Hwfr) as (mc' & E' & Hr'); [lia|lia|].
  exists mc', (entry_trim <$> rs). split; [exact E'|]. split; [exact Hr'|done].
Qed.

(** C18: preparing a cache for fuzzing an input: [remove_uncovered] keeps exactly the
    entries the trace covers, and [resize_covered_entries] moves every covered entry
    to the end with a mask of one chunk per hit, that keeps the old mask as far as it
    fits and is zero beyond it, and leaves the other entries alone.  Neither panics
    for a trace within the hit limit, values of 1 to 64 bits and enough room.
    [resize_covered_entries_wo_msk] does exactly the same, also to entries that
    already have a mask. *)
Theorem fit_cache_to_trace mc es trace :
  cache_rep mc es -> NoDup (Entry_id <$> es) -> trace_bounded trace -> Forall mutable_value es ->
  (cc_current_data_size (mc_content mc) + sum_list (resized_size trace <$> List.filter (is_traced trace) es)
     <= length (cc_data (mc_content mc)))%nat ->
  (cc_next_free_slot (mc_content mc) + length (List.filter (is_traced trace) es)
     < length (cc_entry_decriptor_tbl (mc_content mc)))%nat ->
  (exists mc', remove_uncovered mc trace = Ret mc' /\
     cache_rep mc' (List.filter (is_traced trace) es)) /\
  (exists mc' rs, resize_covered_entries mc trace = Ret mc' /\
     cache_rep mc' (List.filter (fun e => negb (is_traced trace e)) es ++ rs) /\
     Forall2 (resized_to trace) (List.filter (is_traced trace) es) rs) /\
  resize_covered_entries_wo_msk mc trace = resize_covered_entries mc trace.
Proof.
  intros Hr Hnd Hb Hm Hsz Hsl. split; [|split; [by apply resize_rep|done]].
  destruct (retain_filter mc es (fun e => bool_decide (Entry_id e ∈ covered trace)) Hr Hnd)
    as (mc' & E & Hr' & _).
  exists mc'. split; [exact E|].
  erewrite (filter_ext (is_traced trace)); [exact Hr'|]. intros e.
  unfold is_traced. apply bool_decide_ext. by rewrite elem_of_covered.
Qed.

(** ** Building a cache from sites *)

Definition site_entry (pp : MutationSite) : MutationCacheEntry :=
  let md := mk_metadata (ms_id pp) (ms_llvm_instruction pp) (ms_base pp + ms_address pp)
              (flag_u8 Flag_None) (ms_spill_slot pp) (ms_target_value_size_in_bit pp) 0 0 in
  mk_entry md (replicate (align_up_8 meta_size - meta_size) 0).

(** The fields fit the header of an entry. *)
Record site_ok (pp : MutationSite) : Prop := {
  sok_id : fits 64 (ms_id pp);
  sok_ins : match ms_llvm_instruction pp with OtherInstruction c => fits 32 c | _ => True end;
  sok_vma : fits 64 (ms_base pp + ms_address pp);
  sok_bits : fits 32 (Z.of_nat (ms_target_value_size_in_bit pp));
}.

Lemma site_entry_size pp : Entry_size (site_entry pp) = align_up_8 meta_size.
Proof.
  unfold Entry_size, Entry_size_wo_overflow_padding. change (Entry_msk_len (site_entry pp)) with 0%nat.
  cbn. by rewrite Nat.add_0_r.
Qed.

Lemma into_entry_Ret pp : site_ok pp ->
  into_mutation_cache_entry pp = Ret (site_entry pp) /\ entry_wf (site_entry pp) /\
  entry_trim (site_entry pp) = site_entry pp.
Proof.
  intros [Hid Hins Hvma Hbits]. pose proof (align_up_8_spec meta_size) as [Hal _]. split; [|split].
  - unfold into_mutation_cache_entry, MutationSite_vma. unfold fits in Hvma.
    rewrite checked_add_lt by lia. cbn [mbind outcome_bind]. unfold Entry_new, in_bounds, assert_that.
    cbn -[align_up_8]. rewrite Nat.add_0_r. rewrite (proj2 (Nat.leb_le _ _)) by lia. done.
  - split; [split; done|]. rewrite site_entry_size. cbn [site_entry e_tail].
    rewrite length_replicate. lia.
  - unfold entry_trim. rewrite site_entry_size. unfold site_entry. cbn [e_metadata e_tail]. f_equal.
    rewrite take_ge; [done|]. rewrite length_replicate. lia.
Qed.

Lemma push_sites_app mc pps pps2 :
  push_sites mc (pps ++ pps2) = (mc ← push_sites mc pps; push_sites mc pps2).
Proof.
  revert mc. induction pps as [|pp pps IH]; intros mc; [done|]. cbn [push_sites app].
  destruct (into_mutation_cache_entry pp) as [e|]; [|done]. cbn [mbind outcome_bind].
  destruct (MutationCache_push mc e) as [[[o|] mc1]|]; [|done|done]. cbn. apply IH.
Qed.

Lemma push_sites_rep pps mc es :
  cache_rep mc es -> Forall site_ok pps ->
  (cc_current_data_size (mc_content mc) + length pps * align_up_8 meta_size
     <= length (cc_data (mc_content mc)))%nat ->
  (cc_next_free_slot (mc_content mc) + length pps < length (cc_entry_decriptor_tbl (mc_content mc)))%nat ->
  exists mc', push_sites mc pps = Ret mc' /\ cache_rep mc' (es ++ (site_entry <$> pps)).
Proof using EntryLayoutLaws0.
  intros Hr Hok. revert mc es Hr. induction Hok as [|pp pps Hpp Hok IH]; intros mc es Hr Hsz Hsl.
  { exists mc. cbn. by rewrite app_nil_r. }
  cbn [push_sites length] in *. destruct (into_entry_Ret pp Hpp) as (-> & Hwf & Htrim).
  cbn [mbind outcome_bind]. destruct Hr as [Hrc Hs].
  destruct (push_rep (mc_content mc) es (site_entry pp) Hrc Hwf) as (data & E & Hd & Hr').
  { rewrite site_entry_size. lia. }
  { intros [off Hoff]. apply (cr_free _ _ Hrc) in Hoff as [_ ?]; lia. }
  unfold MutationCache_push. rewrite E. cbn [mbind outcome_bind fst snd unwrap].
  rewrite Htrim in Hr'.
  destruct (IH (with_content mc (pushed (mc_content mc) (site_entry pp) data)) (es ++ [site_entry pp]))
    as (mc' & E' & Hr2).
  - split; [exact Hr'|exact Hs].
  - cbn. rewrite Hd, site_entry_size. lia.
  - cbn. rewrite length_insert. lia.
  - exists mc'. split; [exact E'|]. rewrite <- app_assoc in Hr2. done.
Qed.

(** [from_patchpoints] gives a cache with exactly one entry per site, in order:
    the id, instruction, absolute address, spill slot and size of the site, no flags
    and no mask; it panics when the cache cannot take another entry. *)
Theorem cache_from_sites mc pps pp :
  cache_rep mc [] -> Forall site_ok (pps ++ [pp]) ->
  let room n := ((cc_current_data_size (mc_content mc) + n * align_up_8 meta_size
                    <= length (cc_data (mc_content mc)))%nat /\
                 (cc_next_free_slot (mc_content mc) + n
                    < length (cc_entry_decriptor_tbl (mc_content mc)))%nat) in
  (room (length pps) ->
   exists mc', from_patchpoints (Ret mc) pps = Ret mc' /\ cache_rep mc' (site_entry <$> pps) /\
     MutationCache_entries mc' = site_entry <$> pps /\
     (length (cc_data (mc_content mc')) < cc_current_data_size (mc_content mc') + align_up_8 meta_size ->
      from_patchpoints (Ret mc) (pps ++ [pp]) = Panic)%nat).
Proof.
  intros Hr Hok room [Hsz Hsl]. apply Forall_app in Hok as [Hok Hpp].
  destruct (push_sites_rep pps mc [] Hr Hok Hsz Hsl) as (mc' & E & Hr').
  exists mc'. cbn [from_patchpoints mbind outcome_bind]. split; [exact E|]. split; [exact Hr'|].
  split; [by apply cache_entries_rep|]. intros Hfull.
  rewrite push_sites_app, E. cbn [mbind outcome_bind push_sites].
  apply Forall_cons_1 in Hpp as [Hpp _]. destruct (into_entry_Ret pp Hpp) as (-> & Hwf & _).
  cbn [mbind outcome_bind]. unfold MutationCache_push.
  rewrite (push_none _ (site_entry <$> pps)); [done|apply Hr'|done|left; by rewrite site_entry_size].
Qed.
End ops_lemmas.

(** ** Witnesses *)

(** A cache with one entry and room for more. *)
#[local] Existing Instance demo_stackmap.
#[local] Existing Instance demo_layout.
#[local] Existing Instance demo_layout_laws.
#[local] Existing Instance demo_content_layout.
#[local] Existing Instance demo_records.

Lemma demo_mc_room :
  exists mc, cache_rep mc [entry_trim (demo_entry 7 [1; 2; 3])] /\
    (cc_current_data_size (mc_content mc) <= 100)%nat /\ length (cc_data (mc_content mc)) = 400%nat /\
    (cc_next_free_slot (mc_content mc) + 1 < length (cc_entry_decriptor_tbl (mc_content mc)))%nat.
Proof.
  destruct (push_rep demo_content [] (demo_entry 7 [1; 2; 3])) as (data & E & Hd & Hr).
  - apply demo_content_rep.
  - by apply demo_entry_wf; [|cbn; lia].
  - vm_compute. lia.
  - by intros [off [=]].
  - exists (with_content demo_mc (pushed demo_content (demo_entry 7 [1; 2; 3]) data)).
    split; [split; [exact Hr|done]|]. cbn [mc_content with_content]. split; [vm_compute; lia|].
    split; [exact Hd|vm_compute; lia].
Qed.

Definition demo_trace : Trace := mk_trace {[ 7 := 2 ]} {[ 7 := 1 ]}.

Lemma fit_cache_to_trace_witness :
  exists mc mc' e', resize_covered_entries mc demo_trace = Ret mc' /\
    MutationCache_entries mc' = [e'] /\ Entry_get_msk_as_slice e' = [1; 2; 3] ++ replicate 13 0.
Proof.
  destruct demo_mc_room as (mc & Hr & Hc & Hd & Hs).
  destruct (fit_cache_to_trace mc _ demo_trace Hr) as (_ & (mc' & rs & E & Hr' & Hrs) & _).
  - repeat constructor. by intros ?%elem_of_nil.
  - intros id v Hv. unfold demo_trace, hits_mapping in Hv. cbn [exec_cnt] in Hv. by apply lookup_singleton_Some in Hv as [_ <-].
  - repeat constructor; done || (vm_compute; lia).
  - assert (Hsum : sum_list (resized_size demo_trace <$> List.filter (is_traced demo_trace)
                     [entry_trim (demo_entry 7 [1; 2; 3])]) = 96%nat) by (vm_compute; reflexivity).
    rewrite Hsum, Hd. lia.
  - exact Hs.
  - cbn in Hr', Hrs. inversion Hrs as [|? e' ? ? (v & Hv & Hmd & Hmsk) Hnil]; subst.
    inversion Hnil; subst. injection Hv as <-. exists mc, mc', e'. split; [done|].
    split; [by apply cache_entries_rep in Hr'|]. rewrite Hmsk. reflexivity.
Defined.

Definition demo_site : MutationSite :=
  mk_site 5 4096 65536 112 Load_ false 32 demo_mapping.
