(* ===== verification/Dwarf.v ===== *)
(** * Registers

    Models [fuzztruction_shared/src/dwarf.rs] and [abi.rs]: the DWARF numbering of
    the x86-64 registers, their assembler names and the calling-convention tables. *)

From stdpp Require Import pretty.
From S2P Require Import Prelude.

#[local] Open Scope string_scope.
#[local] Open Scope Z_scope.

Inductive DwarfReg :=
| Rax | Rdx | Rcx | Rbx | Rsi | Rdi | Rbp | Rsp | R8 | R9 | R10 | R11 | R12 | R13 | R14 | R15 | Rip
| Xmm0 | Xmm1 | Xmm2 | Xmm3 | Xmm4 | Xmm5 | Xmm6 | Xmm7 | Xmm8 | Xmm9 | Xmm10 | Xmm11 | Xmm12 |
Xmm13 | Xmm14 | Xmm15 | St0 | St1 | St2 | St3 | St4 | St5 | St6 | St7 | Mm0 | Mm1 | Mm2 | Mm3 | Mm4
| Mm5 | Mm6 | Mm7 | Rflags | Es | Cs | Ss | Ds | Fs | Gs | Reserved0 | Reserved1 | FsBase | GsBase |
Reserved2 | Reserved3 | Tr | Ldtr | Mxcsr | Fcw | Fsw | Invalid.

(** The variants in the order of their discriminants. *)
Definition DwarfReg_all : list DwarfReg :=
  [Rax; Rdx; Rcx; Rbx; Rsi; Rdi; Rbp; Rsp; R8; R9; R10; R11; R12; R13; R14; R15; Rip; Xmm0; Xmm1;
  Xmm2; Xmm3; Xmm4; Xmm5; Xmm6; Xmm7; Xmm8; Xmm9; Xmm10; Xmm11; Xmm12; Xmm13; Xmm14; Xmm15; St0;
  St1; St2; St3; St4; St5; St6; St7; Mm0; Mm1; Mm2; Mm3; Mm4; Mm5; Mm6; Mm7; Rflags; Es; Cs; Ss;
  Ds; Fs; Gs; Reserved0; Reserved1; FsBase; GsBase; Reserved2; Reserved3; Tr; Ldtr; Mxcsr; Fcw;
  Fsw; Invalid].

(** [self as u16] *)
Definition DwarfReg_u16 (r : DwarfReg) : nat :=
  match r with
  | Rax => 0 | Rdx => 1 | Rcx => 2 | Rbx => 3 | Rsi => 4 | Rdi => 5 | Rbp => 6 | Rsp => 7 | R8 =>
  8 | R9 => 9 | R10 => 10 | R11 => 11 | R12 => 12 | R13 => 13 | R14 => 14 | R15 => 15 | Rip => 16
  | Xmm0 => 17 | Xmm1 => 18 | Xmm2 => 19 | Xmm3 => 20 | Xmm4 => 21 | Xmm5 => 22 | Xmm6 => 23 |
  Xmm7 => 24 | Xmm8 => 25 | Xmm9 => 26 | Xmm10 => 27 | Xmm11 => 28 | Xmm12 => 29 | Xmm13 => 30 |
  Xmm14 => 31 | Xmm15 => 32 | St0 => 33 | St1 => 34 | St2 => 35 | St3 => 36 | St4 => 37 | St5 =>
  38 | St6 => 39 | St7 => 40 | Mm0 => 41 | Mm1 => 42 | Mm2 => 43 | Mm3 => 44 | Mm4 => 45 | Mm5 =>
  46 | Mm6 => 47 | Mm7 => 48 | Rflags => 49 | Es => 50 | Cs => 51 | Ss => 52 | Ds => 53 | Fs => 54
  | Gs => 55 | Reserved0 => 56 | Reserved1 => 57 | FsBase => 58 | GsBase => 59 | Reserved2 => 60 |
  Reserved3 => 61 | Tr => 62 | Ldtr => 63 | Mxcsr => 64 | Fcw => 65 | Fsw => 66 | Invalid => 67
  end%nat.

(** [AsRefStr]: the name of the variant *)
Definition DwarfReg_as_ref (r : DwarfReg) : string :=
  match r with
  | Rax => "Rax" | Rdx => "Rdx" | Rcx => "Rcx" | Rbx => "Rbx" | Rsi => "Rsi" | Rdi => "Rdi" | Rbp
  => "Rbp" | Rsp => "Rsp" | Rip => "Rip" | Rflags => "Rflags" | Es => "Es" | Cs => "Cs" | Ss =>
  "Ss" | Ds => "Ds" | Fs => "Fs" | Gs => "Gs" | Reserved0 => "Reserved0" | Reserved1 =>
  "Reserved1" | FsBase => "FsBase" | GsBase => "GsBase" | Reserved2 => "Reserved2" | Reserved3 =>
  "Reserved3" | Tr => "Tr" | Ldtr => "Ldtr" | Mxcsr => "Mxcsr" | Fcw => "Fcw" | Fsw => "Fsw" |
  Invalid => "Invalid" | Xmm0 => "Xmm0" | St0 => "St0" | Mm0 => "Mm0" | Xmm1 => "Xmm1" | St1 =>
  "St1" | Mm1 => "Mm1" | Xmm2 => "Xmm2" | St2 => "St2" | Mm2 => "Mm2" | Xmm3 => "Xmm3" | St3 =>
  "St3" | Mm3 => "Mm3" | Xmm4 => "Xmm4" | St4 => "St4" | Mm4 => "Mm4" | Xmm5 => "Xmm5" | St5 =>
  "St5" | Mm5 => "Mm5" | Xmm6 => "Xmm6" | St6 => "St6" | Mm6 => "Mm6" | Xmm7 => "Xmm7" | St7 =>
  "St7" | Mm7 => "Mm7" | R8 => "R8" | Xmm8 => "Xmm8" | R9 => "R9" | Xmm9 => "Xmm9" | R10 => "R10"
  | Xmm10 => "Xmm10" | R11 => "R11" | Xmm11 => "Xmm11" | R12 => "R12" | Xmm12 => "Xmm12" | R13 =>
  "R13" | Xmm13 => "Xmm13" | R14 => "R14" | Xmm14 => "Xmm14" | R15 => "R15" | Xmm15 => "Xmm15"
  end.

(** [DwarfReg::try_from(u16)] *)
Definition DwarfReg_try_from (n : nat) : option DwarfReg := DwarfReg_all !! n.

Lemma DwarfReg_try_from_u16 r : DwarfReg_try_from (DwarfReg_u16 r) = Some r.
Proof. by destruct r. Qed.

#[export] Instance DwarfReg_u16_inj : Inj (=) (=) DwarfReg_u16.
Proof. intros a b E. apply (inj Some). by rewrite <- !DwarfReg_try_from_u16, E. Qed.

#[export] Instance DwarfReg_eq_dec : EqDecision DwarfReg.
Proof.
  intros a b. destruct (decide (DwarfReg_u16 a = DwarfReg_u16 b)) as [E|E].
  - left. by apply (inj DwarfReg_u16).
  - right. congruence.
Defined.

Definition GENERAL_PURPOSE_REGISTERS : list DwarfReg :=
  [Rax; Rdx; Rcx; Rbx; Rsi; Rdi; Rbp; Rsp; R8; R9; R10; R11; R12; R13; R14; R15].

Definition XMM_REGISTERS : list DwarfReg :=
  [Xmm0; Xmm1; Xmm2; Xmm3; Xmm4; Xmm5; Xmm6; Xmm7; Xmm8; Xmm9; Xmm10; Xmm11; Xmm12; Xmm13; Xmm14; Xmm15].

Definition ARGUMENT_PASSING_ORDER : list DwarfReg := [Rdi; Rsi; Rdx; Rcx; R8; R9].

Definition CALLER_SAVED_GP_REGISTERS : list DwarfReg := [Rax; Rdx; Rcx; Rsi; Rdi; R8; R9; R10; R11].

Definition CALLEE_SAVED_GP_REGISTERS : list DwarfReg := [Rbx; Rsp; Rbp; R12; R13; R14; R15].

(** [to_lowercase] on the ASCII names *)
Definition lower_ascii (c : Ascii.ascii) : Ascii.ascii :=
  let n := Ascii.nat_of_ascii c in
  if ((65 <=? n) && (n <=? 90))%nat then Ascii.ascii_of_nat (n + 32) else c.

Fixpoint to_lowercase (s : string) : string :=
  match s with EmptyString => EmptyString | String c s => String (lower_ascii c) (to_lowercase s) end.

Definition DwarfReg_name (r : DwarfReg) : string := to_lowercase (DwarfReg_as_ref r).

(** The four macros: each has its own pattern of names per size. *)
Definition reg0 (size : Z) (infix : string) : outcome string :=
  match size with
  | 1 => mret (infix +:+ "l") | 2 => mret (infix +:+ "x")
  | 4 => mret ("e" +:+ infix +:+ "x") | 8 => mret ("r" +:+ infix +:+ "x") | _ => Panic
  end.
Definition reg1 (size : Z) (infix : string) : outcome string :=
  match size with
  | 1 => mret (infix +:+ "il") | 2 => mret (infix +:+ "i")
  | 4 => mret ("e" +:+ infix +:+ "i") | 8 => mret ("r" +:+ infix +:+ "i") | _ => Panic
  end.
Definition reg2 (size : Z) (infix : string) : outcome string :=
  match size with
  | 1 => mret (infix +:+ "pl") | 2 => mret (infix +:+ "p")
  | 4 => mret ("e" +:+ infix +:+ "p") | 8 => mret ("r" +:+ infix +:+ "p") | _ => Panic
  end.
Definition reg3 (size : Z) (infix : string) : outcome string :=
  match size with
  | 1 => mret ("r" +:+ infix +:+ "b") | 2 => mret ("r" +:+ infix +:+ "w")
  | 4 => mret ("r" +:+ infix +:+ "d") | 8 => mret ("r" +:+ infix) | _ => Panic
  end.

(** The pattern [XMM0_ID..XMM15_ID] excludes its upper end. *)
Definition DwarfReg_name_with_size (r : DwarfReg) (size : Z) : outcome (option string) :=
  let n := DwarfReg_u16 r in
  if ((DwarfReg_u16 Xmm0 <=? n) && (n <? DwarfReg_u16 Xmm15))%nat then
    if size =? 16 then mret (Some ("xmm" +:+ pretty (n - DwarfReg_u16 Xmm0)%nat)) else Panic
  else
    _ ← assert_that ((size =? 1) || (size =? 2) || (size =? 4) || (size =? 8));
    match r with
    | Rax => Some <$> reg0 size "a" | Rbx => Some <$> reg0 size "b"
    | Rcx => Some <$> reg0 size "c" | Rdx => Some <$> reg0 size "d"
    | Rsi => Some <$> reg1 size "s" | Rdi => Some <$> reg1 size "d"
    | Rbp => Some <$> reg2 size "b" | Rsp => Some <$> reg2 size "s"
    | R8 => Some <$> reg3 size "8" | R9 => Some <$> reg3 size "9"
    | R10 => Some <$> reg3 size "10" | R11 => Some <$> reg3 size "11"
    | R12 => Some <$> reg3 size "12" | R13 => Some <$> reg3 size "13"
    | R14 => Some <$> reg3 size "14" | R15 => Some <$> reg3 size "15"
    | _ => mret None
    end.

Definition mem_ptr_prefix (size : Z) : outcome string :=
  match size with
  | 1 => mret "byte" | 2 => mret "word" | 4 => mret "dword" | 8 => mret "qword" | _ => Panic
  end.

(** ** Properties *)

Lemma DwarfReg_try_from_lt n : is_Some (DwarfReg_try_from n) <-> (n < 68)%nat.
Proof. unfold DwarfReg_try_from. by rewrite lookup_lt_is_Some. Qed.

(** All pairs of a general purpose register and an operand size. *)
Definition gpr_operands : list (DwarfReg * Z) :=
  r ← GENERAL_PURPOSE_REGISTERS; size ← [1; 2; 4; 8]; [(r, size)].

Lemma gpr_operands_spec r size :
  (r, size) ∈ gpr_operands <-> r ∈ GENERAL_PURPOSE_REGISTERS /\ size ∈ [1; 2; 4; 8].
Proof.
  unfold gpr_operands. rewrite list_elem_of_bind. setoid_rewrite list_elem_of_bind.
  setoid_rewrite list_elem_of_singleton. naive_solver.
Qed.

(** The assembler sees the operand that was meant: every general purpose register has a name
    at every operand size, [name()] is the name at eight bytes, and no two operands
    share a name.  Of the vector registers [Xmm0] to [Xmm14] have a name (at 16 bytes
    only); [Xmm15] is refused at every size, because the range that selects the vector
    registers excludes its end. *)
Theorem register_names :
  (forall r size, r ∈ GENERAL_PURPOSE_REGISTERS -> size ∈ [1; 2; 4; 8] ->
     exists s, DwarfReg_name_with_size r size = Ret (Some s) /\
       (size = 8 -> s = DwarfReg_name r) /\
       forall r' size', r' ∈ GENERAL_PURPOSE_REGISTERS -> size' ∈ [1; 2; 4; 8] ->
         DwarfReg_name_with_size r' size' = Ret (Some s) -> r' = r /\ size' = size) /\
  (forall r, r ∈ XMM_REGISTERS ->
     DwarfReg_name_with_size r 16 = if decide (r = Xmm15) then Panic else Ret (Some (DwarfReg_name r))) /\
  (forall size s, DwarfReg_name_with_size Xmm15 size <> Ret (Some s)).
Proof.
  split; [|split].
  - assert (Hall : Forall (fun p => exists s, DwarfReg_name_with_size p.1 p.2 = Ret (Some s) /\
      (p.2 = 8 -> s = DwarfReg_name p.1)) gpr_operands).
    { repeat (constructor; [eexists; split; [reflexivity|by intros [=]]|]). constructor. }
    assert (Hnd : NoDup ((fun p => DwarfReg_name_with_size p.1 p.2) <$> gpr_operands)).
    { apply (bool_decide_unpack _). vm_compute. exact I. }
    intros r size Hr Hsize.
    destruct (proj1 (Forall_forall _ _) Hall (r, size)) as (s & Hs & H8); [by apply gpr_operands_spec|]. cbn [fst snd] in *.
    exists s. split; [done|]. split; [done|]. intros r' size' Hr' Hsize' E.
    assert (Hin : (r, size) ∈ gpr_operands) by (by apply gpr_operands_spec).
    assert (Hin' : (r', size') ∈ gpr_operands) by (by apply gpr_operands_spec).
    apply list_elem_of_lookup in Hin as [i Hi]. apply list_elem_of_lookup in Hin' as [j Hj].
    assert (i = j) as ->.
    { eapply NoDup_lookup; [exact Hnd| |].
      - by rewrite list_lookup_fmap, Hi.
      - rewrite list_lookup_fmap, Hj. cbn. by rewrite E, Hs. }
    by simplify_eq.
  - assert (Hx : Forall (fun r => DwarfReg_name_with_size r 16
      = if decide (r = Xmm15) then Panic else Ret (Some (DwarfReg_name r))) XMM_REGISTERS).
    { repeat (constructor; [reflexivity|]). constructor. }
    intros r Hr. by eapply Forall_forall in Hx.
  - intros size s. unfold DwarfReg_name_with_size. cbn.
    by destruct ((size =? 1) || (size =? 2) || (size =? 4) || (size =? 8)).
Qed.
