(* ===== verification/X86.v ===== *)
(** * The code the JIT emits

    The assembler lines [generator/agent/src/jit/jit.rs] writes, as a type of
    instructions with their text, and the effect of each of them on an x86-64
    machine as its manual documents it.  Only what the emitted code uses is covered.
    Memory is a function from addresses to bytes.  The functions the code calls are
    found by their address, either as emitted code or as native code of the process,
    which is a parameter.  What native code does besides memory and registers is
    the state [W]. *)

From stdpp Require Import pretty.
From S2P Require Import Prelude Bytes Dwarf.

#[local] Open Scope string_scope.
#[local] Open Scope Z_scope.

(** ** Instructions *)

(** An address operand [base + index + disp]. *)
Record Addr := mk_addr { a_base : DwarfReg; a_index : option DwarfReg; a_disp : Z }.

(** Operand sizes are in bytes. *)
Inductive instr :=
| Push (r : DwarfReg)
| Pop (r : DwarfReg)
| MovImm (r : DwarfReg) (imm : Z)
| Movabs (r : DwarfReg) (imm : Z)
| MovReg (dst src : DwarfReg)
| MovLoad (size : Z) (prefix : bool) (dst : DwarfReg) (a : Addr)
| MovStore (size : Z) (a : Addr) (src : DwarfReg)
| ShrImm (r : DwarfReg) (imm : Z)
| ShrCl (r : DwarfReg)
| ShlImm (size : Z) (r : DwarfReg) (imm : Z)
| AndImm (size : Z) (r : DwarfReg) (imm : Z)
| AddImm (size : Z) (r : DwarfReg) (imm : Z)
| SubImm (size : Z) (r : DwarfReg) (imm : Z)
| XorMem (size : Z) (a : DwarfReg) (src : DwarfReg)
| Cmp (size : Z) (a b : DwarfReg)
| Cmova (size : Z) (dst src : DwarfReg)
| CallMem (a : DwarfReg)
| Nop
| RetI.

(** ** Text *)

(** [{:x}] *)
Definition hex_digit (d : Z) : string :=
  match d with
  | 0 => "0" | 1 => "1" | 2 => "2" | 3 => "3" | 4 => "4" | 5 => "5" | 6 => "6" | 7 => "7"
  | 8 => "8" | 9 => "9" | 10 => "a" | 11 => "b" | 12 => "c" | 13 => "d" | 14 => "e" | _ => "f"
  end.

Fixpoint hex_digits (fuel : nat) (z : Z) (acc : string) : string :=
  match fuel with
  | O => acc
  | S fuel => let acc := hex_digit (z mod 16) +:+ acc in
              if z / 16 =? 0 then acc else hex_digits fuel (z / 16) acc
  end.

(** Sixteen digits hold every [u64]. *)
Definition hex (z : Z) : string := "0x" +:+ hex_digits 16 z EmptyString.

(** [name_with_size(..).unwrap()] *)
Definition sized_name (r : DwarfReg) (size : Z) : outcome string :=
  s ← DwarfReg_name_with_size r size; unwrap s.

Definition addr_text (a : Addr) : string :=
  "[" +:+ DwarfReg_name (a_base a)
  +:+ match a_index a with Some r => " + " +:+ DwarfReg_name r | None => EmptyString end
  +:+ " + " +:+ hex (a_disp a) +:+ "]".

Definition asm_line (i : instr) : outcome string :=
  match i with
  | Push r => mret ("push " +:+ DwarfReg_name r)
  | Pop r => mret ("pop " +:+ DwarfReg_name r)
  | MovImm r imm => mret ("mov " +:+ DwarfReg_name r +:+ ", " +:+ hex imm)
  | Movabs r imm => mret ("movabs " +:+ DwarfReg_name r +:+ ", " +:+ hex imm)
  | MovReg d s => mret ("mov " +:+ DwarfReg_name d +:+ ", " +:+ DwarfReg_name s)
  | MovLoad size prefix d a =>
      d ← sized_name d size;
      p ← (if prefix then (fun p => p +:+ " ") <$> mem_ptr_prefix size else mret EmptyString);
      mret ("mov " +:+ d +:+ ", " +:+ p
            +:+ (if bool_decide (a_base a = Rsp)
                 then "[rsp" +:+ (if a_disp a =? 0 then EmptyString else "+" +:+ pretty (a_disp a)) +:+ "]"
                 else addr_text a))
  | MovStore size a s =>
      p ← mem_ptr_prefix size; s ← sized_name s size;
      mret ("mov " +:+ p +:+ " " +:+ addr_text a +:+ ", " +:+ s)
  | ShrImm r imm => mret ("shr " +:+ DwarfReg_name r +:+ ", " +:+ pretty imm)
  | ShrCl r => mret ("shr " +:+ DwarfReg_name r +:+ ", cl")
  | ShlImm size r imm => r ← sized_name r size; mret ("shl " +:+ r +:+ ", " +:+ pretty imm)
  | AndImm size r imm => r ← sized_name r size; mret ("and " +:+ r +:+ ", " +:+ hex imm)
  | AddImm size r imm => r ← sized_name r size; mret ("add " +:+ r +:+ ", " +:+ hex imm)
  | SubImm size r imm => r ← sized_name r size; mret ("sub " +:+ r +:+ ", " +:+ hex imm)
  | XorMem size a s => s ← sized_name s size; mret ("xor [" +:+ DwarfReg_name a +:+ "], " +:+ s)
  | Cmp size a b => a ← sized_name a size; b ← sized_name b size; mret ("cmp " +:+ a +:+ ", " +:+ b)
  | Cmova size d s => d ← sized_name d size; s ← sized_name s size; mret ("cmova " +:+ d +:+ ", " +:+ s)
  | CallMem a => mret ("call [" +:+ DwarfReg_name a +:+ "]")
  | Nop => mret "nop"
  | RetI => mret "ret"
  end.

(** ** The machine *)

Abbreviation memory := (Z -> Z).
Abbreviation registers := (DwarfReg -> Z).

Definition wrap (z : Z) : Z := z mod 2 ^ 64.

(** The [n] bytes at [a]. *)
Definition read_mem (m : memory) (a : Z) (n : nat) : list Z := (fun i => m (a + Z.of_nat i)) <$> seq 0 n.

Definition write_mem (m : memory) (a : Z) (bs : list Z) : memory :=
  fun x => if decide (a <= x < a + Z.of_nat (length bs))
           then nth (Z.to_nat (x - a)) bs 0 else m x.

Definition load (m : memory) (a : Z) (n : nat) : Z := of_le (read_mem m a n).
Definition store (m : memory) (a : Z) (n : nat) (v : Z) : memory := write_mem m a (to_le n v).

Definition set_reg (rs : registers) (r : DwarfReg) (v : Z) : registers :=
  fun r' => if decide (r' = r) then v else rs r'.

(** Writing four bytes clears the upper half of a register, writing one or two keeps
    the rest. *)
Definition set_sized (rs : registers) (size : Z) (r : DwarfReg) (v : Z) : registers :=
  if size =? 8 then set_reg rs r (v mod 2 ^ 64)
  else if size =? 4 then set_reg rs r (v mod 2 ^ 32)
  else set_reg rs r (Z.lor (Z.ldiff (rs r) (Z.ones (8 * size))) (Z.land v (Z.ones (8 * size)))).

Definition get_sized (rs : registers) (size : Z) (r : DwarfReg) : Z := Z.land (rs r) (Z.ones (8 * size)).

Record Machine (W : Type) := mk_machine {
  m_regs : registers;
  m_mem : memory;
  m_flags : option (bool * bool);  (** carry and zero, when they are specified *)
  m_world : W;
}.
Arguments mk_machine {W}.
Arguments m_regs {W}.
Arguments m_mem {W}.
Arguments m_flags {W}.
Arguments m_world {W}.

Definition ea (rs : registers) (a : Addr) : Z :=
  wrap (rs (a_base a) + match a_index a with Some r => rs r | None => 0 end + a_disp a).

Section machine.
Context {W : Type}.

(** Emitted functions by address, native functions by address, and the return address
    a call pushes. *)
Context (code : gmap Z (list instr)) (native : Z -> Machine W -> outcome (Machine W)) (ra : Z).

Implicit Types st : Machine W.

Definition with_regs st rs := mk_machine rs (m_mem st) (m_flags st) (m_world st).
Definition with_alu st rs fl := mk_machine rs (m_mem st) fl (m_world st).
Definition with_mem st m := mk_machine (m_regs st) m (m_flags st) (m_world st).

Definition push_value st (v : Z) : Machine W :=
  let sp := wrap (m_regs st Rsp - 8) in
  mk_machine (set_reg (m_regs st) Rsp sp) (store (m_mem st) sp 8 v) (m_flags st) (m_world st).

(** The effect of an instruction that is neither a call nor a return. *)
Definition step (i : instr) st : outcome (Machine W) :=
  let rs := m_regs st in
  match i with
  | Push r => mret (push_value st (rs r))
  | Pop r => mret (with_regs st (set_reg (set_reg rs Rsp (wrap (rs Rsp + 8))) r (load (m_mem st) (rs Rsp) 8)))
  | MovImm r imm | Movabs r imm => mret (with_regs st (set_reg rs r imm))
  | MovReg d s => mret (with_regs st (set_reg rs d (rs s)))
  | MovLoad size _ d a => mret (with_regs st (set_sized rs size d (load (m_mem st) (ea rs a) (Z.to_nat size))))
  | MovStore size a s => mret (with_mem st (store (m_mem st) (ea rs a) (Z.to_nat size) (rs s)))
  | ShrImm r imm => mret (with_alu st (set_reg rs r (Z.shiftr (rs r) imm)) None)
  | ShrCl r => mret (with_alu st (set_reg rs r (Z.shiftr (rs r) (Z.land (rs Rcx) 63))) None)
  | ShlImm size r imm => mret (with_alu st (set_sized rs size r (Z.shiftl (get_sized rs size r) imm)) None)
  | AndImm size r imm =>
      let v := Z.land (get_sized rs size r) imm in
      mret (with_alu st (set_sized rs size r v) (Some (false, v =? 0)))
  | AddImm size r imm =>
      let v := get_sized rs size r + imm in
      mret (with_alu st (set_sized rs size r v) (Some (2 ^ (8 * size) <=? v, v mod 2 ^ (8 * size) =? 0)))
  | SubImm size r imm =>
      let v := get_sized rs size r - imm in
      mret (with_alu st (set_sized rs size r v) (Some (v <? 0, v =? 0)))
  | XorMem size a s =>
      let v := Z.lxor (load (m_mem st) (rs a) (Z.to_nat size)) (get_sized rs size s) in
      mret (mk_machine rs (store (m_mem st) (rs a) (Z.to_nat size) v) (Some (false, v =? 0)) (m_world st))
  | Cmp size a b =>
      let (x, y) := (get_sized rs size a, get_sized rs size b) in
      mret (with_alu st rs (Some (x <? y, x =? y)))
  | Cmova size d s =>
      flags ← unwrap (m_flags st);
      mret (with_regs st (set_sized rs size d
              (get_sized rs size (if negb flags.1 && negb flags.2 then s else d))))
  | Nop => mret st
  | CallMem _ | RetI => Panic
  end.

(** Run a sequence of instructions; the flag says whether it ended with a return.  The
    fuel bounds the depth of calls. *)
Fixpoint exec (call : Z -> Machine W -> outcome (Machine W)) (body : list instr) st
    : outcome (bool * Machine W) :=
  match body with
  | [] => mret (false, st)
  | RetI :: _ =>
      let sp := m_regs st Rsp in
      _ ← assert_that (load (m_mem st) sp 8 =? ra);
      mret (true, with_regs st (set_reg (m_regs st) Rsp (wrap (sp + 8))))
  | CallMem a :: body =>
      let target := load (m_mem st) (m_regs st a) 8 in
      st ← call target (push_value st ra);
      exec call body st
  | i :: body => st ← step i st; exec call body st
  end.

(** Call the function at [target]: the return address was pushed. *)
Fixpoint call_fn (fuel : nat) (target : Z) st : outcome (Machine W) :=
  match fuel with
  | O => Panic
  | S fuel =>
      match code !! target with
      | Some body =>
          r ← exec (call_fn fuel) body st;
          _ ← assert_that r.1;
          mret r.2
      | None => native target st
      end
  end.
End machine.

(** ** Bytes of memory *)

Definition mem_ok (m : memory) : Prop := forall a, byte_ok (m a).

Lemma read_mem_length m a n : length (read_mem m a n) = n.
Proof. unfold read_mem. by rewrite length_fmap, length_seq. Qed.

Lemma read_mem_lookup m a n i : (i < n)%nat -> read_mem m a n !! i = Some (m (a + Z.of_nat i)).
Proof. intros Hi. unfold read_mem. rewrite list_lookup_fmap, lookup_seq_lt by done. done. Qed.

Lemma read_mem_ok m a n : mem_ok m -> bytes_ok (read_mem m a n).
Proof. intros Hm. apply Forall_fmap, Forall_forall. intros i _. apply Hm. Qed.

Lemma read_mem_ext m1 m2 a n :
  (forall i, 0 <= i < Z.of_nat n -> m1 (a + i) = m2 (a + i)) -> read_mem m1 a n = read_mem m2 a n.
Proof.
  intros H. apply list_eq. intros i. destruct (decide (i < n)%nat).
  - rewrite !read_mem_lookup by done. f_equal. apply H. lia.
  - rewrite !lookup_ge_None_2; [done|rewrite read_mem_length; lia..].
Qed.

Lemma write_mem_in m a bs i b : bs !! i = Some b -> write_mem m a bs (a + Z.of_nat i) = b.
Proof.
  intros Hi. pose proof (lookup_lt_Some _ _ _ Hi). unfold write_mem. rewrite decide_True by lia.
  replace (Z.to_nat (a + Z.of_nat i - a)) with i by lia. by apply nth_lookup_Some.
Qed.

Lemma write_mem_out m a bs x : ~ (a <= x < a + Z.of_nat (length bs)) -> write_mem m a bs x = m x.
Proof. intros. unfold write_mem. by rewrite decide_False. Qed.

Lemma write_mem_ok m a bs : mem_ok m -> bytes_ok bs -> mem_ok (write_mem m a bs).
Proof.
  intros Hm Hb x. unfold write_mem. case_decide as Hx; [|apply Hm].
  eapply Forall_lookup_1; [exact Hb|].
  destruct (lookup_lt_is_Some_2 bs (Z.to_nat (x - a))) as [b Eb]; [lia|].
  by rewrite (nth_lookup_Some _ _ _ _ Eb).
Qed.

Lemma read_write_mem m a bs : read_mem (write_mem m a bs) a (length bs) = bs.
Proof.
  apply list_eq. intros i. destruct (bs !! i) as [b|] eqn:E.
  - pose proof (lookup_lt_Some _ _ _ E). rewrite read_mem_lookup by done. f_equal. by apply write_mem_in.
  - apply lookup_ge_None in E. apply lookup_ge_None. by rewrite read_mem_length.
Qed.

Lemma read_write_out m a bs x n :
  x + Z.of_nat n <= a \/ a + Z.of_nat (length bs) <= x ->
  read_mem (write_mem m a bs) x n = read_mem m x n.
Proof. intros. apply read_mem_ext. intros i Hi. apply write_mem_out. lia. Qed.

Lemma store_ok m a n v : mem_ok m -> mem_ok (store m a n v).
Proof. intros Hm. apply write_mem_ok; [done|apply to_le_ok]. Qed.

Lemma load_store m a n v : 0 <= v < 256 ^ Z.of_nat n -> load (store m a n v) a n = v.
Proof.
  intros Hv. unfold load, store. pose proof (read_write_mem m a (to_le n v)) as E.
  rewrite to_le_length in E. by rewrite E, of_le_to_le.
Qed.

Lemma load_store_out m a n v x k :
  x + Z.of_nat k <= a \/ a + Z.of_nat n <= x -> load (store m a n v) x k = load m x k.
Proof. intros. unfold load, store. rewrite read_write_out; [done|]. by rewrite to_le_length. Qed.

Lemma load_bound m a n : mem_ok m -> 0 <= load m a n < 256 ^ Z.of_nat n.
Proof.
  intros Hm. pose proof (of_le_bound (read_mem m a n) (read_mem_ok m a n Hm)) as H.
  by rewrite read_mem_length in H.
Qed.

(** A bit of a little-endian integer. *)
Lemma of_le_testbit bs i :
  bytes_ok bs -> 0 <= i ->
  Z.testbit (of_le bs) i = match bs !! Z.to_nat (i / 8) with Some b => Z.testbit b (i mod 8) | None => false end.
Proof.
  intros Hb. revert i. induction Hb as [|b bs Hb Hbs IH]; intros i Hi; [apply Z.testbit_0_l|].
  rewrite of_le_testbit_cons by done. destruct (decide (i < 8)) as [Hlt|Hge].
  - replace (Z.to_nat (i / 8)) with 0%nat by dlia. cbn. rewrite Z.mod_small by lia.
    done.
  - replace (Z.to_nat (i / 8)) with (S (Z.to_nat ((i - 8) / 8))) by dlia. cbn.
    rewrite IH by lia.
    replace ((i - 8) mod 8) with (i mod 8) by dlia. done.
Qed.

Lemma load_testbit m a n i :
  mem_ok m -> 0 <= i ->
  Z.testbit (load m a n) i = if decide (i < 8 * Z.of_nat n) then Z.testbit (m (a + i / 8)) (i mod 8) else false.
Proof.
  intros Hm Hi. unfold load. rewrite of_le_testbit by (done || by apply read_mem_ok). case_decide as Hlt.
  - rewrite read_mem_lookup by dlia. f_equal. f_equal. dlia.
  - rewrite lookup_ge_None_2; [done|]. rewrite read_mem_length. dlia.
Qed.

(** Reading [k] bytes in the middle of [n] gives the same bits. *)
Lemma load_inside m a n q k r c :
  mem_ok m -> 0 <= q -> 0 <= r -> 0 <= c -> r + c <= 8 * Z.of_nat k -> q + Z.of_nat k <= Z.of_nat n ->
  Z.land (Z.shiftr (load m (a + q) k) r) (Z.ones c) = Z.land (Z.shiftr (load m a n) (8 * q + r)) (Z.ones c).
Proof.
  intros Hm Hq Hr Hc Hk Hn. apply Z.bits_inj'. intros i Hi.
  rewrite !Z.land_spec, !Z.shiftr_spec, Z.testbit_ones_nonneg by lia.
  destruct (Z.ltb_spec i c); [|by rewrite !andb_false_r]. rewrite !andb_true_r.
  rewrite !load_testbit by (done || lia). rewrite !decide_True by lia. f_equal; [f_equal; dlia|dlia].
Qed.

(** ** Registers *)

Lemma set_reg_eq rs r v : set_reg rs r v r = v.
Proof. unfold set_reg. by rewrite decide_True. Qed.

Lemma set_reg_ne rs r v r' : r' <> r -> set_reg rs r v r' = rs r'.
Proof. intros. unfold set_reg. by rewrite decide_False. Qed.

(** Read registers of a state that was computed. *)
Ltac reg_simpl := repeat first [rewrite set_reg_eq | rewrite set_reg_ne by done].

Lemma wrap_small z : 0 <= z < 2 ^ 64 -> wrap z = z.
Proof. intros. unfold wrap. by apply Z.mod_small. Qed.

Abbreviation regs_ok := (fun rs : registers => forall r, fits 64 (rs r)).
Abbreviation sizes := [1; 2; 4; 8].

(** Bits of a register whose low part is replaced. *)
Lemma merge_spec w z v :
  0 <= w <= 64 -> fits 64 z -> fits w v ->
  let m := Z.lor (Z.ldiff z (Z.ones w)) (Z.land v (Z.ones w)) in
  fits 64 m /\ Z.land m (Z.ones w) = v.
Proof.
  intros Hw Hz Hv m. split.
  - apply fits_lor; [done| |].
    + apply fits_testbit; [done|]. split; [apply Z.ldiff_nonneg; left; by apply Hz|].
      intros i Hi. by rewrite Z.ldiff_spec, (fits_high 64 z) by done.
    + apply fits_land_l; [done|]. unfold fits in *. pose proof (Z.pow_le_mono_r 2 w 64 ltac:(done) ltac:(lia)). lia.
  - apply Z.bits_inj'. intros i Hi. unfold m.
    rewrite Z.land_spec, Z.lor_spec, Z.ldiff_spec, Z.land_spec, !Z.testbit_ones_nonneg by lia.
    destruct (Z.ltb_spec i w); cbn; rewrite ?andb_true_r, ?andb_false_r; [done|].
    by rewrite (fits_high w v) by (done || lia).
Qed.

(** What a sized write leaves in a register. *)
Lemma set_sized_spec rs size r v :
  size ∈ sizes -> fits 64 (rs r) -> fits (8 * size) v ->
  exists x, set_sized rs size r v = set_reg rs r x /\ fits 64 x /\ Z.land x (Z.ones (8 * size)) = v.
Proof.
  intros Hs Hr Hv. unfold set_sized. set_unfold in Hs.
  destruct Hs as [->|[->|[->|[->|[]]]]]; cbn [Z.eqb Pos.eqb]; eexists; (split; [reflexivity|]).
  - by apply (merge_spec 8).
  - by apply (merge_spec 16).
  - change (8 * 4) with 32 in *. rewrite Z.mod_small by exact Hv. split; [unfold fits in *; lia|].
    rewrite Z.land_ones by done. by apply Z.mod_small.
  - change (8 * 8) with 64 in *. rewrite Z.mod_small by exact Hv. split; [done|].
    rewrite Z.land_ones by done. by apply Z.mod_small.
Qed.

Lemma set_sized_4 rs r v : fits 32 v -> set_sized rs 4 r v = set_reg rs r v.
Proof. intros. unfold set_sized. cbn [Z.eqb Pos.eqb]. by rewrite Z.mod_small. Qed.

Lemma set_sized_8 rs r v : fits 64 v -> set_sized rs 8 r v = set_reg rs r v.
Proof. intros. unfold set_sized. cbn [Z.eqb Pos.eqb]. by rewrite Z.mod_small. Qed.

Lemma get_sized_small rs size r : 0 <= size -> fits (8 * size) (rs r) -> get_sized rs size r = rs r.
Proof. intros. unfold get_sized. rewrite Z.land_ones by lia. by apply Z.mod_small. Qed.

Lemma regs_ok_set rs r v : regs_ok rs -> fits 64 v -> regs_ok (set_reg rs r v).
Proof. intros Hrs Hv r'. unfold set_reg. by case_decide. Qed.

(** ** The stack *)

(** The registers of [l], the first on top at address [a], are saved on the stack. *)
Fixpoint saved (l : list DwarfReg) (rs : registers) (a : Z) (m : memory) : Prop :=
  match l with
  | [] => True
  | r :: l => load m a 8 = (if decide (r = Rsp) then a + 8 else rs r) /\ saved l rs (a + 8) m
  end.

Lemma saved_ext l rs a m m' :
  (forall x, a <= x < a + 8 * Z.of_nat (length l) -> m x = m' x) -> saved l rs a m -> saved l rs a m'.
Proof.
  revert a. induction l as [|r l IH]; intros a Hm; [done|]. cbn [saved length] in *. intros [Hl Hs]. split.
  - rewrite <- Hl. unfold load. f_equal. apply read_mem_ext. intros i Hi. symmetry. apply Hm. lia.
  - apply IH; [|done]. intros x Hx. apply Hm. lia.
Qed.

Lemma saved_regs_ext l rs rs' a m :
  (forall r, r <> Rsp -> rs r = rs' r) -> saved l rs a m -> saved l rs' a m.
Proof.
  intros Hr. revert a. induction l as [|r l IH]; intros a; [done|]. cbn [saved]. intros [Hl Hs].
  split; [|by apply IH]. rewrite Hl. case_decide; [done|by apply Hr].
Qed.

(** [st'] has the registers of [st] but a stack pointer [a]. *)
Definition regs_at (rs : registers) (a : Z) (rs' : registers) : Prop :=
  forall r, rs' r = if decide (r = Rsp) then a else rs r.

(** The same for the registers [keep] only. *)
Definition regs_kept (keep : DwarfReg -> Prop) (rs : registers) (a : Z) (rs' : registers) : Prop :=
  rs' Rsp = a /\ forall r, r <> Rsp -> keep r -> rs' r = rs r.

Abbreviation gpr := (fun r : DwarfReg => r ∈ GENERAL_PURPOSE_REGISTERS).

#[export] Hint Extern 0 (_ ∈ GENERAL_PURPOSE_REGISTERS) => apply (bool_decide_unpack _); exact I : core.

Lemma regs_at_kept keep rs a rs' : regs_at rs a rs' -> regs_kept keep rs a rs'.
Proof. intros H. split; [by rewrite H, decide_True|]. intros r Hr _. by rewrite H, decide_False. Qed.

(** Nothing but the bytes of [[a, b)] was written. *)
Definition same_outside (a b : Z) (m m' : memory) : Prop := forall x, ~ (a <= x < b) -> m' x = m x.

Lemma same_outside_refl a b m : same_outside a b m m.
Proof. by intros x Hx. Qed.

Lemma same_outside_trans a b m1 m2 m3 :
  same_outside a b m1 m2 -> same_outside a b m2 m3 -> same_outside a b m1 m3.
Proof. intros H1 H2 x Hx. rewrite H2, H1; done. Qed.

Lemma same_outside_weaken a b a' b' m1 m2 :
  a' <= a -> b <= b' -> same_outside a b m1 m2 -> same_outside a' b' m1 m2.
Proof. intros ? ? H x Hx. apply H. lia. Qed.

Lemma same_outside_load a b m1 m2 x n :
  same_outside a b m1 m2 -> x + Z.of_nat n <= a \/ b <= x -> load m2 x n = load m1 x n.
Proof. intros H Hx. unfold load. f_equal. apply read_mem_ext. intros i Hi. apply H. lia. Qed.

Lemma regs_at_ok rs a rs' : regs_ok rs -> fits 64 a -> regs_at rs a rs' -> regs_ok rs'.
Proof. intros Hrs Ha H r. rewrite H. by case_decide. Qed.

Lemma push_value_spec {W} (st : Machine W) v a :
  0 <= a -> m_regs st Rsp = a + 8 -> a + 8 < 2 ^ 64 -> fits 64 v ->
  regs_at (m_regs st) a (m_regs (push_value st v)) /\
  load (m_mem (push_value st v)) a 8 = v /\
  same_outside a (a + 8) (m_mem st) (m_mem (push_value st v)) /\
  (mem_ok (m_mem st) -> mem_ok (m_mem (push_value st v))) /\
  m_world (push_value st v) = m_world st /\ m_flags (push_value st v) = m_flags st.
Proof.
  intros H0 Hsp Hlt Hv. unfold push_value. cbn [m_regs m_mem m_world m_flags].
  rewrite wrap_small by lia. replace (m_regs st Rsp - 8) with a by lia.
  split; [by intros r|]. split; [by apply load_store|]. split; [|split; [apply store_ok|done]].
  intros x Hx. unfold store. apply write_mem_out. rewrite to_le_length. lia.
Qed.

(** A property of memory that does not depend on the stack from [lo] to [hi]. *)
Definition stack_free (lo hi : Z) (inv : memory -> Prop) : Prop :=
  forall m m' b, b <= hi -> same_outside lo b m m' -> inv m -> inv m'.

(** An effect on memories with [inv] that neither reads nor writes the stack. *)
Record off_stack (lo hi : Z) (inv : memory -> Prop) (eff : memory -> memory) : Prop := {
  os_proper : forall m m' b, b <= hi -> inv m -> same_outside lo b m m' -> same_outside lo b (eff m) (eff m');
  os_frame : forall m x, inv m -> lo <= x < hi -> eff m x = m x;
  os_inv : forall m, inv m -> inv (eff m);
}.

(** ** Running code *)

Section run.
Context {W : Type} (ra : Z) (call : Z -> Machine W -> outcome (Machine W)).
Implicit Types st : Machine W.

Lemma exec_app is1 is2 st st' :
  exec ra call is1 st = Ret (false, st') -> exec ra call (is1 ++ is2) st = exec ra call is2 st'.
Proof.
  revert st. induction is1 as [|i is1 IH]; intros st E; [by injection E as ->|]. cbn [app].
  destruct i; cbn [exec] in *;
    try (destruct (step _ st) as [st1|]; cbn [mbind outcome_bind] in *; [by apply IH|done]).
  - destruct (call _ _) as [st1|]; cbn [mbind outcome_bind] in *; [by apply IH|done].
  - destruct (assert_that _); cbn [mbind outcome_bind] in *; done.
Qed.

Lemma pushes l st a :
  (forall r, r ∈ l -> fits 64 (m_regs st r)) -> fits 64 (m_regs st Rsp) ->
  0 <= a -> a = m_regs st Rsp - 8 * Z.of_nat (length l) ->
  exists st', exec ra call (Push <$> l) st = Ret (false, st') /\
    regs_at (m_regs st) a (m_regs st') /\ saved (rev l) (m_regs st) a (m_mem st') /\
    same_outside a (m_regs st Rsp) (m_mem st) (m_mem st') /\ (mem_ok (m_mem st) -> mem_ok (m_mem st')) /\
    m_world st' = m_world st.
Proof.
  intros Hrs Hb. unfold fits in Hb. revert a Hrs. induction l as [|r l IH] using rev_ind; intros a Hrs H0 Ha.
  - exists st. split; [done|]. split; [|done]. intros r. case_decide as E; [|done]. subst r a. cbn. lia.
  - rewrite length_app in Ha. cbn [length] in Ha.
    destruct (IH (a + 8)) as (st1 & E & Hr & Hsv & Hm & Hok & Hw); [set_solver|lia|lia|].
    assert (Hsp1 : m_regs st1 Rsp = a + 8) by (rewrite Hr; by rewrite decide_True).
    rewrite fmap_app, (exec_app _ _ _ _ E). cbn [fmap list_fmap exec step mbind outcome_bind].
    eexists. split; [reflexivity|]. unfold push_value. cbn [m_regs m_mem m_world].
    rewrite wrap_small by lia. replace (m_regs st1 Rsp - 8) with a by lia.
    split; [|split; [|split; [|split]]].
    + intros r'. unfold set_reg. case_decide as Er; [done|]. rewrite Hr. by rewrite decide_False.
    + rewrite rev_app_distr. cbn [rev app saved]. split.
      * rewrite load_store; [|rewrite Hr; case_decide; [cbn; lia|apply Hrs; set_solver]]. rewrite Hr.
        case_decide; [lia|done].
      * eapply saved_ext; [|exact Hsv]. intros x Hx. symmetry. apply write_mem_out. rewrite to_le_length.
        rewrite length_rev in Hx. lia.
    + intros x Hx. unfold store. rewrite write_mem_out by (rewrite to_le_length; lia). apply Hm. lia.
    + intros Hmo. by apply store_ok, Hok.
    + done.
Qed.

(** Pops undo pushes, also of the stack pointer itself. *)
Lemma pops l rs0 st :
  0 <= m_regs st Rsp -> m_regs st Rsp + 8 * Z.of_nat (length l) < 2 ^ 64 ->
  saved l rs0 (m_regs st Rsp) (m_mem st) ->
  exists st', exec ra call (Pop <$> l) st = Ret (false, st') /\
    m_regs st' Rsp = m_regs st Rsp + 8 * Z.of_nat (length l) /\
    (forall r, r <> Rsp -> m_regs st' r = if decide (r ∈ l) then rs0 r else m_regs st r) /\
    m_mem st' = m_mem st /\ m_world st' = m_world st.
Proof.
  revert st. induction l as [|r l IH]; intros st H0 Hlt Hs.
  - exists st. split; [done|]. split; [cbn; lia|]. split; [|done]. intros r Hr. rewrite decide_False; [done|].
    apply not_elem_of_nil.
  - cbn [length saved] in *. destruct Hs as [Hl Hs].
    set (st1 := with_regs st (set_reg (set_reg (m_regs st) Rsp (wrap (m_regs st Rsp + 8))) r
                                (load (m_mem st) (m_regs st Rsp) 8))).
    assert (Hsp1 : m_regs st1 Rsp = m_regs st Rsp + 8).
    { unfold st1. cbn [with_regs m_regs]. rewrite Hl. unfold set_reg. rewrite wrap_small by lia. destruct (decide (r = Rsp)) as [->|Hne].
      - by rewrite decide_True.
      - by rewrite (decide_False (P := Rsp = r)), decide_True by done. }
    destruct (IH st1) as (st' & E & Hsp & Hr & Hm & Hw); [lia|lia|by rewrite Hsp1|].
    exists st'. split; [exact E|]. split; [lia|]. split; [|done].
    intros r' Hr'. rewrite Hr by done. unfold st1. cbn [with_regs m_regs]. unfold set_reg.
    destruct (decide (r' ∈ l)) as [Hin|Hnin].
    + rewrite decide_True; [done|]. by right.
    + destruct (decide (r' = r)) as [->|Hne].
      * rewrite decide_True by (by left). rewrite Hl. by rewrite decide_False.
      * rewrite decide_False by done. rewrite decide_False; [done|]. by intros [?|?]%elem_of_cons.
Qed.
(** The function at [target], called with the registers [rs], has the effects [eff] and
    [weff], needs [k] bytes of the stack from [lo] to [hi], writes nothing else above its
    return address, and returns with the registers [keep] restored. *)
Definition callee (lo hi k : Z) (inv : memory -> Prop) (keep : DwarfReg -> Prop) (rs : registers) (target : Z)
    (eff : memory -> memory) (weff : W -> W) : Prop :=
  forall st, regs_kept gpr rs (m_regs st Rsp) (m_regs st) -> mem_ok (m_mem st) -> inv (m_mem st) ->
    lo + k <= m_regs st Rsp -> m_regs st Rsp + 8 <= hi -> load (m_mem st) (m_regs st Rsp) 8 = ra ->
    exists st', call target st = Ret st' /\ regs_kept keep rs (m_regs st Rsp + 8) (m_regs st') /\
      same_outside lo (m_regs st Rsp) (eff (m_mem st)) (m_mem st') /\ mem_ok (m_mem st') /\
      m_world st' = weff (m_world st).
End run.

Lemma load_fits m a n : mem_ok m -> fits (8 * Z.of_nat n) (load m a n).
Proof.
  intros Hm. pose proof (load_bound m a n Hm) as H. unfold fits. change 256 with (2 ^ 8) in H.
  by rewrite <- Z.pow_mul_r in H by lia.
Qed.

Lemma land_shiftr_low x v n r w :
  Z.land x (Z.ones n) = v -> 0 <= r -> 0 <= w -> r + w <= n ->
  Z.land (Z.shiftr x r) (Z.ones w) = Z.land (Z.shiftr v r) (Z.ones w).
Proof.
  intros <- Hr Hw Hn. apply Z.bits_inj'. intros i Hi.
  rewrite !Z.land_spec, !Z.shiftr_spec, Z.land_spec, !Z.testbit_ones_nonneg by lia.
  destruct (Z.ltb_spec i w); [|by rewrite !andb_false_r].
  destruct (Z.ltb_spec (i + r) n); [by rewrite !andb_true_r|lia].
Qed.

Lemma fits_shiftr w x r : 0 <= r -> fits w x -> fits w (Z.shiftr x r).
Proof.
  unfold fits. intros Hr Hx. rewrite Z.shiftr_div_pow2 by done. pose proof (Z.pow_pos_nonneg 2 r ltac:(done) Hr).
  split; [apply Z.div_pos; lia|]. apply Z.le_lt_trans with x; [|lia]. apply Z.div_le_upper_bound; nia.
Qed.

Lemma land_ones_ones a b : 0 <= b <= a -> Z.land (Z.ones a) (Z.ones b) = Z.ones b.
Proof.
  intros H. apply Z.bits_inj'. intros i Hi. rewrite Z.land_spec, !Z.testbit_ones_nonneg by lia.
  destruct (Z.ltb_spec i b), (Z.ltb_spec i a); done || lia.
Qed.
