(* ===== verification/Jit.v ===== *)
(** * The JIT of the agent

    Models [generator/agent/src/jit/jit.rs] and [mem.rs]: the snapshots of patch
    points, the code cache, and the generation of the code that applies mutations.
    The assembler ([keystone]) is the parameter [ks_asm] from text to bytes.  Page
    protection is the parameter [mprotect]: it gives the mappings of the process as
    [update_proc_mappings] reads them after the call.  A write to memory that is not
    writable ends the process ([Panic]). *)

From S2P Require Import Prelude Bytes MutationCacheEntry Messages Trace MutationSite Dwarf X86.


(** ** Page protection ([mem.rs]) *)

Record PermsConfig := mk_perms { is_exec : bool; is_read : bool; is_write : bool }.

#[export] Instance PermsConfig_eq_dec : EqDecision PermsConfig.
Proof. solve_decision. Defined.

Definition PermsConfig_default : PermsConfig := mk_perms false false false.

Record MappedMemoryConfig := mk_mapped { mm_start_addr : Z; mm_size : Z; mm_perms : PermsConfig }.

Definition MappedMemoryConfig_new (start_addr size : Z) : outcome MappedMemoryConfig :=
  _ ← assert_that (0 <? size); mret (mk_mapped start_addr size PermsConfig_default).

Definition mm_with (c : MappedMemoryConfig) (p : PermsConfig) : MappedMemoryConfig :=
  mk_mapped (mm_start_addr c) (mm_size c) p.
Definition mm_exec (c : MappedMemoryConfig) (state : bool) : MappedMemoryConfig :=
  mm_with c (mk_perms state (is_read (mm_perms c)) (is_write (mm_perms c))).
Definition mm_read (c : MappedMemoryConfig) (state : bool) : MappedMemoryConfig :=
  mm_with c (mk_perms (is_exec (mm_perms c)) state (is_write (mm_perms c))).
Definition mm_write (c : MappedMemoryConfig) (state : bool) : MappedMemoryConfig :=
  mm_with c (mk_perms (is_exec (mm_perms c)) (is_read (mm_perms c)) state).
Definition mm_reset (c : MappedMemoryConfig) : MappedMemoryConfig := mm_with c PermsConfig_default.

Definition PAGE_SIZE : Z := 4096.
Definition align_to_page (z : Z) : Z := Z.ldiff z 0xfff.

(** ** Mappings of the process *)

(** [&self.flags[i..i + 1]] panics when the string is too short. *)
Definition flag_at (m : MapRange) (i : nat) : outcome string :=
  _ ← assert_that (i <? String.length (mr_flags m))%nat; mret (String.substring i 1 (mr_flags m)).

Definition MapRange_is_exec (m : MapRange) : outcome bool := (fun s => bool_decide (s = "x"%string)) <$> flag_at m 2.
Definition MapRange_is_write (m : MapRange) : outcome bool := (fun s => bool_decide (s = "w"%string)) <$> flag_at m 1.
Definition MapRange_is_read (m : MapRange) : outcome bool := (fun s => bool_decide (s = "r"%string)) <$> flag_at m 0.

(** Addresses of [[start, start + size)]. *)
Definition in_mapping (addr : Z) (m : MapRange) : bool := (range_start m <=? addr) && (addr <? range_end m).

Definition get_enclosing_mapping (maps : list MapRange) (addr : Z) : option MapRange :=
  List.find (in_mapping addr) maps.

(** The memory of the process and its mappings. *)
Record Process := mk_process { p_mem : memory; p_maps : list MapRange }.

Definition mem_writable (maps : list MapRange) (addr : Z) : bool :=
  match get_enclosing_mapping maps addr with
  | Some m => match MapRange_is_write m with Ret b => b | Panic => false end
  | None => false
  end.

(** Copy bytes to memory: a fault when a byte is not writable. *)
Definition poke (p : Process) (addr : Z) (bs : list Z) : outcome Process :=
  _ ← assert_that (forallb (fun i => mem_writable (p_maps p) (addr + Z.of_nat i)) (seq 0 (length bs)));
  mret (mk_process (write_mem (p_mem p) addr bs) (p_maps p)).

(** ** Patch points *)

Record PatchableLocation := mk_patchable { pl_addr : Z; pl_size : nat; pl_reset_value : list Z }.

(** [PATCH_POINT_SIZE] as [usize] *)
Definition PP_SIZE : nat := Z.to_nat PATCH_POINT_SIZE.

Definition PatchableLocation_new (addr : Z) (size : nat) : outcome PatchableLocation :=
  _ ← assert_that (size =? PP_SIZE)%nat;
  mret (mk_patchable addr size (replicate PP_SIZE 0)).

Definition PatchableLocation_reset (l : PatchableLocation) (p : Process) : outcome Process :=
  poke p (pl_addr l) (take (pl_size l) (pl_reset_value l)).

(** [is_readable_mem_range] asks the kernel to read the range. *)
Definition is_readable_mem_range (maps : list MapRange) (addr : Z) (len : nat) : bool :=
  forallb (fun i => match get_enclosing_mapping maps (addr + Z.of_nat i) with
                    | Some m => match MapRange_is_read m with Ret b => b | Panic => false end
                    | None => false end) (seq 0 len).

Definition copy_default_from_addr (l : PatchableLocation) (p : Process) : result string PatchableLocation :=
  if is_readable_mem_range (p_maps p) (pl_addr l) (pl_size l)
  then Ok (mk_patchable (pl_addr l) (pl_size l) (read_mem (p_mem p) (pl_addr l) (pl_size l)))
  else Err "Target memory range is not readable."%string.

(** ** The code cache *)

(** [unallocated] is the slice of [cc_free_len] bytes at [cc_free]. *)
Record CodeCache := mk_code_cache { cc_buffer : Z; cc_size : nat; cc_free : Z; cc_free_len : nat }.

(** What the stubs need to know about a location and about the layout of an entry. *)
Class StubLayout `{StackMap} := {
  dwarf_regnum : Location -> nat;
  read_pos_bits_offset : Z;
  offsetof_msk_len : Z;
}.

Section jit.
Context `{L : EntryLayout} `{!StackMapRecords} `{!StubLayout}.
Context (mprotect : list MapRange -> Z -> Z -> PermsConfig -> option (list MapRange)).
Context (ks_asm : string -> option (list Z)).

(** [commit] followed by [update_proc_mappings]: [None] when [mprotect] fails. *)
Definition mm_commit (c : MappedMemoryConfig) (maps : list MapRange) : outcome (option (list MapRange)) :=
  let addr := align_to_page (mm_start_addr c) in
  let len := PAGE_SIZE + (align_to_page (mm_start_addr c + mm_size c - 1) - align_to_page (mm_start_addr c)) in
  _ ← assert_that ((0 <? len) && (len mod PAGE_SIZE =? 0));
  mret (mprotect maps addr len (mm_perms c)).

(** The body the two functions below share: [write] is the new permission. *)
Definition mark_enclosing_mapping (write : bool) (p : Process) (addr : Z) : outcome (result string Process) :=
  match get_enclosing_mapping (p_maps p) addr with
  | None => mret (Err "Failed to get mapping for addr"%string)
  | Some mapping =>
      w ← MapRange_is_write mapping;
      if Bool.eqb w write then mret (Ok p)
      else
        size ← MapRange_size mapping;
        c ← MappedMemoryConfig_new (MapRange_start mapping) size;
        let c := mm_exec (mm_write (mm_read (mm_reset c) true) write) true in
        maps ← mm_commit c (p_maps p);
        maps ← unwrap maps;
        mret (Ok (mk_process (p_mem p) maps))
  end.

Definition mark_enclosing_mapping_rwx : Process -> Z -> outcome (result string Process) :=
  mark_enclosing_mapping true.
Definition mark_enclosing_mapping_rx : Process -> Z -> outcome (result string Process) :=
  mark_enclosing_mapping false.

(** [.unwrap()] on a result *)
Definition unwrap_result {E A} (r : result E A) : outcome A := match r with Ok a => Ret a | Err _ => Panic end.

Definition allocate_slot (c : CodeCache) (p : Process) (len : nat)
    : outcome (option (Z * nat) * CodeCache * Process) :=
  r ← mark_enclosing_mapping_rwx p (cc_buffer c);
  p ← unwrap_result r;
  if (cc_free_len c <? len)%nat then mret (None, c, p)
  else mret (Some (cc_free c, len),
             mk_code_cache (cc_buffer c) (cc_size c) (cc_free c + Z.of_nat len) (cc_free_len c - len), p).

Definition make_rx (c : CodeCache) (p : Process) : outcome Process :=
  r ← mark_enclosing_mapping_rx p (cc_buffer c); unwrap_result r.

Definition CodeCache_reset (c : CodeCache) (p : Process) : outcome (CodeCache * Process) :=
  r ← mark_enclosing_mapping_rwx p (cc_buffer c);
  p ← unwrap_result r;
  p ← poke p (cc_buffer c) (replicate (cc_size c) 0);
  r ← mark_enclosing_mapping_rx p (cc_buffer c);
  p ← unwrap_result r;
  mret (mk_code_cache (cc_buffer c) (cc_size c) (cc_buffer c) (cc_size c), p).

(** ** Functions *)

Inductive FunctionArg := Arg_Constant (c : Z) | Arg_Register (r : DwarfReg).

Inductive JitError := UnsupportedMutation (msg : string).

Record NativeFunction := mk_native { nf_vma : Z; nf_nargs : Z }.

Record FunctionInstance := mk_instance {
  fi_asm : list instr;
  fi_machine_code : list Z;
  fi_vma : option Z;
}.

(** [CallableFunction::vma] *)
Definition FunctionInstance_vma (f : FunctionInstance) : outcome Z := unwrap (fi_vma f).
Definition FunctionInstance_len (f : FunctionInstance) : nat := length (fi_machine_code f).

Definition write_safe (f : FunctionInstance) (p : Process) (dst : Z * nat) : outcome (FunctionInstance * Process) :=
  _ ← assert_that (0 <? FunctionInstance_len f)%nat;
  _ ← assert_that (FunctionInstance_len f <=? dst.2)%nat;
  p ← poke p dst.1 (fi_machine_code f);
  mret (mk_instance (fi_asm f) (fi_machine_code f) (Some dst.1), p).

Definition NOP_PATTERN : list Z :=
  [0x66; 0x66; 0x66; 0x66; 0x66; 0x2e; 0x66; 0x0f; 0x1f; 0x84; 0x00; 0x00; 0x02; 0x00; 0x00; 0x66;
   0x66; 0x66; 0x66; 0x66; 0x2e; 0x66; 0x0f; 0x1f; 0x84; 0x00; 0x00; 0x02; 0x00; 0x00; 0x66; 0x90].

Definition FunctionInstance_write (f : FunctionInstance) (p : Process) (dst_addr : Z)
    : outcome (FunctionInstance * Process) :=
  _ ← assert_that (FunctionInstance_len f <=? PP_SIZE)%nat;
  _ ← assert_that (0 <? FunctionInstance_len f)%nat;
  _ ← assert_that (bool_decide (NOP_PATTERN = read_mem (p_mem p) dst_addr 32));
  p ← poke p dst_addr (replicate PP_SIZE 0x90);
  p ← poke p dst_addr (fi_machine_code f);
  mret (mk_instance (fi_asm f) (fi_machine_code f) (Some dst_addr), p).

Record FunctionTemplate := mk_template { ft_asm_body : list instr; ft_returns : bool }.

(** [asm.join(newline)] *)
Definition asm_text (asm : list instr) : outcome string :=
  lines ← mapM asm_line asm;
  mret (String.concat (String (Ascii.ascii_of_nat 10) EmptyString) lines).

Definition FunctionTemplate_assemble (t : FunctionTemplate) : outcome (option (list instr * list Z)) :=
  let asm := if ft_returns t then ft_asm_body t ++ [RetI] else ft_asm_body t in
  text ← asm_text asm;
  mret ((fun bytes => (asm, bytes)) <$> ks_asm text).

Record Jit := mk_jit { j_code_cache : CodeCache; j_registered : gmap Z PatchableLocation }.

Definition snapshot_patch_point (j : Jit) (p : Process) (mce : MutationCacheEntry) : outcome Jit :=
  let addr := Entry_vma mce in
  match j_registered j !! addr with
  | Some _ => mret j
  | None =>
      value ← PatchableLocation_new addr PP_SIZE;
      match copy_default_from_addr value p with
      | Err _ => Panic
      | Ok value => mret (mk_jit (j_code_cache j) (<[addr := value]> (j_registered j)))
      end
  end.

Definition mark_mappings_rx (j : Jit) (p : Process) : outcome Process := make_rx (j_code_cache j) p.

Fixpoint reset_locations (ls : list PatchableLocation) (p : Process) : outcome Process :=
  match ls with
  | [] => mret p
  | e :: ls =>
      r ← mark_enclosing_mapping_rwx p (pl_addr e);
      p ← unwrap_result r;
      p ← PatchableLocation_reset e p;
      reset_locations ls p
  end.

(** [addrs.for_each(|a| mark(a).unwrap())] *)
Fixpoint mark_all (write : bool) (addrs : list Z) (p : Process) : outcome Process :=
  match addrs with
  | [] => mret p
  | a :: addrs => r ← mark_enclosing_mapping write p a; p ← unwrap_result r; mark_all write addrs p
  end.

(** The registered locations in the order the map iterates over them. *)
Definition Jit_reset (j : Jit) (p : Process) : outcome (Jit * Process) :=
  let ls := (map_to_list (j_registered j)).*2 in
  p ← reset_locations ls p;
  p ← mark_all false (pl_addr <$> ls) p;
  r ← CodeCache_reset (j_code_cache j) p;
  mret (mk_jit r.1 ∅, r.2).

Definition Jit_assemble (t : FunctionTemplate) : outcome FunctionInstance :=
  machine_code ← FunctionTemplate_assemble t;
  machine_code ← unwrap machine_code;
  mret (mk_instance machine_code.1 machine_code.2 None).

Definition Jit_allocate (j : Jit) (p : Process) (t : FunctionTemplate) : outcome (FunctionInstance * Jit * Process) :=
  instance ← Jit_assemble t;
  r ← allocate_slot (j_code_cache j) p (FunctionInstance_len instance);
  let '(slot, cache, p) := r in
  slot ← unwrap slot;
  r ← write_safe instance p slot;
  mret (r.1, mk_jit cache (j_registered j), r.2).

(** ** Calls *)

(** Call the function at [vma] with all registers as they were. *)
Definition call_block (vma : Z) : list instr :=
  [Push Rax; MovImm Rax vma; Push Rax; MovLoad 8 false Rax (mk_addr Rsp None 8); CallMem Rsp; AddImm 8 Rsp 0x10].

Definition gen_call_multiplexer (target_fns : list FunctionInstance) : outcome FunctionTemplate :=
  _ ← assert_that (0 <? length target_fns)%nat;
  vmas ← mapM FunctionInstance_vma target_fns;
  mret (mk_template (vmas ≫= call_block) true).

(** The loop over the arguments: the code so far and the registers it overwrites. *)
Fixpoint pass_args (args : list FunctionArg) (abi_args_order : list DwarfReg) (asm_body : list instr)
    (trashed_regs : list DwarfReg) : outcome (list instr * list DwarfReg) :=
  match args with
  | [] => mret (asm_body, trashed_regs)
  | Arg_Constant c :: args =>
      match abi_args_order with
      | [] => Panic
      | reg :: abi_args_order =>
          pass_args args abi_args_order (asm_body ++ [Movabs reg c]) (trashed_regs ++ [reg])
      end
  | Arg_Register _ :: _ => Panic
  end.

Definition gen_call (to_vma : Z) (args : list FunctionArg) (returns : bool) (trashed_regs : option (list DwarfReg))
    : outcome FunctionTemplate :=
  r ← pass_args args ARGUMENT_PASSING_ORDER [] (default [] trashed_regs);
  let '(asm_body, trashed_regs) := r in
  let asm_body := foldl (fun asm_body reg => Push reg :: asm_body) asm_body trashed_regs in
  let asm_body := asm_body ++ [Nop; Nop; Nop; Nop] ++ call_block to_vma in
  mret (mk_template (asm_body ++ (Pop <$> trashed_regs)) returns).

(** ** Mutation stubs *)

(** [u16::next_power_of_two] *)
Definition next_power_of_two (n : nat) : nat := if (n <=? 1)%nat then 1%nat else (2 ^ (S (Nat.log2 (n - 1))))%nat.

(** [1u32 << v]: the shift is checked. *)
Definition shl_one_u32 (v : nat) : outcome Z := _ ← assert_that (v <? 32)%nat; mret (2 ^ Z.of_nat v).

(** The bytes a chunk is read with: one more when it may span two bytes. *)
Definition chunk_reg_size (chunk_size_bits : nat) : outcome nat :=
  let chunk_size_bytes_ceiled := div_ceil_8 chunk_size_bits in
  chunk_size_bytes_ceiled ←
    (if (negb (chunk_size_bits =? 1) && negb (chunk_size_bits mod 8 =? 0))%nat
     then
       let chunk_size_bytes_ceiled := S chunk_size_bytes_ceiled in
       _ ← assert_that (div_ceil_8 chunk_size_bytes_ceiled <=? 8)%nat;
       mret chunk_size_bytes_ceiled
     else mret chunk_size_bytes_ceiled);
  let chunk_size_bytes_ceiled := next_power_of_two chunk_size_bytes_ceiled in
  _ ← assert_that (chunk_size_bytes_ceiled <=? 8)%nat;
  mret chunk_size_bytes_ceiled.

(** [offset_of!(MutationCacheEntry, msk)] *)
Definition msk_start_offset : Z := Z.of_nat meta_size.

(** [offset * -1] on an [i32] *)
Definition neg_i32 (z : Z) : outcome Z := _ ← assert_that (negb (z =? - 2 ^ 31)); mret (- z).

(** The address of the value from the register of the spill slot. *)
Definition slot_offset_code (slot : Location) : outcome (list instr) :=
  if bool_decide (loc_type slot = LocationType_Direct) then
    let offset := offset_or_constant slot in
    if 0 <? offset then mret [AddImm 8 Rdx offset]
    else if offset <? 0 then n ← neg_i32 offset; mret [SubImm 8 Rdx n]
    else mret []
  else mret [].

(** Apply the chunk in [r11] to the value. *)
Definition apply_chunk_code (size : Z) (chunk_size_bits : nat) : outcome (list instr) :=
  if (chunk_size_bits mod 8 =? 0)%nat then mret [XorMem size Rdx R11]
  else one ← shl_one_u32 chunk_size_bits; mret [AndImm size R11 (one - 1); XorMem size Rdx R11].

(** The code of a stub around the parts that depend on the location and the chunk. *)
Definition mutation_code (spill_reg : DwarfReg) (mce_ptr size : Z) (chunk_size_bits : nat)
    (slot_code chunk_code : list instr) : list instr :=
  [Push Rax; Push Rbx; Push Rcx; Push Rdx; Push R11; Push spill_reg;
    MovImm Rax mce_ptr;
    MovLoad 4 false Rbx (mk_addr Rax None read_pos_bits_offset);
    MovReg Rdx Rbx; ShrImm Rdx 3; MovReg Rcx Rbx; AndImm 8 Rcx 0x7;
    MovLoad size true R11 (mk_addr Rax (Some Rdx) msk_start_offset);
    ShrCl R11;
    MovLoad 8 false Rdx (mk_addr Rsp None 0)]
   ++ slot_code ++ chunk_code ++
   [AddImm 4 Rbx (Z.of_nat chunk_size_bits);
    MovLoad 4 false Rcx (mk_addr Rax None offsetof_msk_len);
    ShlImm 4 Rcx 3; Cmp 4 Rbx Rcx; Cmova 4 Rbx Rcx;
    MovStore 4 (mk_addr Rax None read_pos_bits_offset) Rbx;
    Pop spill_reg; Pop R11; Pop Rdx; Pop Rcx; Pop Rbx; Pop Rax].

(** [mce_ptr] is the address of the entry. *)
Definition gen_mutation_reg_and_direct (mce : MutationCacheEntry) (mce_ptr : Z)
    : outcome (result JitError FunctionTemplate) :=
  spill_reg ← unwrap (DwarfReg_try_from (dwarf_regnum (Entry_spill_slot mce)));
  _ ← assert_that (bool_decide (spill_reg <> Rsp));
  chunk_size_bits ← Entry_chunk_size_bits mce;
  if (8 * 8 <? chunk_size_bits)%nat
  then mret (Err (UnsupportedMutation "Chunks with size > 8 byte are currently not supported"))
  else
    size ← chunk_reg_size chunk_size_bits;
    let size := Z.of_nat size in
    slot_code ← slot_offset_code (Entry_spill_slot mce);
    chunk_code ← apply_chunk_code size chunk_size_bits;
    mret (Ok (mk_template
      (mutation_code spill_reg mce_ptr size chunk_size_bits slot_code chunk_code) true)).

Definition gen_mutation (mce : MutationCacheEntry) (mce_ptr : Z) : outcome (result JitError FunctionTemplate) :=
  _ ← assert_that (0 <? Entry_msk_len mce)%nat;
  let ty := loc_type (Entry_spill_slot mce) in
  if bool_decide (ty = LocationType_Register \/ ty = LocationType_Direct)
  then gen_mutation_reg_and_direct mce mce_ptr
  else mret (Err (UnsupportedMutation "Unsupported location type")).
End jit.

(** ** Emitted calls *)

Section calls.
Context {W : Type} (ra : Z) (call : Z -> Machine W -> outcome (Machine W)).
Context (Hra : fits 64 ra) (lo hi : Z) (Hlo : 0 <= lo) (Hhi : hi < 2 ^ 64).
Context (inv : memory -> Prop) (Hinv : stack_free lo hi inv).
Implicit Types st : Machine W.

(** The registers as at the patch point, room for a call with [k] bytes, and a
    well-formed memory. *)
Record at_call (k : Z) (rs : registers) st : Prop := {
  ac_regs : regs_kept gpr rs (m_regs st Rsp) (m_regs st);
  ac_mem : mem_ok (m_mem st);
  ac_inv : inv (m_mem st);
  ac_room : lo + k <= m_regs st Rsp;
  ac_top : m_regs st Rsp <= hi;
}.

(** After a call with these effects. *)
Record called (keep : DwarfReg -> Prop) (rs : registers) (eff : memory -> memory) (weff : W -> W) st st' : Prop := {
  cd_regs : regs_kept keep rs (m_regs st Rsp) (m_regs st');
  cd_mem : same_outside lo (m_regs st Rsp) (eff (m_mem st)) (m_mem st');
  cd_mem_ok : mem_ok (m_mem st');
  cd_world : m_world st' = weff (m_world st);
}.

Lemma call_block_spec k keep rs vma eff weff st :
  regs_ok rs -> fits 64 vma -> 0 <= k -> off_stack lo hi inv eff ->
  callee ra call lo hi k inv keep rs vma eff weff -> at_call (k + 24) rs st ->
  exists st', exec ra call (call_block vma) st = Ret (false, st') /\ called keep rs eff weff st st'.
Proof.
  intros Hrs Hvma Hk [Heff _ _] Hcallee [[_ Hregs] Hmem Hi Hroom Htop].
  set (sp := m_regs st Rsp) in *. set (rax := m_regs st Rax).
  assert (Hrax : rax = rs Rax) by (by apply Hregs).
  destruct (push_value_spec st rax (sp - 8)) as (R1 & L1 & M1 & O1 & W1 & _); [lia|lia|lia|rewrite Hrax; apply Hrs|].
  set (st1 := push_value st rax) in *. set (st2 := with_regs st1 (set_reg (m_regs st1) Rax vma)).
  assert (Hsp1 : m_regs st1 Rsp = sp - 8) by (rewrite R1; by rewrite decide_True).
  assert (Hsp2 : m_regs st2 Rsp = sp - 16 + 8) by (unfold st2; cbn [with_regs m_regs]; reg_simpl; lia).
  destruct (push_value_spec st2 vma (sp - 16)) as (R3 & L3 & M3 & O3 & W3 & _); [lia|done|lia|done|].
  set (st3 := push_value st2 vma) in *.
  assert (Hsp3 : m_regs st3 Rsp = sp - 16) by (rewrite R3; by rewrite decide_True).
  assert (Hld : load (m_mem st3) (ea (m_regs st3) (mk_addr Rsp None 8)) 8 = rs Rax).
  { unfold ea. cbn [a_base a_index a_disp]. rewrite Hsp3, wrap_small by lia.
    replace (sp - 16 + 0 + 8) with (sp - 8) by lia.
    rewrite (same_outside_load _ _ _ _ _ _ M3) by lia. by rewrite <- Hrax. }
  set (st4 := with_regs st3 (set_reg (m_regs st3) Rax (rs Rax))).
  assert (R4 : regs_kept gpr rs (sp - 16) (m_regs st4)).
  { split; [unfold st4; cbn [with_regs m_regs]; by reg_simpl|]. intros r Hr Hg.
    unfold st4. cbn [with_regs m_regs]. unfold set_reg at 1. destruct (decide (r = Rax)) as [->|Hrx]; [done|].
    rewrite R3, decide_False by done. unfold st2. cbn [with_regs m_regs]. rewrite set_reg_ne by done.
    rewrite R1, decide_False by done. by apply Hregs. }
  assert (Hsp4 : m_regs st4 Rsp = sp - 24 + 8) by (destruct R4; lia).
  destruct (push_value_spec st4 ra (sp - 24)) as (R5 & L5 & M5 & O5 & W5 & _); [lia|done|lia|done|].
  set (st5 := push_value st4 ra) in *.
  assert (Hsp5 : m_regs st5 Rsp = sp - 24) by (rewrite R5; by rewrite decide_True).
  assert (Hm5 : same_outside lo sp (m_mem st) (m_mem st5)).
  { change (m_mem st4) with (m_mem st3) in M5. change (m_mem st2) with (m_mem st1) in M3.
    intros x Hx. rewrite M5, M3, M1 by lia. done. }
  destruct (Hcallee st5) as (st6 & E6 & [Hsp6' R6] & M6 & O6 & W6); [|by apply O5, O3, O1|by eapply Hinv|lia|lia|by rewrite Hsp5|].
  { rewrite Hsp5. split; [done|]. intros r Hr Hg. rewrite R5, decide_False by done. by apply R4. }
  assert (Hsp6 : m_regs st6 Rsp = sp - 16) by lia.
  eexists. split.
  - unfold call_block. cbn [exec step mbind outcome_bind mret outcome_ret]. fold rax st1 st2.
    change (push_value st2 (m_regs st2 Rax)) with (push_value st2 vma). fold st3.
    change (Z.to_nat 8) with 8%nat. rewrite Hld, set_sized_8 by apply Hrs. fold st4.
    change (m_mem st4) with (m_mem st3). replace (m_regs st4 Rsp) with (sp - 16) by lia. rewrite L3.
    fold st5. rewrite E6. cbn [mbind outcome_bind exec step mret outcome_ret]. reflexivity.
  - rewrite get_sized_small, Hsp6 by (rewrite ?Hsp6; unfold fits; lia). replace (sp - 16 + 16) with sp by lia.
    rewrite set_sized_8 by (unfold fits; lia). split; cbn [with_alu m_regs m_mem m_world].
    + split; [apply set_reg_eq|]. intros r Hr Hk'. rewrite set_reg_ne by done. by apply R6.
    + eapply same_outside_trans; [apply Heff; [done|done|exact Hm5]|].
      eapply same_outside_weaken; [| |exact M6]; lia.
    + done.
    + by rewrite W6.
Qed.
(** The effects of calling functions one after another. *)
Definition effs (fs : list (Z * (memory -> memory) * (W -> W))) (m : memory) : memory :=
  foldl (fun m f => f.1.2 m) m fs.
Definition weffs (fs : list (Z * (memory -> memory) * (W -> W))) (w : W) : W := foldl (fun w f => f.2 w) w fs.

Lemma effs_off_stack fs : Forall (fun f => off_stack lo hi inv f.1.2) fs -> off_stack lo hi inv (effs fs).
Proof.
  unfold effs. induction 1 as [|f fs [Hp Hf Hi] Hfs [IHp IHf IHi]]; [by split|]. split; cbn [foldl].
  - intros m m' b Hb Hm Hs. apply IHp; [done|by apply Hi|by apply Hp].
  - intros m x Hm Hx. rewrite IHf; [by apply Hf|by apply Hi|done].
  - intros m Hm. by apply IHi, Hi.
Qed.

Lemma call_blocks_spec k rs fs st :
  regs_ok rs -> 0 <= k ->
  Forall (fun f => fits 64 f.1.1 /\ off_stack lo hi inv f.1.2 /\ callee ra call lo hi k inv gpr rs f.1.1 f.1.2 f.2) fs ->
  at_call (k + 24) rs st ->
  exists st', exec ra call (((fun f => f.1.1) <$> fs) ≫= call_block) st = Ret (false, st') /\
    called gpr rs (effs fs) (weffs fs) st st'.
Proof.
  intros Hrs Hk Hfs. revert st. induction Hfs as [|[[vma eff] weff] fs (Hv & Hoff & Hc) Hfs IH];
    intros st Hst.
  - exists st. split; [done|]. destruct Hst. split; [done|by intros ? ?|done|done].
  - destruct (call_block_spec k gpr rs vma eff weff st) as (st1 & E1 & [R1 M1 O1 W1]); [done..|].
    assert (Hsp1 : m_regs st1 Rsp = m_regs st Rsp) by apply R1.
    destruct Hst as [Hregs Hmem Hi Hroom Htop]. pose proof (os_inv _ _ _ _ Hoff _ Hi) as Hi1.
    destruct (IH st1) as (st2 & E2 & [R2 M2 O2 W2]); [split; rewrite ?Hsp1; try done; by eapply Hinv|].
    exists st2. split; [cbn [fmap list_fmap mbind list_bind]; by rewrite (exec_app _ _ _ _ _ _ E1)|].
    split; rewrite ?Hsp1 in *; [done| |done|by rewrite W2, W1].
    eapply same_outside_trans; [|exact M2]. apply (os_proper lo hi inv (effs fs)); [|done..].
    apply effs_off_stack, (Forall_impl _ _ _ Hfs). by intros f (_ & ? & _).
Qed.
End calls.

Section code.
Context {W : Type} (ra : Z) (Hra : fits 64 ra) (lo hi : Z) (Hlo : 0 <= lo) (Hhi : hi < 2 ^ 64).
Context (inv : memory -> Prop) (Hinv : stack_free lo hi inv).
Context (code : gmap Z (list instr)) (native : Z -> Machine W -> outcome (Machine W)).
Implicit Types st : Machine W.

Abbreviation call f := (call_fn code native ra f).

(** An emitted function that leaves the stack as it was returns to its caller. *)
Lemma emitted_callee f k rs vma body eff weff :
  code !! vma = Some (body ++ [RetI]) -> 0 <= k -> off_stack lo hi inv eff ->
  (forall st, at_call lo hi inv k rs st -> exists st', exec ra (call f) body st = Ret (false, st') /\
     called lo gpr rs eff weff st st') ->
  callee ra (call (S f)) lo hi k inv gpr rs vma eff weff.
Proof.
  intros Hc Hk Hoff Hbody st Hregs Hmem Hi Hroom Htop Hload.
  destruct (Hbody st) as (st' & E & [[Hsp' R] M O Hw]); [split; (done || lia)|].
  exists (with_regs st' (set_reg (m_regs st') Rsp (wrap (m_regs st Rsp + 8)))).
  cbn [call_fn]. rewrite Hc, (exec_app _ _ _ _ _ _ E). cbn [exec]. rewrite Hsp'.
  assert (Hl : load (m_mem st') (m_regs st Rsp) 8 = ra).
  { rewrite <- Hload. unfold load. f_equal. apply read_mem_ext. intros i Hi'.
    rewrite M by lia. apply (os_frame _ _ _ _ Hoff); [done|lia]. }
  rewrite Hl, Z.eqb_refl. cbn [assert_that mbind outcome_bind mret outcome_ret fst snd].
  split; [done|]. split; [|done]. cbn [with_regs m_regs]. rewrite wrap_small by lia.
  split; [apply set_reg_eq|]. intros r Hr Hg. rewrite set_reg_ne by done. by apply R.
Qed.

(** The multiplexer has the effects of all functions it calls. *)
Lemma multiplexer_callee f k rs vma fs :
  regs_ok rs -> 0 <= k ->
  code !! vma = Some ((((fun f => f.1.1) <$> fs) ≫= call_block) ++ [RetI]) ->
  Forall (fun g => fits 64 g.1.1 /\ off_stack lo hi inv g.1.2 /\ callee ra (call f) lo hi k inv gpr rs g.1.1 g.1.2 g.2) fs ->
  off_stack lo hi inv (effs fs) /\ callee ra (call (S f)) lo hi (k + 24) inv gpr rs vma (effs fs) (weffs fs).
Proof.
  intros Hrs Hk Hc Hfs.
  assert (Hoff : off_stack lo hi inv (effs fs)).
  { apply effs_off_stack, (Forall_impl _ _ _ Hfs). by intros g (_ & ? & _). }
  split; [done|]. eapply emitted_callee; [exact Hc|lia|done|].
  intros st Hst. by apply (call_blocks_spec ra (call f) Hra lo hi Hlo Hhi inv Hinv k rs fs st).
Qed.

Lemma foldl_push_regs l asm : foldl (fun asm_body reg => Push reg :: asm_body) asm l = (Push <$> rev l) ++ asm.
Proof.
  revert asm. induction l as [|r l IH]; intros asm; [done|]. cbn [foldl rev]. rewrite IH, fmap_app, <- app_assoc.
  done.
Qed.

Lemma exec_nops n body st : exec ra (call n) ([Nop; Nop; Nop; Nop] ++ body) st = exec ra (call n) body st.
Proof. done. Qed.

(** A stub that calls native code with a constant saves every register the native code
    may overwrite: it has the effect of the native code and restores them. *)
Lemma gen_call_callee f k rs vma to id weff asm :
  regs_ok rs -> fits 64 id -> fits 64 to -> 0 <= k ->
  gen_call to [Arg_Constant id] true (Some GENERAL_PURPOSE_REGISTERS) = Ret (mk_template asm true) ->
  code !! vma = Some (asm ++ [RetI]) ->
  callee ra (call f) lo hi k inv (fun _ => False) (set_reg rs Rdi id) to (fun m => m) weff ->
  callee ra (call (S f)) lo hi (k + 24 + 136) inv gpr rs vma (fun m => m) weff.
Proof.
  intros Hrs Hid Hto Hk Hgen Hc Hto_ok.
  set (l := GENERAL_PURPOSE_REGISTERS ++ [Rdi]).
  assert (Hasm : asm = (Push <$> rev l) ++ [Movabs Rdi id] ++ [Nop; Nop; Nop; Nop] ++ call_block to ++ (Pop <$> l)).
  { assert (Hg : gen_call to [Arg_Constant id] true (Some GENERAL_PURPOSE_REGISTERS) = Ret (mk_template
      ((Push <$> rev l) ++ [Movabs Rdi id] ++ [Nop; Nop; Nop; Nop] ++ call_block to ++ (Pop <$> l)) true)) by reflexivity.
    rewrite Hg in Hgen. by injection Hgen as <-. }
  assert (Hid_eff : off_stack lo hi inv (fun m => m)) by (by split).
  eapply emitted_callee; [exact Hc|lia|done|]. intros st [[_ Hregs] Hmem Hi Hroom Htop]. rewrite Hasm. clear Hasm Hgen Hc.
  assert (Hspok : fits 64 (m_regs st Rsp)) by (unfold fits; lia).
  assert (Hl : forall r, r ∈ l -> gpr r) by (intros r [Hr|Hr]%elem_of_app; [done|apply list_elem_of_singleton in Hr as ->; done]).
  assert (Hall : forall r, gpr r -> r ∈ l) by (intros r Hr; apply elem_of_app; by left).
  destruct (pushes ra (call f) (rev l) st (m_regs st Rsp - 136)) as (st1 & E1 & R1 & S1 & M1 & O1 & W1);
    [|done|lia|done|].
  { intros r Hr. destruct (decide (r = Rsp)) as [->|Hne]; [done|]. rewrite Hregs; [done..|].
    apply Hl, list_elem_of_In. rewrite in_rev. by apply list_elem_of_In. }
  rewrite (exec_app _ _ _ _ _ _ E1). cbn [exec app step mbind outcome_bind mret outcome_ret].
  set (st2 := with_regs st1 (set_reg (m_regs st1) Rdi id)).
  set (sp := m_regs st Rsp) in *. set (a := sp - 136) in *.
  assert (Hsp2 : m_regs st2 Rsp = a) by (unfold st2; cbn [with_regs m_regs]; reg_simpl; by rewrite R1, decide_True).
  destruct (call_block_spec ra (call f) Hra lo hi Hlo Hhi inv Hinv k (fun _ => False) (set_reg rs Rdi id) to (fun m => m) weff st2)
    as (st3 & E3 & [[Hsp3 _] M3 O3 W3]); [by apply regs_ok_set|done..| |].
  { split; rewrite ?Hsp2; [|by apply O1| |lia|lia].
    2: { apply (Hinv (m_mem st) _ sp); [lia|eapply same_outside_weaken; [| |exact M1]; lia|done]. }
    split; [done|]. intros r Hr Hg.
    unfold st2. cbn [with_regs m_regs]. unfold set_reg. case_decide; [done|]. rewrite R1, decide_False by done.
    by apply Hregs. }
  rewrite Hsp2 in *. rewrite rev_involutive in S1.
  destruct (pops ra (call f) l (m_regs st) st3) as (st4 & E4 & Hsp4 & R4 & M4 & W4).
  - lia.
  - rewrite Hsp3. change (length l) with 17%nat. lia.
  - rewrite Hsp3. eapply saved_ext; [|exact S1]. intros x Hx. symmetry. rewrite M3; [done|lia].
  - exists st4. rewrite (exec_app _ _ _ _ _ _ E3). split; [exact E4|].
    split; [split| | |]; rewrite ?M4, ?W4.
    + rewrite Hsp4, Hsp3. change (length l) with 17%nat. lia.
    + intros r Hr Hg. rewrite R4 by done. rewrite decide_True by (by apply Hall). by apply Hregs.
    + intros x Hx. rewrite M3 by lia. apply M1. lia.
    + done.
    + by rewrite W3, <- W1.
Qed.
End code.
