(* ===== verification/JitStub.v ===== *)
(** * The mutation stub

    What the code [gen_mutation_reg_and_direct] of [generator/agent/src/jit/jit.rs]
    emits does on the machine of [X86]: it xors the next chunk of the mask into the
    value and advances the read position of the entry. *)

From S2P Require Import Prelude Bytes MutationCacheEntry Messages Trace MutationSite Dwarf X86 Jit.

(** ** The mutation stub *)

Lemma chunk_reg_size_spec c size :
  (c <= 64)%nat -> chunk_reg_size c = Ret size ->
  Z.of_nat size ∈ sizes /\ (c <= 8 * size)%nat /\ (c mod 8 <> 0 -> c + 7 <= 8 * size)%nat.
Proof.
  intros Hc E.
  assert (Hall : forallb (fun c => match chunk_reg_size c with
    | Ret size => bool_decide (Z.of_nat size ∈ sizes) && (c <=? 8 * size)%nat && ((c mod 8 =? 0) || (c + 7 <=? 8 * size))%nat
    | Panic => true end) (seq 0 65) = true) by (vm_compute; reflexivity).
  rewrite forallb_forall in Hall. specialize (Hall c ltac:(apply in_seq; lia)). rewrite E in Hall.
  apply andb_true_iff in Hall as [[H1%bool_decide_eq_true H2%Nat.leb_le]%andb_true_iff H3].
  split; [done|]. split; [done|]. intros Hm. apply orb_true_iff in H3 as [H3%Nat.eqb_eq|H3%Nat.leb_le]; done.
Qed.

(** Prove that a register is not in a list of registers. *)
Ltac reg_notin := repeat (apply not_elem_of_cons; split; [done|]); apply not_elem_of_nil.

Section mask.
Context `{L : EntryLayout} `{!StackMapRecords} `{!StubLayout}.
Context (ptr : Z) (size c : nat).
Implicit Types m : memory.

Definition read_pos m : Z := load m (ptr + read_pos_bits_offset) 4.
Definition mask_len m : Z := load m (ptr + offsetof_msk_len) 4.

(** The bits of the mask, and of the eight bytes after it, from the read position. *)
Definition mask_bits m (width : Z) : Z :=
  Z.land (Z.shiftr (load m (ptr + msk_start_offset) (Z.to_nat (mask_len m) + 8)) (read_pos m)) (Z.ones width).

(** Whole bytes are applied with the width of the register that holds them. *)
Definition applied_width : Z := if (c mod 8 =? 0)%nat then 8 * Z.of_nat size else Z.of_nat c.

(** What a stub does: mutate the value at [slot] and advance the read position. *)
Definition apply_mask (slot : Z) m : memory :=
  store (store m slot size (Z.lxor (load m slot size) (mask_bits m applied_width)))
    (ptr + read_pos_bits_offset) 4 (Z.min (read_pos m + Z.of_nat c) (8 * mask_len m)).

(** An entry the stub can read: [esz] bytes at [ptr] hold header, mask and overflow area. *)
Record mask_at (esz : Z) m : Prop := {
  ma_len : 0 <= 8 * mask_len m < 2 ^ 30;
  ma_esz : msk_start_offset + mask_len m + 8 <= esz;
  ma_pos : 0 <= read_pos m <= 8 * mask_len m;
  ma_aligned : (c mod 8 = 0)%nat -> read_pos m mod 8 = 0;
}.

(** The address of the mutated value, from the register of the spill slot. *)
Definition slot_address (slot : Location) (v : Z) : Z :=
  wrap (v + if bool_decide (loc_type slot = LocationType_Direct) then offset_or_constant slot else 0).

(** Where entry, mutated value and stack are: apart from each other. *)
Record placed (lo hi slot esz : Z) : Prop := {
  pl_ptr : 0 <= ptr;
  pl_end : ptr + esz < 2 ^ 64;
  pl_read_pos : 0 <= read_pos_bits_offset /\ read_pos_bits_offset + 4 <= msk_start_offset;
  pl_msk_len : 0 <= offsetof_msk_len /\ offsetof_msk_len + 4 <= msk_start_offset;
  pl_fields : read_pos_bits_offset + 4 <= offsetof_msk_len \/ offsetof_msk_len + 4 <= read_pos_bits_offset;
  pl_header : msk_start_offset <= esz;
  pl_entry_stack : ptr + esz <= lo \/ hi <= ptr;
  pl_slot_stack : slot + Z.of_nat size <= lo \/ hi <= slot;
  pl_slot_entry : slot + Z.of_nat size <= ptr \/ ptr + esz <= slot;
}.

Section placed.
Context (lo hi slot esz : Z) (Hpl : placed lo hi slot esz).

(** Memories that agree on the entry give the same fields and mask. *)
Lemma fields_ext m m' :
  (forall x, ptr <= x < ptr + esz -> m' x = m x) -> read_pos m' = read_pos m /\ mask_len m' = mask_len m.
Proof.
  intros Hx. destruct Hpl. split; unfold read_pos, mask_len, load; f_equal; apply read_mem_ext; intros i Hi; apply Hx; lia.
Qed.

Lemma mask_at_ext m m' : (forall x, ptr <= x < ptr + esz -> m' x = m x) -> mask_at esz m -> mask_at esz m'.
Proof. intros Hx []. destruct (fields_ext m m' Hx) as [E1 E2]. split; rewrite ?E1, ?E2; done. Qed.

Lemma mask_at_stack_free : stack_free lo hi (mask_at esz).
Proof. intros m m' b Hb Hs. apply mask_at_ext. intros x Hx. apply Hs. destruct Hpl. lia. Qed.

Lemma mask_bits_ext m m' width :
  mask_at esz m -> (forall x, ptr <= x < ptr + esz -> m' x = m x) -> mask_bits m' width = mask_bits m width.
Proof.
  intros [Hlen Hesz _ _] Hx. destruct (fields_ext m m' Hx) as [E1 E2]. unfold mask_bits. rewrite E1, E2. do 2 f_equal.
  unfold load. f_equal. apply read_mem_ext. intros i Hi. apply Hx. destruct Hpl. unfold msk_start_offset in *. lia.
Qed.

Lemma store_in m a n v m' x : (m x = m' x) -> store m a n v x = store m' a n v x.
Proof. intros E. unfold store, write_mem. by case_decide. Qed.

Lemma store_out m a n v x : ~ (a <= x < a + Z.of_nat n) -> store m a n v x = m x.
Proof. intros. unfold store. apply write_mem_out. by rewrite to_le_length. Qed.

(** The effect on single bytes. *)
Lemma apply_mask_at m x :
  mask_at esz m ->
  apply_mask slot m x =
    if decide (ptr + read_pos_bits_offset <= x < ptr + read_pos_bits_offset + 4)
    then store m (ptr + read_pos_bits_offset) 4 (Z.min (read_pos m + Z.of_nat c) (8 * mask_len m)) x
    else if decide (slot <= x < slot + Z.of_nat size)
    then store m slot size (Z.lxor (load m slot size) (mask_bits m applied_width)) x else m x.
Proof.
  intros Hm. unfold apply_mask. case_decide as D1.
  - unfold store at 1, write_mem. rewrite decide_True by (rewrite to_le_length; lia).
    unfold store at 1, write_mem. by rewrite decide_True by (rewrite to_le_length; lia).
  - rewrite store_out by lia. case_decide as D2; [done|]. by rewrite store_out by lia.
Qed.

Lemma apply_mask_fields m :
  mask_at esz m -> (c <= 64)%nat ->
  read_pos (apply_mask slot m) = Z.min (read_pos m + Z.of_nat c) (8 * mask_len m) /\
  mask_len (apply_mask slot m) = mask_len m.
Proof.
  intros [Hlen Hesz Hpos Hal] Hc. destruct Hpl. unfold apply_mask. split.
  - unfold read_pos at 1. rewrite load_store; [done|]. change (256 ^ Z.of_nat 4) with (2 ^ 32). lia.
  - unfold mask_len at 1. rewrite !load_store_out by lia. done.
Qed.

Lemma apply_mask_off_stack : (c <= 64)%nat -> off_stack lo hi (mask_at esz) (apply_mask slot).
Proof.
  intros Hc. split.
  - intros m m' b Hb Hm Hs x Hx. pose proof Hpl as []. 
    assert (Hin : forall y, ptr <= y < ptr + esz -> m' y = m y) by (intros y Hy; apply Hs; lia).
    assert (Hm' : mask_at esz m') by (by eapply mask_at_ext).
    rewrite !apply_mask_at by done. destruct (fields_ext m m' Hin) as [E1 E2]. rewrite E1, E2.
    rewrite (mask_bits_ext m m') by done.
    assert (El : load m' slot size = load m slot size) by (eapply same_outside_load; [exact Hs|lia]).
    rewrite El. case_decide; [by apply store_in, Hs|]. case_decide; [by apply store_in, Hs|by apply Hs].
  - intros m x Hm Hx. pose proof Hpl as []. rewrite apply_mask_at by done.
    rewrite decide_False by (destruct Hm; lia). by rewrite decide_False by lia.
  - intros m Hm. destruct (apply_mask_fields m Hm Hc) as [E1 E2]. destruct Hm as [Hlen Hesz Hpos Hal].
    split; rewrite ?E1, ?E2; [done|done|lia|]. intros H8. specialize (Hal H8). dlia.
Qed.
End placed.
End mask.

Section stub.
Context `{L : EntryLayout} `{!StackMapRecords} `{!StubLayout}.
Context {W : Type} (ra : Z) (call : Z -> Machine W -> outcome (Machine W)).
Context (ptr : Z) (size c : nat) (Hsize : Z.of_nat size ∈ sizes).
Implicit Types st : Machine W.
Implicit Types m : memory.

#[local] Abbreviation read_pos := (read_pos ptr).
#[local] Abbreviation mask_len := (mask_len ptr).
#[local] Abbreviation mask_bits := (mask_bits ptr).
#[local] Abbreviation applied_width := (applied_width size c).
#[local] Abbreviation apply_mask := (apply_mask ptr size c).
#[local] Abbreviation mask_at := (mask_at ptr c).

Lemma load_chunk_spec st sp esz :
  mem_ok (m_mem st) -> fits 64 (m_regs st R11) -> m_regs st Rsp = sp -> 0 <= sp < 2 ^ 64 ->
  0 <= ptr -> ptr + esz < 2 ^ 64 -> 0 <= read_pos_bits_offset -> read_pos_bits_offset + 4 <= msk_start_offset ->
  mask_at esz (m_mem st) ->
  (c <= 8 * size)%nat -> (c mod 8 <> 0 -> c + 7 <= 8 * size)%nat ->
  exists st', exec ra call
    [MovImm Rax ptr;
     MovLoad 4 false Rbx (mk_addr Rax None read_pos_bits_offset);
     MovReg Rdx Rbx; ShrImm Rdx 3; MovReg Rcx Rbx; AndImm 8 Rcx 0x7;
     MovLoad (Z.of_nat size) true R11 (mk_addr Rax (Some Rdx) msk_start_offset);
     ShrCl R11;
     MovLoad 8 false Rdx (mk_addr Rsp None 0)] st = Ret (false, st') /\
    m_mem st' = m_mem st /\ m_world st' = m_world st /\
    m_regs st' Rax = ptr /\ m_regs st' Rbx = read_pos (m_mem st) /\ m_regs st' Rdx = load (m_mem st) sp 8 /\
    Z.land (m_regs st' R11) (Z.ones applied_width) = mask_bits (m_mem st) applied_width /\
    fits 64 (m_regs st' R11) /\
    (forall r, r ∉ [Rax; Rbx; Rcx; Rdx; R11] -> m_regs st' r = m_regs st r).
Proof.
  intros Hm Hr11 Hsp Hspb Hp0 Hp Hrd0 Hrd [Hlen Hesz Hpos Hal] Hc1 Hc2. destruct st as [rs m fl wd].
  cbn [m_regs m_mem m_world] in *.
  assert (Hposb : fits 32 (read_pos m)) by (apply (load_bound m _ 4 Hm)).
  assert (Hlenb : fits 32 (mask_len m)) by (apply (load_bound m _ 4 Hm)). unfold fits in Hposb, Hlenb.
  cbn [exec step with_regs with_alu m_regs m_mem m_flags m_world mbind outcome_bind mret outcome_ret].
  assert (Ea1 : ea (set_reg rs Rax ptr) (mk_addr Rax None read_pos_bits_offset) = ptr + read_pos_bits_offset).
  { unfold ea. cbn [a_base a_index a_disp]. reg_simpl. rewrite wrap_small; lia. }
  rewrite Ea1. change (Z.to_nat 4) with 4%nat. fold (read_pos m).
  rewrite !set_sized_4 by done. reg_simpl.
  set (rs1 := set_reg (set_reg _ Rdx (Z.shiftr (read_pos m) 3)) Rcx (read_pos m)).
  assert (G : get_sized rs1 8 Rcx = read_pos m).
  { unfold get_sized, rs1. reg_simpl. rewrite Z.land_ones by done. apply Z.mod_small. change (8 * 8) with 64. lia. }
  rewrite !G. assert (Hr : Z.land (read_pos m) 7 = read_pos m mod 8) by (apply (Z.land_ones _ 3); done).
  rewrite !Hr, !set_sized_8 by (unfold fits; dlia). set (rs2 := set_reg rs1 Rcx (read_pos m mod 8)).
  assert (Ea2 : ea rs2 (mk_addr Rax (Some Rdx) msk_start_offset) = ptr + msk_start_offset + read_pos m / 8).
  { unfold ea, rs2, rs1. cbn [a_base a_index a_disp]. reg_simpl. rewrite Z.shiftr_div_pow2 by done.
    change (2 ^ 3) with 8. rewrite wrap_small; [lia|]. unfold msk_start_offset in *. dlia. }
  rewrite !Ea2, Nat2Z.id. set (ld := load m _ size).
  destruct (set_sized_spec rs2 (Z.of_nat size) R11 ld) as (x & -> & Hx & Hland); [done| |by apply load_fits|].
  { unfold rs2, rs1. by reg_simpl. }
  reg_simpl.
  assert (Hcl : Z.land (rs2 Rcx) 63 = read_pos m mod 8).
  { unfold rs2. reg_simpl. rewrite (Z.land_ones _ 6) by done. apply Z.mod_small. dlia. }
  rewrite !Hcl. set (rs3 := set_reg (set_reg rs2 R11 x) R11 _).
  assert (Ea3 : ea rs3 (mk_addr Rsp None 0) = sp).
  { unfold ea, rs3, rs2, rs1. cbn [a_base a_index a_disp]. reg_simpl. rewrite wrap_small; lia. }
  rewrite Ea3, set_sized_8 by (by apply (load_fits m sp 8)). change (Z.to_nat 8) with 8%nat.
  eexists. split; [reflexivity|]. cbn [with_regs with_alu m_regs m_mem m_world].
  split; [done|]. split; [done|].
  assert (Hs8 : (size <= 8)%nat) by (clear -Hsize; set_unfold in Hsize; lia).
  assert (Hw : 0 <= applied_width /\ read_pos m mod 8 + applied_width <= 8 * Z.of_nat size).
  { unfold applied_width. destruct (Nat.eqb_spec (c mod 8) 0) as [E|E]; [rewrite Hal by done; lia|].
    specialize (Hc2 E). dlia. }
  split; [|split; [|split; [|split; [|split]]]].
  1, 2: unfold rs3, rs2, rs1; by reg_simpl.
  - by reg_simpl.
  - unfold rs3. reg_simpl. rewrite (land_shiftr_low x ld (8 * Z.of_nat size)) by (done || dlia || lia).
    unfold ld, mask_bits. rewrite (load_inside m _ (Z.to_nat (mask_len m) + 8)) by (done || dlia || lia).
    do 2 f_equal. dlia.
  - unfold rs3. reg_simpl. apply fits_shiftr; [dlia|done].
  - intros r Hnr. unfold rs3, rs2, rs1. rewrite !not_elem_of_cons in Hnr. destruct_and!. by reg_simpl.
Qed.
Lemma slot_offset_spec slot code st :
  slot_offset_code slot = Ret code -> fits 64 (m_regs st Rdx) ->
  exists st', exec ra call code st = Ret (false, st') /\ m_mem st' = m_mem st /\ m_world st' = m_world st /\
    m_regs st' Rdx = slot_address slot (m_regs st Rdx) /\ (forall r, r <> Rdx -> m_regs st' r = m_regs st r).
Proof.
  intros Hcode Hd.
  assert (Hg : get_sized (m_regs st) 8 Rdx = m_regs st Rdx) by (by apply get_sized_small).
  unfold slot_offset_code, slot_address in *. case_bool_decide.
  - destruct (Z.ltb_spec 0 (offset_or_constant slot)) as [Hpos|Hnp]; [|destruct (Z.ltb_spec (offset_or_constant slot) 0)].
    + injection Hcode as <-. eexists. split; [reflexivity|]. cbn [with_alu m_regs m_mem m_world].
      split; [done|]. split; [done|]. rewrite Hg. unfold set_sized. cbn [Z.eqb Pos.eqb].
      split; [by reg_simpl|]. intros. by reg_simpl.
    + unfold neg_i32 in Hcode. destruct (negb _); [|done]. injection Hcode as <-.
      eexists. split; [reflexivity|]. cbn [with_alu m_regs m_mem m_world].
      split; [done|]. split; [done|]. rewrite Hg. unfold set_sized. cbn [Z.eqb Pos.eqb].
      split; [reg_simpl; unfold wrap; f_equal; lia|]. intros. by reg_simpl.
    + injection Hcode as <-. exists st. split; [done|]. do 2 (split; [done|]). split; [|done].
      replace (offset_or_constant slot) with 0 by lia. by rewrite Z.add_0_r, wrap_small.
  - injection Hcode as <-. exists st. split; [done|]. do 2 (split; [done|]). split; [|done].
    by rewrite Z.add_0_r, wrap_small.
Qed.

Lemma apply_chunk_spec code st slot :
  apply_chunk_code (Z.of_nat size) c = Ret code -> fits 64 (m_regs st R11) -> m_regs st Rdx = slot ->
  (c <= 8 * size)%nat ->
  exists st', exec ra call code st = Ret (false, st') /\ m_world st' = m_world st /\
    m_mem st' = store (m_mem st) slot size
      (Z.lxor (load (m_mem st) slot size) (Z.land (m_regs st R11) (Z.ones applied_width))) /\
    (forall r, r <> R11 -> m_regs st' r = m_regs st r).
Proof.
  intros Hcode Hr11 Hslot Hc. unfold apply_chunk_code, applied_width in *.
  destruct (Nat.eqb_spec (c mod 8) 0) as [E|E].
  - injection Hcode as <-. eexists. split; [reflexivity|]. cbn [m_regs m_mem m_world]. split; [done|].
    rewrite Hslot, Nat2Z.id. done.
  - unfold shl_one_u32 in Hcode. destruct (Nat.ltb_spec c 32) as [Hlt|]; [|done].
    injection Hcode as <-. cbn [exec step with_alu m_regs m_mem m_world mbind outcome_bind mret outcome_ret].
    assert (Hv : Z.land (get_sized (m_regs st) (Z.of_nat size) R11) (2 ^ Z.of_nat c - 1)
                 = Z.land (m_regs st R11) (Z.ones (Z.of_nat c))).
    { unfold get_sized. replace (2 ^ Z.of_nat c - 1) with (Z.ones (Z.of_nat c)) by (rewrite Z.ones_equiv; lia).
      rewrite <- Z.land_assoc. f_equal. apply land_ones_ones. lia. }
    rewrite Hv. destruct (set_sized_spec (m_regs st) (Z.of_nat size) R11 (Z.land (m_regs st R11) (Z.ones (Z.of_nat c))))
      as (x & -> & Hx & Hland); [done|done| |].
    { rewrite Z.land_ones by lia. unfold fits. pose proof (Z.mod_pos_bound (m_regs st R11) (2 ^ Z.of_nat c)).
      pose proof (Z.pow_le_mono_r 2 (Z.of_nat c) (8 * Z.of_nat size)). lia. }
    eexists. split; [reflexivity|]. cbn [m_regs m_mem m_world]. split; [done|]. reg_simpl. rewrite Hslot, Nat2Z.id.
    split; [|intros; by reg_simpl]. unfold get_sized. reg_simpl. by rewrite Hland.
Qed.

Lemma advance_spec st esz :
  mem_ok (m_mem st) -> m_regs st Rax = ptr -> m_regs st Rbx = read_pos (m_mem st) ->
  0 <= ptr -> ptr + esz < 2 ^ 64 ->
  0 <= read_pos_bits_offset -> read_pos_bits_offset + 4 <= esz ->
  0 <= offsetof_msk_len -> offsetof_msk_len + 4 <= esz ->
  read_pos (m_mem st) <= 2 ^ 31 -> 8 * mask_len (m_mem st) < 2 ^ 30 -> (c <= 64)%nat ->
  exists st', exec ra call
    [AddImm 4 Rbx (Z.of_nat c);
     MovLoad 4 false Rcx (mk_addr Rax None offsetof_msk_len);
     ShlImm 4 Rcx 3; Cmp 4 Rbx Rcx; Cmova 4 Rbx Rcx;
     MovStore 4 (mk_addr Rax None read_pos_bits_offset) Rbx] st = Ret (false, st') /\
    m_world st' = m_world st /\
    m_mem st' = store (m_mem st) (ptr + read_pos_bits_offset) 4
      (Z.min (read_pos (m_mem st) + Z.of_nat c) (8 * mask_len (m_mem st))) /\
    (forall r, r ∉ [Rbx; Rcx] -> m_regs st' r = m_regs st r).
Proof.
  intros Hm Hax Hbx Hp0 Hp Hrd0 Hrd Hln0 Hln Hpos Hlen Hc. destruct st as [rs m fl wd].
  cbn [m_regs m_mem m_world] in *.
  assert (Hposb : fits 32 (read_pos m)) by (apply (load_bound m _ 4 Hm)).
  assert (Hlenb : fits 32 (mask_len m)) by (apply (load_bound m _ 4 Hm)). unfold fits in Hposb, Hlenb.
  cbn [exec step with_regs with_alu with_mem m_regs m_mem m_flags m_world mbind outcome_bind mret outcome_ret].
  rewrite (get_sized_small rs 4 Rbx) by (done || rewrite Hbx; unfold fits; change (8 * 4) with 32; lia).
  rewrite Hbx. set (pos := read_pos m) in *. set (len := mask_len m) in *.
  rewrite !set_sized_4 by (unfold fits; lia). set (rs1 := set_reg rs Rbx (pos + Z.of_nat c)).
  assert (Ea1 : ea rs1 (mk_addr Rax None offsetof_msk_len) = ptr + offsetof_msk_len).
  { unfold ea, rs1. cbn [a_base a_index a_disp]. reg_simpl. rewrite Hax, wrap_small; lia. }
  rewrite Ea1. change (Z.to_nat 4) with 4%nat. change (load m (ptr + offsetof_msk_len) 4) with len.
  rewrite !(set_sized_4 rs1) by done. set (rs2 := set_reg rs1 Rcx len).
  rewrite (get_sized_small rs2 4 Rcx) by (done || unfold rs2; reg_simpl; done).
  assert (E8 : Z.shiftl (rs2 Rcx) 3 = 8 * len) by (unfold rs2; reg_simpl; rewrite Z.shiftl_mul_pow2; lia).
  rewrite E8, !(set_sized_4 rs2) by (unfold fits; lia). set (rs3 := set_reg rs2 Rcx (8 * len)).
  assert (Hb3 : rs3 Rbx = pos + Z.of_nat c) by (unfold rs3, rs2, rs1; by reg_simpl).
  assert (Hc3 : rs3 Rcx = 8 * len) by (unfold rs3; by reg_simpl).
  assert (G1 : get_sized rs3 4 Rbx = pos + Z.of_nat c).
  { rewrite get_sized_small; [done|done|]. rewrite Hb3. unfold fits. change (8 * 4) with 32. lia. }
  assert (G2 : get_sized rs3 4 Rcx = 8 * len).
  { rewrite get_sized_small; [done|done|]. rewrite Hc3. unfold fits. change (8 * 4) with 32. lia. }
  rewrite G1, G2. cbn [unwrap mbind outcome_bind fst snd].
  assert (Hmin : get_sized rs3 4 (if negb (pos + Z.of_nat c <? 8 * len) && negb (pos + Z.of_nat c =? 8 * len) then Rcx else Rbx)
                 = Z.min (pos + Z.of_nat c) (8 * len)).
  { destruct (Z.ltb_spec (pos + Z.of_nat c) (8 * len)), (Z.eqb_spec (pos + Z.of_nat c) (8 * len)); cbn [negb andb];
      rewrite ?G1, ?G2; lia. }
  rewrite Hmin, set_sized_4 by (unfold fits; lia). eexists. split; [reflexivity|].
  cbn [with_regs with_alu with_mem m_regs m_mem m_world]. split; [done|]. split.
  - rewrite set_reg_eq. f_equal. unfold ea, rs3, rs2, rs1. cbn [a_base a_index a_disp]. reg_simpl.
    rewrite Hax, wrap_small; lia.
  - intros r Hr. rewrite !not_elem_of_cons in Hr. destruct_and!. unfold rs3, rs2, rs1. by reg_simpl.
Qed.
Section placed.
Context (lo hi slot esz : Z) (Hpl : placed ptr size lo hi slot esz).

Lemma stub_called rs spill_reg sl slot_code chunk_code st :
  regs_ok rs -> gpr spill_reg -> spill_reg <> Rsp -> slot = slot_address sl (rs spill_reg) -> 0 <= lo -> hi < 2 ^ 64 ->
  (c <= 64)%nat -> (c <= 8 * size)%nat -> (c mod 8 <> 0 -> c + 7 <= 8 * size)%nat ->
  slot_offset_code sl = Ret slot_code -> apply_chunk_code (Z.of_nat size) c = Ret chunk_code ->
  at_call lo hi (mask_at esz) 48 rs st ->
  exists st', exec ra call
    (mutation_code spill_reg ptr (Z.of_nat size) c slot_code chunk_code) st = Ret (false, st') /\
    called lo gpr rs (apply_mask slot) (fun w => w) st st'.
Proof.
  intros Hrs Hg Hspill Hslot Hlo Hhi Hc64 Hc1 Hc2 Hsc Hcc [[_ Hregs] Hmem Hinv Hroom Htop].
  set (l := [Rax; Rbx; Rcx; Rdx; R11; spill_reg]). set (sp := m_regs st Rsp) in *.
  assert (Hl : forall r, r ∈ l -> gpr r /\ r <> Rsp) by (unfold l; intros r Hr; set_unfold in Hr; naive_solver).
  destruct (pushes ra call l st (sp - 48)) as (st1 & E1 & R1 & S1 & M1 & O1 & W1);
    [|unfold fits; fold sp; lia|lia|done|].
  { intros r Hr. destruct (Hl r Hr). by rewrite Hregs. }
  destruct Hpl as [Hp0 Hp Hrd Hln Hfld Hhd Hes Hss Hse].
  assert (Hsame : same_outside lo sp (m_mem st) (m_mem st1)) by (eapply same_outside_weaken; [| |exact M1]; lia).
  assert (Hinv1 : mask_at esz (m_mem st1)) by (by eapply mask_at_stack_free).
  assert (Hsp1 : m_regs st1 Rsp = sp - 48) by (by rewrite R1, decide_True).
  assert (Hr1 : forall r, gpr r -> r <> Rsp -> m_regs st1 r = rs r).
  { intros r Hr Hne. rewrite R1, decide_False by done. by apply Hregs. }
  destruct (load_chunk_spec st1 (sp - 48) esz) as (st2 & E2 & M2 & W2 & Hax & Hbx & Hdx & H11 & H11f & R2);
    [by apply O1|rewrite Hr1 by done; apply Hrs|done|lia|done|done|apply Hrd|apply Hrd|done..|].
  assert (Hdx' : m_regs st2 Rdx = rs spill_reg).
  { rewrite Hdx. change (rev l) with (spill_reg :: rev [Rax; Rbx; Rcx; Rdx; R11]) in S1. destruct S1 as [S1 _].
    rewrite S1, decide_False by done. by apply Hregs. }
  destruct (slot_offset_spec sl slot_code st2) as (st3 & E3 & M3 & W3 & Hdx3 & R3); [done|rewrite Hdx'; apply Hrs|].
  rewrite Hdx', <- Hslot in Hdx3.
  destruct (apply_chunk_spec chunk_code st3 slot) as (st4 & E4 & W4 & M4 & R4); [done|by rewrite R3|done|done|].
  rewrite (R3 R11), H11, M3, M2 in M4 by done.
  assert (Hok4 : mem_ok (m_mem st4)) by (rewrite M4; apply store_ok, O1, Hmem).
  destruct (fields_ext ptr size lo hi slot esz Hpl (m_mem st1) (m_mem st4)) as [F1 F2].
  { intros x Hx. rewrite M4. apply store_out. lia. }
  pose proof Hinv1 as [Hlen1 Hesz1 Hpos1 Hal1].
  destruct (advance_spec st4 esz) as (st5 & E5 & W5 & M5 & R5); try (done || lia).
  1, 2: rewrite R4, R3 by done; rewrite ?F1; done.
  rewrite F1, F2, M4 in M5. fold (apply_mask slot (m_mem st1)) in M5.
  assert (H5 : forall r, r ∉ l -> m_regs st5 r = m_regs st1 r).
  { intros r Hr. unfold l in Hr. rewrite !not_elem_of_cons in Hr. destruct Hr as (? & ? & ? & ? & ? & ? & _).
    rewrite R5, R4, R3, R2; first [done|reg_notin]. }
  assert (Hsp5 : m_regs st5 Rsp = sp - 48).
  { rewrite H5; [done|]. intros Hin. by destruct (Hl _ Hin). }
  destruct (pops ra call (rev l) (m_regs st) st5) as (st6 & E6 & Hsp6 & R6 & M6 & W6).
  - lia.
  - rewrite Hsp5. change (length (rev l)) with 6%nat. lia.
  - rewrite Hsp5, M5. eapply saved_ext; [|exact S1]. intros x Hx. symmetry.
    apply (os_frame lo hi (mask_at esz)); [by apply apply_mask_off_stack|done|].
    change (length (rev l)) with 6%nat in Hx. lia.
  - exists st6. split.
    + match type of E2 with exec _ _ ?s2 _ = _ => match type of E5 with exec _ _ ?s5 _ = _ =>
        transitivity (exec ra call ((Push <$> l) ++ s2 ++ slot_code ++ chunk_code ++ s5 ++ (Pop <$> rev l)) st)
      end end; [reflexivity|].
      rewrite (exec_app _ _ _ _ _ _ E1), (exec_app _ _ _ _ _ _ E2), (exec_app _ _ _ _ _ _ E3),
        (exec_app _ _ _ _ _ _ E4), (exec_app _ _ _ _ _ _ E5). exact E6.
    + split; [split| | |]; rewrite ?M6, ?W6, ?M5.
      * rewrite Hsp6, Hsp5. change (length (rev l)) with 6%nat. lia.
      * intros r Hr Hgr. rewrite R6 by done. case_decide as Hin; [by apply Hregs|].
        rewrite H5; [by apply Hr1|]. intros Hin'. apply Hin, list_elem_of_In. rewrite <- in_rev. by apply list_elem_of_In.
      * by apply (os_proper lo hi (mask_at esz)); [apply apply_mask_off_stack|..].
      * apply store_ok. by rewrite <- M4.
      * by rewrite W5, W4, W3, W2, W1.
Qed.
End placed.
End stub.
