(* ===== verification/JitPatch.v ===== *)
(** * Patch points

    The code the agent writes into a patch point, with the functions it calls: the
    mutation stub, the tracing stub and the multiplexer of
    [generator/agent/src/jit/jit.rs]. *)

From S2P Require Import Prelude Bytes MutationCacheEntry Messages Trace MutationSite Dwarf X86 Jit JitStub.

(** ** What patch points do *)

Section patch_point.
Context `{L : EntryLayout} `{!StackMapRecords} `{!StubLayout}.
Context {W : Type} (ra : Z) (Hra : fits 64 ra) (lo hi : Z) (Hlo : 0 <= lo) (Hhi : hi < 2 ^ 64).
Context (code : gmap Z (list instr)) (native : Z -> Machine W -> outcome (Machine W)).
Implicit Types st : Machine W.

Lemma callee_weaken call k k' inv keep rs target eff weff :
  k <= k' -> callee ra call lo hi k inv keep rs target eff weff ->
  callee (W := W) ra call lo hi k' inv keep rs target eff weff.
Proof. intros Hk Hc st Hr Hm Hi Hs Ht Hl. apply Hc; (done || lia). Qed.

(** The parts of a successful generation. *)
Lemma gen_mutation_Ok mce ptr t :
  gen_mutation mce ptr = Ret (Ok t) ->
  exists spill_reg c size slot_code chunk_code,
    DwarfReg_try_from (dwarf_regnum (Entry_spill_slot mce)) = Some spill_reg /\ spill_reg <> Rsp /\
    Entry_chunk_size_bits mce = Ret c /\ (c <= 64)%nat /\ chunk_reg_size c = Ret size /\
    slot_offset_code (Entry_spill_slot mce) = Ret slot_code /\ apply_chunk_code (Z.of_nat size) c = Ret chunk_code /\
    t = mk_template (mutation_code spill_reg ptr (Z.of_nat size) c slot_code chunk_code) true.
Proof.
  unfold gen_mutation, gen_mutation_reg_and_direct. intros E. destruct (assert_that (0 <? _)%nat); [|done].
  cbn [mbind outcome_bind] in E. case_bool_decide; [|done].
  destruct (DwarfReg_try_from _) as [r|] eqn:Er; [|done]. cbn [unwrap mbind outcome_bind] in E.
  case_bool_decide as Hr; [|done]. cbn [assert_that mbind outcome_bind] in E.
  destruct (Entry_chunk_size_bits mce) as [c|] eqn:Ec; [|done]. cbn [mbind outcome_bind] in E.
  destruct (Nat.ltb_spec (8 * 8) c); [done|].
  destruct (chunk_reg_size c) as [size|] eqn:Es; [|done]. cbn [mbind outcome_bind] in E.
  destruct (slot_offset_code _) as [sc|] eqn:Esc; [|done]. cbn [mbind outcome_bind] in E.
  destruct (apply_chunk_code _ c) as [cc|] eqn:Ecc; [|done]. cbn [mbind outcome_bind] in E.
  injection E as <-. exists r, c, size, sc, cc. split_and!; (done || lia).
Qed.
Context (mce : MutationCacheEntry) (ptr esz slot : Z) (rs : registers) (spill_reg : DwarfReg) (c size : nat).

(** The entry can be mutated at run time: its location is relative to a general
    purpose register, and entry, value and stack are apart. *)
Record site_ok : Prop := {
  so_rs : regs_ok rs;
  so_reg : DwarfReg_try_from (dwarf_regnum (Entry_spill_slot mce)) = Some spill_reg;
  so_gpr : gpr spill_reg;
  so_chunk : Entry_chunk_size_bits mce = Ret c;
  so_size : chunk_reg_size c = Ret size;
  so_slot : slot = slot_address (Entry_spill_slot mce) (rs spill_reg);
  so_placed : placed ptr size lo hi slot esz;
}.

Lemma stub_callee f vma t :
  site_ok -> gen_mutation mce ptr = Ret (Ok t) -> code !! vma = Some (ft_asm_body t ++ [RetI]) ->
  off_stack lo hi (mask_at ptr c esz) (apply_mask ptr size c slot) /\
  callee ra (call_fn code native ra (S f)) lo hi 48 (mask_at ptr c esz) gpr rs vma (apply_mask ptr size c slot) (fun w => w).
Proof.
  intros [Hrs Hreg Hgpr Hc Hsz Hslot Hpl] Hgen Hcode.
  destruct (gen_mutation_Ok mce ptr t Hgen) as (r & c' & size' & sc & cc & Hr & Hne & Hc' & Hc64 & Hsz' & Hsc & Hcc & ->).
  rewrite Hc in Hc'. injection Hc' as <-. rewrite Hsz in Hsz'. injection Hsz' as <-.
  rewrite Hreg in Hr. injection Hr as <-.
  destruct (chunk_reg_size_spec c size Hc64 Hsz) as (Hs & Hc1 & Hc2).
  assert (Hoff : off_stack lo hi (mask_at ptr c esz) (apply_mask ptr size c slot)) by (by apply apply_mask_off_stack).
  split; [done|]. eapply (emitted_callee ra lo hi Hlo Hhi); [exact Hcode|lia|done|]. intros st Hst.
  by eapply stub_called.
Qed.
(** The native tracing callback: it may overwrite every register but the stack pointer
    and the [kn] bytes of stack below its return address, and reports its first
    argument. *)
Definition tracing_ok (cb kn : Z) (report : Z -> W -> W) : Prop :=
  code !! cb = None /\ fits 64 cb /\ 0 <= kn /\
  forall st, 0 <= m_regs st Rsp < hi -> mem_ok (m_mem st) ->
    exists st', native cb st = Ret st' /\ m_regs st' Rsp = m_regs st Rsp + 8 /\
      same_outside (m_regs st Rsp - kn) (m_regs st Rsp) (m_mem st) (m_mem st') /\ mem_ok (m_mem st') /\
      m_world st' = report (m_regs st Rdi) (m_world st).

Lemma tracing_callee f cb kn report rs' :
  tracing_ok cb kn report -> callee ra (call_fn code native ra (S f)) lo hi kn (mask_at ptr c esz) (fun _ => False)
    rs' cb (fun m => m) (report (rs' Rdi)).
Proof.
  intros (Hc & _ & Hkn & Hcb) st [_ Hregs] Hmem Hi Hroom Htop Hl. cbn [call_fn]. rewrite Hc.
  destruct (Hcb st) as (st' & E & Hsp & Hm & Hok & Hw); [lia|done|].
  exists st'. split; [done|]. split; [by split|]. split; [|split; [done|by rewrite Hw, Hregs]].
  eapply same_outside_weaken; [| |exact Hm]; lia.
Qed.

(** A patch point that is mutated and traced.  With the code the JIT emits in place (the
    mutation stub, the tracing stub, the multiplexer that calls both, and the call
    written into the patch point), executing the patch point returns to the program
    with every general purpose register as it was.  The value at the slot was xored
    with the next bits of the mask and the read position advanced, everything else
    above the stack pointer is unchanged, and the id of the site was reported once. *)
Lemma patch_point_runs kn id cb v_stub v_trace v_mux t_stub t_trace t_mux t_patch report st :
  site_ok -> fits 64 id -> tracing_ok cb kn report ->
  fits 64 v_stub -> fits 64 v_trace -> fits 64 v_mux ->
  gen_mutation mce ptr = Ret (Ok t_stub) ->
  gen_call cb [Arg_Constant id] true (Some GENERAL_PURPOSE_REGISTERS) = Ret t_trace ->
  gen_call_multiplexer [mk_instance (ft_asm_body t_stub ++ [RetI]) [] (Some v_stub);
                        mk_instance (ft_asm_body t_trace ++ [RetI]) [] (Some v_trace)] = Ret t_mux ->
  gen_call v_mux [] false None = Ret t_patch ->
  code !! v_stub = Some (ft_asm_body t_stub ++ [RetI]) ->
  code !! v_trace = Some (ft_asm_body t_trace ++ [RetI]) ->
  code !! v_mux = Some (ft_asm_body t_mux ++ [RetI]) ->
  at_call lo hi (mask_at ptr c esz) (kn + 256) rs st ->
  exists st', exec ra (call_fn code native ra 3) (ft_asm_body t_patch) st = Ret (false, st') /\
    called lo gpr rs (apply_mask ptr size c slot) (report id) st st'.
Proof.
  intros Hsite Hid Htr Hv1 Hv2 Hv3 Hg1 Hg2 Hg3 Hg4 Hc1 Hc2 Hc3 Hst. pose proof Hsite as [Hrs _ _ _ _ _ Hpl].
  pose proof Htr as (_ & Hcb & Hkn & _).
  assert (Hfree : stack_free lo hi (mask_at ptr c esz)) by (by eapply mask_at_stack_free).
  destruct (stub_callee 1 v_stub t_stub Hsite Hg1 Hc1) as [Hoff Hstub].
  destruct t_trace as [asm_trace ret]. assert (ret = true) as ->.
  { unfold gen_call in Hg2. destruct (pass_args _ _ _ _) as [[]|]; [|done]. by injection Hg2. }
  pose proof (gen_call_callee ra Hra lo hi Hlo Hhi (mask_at ptr c esz) Hfree code native 1 kn rs v_trace cb id
    (report id) asm_trace Hrs Hid Hcb Hkn Hg2 Hc2) as Htrace.
  pose proof (tracing_callee 0 cb kn report (set_reg rs Rdi id) Htr) as Hcb_ok. rewrite set_reg_eq in Hcb_ok.
  specialize (Htrace Hcb_ok).
  set (fs := [(v_stub, apply_mask ptr size c slot, fun w : W => w); (v_trace, fun m : memory => m, report id)]).
  injection Hg3 as <-. cbn [ft_asm_body] in Hc3.
  destruct (multiplexer_callee ra Hra lo hi Hlo Hhi (mask_at ptr c esz) Hfree code native 2 (kn + 24 + 136) rs v_mux fs)
    as [Hmoff Hmux]; [done|lia|done| |].
  { constructor; [split; [done|split; [done|by eapply callee_weaken; [|exact Hstub]; lia]]|].
    constructor; [split; [done|split; [by split|exact Htrace]]|constructor]. }
  injection Hg4 as <-. cbn [ft_asm_body].
  apply (call_block_spec ra (call_fn code native ra 3) Hra lo hi Hlo Hhi (mask_at ptr c esz) Hfree (kn + 24 + 136 + 24)
    gpr rs v_mux (effs fs) (weffs fs)); [done|done|lia|done|done|].
  destruct Hst. split; try done. lia.
Qed.
End patch_point.

(** ** The mask over many executions *)

Section masks.
Context `{L : EntryLayout} `{!StackMapRecords} `{!StubLayout}.
Context (ptr esz lo hi : Z) (size c : nat) (Hc : (c <= 64)%nat).

(** The mask and the overflow area are not written. *)
Lemma apply_mask_mask slot m x :
  placed ptr size lo hi slot esz -> mask_at ptr c esz m -> ptr + msk_start_offset <= x < ptr + esz ->
  apply_mask ptr size c slot m x = m x.
Proof.
  intros Hpl Hm Hx. erewrite apply_mask_at by done. destruct Hpl. rewrite !decide_False by lia. done.
Qed.

(** The value after one application. *)
Lemma apply_mask_value slot m :
  placed ptr size lo hi slot esz -> mask_at ptr c esz m -> mem_ok m -> (c <= 8 * size)%nat ->
  load (apply_mask ptr size c slot m) slot size = Z.lxor (load m slot size) (mask_bits ptr m (applied_width size c)).
Proof.
  intros Hpl Hm Hok Hcs. set (v := Z.lxor _ _).
  assert (Hv : fits (8 * Z.of_nat size) v).
  { apply fits_lxor; [lia|by apply load_fits|]. unfold mask_bits, fits.
    assert (0 <= applied_width size c <= 8 * Z.of_nat size) by (unfold applied_width; destruct (_ =? _)%nat; lia).
    rewrite Z.land_ones by lia. pose proof (Z.mod_pos_bound (Z.shiftr (load m (ptr + msk_start_offset) (Z.to_nat (mask_len ptr m) + 8)) (read_pos ptr m)) (2 ^ applied_width size c) ltac:(lia)).
    pose proof (Z.pow_le_mono_r 2 (applied_width size c) (8 * Z.of_nat size)). lia. }
  transitivity (load (store m slot size v) slot size); [|apply load_store; change 256 with (2 ^ 8); by rewrite <- Z.pow_mul_r by lia].
  unfold load. f_equal. apply read_mem_ext. intros i Hi. erewrite apply_mask_at by done. destruct Hpl.
  rewrite decide_False by lia. by rewrite decide_True by lia.
Qed.

(** The state of the entry at the execution [n], when each execution applies the mask. *)
Lemma masks_in_order (slots : nat -> Z) (ms : nat -> memory) n :
  (forall i, placed ptr size lo hi (slots i) esz) ->
  mask_at ptr c esz (ms 0%nat) -> read_pos ptr (ms 0%nat) = 0 ->
  (forall i, mask_at ptr c esz (ms i) -> forall x, ptr <= x < ptr + esz -> ms (S i) x = apply_mask ptr size c (slots i) (ms i) x) ->
  mask_at ptr c esz (ms n) /\
  read_pos ptr (ms n) = Z.min (Z.of_nat n * Z.of_nat c) (8 * mask_len ptr (ms 0%nat)) /\
  mask_len ptr (ms n) = mask_len ptr (ms 0%nat) /\
  forall x, ptr + msk_start_offset <= x < ptr + esz -> ms n x = ms 0%nat x.
Proof.
  intros Hpl Hm0 Hp0 Hstep. set (len := mask_len ptr (ms 0%nat)). induction n as [|n (IHm & IHp & IHl & IHx)].
  - split_and!; [done| |done|done]. rewrite Hp0. destruct Hm0. unfold len. lia.
  - specialize (Hstep n IHm). destruct (fields_ext ptr size lo hi (slots n) esz (Hpl n) _ _ Hstep) as [E1 E2].
    destruct (apply_mask_fields ptr size c lo hi (slots n) esz (Hpl n) (ms n) IHm Hc) as [F1 F2].
    pose proof (os_inv _ _ _ _ (apply_mask_off_stack ptr size c lo hi (slots n) esz (Hpl n) Hc) _ IHm) as Hinv.
    split_and!.
    + eapply mask_at_ext; [exact (Hpl n)|exact Hstep|exact Hinv].
    + rewrite E1, F1, IHp, IHl. lia.
    + by rewrite E2, F2.
    + intros x Hx. destruct (Hpl n). rewrite Hstep by lia. by rewrite apply_mask_mask, IHx.
Qed.

(** The bits of a mask from a position on. *)
Definition mask_from (m : memory) (pos width : Z) : Z :=
  Z.land (Z.shiftr (load m (ptr + msk_start_offset) (Z.to_nat (mask_len ptr m) + 8)) pos) (Z.ones width).

Lemma mask_bits_from m m' width :
  mask_at ptr c esz m -> mask_len ptr m' = mask_len ptr m ->
  (forall x, ptr + msk_start_offset <= x < ptr + esz -> m' x = m x) ->
  mask_bits ptr m' width = mask_from m (read_pos ptr m') width.
Proof.
  intros Hm Hl Hx. unfold mask_bits, mask_from. rewrite Hl. do 2 f_equal. unfold load. f_equal.
  apply read_mem_ext. intros i Hi. destruct Hm. apply Hx. unfold msk_start_offset in *. lia.
Qed.

(** Nothing is left to apply after the mask, when the overflow area is zero. *)
Lemma mask_used_up m :
  mask_at ptr c esz m -> mem_ok m ->
  (forall x, ptr + msk_start_offset + mask_len ptr m <= x < ptr + msk_start_offset + mask_len ptr m + 8 -> m x = 0) ->
  mask_from m (8 * mask_len ptr m) (applied_width size c) = 0.
Proof.
  intros Hm Hok Hz. apply Z.bits_inj'. intros i Hi. unfold mask_from.
  rewrite Z.land_spec, Z.shiftr_spec, Z.testbit_0_l by lia. destruct Hm.
  rewrite load_testbit by (done || lia). case_decide as Hlt; [|done]. rewrite Hz; [by rewrite Z.testbit_0_l|]. dlia.
Qed.
End masks.

Section executions.
Context `{L : EntryLayout} `{!StackMapRecords} `{!StubLayout}.
Context {W : Type} (ra lo hi : Z) (Hlo : 0 <= lo) (Hhi : hi < 2 ^ 64).
Context (code : gmap Z (list instr)) (native : Z -> Machine W -> outcome (Machine W)).
Context (mce : MutationCacheEntry) (ptr esz : Z) (spill_reg : DwarfReg) (c size : nat).

(** The machine has just called the stub, with the value at [slot]. *)
Record at_stub (slot : Z) (st : Machine W) : Prop := {
  as_site : site_ok lo hi mce ptr esz slot (m_regs st) spill_reg c size;
  as_mem : mem_ok (m_mem st);
  as_room : lo + 48 <= m_regs st Rsp;
  as_top : m_regs st Rsp + 8 <= hi;
  as_ret : load (m_mem st) (m_regs st Rsp) 8 = ra;
}.

(** What one execution of the stub leaves: the value is xored with [bits], the read
    position is [pos], and everything else but the free part of the stack is kept. *)
Record stub_effect (slot bits pos : Z) (st st' : Machine W) : Prop := {
  se_value : load (m_mem st') slot size = Z.lxor (load (m_mem st) slot size) bits;
  se_read_pos : read_pos ptr (m_mem st') = pos;
  se_regs : regs_kept gpr (m_regs st) (m_regs st Rsp + 8) (m_regs st');
  se_frame : forall x, ~ lo <= x < m_regs st Rsp -> ~ slot <= x < slot + Z.of_nat size ->
    ~ ptr + read_pos_bits_offset <= x < ptr + read_pos_bits_offset + 4 -> m_mem st' x = m_mem st x;
  se_world : m_world st' = m_world st;
}.

Lemma stub_runs f vma t slot st :
  gen_mutation mce ptr = Ret (Ok t) -> code !! vma = Some (ft_asm_body t ++ [RetI]) ->
  at_stub slot st -> mask_at ptr c esz (m_mem st) ->
  exists st', call_fn code native ra (S f) vma st = Ret st' /\
    same_outside lo (m_regs st Rsp) (apply_mask ptr size c slot (m_mem st)) (m_mem st') /\
    stub_effect slot (mask_bits ptr (m_mem st) (applied_width size c))
      (Z.min (read_pos ptr (m_mem st) + Z.of_nat c) (8 * mask_len ptr (m_mem st))) st st'.
Proof.
  intros Hg Hcode [Hsite Hok Hroom Htop Hret] Hm.
  destruct (stub_callee ra lo hi Hlo Hhi code native mce ptr esz slot _ spill_reg c size f vma t Hsite Hg Hcode) as [_ Hcall].
  destruct (Hcall st) as (st' & E & Hregs & Hmem & _ & Hw); [by split|done..|].
  destruct (gen_mutation_Ok mce ptr t Hg) as (_ & c' & size' & _ & _ & _ & _ & Hc' & Hc64 & Hsz' & _).
  pose proof Hsite as [_ _ _ Hc Hsz _ Hpl]. rewrite Hc in Hc'. injection Hc' as <-.
  destruct (chunk_reg_size_spec c size Hc64 Hsz) as (_ & Hcs & _).
  exists st'. split; [done|]. split; [done|].
  assert (Hfield : forall a n, ptr <= a -> a + Z.of_nat n <= ptr + esz -> load (m_mem st') a n = load (apply_mask ptr size c slot (m_mem st)) a n).
  { intros a n Ha1 Ha2. unfold load. f_equal. apply read_mem_ext. intros i Hi. apply Hmem. destruct Hpl. lia. }
  split; [| |done| |done].
  - erewrite <- apply_mask_value by (done || lia). unfold load. f_equal. apply read_mem_ext. intros i Hi. apply Hmem.
    destruct Hpl. lia.
  - unfold read_pos at 1. rewrite Hfield by (destruct Hpl; lia). fold (read_pos ptr (apply_mask ptr size c slot (m_mem st))).
    by destruct (apply_mask_fields ptr size c lo hi slot esz Hpl (m_mem st) Hm Hc64) as [-> _].
  - intros x Hx1 Hx2 Hx3. rewrite Hmem by done. erewrite apply_mask_at by done. by rewrite !decide_False by done.
Qed.

(** C6: the generated stub applies a mask chunk by chunk.  Take the code [gen_mutation] emits
    for an entry, placed at [vma], and any number of calls of it, with the value at a
    different address each time and the program free to change registers and any memory but
    the entry between two calls.  The call [n] returns; it xors the value with the bits of
    the mask from bit [min(n * chunk_size_bits, 8 * msk_len)] on, as many as the width it
    applies ([applied_width]: the chunk size, or the whole register for whole bytes), and
    moves the read position to the start of the next chunk: the chunks are consecutive and
    none is skipped.  General purpose registers and all other memory but the free part of
    the stack are kept.
    Once the mask is used up, the value is left as it is, provided the overflow area after
    the mask is zero. *)
Theorem mask_applied_in_order f vma t (slots : nat -> Z) (st : nat -> Machine W) n :
  gen_mutation mce ptr = Ret (Ok t) -> code !! vma = Some (ft_asm_body t ++ [RetI]) ->
  (forall i, at_stub (slots i) (st i)) ->
  mask_at ptr c esz (m_mem (st 0%nat)) -> read_pos ptr (m_mem (st 0%nat)) = 0 ->
  (forall i st', call_fn code native ra (S f) vma (st i) = Ret st' ->
     forall x, ptr <= x < ptr + esz -> m_mem (st (S i)) x = m_mem st' x) ->
  let m0 := m_mem (st 0%nat) in
  let start i := Z.min (Z.of_nat i * Z.of_nat c) (8 * mask_len ptr m0) in
  exists st', call_fn code native ra (S f) vma (st n) = Ret st' /\
    stub_effect (slots n) (mask_from ptr m0 (start n) (applied_width size c)) (start (S n)) (st n) st' /\
    ((forall x, ptr + msk_start_offset + mask_len ptr m0 <= x < ptr + msk_start_offset + mask_len ptr m0 + 8 -> m0 x = 0) ->
     8 * mask_len ptr m0 <= Z.of_nat n * Z.of_nat c ->
     load (m_mem st') (slots n) size = load (m_mem (st n)) (slots n) size).
Proof.
  intros Hg Hcode Hat Hm0 Hp0 Hbetween m0 start.
  destruct (gen_mutation_Ok mce ptr t Hg) as (_ & c' & _ & _ & _ & _ & _ & Hc' & Hc64 & _).
  assert (c' = c) as -> by (destruct (as_site _ _ (Hat 0%nat)); congruence). clear Hc'.
  destruct (masks_in_order ptr esz lo hi size c Hc64 slots (fun i => m_mem (st i)) n) as (Hmn & Hpn & Hln & Hxn);
    [by intros i; apply (as_site _ _ (Hat i))|done|done| |].
  { intros i Hmi x Hx. destruct (stub_runs f vma t (slots i) (st i) Hg Hcode (Hat i) Hmi) as (st' & E & Hm & _).
    rewrite (Hbetween i st' E x Hx). apply Hm. destruct (Hat i) as [[_ _ _ _ _ _ []] _ _ ? _]. lia. }
  destruct (stub_runs f vma t (slots n) (st n) Hg Hcode (Hat n) Hmn) as (st' & E & _ & Heff).
  erewrite (mask_bits_from ptr esz) with (m := m0) (c := c) in Heff by done. rewrite Hpn, Hln in Heff.
  replace (Z.min (_ + _) _) with (start (S n)) in Heff by (unfold start, m0; destruct Hm0; lia).
  exists st'. split; [done|]. split; [exact Heff|]. intros Hz Hge. rewrite (se_value _ _ _ _ _ Heff).
  rewrite Z.min_r by (unfold m0 in *; lia). unfold m0 in *.
  rewrite mask_used_up with (esz := esz); [apply Z.lxor_0_r|try done; apply (as_mem _ _ (Hat 0%nat))..].
Qed.
End executions.

(** ** Chunk sizes *)

Section chunk_sizes.
Context `{L : EntryLayout} `{!StackMapRecords} `{!StubLayout}.

(** Generation, up to the parts that depend on the chunk size. *)
Lemma gen_mutation_eq mce ptr spill_reg c sc :
  (0 < Entry_msk_len mce)%nat ->
  loc_type (Entry_spill_slot mce) = LocationType_Register \/ loc_type (Entry_spill_slot mce) = LocationType_Direct ->
  DwarfReg_try_from (dwarf_regnum (Entry_spill_slot mce)) = Some spill_reg -> spill_reg <> Rsp ->
  Entry_chunk_size_bits mce = Ret c -> slot_offset_code (Entry_spill_slot mce) = Ret sc ->
  gen_mutation mce ptr =
    if (8 * 8 <? c)%nat
    then Ret (Err (UnsupportedMutation "Chunks with size > 8 byte are currently not supported"))
    else size ← chunk_reg_size c;
         cc ← apply_chunk_code (Z.of_nat size) c;
         mret (Ok (mk_template (mutation_code spill_reg ptr (Z.of_nat size) c sc cc) true)).
Proof.
  intros Hlen Hloc Hreg Hne Hc Hsc. unfold gen_mutation, gen_mutation_reg_and_direct.
  destruct (Nat.ltb_spec 0 (Entry_msk_len mce)); [|lia]. cbn [assert_that mbind outcome_bind].
  rewrite bool_decide_eq_true_2 by done. rewrite Hreg. cbn [unwrap mbind outcome_bind].
  rewrite bool_decide_eq_true_2 by done. cbn [assert_that mbind outcome_bind]. rewrite Hc. cbn [mbind outcome_bind].
  destruct (8 * 8 <? c)%nat; [done|]. destruct (chunk_reg_size c); [|done]. cbn [mbind outcome_bind]. by rewrite Hsc.
Qed.

(** Which chunk sizes the JIT supports.  For a site it can address, [gen_mutation] emits a
    stub for chunks of up to 32 bits and of 40, 48, 56 and 64 bits, refuses chunks of
    more than 64 bits with an error, and panics for every other size: the mask of the
    chunk is computed in 32 bits. *)
Theorem supported_chunk_sizes mce ptr spill_reg c sc :
  (0 < Entry_msk_len mce)%nat ->
  loc_type (Entry_spill_slot mce) = LocationType_Register \/ loc_type (Entry_spill_slot mce) = LocationType_Direct ->
  DwarfReg_try_from (dwarf_regnum (Entry_spill_slot mce)) = Some spill_reg -> spill_reg <> Rsp ->
  Entry_chunk_size_bits mce = Ret c -> slot_offset_code (Entry_spill_slot mce) = Ret sc ->
  ((64 < c)%nat -> exists msg, gen_mutation mce ptr = Ret (Err (UnsupportedMutation msg))) /\
  ((c <= 64)%nat -> ((c <= 32)%nat \/ (c mod 8 = 0)%nat) -> exists t, gen_mutation mce ptr = Ret (Ok t)) /\
  ((32 < c <= 64)%nat -> (c mod 8 <> 0)%nat -> gen_mutation mce ptr = Panic).
Proof.
  intros Hlen Hloc Hreg Hne Hc Hsc. erewrite gen_mutation_eq by done.
  set (f := fun c => size ← chunk_reg_size c; apply_chunk_code (Z.of_nat size) c).
  assert (Hf : forallb (fun c => match f c with Ret _ => (c <=? 32) || (c mod 8 =? 0) | Panic => negb ((c <=? 32) || (c mod 8 =? 0)) end)%nat
                 (seq 0 65) = true) by (vm_compute; reflexivity).
  rewrite forallb_forall in Hf. destruct (Nat.ltb_spec (8 * 8) c).
  - split; [by eexists|]. split; intros; lia.
  - specialize (Hf c ltac:(apply in_seq; lia)). split; [lia|].
    assert (E : (size ← chunk_reg_size c; cc ← apply_chunk_code (Z.of_nat size) c;
                 mret (Ok (mk_template (mutation_code spill_reg ptr (Z.of_nat size) c sc cc) true) : result JitError _))
                = match f c with Ret cc => default Panic ((fun size => Ret (Ok (mk_template (mutation_code spill_reg ptr (Z.of_nat size) c sc cc) true)))
                    <$> match chunk_reg_size c with Ret s => Some s | Panic => None end) | Panic => Panic end).
    { unfold f. destruct (chunk_reg_size c) as [s|]; [|done]. cbn. by destruct (apply_chunk_code _ c). }
    rewrite E. clear E. destruct (f c) as [cc|] eqn:Ef.
    + apply orb_true_iff in Hf as [Hf%Nat.leb_le|Hf%Nat.eqb_eq]; (split; [|lia]); intros _ _;
        unfold f in Ef; destruct (chunk_reg_size c); try done; by eexists.
    + apply negb_true_iff, orb_false_iff in Hf as [Hf1%Nat.leb_gt Hf2%Nat.eqb_neq]. split; [intros _ [?|?]; lia|done].
Qed.

(** Whole-byte chunks are applied with the size of a register: for 24 bits the stub xors
    four bytes, for 40, 48 and 56 bits eight.  The bytes after the value are mutated
    as well, with the bytes of the mask that belong to the following chunks. *)
Theorem stub_writes_past_value ptr esz lo hi slot c size m j :
  (c <= 64)%nat -> (c mod 8 = 0)%nat -> chunk_reg_size c = Ret size ->
  placed ptr size lo hi slot esz -> mask_at ptr c esz m -> mem_ok m -> (j < size)%nat ->
  apply_mask ptr size c slot m (slot + Z.of_nat j)
    = Z.lxor (m (slot + Z.of_nat j)) (m (ptr + msk_start_offset + read_pos ptr m / 8 + Z.of_nat j)) /\
  (c ∈ [24; 40; 48; 56]%nat -> (c / 8 < size)%nat).
Proof.
  intros Hc64 Hc8 Hsz Hpl Hm Hok Hj. split.
  - destruct (chunk_reg_size_spec c size Hc64 Hsz) as (Hs & _). pose proof Hpl as [].
    assert (Hs8 : (size <= 8)%nat) by (clear -Hs; set_unfold in Hs; lia).
    erewrite apply_mask_at by done. destruct Hm as [Hlen Hesz Hpos Hal]. specialize (Hal Hc8).
    rewrite decide_False by lia. rewrite decide_True by lia.
    assert (Hbits : mask_bits ptr m (applied_width size c) = load m (ptr + msk_start_offset + read_pos ptr m / 8) size).
    { unfold mask_bits, applied_width. rewrite Hc8. cbn [Nat.eqb].
      replace (read_pos ptr m) with (8 * (read_pos ptr m / 8) + 0) at 1 by dlia.
      rewrite <- (load_inside m _ _ _ size) by (done || dlia || lia). rewrite Z.shiftr_0_r, Z.land_ones by lia.
      apply Z.mod_small, load_fits, Hok. }
    rewrite Hbits. unfold store, load. rewrite of_le_lxor by (by apply read_mem_ok || by rewrite !read_mem_length).
    set (bs := zip_with _ _ _). assert (Hl : length bs = size) by (unfold bs; rewrite length_zip_with, !read_mem_length; lia).
    rewrite <- Hl at 1. rewrite to_le_of_le.
    + apply write_mem_in. unfold bs. apply lookup_zip_with_Some. eexists _, _. rewrite !read_mem_lookup by done. done.
    + apply Forall_lookup_2. intros i b (x & y & -> & Hx & Hy)%lookup_zip_with_Some.
      apply fits_lxor; [done|..]; (eapply Forall_lookup_1; [apply read_mem_ok, Hok|done]).
  - set_unfold. intros [->|[->|[->|[->|[]]]]]; vm_compute in Hsz; injection Hsz as <-; vm_compute; lia.
Qed.
End chunk_sizes.

(** ** Witnesses *)

#[local] Existing Instance demo_stackmap.
#[local] Existing Instance demo_layout.
#[local] Existing Instance demo_records.

(** Values of 64 bits relative to [rbp]; the mask has eight bytes of 255. *)
#[local] Instance demo_stub_layout : StubLayout := {|
  dwarf_regnum := fun _ => 6%nat;
  read_pos_bits_offset := 48;
  offsetof_msk_len := 56;
|}.

Definition demo_memory : memory := fun a =>
  if a =? 65592 then 8 else if (65600 <=? a) && (a <? 65608) then 255 else if a =? 262144 then 3 else 0.
Lemma demo_memory_ok : mem_ok demo_memory.
Proof. intros a. unfold demo_memory. repeat case_match; done. Qed.

Lemma demo_mask_at : mask_at 65536 64 256 demo_memory.
Proof. split; by vm_compute. Qed.

Lemma demo_placed : placed 65536 8 131072 196608 262144 256.
Proof. split; unfold msk_start_offset; cbn [read_pos_bits_offset offsetof_msk_len demo_stub_layout meta_size demo_layout]; lia. Qed.

(** A traced entry with eight bytes of mask, its stub at 4096, and calls of the stub with
    the return address 99 on the stack; nothing else happens between two calls. *)
Definition demo_masked : MutationCacheEntry :=
  mk_entry (mk_metadata 7 Load_ 4096 1 false 64 0 8) (replicate 8 255 ++ replicate 16 0).
Definition demo_stub : FunctionTemplate :=
  mk_template (match gen_mutation demo_masked 65536 with Ret (Ok t) => ft_asm_body t | _ => [] end) true.
Definition demo_stub_code : gmap Z (list instr) := {[ 4096 := ft_asm_body demo_stub ++ [RetI] ]}.
Definition demo_no_native (target : Z) (st : Machine unit) : outcome (Machine unit) := Panic.
Definition demo_call_regs : registers := fun r => if decide (r = Rsp) then 180000 else if decide (r = Rbp) then 262144 else 17.

(** The machine at the call [n]: memory as the previous call left it. *)
Fixpoint demo_calls (n : nat) : Machine unit :=
  match n with
  | O => mk_machine demo_call_regs (store demo_memory 180000 8 99) None tt
  | S n => match call_fn demo_stub_code demo_no_native 99 1 4096 (demo_calls n) with
           | Ret st => mk_machine demo_call_regs (m_mem st) None tt
           | Panic => demo_calls n
           end
  end.

Lemma demo_site_at : site_ok 131072 196608 demo_masked 65536 256 262144 demo_call_regs Rbp 64 8.
Proof.
  split; [|reflexivity|apply (list_elem_of_lookup_2 _ 6); reflexivity|reflexivity|reflexivity|reflexivity|apply demo_placed].
  intros r. unfold demo_call_regs. repeat case_decide; done.
Qed.

Lemma demo_first_mask : mask_at 65536 64 256 (m_mem (demo_calls 0)).
Proof. split; by vm_compute. Qed.

Lemma demo_calls_regs n : m_regs (demo_calls n) = demo_call_regs.
Proof. induction n as [|n IH]; [reflexivity|]. cbn [demo_calls]. destruct (call_fn _ _ _ _ _ _); [reflexivity|exact IH]. Qed.

(** Every call of the sequence finds the machine as the stub needs it. *)
Lemma demo_at_stub n : at_stub 99 131072 196608 demo_masked 65536 256 Rbp 64 8 262144 (demo_calls n) /\
  mask_at 65536 64 256 (m_mem (demo_calls n)).
Proof.
  induction n as [|n [IH IHm]].
  - split; [|apply demo_first_mask]. split; [apply demo_site_at|apply store_ok, demo_memory_ok|by vm_compute..].
  - assert (Hhi : 196608 < 2 ^ 64) by lia. assert (Hg : gen_mutation demo_masked 65536 = Ret (Ok demo_stub)) by (by vm_compute).
    assert (Hcode : demo_stub_code !! 4096 = Some (ft_asm_body demo_stub ++ [RetI])) by apply lookup_singleton_eq. pose proof IH as [Hsite Hok Hroom Htop Hret].
    destruct (stub_callee 99 131072 196608 ltac:(lia) Hhi demo_stub_code demo_no_native demo_masked 65536 256 262144
      (m_regs (demo_calls n)) Rbp 64 8 0 4096 demo_stub Hsite Hg Hcode) as [Hoff Hcall].
    destruct (Hcall (demo_calls n)) as (st' & E & _ & Hm & Hok' & _); [by split|done..|].
    rewrite demo_calls_regs in *. change (demo_call_regs Rsp) with 180000 in *. cbn [demo_calls]. rewrite E. split.
    + split; cbn [m_regs m_mem]; [apply demo_site_at|exact Hok'|by vm_compute|by vm_compute|].
      change (demo_call_regs Rsp) with 180000. rewrite <- Hret. unfold load. f_equal. apply read_mem_ext. intros i Hi. rewrite Hm by lia.
      apply (os_frame _ _ _ _ Hoff); [done|lia].
    + cbn [m_mem]. eapply mask_at_ext; [apply demo_placed| |exact (os_inv _ _ _ _ Hoff _ IHm)]. intros x Hx. apply Hm. lia.
Qed.

(** The second call finds the mask used up. *)
Lemma mask_applied_in_order_witness :
  exists st1 st2, call_fn demo_stub_code demo_no_native 99 1 4096 (demo_calls 0) = Ret st1 /\
    call_fn demo_stub_code demo_no_native 99 1 4096 (demo_calls 1) = Ret st2 /\
    load (m_mem st1) 262144 8 = 2 ^ 64 - 4 /\ load (m_mem st2) 262144 8 = load (m_mem (demo_calls 1)) 262144 8.
Proof.
  assert (H := fun n => mask_applied_in_order 99 131072 196608 ltac:(lia) ltac:(lia) demo_stub_code demo_no_native demo_masked 65536 256 Rbp 64 8
    0 4096 demo_stub (fun _ => 262144) demo_calls n ltac:(by vm_compute) ltac:(by vm_compute) (fun i => proj1 (demo_at_stub i))
    demo_first_mask ltac:(by vm_compute)).
  assert (Hb : forall i st', call_fn demo_stub_code demo_no_native 99 1 4096 (demo_calls i) = Ret st' ->
     forall x, 65536 <= x < 65536 + 256 -> m_mem (demo_calls (S i)) x = m_mem st' x).
  { intros i st' E x _. cbn [demo_calls]. by rewrite E. }
  destruct (H 0%nat Hb) as (st1 & E1 & [Hv1 _ _ _ _] & _), (H 1%nat Hb) as (st2 & E2 & _ & Hz2).
  exists st1, st2. split; [done|]. split; [done|]. split; [rewrite Hv1; by vm_compute|]. apply Hz2; [|by vm_compute].
  change (mask_len 65536 _) with 8. change msk_start_offset with 64. intros x Hx. cbn [demo_calls m_mem].
  unfold store. rewrite write_mem_out by (rewrite to_le_length; lia). unfold demo_memory.
  destruct (Z.eqb_spec x 65592); [lia|]. destruct (Z.leb_spec 65600 x); [|lia].
  destruct (Z.ltb_spec x 65608); [lia|]. destruct (Z.eqb_spec x 262144); [lia|done].
Defined.

(** A value of 33 bits. *)
Definition demo_odd_entry : MutationCacheEntry :=
  mk_entry (mk_metadata 7 Load_ 4096 0 false 33 0 8) (replicate 24 0).
