(* ===== verification/SourceSites.v ===== *)
(** * Patch points of the generator

    How [scheduler/src/source.rs] collects the mutation sites of the generator: it reads
    the stack maps of all mapped executables, filters the sites, and keeps the result
    for later ([get_patchpoints]).  The file system, the ELF and stack map parsers and
    the memory of the process are parameters, as is the shuffling of [rand]. *)

From S2P Require Import Prelude Bytes MutationCacheEntry Trace MutationSite Dwarf X86 Jit JitPatch.

Section sites.
Context `{L : EntryLayout} `{!StackMapRecords} `{!StubLayout}.
Implicit Types patch_points : list MutationSite.

(** The options of the configuration that concern the patch points. *)
Record SourceConfig := mk_source_config {
  sc_allowed_patch_points : option (list Z);
  sc_max_patch_points : option Z;
  sc_blocked_patchpoint_instructions : option (list LLVMInstruction);
}.

(** ** Filters *)

Abbreviation size_byte := MutationSite_target_value_size_byte.

(** The sites of each address, in the order they appear. *)
Fixpoint group_by_vma patch_points (m : gmap Z (list MutationSite)) : outcome (gmap Z (list MutationSite)) :=
  match patch_points with
  | [] => mret m
  | pp :: patch_points =>
      vma ← MutationSite_vma pp;
      group_by_vma patch_points (<[vma := default [] (m !! vma) ++ [pp]]> m)
  end.

(** [sort_by] on the size *)
Definition size_le (a b : MutationSite) : Prop := (size_byte a <= size_byte b)%nat.
#[export] Instance size_le_dec a b : Decision (size_le a b).
Proof. unfold size_le. apply _. Defined.

(** Removes every site with the id and the size of [p]. *)
Definition retain_others patch_points (p : MutationSite) : list MutationSite :=
  List.filter (fun other => negb (ms_id other =? ms_id p) || negb (size_byte other =? size_byte p)%nat) patch_points.

Definition remove_group patch_points (duplicated_patchpoints : list MutationSite) : list MutationSite :=
  foldl retain_others patch_points (drop 1 (reverse (merge_sort size_le duplicated_patchpoints))).

Definition remove_duplicated_vmas patch_points : outcome (list MutationSite) :=
  m ← group_by_vma patch_points ∅;
  let dups := filter (fun p : Z * list MutationSite => (1 < length p.2)%nat) m in
  _ ← assert_that ((length patch_points <? 50)%nat || (size dups <? length patch_points / 2)%nat);
  mret (foldl remove_group patch_points (map_to_list dups).*2).

Definition remove_unsupported_loc_size patch_points : list MutationSite :=
  List.filter (fun e => (size_byte e <=? 8)%nat) patch_points.

Definition remove_rsp_spill_slots patch_points : list MutationSite :=
  List.filter (fun e => negb (dwarf_regnum (ms_spill_slot e) =? DwarfReg_u16 Rsp)%nat) patch_points.

(** [retain] with the counter, an [i64] *)
Fixpoint retain_limit (max_patch_points : Z) patch_points : outcome (list MutationSite) :=
  match patch_points with
  | [] => mret []
  | pp :: patch_points =>
      let is_positive := 0 <? max_patch_points in
      _ ← assert_that (- 2 ^ 63 <? max_patch_points);
      rest ← retain_limit (max_patch_points - 1) patch_points;
      mret (if is_positive then pp :: rest else rest)
  end.

Definition limit_max_number (shuffle : list MutationSite -> list MutationSite) (c : SourceConfig) patch_points
    : outcome (list MutationSite) :=
  match sc_max_patch_points c with
  | Some max_patch_points => retain_limit max_patch_points (shuffle patch_points)
  | None => mret patch_points
  end.

Definition remove_blocklisted_instructions (c : SourceConfig) patch_points : list MutationSite :=
  match sc_blocked_patchpoint_instructions c with
  | Some blocklist => List.filter (fun e => negb (bool_decide (ms_llvm_instruction e ∈ blocklist))) patch_points
  | None => patch_points
  end.

Definition retain_whitelisted (c : SourceConfig) patch_points : list MutationSite :=
  match sc_allowed_patch_points c with
  | Some allowed => List.filter (fun pp => bool_decide (ms_id pp ∈ allowed)) patch_points
  | None => patch_points
  end.

(** [read_mem] reads from the process; a failed read is [unreachable!()]. *)
Fixpoint check_alignment (read_mem : Z -> nat -> option (list Z)) patch_points : outcome (list MutationSite) :=
  match patch_points with
  | [] => mret []
  | p :: patch_points =>
      vma ← MutationSite_vma p;
      content ← unwrap (read_mem vma (length NOP_PATTERN));
      rest ← check_alignment read_mem patch_points;
      mret (if bool_decide (content = NOP_PATTERN) then p :: rest else rest)
  end.

(** ** Collecting the sites *)

(** What the file system and the parsers know about a file. *)
Record FileInfo := mk_file_info {
  fi_exists : bool;
  fi_has_stackmap : bool;
  (** the type of the ELF header, [None] when it cannot be parsed *)
  fi_elf : option ElfType;
  fi_stack_maps : option (list (list StkSizeRecord * list StkMapRecord));
}.

Fixpoint sites_of_maps (mapping : MapRange) (e_type : ElfType) (st : SiteIds)
    (maps : list (list StkSizeRecord * list StkMapRecord)) : outcome (list MutationSite * SiteIds) :=
  match maps with
  | [] => mret ([], st)
  | stack_map :: maps =>
      tmp ← from_stackmap stack_map.1 stack_map.2 mapping e_type st;
      rest ← sites_of_maps mapping e_type tmp.2 maps;
      mret (tmp.1 ++ rest.1, rest.2)
  end.

Fixpoint parse_mappings (file : string -> FileInfo) (processed_paths : gset string) (st : SiteIds)
    (mappings : list MapRange) : outcome (list MutationSite * SiteIds) :=
  match mappings with
  | [] => mret ([], st)
  | mapping :: mappings =>
      path ← unwrap (mr_pathname mapping);
      let f := file path in
      if negb (fi_exists f) then parse_mappings file processed_paths st mappings
      else if fi_has_stackmap f
      then
        if bool_decide (path ∈ processed_paths) then parse_mappings file processed_paths st mappings
        else
          let processed_paths := {[ path ]} ∪ processed_paths in
          e_type ← unwrap (fi_elf f);
          stack_maps ← unwrap (fi_stack_maps f);
          pps ← sites_of_maps mapping e_type st stack_maps;
          rest ← parse_mappings file processed_paths pps.2 mappings;
          mret (pps.1 ++ rest.1, rest.2)
      else parse_mappings file processed_paths st mappings
  end.

Definition parse_file_backed_mappings (file : string -> FileInfo) (st : SiteIds) (mappings : list MapRange)
    : outcome (list MutationSite * SiteIds) :=
  parse_mappings file ∅ st mappings.

(** The executable mappings with a file. *)
Fixpoint exec_mappings (mappings : list MapRange) : outcome (list MapRange) :=
  match mappings with
  | [] => mret []
  | e :: mappings =>
      x ← MapRange_is_exec e;
      rest ← exec_mappings mappings;
      mret (if x && bool_decide (is_Some (mr_pathname e)) then e :: rest else rest)
  end.

(** The filters, in their order. *)
Definition filter_patch_points (shuffle : list MutationSite -> list MutationSite)
    (read_mem : Z -> nat -> option (list Z)) (c : SourceConfig) patch_points : outcome (list MutationSite) :=
  let patch_points := retain_whitelisted c patch_points in
  patch_points ← limit_max_number shuffle c patch_points;
  let patch_points := remove_blocklisted_instructions c patch_points in
  patch_points ← remove_duplicated_vmas patch_points;
  let patch_points := remove_unsupported_loc_size patch_points in
  let patch_points := remove_rsp_spill_slots patch_points in
  check_alignment read_mem patch_points.

(** [PATCH_POINT_CACHE]: the sites by the path of the binary.  The result comes with the
    cache and the site ids. *)
Definition get_patchpoints (shuffle : list MutationSite -> list MutationSite) (read_mem : Z -> nat -> option (list Z))
    (file : string -> FileInfo) (c : SourceConfig) (path : string) (mappings : list MapRange)
    (cache : gmap string (list MutationSite)) (st : SiteIds)
    : gmap string (list MutationSite) * outcome (list MutationSite * SiteIds) :=
  match cache !! path with
  | Some value => (cache, Ret (value, st))
  | None =>
      let found :=
        mappings ← exec_mappings mappings;
        parsed ← parse_file_backed_mappings file st mappings;
        patch_points ← filter_patch_points shuffle read_mem c parsed.1;
        _ ← sanity_check_patch_points patch_points;
        mret (patch_points, parsed.2) in
      match found with
      | Panic => (cache, Panic)
      | Ret r =>
          (<[path := r.1]> cache,
           _ ← assert_that (length r.1 <? MAX_PATCHPOINT_CNT)%nat; mret r)
      end
  end.

Definition resolve_patch_point_ids (pps : list MutationSite) (ids : list Z) : list MutationSite :=
  List.filter (fun e => bool_decide (ms_id e ∈ ids)) pps.

(** ** Duplicated addresses *)

(** Two sites the removal treats as the same. *)
Definition same_site (o p : MutationSite) : bool := (ms_id o =? ms_id p) && (size_byte o =? size_byte p)%nat.

(** The sites of [p]'s address that are at least as wide as [p], itself included. *)
Definition rivals patch_points (p : MutationSite) : list MutationSite :=
  List.filter (fun q => (site_vma q =? site_vma p) && (size_byte p <=? size_byte q)%nat) patch_points.

(** The sites of an address. *)
Definition at_vma patch_points (v : Z) : list MutationSite := List.filter (fun q => site_vma q =? v) patch_points.

(** The addresses with more than one site. *)
Definition dup_vmas patch_points : gset Z :=
  filter (fun v => (1 < length (at_vma patch_points v))%nat) (list_to_set (site_vma <$> patch_points)).

Lemma group_by_vma_Ret pps m :
  Forall (fun s => site_vma s < 2 ^ 64) pps ->
  exists m', group_by_vma pps m = Ret m' /\
    forall v, m' !! v = if decide (at_vma pps v = []) then m !! v else Some (default [] (m !! v) ++ at_vma pps v).
Proof.
  intros Hv. revert m. induction Hv as [|p pps Hp _ IH]; intros m.
  { exists m. split; [done|]. intros v. by rewrite decide_True. }
  cbn [group_by_vma]. unfold MutationSite_vma. rewrite checked_add_lt by done. cbn [mbind outcome_bind].
  destruct (IH (<[site_vma p := default [] (m !! site_vma p) ++ [p]]> m)) as (m' & E & Hm). exists m'. split; [exact E|].
  intros v. rewrite Hm. cbn [at_vma List.filter]. destruct (Z.eqb_spec (site_vma p) v) as [<-|Hne].
  - rewrite lookup_insert_eq, (decide_False (P := p :: _ = [])) by done. cbn [default].
    change (List.filter (fun q => site_vma q =? site_vma p) pps) with (at_vma pps (site_vma p)).
    case_decide as Hnil; [by rewrite Hnil|]. cbn. by rewrite <- app_assoc.
  - by rewrite lookup_insert_ne.
Qed.

Lemma foldl_retain_others pps ps :
  foldl retain_others pps ps = List.filter (fun o => forallb (fun p => negb (same_site o p)) ps) pps.
Proof.
  revert pps. induction ps as [|p ps IH]; intros pps; cbn [foldl]; [by rewrite List_filter_true|].
  rewrite IH. unfold retain_others. rewrite List_filter_filter. apply List.filter_ext. intros o. cbn [forallb].
  unfold same_site at 2. by rewrite negb_andb.
Qed.

(** All of a group but the last one after sorting. *)
Definition losers (g : list MutationSite) : list MutationSite := drop 1 (reverse (merge_sort size_le g)).

Lemma foldl_remove_group pps gs :
  foldl remove_group pps gs = List.filter (fun o => forallb (fun g => forallb (fun p => negb (same_site o p)) (losers g)) gs) pps.
Proof.
  revert pps. induction gs as [|g gs IH]; intros pps; cbn [foldl]; [by rewrite List_filter_true|].
  rewrite IH. unfold remove_group. rewrite foldl_retain_others, List_filter_filter. done.
Qed.

#[local] Instance size_le_total : Total size_le.
Proof. intros a b. unfold size_le. lia. Qed.
#[local] Instance size_le_trans : Transitive size_le.
Proof. intros a b c. unfold size_le. lia. Qed.

Lemma filter_count_perm (f : MutationSite -> bool) l l' : l ≡ₚ l' -> length (List.filter f l) = length (List.filter f l').
Proof. induction 1; cbn; repeat case_match; cbn; congruence. Qed.

(** A site loses against another one of its address exactly when it is not the only
    widest one. *)
Lemma losers_spec g o :
  o ∈ g -> (forall p, p ∈ losers g -> size_byte p <> size_byte o) <->
  length (List.filter (fun q => size_byte o <=? size_byte q)%nat g) = 1%nat.
Proof.
  intros Ho. unfold losers. pose proof (merge_sort_Permutation size_le g) as Hp.
  pose proof (StronglySorted_merge_sort size_le g) as Hs.
  rewrite <- (filter_count_perm _ _ _ Hp). rewrite <- Hp in Ho. set (s := merge_sort size_le g) in *. clearbody s.
  destruct s as [|l s0 _] using rev_ind; [by apply elem_of_nil in Ho|].
  rewrite reverse_snoc. change (drop 1 (l :: reverse s0)) with (reverse s0). rewrite List.filter_app, length_app.
  assert (Hle : forall p, p ∈ s0 -> size_le p l).
  { intros p Hin. apply (StronglySorted_app_1_elem_of size_le s0 [l]) with (x1 := p) (x2 := l) in Hs; [done|done|by left]. }
  unfold size_le in Hle. split.
  - intros Hno. assert (o = l) as ->.
    { apply elem_of_app in Ho as [Ho| ->%list_elem_of_singleton]; [|done]. by destruct (Hno o); [apply elem_of_reverse|]. }
    cbn [List.filter]. rewrite Nat.leb_refl. cbn [length].
    enough (List.filter (fun q => size_byte l <=? size_byte q)%nat s0 = []) as -> by done.
    destruct (List.filter _ s0) as [|q r] eqn:E; [done|]. exfalso.
    assert (Hq : In q (List.filter (fun q => size_byte l <=? size_byte q)%nat s0)) by (rewrite E; by left).
    apply filter_In in Hq as [Hq Hql%Nat.leb_le]. apply list_elem_of_In in Hq. specialize (Hle q Hq).
    apply (Hno q); [by apply elem_of_reverse|lia].
  - intros Hlen p Hin Heq. rewrite elem_of_reverse in Hin. specialize (Hle p Hin).
    assert (Hp1 : In p (List.filter (fun q => size_byte o <=? size_byte q)%nat s0)).
    { apply filter_In. rewrite <- list_elem_of_In. split; [done|]. apply Nat.leb_le. lia. }
    destruct (List.filter _ s0) as [|q r]; [done|]. cbn [List.filter] in Hlen.
    destruct (Nat.leb_spec (size_byte o) (size_byte l)); [cbn in Hlen; lia|lia].
Qed.

(** Ids name addresses: the ids come from address, inode and section. *)
Definition ids_name_vmas patch_points : Prop :=
  forall p q, p ∈ patch_points -> q ∈ patch_points -> ms_id p = ms_id q <-> site_vma p = site_vma q.

Lemma elem_of_at_vma pps v q : q ∈ at_vma pps v <-> q ∈ pps /\ site_vma q = v.
Proof. unfold at_vma. by rewrite list_elem_of_In, filter_In, <- list_elem_of_In, Z.eqb_eq. Qed.

Lemma losers_in g p : p ∈ losers g -> p ∈ g.
Proof.
  unfold losers. intros Hp. rewrite <- (merge_sort_Permutation size_le g), <- elem_of_reverse.
  rewrite <- (take_drop 1 (reverse (merge_sort size_le g))). apply elem_of_app. by right.
Qed.

(** The groups the removal works on are the addresses with several sites. *)
Lemma dups_lookup pps (m : gmap Z (list MutationSite)) :
  (forall v, m !! v = if decide (at_vma pps v = []) then None else Some (at_vma pps v)) ->
  forall v g, filter (fun p : Z * list MutationSite => (1 < length p.2)%nat) m !! v = Some g <->
    g = at_vma pps v /\ (1 < length (at_vma pps v))%nat.
Proof.
  intros Hm v g. rewrite map_lookup_filter_Some. cbn [snd]. rewrite Hm.
  case_decide as Hnil; [rewrite Hnil; cbn; split; [by intros [? _]|lia]|].
  split; [by intros [[= <-] ?]|by intros [-> ?]].
Qed.

Lemma dups_size pps (dups : gmap Z (list MutationSite)) :
  (forall v g, dups !! v = Some g <-> g = at_vma pps v /\ (1 < length (at_vma pps v))%nat) ->
  size dups = size (dup_vmas pps).
Proof.
  intros Hd. rewrite <- (size_dom dups (D := gset Z)). f_equal. apply set_eq. intros v. rewrite elem_of_dom. unfold dup_vmas.
  rewrite elem_of_filter, elem_of_list_to_set. split.
  - intros [g [-> Hg]%Hd]. split; [done|]. destruct (at_vma pps v) as [|q r] eqn:E; [cbn in Hg; lia|].
    assert (Hq : q ∈ at_vma pps v) by (rewrite E; by left). apply elem_of_at_vma in Hq as [Hq <-].
    by apply list_elem_of_fmap_2.
  - intros [Hg _]. exists (at_vma pps v). by apply Hd.
Qed.

(** A site survives all groups exactly when no loser of its own address has its size. *)
Lemma survives_groups pps (dups : gmap Z (list MutationSite)) o :
  ids_name_vmas pps -> o ∈ pps ->
  (forall v g, dups !! v = Some g <-> g = at_vma pps v /\ (1 < length (at_vma pps v))%nat) ->
  forallb (fun g => forallb (fun p => negb (same_site o p)) (losers g)) (map_to_list dups).*2 = true <->
  forall p, p ∈ losers (at_vma pps (site_vma o)) -> size_byte p <> size_byte o.
Proof.
  intros Hids Ho Hd. rewrite forallb_forall. split.
  - intros Hall p Hp Heq. assert (Hg : (1 < length (at_vma pps (site_vma o)))%nat).
    { destruct (at_vma pps (site_vma o)) as [|x [|y r]]; [by apply elem_of_nil in Hp|by apply elem_of_nil in Hp|cbn; lia]. }
    specialize (Hall (at_vma pps (site_vma o))).
    rewrite forallb_forall in Hall. assert (Hin : In (at_vma pps (site_vma o)) (map_to_list dups).*2).
    { apply list_elem_of_In, list_elem_of_fmap. exists (site_vma o, at_vma pps (site_vma o)). split; [done|].
      by apply elem_of_map_to_list, Hd. }
    specialize (Hall Hin p (proj1 (list_elem_of_In _ _) Hp)).
    apply losers_in, elem_of_at_vma in Hp as [Hpp Hpv]. unfold same_site in Hall.
    rewrite (proj2 (Z.eqb_eq _ _)), (proj2 (Nat.eqb_eq _ _)) in Hall; [done|done|]. by apply Hids.
  - intros Hno g Hg. apply list_elem_of_In, list_elem_of_fmap in Hg as ([v g'] & -> & Hg%elem_of_map_to_list). cbn [snd].
    apply Hd in Hg as [-> Hg]. apply forallb_forall. intros p Hp%list_elem_of_In. unfold same_site.
    destruct (Z.eqb_spec (ms_id o) (ms_id p)) as [Eid|]; [|done].
    pose proof (losers_in _ _ Hp) as [Hpp <-]%elem_of_at_vma. apply Hids in Eid; [|done|done]. rewrite <- Eid in Hp.
    destruct (Nat.eqb_spec (size_byte o) (size_byte p)) as [Es|]; [|done]. by destruct (Hno p Hp).
Qed.

Lemma remove_duplicates_eq pps :
  ids_name_vmas pps -> Forall (fun s => site_vma s < 2 ^ 64) pps ->
  (length pps < 50 \/ size (dup_vmas pps) < length pps / 2)%nat ->
  remove_duplicated_vmas pps = Ret (List.filter (fun p => length (rivals pps p) =? 1)%nat pps).
Proof.
  intros Hids Hv Hguard. unfold remove_duplicated_vmas.
  destruct (group_by_vma_Ret pps ∅ Hv) as (m & -> & Hm). cbn [mbind outcome_bind].
  pose proof (dups_lookup pps m Hm) as Hd. set (dups := filter _ m) in *. rewrite (dups_size pps dups Hd).
  rewrite (proj2 (orb_true_iff _ _)) by (rewrite !Nat.ltb_lt; done).
  cbn [assert_that mbind outcome_bind mret outcome_ret]. f_equal. rewrite foldl_remove_group.
  apply filter_ext_in. intros o Ho%list_elem_of_In. apply eq_iff_eq_true. rewrite Nat.eqb_eq.
  rewrite (survives_groups pps dups o Hids Ho Hd), losers_spec by (by apply elem_of_at_vma).
  unfold rivals, at_vma. by rewrite List_filter_filter.
Qed.

(** [remove_duplicated_vmas] keeps a site exactly when no other site of its address is as
    wide.  The comment says that the widest site of an address is kept; but when two
    sites of an address share the greatest size, ids and sizes do not tell them
    apart, and all of them are removed: the address is lost. *)
Theorem duplicates_removed pps :
  ids_name_vmas pps -> Forall (fun s => site_vma s < 2 ^ 64) pps ->
  (length pps < 50 \/ size (dup_vmas pps) < length pps / 2)%nat ->
  remove_duplicated_vmas pps = Ret (List.filter (fun p => length (rivals pps p) =? 1)%nat pps).
Proof.
  apply remove_duplicates_eq.
Qed.

(** ** The whole filter *)

Lemma rivals_filter_NoDup pps :
  NoDup (site_vma <$> List.filter (fun p => length (rivals pps p) =? 1)%nat pps).
Proof.
  assert (Hgen : forall pre l, pps = pre ++ l ->
            NoDup (site_vma <$> List.filter (fun p => length (rivals pps p) =? 1)%nat l)); [|by apply (Hgen [])].
  intros pre l. revert pre. induction l as [|p l IH]; intros pre Hpps; [apply NoDup_nil_2|]. cbn [List.filter].
  assert (Hl : pps = (pre ++ [p]) ++ l) by (by rewrite <- app_assoc).
  destruct (Nat.eqb_spec (length (rivals pps p)) 1) as [H1p|]; [|by apply (IH (pre ++ [p]))].
  cbn [fmap list_fmap]. apply NoDup_cons. split; [|by apply (IH (pre ++ [p]))].
  intros (q & Hv & Hq)%list_elem_of_fmap. apply list_elem_of_In, filter_In in Hq as [Hq H1q%Nat.eqb_eq].
  apply list_elem_of_In, list_elem_of_split in Hq as (l1 & l2 & ->).
  assert (Hcount : forall f : MutationSite -> bool,
            length (List.filter f pps) = (length (List.filter f pre) + (if f p then 1 else 0) +
              length (List.filter f l1) + (if f q then 1 else 0) + length (List.filter f l2))%nat).
  { intros f. rewrite Hpps, List.filter_app, length_app. cbn [List.filter].
    destruct (f p); cbn [length]; rewrite List.filter_app, length_app; cbn [List.filter]; destruct (f q); cbn [length]; lia. }
  unfold rivals in H1p, H1q. rewrite Hcount in H1p, H1q. rewrite Hv, !Z.eqb_refl in H1p, H1q.
  rewrite !Nat.leb_refl in H1p, H1q. cbn [andb] in H1p, H1q.
  destruct (Nat.leb_spec (size_byte p) (size_byte q)) as [Hle|Hlt].
  - lia.
  - rewrite (proj2 (Nat.leb_le (size_byte q) (size_byte p))) in H1q by lia. lia.
Qed.

Lemma retain_limit_Ret n pps :
  - 2 ^ 63 < n - Z.of_nat (length pps) -> retain_limit n pps = Ret (take (Z.to_nat n) pps).
Proof.
  revert n. induction pps as [|p pps IH]; intros n Hn; [by rewrite take_nil|]. cbn [length] in Hn. cbn [retain_limit].
  rewrite (proj2 (Z.ltb_lt (- 2 ^ 63) n)) by lia. cbn [assert_that mbind outcome_bind]. rewrite IH by lia. cbn.
  destruct (Z.ltb_spec 0 n); f_equal.
  - replace (Z.to_nat n) with (S (Z.to_nat (n - 1))) by lia. done.
  - replace (Z.to_nat (n - 1)) with 0%nat by lia. replace (Z.to_nat n) with 0%nat by lia. done.
Qed.

Definition has_nops (read_mem : Z -> nat -> option (list Z)) (p : MutationSite) : bool :=
  bool_decide (read_mem (site_vma p) (length NOP_PATTERN) = Some NOP_PATTERN).

Lemma check_alignment_Ret read_mem pps :
  Forall (fun s => site_vma s < 2 ^ 64) pps ->
  Forall (fun s => is_Some (read_mem (site_vma s) (length NOP_PATTERN))) pps ->
  check_alignment read_mem pps = Ret (List.filter (has_nops read_mem) pps).
Proof.
  induction 1 as [|p pps Hp _ IH]; intros Hr; [done|]. apply Forall_cons in Hr as [[b Hb] Hr]. cbn [check_alignment List.filter].
  unfold MutationSite_vma. rewrite checked_add_lt by done. cbn [mbind outcome_bind]. unfold has_nops at 1. rewrite Hb, (IH Hr).
  change (ms_base p + ms_address p) with (site_vma p). rewrite Hb. cbn [unwrap mbind outcome_bind mret outcome_ret]. f_equal.
  destruct (decide (b = NOP_PATTERN)) as [-> | Hne]; [by rewrite !bool_decide_true|]. by rewrite !bool_decide_false by congruence.
Qed.

(** The sites the user selected: allowed, at most [max_patch_points] of them in random
    order, none of a blocked kind. *)
Definition selected_sites (shuffle : list MutationSite -> list MutationSite) (c : SourceConfig) pps : list MutationSite :=
  remove_blocklisted_instructions c
    match sc_max_patch_points c with
    | Some n => take (Z.to_nat n) (shuffle (retain_whitelisted c pps))
    | None => retain_whitelisted c pps
    end.

Lemma selected_sites_subset shuffle c pps p :
  (forall l, shuffle l ≡ₚ l) -> p ∈ selected_sites shuffle c pps -> p ∈ pps.
Proof.
  intros Hsh. unfold selected_sites, remove_blocklisted_instructions. intros Hp.
  assert (Hp' : p ∈ match sc_max_patch_points c with
    | Some n => take (Z.to_nat n) (shuffle (retain_whitelisted c pps))
    | None => retain_whitelisted c pps end).
  { destruct (sc_blocked_patchpoint_instructions c); [|done]. by apply list_elem_of_In, filter_In in Hp as [Hp%list_elem_of_In _]. }
  assert (Hw : p ∈ retain_whitelisted c pps).
  { destruct (sc_max_patch_points c) as [n|]; [|done]. rewrite <- (Hsh (retain_whitelisted c pps)).
    rewrite <- (take_drop (Z.to_nat n)). apply elem_of_app. by left. }
  unfold retain_whitelisted in Hw. destruct (sc_allowed_patch_points c); [|done].
  by apply list_elem_of_In, filter_In in Hw as [Hw%list_elem_of_In _].
Qed.

Definition usable (read_mem : Z -> nat -> option (list Z)) pps (p : MutationSite) : bool :=
  (length (rivals pps p) =? 1)%nat && (size_byte p <=? 8)%nat &&
  negb (dwarf_regnum (ms_spill_slot p) =? DwarfReg_u16 Rsp)%nat && has_nops read_mem p.

(** The limit on the number of sites, which are then taken in the shuffled order. *)
Lemma limit_max_number_Ret shuffle c pps :
  (forall l, shuffle l ≡ₚ l) -> (forall n, sc_max_patch_points c = Some n -> - 2 ^ 63 < n - Z.of_nat (length pps)) ->
  limit_max_number shuffle c (retain_whitelisted c pps) =
    Ret match sc_max_patch_points c with
        | Some n => take (Z.to_nat n) (shuffle (retain_whitelisted c pps))
        | None => retain_whitelisted c pps
        end.
Proof.
  intros Hsh Hmax. unfold limit_max_number. destruct (sc_max_patch_points c) as [n|] eqn:En; [|done]. apply retain_limit_Ret.
  specialize (Hmax n eq_refl). rewrite Hsh. enough (length (retain_whitelisted c pps) <= length pps)%nat by lia.
  unfold retain_whitelisted. destruct (sc_allowed_patch_points c); [apply filter_length_le|done].
Qed.

(** The filters after each other. *)
Lemma usable_filters read_mem sel :
  List.filter (usable read_mem sel) sel = List.filter (has_nops read_mem)
    (remove_rsp_spill_slots (remove_unsupported_loc_size (List.filter (fun p => length (rivals sel p) =? 1)%nat sel))).
Proof.
  unfold remove_rsp_spill_slots, remove_unsupported_loc_size. rewrite !List_filter_filter. apply List.filter_ext.
  intros p. unfold usable. by rewrite !andb_assoc.
Qed.

(** C40: The filter of [get_patchpoints] returns, without a panic, exactly the selected sites
    that are usable: the only widest site of the address, at most eight bytes wide,
    not spilled relative to the stack pointer, and with the NOP sled at the
    address.  No two of them share an address, so each can be patched. *)
Theorem filtered_sites shuffle read_mem c pps :
  (forall l, shuffle l ≡ₚ l) -> ids_name_vmas pps -> Forall (fun s => site_vma s < 2 ^ 64) pps ->
  Forall (fun s => is_Some (read_mem (site_vma s) (length NOP_PATTERN))) pps ->
  (forall n, sc_max_patch_points c = Some n -> - 2 ^ 63 < n - Z.of_nat (length pps)) ->
  let sel := selected_sites shuffle c pps in
  (length sel < 50 \/ size (dup_vmas sel) < length sel / 2)%nat ->
  filter_patch_points shuffle read_mem c pps = Ret (List.filter (usable read_mem sel) sel) /\
  NoDup (site_vma <$> List.filter (usable read_mem sel) sel).
Proof.
  intros Hsh Hids Hv Hr Hmax sel Hguard. pose proof (selected_sites_subset shuffle c pps) as Hsub. fold sel in Hsub.
  unfold filter_patch_points. rewrite limit_max_number_Ret by done. cbn [mbind outcome_bind].
  fold (selected_sites shuffle c pps). fold sel.
  assert (Hvs : Forall (fun s => site_vma s < 2 ^ 64) sel).
  { apply Forall_forall. intros p Hp. by apply (proj1 (Forall_forall _ _) Hv), Hsub. }
  rewrite (remove_duplicates_eq sel) by (done || (intros p q Hp Hq; by apply Hids; apply Hsub)). cbn [mbind outcome_bind].
  rewrite usable_filters. unfold remove_rsp_spill_slots, remove_unsupported_loc_size. rewrite check_alignment_Ret; [split; [done|]| |].
  - eapply sublist_NoDup; [apply rivals_filter_NoDup|]. apply fmap_sublist. etrans; [apply List_filter_sublist|].
    etrans; apply List_filter_sublist.
  - by repeat apply List_Forall_filter.
  - repeat apply List_Forall_filter. apply Forall_forall. intros p Hp. by apply (proj1 (Forall_forall _ _) Hr), Hsub.
Qed.
End sites.

Section witness.
#[local] Existing Instance demo_stackmap.
#[local] Existing Instance demo_layout.
#[local] Existing Instance demo_records.
#[local] Existing Instance demo_stub_layout.

(** Two sites of an address, both four bytes wide, and one of another address. *)
Definition twin_sites : list MutationSite :=
  [mk_site 1 4096 65536 112 Load_ false 32 demo_mapping; mk_site 1 4096 65536 112 Load_ false 32 demo_mapping;
   mk_site 2 4096 65536 176 Load_ false 32 demo_mapping].

Lemma twin_ids : ids_name_vmas twin_sites.
Proof.
  intros p q Hp Hq. unfold twin_sites in Hp, Hq. rewrite !elem_of_cons, elem_of_nil in Hp, Hq.
  by destruct Hp as [-> | [-> | [-> | []]]]; destruct Hq as [-> | [-> | [-> | []]]]; vm_compute.
Qed.

(** The memory holds NOPs everywhere, the user wants two sites in the given order. *)
Lemma filtered_sites_witness :
  filter_patch_points id (fun _ _ => Some NOP_PATTERN) (mk_source_config None (Some 3) (Some [Store])) twin_sites =
  Ret [mk_site 2 4096 65536 176 Load_ false 32 demo_mapping].
Proof.
  rewrite (proj1 (filtered_sites id (fun _ _ => Some NOP_PATTERN) (mk_source_config None (Some 3) (Some [Store])) twin_sites
    (fun _ => reflexivity _) twin_ids ltac:(by repeat constructor) ltac:(by repeat constructor)
    ltac:(intros n [= <-]; vm_compute; done) ltac:(left; vm_compute; lia))). by vm_compute.
Defined.
End witness.
