(* ===== verification/Agent.v ===== *)
(** * The agent

    The part of the generator the compiler pass links into the fuzzed program
    ([generator/agent/src/agent.rs]): it installs the mutations of the shared cache
    into the patch points of the program ([sync_mutations]), runs the program in a
    forked child ([run]) and answers the messages of the scheduler
    ([process_messages]). *)

From S2P Require Import Prelude Bytes MutationCacheEntry MutationCacheContent MutationCache Messages Trace MutationSite Dwarf X86 Jit JitStub JitPatch.

(** ** Process status ([libc]) *)

Definition WIFEXITED (status : Z) : bool := Z.land status 0x7f =? 0.
Definition WEXITSTATUS (status : Z) : Z := Z.land (Z.shiftr status 8) 0xff.
Definition WTERMSIG (status : Z) : Z := Z.land status 0x7f.
(** [((status & 0x7f) + 1) as i8 >> 1 > 0] *)
Definition WIFSIGNALED (status : Z) : bool :=
  let b := Z.land status 0x7f + 1 in
  0 <? Z.shiftr (if b <? 128 then b else b - 256) 1.

Section agent.
Context `{L : EntryLayout} `{CL : ContentLayout} `{!StackMapRecords} `{!StubLayout}.
Context (mprotect : list MapRange -> Z -> Z -> PermsConfig -> option (list MapRange)).
Context (ks_asm : string -> option (list Z)).
(** The address of the data of the cache in the agent, and of [__tracing_cb]. *)
Context (cache_data tracing_cb : Z).

Record Agent := mk_agent {
  ag_mutation_cache : MutationCache;
  ag_jit : Jit;
  ag_process : Process;
  ag_trace_map : TraceMap;
}.

(** An entry of the cache and its address. *)
Record EntryRef := mk_ref { er_ptr : Z; er_entry : MutationCacheEntry }.

Definition entry_refs (mc : MutationCache) : list EntryRef :=
  (fun off => mk_ref (cache_data + Z.of_nat off) (entry_ref (mc_content mc) off)) <$> Content_entries_raw (mc_content mc).

Abbreviation er_vma r := (Entry_vma (er_entry r)).
Abbreviation traced r := (Entry_is_flag_set (er_entry r) Flag_TracingEnabled).

(** ** [sync_mutations] *)

Fixpoint snapshot_all (j : Jit) (p : Process) (entries : list EntryRef) : outcome Jit :=
  match entries with
  | [] => mret j
  | r :: entries => j ← snapshot_patch_point j p (er_entry r); snapshot_all j p entries
  end.

(** The mutation stub, when the entry has a mask; [None] when the JIT refuses it. *)
Definition mutation_callables (j : Jit) (p : Process) (r : EntryRef)
    : outcome (option (list FunctionInstance) * Jit * Process) :=
  if (0 <? Entry_msk_len (er_entry r))%nat
  then
    mutation_stub ← gen_mutation (er_entry r) (er_ptr r);
    match mutation_stub with
    | Ok e => s ← Jit_allocate mprotect ks_asm j p e; mret (Some [s.1.1], s.1.2, s.2)
    | Err (UnsupportedMutation _) => mret (None, j, p)
    end
  else mret (Some [], j, p).

(** The tracing stub, when tracing was requested. *)
Definition tracing_callables (j : Jit) (p : Process) (tm : TraceMap) (r : EntryRef)
    : outcome (list FunctionInstance * Jit * Process * TraceMap) :=
  if traced r
  then
    let id := Entry_id (er_entry r) in
    tracing_stub ← gen_call tracing_cb [Arg_Constant id] true (Some GENERAL_PURPOSE_REGISTERS);
    s ← Jit_allocate mprotect ks_asm j p tracing_stub;
    mret ([s.1.1], s.1.2, s.2, alloc_slot tm id)
  else mret ([], j, p, tm).

(** Generate the call to a function and write it into a patch point. *)
Definition write_patch_point (p : Process) (to : FunctionInstance) (vma : Z) : outcome Process :=
  to_vma ← FunctionInstance_vma to;
  patchpoint_stub ← gen_call to_vma [] false None;
  f ← Jit_assemble ks_asm patchpoint_stub;
  w ← FunctionInstance_write f p vma;
  mret w.2.

Definition install (j : Jit) (p : Process) (callables : list FunctionInstance) (vma : Z) : outcome (Jit * Process) :=
  match callables with
  | [] => mret (j, p)
  | [f] => p ← write_patch_point p f vma; mret (j, p)
  | _ =>
      multiplexer ← gen_call_multiplexer callables;
      s ← Jit_allocate mprotect ks_asm j p multiplexer;
      let '(multiplexer, j, p) := s in
      p ← write_patch_point p multiplexer vma;
      mret (j, p)
  end.

(** The body of the loop over the entries. *)
Definition sync_entry (j : Jit) (p : Process) (tm : TraceMap) (r : EntryRef) : outcome (Jit * Process * TraceMap) :=
  _ ← assert_that (traced r || (0 <? Entry_msk_len (er_entry r))%nat);
  s ← mutation_callables j p r;
  let '(callables, j, p) := s in
  match callables with
  | None => mret (j, p, tm)
  | Some callables =>
      s ← tracing_callables j p tm r;
      let '(tracing, j, p, tm) := s in
      s ← install j p (callables ++ tracing) (er_vma r);
      mret (s.1, s.2, tm)
  end.

Fixpoint sync_entries (j : Jit) (p : Process) (tm : TraceMap) (entries : list EntryRef)
    : outcome (Jit * Process * TraceMap) :=
  match entries with
  | [] => mret (j, p, tm)
  | r :: entries => s ← sync_entry j p tm r; sync_entries s.1.1 s.1.2 s.2 entries
  end.

(** The entries that are not disabled. *)
Definition enabled_refs (mc : MutationCache) : list EntryRef :=
  List.filter (fun r => negb (Entry_is_flag_set (er_entry r) Flag_Disable)) (entry_refs mc).

Definition sync_mutations (munmap_ok : bool) (a : Agent) : outcome Agent :=
  let entries := enabled_refs (ag_mutation_cache a) in
  let vmas : gset Z := list_to_set ((fun r => er_vma r) <$> entries) in
  _ ← assert_that (size vmas =? length entries)%nat;
  s ← Jit_reset mprotect (ag_jit a) (ag_process a);
  let '(j, p) := s in
  tm ← reset munmap_ok (ag_trace_map a);
  p ← mark_all mprotect true ((fun r => er_vma r) <$> entries) p;
  j ← snapshot_all j p entries;
  s ← sync_entries j p tm entries;
  let '(j, p, tm) := s in
  p ← mark_mappings_rx mprotect j p;
  p ← mark_all mprotect false ((fun r => er_vma r) <$> entries) p;
  mret (mk_agent (ag_mutation_cache a) j p tm).

(** ** [run] *)

(** What happens in the forked child: its pid, the messages the hooks of the program
    send ([__ft_after_listen], [__ft_after_bind], [__ft_after_connect]), the patch
    points that report a hit, and the status [waitpid] returns. *)
Inductive ChildMessage := CM_AfterListen | CM_AfterBind | CM_AfterConnect.
Record ChildRun := mk_child_run {
  cr_pid : Z; cr_messages : list ChildMessage; cr_hits : list Z; cr_status : Z;
}.

(** The messages of the agent, [AfterConnect] included. *)
Inductive AgentMessage :=
| AM_Hello (m : HelloMessage)
| AM_Ok (m : OkMessage)
| AM_ChildPid (m : ChildPid)
| AM_Hook (m : ChildMessage)
| AM_TracePointStat (m : TracePointStat)
| AM_Terminated (m : TerminatedMessage).

Definition status_exit_code (child_status : Z) : outcome Z :=
  if WIFEXITED child_status then mret (WEXITSTATUS child_status)
  else if WIFSIGNALED child_status then mret (- WTERMSIG child_status)
  else Panic.

(** The parent's part of [run], with the messages of child and parent in the order
    they are sent: the parent sends its own after the child terminated. *)
Definition run (mmap_ok : bool) (a : Agent) (child : ChildRun) : outcome (Agent * list AgentMessage) :=
  tm ← finalize mmap_ok (ag_trace_map a);
  let hit := child_run tm (cr_hits child) in
  exit_code ← status_exit_code (cr_status child);
  let terminated_msg := mk_terminated (term_header TerminatedMessage_default) exit_code
                          (is_timeout TerminatedMessage_default) in
  s ← postprocess_trace_map
        (mk_trace_map (tm_data hit) (tm_len_bytes tm) (tm_allocated_slots tm) (tm_total_hits tm));
  mret (mk_agent (ag_mutation_cache a) (ag_jit a) (ag_process a) s.2,
        AM_ChildPid (ChildPid_new (cr_pid child)) :: (AM_Hook <$> cr_messages child)
        ++ (AM_TracePointStat <$> s.1) ++ [AM_Terminated terminated_msg]).

(** One iteration of [process_messages] in the parent. *)
Definition process_message (munmap_ok mmap_ok : bool) (child : ChildRun) (a : Agent) (new_msg : ReceivableMessages)
    : outcome (Agent * list AgentMessage) :=
  match new_msg with
  | RM_SyncMutations _ =>
      a ← sync_mutations munmap_ok a;
      mret (a, [AM_Ok (HeaderOnly_default MsgIdOk)])
  | RM_RunMessage _ => run mmap_ok a child
  | _ => Panic
  end.
End agent.
