(* ===== verification/AgentSync.v ===== *)
(** * Installing mutations

    What [sync_mutations] of [generator/agent/src/agent.rs] does to the process: it
    restores the program and installs exactly the entries of the cache, whatever was
    installed before. *)

From S2P Require Import Prelude Bytes MutationCacheEntry MutationCacheContent MutationCache Messages Trace MutationSite Dwarf X86 Jit JitStub JitPatch Agent.

(** ** Page protection *)

Definition flag_char (s : string) (i : nat) : option Ascii.ascii := String.get i s.

(** What the kernel promises about [/proc/self/maps]: mappings are page aligned, do not
    overlap, and have permission flags. *)
Record maps_wf (maps : list MapRange) : Prop := {
  mw_flags : Forall (fun m => (3 <= String.length (mr_flags m))%nat) maps;
  mw_start : Forall (fun m => range_start m mod PAGE_SIZE = 0) maps;
  mw_end : Forall (fun m => range_end m mod PAGE_SIZE = 0) maps;
  mw_disjoint : forall m m' x, m ∈ maps -> m' ∈ maps -> in_mapping x m = true -> in_mapping x m' = true -> m = m';
}.

(** Two addresses lie in one mapping. *)
Definition same_mapping (maps : list MapRange) (x y : Z) : Prop :=
  exists m, get_enclosing_mapping maps x = Some m /\ get_enclosing_mapping maps y = Some m.

Definition mem_readable (maps : list MapRange) (addr : Z) : bool :=
  match get_enclosing_mapping maps addr with
  | Some m => match MapRange_is_read m with Ret b => b | Panic => false end
  | None => false
  end.

Definition mem_executable (maps : list MapRange) (addr : Z) : bool :=
  match get_enclosing_mapping maps addr with
  | Some m => match MapRange_is_exec m with Ret b => b | Panic => false end
  | None => false
  end.

(** Readable and executable, and not writable. *)
Definition read_exec (maps : list MapRange) (x : Z) : Prop :=
  mem_readable maps x = true /\ mem_executable maps x = true /\ mem_writable maps x = false.

(** What [mprotect] does to a whole mapping: the permissions of its addresses are the
    new ones, all others are unchanged, and mappings are not split. *)
Class MprotectLaws (mprotect : list MapRange -> Z -> Z -> PermsConfig -> option (list MapRange)) := {
  mprotect_mapping : forall maps m perms,
    maps_wf maps -> m ∈ maps -> range_start m < range_end m ->
    exists maps', mprotect maps (range_start m) (range_end m - range_start m) perms = Some maps' /\
      maps_wf maps' /\
      (forall x, mem_writable maps' x = if in_mapping x m then is_write perms else mem_writable maps x) /\
      (forall x, mem_readable maps' x = if in_mapping x m then is_read perms else mem_readable maps x) /\
      (forall x, mem_executable maps' x = if in_mapping x m then is_exec perms else mem_executable maps x) /\
      (forall x y, same_mapping maps x y -> same_mapping maps' x y);
}.

(** A change of the permissions keeps what has the permission [write], and every address
    that is writable, or readable and executable, stays in one of the two classes. *)
Definition opened (maps : list MapRange) (x : Z) : Prop :=
  mem_writable maps x = true \/ mem_readable maps x = true /\ mem_executable maps x = true.

Record perms_kept (write : bool) (maps maps' : list MapRange) : Prop := {
  pk_write : forall x, mem_writable maps x = write -> mem_writable maps' x = write;
  pk_opened : forall x, opened maps x -> opened maps' x;
}.

Lemma perms_kept_refl write maps : perms_kept write maps maps.
Proof. done. Qed.

Lemma perms_kept_trans write maps1 maps2 maps3 :
  perms_kept write maps1 maps2 -> perms_kept write maps2 maps3 -> perms_kept write maps1 maps3.
Proof. intros [] []. split; auto. Qed.

Lemma opened_closed maps x : opened maps x -> mem_writable maps x = false -> read_exec maps x.
Proof. intros [H|[]] Hw; [congruence|done]. Qed.

Lemma get_enclosing_Some maps x m : get_enclosing_mapping maps x = Some m -> m ∈ maps /\ in_mapping x m = true.
Proof. intros H%List.find_some. by rewrite list_elem_of_In. Qed.

Lemma same_mapping_eq maps x m y :
  get_enclosing_mapping maps x = Some m -> same_mapping maps x y -> get_enclosing_mapping maps y = Some m.
Proof. intros E (m' & E1 & E2). congruence. Qed.

Lemma page_mapping m :
  range_start m mod PAGE_SIZE = 0 -> range_end m mod PAGE_SIZE = 0 -> range_start m < range_end m ->
  align_to_page (range_start m) = range_start m /\
  PAGE_SIZE + (align_to_page (range_start m + (range_end m - range_start m) - 1) - align_to_page (range_start m))
  = range_end m - range_start m.
Proof.
  intros H1 H2 Hlt. unfold align_to_page, PAGE_SIZE in *. change 0xfff with (Z.ones 12).
  rewrite !Z.ldiff_ones_r by lia. rewrite !Z.shiftl_mul_pow2, !Z.shiftr_div_pow2 by lia.
  change (2 ^ 12) with 4096. dlia.
Qed.

Section marks.
Context (mprotect : list MapRange -> Z -> Z -> PermsConfig -> option (list MapRange)) `{!MprotectLaws mprotect}.
Context (maps0 : list MapRange).

(** What marking keeps: mappings are not removed or split, and stay readable. *)
Record maps_inv (maps : list MapRange) : Prop := {
  mi_wf : maps_wf maps;
  mi_same : forall x y, same_mapping maps0 x y -> same_mapping maps x y;
  mi_read : forall x, mem_readable maps0 x = true -> mem_readable maps x = true;
}.

Lemma mark_spec write p a :
  maps_inv (p_maps p) -> same_mapping maps0 a a ->
  exists p', mark_enclosing_mapping mprotect write p a = Ret (Ok p') /\ p_mem p' = p_mem p /\ maps_inv (p_maps p') /\
    (forall x, same_mapping maps0 a x -> mem_writable (p_maps p') x = write) /\
    perms_kept write (p_maps p) (p_maps p').
Proof.
  intros [Hwf Hsame Hread] Ha. destruct (Hsame a a Ha) as (m & Em & _).
  destruct (get_enclosing_Some _ _ _ Em) as [Hin Hax]. pose proof Hwf as [Hfl Hst Hen Hdis].
  rewrite Forall_forall in Hfl, Hst, Hen. unfold mark_enclosing_mapping. rewrite Em.
  assert (Hw : exists w, MapRange_is_write m = Ret w).
  { unfold MapRange_is_write, flag_at. specialize (Hfl m Hin). destruct (Nat.ltb_spec 1 (String.length (mr_flags m))); [|lia].
    cbn. by eexists. }
  assert (Hmw : forall x, same_mapping maps0 a x -> get_enclosing_mapping (p_maps p) x = Some m).
  { intros x Hx. eapply same_mapping_eq; [exact Em|by apply Hsame]. }
  destruct Hw as [w Ew]. rewrite Ew. cbn [mbind outcome_bind]. destruct (Bool.eqb_spec w write) as [->|Hne].
  { exists p. split; [done|]. split; [done|]. split; [done|]. split; [|done].
    intros x Hx. unfold mem_writable. by rewrite Hmw, Ew. }
  assert (Hlt : range_start m < range_end m) by (unfold in_mapping in Hax; lia).
  destruct (page_mapping m (Hst m Hin) (Hen m Hin) Hlt) as [E1 E2].
  unfold MapRange_size, checked_sub. rewrite decide_True by lia.
  cbn [assert_that mbind outcome_bind mret outcome_ret]. unfold MappedMemoryConfig_new.
  rewrite (proj2 (Z.ltb_lt _ _)) by lia. cbn [assert_that mbind outcome_bind mret outcome_ret].
  unfold mm_commit, MapRange_start. cbn [mm_start_addr mm_size mm_perms mm_exec mm_write mm_read mm_reset mm_with is_exec is_read is_write].
  rewrite E2, E1.
  assert (Hmod : (range_end m - range_start m) mod PAGE_SIZE = 0).
  { specialize (Hst m Hin). specialize (Hen m Hin). unfold PAGE_SIZE in *. dlia. }
  rewrite Hmod, (proj2 (Z.ltb_lt _ _)) by lia. cbn [andb Z.eqb assert_that mbind outcome_bind mret outcome_ret].
  destruct (mprotect_mapping (p_maps p) m (mk_perms true true write) Hwf Hin Hlt) as (maps' & E & Hwf' & Hw' & Hr' & He' & Hs').
  rewrite E. cbn [unwrap mbind outcome_bind mret outcome_ret]. eexists. split; [reflexivity|]. cbn [p_mem p_maps].
  split; [done|]. split; [|split].
  - split; [done|auto|]. intros x Hx. rewrite Hr'. destruct (in_mapping x m); [done|auto].
  - intros x Hx. rewrite Hw'. destruct (get_enclosing_Some _ _ _ (Hmw x Hx)) as [_ ->]. done.
  - split; [intros x Hx; rewrite Hw'; by destruct (in_mapping x m)|].
    intros x. unfold opened. rewrite Hw', Hr', He'. destruct (in_mapping x m); [by right|done].
Qed.
End marks.

(** ** The assembler *)

Section assembler.
Context `{L : EntryLayout} `{!StackMapRecords} `{!StubLayout}.
Context (ks_asm : string -> option (list Z)) (tracing_cb : Z).

(** The code of a function that returns. *)
Definition stub_code (t : FunctionTemplate) : list instr := ft_asm_body t ++ [RetI].

(** The spill slot is relative to a general purpose register. *)
Definition spill_gpr (e : MutationCacheEntry) : Prop :=
  exists reg, DwarfReg_try_from (dwarf_regnum (Entry_spill_slot e)) = Some reg /\ gpr reg.

(** The call to [v] that is written into a patch point. *)
Definition patch_code (v : Z) : list instr := [Nop; Nop; Nop; Nop] ++ call_block v.

(** The code the agent generates. *)
Inductive emitted : list instr -> Prop :=
| emitted_mutation e ptr t : spill_gpr e -> gen_mutation e ptr = Ret (Ok t) -> emitted (stub_code t)
| emitted_trace id t : gen_call tracing_cb [Arg_Constant id] true (Some GENERAL_PURPOSE_REGISTERS) = Ret t -> emitted (stub_code t)
| emitted_mux v1 v2 : emitted (call_block v1 ++ call_block v2 ++ [RetI])
| emitted_patch v : emitted (patch_code v).

(** What the agent expects of the assembler: it accepts the generated code, an
    instruction has at most 15 bytes, and a call fits into a patch point. *)
Class AssemblerLaws := {
  ks_accepts : forall asm text, emitted asm -> asm_text asm = Ret text ->
    exists bs, ks_asm text = Some bs /\ (0 < length bs <= 15 * length asm)%nat;
  ks_call : forall v text bs, fits 64 v -> asm_text (patch_code v) = Ret text -> ks_asm text = Some bs -> (length bs <= PP_SIZE)%nat;
}.

Lemma asm_text_Ret asm : Forall (fun i => exists s, asm_line i = Ret s) asm -> exists text, asm_text asm = Ret text.
Proof.
  intros Hl. assert (exists ls, mapM asm_line asm = Ret ls) as [ls E].
  { induction Hl as [|i asm [s Es] _ [ls IH]]; [by eexists|]. exists (s :: ls). cbn [mapM]. by rewrite Es; cbn; rewrite IH. }
  unfold asm_text. rewrite E. by eexists.
Qed.

Lemma line_sized r size : r ∈ [Rax; Rbx; Rcx; Rdx; R11] -> size ∈ sizes -> exists s, sized_name r size = Ret s.
Proof.
  intros Hr Hs. assert (Hall : forallb (fun r => forallb (fun s => match sized_name r s with Ret _ => true | _ => false end) sizes)
    [Rax; Rbx; Rcx; Rdx; R11] = true) by (vm_compute; reflexivity).
  rewrite forallb_forall in Hall. specialize (Hall r (proj1 (list_elem_of_In _ _) Hr)). rewrite forallb_forall in Hall.
  specialize (Hall size (proj1 (list_elem_of_In _ _) Hs)). destruct (sized_name r size); [by eexists|done].
Qed.

Lemma emitted_text asm : emitted asm -> (exists text, asm_text asm = Ret text) /\ (length asm <= 50)%nat.
Proof.
  destruct 1 as [e ptr t Hg E|id t E|v1 v2|v].
  - destruct (gen_mutation_Ok e ptr t E) as (r & c & size & sc & cc & _ & _ & _ & Hc & Hsz & Hsc & Hcc & ->).
    destruct (chunk_reg_size_spec c size Hc Hsz) as (Hs & _).
    assert (Hslot : Forall (fun i => exists s, asm_line i = Ret s) sc /\ (length sc <= 1)%nat).
    { unfold slot_offset_code in Hsc. case_bool_decide; [|injection Hsc as <-; split; [constructor|cbn; lia]].
      destruct (0 <? _); [injection Hsc as <-; split; [by repeat constructor; eexists|cbn; lia]|].
      destruct (_ <? 0); [|injection Hsc as <-; split; [constructor|cbn; lia]].
      unfold neg_i32 in Hsc. destruct (negb _); [|done]. injection Hsc as <-; split; [by repeat constructor; eexists|cbn; lia]. }
    assert (Hm : exists s, sized_name R11 (Z.of_nat size) = Ret s) by (apply line_sized; [apply (list_elem_of_lookup_2 _ 4); reflexivity|done]).
    assert (Hp : exists s, mem_ptr_prefix (Z.of_nat size) = Ret s) by (clear -Hs; set_unfold in Hs; destruct Hs as [->|[->|[->|[->|[]]]]]; by eexists).
    destruct Hm as [nm Enm], Hp as [pre Epre].
    assert (Hchunk : Forall (fun i => exists s, asm_line i = Ret s) cc /\ (length cc <= 2)%nat).
    { unfold apply_chunk_code in Hcc. destruct (_ =? _)%nat.
      - injection Hcc as <-. split; [|cbn; lia]. repeat constructor. cbn [asm_line]. rewrite Enm. by eexists.
      - destruct (shl_one_u32 c); [|done]. injection Hcc as <-. split; [|cbn; lia].
        repeat constructor; cbn [asm_line]; rewrite Enm; by eexists. }
    unfold stub_code. cbn [ft_asm_body]. unfold mutation_code. split.
    + apply asm_text_Ret. rewrite !Forall_app. split_and!; try apply Hslot; try apply Hchunk;
        repeat (apply Forall_cons; split); try constructor; cbn [asm_line]; rewrite ?Enm, ?Epre; by eexists.
    + rewrite !length_app. cbn [length]. lia.
  - vm_compute in E. injection E as <-. split; [|vm_compute; lia]. apply asm_text_Ret.
    repeat (apply Forall_cons; split); try constructor; by eexists.
  - split; [|cbn; lia]. apply asm_text_Ret. repeat (apply Forall_cons; split); try constructor; by eexists.
  - split; [|cbn; lia]. apply asm_text_Ret. repeat (apply Forall_cons; split); try constructor; by eexists.
Qed.

Definition assembled (asm : list instr) (bs : list Z) : Prop := exists text, asm_text asm = Ret text /\ ks_asm text = Some bs.

Lemma emitted_assembled `{!AssemblerLaws} asm :
  emitted asm -> exists bs, assembled asm bs /\ (0 < length bs <= 750)%nat.
Proof.
  intros He. destruct (emitted_text asm He) as [[text Et] Hl]. destruct (ks_accepts asm text He Et) as (bs & Eb & Hb).
  exists bs. split; [by exists text|lia].
Qed.
End assembler.

(** ** Writing memory *)

Lemma poke_Ret p a bs :
  (forall i, (i < length bs)%nat -> mem_writable (p_maps p) (a + Z.of_nat i) = true) ->
  poke p a bs = Ret (mk_process (write_mem (p_mem p) a bs) (p_maps p)).
Proof.
  intros Hw. unfold poke. rewrite (proj2 (List.forallb_forall _ _)); [done|].
  intros i Hi%List.in_seq. apply Hw. lia.
Qed.

(** The 32 bytes of a patch point. *)
Definition in_pp (vma x : Z) : Prop := vma <= x < vma + PATCH_POINT_SIZE.

Section process.
Context `{L : EntryLayout} `{!StackMapRecords} `{!StubLayout}.
Context (mprotect : list MapRange -> Z -> Z -> PermsConfig -> option (list MapRange)) `{!MprotectLaws mprotect}.
Context (ks_asm : string -> option (list Z)) (tracing_cb : Z) `{!AssemblerLaws ks_asm tracing_cb}.

(** The program before anything was installed, and the code cache. *)
Context (M0 : memory) (maps0 : list MapRange) (B : Z) (N : nat).
Record cache_ok : Prop := {
  co_size : (0 < N)%nat;
  co_fits : 0 <= B /\ B + Z.of_nat N <= 2 ^ 64;
  co_mapped : forall i, (i < N)%nat -> same_mapping maps0 B (B + Z.of_nat i);
  co_zero : forall x, B <= x < B + Z.of_nat N -> M0 x = 0;
}.
Context (Hcache : cache_ok).

Abbreviation in_cache x := (B <= x < B + Z.of_nat N).

(** A patch point of the program: readable, and inside one mapping. *)
Record pp_ok (vma : Z) : Prop := {
  po_mapped : forall i, (i < PP_SIZE)%nat -> same_mapping maps0 vma (vma + Z.of_nat i);
  po_readable : forall i, (i < PP_SIZE)%nat -> mem_readable maps0 (vma + Z.of_nat i) = true;
}.

Lemma pp_self vma : pp_ok vma -> same_mapping maps0 vma vma.
Proof. intros [Hm _]. specialize (Hm 0%nat). rewrite Z.add_0_r in Hm. apply Hm. vm_compute. lia. Qed.

Lemma cache_self : same_mapping maps0 B B.
Proof. destruct Hcache. specialize (co_mapped0 0%nat). rewrite Z.add_0_r in co_mapped0. auto. Qed.

Lemma in_cache_mapped x : in_cache x -> same_mapping maps0 B x.
Proof. intros Hx. replace x with (B + Z.of_nat (Z.to_nat (x - B))) by lia. apply Hcache. lia. Qed.

Lemma in_pp_mapped vma x : pp_ok vma -> in_pp vma x -> same_mapping maps0 vma x.
Proof.
  unfold in_pp. intros Hv Hx. replace x with (vma + Z.of_nat (Z.to_nat (x - vma))) by lia. apply Hv. unfold PP_SIZE. lia.
Qed.

Lemma mark_Ret write p a :
  maps_inv maps0 (p_maps p) -> same_mapping maps0 a a ->
  exists p', (r ← mark_enclosing_mapping mprotect write p a; unwrap_result r) = Ret p' /\ p_mem p' = p_mem p /\
    maps_inv maps0 (p_maps p') /\
    (forall x, same_mapping maps0 a x -> mem_writable (p_maps p') x = write) /\
    perms_kept write (p_maps p) (p_maps p').
Proof.
  intros Hi Ha. destruct (mark_spec mprotect maps0 write p a Hi Ha) as (p' & E & Hp). exists p'. rewrite E. done.
Qed.

Lemma mark_all_Ret write addrs p :
  maps_inv maps0 (p_maps p) -> Forall (fun a => same_mapping maps0 a a) addrs ->
  exists p', mark_all mprotect write addrs p = Ret p' /\ p_mem p' = p_mem p /\ maps_inv maps0 (p_maps p') /\
    (forall a x, a ∈ addrs -> same_mapping maps0 a x -> mem_writable (p_maps p') x = write) /\
    perms_kept write (p_maps p) (p_maps p').
Proof.
  intros Hi Ha. revert p Hi. induction Ha as [|a addrs Ha _ IH]; intros p Hi.
  - exists p. split_and!; try done. intros a x Hx%elem_of_nil. done.
  - destruct (mark_spec mprotect maps0 write p a Hi Ha) as (p1 & E1 & Hm1 & Hi1 & Hw1 & Hk1).
    destruct (IH p1 Hi1) as (p2 & E2 & Hm2 & Hi2 & Hw2 & Hk2). exists p2. cbn [mark_all]. rewrite E1.
    cbn [mbind outcome_bind unwrap_result]. split_and!; [done|congruence|done| |by eapply perms_kept_trans].
    intros b x [->|Hb]%elem_of_cons Hx; [|by eauto]. apply (pk_write _ _ _ Hk2). eauto.
Qed.

(** ** Restoring the program *)

Definition snapshot (vma : Z) : PatchableLocation := mk_patchable vma PP_SIZE (read_mem M0 vma PP_SIZE).

Lemma reset_locations_Ret vmas p :
  maps_inv maps0 (p_maps p) -> Forall pp_ok vmas ->
  exists p', reset_locations mprotect (snapshot <$> vmas) p = Ret p' /\ maps_inv maps0 (p_maps p') /\
    forall x, ((exists v, v ∈ vmas /\ in_pp v x) -> p_mem p' x = M0 x) /\
              (p_mem p' x = p_mem p x \/ p_mem p' x = M0 x).
Proof.
  intros Hi Hv. revert p Hi. induction Hv as [|v vmas Hv _ IH]; intros p Hi.
  { exists p. split_and!; try done. intros x. split; [|by left]. by intros (v & Hv%elem_of_nil & _). }
  destruct (mark_spec mprotect maps0 true p v Hi (pp_self v Hv)) as (p1 & E1 & Hm1 & Hi1 & Hw1 & _).
  cbn [fmap list_fmap reset_locations pl_addr snapshot]. unfold mark_enclosing_mapping_rwx. rewrite E1.
  cbn [mbind outcome_bind unwrap_result]. unfold PatchableLocation_reset. cbn [pl_addr pl_size pl_reset_value snapshot].
  rewrite (take_ge (read_mem M0 v PP_SIZE)) by (by rewrite read_mem_length).
  rewrite poke_Ret by (rewrite read_mem_length; intros i Hlt; apply Hw1; by apply Hv). cbn [mbind outcome_bind].
  edestruct IH as (p2 & E2 & Hi2 & Hx2); [|exists p2; split; [exact E2|]; split; [exact Hi2|]]; [exact Hi1|].
  cbn [p_mem p_maps] in *. intros x. destruct (Hx2 x) as [Hx3 Hx4].
  assert (Hwr : write_mem (p_mem p1) v (read_mem M0 v PP_SIZE) x = M0 x \/
                write_mem (p_mem p1) v (read_mem M0 v PP_SIZE) x = p_mem p x /\ ~ in_pp v x).
  { destruct (decide (in_pp v x)) as [Hx|Hx].
    - left. unfold in_pp in Hx. replace x with (v + Z.of_nat (Z.to_nat (x - v))) by lia.
      apply write_mem_in. apply read_mem_lookup. unfold PP_SIZE, PATCH_POINT_SIZE in *. lia.
    - right. rewrite write_mem_out; [by rewrite Hm1|]. rewrite read_mem_length. unfold in_pp, PP_SIZE, PATCH_POINT_SIZE in *. lia. }
  split.
  - intros (u & [->|Hu]%elem_of_cons & Hux); [|by apply Hx3; exists u].
    destruct Hx4 as [-> | ->]; [|done]. by destruct Hwr as [->|[_ ?]].
  - destruct Hx4 as [-> | ->]; [|by right]. destruct Hwr as [->|[-> _]]; auto.
Qed.

(** The agent between messages: everything it changed is in the cache or in a
    registered patch point, whose original bytes it has. *)
Record jit_inv (j : Jit) (p : Process) : Prop := {
  ji_buffer : cc_buffer (j_code_cache j) = B;
  ji_size : cc_size (j_code_cache j) = N;
  ji_registered : forall vma l, j_registered j !! vma = Some l -> l = snapshot vma /\ pp_ok vma;
  ji_frame : forall x, ~ in_cache x -> (forall vma, is_Some (j_registered j !! vma) -> ~ in_pp vma x) -> p_mem p x = M0 x;
  ji_maps : maps_inv maps0 (p_maps p);
}.

Lemma Jit_reset_Ret j p :
  jit_inv j p ->
  exists p', Jit_reset mprotect j p = Ret (mk_jit (mk_code_cache B N B N) ∅, p') /\
    (forall x, p_mem p' x = M0 x) /\ maps_inv maps0 (p_maps p') /\ (forall x, in_cache x -> opened (p_maps p') x).
Proof.
  intros [Hb Hn Hreg Hfr Hi]. unfold Jit_reset. set (vmas := (map_to_list (j_registered j)).*1).
  assert (Hin : forall v, v ∈ vmas <-> is_Some (j_registered j !! v)).
  { intros v. unfold vmas. rewrite list_elem_of_fmap. split.
    - intros ([k l] & -> & Hkl%elem_of_map_to_list). by eexists.
    - intros [l Hl]. exists (v, l). split; [done|by apply elem_of_map_to_list]. }
  assert (Els : (map_to_list (j_registered j)).*2 = snapshot <$> vmas).
  { unfold vmas. rewrite <- list_fmap_compose. apply list_fmap_ext. intros i [k l] Hl.
    apply list_elem_of_lookup_2, elem_of_map_to_list in Hl. cbn. by apply Hreg. }
  assert (Hpps : Forall pp_ok vmas).
  { apply Forall_forall. intros v [l Hl]%Hin. by eapply Hreg. }
  rewrite Els. destruct (reset_locations_Ret vmas p Hi Hpps) as (p1 & E1 & Hi1 & Hx1). rewrite E1.
  cbn [mbind outcome_bind]. rewrite <- list_fmap_compose. change (pl_addr ∘ snapshot) with (@id Z). rewrite list_fmap_id.
  destruct (mark_all_Ret false vmas p1 Hi1) as (p2 & E2 & Hm2 & Hi2 & _).
  { eapply Forall_impl; [exact Hpps|]. apply pp_self. }
  rewrite E2. cbn [mbind outcome_bind]. unfold CodeCache_reset. rewrite Hb, Hn.
  destruct (mark_spec mprotect maps0 true p2 B Hi2 cache_self) as (p3 & E3 & Hm3 & Hi3 & Hw3 & _).
  unfold mark_enclosing_mapping_rwx, mark_enclosing_mapping_rx. rewrite E3. cbn [mbind outcome_bind unwrap_result].
  rewrite poke_Ret by (rewrite length_replicate; intros i Hlt; apply Hw3; by apply Hcache). cbn [mbind outcome_bind].
  set (p4 := mk_process _ _). destruct (mark_spec mprotect maps0 false p4 B Hi3 cache_self) as (p5 & E5 & Hm5 & Hi5 & _ & Hk5).
  rewrite E5. cbn [mbind outcome_bind unwrap_result mret outcome_ret]. exists p5. split; [done|].
  split; [|split; [done|intros x Hx; apply (pk_opened _ _ _ Hk5); left; by apply Hw3, in_cache_mapped]].
  intros x. rewrite Hm5. unfold p4. cbn [p_mem]. destruct (decide (in_cache x)) as [Hx|Hx].
  - rewrite (co_zero Hcache x Hx). replace x with (B + Z.of_nat (Z.to_nat (x - B))) by lia.
    apply write_mem_in, lookup_replicate. lia.
  - rewrite write_mem_out by (rewrite length_replicate; lia). rewrite Hm3, Hm2.
    destruct (Hx1 x) as [Hpp [Hsame|Hsame]]; [|done].
    destruct (decide (Exists (fun v => in_pp v x) vmas)) as [Hex|Hno].
    + apply Exists_exists in Hex as (v & ? & ?). apply Hpp. by exists v.
    + rewrite Hsame. apply Hfr; [done|]. intros v Hv Hvx. apply Hno. apply Exists_exists. exists v. by rewrite Hin.
Qed.

Lemma snapshot_all_Ret entries j p :
  (forall x, p_mem p x = M0 x) -> maps_inv maps0 (p_maps p) ->
  (forall vma l, j_registered j !! vma = Some l -> l = snapshot vma) ->
  Forall (fun r => pp_ok (Entry_vma (er_entry r))) entries ->
  exists j', snapshot_all j p entries = Ret j' /\ j_code_cache j' = j_code_cache j /\
    (forall vma l, j_registered j' !! vma = Some l -> l = snapshot vma) /\
    forall vma, is_Some (j_registered j' !! vma) <->
      is_Some (j_registered j !! vma) \/ vma ∈ (fun r => Entry_vma (er_entry r)) <$> entries.
Proof.
  intros Hm Hi Hreg Hv. revert j Hreg. induction Hv as [|r entries Hr _ IH]; intros j Hreg.
  { exists j. split_and!; try done. intros vma. cbn. rewrite elem_of_nil. tauto. }
  cbn [snapshot_all]. unfold snapshot_patch_point. set (vma := Entry_vma (er_entry r)) in *.
  destruct (j_registered j !! vma) as [l|] eqn:El.
  - cbn [mbind outcome_bind mret outcome_ret]. destruct (IH j Hreg) as (j' & E & Hc & Hr' & Hd).
    exists j'. split_and!; [done|done|done|]. intros u. rewrite Hd, fmap_cons, elem_of_cons. fold vma.
    split; [tauto|]. intros [?|[->|?]]; auto.
  - unfold PatchableLocation_new. rewrite Nat.eqb_refl. cbn [assert_that mbind outcome_bind mret outcome_ret].
    unfold copy_default_from_addr. cbn [pl_addr pl_size].
    assert (Hread : is_readable_mem_range (p_maps p) vma PP_SIZE = true).
    { apply List.forallb_forall. intros i Hin%List.in_seq. apply Hi, Hr. lia. }
    rewrite Hread. cbn [mbind outcome_bind mret outcome_ret].
    assert (Es : read_mem (p_mem p) vma PP_SIZE = read_mem M0 vma PP_SIZE) by (apply read_mem_ext; intros; apply Hm).
    rewrite Es. edestruct (IH (mk_jit (j_code_cache j) (<[vma := snapshot vma]> (j_registered j)))) as (j' & E & Hc & Hr' & Hd).
    { cbn. intros u l. destruct (decide (u = vma)) as [->|Hne]; [rewrite lookup_insert_eq; congruence|].
      rewrite lookup_insert_ne by done. apply Hreg. }
    exists j'. split_and!; [exact E|done|done|]. intros u. rewrite Hd, fmap_cons, elem_of_cons. fold vma. cbn [j_registered].
    destruct (decide (u = vma)) as [->|Hne].
    + rewrite lookup_insert_eq. split; [by auto|]. by left; eexists.
    + rewrite lookup_insert_ne by done. tauto.
Qed.

(** ** Code in the cache *)

(** The functions of [code] are in the first [used] bytes of the cache. *)
Definition code_in (m : memory) (used : nat) (code : gmap Z (list instr)) : Prop :=
  forall v asm, code !! v = Some asm -> exists bs, assembled ks_asm asm bs /\ (0 < length bs)%nat /\ B <= v /\
    v + Z.of_nat (length bs) <= B + Z.of_nat used /\ read_mem m v (length bs) = bs.

Record loop (code : gmap Z (list instr)) (used : nat) (j : Jit) (p : Process) : Prop := {
  lo_cache : j_code_cache j = mk_code_cache B N (B + Z.of_nat used) (N - used);
  lo_used : (used <= N)%nat;
  lo_maps : maps_inv maps0 (p_maps p);
  lo_code : code_in (p_mem p) used code;
}.

(** What a step of the installation leaves as it is. *)
Record kept (j : Jit) (p : Process) (j' : Jit) (p' : Process) : Prop := {
  ke_registered : j_registered j' = j_registered j;
  ke_perms : perms_kept true (p_maps p) (p_maps p');
  ke_mem : forall x, ~ in_cache x -> p_mem p' x = p_mem p x;
}.

Lemma kept_refl j p : kept j p j p.
Proof. done. Qed.

Lemma kept_trans j p j1 p1 j2 p2 : kept j p j1 p1 -> kept j1 p1 j2 p2 -> kept j p j2 p2.
Proof.
  intros [] []. split; [congruence|by eapply perms_kept_trans|]. intros x Hx. rewrite <- ke_mem0 by done. auto.
Qed.

(** A function was placed at [v]. *)
Definition placed_at (code' : gmap Z (list instr)) (v : Z) (asm : list instr) : Prop := code' !! v = Some asm /\ fits 64 v.

Lemma Jit_allocate_Ret code used j p t :
  loop code used j p -> (used + 750 <= N)%nat -> emitted tracing_cb (stub_code t) -> ft_returns t = true ->
  exists f v code' used' j' p', Jit_allocate mprotect ks_asm j p t = Ret (f, j', p') /\ loop code' used' j' p' /\
    (used' <= used + 750)%nat /\ code ⊆ code' /\ fi_vma f = Some v /\ placed_at code' v (stub_code t) /\ kept j p j' p'.
Proof.
  intros [Hc Hu Hi Hcode] Hroom Hem Hret. destruct (emitted_assembled ks_asm tracing_cb _ Hem) as (bs & (text & Et & Eb) & Hl).
  unfold Jit_allocate, Jit_assemble, FunctionTemplate_assemble. rewrite Hret. fold (stub_code t). rewrite Et.
  cbn [mbind outcome_bind mret outcome_ret]. rewrite Eb. cbn [fmap option_fmap option_map unwrap mbind outcome_bind mret outcome_ret fst snd].
  unfold allocate_slot. rewrite Hc. cbn [cc_buffer cc_size cc_free cc_free_len].
  destruct (mark_spec mprotect maps0 true p B Hi cache_self) as (p1 & E1 & Hm1 & Hi1 & Hw1 & Hk1).
  unfold mark_enclosing_mapping_rwx. rewrite E1. cbn [mbind outcome_bind unwrap_result].
  unfold FunctionInstance_len. cbn [fi_machine_code]. destruct (Nat.ltb_spec (N - used) (length bs)); [lia|].
  cbn [mbind outcome_bind mret outcome_ret unwrap]. unfold write_safe, FunctionInstance_len. cbn [fi_machine_code fst snd].
  destruct (Nat.ltb_spec 0 (length bs)); [|lia]. rewrite Nat.leb_refl. cbn [assert_that mbind outcome_bind mret outcome_ret].
  rewrite poke_Ret.
  2: { intros i Hlt. apply Hw1. rewrite <- Z.add_assoc, <- Nat2Z.inj_add. apply Hcache. lia. }
  cbn [mbind outcome_bind mret outcome_ret fst snd fi_asm]. do 2 eexists.
  exists (<[B + Z.of_nat used := stub_code t]> code), (used + length bs)%nat. do 2 eexists. split; [reflexivity|].
  assert (Hnone : code !! (B + Z.of_nat used) = None).
  { destruct (code !! _) as [asm|] eqn:E; [|done]. destruct (Hcode _ _ E) as (bs' & _ & ? & _ & ? & _). lia. }
  split; [|split; [lia|split; [by apply insert_subseteq|split; [reflexivity|split]]]].
  - split; cbn [j_code_cache p_maps p_mem]; [f_equal; lia|lia|done|].
    intros v asm. destruct (decide (v = B + Z.of_nat used)) as [->|Hne].
    + rewrite lookup_insert_eq. intros [= <-]. exists bs. split; [by exists text|]. split_and!; [lia|lia|lia|apply read_write_mem].
    + rewrite lookup_insert_ne by done. intros Hv. destruct (Hcode v asm Hv) as (bs' & Ha & Hl' & Hv1 & Hv2 & Hr).
      exists bs'. split_and!; [done|done|done|lia|]. rewrite read_write_out by lia. by rewrite Hm1.
  - split; [apply lookup_insert_eq|]. unfold fits. destruct (co_fits Hcache). lia.
  - split; cbn [j_registered p_maps p_mem]; [done|auto|]. intros x Hx. rewrite write_mem_out by lia. by rewrite Hm1.
Qed.

(** ** Patch points *)

(** The patch point holds a call to [v], padded with [nop]. *)
Definition patched (m : memory) (vma v : Z) : Prop :=
  exists bs, assembled ks_asm (patch_code v) bs /\ read_mem m vma PP_SIZE = bs ++ replicate (PP_SIZE - length bs) 0x90.

Definition off_cache (vma : Z) : Prop := forall x, in_pp vma x -> ~ in_cache x.

Lemma read_mem_app m a n k : read_mem m a (n + k) = read_mem m a n ++ read_mem m (a + Z.of_nat n) k.
Proof.
  unfold read_mem. rewrite seq_app, fmap_app. f_equal. rewrite Nat.add_0_l, <- (Nat.add_0_r n) at 1.
  rewrite <- fmap_add_seq, <- list_fmap_compose. apply list_fmap_ext. intros i k' _. cbn. f_equal. lia.
Qed.

Lemma write_patch_point_Ret code used j p f v vma :
  loop code used j p -> fi_vma f = Some v -> fits 64 v -> off_cache vma ->
  (forall i, (i < PP_SIZE)%nat -> mem_writable (p_maps p) (vma + Z.of_nat i) = true) ->
  read_mem (p_mem p) vma PP_SIZE = NOP_PATTERN ->
  exists p', write_patch_point ks_asm p f vma = Ret p' /\ loop code used j p' /\ patched (p_mem p') vma v /\
    p_maps p' = p_maps p /\ forall x, ~ in_pp vma x -> p_mem p' x = p_mem p x.
Proof.
  intros [Hc Hu Hi Hcode] Hf Hv Hoff Hw Hnops.
  assert (Hem : emitted tracing_cb (patch_code v)) by constructor.
  destruct (emitted_assembled ks_asm tracing_cb _ Hem) as (bs & (text & Et & Eb) & Hl).
  pose proof (ks_call ks_asm tracing_cb v text bs Hv Et Eb) as Hlen.
  unfold write_patch_point, FunctionInstance_vma. rewrite Hf. cbn [unwrap mbind outcome_bind].
  change (gen_call v [] false None) with (Ret (mk_template (patch_code v) false)). cbn [mbind outcome_bind].
  unfold Jit_assemble, FunctionTemplate_assemble. cbn [ft_returns ft_asm_body]. rewrite Et. cbn [mbind outcome_bind mret outcome_ret].
  rewrite Eb. cbn [fmap option_fmap option_map unwrap mbind outcome_bind mret outcome_ret fst snd].
  unfold FunctionInstance_write, FunctionInstance_len. cbn [fi_machine_code fi_asm].
  destruct (Nat.leb_spec (length bs) PP_SIZE); [|lia]. destruct (Nat.ltb_spec 0 (length bs)); [|lia].
  cbn [assert_that mbind outcome_bind]. change 32%nat with PP_SIZE. rewrite Hnops, bool_decide_eq_true_2 by done.
  cbn [assert_that mbind outcome_bind]. rewrite poke_Ret by (rewrite length_replicate; exact Hw). cbn [mbind outcome_bind].
  rewrite poke_Ret by (cbn [p_maps]; intros i Hlt; apply Hw; lia). cbn [mbind outcome_bind mret outcome_ret snd p_mem p_maps].
  eexists. split; [reflexivity|].
  assert (Hout : forall x, ~ in_pp vma x -> write_mem (write_mem (p_mem p) vma (replicate PP_SIZE 0x90)) vma bs x = p_mem p x).
  { intros x Hx. unfold in_pp in Hx. assert (Z.of_nat PP_SIZE = PATCH_POINT_SIZE) by done.
    rewrite !write_mem_out; [done|rewrite ?length_replicate; lia..]. }
  split; [|split; [|split; [done|exact Hout]]].
  - split; [done|done|done|]. cbn [p_mem]. intros u asm Hasm. destruct (Hcode u asm Hasm) as (bs' & Ha & Hl' & Hv1 & Hv2 & Hr).
    exists bs'. split_and!; [done|done|done|done|]. rewrite <- Hr at 2. apply read_mem_ext. intros i Hlt. apply Hout.
    intros Hin. apply (Hoff _ Hin). lia.
  - exists bs. split; [by exists text|]. cbn [p_mem]. set (m' := write_mem _ vma bs).
    transitivity (read_mem m' vma (length bs + (PP_SIZE - length bs))); [f_equal; lia|]. unfold m'.
    rewrite read_mem_app, read_write_mem. f_equal. rewrite read_write_out by lia. apply list_eq. intros i.
    destruct (decide (i < PP_SIZE - length bs)%nat) as [Hlt|Hge].
    + rewrite read_mem_lookup, lookup_replicate_2 by done. f_equal. rewrite <- Z.add_assoc, <- Nat2Z.inj_add.
      apply write_mem_in, lookup_replicate_2. lia.
    + rewrite !lookup_ge_None_2; [done|rewrite length_replicate; lia|rewrite read_mem_length; lia].
Qed.

(** ** One entry *)

Record supported (r : EntryRef) : Prop := {
  su_pp : pp_ok (Entry_vma (er_entry r));
  su_off : off_cache (Entry_vma (er_entry r));
  su_nops : read_mem M0 (Entry_vma (er_entry r)) PP_SIZE = NOP_PATTERN;
  su_used : Entry_is_flag_set (er_entry r) Flag_TracingEnabled || (0 <? Entry_msk_len (er_entry r))%nat = true;
  su_stub : (0 < Entry_msk_len (er_entry r))%nat ->
    exists s, gen_mutation (er_entry r) (er_ptr r) = Ret s /\ forall t, s = Ok t -> spill_gpr (er_entry r);
}.

(** The functions an entry needs, [None] when the JIT refuses its mask. *)
Definition mutation_stubs (r : EntryRef) : option (list (list instr)) :=
  if (0 <? Entry_msk_len (er_entry r))%nat
  then match gen_mutation (er_entry r) (er_ptr r) with Ret (Ok t) => Some [stub_code t] | _ => None end
  else Some [].

Definition tracing_stubs (r : EntryRef) : list (list instr) :=
  if Entry_is_flag_set (er_entry r) Flag_TracingEnabled
  then match gen_call tracing_cb [Arg_Constant (Entry_id (er_entry r))] true (Some GENERAL_PURPOSE_REGISTERS) with
       | Ret t => [stub_code t] | Panic => [] end
  else [].

Definition entry_stubs (r : EntryRef) : option (list (list instr)) :=
  (fun l => l ++ tracing_stubs r) <$> mutation_stubs r.

(** The patch point of an entry calls the functions of the entry, through a multiplexer
    when there are two; it is unchanged when the JIT refuses the mask. *)
Definition installed (code : gmap Z (list instr)) (m : memory) (r : EntryRef) : Prop :=
  match entry_stubs r with
  | None => read_mem m (Entry_vma (er_entry r)) PP_SIZE = NOP_PATTERN
  | Some stubs => exists vs v, Forall2 (placed_at code) vs stubs /\ patched m (Entry_vma (er_entry r)) v /\
      match vs with [v1] => v = v1 | _ => placed_at code v ((vs ≫= call_block) ++ [RetI]) end
  end.

Lemma placed_at_mono code code' v asm : code ⊆ code' -> placed_at code v asm -> placed_at code' v asm.
Proof. intros Hs [Hv Hf]. split; [by eapply lookup_weaken|done]. Qed.

Lemma installed_mono code code' m m' r :
  code ⊆ code' -> read_mem m' (Entry_vma (er_entry r)) PP_SIZE = read_mem m (Entry_vma (er_entry r)) PP_SIZE ->
  installed code m r -> installed code' m' r.
Proof.
  intros Hs Hr. unfold installed. destruct (entry_stubs r); [|congruence]. intros (vs & v & Hvs & Hpa & Hv).
  exists vs, v. split; [|split].
  - eapply Forall2_impl; [exact Hvs|]. intros. by eapply placed_at_mono.
  - destruct Hpa as (bs & ? & ?). exists bs. split; [done|congruence].
  - destruct vs as [|? [|]]; [|done|]; by eapply placed_at_mono.
Qed.

Lemma mutation_callables_Ret code used j p r :
  supported r -> loop code used j p -> (used + 750 <= N)%nat ->
  exists o code' used' j' p', mutation_callables mprotect ks_asm j p r = Ret (o, j', p') /\ loop code' used' j' p' /\
    (used' <= used + 750)%nat /\ code ⊆ code' /\ kept j p j' p' /\
    match mutation_stubs r, o with
    | None, None => True
    | Some stubs, Some fs => exists vs, Forall2 (fun f v => fi_vma f = Some v) fs vs /\ Forall2 (placed_at code') vs stubs
    | _, _ => False
    end.
Proof.
  intros Hsu Hlo Hroom. unfold mutation_callables, mutation_stubs. destruct (Nat.ltb_spec 0 (Entry_msk_len (er_entry r))) as [Hlt|Hge].
  - destruct (su_stub r Hsu Hlt) as ([t|[msg]] & E & Hsp); rewrite E; cbn [mbind outcome_bind].
    + assert (Ht : ft_returns t = true).
      { destruct (gen_mutation_Ok _ _ _ E) as (? & ? & ? & ? & ? & _ & _ & _ & _ & _ & _ & _ & ->). done. }
      destruct (Jit_allocate_Ret code used j p t Hlo Hroom) as (f & v & code' & used' & j' & p' & Ea & Hlo' & Hu & Hs & Hf & Hv & Hk);
        [econstructor; [by eapply Hsp|exact E]|done|].
      rewrite Ea. cbn [mbind outcome_bind mret outcome_ret fst snd]. do 5 eexists. split; [reflexivity|].
      split_and!; [done|done|done|done|]. exists [v]. by rewrite !Forall2_cons, !Forall2_nil.
    + cbn [mret outcome_ret]. do 5 eexists. split; [reflexivity|]. split_and!; [done|lia|done|apply kept_refl|done].
  - do 5 eexists. split; [reflexivity|]. split_and!; [done|lia|done|apply kept_refl|]. exists []. by rewrite !Forall2_nil.
Qed.

Lemma tracing_callables_Ret code used j p tm r :
  loop code used j p -> (used + 750 <= N)%nat ->
  exists fs vs code' used' j' p', tracing_callables mprotect ks_asm tracing_cb j p tm r
      = Ret (fs, j', p', if Entry_is_flag_set (er_entry r) Flag_TracingEnabled then alloc_slot tm (Entry_id (er_entry r)) else tm) /\
    loop code' used' j' p' /\ (used' <= used + 750)%nat /\ code ⊆ code' /\ kept j p j' p' /\
    Forall2 (fun f v => fi_vma f = Some v) fs vs /\ Forall2 (placed_at code') vs (tracing_stubs r).
Proof.
  intros Hlo Hroom. unfold tracing_callables, tracing_stubs. destruct (Entry_is_flag_set _ _).
  - destruct (gen_call _ _ _ _) as [t|] eqn:E; [|done]. cbn [mbind outcome_bind].
    destruct (Jit_allocate_Ret code used j p t Hlo Hroom) as (f & v & code' & used' & j' & p' & Ea & Hlo' & Hu & Hs & Hf & Hv & Hk);
      [by econstructor|by vm_compute in E; injection E as <-|].
    rewrite Ea. cbn [mbind outcome_bind mret outcome_ret fst snd]. exists [f], [v]. do 4 eexists. split; [reflexivity|].
    split_and!; [done|done|done|done|by rewrite Forall2_cons, Forall2_nil|by rewrite Forall2_cons, Forall2_nil].
  - exists [], []. do 4 eexists. split; [reflexivity|]. split_and!; [done|lia|done|apply kept_refl|by constructor|by constructor].
Qed.

Lemma install_Ret code used j p fs vs stubs vma :
  loop code used j p -> (used + 750 <= N)%nat -> off_cache vma ->
  (forall i, (i < PP_SIZE)%nat -> mem_writable (p_maps p) (vma + Z.of_nat i) = true) ->
  read_mem (p_mem p) vma PP_SIZE = NOP_PATTERN ->
  Forall2 (fun f v => fi_vma f = Some v) fs vs -> Forall2 (placed_at code) vs stubs -> length stubs ∈ [1; 2]%nat ->
  exists code' used' j' p' v, install mprotect ks_asm j p fs vma = Ret (j', p') /\ loop code' used' j' p' /\
    (used' <= used + 750)%nat /\ code ⊆ code' /\ j_registered j' = j_registered j /\
    perms_kept true (p_maps p) (p_maps p') /\
    (forall x, ~ in_cache x -> ~ in_pp vma x -> p_mem p' x = p_mem p x) /\
    Forall2 (placed_at code') vs stubs /\ patched (p_mem p') vma v /\
    match vs with [v1] => v = v1 | _ => placed_at code' v ((vs ≫= call_block) ++ [RetI]) end.
Proof.
  intros Hlo Hroom Hoff Hw Hnops Hfs Hvs Hlen.
  destruct Hvs as [|v1 asm1 vs stubs Hv1 Hvs]; [cbn in Hlen; set_unfold in Hlen; lia|].
  destruct Hvs as [|v2 asm2 vs stubs Hv2 Hvs].
  - inversion Hfs as [|f1 ? fs' ? Hf1 Hfs']; subst. inversion Hfs'; subst. cbn [install].
    destruct (write_patch_point_Ret code used j p f1 v1 vma Hlo Hf1 (proj2 Hv1) Hoff Hw Hnops) as (p' & E & Hlo' & Hp & Hm & Hx).
    rewrite E. cbn [mbind outcome_bind mret outcome_ret]. exists code, used, j, p', v1. split; [done|].
    split_and!; [done|lia|done|done|by rewrite Hm|by auto|by rewrite Forall2_cons, Forall2_nil|done|done].
  - destruct Hvs; [|cbn in Hlen; set_unfold in Hlen; lia].
    inversion Hfs as [|f1 ? fs' ? Hf1 Hfs']; subst. inversion Hfs' as [|f2 ? fs'' ? Hf2 Hfs'']; subst. inversion Hfs''; subst.
    cbn [install]. unfold gen_call_multiplexer. cbn [length Nat.ltb Nat.leb assert_that mbind outcome_bind mapM].
    unfold FunctionInstance_vma. rewrite Hf1, Hf2. cbn [unwrap mbind outcome_bind mret outcome_ret].
    set (t := mk_template _ true).
    destruct (Jit_allocate_Ret code used j p t Hlo Hroom) as (f & v & code' & used' & j' & p1 & Ea & Hlo' & Hu & Hs & Hf & Hv & Hk);
      [exact (emitted_mux tracing_cb v1 v2)|done|].
    rewrite Ea. cbn [mbind outcome_bind]. destruct Hk as [Hk1 Hk2 Hk3].
    destruct (write_patch_point_Ret code' used' j' p1 f v vma Hlo' Hf (proj2 Hv) Hoff) as (p' & E & Hlo2 & Hp & Hm & Hx).
    { intros i Hlt. by apply (pk_write _ _ _ Hk2), Hw. }
    { rewrite <- Hnops. apply read_mem_ext. intros i Hlt. apply Hk3, Hoff.
      change (Z.of_nat PP_SIZE) with PATCH_POINT_SIZE in Hlt. unfold in_pp. lia. }
    rewrite E. cbn [mbind outcome_bind mret outcome_ret]. exists code', used', j', p', v. split; [done|].
    split_and!; [done|lia|done|done|by rewrite Hm| | |done|done].
    + intros x Hx1 Hx2. rewrite Hx by done. auto.
    + rewrite !Forall2_cons, Forall2_nil. eauto using placed_at_mono.
Qed.

Lemma entry_stubs_length r stubs :
  supported r -> entry_stubs r = Some stubs -> length stubs ∈ [1; 2]%nat.
Proof.
  intros Hsu. unfold entry_stubs, mutation_stubs, tracing_stubs. pose proof (su_used r Hsu) as Hu.
  destruct (Entry_is_flag_set _ _), (0 <? _)%nat; try done;
    repeat (case_match; try done); intros [= <-]; cbn [length app]; set_solver.
Qed.

Definition tm_after (tm : TraceMap) (r : EntryRef) : TraceMap :=
  if Entry_is_flag_set (er_entry r) Flag_TracingEnabled && bool_decide (is_Some (entry_stubs r))
  then alloc_slot tm (Entry_id (er_entry r)) else tm.

Lemma sync_entry_Ret code used j p tm r :
  supported r -> loop code used j p -> (used + 2250 <= N)%nat ->
  (forall i, (i < PP_SIZE)%nat -> mem_writable (p_maps p) (Entry_vma (er_entry r) + Z.of_nat i) = true) ->
  read_mem (p_mem p) (Entry_vma (er_entry r)) PP_SIZE = NOP_PATTERN ->
  exists code' used' j' p', sync_entry mprotect ks_asm tracing_cb j p tm r = Ret (j', p', tm_after tm r) /\
    loop code' used' j' p' /\ (used' <= used + 2250)%nat /\ code ⊆ code' /\ j_registered j' = j_registered j /\
    perms_kept true (p_maps p) (p_maps p') /\
    (forall x, ~ in_cache x -> ~ in_pp (Entry_vma (er_entry r)) x -> p_mem p' x = p_mem p x) /\
    installed code' (p_mem p') r.
Proof.
  intros Hsu Hlo Hroom Hw Hnops. unfold sync_entry. rewrite (su_used r Hsu). cbn [assert_that mbind outcome_bind].
  destruct (mutation_callables_Ret code used j p r Hsu Hlo ltac:(lia))
    as (o & code1 & used1 & j1 & p1 & E1 & Hlo1 & Hu1 & Hs1 & [Hk1 Hk2 Hk3] & Ho).
  rewrite E1. cbn [mbind outcome_bind]. unfold installed, tm_after, entry_stubs.
  assert (Hnops1 : read_mem (p_mem p1) (Entry_vma (er_entry r)) PP_SIZE = NOP_PATTERN).
  { rewrite <- Hnops. apply read_mem_ext. intros i Hlt. apply Hk3, (su_off r Hsu).
    change (Z.of_nat PP_SIZE) with PATCH_POINT_SIZE in Hlt. unfold in_pp. lia. }
  destruct (mutation_stubs r) as [stubs|] eqn:Est, o as [fs|]; try done; cbn [fmap option_fmap option_map].
  2: { rewrite bool_decide_eq_false_2 by (by intros [? ?]). rewrite andb_false_r. do 4 eexists. split; [reflexivity|].
       split_and!; [done|lia|done|done|done|by auto|done]. }
  rewrite bool_decide_eq_true_2 by (by eexists). rewrite andb_true_r. destruct Ho as (vs & Hfs & Hvs).
  destruct (tracing_callables_Ret code1 used1 j1 p1 tm r Hlo1 ltac:(lia))
    as (fs2 & vs2 & code2 & used2 & j2 & p2 & E2 & Hlo2 & Hu2 & Hs2 & [Hl1 Hl2 Hl3] & Hfs2 & Hvs2).
  rewrite E2. cbn [mbind outcome_bind].
  assert (Hvs12 : Forall2 (placed_at code2) (vs ++ vs2) (stubs ++ tracing_stubs r)).
  { apply Forall2_app; [|done]. eapply Forall2_impl; [exact Hvs|]. intros. by eapply placed_at_mono. }
  destruct (install_Ret code2 used2 j2 p2 (fs ++ fs2) (vs ++ vs2) (stubs ++ tracing_stubs r) (Entry_vma (er_entry r)) Hlo2)
    as (code3 & used3 & j3 & p3 & v & E3 & Hlo3 & Hu3 & Hs3 & Hr3 & Hw3 & Hx3 & Hv3 & Hp3 & Hv).
  { lia. } { apply Hsu. } { intros i Hlt. by apply (pk_write _ _ _ Hl2), (pk_write _ _ _ Hk2), Hw. }
  { rewrite <- Hnops1. apply read_mem_ext. intros i Hlt. apply Hl3, (su_off r Hsu).
    change (Z.of_nat PP_SIZE) with PATCH_POINT_SIZE in Hlt. unfold in_pp. lia. }
  { by apply Forall2_app. } { done. }
  { apply (entry_stubs_length r); [done|]. unfold entry_stubs. by rewrite Est. }
  rewrite E3. cbn [mbind outcome_bind mret outcome_ret fst snd]. do 4 eexists. split; [reflexivity|].
  split_and!; [done|lia|by etrans; [|etrans]; eauto|congruence|by eauto using perms_kept_trans| |by exists (vs ++ vs2), v].
  intros x Hx1 Hx2. rewrite Hx3, Hl3 by done. auto.
Qed.

(** ** All entries *)

(** Patch points do not overlap. *)
Definition apart (es : list EntryRef) : Prop :=
  forall i k r r' x, es !! i = Some r -> es !! k = Some r' ->
    in_pp (Entry_vma (er_entry r)) x -> in_pp (Entry_vma (er_entry r')) x -> i = k.

Lemma apart_cons r es : apart (r :: es) ->
  apart es /\ forall r' x, r' ∈ es -> in_pp (Entry_vma (er_entry r)) x -> ~ in_pp (Entry_vma (er_entry r')) x.
Proof.
  intros Ha. split.
  - intros i k r1 r2 x H1' H2' Hx Hx'. specialize (Ha (S i) (S k) r1 r2 x H1' H2' Hx Hx'). lia.
  - intros r' x [k Hk]%list_elem_of_lookup Hx Hx'. specialize (Ha 0%nat (S k) r r' x eq_refl Hk Hx Hx'). lia.
Qed.

Lemma pp_range vma i : 0 <= i < Z.of_nat PP_SIZE -> in_pp vma (vma + i).
Proof. change (Z.of_nat PP_SIZE) with PATCH_POINT_SIZE. unfold in_pp. lia. Qed.

Lemma sync_entries_Ret es code used j p tm :
  Forall supported es -> apart es -> loop code used j p -> (used + 2250 * length es <= N)%nat ->
  (forall r i, r ∈ es -> (i < PP_SIZE)%nat -> mem_writable (p_maps p) (Entry_vma (er_entry r) + Z.of_nat i) = true) ->
  (forall r, r ∈ es -> read_mem (p_mem p) (Entry_vma (er_entry r)) PP_SIZE = NOP_PATTERN) ->
  exists code' used' j' p', sync_entries mprotect ks_asm tracing_cb j p tm es = Ret (j', p', foldl tm_after tm es) /\
    loop code' used' j' p' /\ code ⊆ code' /\ j_registered j' = j_registered j /\
    perms_kept true (p_maps p) (p_maps p') /\
    (forall x, ~ in_cache x -> (forall r, r ∈ es -> ~ in_pp (Entry_vma (er_entry r)) x) -> p_mem p' x = p_mem p x) /\
    forall r, r ∈ es -> installed code' (p_mem p') r.
Proof.
  intros Hsu. revert code used j p tm. induction Hsu as [|r es Hr Hsu IH]; intros code used j p tm Hap Hlo Hroom Hw Hn.
  { do 4 eexists. split; [reflexivity|]. split_and!; [done|done|done|done|done|]. by intros r ?%elem_of_nil. }
  cbn [length] in Hroom. destruct (apart_cons r es Hap) as [Hap' Hhd].
  destruct (sync_entry_Ret code used j p tm r Hr Hlo) as (code1 & used1 & j1 & p1 & E1 & Hlo1 & Hu1 & Hs1 & Hr1 & Hw1 & Hx1 & Hi1).
  { lia. } { intros i Hlt. apply Hw; [by left|done]. } { apply Hn. by left. }
  cbn [sync_entries]. rewrite E1. cbn [mbind outcome_bind fst snd foldl].
  destruct (IH code1 used1 j1 p1 (tm_after tm r)) as (code2 & used2 & j2 & p2 & E2 & Hlo2 & Hs2 & Hr2 & Hw2 & Hx2 & Hi2); [done|done|lia| | |].
  { intros r' i Hin Hlt. apply (pk_write _ _ _ Hw1), Hw; [by right|done]. }
  { intros r' Hin. rewrite <- (Hn r') by (by right). apply read_mem_ext. intros i Hlt. rewrite Forall_forall in Hsu.
    apply Hx1; [by apply (su_off r' (Hsu r' Hin)), pp_range|]. intros Hx. exact (Hhd r' _ Hin Hx (pp_range _ _ Hlt)). }
  exists code2, used2, j2, p2. split; [done|]. split_and!; [done|by etrans|congruence|by eapply perms_kept_trans| |].
  - intros x Hx Hno. rewrite Hx2; [apply Hx1; [done|apply Hno; by left]|done|]. intros r' Hin. apply Hno. by right.
  - intros r' [->|Hin]%elem_of_cons; [|by auto]. eapply installed_mono; [exact Hs2| |exact Hi1].
    apply read_mem_ext. intros i Hlt. apply Hx2; [by apply (su_off r Hr), pp_range|].
    intros r' Hin. exact (Hhd r' _ Hin (pp_range _ _ Hlt)).
Qed.

Record cache_supported (es : list EntryRef) : Prop := {
  cs_entries : Forall supported es;
  cs_apart : apart es;
  cs_room : (2250 * length es <= N)%nat;
}.

Lemma apart_size es : apart es ->
  size (list_to_set ((fun r => Entry_vma (er_entry r)) <$> es) : gset Z) = length es.
Proof.
  induction es as [|r es IH]; intros Hap; [done|]. destruct (apart_cons r es Hap) as [Hap' Hhd].
  rewrite fmap_cons, list_to_set_cons, size_union, size_singleton, IH; [done|done|].
  apply disjoint_singleton_l. rewrite elem_of_list_to_set, list_elem_of_fmap. intros (r' & E & Hin).
  apply (Hhd r' (Entry_vma (er_entry r)) Hin); [|rewrite <- E]; unfold in_pp, PATCH_POINT_SIZE; lia.
Qed.

(** ** The whole message *)

Context `{CL : ContentLayout} (cache_data : Z) (Hmaps0 : maps_wf maps0).

Abbreviation entries_of a := (enabled_refs cache_data (ag_mutation_cache a)).

(** After a successful synchronisation. *)
Record synced (a a' : Agent) (code : gmap Z (list instr)) : Prop := {
  sy_cache : ag_mutation_cache a' = ag_mutation_cache a;
  sy_inv : jit_inv (ag_jit a') (ag_process a');
  sy_code : code_in (p_mem (ag_process a')) N code;
  sy_installed : forall r, r ∈ entries_of a -> installed code (p_mem (ag_process a')) r;
  sy_frame : forall x, ~ in_cache x -> (forall r, r ∈ entries_of a -> ~ in_pp (Entry_vma (er_entry r)) x) ->
    p_mem (ag_process a') x = M0 x;
  sy_protected : forall x, in_cache x \/ (exists r, r ∈ entries_of a /\ in_pp (Entry_vma (er_entry r)) x) ->
    read_exec (p_maps (ag_process a')) x;
  sy_trace_map : ag_trace_map a' = foldl tm_after TraceMap_new (entries_of a);
}.

Lemma code_in_weaken m used used' code : (used <= used')%nat -> code_in m used code -> code_in m used' code.
Proof. intros Hle Hc v asm Hv. destruct (Hc v asm Hv) as (bs & ? & ? & ? & ? & ?). exists bs. split_and!; (done || lia). Qed.

Lemma sync_mutations_Ret um a :
  jit_inv (ag_jit a) (ag_process a) -> cache_supported (entries_of a) -> (exists tm, reset um (ag_trace_map a) = Ret tm) ->
  exists a' code, sync_mutations mprotect ks_asm cache_data tracing_cb um a = Ret a' /\ synced a a' code.
Proof.
  intros Hinv Hsup [tm Etm]. unfold sync_mutations. pose proof Hsup as [Hen Hap Hroom].
  set (es := enabled_refs cache_data (ag_mutation_cache a)) in *. rewrite (apart_size es Hap), Nat.eqb_refl.
  cbn [assert_that mbind outcome_bind].
  destruct (Jit_reset_Ret _ _ Hinv) as (p1 & E1 & Hm1 & Hi1 & Ho1). rewrite E1. cbn [mbind outcome_bind].
  rewrite Etm. cbn [mbind outcome_bind].
  assert (tm = TraceMap_new) as ->.
  { unfold reset in Etm. destruct (match tm_data _ with Some _ => _ | None => _ end); [|done]. by injection Etm as <-. }
  assert (Hpp : Forall (fun r => pp_ok (Entry_vma (er_entry r))) es) by (eapply Forall_impl; [exact Hen|]; by intros r []).
  assert (Hself : Forall (fun v => same_mapping maps0 v v) ((fun r => Entry_vma (er_entry r)) <$> es)).
  { apply Forall_fmap. eapply Forall_impl; [exact Hpp|]. intros r. apply pp_self. }
  rewrite Forall_forall in Hpp. destruct (mark_all_Ret true _ p1 Hi1 Hself) as (p2 & E2 & Hm2 & Hi2 & Hw2 & Hk2). rewrite E2.
  cbn [mbind outcome_bind]. assert (Hm2' : forall x, p_mem p2 x = M0 x) by (intros; by rewrite Hm2).
  destruct (snapshot_all_Ret es (mk_jit (mk_code_cache B N B N) ∅) p2 Hm2' Hi2) as (j3 & E3 & Hc3 & Hr3 & Hd3).
  { cbn [j_registered]. by intros ? ? ?%lookup_empty_Some. } { by apply Forall_forall. }
  rewrite E3. cbn [mbind outcome_bind].
  assert (Hlo : loop ∅ 0 j3 p2).
  { split; [rewrite Hc3; cbn; f_equal; lia|lia|done|]. by intros ? ? ?%lookup_empty_Some. }
  destruct (sync_entries_Ret es ∅ 0 j3 p2 TraceMap_new Hen Hap Hlo) as (code & used & j4 & p4 & E4 & Hlo4 & _ & Hr4 & Hk4 & Hx4 & Hi4).
  { lia. }
  { intros r i Hin Hlt. eapply Hw2; [by apply (list_elem_of_fmap_2 (fun r => Entry_vma (er_entry r)))|by apply Hpp]. }
  { intros r Hin. rewrite Forall_forall in Hen. rewrite <- (su_nops r (Hen r Hin)). apply read_mem_ext. intros. apply Hm2'. }
  rewrite E4. cbn [mbind outcome_bind]. destruct Hlo4 as [Hc4 Hu4 Hi4' Hcode4]. unfold mark_mappings_rx, make_rx. rewrite Hc4.
  cbn [cc_buffer]. destruct (mark_Ret false p4 B Hi4' cache_self) as (p5 & E5 & Hm5 & Hi5 & Hw5 & Hk5).
  unfold mark_enclosing_mapping_rx. rewrite E5. cbn [mbind outcome_bind].
  destruct (mark_all_Ret false _ p5 Hi5 Hself) as (p6 & E6 & Hm6 & Hi6 & Hw6 & Hk6). rewrite E6.
  cbn [mbind outcome_bind mret outcome_ret]. eexists _, code. split; [reflexivity|].
  assert (Hm64 : p_mem p6 = p_mem p4) by congruence.
  assert (Hframe : forall x, ~ in_cache x -> (forall r, r ∈ es -> ~ in_pp (Entry_vma (er_entry r)) x) -> p_mem p6 x = M0 x).
  { intros x Hx Hno. rewrite Hm64, Hx4 by done. apply Hm2'. }
  split; cbn [ag_mutation_cache ag_jit ag_process ag_trace_map]; [done| | |by rewrite Hm64|done| |done].
  - split; [by rewrite Hc4|by rewrite Hc4| | |done].
    + rewrite Hr4. intros vma l Hl. split; [by apply Hr3|]. destruct (proj1 (Hd3 vma)) as [[? Hnone]|Hin]; [by eexists|by cbn in Hnone; rewrite lookup_empty in Hnone|].
      apply list_elem_of_fmap in Hin as (r & -> & Hin). by apply Hpp.
    + intros x Hx Hno. apply Hframe; [done|]. intros r Hin. apply Hno. rewrite Hr4. apply Hd3. right. by apply (list_elem_of_fmap_2 (fun r => Entry_vma (er_entry r))).
  - rewrite Hm64. by eapply code_in_weaken.
  - assert (Ho : forall x, opened (p_maps p2) x -> opened (p_maps p6) x).
    { intros x Hx. by apply (pk_opened _ _ _ Hk6), (pk_opened _ _ _ Hk5), (pk_opened _ _ _ Hk4). }
    intros x [Hx|(r & Hin & Hx)].
    + apply opened_closed; [by apply Ho, (pk_opened _ _ _ Hk2), Ho1|]. by apply (pk_write _ _ _ Hk6), Hw5, in_cache_mapped.
    + pose proof (in_pp_mapped _ x (Hpp r Hin) Hx) as Hs. pose proof (list_elem_of_fmap_2 (fun r => Entry_vma (er_entry r)) _ _ Hin) as Hv.
      apply opened_closed; [|by eapply Hw6]. apply Ho. left. by eapply Hw2.
Qed.

(** The states of the agent: the scheduler writes the shared cache and sends messages. *)
Inductive reaches : Agent -> Prop :=
| reach_start mc : reaches (mk_agent mc (mk_jit (mk_code_cache B N B N) ∅) (mk_process M0 maps0) TraceMap_new)
| reach_cache a mc : reaches a -> reaches (mk_agent mc (ag_jit a) (ag_process a) (ag_trace_map a))
| reach_message um mm child a msg a' out :
    reaches a -> (forall m, msg = RM_SyncMutations m -> cache_supported (entries_of a)) ->
    process_message mprotect ks_asm cache_data tracing_cb um mm child a msg = Ret (a', out) -> reaches a'.

Lemma reaches_inv a : reaches a -> jit_inv (ag_jit a) (ag_process a).
Proof.
  induction 1 as [mc|a mc _ IH|um mm child a msg a' out _ IH Hsup E].
  - split; cbn; try done.
  - done.
  - destruct msg; try done; cbn [process_message] in E.
    + unfold run in E. repeat (case_match; simplify_eq/=; try done).
      destruct (finalize mm _); [|done]. cbn [mbind outcome_bind] in E.
      destruct (status_exit_code _); [|done]. cbn [mbind outcome_bind] in E.
      destruct (postprocess_trace_map _); [|done]. by injection E as <- _.
    + assert (Htm : exists tm, reset um (ag_trace_map a) = Ret tm).
      { unfold sync_mutations in E. destruct (assert_that _); [|done]. cbn [mbind outcome_bind] in E.
        destruct (Jit_reset _ _ _) as [[]|]; [|done]. cbn [mbind outcome_bind] in E.
        destruct (reset um _); [by eexists|done]. }
      destruct (sync_mutations_Ret um a IH (Hsup _ eq_refl) Htm) as (a1 & code & E1 & Hs). rewrite E1 in E.
      injection E as <- _. apply Hs.
Qed.
End process.
