(* ===== verification/AgentTheorems.v ===== *)
(** * The agent, end to end

    The synchronisation of the agent with the cache of the scheduler and the
    execution of the patch points it installs. *)

From S2P Require Import Prelude Bytes MutationCacheEntry MutationCacheContent MutationCache Messages Trace MutationSite Dwarf X86 Jit JitStub JitPatch Agent AgentSync.

Section theorems.
Context `{L : EntryLayout} `{CL : ContentLayout} `{!StackMapRecords} `{!StubLayout}.
Context (mprotect : list MapRange -> Z -> Z -> PermsConfig -> option (list MapRange)) `{!MprotectLaws mprotect}.
Context (ks_asm : string -> option (list Z)) (tracing_cb cache_data : Z) `{!AssemblerLaws ks_asm tracing_cb}.
Context (M0 : memory) (maps0 : list MapRange) (B : Z) (N : nat).
Context (Hcache : cache_ok M0 maps0 B N) (Hmaps0 : maps_wf maps0).

Abbreviation reached a := (reaches mprotect ks_asm tracing_cb M0 maps0 B N cache_data a).
Abbreviation entries_of a := (enabled_refs cache_data (ag_mutation_cache a)).

Lemma reset_true tm : exists tm', reset true tm = Ret tm'.
Proof. unfold reset. destruct (tm_data tm); by eexists. Qed.

(** C4: what [sync_mutations] installs.  From every state the agent reaches by messages and
    changes of the shared cache, for a cache of entries the JIT supports, the
    synchronisation succeeds.  Each enabled entry has its own functions in the code
    cache and a call to them in its patch point, and entries the JIT refuses keep
    their patch point.  Every other byte of the program is the original one, whatever
    was installed before; the code cache and the patch points are readable, executable and
    not writable; exactly the traced entries have a slot in the trace map. *)
Theorem sync_installs a :
  reached a -> cache_supported M0 maps0 B N (entries_of a) ->
  exists a' code, sync_mutations mprotect ks_asm cache_data tracing_cb true a = Ret a' /\
    synced ks_asm tracing_cb M0 maps0 B N cache_data a a' code.
Proof.
  intros Ha Hsup. apply sync_mutations_Ret; [done..|by eapply reaches_inv|done|apply reset_true].
Qed.

(** C5: an installed patch point at run time.  After a synchronisation, the patch point of an
    enabled entry with a mask and tracing contains the assembled call to a function
    [v].  Executing this call, with the code the agent placed in its cache, xors the
    value with the next bits of the mask, advances the read position, reports the id of
    the entry to the tracing callback once, and returns with every general purpose
    register and all other memory above the stack pointer unchanged. *)
Theorem synced_patch_point a r t {W} (ra : Z) (lo hi : Z) (native : Z -> Machine W -> outcome (Machine W))
    (esz slot : Z) rs spill_reg c size kn report :
  reached a -> cache_supported M0 maps0 B N (entries_of a) ->
  r ∈ entries_of a -> Entry_is_flag_set (er_entry r) Flag_TracingEnabled = true ->
  fits 64 (Entry_id (er_entry r)) -> gen_mutation (er_entry r) (er_ptr r) = Ret (Ok t) ->
  fits 64 ra -> 0 <= lo -> hi < 2 ^ 64 ->
  site_ok lo hi (er_entry r) (er_ptr r) esz slot rs spill_reg c size ->
  exists a' code v, sync_mutations mprotect ks_asm cache_data tracing_cb true a = Ret a' /\
    patched ks_asm (p_mem (ag_process a')) (Entry_vma (er_entry r)) v /\
    code_in ks_asm B (p_mem (ag_process a')) N code /\
    (tracing_ok hi code native tracing_cb kn report ->
     forall st, at_call lo hi (mask_at (er_ptr r) c esz) (kn + 256) rs st ->
     exists st', exec ra (call_fn code native ra 3) (patch_code v) st = Ret (false, st') /\
       called lo gpr rs (apply_mask (er_ptr r) size c slot) (report (Entry_id (er_entry r))) st st').
Proof.
  intros Ha Hsup Hin Htr Hid Hgen Hra Hlo Hhi Hsite.
  destruct (sync_mutations_Ret mprotect ks_asm tracing_cb M0 maps0 B N Hcache cache_data true a) as (a' & code & E & Hs);
    [by eapply reaches_inv|done|apply reset_true|].
  pose proof (sy_installed _ _ _ _ _ _ _ _ _ _ Hs r Hin) as Hi. unfold installed, entry_stubs, mutation_stubs, tracing_stubs in Hi.
  destruct (Nat.ltb_spec 0 (Entry_msk_len (er_entry r))) as [Hlen|Hlen].
  2: { unfold gen_mutation in Hgen. destruct (Nat.ltb_spec 0 (Entry_msk_len (er_entry r))); [lia|done]. }
  rewrite Hgen, Htr in Hi. destruct (gen_call _ _ _ _) as [t_trace|] eqn:Et; [|done].
  destruct Hi as (vs & v & Hvs & Hp & Hv). inversion Hvs as [|v1 ? vs' ? [Hv1 Hf1] Hvs']; subst.
  inversion Hvs' as [|v2 ? ? ? [Hv2 Hf2] Hnil]; subst. inversion Hnil; subst. destruct Hv as [Hv Hf].
  exists a', code, v. split; [done|]. split; [done|]. split; [apply Hs|]. intros Htracing st Hst.
  eapply (patch_point_runs ra Hra lo hi Hlo Hhi code native (er_entry r) (er_ptr r) esz slot rs spill_reg c size kn
    (Entry_id (er_entry r)) tracing_cb v1 v2 v t t_trace (mk_template (call_block v1 ++ call_block v2) true)
    (mk_template (patch_code v) false)); try done.
Qed.
End theorems.

(** ** Witnesses *)

#[local] Existing Instance demo_stackmap.
#[local] Existing Instance demo_layout.
#[local] Existing Instance demo_content_layout.
#[local] Existing Instance demo_records.
#[local] Existing Instance demo_stub_layout.

(** Page protection that never merges mappings. *)
Definition demo_flags (p : PermsConfig) : string :=
  ((if is_read p then "r" else "-") +:+ (if is_write p then "w" else "-") +:+ (if is_exec p then "x" else "-") +:+ "p")%string.
Definition demo_protect (addr len : Z) (p : PermsConfig) (m : MapRange) : MapRange :=
  if (range_start m =? addr) && (range_end m =? addr + len)
  then mk_map_range (range_start m) (range_end m) (mr_offset m) (mr_dev m) (demo_flags p) (mr_inode m) (mr_pathname m) else m.
Definition demo_mprotect (maps : list MapRange) (addr len : Z) (p : PermsConfig) : option (list MapRange) :=
  Some (demo_protect addr len p <$> maps).

Lemma demo_protect_range addr len p m :
  range_start (demo_protect addr len p m) = range_start m /\ range_end (demo_protect addr len p m) = range_end m.
Proof. unfold demo_protect. by destruct (_ && _). Qed.

Lemma demo_protect_in addr len p x m : in_mapping x (demo_protect addr len p m) = in_mapping x m.
Proof. unfold in_mapping. by destruct (demo_protect_range addr len p m) as [-> ->]. Qed.

Lemma demo_protect_find addr len p x maps :
  get_enclosing_mapping (demo_protect addr len p <$> maps) x = demo_protect addr len p <$> get_enclosing_mapping maps x.
Proof.
  induction maps as [|m maps IH]; [done|]. unfold get_enclosing_mapping in *. cbn [fmap list_fmap List.find].
  rewrite demo_protect_in. by destruct (in_mapping x m).
Qed.

#[local] Instance demo_mprotect_laws : MprotectLaws demo_mprotect.
Proof.
  split. intros maps m perms [Hfl Hst Hen Hdis] Hin Hlt. eexists. split; [reflexivity|].
  set (f := demo_protect _ _ _).
  assert (Hcase : forall m' x, m' ∈ maps -> in_mapping x m' = true ->
            f m' = if in_mapping x m then f m else m').
  { intros m' x Hm' Hx. destruct (in_mapping x m) eqn:E; [by rewrite (Hdis m' m x)|]. unfold f, demo_protect.
    destruct ((range_start m' =? _) && _) eqn:E2; [|done]. unfold in_mapping in *. lia. }
  assert (Hm : f m = mk_map_range (range_start m) (range_end m) (mr_offset m) (mr_dev m) (demo_flags perms) (mr_inode m) (mr_pathname m)).
  { unfold f, demo_protect. rewrite Z.eqb_refl. replace (range_start m + _) with (range_end m) by lia. by rewrite Z.eqb_refl. }
  assert (Hlen : forall m', (3 <= String.length (mr_flags m') -> 3 <= String.length (mr_flags (f m')))%nat).
  { intros m' Hl. unfold f, demo_protect. destruct (_ && _); [destruct perms as [[] [] []]; apply Nat.leb_le; reflexivity|done]. }
  assert (Hrange : forall m', range_start (f m') = range_start m' /\ range_end (f m') = range_end m') by (intros; apply demo_protect_range).
  assert (Hperm : forall (perm : MapRange -> outcome bool) b x, perm (f m) = Ret b ->
            match get_enclosing_mapping (f <$> maps) x with Some m' => match perm m' with Ret b => b | Panic => false end | None => false end
            = if in_mapping x m then b
              else match get_enclosing_mapping maps x with Some m' => match perm m' with Ret b => b | Panic => false end | None => false end).
  { intros perm b x Hb. unfold f. rewrite demo_protect_find. fold f.
    destruct (get_enclosing_mapping maps x) as [m'|] eqn:E; cbn.
    - destruct (get_enclosing_Some _ _ _ E) as [Hm' Hx]. rewrite (Hcase m' x Hm' Hx). destruct (in_mapping x m); [by rewrite Hb|done].
    - destruct (in_mapping x m) eqn:E2; [|done]. pose proof (List.find_none _ _ E m) as Hno.
      rewrite Hno in E2; [done|by apply list_elem_of_In]. }
  split_and!.
  - split.
    + apply Forall_fmap. eapply Forall_impl; [exact Hfl|]. apply Hlen.
    + apply Forall_fmap. eapply Forall_impl; [exact Hst|]. intros m'. cbn. by rewrite (proj1 (Hrange m')).
    + apply Forall_fmap. eapply Forall_impl; [exact Hen|]. intros m'. cbn. by rewrite (proj2 (Hrange m')).
    + intros m1 m2 x (n1 & -> & Hn1)%list_elem_of_fmap (n2 & -> & Hn2)%list_elem_of_fmap. unfold f. rewrite !demo_protect_in.
      intros. by rewrite (Hdis n1 n2 x).
  - intros x. apply (Hperm MapRange_is_write). rewrite Hm. by destruct perms as [[] [] []].
  - intros x. apply (Hperm MapRange_is_read). rewrite Hm. by destruct perms as [[] [] []].
  - intros x. apply (Hperm MapRange_is_exec). rewrite Hm. by destruct perms as [[] [] []].
  - intros x y (m' & E1 & E2). exists (f m'). unfold f. by rewrite !demo_protect_find, E1, E2.
Qed.

(** An assembler of one-byte programs. *)
Definition demo_ks (text : string) : option (list Z) := Some [0x90].

#[local] Instance demo_ks_laws : AssemblerLaws demo_ks 5000.
Proof.
  split.
  - intros asm text Hem _. exists [0x90]. split; [done|]. destruct Hem; unfold stub_code; rewrite ?length_app; cbn; lia.
  - intros v text bs _ _ [= <-]. vm_compute. lia.
Qed.

(** A program with one patch point at 4096, a code cache of one page, and a cache with
    one traced entry of eight bytes of mask. *)
Definition demo_text : MapRange := mk_map_range 4096 8192 0 "fd:01" "r-xp" 77 None.
Definition demo_code_map : MapRange := mk_map_range 16384 20480 0 "00:00" "r-xp" 0 None.
Definition demo_maps : list MapRange := [demo_text; demo_code_map].
Definition demo_program : memory := fun x =>
  if (4096 <=? x) && (x <? 4128) then nth (Z.to_nat (x - 4096)) NOP_PATTERN 0 else 0.
Definition demo_traced : MutationCacheEntry :=
  mk_entry (mk_metadata 7 Load_ 4096 1 false 64 0 8) (replicate 8 255 ++ replicate 16 0).
Definition demo_shm : MutationCache :=
  mk_cache HeapMemory 440 (mk_content 440 88 1 0 false [Some 0%nat; None] (meta_bytes (e_metadata demo_traced) ++ e_tail demo_traced)).
Definition demo_agent : Agent :=
  mk_agent demo_shm (mk_jit (mk_code_cache 16384 4096 16384 4096) ∅) (mk_process demo_program demo_maps) TraceMap_new.
Definition demo_ref : EntryRef := mk_ref 65536 demo_traced.

Lemma demo_refs : enabled_refs 65536 demo_shm = [demo_ref].
Proof. vm_compute. reflexivity. Qed.

Lemma demo_map_at m x : m ∈ demo_maps -> in_mapping x m = true -> get_enclosing_mapping demo_maps x = Some m.
Proof.
  intros Hm. unfold get_enclosing_mapping, demo_maps. cbn [List.find].
  destruct (in_mapping x demo_text) eqn:E; unfold in_mapping in *; set_unfold in Hm;
    destruct Hm as [-> | [-> | []]]; cbn in *; intros Hx; rewrite ?Hx; try done; lia.
Qed.

Lemma demo_maps_wf : maps_wf demo_maps.
Proof.
  split; [by repeat constructor..|]. intros m m' x Hm Hm' Hx Hx'.
  pose proof (demo_map_at m x Hm Hx). pose proof (demo_map_at m' x Hm' Hx'). congruence.
Qed.

Lemma demo_cache_ok : cache_ok demo_program demo_maps 16384 4096.
Proof.
  split; [lia|by vm_compute| |].
  - intros i Hi. exists demo_code_map.
    split; (apply demo_map_at; [by right; left|]); unfold in_mapping, demo_code_map; cbn; lia.
  - intros x Hx. unfold demo_program. destruct (Z.ltb_spec x 4128); [lia|]. by rewrite andb_false_r.
Qed.

Lemma demo_supported : cache_supported demo_program demo_maps 16384 4096 [demo_ref].
Proof.
  assert (Ht : forall i, (i < PP_SIZE)%nat -> get_enclosing_mapping demo_maps (4096 + Z.of_nat i) = Some demo_text).
  { intros i Hi. change PP_SIZE with 32%nat in Hi. apply demo_map_at; [by left|]. unfold in_mapping, demo_text. cbn. lia. }
  split; [|by intros [|[|i]] [|[|k]] r r' x|cbn; lia].
  constructor; [|constructor]. split.
  - change (Entry_vma (er_entry demo_ref)) with 4096. split; intros i Hi; [|unfold mem_readable; by rewrite (Ht i Hi)].
    exists demo_text. split; [|by apply Ht]. by apply (Ht 0%nat); vm_compute; lia.
  - intros x Hx. unfold in_pp, PATCH_POINT_SIZE in Hx. change (Entry_vma (er_entry demo_ref)) with 4096 in Hx. lia.
  - by vm_compute.
  - done.
  - intros _. eexists. split; [by vm_compute|]. intros _ _. exists Rbp. split; [done|].
    apply (list_elem_of_lookup_2 _ 6). reflexivity.
Qed.

Lemma sync_installs_witness :
  exists a' code, sync_mutations demo_mprotect demo_ks 65536 5000 true demo_agent = Ret a' /\
    synced demo_ks 5000 demo_program demo_maps 16384 4096 65536 demo_agent a' code.
Proof.
  apply (sync_installs demo_mprotect demo_ks 5000 65536 demo_program demo_maps 16384 4096 demo_cache_ok demo_maps_wf demo_agent).
  - constructor.
  - cbn [ag_mutation_cache demo_agent]. rewrite demo_refs. apply demo_supported.
Defined.

(** The callback adds its argument to a list and overwrites the other registers. *)
Definition demo_native (target : Z) (st : Machine (list Z)) : outcome (Machine (list Z)) :=
  if target =? 5000
  then Ret (mk_machine (set_reg (fun _ => 0) Rsp (m_regs st Rsp + 8)) (m_mem st) None (m_regs st Rdi :: m_world st))
  else Panic.
Definition demo_regs : registers := fun r => if decide (r = Rsp) then 180000 else if decide (r = Rbp) then 262144 else 17.

Lemma demo_site_ok : site_ok 131072 196608 demo_traced 65536 256 262144 demo_regs Rbp 64 8.
Proof.
  split; [|reflexivity|apply (list_elem_of_lookup_2 _ 6); reflexivity|reflexivity|reflexivity|reflexivity|apply demo_placed].
  intros r. unfold demo_regs. repeat case_decide; done.
Qed.

Lemma demo_tracing_ok code : code !! 5000 = None -> tracing_ok 196608 code demo_native 5000 0 cons.
Proof.
  intros Hc. split; [done|]. split; [done|]. split; [done|]. intros st Hsp Hm. eexists.
  split; [reflexivity|]. cbn [m_regs m_mem m_world]. by split_and!.
Qed.

Lemma synced_patch_point_witness :
  exists a' code v st', sync_mutations demo_mprotect demo_ks 65536 5000 true demo_agent = Ret a' /\
    patched demo_ks (p_mem (ag_process a')) 4096 v /\
    exec 99 (call_fn code demo_native 99 3) (patch_code v) (mk_machine demo_regs demo_memory None []) = Ret (false, st') /\
    m_world st' = [7] /\ m_mem st' 262144 = 252 /\ m_mem st' 262151 = 255 /\ m_regs st' Rdi = 17.
Proof.
  destruct (synced_patch_point demo_mprotect demo_ks 5000 65536 demo_program demo_maps 16384 4096 demo_cache_ok demo_maps_wf
    demo_agent demo_ref (mk_template (match gen_mutation demo_traced 65536 with Ret (Ok t) => ft_asm_body t | _ => [] end) true)
    99 131072 196608 demo_native 256 262144 demo_regs Rbp 64 8 0 cons) as (a' & code & v & E & Hp & Hcode & Hexec).
  - constructor.
  - cbn [ag_mutation_cache demo_agent]. rewrite demo_refs. apply demo_supported.
  - cbn [ag_mutation_cache demo_agent]. rewrite demo_refs. by left.
  - done.
  - done.
  - by vm_compute.
  - done.
  - done.
  - done.
  - apply demo_site_ok.
  - assert (Hno : code !! 5000 = None).
    { destruct (code !! 5000) eqn:E2; [|done]. destruct (Hcode _ _ E2) as (? & _ & _ & ? & _). lia. }
    destruct (Hexec (demo_tracing_ok code Hno) (mk_machine demo_regs demo_memory None [])) as (st' & Ex & [Hr Hm _ Hw]).
    { split; [by split|apply demo_memory_ok|apply demo_mask_at|by vm_compute|by vm_compute]. }
    exists a', code, v, st'. split; [exact E|]. split; [exact Hp|]. split; [exact Ex|]. split; [exact Hw|].
    split; [rewrite Hm by (change (m_regs _ Rsp) with 180000; lia); by vm_compute|].
    split; [rewrite Hm by (change (m_regs _ Rsp) with 180000; lia); by vm_compute|].
    destruct Hr as [_ Hr]. rewrite Hr; [done|done|apply (list_elem_of_lookup_2 _ 5); reflexivity].
Defined.
