(* ===== verification/AuxStream.v ===== *)
(** * The auxiliary stream

    The agent sends its log records over the message queue
    ([fuzztruction_shared/src/aux_messages.rs] and [aux_stream.rs]): a string is
    encoded as UTF-16, cut into chunks that fit a message, and put together again by
    the scheduler.  A string is the list of its Unicode scalar values. *)

From S2P Require Import Prelude Bytes Messages.

(** ** UTF-16 (the standard library) *)

(** [char]: a code point that is not a surrogate. *)
Definition is_char (c : Z) : Prop := 0 <= c < 0xd800 \/ 0xe000 <= c < 0x110000.

Definition encode_utf16_char (c : Z) : list Z :=
  if c <? 0x10000 then [c]
  else let c := c - 0x10000 in [0xd800 + Z.shiftr c 10; 0xdc00 + Z.land c 0x3ff].

Definition encode_utf16 (s : list Z) : list Z := s ≫= encode_utf16_char.

Definition REPLACEMENT_CHARACTER : Z := 0xfffd.

(** [decode_utf16] with [REPLACEMENT_CHARACTER] for unpaired surrogates; [pending] is a
    leading surrogate that waits for its second half. *)
Fixpoint decode_utf16 (pending : option Z) (units : list Z) : list Z :=
  match units with
  | [] => match pending with Some _ => [REPLACEMENT_CHARACTER] | None => [] end
  | u :: units =>
      let first (prefix : list Z) :=
        if (u <? 0xd800) || (0xe000 <=? u) then prefix ++ u :: decode_utf16 None units
        else if 0xdc00 <=? u then prefix ++ REPLACEMENT_CHARACTER :: decode_utf16 None units
        else prefix ++ decode_utf16 (Some u) units in
      match pending with
      | None => first []
      | Some u1 =>
          if (0xdc00 <=? u) && (u <? 0xe000)
          then Z.lor (Z.shiftl (Z.land u1 0x3ff) 10) (Z.land u 0x3ff) + 0x10000 :: decode_utf16 None units
          else first [REPLACEMENT_CHARACTER]
      end
  end.

Definition from_utf16_lossy (units : list Z) : list Z := decode_utf16 None units.

(** [slice::chunks] *)
Fixpoint chunks_fuel {A} (fuel n : nat) (l : list A) : list (list A) :=
  match fuel, l with
  | S fuel, _ :: _ => take n l :: chunks_fuel fuel n (drop n l)
  | _, _ => []
  end.
Definition chunks {A} (n : nat) (l : list A) : list (list A) := chunks_fuel (length l) n l.

(** The bytes of a [u16] slice, and a byte slice seen as [u16]s. *)
Definition u16_bytes (units : list Z) : list Z := units ≫= to_le 2.
Fixpoint u16_units (bytes : list Z) : list Z :=
  match bytes with
  | a :: b :: bytes => of_le [a; b] :: u16_units bytes
  | _ => []
  end.

(** ** Messages *)

Inductive AuxStreamType := AST_Invalid | AST_LogRecord.

#[export] Instance AuxStreamType_eq_dec : EqDecision AuxStreamType.
Proof. solve_decision. Defined.

Definition AuxStreamType_u8 (t : AuxStreamType) : Z := match t with AST_Invalid => 0 | AST_LogRecord => 1 end.
Definition AuxStreamType_try_from (value : Z) : result unit AuxStreamType :=
  if value =? AuxStreamType_u8 AST_LogRecord then Ok AST_LogRecord else Err tt.

Definition AUX_STREAM_MESSAGE_CHUNK_SIZE : nat := 512.

Record AuxStreamMessage := mk_aux {
  aux_header : MsgHeader;
  aux_stream_type : AuxStreamType;
  aux_chunk_len : nat;
  aux_chunk_data : list Z;
  aux_msgs_left : nat;
}.

Definition AuxStreamMessage_default : AuxStreamMessage :=
  mk_aux (MsgHeader_new MT_AuxStreamMessage) AST_Invalid 0 (replicate AUX_STREAM_MESSAGE_CHUNK_SIZE 0) 0.

Definition aux_chunk (m : AuxStreamMessage) : outcome (list Z) :=
  _ ← assert_that (aux_chunk_len m <=? AUX_STREAM_MESSAGE_CHUNK_SIZE)%nat;
  mret (take (aux_chunk_len m) (aux_chunk_data m)).

Definition chunk_16 (m : AuxStreamMessage) : outcome (option (list Z)) :=
  if negb (aux_chunk_len m mod 2 =? 0)%nat then mret None
  else chunk ← aux_chunk m; mret (Some (u16_units chunk)).

Definition AuxStreamMessage_new (stream_type : AuxStreamType) (payload : list Z) (msgs_left : option nat)
    : outcome AuxStreamMessage :=
  _ ← assert_that (length payload <=? AUX_STREAM_MESSAGE_CHUNK_SIZE)%nat;
  let ret := AuxStreamMessage_default in
  mret (mk_aux (aux_header ret) stream_type (length payload)
          (payload ++ drop (length payload) (aux_chunk_data ret)) (default 0%nat msgs_left)).

(** Why a message or a stream is not accepted. *)
Inductive AuxError :=
| AuxMessage (e : MessageError)
| InvalidStreamType (raw : Z)
| PayloadTypeMismatch (ty last : AuxStreamType)
| LengthNotEven (len : nat).

Definition Aux_sanitize (m : AuxStreamMessage) : result AuxError unit :=
  match MsgHeader_sanitize (aux_header m) with
  | Err e => Err (AuxMessage e)
  | Ok _ =>
      match AuxStreamType_try_from (AuxStreamType_u8 (aux_stream_type m)) with
      | Ok _ => Ok tt
      | Err _ => Err (InvalidStreamType (AuxStreamType_u8 (aux_stream_type m)))
      end
  end.

(** The struct in memory: 536 bytes, with 6 bytes of padding. *)
Definition aux_size : nat := 536.
Definition aux_to_bytes (pad : nat -> Z) (m : AuxStreamMessage) : list Z :=
  [MessageType_u8 (hdr_id (aux_header m)); AuxStreamType_u8 (aux_stream_type m)] ++ pads pad 2 6 ++ to_le 8 (Z.of_nat (aux_chunk_len m))
  ++ aux_chunk_data m ++ to_le 8 (Z.of_nat (aux_msgs_left m)).
(** The enum value with this discriminant; there is none for other bytes. *)
Definition read_stream_type (b : Z) : outcome AuxStreamType :=
  if b =? AuxStreamType_u8 AST_Invalid then Ret AST_Invalid
  else if b =? AuxStreamType_u8 AST_LogRecord then Ret AST_LogRecord else Panic.
Definition aux_read_raw (b : list Z) : outcome AuxStreamMessage :=
  h ← MsgHeader_from_bytes_unchecked b;
  t ← read_stream_type (read_u8 b 1);
  mret (mk_aux h t (Z.to_nat (read_u64 b 8))
    (take AUX_STREAM_MESSAGE_CHUNK_SIZE (drop 16 b)) (Z.to_nat (read_u64 b 528))).

Definition Aux_try_from_bytes (bytes : list Z) : outcome (result AuxError AuxStreamMessage) :=
  if (length bytes <? aux_size)%nat then mret (Err (AuxMessage BufferTooSmall))
  else
    header ← MsgHeader_from_bytes_unchecked bytes;
    match MsgHeader_sanitize header with
    | Err e => mret (Err (AuxMessage e))
    | Ok _ =>
        if negb (bool_decide (hdr_id header = MT_AuxStreamMessage))
        then mret (Err (AuxMessage (UnexpectedMessageId MT_AuxStreamMessage (hdr_id header))))
        else
          ret ← aux_read_raw bytes;
          mret match Aux_sanitize ret with Ok _ => Ok ret | Err e => Err e end
    end.

(** ** Building *)

Definition build_str (stream_type : AuxStreamType) (s : list Z) : outcome (list AuxStreamMessage) :=
  let chunk_size := (AUX_STREAM_MESSAGE_CHUNK_SIZE / 2)%nat in
  let chunks := chunks chunk_size (encode_utf16 s) in
  mapM (fun c => AuxStreamMessage_new stream_type (u16_bytes c.2) (Some (length chunks - c.1 - 1)%nat)) (imap pair chunks).

(** ** Assembling *)

(** The message buffer of the [AuxStreamAssembler]. *)
Abbreviation AuxStreamAssembler := (list AuxStreamMessage).

(** The payloads of all buffered messages. *)
Fixpoint collect_units (msgs : list AuxStreamMessage) : outcome (result AuxError (list Z)) :=
  match msgs with
  | [] => mret (Ok [])
  | m :: msgs =>
      payload ← chunk_16 m;
      match payload with
      | None => mret (Err (LengthNotEven (aux_chunk_len m)))
      | Some units =>
          rest ← collect_units msgs;
          mret match rest with Ok l => Ok (units ++ l) | Err e => Err e end
      end
  end.

Definition process_str_msg (buffer : AuxStreamAssembler) (msg : AuxStreamMessage)
    : outcome (result AuxError (option (AuxStreamType * list Z)) * AuxStreamAssembler) :=
  let mismatch :=
    match last buffer with
    | Some l => negb (bool_decide (aux_stream_type l = aux_stream_type msg))
    | None => false
    end in
  if mismatch
  then mret (Err (PayloadTypeMismatch (aux_stream_type msg) (default AST_Invalid (aux_stream_type <$> last buffer))), [])
  else
    let buffer := buffer ++ [msg] in
    if (aux_msgs_left msg =? 0)%nat
    then
      units ← collect_units buffer;
      match units with
      | Ok utf16_values => mret (Ok (Some (aux_stream_type msg, from_utf16_lossy utf16_values)), [])
      | Err e => mret (Err e, [])
      end
    else mret (Ok None, buffer).

(** ** UTF-16 round trip *)

Lemma lor_shift_add a b : 0 <= a -> 0 <= b < 1024 -> Z.lor (Z.shiftl a 10) b = a * 1024 + b.
Proof.
  intros Ha Hb. rewrite <- Z.lxor_lor, <- Z.add_nocarry_lxor, Z.shiftl_mul_pow2; [lia|lia| |].
  all: apply Z.bits_inj'; intros i Hi; rewrite Z.land_spec, Z.bits_0.
  all: destruct (Z.ltb_spec i 10); [by rewrite Z.shiftl_spec_low|].
  all: rewrite (Z.bits_above_log2 b i), andb_false_r; [done|lia|].
  all: destruct (decide (b = 0)) as [->|]; [cbn; lia|]; apply Z.log2_lt_pow2; [lia|];
    apply Z.lt_le_trans with (2 ^ 10); [lia|]; apply Z.pow_le_mono_r; lia.
Qed.

Lemma decode_encode_char c rest :
  is_char c -> decode_utf16 None (encode_utf16_char c ++ rest) = c :: decode_utf16 None rest.
Proof.
  intros Hc. unfold encode_utf16_char, is_char in *. destruct (Z.ltb_spec c 0x10000) as [Hlt|Hge].
  - cbn [app decode_utf16]. destruct (Z.ltb_spec c 0xd800); [done|]. destruct (Z.leb_spec 0xe000 c); [done|lia].
  - set (d := c - 0x10000). assert (Hd : 0 <= d < 1048576) by lia.
    change 0x3ff with (Z.ones 10). rewrite Z.land_ones, Z.shiftr_div_pow2 by lia. change (2 ^ 10) with 1024.
    assert (Hh : 0 <= d / 1024 < 1024) by dlia. assert (Hl : 0 <= d mod 1024 < 1024) by dlia.
    cbn [app decode_utf16]. destruct (Z.ltb_spec (0xd800 + d / 1024) 0xd800); [lia|].
    destruct (Z.leb_spec 0xe000 (0xd800 + d / 1024)); [lia|]. cbn [orb].
    destruct (Z.leb_spec 0xdc00 (0xd800 + d / 1024)); [lia|]. cbn [app decode_utf16].
    destruct (Z.leb_spec 0xdc00 (0xdc00 + d mod 1024)); [|lia]. destruct (Z.ltb_spec (0xdc00 + d mod 1024) 0xe000); [|lia].
    cbn [andb]. f_equal. change 0x3ff with (Z.ones 10). rewrite !Z.land_ones by lia. change (2 ^ 10) with 1024.
    rewrite lor_shift_add by dlia. unfold d in *. dlia.
Qed.

Lemma utf16_roundtrip s : Forall is_char s -> from_utf16_lossy (encode_utf16 s) = s.
Proof.
  unfold from_utf16_lossy, encode_utf16. induction 1 as [|c s Hc _ IH]; [done|].
  rewrite bind_cons, decode_encode_char by done. by rewrite IH.
Qed.

Lemma encode_utf16_units s : Forall is_char s -> Forall (fits 16) (encode_utf16 s).
Proof.
  intros Hs. unfold encode_utf16. induction Hs as [|c s Hc _ IH]; [done|]. rewrite bind_cons, Forall_app. split; [|done].
  unfold encode_utf16_char, is_char in *. destruct (Z.ltb_spec c 0x10000).
  - constructor; [|done]. unfold fits. change (2 ^ 16) with 65536. lia.
  - change 0x3ff with (Z.ones 10). rewrite Z.land_ones, Z.shiftr_div_pow2 by lia.
    unfold fits. change (2 ^ 16) with 65536. change (2 ^ 10) with 1024.
    constructor; [dlia|]. constructor; [dlia|constructor].
Qed.

Lemma u16_roundtrip units : Forall (fits 16) units -> u16_units (u16_bytes units) = units.
Proof.
  unfold u16_bytes. induction 1 as [|u units Hu _ IH]; [done|]. rewrite bind_cons. cbn [to_le app u16_units]. f_equal; [|done].
  pose proof (of_le_to_le 2 u) as E. cbn [to_le] in E. apply E. unfold fits in Hu. change (2 ^ 16) with 65536 in Hu.
  change (256 ^ Z.of_nat 2) with 65536. lia.
Qed.

Lemma u16_bytes_length units : length (u16_bytes units) = (2 * length units)%nat.
Proof. unfold u16_bytes. induction units as [|u units IH]; [done|]. rewrite bind_cons, length_app, IH. cbn. lia. Qed.

Lemma chunks_fuel_spec {A} fuel n (l : list A) :
  (0 < n)%nat -> (length l <= fuel)%nat ->
  mjoin (chunks_fuel fuel n l) = l /\ Forall (fun c => (0 < length c <= n)%nat) (chunks_fuel fuel n l).
Proof.
  intros Hn. revert l. induction fuel as [|fuel IH]; intros [|x l] Hl; try done; [cbn in Hl; lia|].
  cbn [chunks_fuel]. destruct (IH (drop n (x :: l))) as [E Hf]; [rewrite length_drop; cbn in *; lia|]. split.
  - cbn [mjoin list_join]. change (take n (x :: l) ++ mjoin (chunks_fuel fuel n (drop n (x :: l))) = x :: l). rewrite E. apply take_drop.
  - constructor; [|done]. rewrite length_take. cbn. lia.
Qed.

(** ** Stream round trip *)

(** Messages that arrive one after the other, with the result of each. *)
Fixpoint process_all (buffer : AuxStreamAssembler) (msgs : list AuxStreamMessage)
    : outcome (list (result AuxError (option (AuxStreamType * list Z))) * AuxStreamAssembler) :=
  match msgs with
  | [] => mret ([], buffer)
  | m :: msgs =>
      r ← process_str_msg buffer m;
      rs ← process_all r.2 msgs;
      mret (r.1 :: rs.1, rs.2)
  end.

Lemma process_all_spec ty buffer msgs m units :
  Forall (fun m => aux_stream_type m = ty) (buffer ++ msgs) -> aux_stream_type m = ty ->
  Forall (fun m => aux_msgs_left m <> 0%nat) msgs -> aux_msgs_left m = 0%nat ->
  collect_units (buffer ++ msgs ++ [m]) = Ret (Ok units) ->
  process_all buffer (msgs ++ [m]) = Ret (replicate (length msgs) (Ok None) ++ [Ok (Some (ty, from_utf16_lossy units))], []).
Proof.
  intros Hty Hm Hleft Hm0 Hc. revert buffer Hty Hc. induction Hleft as [|x msgs Hx _ IH]; intros buffer Hty Hc;
    cbn [app process_all]; unfold process_str_msg; rewrite Forall_app in Hty; destruct Hty as [Hb Hms].
  - assert (Hlast : match last buffer with Some l => negb (bool_decide (aux_stream_type l = aux_stream_type m)) | None => false end = false).
    { destruct (last buffer) as [l|] eqn:E; [|done]. apply last_Some_elem_of in E. rewrite Forall_forall in Hb.
      rewrite (Hb l E), Hm, bool_decide_eq_true_2; done. }
    rewrite Hlast, Hm0, Nat.eqb_refl. cbn [app] in Hc. rewrite Hc. cbn [mbind outcome_bind mret outcome_ret fst snd]. by rewrite Hm.
  - apply Forall_cons in Hms as [Hxt Hms].
    assert (Hlast : match last buffer with Some l => negb (bool_decide (aux_stream_type l = aux_stream_type x)) | None => false end = false).
    { destruct (last buffer) as [l|] eqn:E; [|done]. apply last_Some_elem_of in E. rewrite Forall_forall in Hb.
      rewrite (Hb l E), Hxt, bool_decide_eq_true_2; done. }
    rewrite Hlast. destruct (Nat.eqb_spec (aux_msgs_left x) 0); [done|]. cbn [mbind outcome_bind mret outcome_ret fst snd].
    rewrite IH; [done| |].
    + rewrite !Forall_app. split_and!; [done|by constructor|done].
    + by rewrite <- !app_assoc.
Qed.

(** The message of chunk [i] of [n]. *)
Definition chunk_msg (ty : AuxStreamType) (n i : nat) (c : list Z) : AuxStreamMessage :=
  mk_aux (MsgHeader_new MT_AuxStreamMessage) ty (2 * length c)
    (u16_bytes c ++ replicate (AUX_STREAM_MESSAGE_CHUNK_SIZE - 2 * length c) 0) (n - i - 1).

Lemma new_chunk ty n i c :
  (length c <= 256)%nat -> AuxStreamMessage_new ty (u16_bytes c) (Some (n - i - 1)%nat) = Ret (chunk_msg ty n i c).
Proof.
  intros Hl. unfold AuxStreamMessage_new. rewrite u16_bytes_length. unfold AUX_STREAM_MESSAGE_CHUNK_SIZE at 1.
  destruct (Nat.leb_spec (2 * length c) 512); [|lia]. cbn [assert_that mbind outcome_bind mret outcome_ret].
  unfold chunk_msg, AuxStreamMessage_default. cbn [aux_header aux_chunk_data default]. by rewrite drop_replicate.
Qed.

Lemma chunk_msg_16 ty n i c :
  (length c <= 256)%nat -> Forall (fits 16) c -> chunk_16 (chunk_msg ty n i c) = Ret (Some c).
Proof.
  intros Hl Hc. unfold chunk_16, aux_chunk, chunk_msg. cbn [aux_chunk_len aux_chunk_data].
  rewrite Nat.mul_comm, Nat.Div0.mod_mul. cbn [Nat.eqb negb].
  rewrite (proj2 (Nat.leb_le _ _)) by (unfold AUX_STREAM_MESSAGE_CHUNK_SIZE; lia). cbn [assert_that mbind outcome_bind mret outcome_ret].
  rewrite take_app_length' by (rewrite u16_bytes_length; lia). by rewrite u16_roundtrip.
Qed.

(** Messages an agent sends: the fields are in range. *)
Record aux_ok (m : AuxStreamMessage) : Prop := {
  ao_header : aux_header m = MsgHeader_new MT_AuxStreamMessage;
  ao_type : aux_stream_type m = AST_LogRecord;
  ao_len : (aux_chunk_len m <= AUX_STREAM_MESSAGE_CHUNK_SIZE)%nat;
  ao_data : length (aux_chunk_data m) = AUX_STREAM_MESSAGE_CHUNK_SIZE;
  ao_left : Z.of_nat (aux_msgs_left m) < 2 ^ 64;
}.

Lemma aux_to_bytes_length pad m : aux_ok m -> length (aux_to_bytes pad m) = aux_size.
Proof. intros []. unfold aux_to_bytes. rewrite !length_app, pads_length, !to_le_length, ao_data0. done. Qed.

Lemma aux_bytes_valid pad m rest : aux_ok m -> Aux_try_from_bytes (aux_to_bytes pad m ++ rest) = Ret (Ok m).
Proof.
  intros Hok. pose proof (aux_to_bytes_length pad m Hok) as Hb. destruct Hok as [Hh Ht Hl Hd Hn].
  unfold Aux_try_from_bytes. rewrite length_app, Hb.
  destruct (Nat.ltb_spec (aux_size + length rest) aux_size); [lia|].
  assert (Eread : aux_read_raw (aux_to_bytes pad m ++ rest) = Ret m).
  { unfold aux_read_raw, aux_to_bytes. rewrite <- !app_assoc.
    set (h := [MessageType_u8 (hdr_id (aux_header m)); AuxStreamType_u8 (aux_stream_type m)]). set (p := pads pad 2 6).
    assert (Hhp : length (h ++ p) = 8%nat) by (by rewrite length_app; unfold p; rewrite pads_length).
    assert (Hlen : fits 64 (Z.of_nat (aux_chunk_len m))).
    { unfold fits, AUX_STREAM_MESSAGE_CHUNK_SIZE in *. change (2 ^ 64) with 18446744073709551616. lia. }
    assert (Hleft : fits 64 (Z.of_nat (aux_msgs_left m))) by (unfold fits; lia).
    assert (E8 : read_u64 (h ++ p ++ to_le 8 (Z.of_nat (aux_chunk_len m)) ++ aux_chunk_data m ++ to_le 8 (Z.of_nat (aux_msgs_left m)) ++ rest) 8
                 = Z.of_nat (aux_chunk_len m)).
    { rewrite app_assoc. by apply read_u64_at. }
    assert (Edata : take AUX_STREAM_MESSAGE_CHUNK_SIZE (drop 16 (h ++ p ++ to_le 8 (Z.of_nat (aux_chunk_len m)) ++ aux_chunk_data m
                      ++ to_le 8 (Z.of_nat (aux_msgs_left m)) ++ rest)) = aux_chunk_data m).
    { rewrite (app_assoc h), (app_assoc (h ++ p)). rewrite drop_app_length' by (rewrite length_app, Hhp, to_le_length; done).
      by apply take_app_length'. }
    assert (E528 : read_u64 (h ++ p ++ to_le 8 (Z.of_nat (aux_chunk_len m)) ++ aux_chunk_data m ++ to_le 8 (Z.of_nat (aux_msgs_left m)) ++ rest) 528
                 = Z.of_nat (aux_msgs_left m)).
    { rewrite (app_assoc h), (app_assoc (h ++ p)), (app_assoc ((h ++ p) ++ _)). apply read_u64_at; [|done].
      rewrite !length_app, Hd, to_le_length, <- length_app, Hhp. done. }
    rewrite E8, Edata, E528, !Nat2Z.id. unfold h. rewrite Hh, Ht. cbn [app]. rewrite header_from_u8. destruct m as [? ? ? ? ?]. cbn in Hh, Ht. by subst. }
  rewrite Eread. unfold aux_to_bytes at 1. cbn [app]. rewrite header_from_u8, Hh. cbn [mbind outcome_bind].
  unfold Aux_sanitize. rewrite !sanitize_Ok, Ht. reflexivity.
Qed.

Lemma chunk_msg_ok n i c : (length c <= 256)%nat -> Z.of_nat n < 2 ^ 64 -> aux_ok (chunk_msg AST_LogRecord n i c).
Proof.
  intros Hl Hn. split; cbn [chunk_msg aux_header aux_stream_type aux_chunk_len aux_chunk_data aux_msgs_left]; [done|done| | |lia].
  - unfold AUX_STREAM_MESSAGE_CHUNK_SIZE. lia.
  - rewrite length_app, u16_bytes_length, length_replicate. unfold AUX_STREAM_MESSAGE_CHUNK_SIZE. lia.
Qed.

(** Well-formed messages never make the assembler panic. *)
Lemma process_str_msg_ok buffer m :
  Forall aux_ok buffer -> aux_ok m -> exists r buffer', process_str_msg buffer m = Ret (r, buffer') /\ Forall aux_ok buffer'.
Proof.
  intros Hb Hm. unfold process_str_msg. destruct (match last buffer with Some _ => _ | None => _ end); [by do 2 eexists|].
  assert (Hbm : Forall aux_ok (buffer ++ [m])) by (rewrite Forall_app, Forall_singleton; done).
  destruct (aux_msgs_left m =? 0)%nat; [|by do 2 eexists].
  assert (exists u, collect_units (buffer ++ [m]) = Ret u) as [[u|e] ->]; [|by do 2 eexists..].
  clear -Hbm. induction Hbm as [|x l [_ _ Hl _ _] _ [u IH]]; [by eexists|]. cbn [collect_units].
  unfold chunk_16, aux_chunk. destruct (negb _); [by eexists|]. rewrite (proj2 (Nat.leb_le _ _)) by done.
  cbn [assert_that mbind outcome_bind mret outcome_ret]. rewrite IH. by eexists.
Qed.

(** Log records survive the auxiliary stream.  The messages [build_str] makes of a
    string are parsed from their bytes as they were, whatever the padding and the rest
    of the buffer.  An assembler that receives them in order returns nothing until the
    last one, then exactly the string, even where a chunk ends inside a surrogate pair,
    and is empty again. *)
Theorem aux_stream_roundtrip s pad :
  Forall is_char s -> s <> [] -> Z.of_nat (length (encode_utf16 s)) < 2 ^ 64 ->
  exists msgs, build_str AST_LogRecord s = Ret msgs /\
    (forall m rest, m ∈ msgs -> Aux_try_from_bytes (aux_to_bytes pad m ++ rest) = Ret (Ok m)) /\
    process_all [] msgs = Ret (replicate (length msgs - 1) (Ok None) ++ [Ok (Some (AST_LogRecord, s))], []).
Proof.
  intros Hs Hne Hlen. set (units := encode_utf16 s) in *.
  destruct (chunks_fuel_spec (length units) 256 units) as [Ej Hf]; [lia|lia|]. fold (chunks 256 units) in Ej, Hf.
  set (cs := chunks 256 units) in *. set (n := length cs). set (f := fun p : nat * list Z => chunk_msg AST_LogRecord n p.1 p.2).
  assert (Hfits : Forall (Forall (fits 16)) cs).
  { pose proof (encode_utf16_units s Hs) as Hu. fold units in Hu. rewrite <- Ej in Hu. clear -Hu.
    induction cs as [|c cs IH]; [done|]. change (mjoin (c :: cs)) with (c ++ mjoin cs) in Hu. rewrite Forall_app in Hu.
    destruct Hu. constructor; auto. }
  assert (Hn : (n <= length units)%nat).
  { unfold n. rewrite <- Ej. clear -Hf. induction Hf as [|c cs Hc _ IH]; [done|].
    change (mjoin (c :: cs)) with (c ++ mjoin cs). rewrite length_app. cbn. lia. }
  rewrite Forall_forall in Hf, Hfits.
  assert (Hin : forall i c, (i, c) ∈ imap pair cs -> c ∈ cs).
  { intros i c [k Hk]%list_elem_of_lookup. rewrite list_lookup_imap in Hk. apply fmap_Some in Hk as (x & Hx & [= -> ->]).
    by eapply list_elem_of_lookup_2. }
  assert (Ebuild : build_str AST_LogRecord s = Ret (f <$> imap pair cs)).
  { unfold build_str. change (AUX_STREAM_MESSAGE_CHUNK_SIZE / 2)%nat with 256%nat. fold units cs n.
    apply mapM_Ret. apply Forall_forall. intros [i c] Hic. cbn [fst snd]. apply new_chunk. apply Hf. by eapply Hin. }
  exists (f <$> imap pair cs). split; [done|]. split.
  - intros m rest ([i c] & -> & Hic)%list_elem_of_fmap. apply aux_bytes_valid, chunk_msg_ok; [apply Hf; by eapply Hin|lia].
  - assert (Hcs : cs <> []).
    { intros E. rewrite E in Ej. cbn in Ej. destruct s as [|c s]; [done|]. unfold units, encode_utf16 in Ej. rewrite bind_cons in Ej.
      unfold encode_utf16_char in Ej. by destruct (c <? _). }
    destruct (exists_last Hcs) as (cs0 & c0 & Ecs). rewrite Ecs, imap_app, fmap_app, length_app. cbn [imap fmap list_fmap length].
    rewrite Nat.add_sub, length_fmap, length_imap, Nat.add_0_r.
    rewrite <- (utf16_roundtrip s Hs). fold units. rewrite <- Ej.
    rewrite <- (length_imap pair cs0), <- (length_fmap f).
    assert (Hlast : n = S (length cs0)) by (unfold n; rewrite Ecs, length_app; cbn; lia).
    apply process_all_spec.
    + rewrite app_nil_l, Forall_fmap, Forall_forall. by intros [].
    + done.
    + rewrite Forall_fmap, Forall_forall. intros [i c] [k Hk]%list_elem_of_lookup. rewrite list_lookup_imap in Hk.
      apply fmap_Some in Hk as (x & Hx & [= -> ->]). cbn [aux_msgs_left f chunk_msg fst compose]. apply lookup_lt_Some in Hx. lia.
    + cbn [aux_msgs_left f chunk_msg fst]. rewrite ?length_fmap, ?length_imap. lia.
    + rewrite app_nil_l.
      assert (Ec : forall l, Forall (fun p => p.2 ∈ cs) l -> collect_units (f <$> l) = Ret (Ok (mjoin l.*2))).
      { induction 1 as [|[i c] l Hc _ IH]; [done|]. cbn [fmap list_fmap collect_units].
        change (f (i, c)) with (chunk_msg AST_LogRecord n i c). rewrite chunk_msg_16; [|apply Hf, Hc|apply Hfits, Hc]. cbn [mbind outcome_bind]. rewrite IH. done. }
      specialize (Ec (imap pair cs)). rewrite Ecs in Ec. rewrite imap_app, fmap_app in Ec. cbn [imap fmap list_fmap] in Ec.
      rewrite ?length_fmap, ?length_imap. rewrite Nat.add_0_r in Ec. rewrite Ec.
      * do 3 f_equal. rewrite Ecs. f_equal. rewrite fmap_app, fmap_imap. cbn. f_equal.
        rewrite <- (list_fmap_id cs0) at 2. apply list_eq. intros k. rewrite list_lookup_imap, list_lookup_fmap. by destruct (cs0 !! k).
      * rewrite <- Ecs. apply Forall_forall. intros [i c] Hic. apply (Hin i c). rewrite Ecs, imap_app. cbn.
        by rewrite Nat.add_0_r.
Qed.
