(* ===== verification/Source.v ===== *)
(** * The scheduler's side of the generator

    The messages [scheduler/src/source.rs] exchanges with the agent: requesting a
    synchronisation or a run, waiting for the answers, and collecting a trace.  The
    queue from the agent is the list of what the receives to come return: the bytes of
    a message, or [None] when a receive fails or times out (also at the end of the
    list).  Durations are not modelled otherwise.  Errors of [anyhow] are the values
    of [SrcError]. *)

From S2P Require Import Prelude Bytes MutationCacheEntry MutationCacheContent MutationCache Messages AuxStream Trace.

Inductive ServerReadySignalKind := Ready_Bind (n : Z) | Ready_Listen (n : Z).

#[export] Instance ServerReadySignalKind_eq_dec : EqDecision ServerReadySignalKind.
Proof. solve_decision. Defined.

Inductive RunResult :=
| RR_Terminated (exit_code : Z) (msgs : list ReceivableMessages)
| RR_Signalled (signal : Z) (msgs : list ReceivableMessages)
| RR_TimedOut (msgs : list ReceivableMessages).

Inductive WaitForPeerResult := WP_Terminated (exit_code : Z) | WP_Signalled (signal : Z) | WP_TimedOut | WP_Ready.

(** [From<RunResult>] *)
Definition WaitForPeerResult_from (r : RunResult) : WaitForPeerResult :=
  match r with
  | RR_Terminated c _ => WP_Terminated c
  | RR_Signalled s _ => WP_Signalled s
  | RR_TimedOut _ => WP_TimedOut
  end.

Inductive SrcError :=
| ReceiveFailed
| SendFailed
| BadMessage (e : MessageError)
| BadAuxMessage (e : AuxError)
| FatalError (header : MsgHeader)
| UnexpectedBytes (header : MsgHeader)
| UnexpectedTraceMessage (m : ReceivableMessages).

(** What the scheduler does to the agent and its child. *)
Inductive Action := Send (bytes : list Z) | KillProcessGroup (pid : Z) | PurgeWorkdir.

Section source.
Context `{L : EntryLayout} `{CL : ContentLayout}.
(** The size of the queue's messages, the padding of sent structs, and [Signal::try_from]. *)
Context (max_msg_len : nat) (pad : nat -> Z) (signal_try_from : Z -> option Z) (SIGBUS : Z).

Record Source := mk_source {
  s_inbox : list (option (list Z));
  s_aux_stream_assembler : AuxStreamAssembler;
  s_actions : list Action;
  s_msg_buffer : option (list ReceivableMessages);
  s_child_pid : option ChildPid;
  s_purge_ctr : Z;
  s_bind_ctr : Z;
  s_listen_ctr : Z;
  s_is_server : option bool;
  s_server_ready_on : option ServerReadySignalKind;
  s_mutation_cache : MutationCache;
}.

(** [Result] with the state of the source, and panics *)
Definition SM (A : Type) : Type := Source -> outcome (result SrcError A * Source).

#[local] Instance SM_ret : MRet SM := fun A a s => Ret (Ok a, s).
#[local] Instance SM_bind : MBind SM := fun A B f m s =>
  match m s with
  | Ret (Ok a, s) => f a s
  | Ret (Err e, s) => Ret (Err e, s)
  | Panic => Panic
  end.

Definition throw {A} (e : SrcError) : SM A := fun s => Ret (Err e, s).
(** Computations without state: panics, and the [?] of parsing. *)
Definition lift {A} (m : outcome A) : SM A := fun s => match m with Ret a => Ret (Ok a, s) | Panic => Panic end.
Definition parse {A} (m : outcome (result MessageError A)) : SM A := fun s =>
  match m with Ret (Ok a) => Ret (Ok a, s) | Ret (Err e) => Ret (Err (BadMessage e), s) | Panic => Panic end.

Definition with_inbox s inbox aux :=
  mk_source inbox aux (s_actions s) (s_msg_buffer s) (s_child_pid s) (s_purge_ctr s) (s_bind_ctr s) (s_listen_ctr s)
    (s_is_server s) (s_server_ready_on s) (s_mutation_cache s).
Definition with_action s a :=
  mk_source (s_inbox s) (s_aux_stream_assembler s) (s_actions s ++ [a]) (s_msg_buffer s) (s_child_pid s) (s_purge_ctr s)
    (s_bind_ctr s) (s_listen_ctr s) (s_is_server s) (s_server_ready_on s) (s_mutation_cache s).
Definition with_msg_buffer s b :=
  mk_source (s_inbox s) (s_aux_stream_assembler s) (s_actions s) b (s_child_pid s) (s_purge_ctr s)
    (s_bind_ctr s) (s_listen_ctr s) (s_is_server s) (s_server_ready_on s) (s_mutation_cache s).
Definition with_child_pid s p :=
  mk_source (s_inbox s) (s_aux_stream_assembler s) (s_actions s) (s_msg_buffer s) p (s_purge_ctr s)
    (s_bind_ctr s) (s_listen_ctr s) (s_is_server s) (s_server_ready_on s) (s_mutation_cache s).
Definition with_purge_ctr s n :=
  mk_source (s_inbox s) (s_aux_stream_assembler s) (s_actions s) (s_msg_buffer s) (s_child_pid s) n
    (s_bind_ctr s) (s_listen_ctr s) (s_is_server s) (s_server_ready_on s) (s_mutation_cache s).
Definition with_ctrs s bind listen :=
  mk_source (s_inbox s) (s_aux_stream_assembler s) (s_actions s) (s_msg_buffer s) (s_child_pid s) (s_purge_ctr s)
    bind listen (s_is_server s) (s_server_ready_on s) (s_mutation_cache s).
Definition with_cache s mc :=
  mk_source (s_inbox s) (s_aux_stream_assembler s) (s_actions s) (s_msg_buffer s) (s_child_pid s) (s_purge_ctr s)
    (s_bind_ctr s) (s_listen_ctr s) (s_is_server s) (s_server_ready_on s) mc.

Definition modify (f : Source -> Source) : SM unit := fun s => Ret (Ok tt, f s).

(** ** Receiving *)

(** [process_aux_message]: the log record goes to the logger, errors are logged. *)
Definition process_aux_message (aux : AuxStreamAssembler) (m : AuxStreamMessage) : outcome AuxStreamAssembler :=
  r ← process_str_msg aux m; mret r.2.

(** The loop of [receive_message]: the buffer, the assembler and the queue after it. *)
Fixpoint receive_inbox (aux : AuxStreamAssembler) (inbox : list (option (list Z))) (buf : list Z)
    : outcome (result SrcError (list Z) * AuxStreamAssembler * list (option (list Z))) :=
  match inbox with
  | [] => mret (Err ReceiveFailed, aux, [])
  | None :: inbox => mret (Err ReceiveFailed, aux, inbox)
  | Some msg :: inbox =>
      let buf := msg ++ drop (length msg) buf in
      header ← MsgHeader_try_from_bytes buf;
      match header with
      | Err e => mret (Err (BadMessage e), aux, inbox)
      | Ok header =>
          if bool_decide (hdr_id header = MT_AuxStreamMessage)
          then
            m ← Aux_try_from_bytes buf;
            match m with
            | Err e => mret (Err (BadAuxMessage e), aux, inbox)
            | Ok m => aux ← process_aux_message aux m; receive_inbox aux inbox buf
            end
          else mret (Ok buf, aux, inbox)
      end
  end.

Definition receive_message (buf : list Z) : SM (list Z) := fun s =>
  r ← receive_inbox (s_aux_stream_assembler s) (s_inbox s) buf;
  mret (r.1.1, with_inbox s r.2 r.1.2).

(** [vec![0; max_msg_len]] *)
Definition new_buf : list Z := replicate max_msg_len 0.

(** The loops receive at least one message per iteration. *)
Definition loop_fuel (s : Source) : nat := S (length (s_inbox s)).

Fixpoint wait_for_ok_loop (fuel : nat) (buf : list Z) : SM unit :=
  match fuel with
  | O => lift Panic
  | S fuel =>
      buf ← receive_message buf;
      header ← parse (MsgHeader_try_from_bytes buf);
      match hdr_id header with
      | MT_KeepAlive => wait_for_ok_loop fuel buf
      | MsgIdOk => mret tt
      | _ => throw (FatalError header)
      end
  end.

Definition wait_for_ok : SM unit := fun s => wait_for_ok_loop (loop_fuel s) new_buf s.

(** Messages of other types are dropped. *)
Fixpoint wait_for_message_loop (M : Type) `{Message M} (fuel : nat) (buf : list Z) : SM M :=
  match fuel with
  | O => lift Panic
  | S fuel =>
      buf ← receive_message buf;
      header ← parse (MsgHeader_try_from_bytes buf);
      if bool_decide (hdr_id header = message_type M)
      then parse (Message_try_from_bytes M buf)
      else wait_for_message_loop M fuel buf
  end.

Definition wait_for_message (M : Type) `{Message M} : SM M := fun s => wait_for_message_loop M (loop_fuel s) new_buf s.

(** ** Requests *)

(** [mq_send.send_timeout] *)
Definition send (send_ok : bool) (bytes : list Z) : SM unit :=
  if send_ok then modify (fun s => with_action s (Send bytes)) else throw SendFailed.

Definition Source_sync_mutations (send_ok : bool) : SM unit :=
  _ ← send send_ok (to_bytes pad (HeaderOnly_default MsgIdSyncMutations));
  wait_for_ok.

Definition purge_workdir : SM unit :=
  modify (fun s =>
    let s := with_purge_ctr s (s_purge_ctr s + 1) in
    if negb (s_purge_ctr s mod 1000 =? 0) then s else with_action s PurgeWorkdir).

(** [timeout] is in milliseconds and is truncated to 32 bits. *)
Definition spawn (send_ok : bool) (timeout : Z) : SM unit :=
  _ ← purge_workdir;
  _ ← modify (fun s => with_msg_buffer (with_ctrs s 0 0) (Some []));
  let run_msg := RunMessage_from_millis (timeout mod 2 ^ 32) in
  _ ← send send_ok (to_bytes pad run_msg);
  pid_msg ← wait_for_message ChildPid;
  modify (fun s => with_child_pid s (Some pid_msg)).

(** [child_pid.as_ref().unwrap()] and [killpg], whose result is ignored *)
Definition kill_child_process_group : SM unit := fun s =>
  match s_child_pid s with
  | None => Panic
  | Some p =>
      (** [pid.try_into().unwrap()] to an [i32] *)
      if decide (pid p < 2 ^ 31) then Ret (Ok tt, with_action s (KillProcessGroup (pid p))) else Panic
  end.

Definition kill_child_and_wait_for_termination : SM unit :=
  _ ← kill_child_process_group;
  _ ← wait_for_message TerminatedMessage;
  mret tt.

(** [msg_buffer.take().unwrap()] *)
Definition take_msgs : SM (list ReceivableMessages) := fun s =>
  match s_msg_buffer s with Some l => Ret (Ok l, with_msg_buffer s None) | None => Panic end.

(** [msg_buffer.as_mut().unwrap().push(..)] *)
Definition push_msg (m : ReceivableMessages) : SM unit := fun s =>
  match s_msg_buffer s with Some l => Ret (Ok tt, with_msg_buffer s (Some (l ++ [m]))) | None => Panic end.

(** [match receive_message(..) { Ok(_) => (), Err(_) => .. }] *)
Definition try_receive (buf : list Z) : SM (option (list Z)) := fun s =>
  match receive_message buf s with
  | Ret (Ok buf, s) => Ret (Ok (Some buf), s)
  | Ret (Err _, s) => Ret (Ok None, s)
  | Panic => Panic
  end.

Definition timed_out : SM RunResult :=
  _ ← kill_child_and_wait_for_termination;
  msgs ← take_msgs;
  mret (RR_TimedOut msgs).

(** The branches the three wait loops share: a hit of a patch point and the end of the
    child.  [signal_of] converts the signal number. *)
Definition on_trace_point (buf : list Z) : SM unit :=
  m ← parse (Message_try_from_bytes TracePointStat buf); push_msg (RM_TracePointStat m).

Definition on_terminated (signal_of : Z -> outcome Z) (buf : list Z) : SM RunResult :=
  msg ← parse (Message_try_from_bytes TerminatedMessage buf);
  if 0 <=? exit_code msg
  then msgs ← take_msgs; mret (RR_Terminated (exit_code msg) msgs)
  else signal ← lift (signal_of (exit_code msg)); msgs ← take_msgs; mret (RR_Signalled signal msgs).

(** [Signal::try_from(WTERMSIG(-exit_code)).unwrap()] *)
Definition signal_unwrap (exit_code : Z) : outcome Z := unwrap (signal_try_from (Z.land (- exit_code) 0x7f)).
(** [Signal::try_from(-exit_code)], with [SIGBUS] for unknown numbers *)
Definition signal_or_bus (exit_code : Z) : outcome Z := mret (default SIGBUS (signal_try_from (- exit_code))).

(** ** Waiting *)

Fixpoint wait_until_connect_loop (fuel : nat) (buf : list Z) : SM WaitForPeerResult :=
  match fuel with
  | O => lift Panic
  | S fuel =>
      buf ← try_receive buf;
      match buf with
      | None => r ← timed_out; mret (WaitForPeerResult_from r)
      | Some buf =>
          header ← parse (MsgHeader_try_from_bytes buf);
          match hdr_id header with
          | MT_AfterBind | MT_AfterListen => wait_until_connect_loop fuel new_buf
          | MT_AfterConnect => mret WP_Ready
          | MsgIdTracePointStat => _ ← on_trace_point buf; wait_until_connect_loop fuel buf
          | MsgIdTerminated => r ← on_terminated signal_unwrap buf; mret (WaitForPeerResult_from r)
          | _ => throw (UnexpectedBytes header)
          end
      end
  end.

Definition wait_until_connect : SM WaitForPeerResult := fun s =>
  _ ← assert_that (negb (default false (s_is_server s)));
  wait_until_connect_loop (loop_fuel s) new_buf s.

(** [server_ready_on.unwrap_or(Listen(0))] *)
Definition ready_on (s : Source) : ServerReadySignalKind := default (Ready_Listen 0) (s_server_ready_on s).

Fixpoint wait_until_listening_loop (fuel : nat) (buf : list Z) : SM WaitForPeerResult :=
  match fuel with
  | O => lift Panic
  | S fuel =>
      buf ← try_receive buf;
      match buf with
      | None => r ← timed_out; mret (WaitForPeerResult_from r)
      | Some buf =>
          header ← parse (MsgHeader_try_from_bytes buf);
          match hdr_id header with
          | MT_AfterConnect => wait_until_listening_loop fuel new_buf
          | MT_AfterBind =>
              fun s =>
                let s := with_ctrs s (s_bind_ctr s + 1) (s_listen_ctr s) in
                if bool_decide (ready_on s = Ready_Bind (s_bind_ctr s - 1)) then Ret (Ok WP_Ready, s)
                else wait_until_listening_loop fuel new_buf s
          | MT_AfterListen =>
              fun s =>
                let s := with_ctrs s (s_bind_ctr s) (s_listen_ctr s + 1) in
                if bool_decide (ready_on s = Ready_Listen (s_listen_ctr s - 1)) then Ret (Ok WP_Ready, s)
                else wait_until_listening_loop fuel new_buf s
          | MsgIdTracePointStat => _ ← on_trace_point buf; wait_until_listening_loop fuel buf
          | MsgIdTerminated => r ← on_terminated signal_unwrap buf; mret (WaitForPeerResult_from r)
          | _ => throw (UnexpectedBytes header)
          end
      end
  end.

Definition wait_until_listening : SM WaitForPeerResult := fun s => wait_until_listening_loop (loop_fuel s) new_buf s.

Fixpoint wait_for_child_termination_loop (fuel : nat) (buf : list Z) : SM RunResult :=
  match fuel with
  | O => lift Panic
  | S fuel =>
      buf ← try_receive buf;
      match buf with
      | None => timed_out
      | Some buf =>
          header ← parse (MsgHeader_try_from_bytes buf);
          match hdr_id header with
          | MT_AfterBind | MT_AfterListen | MT_AfterConnect => wait_for_child_termination_loop fuel buf
          | MsgIdTracePointStat => _ ← on_trace_point buf; wait_for_child_termination_loop fuel buf
          | MsgIdTerminated => on_terminated signal_or_bus buf
          | _ => throw (UnexpectedBytes header)
          end
      end
  end.

Definition wait_for_child_termination (send_sigkill_immediately : bool) : SM RunResult :=
  _ ← (if send_sigkill_immediately then kill_child_process_group else mret tt);
  ((fun s => wait_for_child_termination_loop (loop_fuel s) new_buf s) : SM RunResult).

Definition Source_run (send_ok : bool) (timeout : Z) : SM RunResult :=
  _ ← spawn send_ok timeout;
  wait_for_child_termination false.

(** ** Tracing *)

Definition change_cache (f : MutationCache -> outcome MutationCache) : SM unit := fun s =>
  match f (s_mutation_cache s) with Ret mc => Ret (Ok tt, with_cache s mc) | Panic => Panic end.

Definition enable_tracing (send_ok : bool) : SM unit :=
  _ ← change_cache MutationCache_enable_tracing;
  Source_sync_mutations send_ok.

(** The trace points among the messages, or the first other message. *)
Fixpoint trace_stats (msgs : list ReceivableMessages) : result SrcError (list TracePointStat) :=
  match msgs with
  | [] => Ok []
  | RM_TracePointStat m :: msgs => match trace_stats msgs with Ok l => Ok (m :: l) | Err e => Err e end
  | m :: _ => Err (UnexpectedTraceMessage m)
  end.

Definition run_msgs (r : RunResult) : list ReceivableMessages :=
  match r with RR_Signalled _ msgs | RR_TimedOut msgs | RR_Terminated _ msgs => msgs end.

Definition disable_tracing_and_process_result (res : RunResult) : SM (RunResult * Trace) :=
  _ ← change_cache MutationCache_disable_tracing;
  match trace_stats (run_msgs res) with
  | Ok stats => mret (res, from_trace_point_stats stats)
  | Err e => throw e
  end.

Definition Source_trace (send_ok : bool) (timeout : Z) : SM (RunResult * Trace) :=
  _ ← enable_tracing send_ok;
  res ← Source_run send_ok timeout;
  disable_tracing_and_process_result res.
End source.
