(* ===== verification/Protocol.v ===== *)
(** * Scheduler and agent together

    What the scheduler of [Source] makes of the messages the agent of [Agent] sends. *)

From S2P Require Import Prelude Bytes MutationCacheEntry MutationCacheContent MutationCache Messages AuxStream Trace MutationSite Dwarf X86 Jit JitStub JitPatch Agent AgentSync AgentTheorems Source.

(** ** Messages on the wire *)

Definition hook_type (m : ChildMessage) : MessageType :=
  match m with CM_AfterListen => MT_AfterListen | CM_AfterBind => MT_AfterBind | CM_AfterConnect => MT_AfterConnect end.

Definition agent_type (m : AgentMessage) : MessageType :=
  match m with
  | AM_Hello _ => MsgIdHello | AM_Ok _ => MsgIdOk | AM_ChildPid _ => MT_ChildPid | AM_Hook h => hook_type h
  | AM_TracePointStat _ => MsgIdTracePointStat | AM_Terminated _ => MsgIdTerminated
  end.

Definition encode (pad : nat -> Z) (m : AgentMessage) : list Z :=
  match m with
  | AM_Hello m => to_bytes pad m
  | AM_Ok m => to_bytes pad m
  | AM_ChildPid m => to_bytes pad m
  | AM_Hook h => to_bytes pad (HeaderOnly_default (hook_type h))
  | AM_TracePointStat m => to_bytes pad m
  | AM_Terminated m => to_bytes pad m
  end.

Definition agent_valid (m : AgentMessage) : Prop :=
  match m with
  | AM_Hello m => msg_valid m
  | AM_Ok m => msg_valid m
  | AM_ChildPid m => msg_valid m
  | AM_Hook _ => True
  | AM_TracePointStat m => msg_valid m
  | AM_Terminated m => msg_valid m
  end.

Lemma encode_header pad m rest :
  agent_valid m -> MsgHeader_try_from_bytes (encode pad m ++ rest) = Ret (Ok (MsgHeader_new (agent_type m))).
Proof.
  destruct m as [m|m|m|h|m|m]; intros Hv; cbn [encode agent_type agent_valid] in *.
  4: exact (header_try_valid pad (HeaderOnly_default (hook_type h)) rest eq_refl).
  all: exact (header_try_valid pad m rest Hv).
Qed.

Lemma agent_type_not_aux m : agent_type m <> MT_AuxStreamMessage.
Proof. destruct m as [| | |[]| |]; done. Qed.

Lemma encode_length pad m : (0 < length (encode pad m) <= aux_size)%nat.
Proof. destruct m as [| | |[]| |]; unfold encode; rewrite to_bytes_length; vm_compute; lia. Qed.

(** A queue that delivers messages, with log messages in between, and what follows. *)
Inductive carries : list (option (list Z)) -> list AgentMessage -> list (option (list Z)) -> Prop :=
| carries_nil rest : carries rest [] rest
| carries_msg pad m ms inbox rest :
    carries inbox ms rest -> carries (Some (encode pad m) :: inbox) (m :: ms) rest
| carries_log pad x m ms inbox rest :
    aux_ok x -> carries inbox (m :: ms) rest -> carries (Some (aux_to_bytes pad x) :: inbox) (m :: ms) rest.

Lemma aux_header_parse pad x rest :
  aux_ok x -> MsgHeader_try_from_bytes (aux_to_bytes pad x ++ rest) = Ret (Ok (MsgHeader_new MT_AuxStreamMessage)).
Proof.
  intros [Hh _ _ _ _]. unfold aux_to_bytes. rewrite Hh. cbn [app MsgHeader_try_from_bytes hdr_id MsgHeader_new]. rewrite header_from_u8.
  cbn [mbind outcome_bind]. by rewrite sanitize_Ok.
Qed.

Lemma receive_carried aux inbox m ms rest buf :
  carries inbox (m :: ms) rest -> agent_valid m -> Forall aux_ok aux -> (aux_size <= length buf)%nat ->
  exists pad tail aux' inbox', receive_inbox aux inbox buf = Ret (Ok (encode pad m ++ tail), aux', inbox') /\
    carries inbox' ms rest /\ Forall aux_ok aux' /\ (aux_size <= length (encode pad m ++ tail))%nat /\
    (length inbox' < length inbox)%nat.
Proof.
  intros Hc Hv. remember (m :: ms) as l eqn:El. revert aux buf El.
  induction Hc as [|pad m' ms' inbox rest Hc IH|pad x m' ms' inbox rest Hx Hc IH]; intros aux buf El Haux Hbuf; [done| |].
  - injection El as -> ->. cbn [receive_inbox]. rewrite encode_header by done. cbn [mbind outcome_bind hdr_id MsgHeader_new].
    rewrite bool_decide_eq_false_2 by apply agent_type_not_aux.
    do 4 eexists. split; [reflexivity|]. split_and!; [done|done| |cbn; lia].
    rewrite length_app, length_drop. pose proof (encode_length pad m). lia.
  - injection El as -> ->. cbn [receive_inbox]. rewrite aux_header_parse by done. cbn [mbind outcome_bind hdr_id MsgHeader_new].
    rewrite bool_decide_eq_true_2, aux_bytes_valid by done. cbn [mbind outcome_bind]. unfold process_aux_message.
    destruct (process_str_msg_ok aux x Haux Hx) as (r & aux1 & E & Haux1). rewrite E. cbn [mbind outcome_bind mret outcome_ret snd].
    destruct (IH aux1 (aux_to_bytes pad x ++ drop (length (aux_to_bytes pad x)) buf) eq_refl Haux1) as (pd & tail & aux' & inbox' & E' & Hr).
    { rewrite length_app, aux_to_bytes_length by done. lia. }
    exists pd, tail, aux', inbox'. split; [done|]. destruct Hr as (? & ? & ? & ?). split_and!; try done. cbn. lia.
Qed.

Lemma status_exit_code_range status c : status_exit_code status = Ret c -> - 128 < c < 256.
Proof.
  unfold status_exit_code, WEXITSTATUS, WTERMSIG. change 0xff with (Z.ones 8). change 0x7f with (Z.ones 7).
  rewrite !Z.land_ones by lia. change (2 ^ 8) with 256. change (2 ^ 7) with 128.
  pose proof (Z.mod_pos_bound (Z.shiftr status 8) 256). pose proof (Z.mod_pos_bound status 128).
  destruct (WIFEXITED status); [intros [= <-]; lia|]. destruct (WIFSIGNALED status); [intros [= <-]; lia|done].
Qed.

Lemma stat_valid l id : fits 64 id -> Z.of_nat (length l) < 2 ^ 64 - 1 -> msg_valid (stat l id).
Proof.
  intros Hid Hl. split; [done|]. split; [done|]. split.
  - cbn. unfold fits. pose proof (hit_count_le l id). lia.
  - intros i. cbn. unfold first_hit. intros ([n x] & Hf & ->)%fmap_Some. apply list_find_Some in Hf as (Hn%lookup_lt_Some & _).
    cbn. unfold fits. split; lia.
Qed.

(** ** Waiting *)

Section queue.
Context `{L : EntryLayout} `{CL : ContentLayout}.
Implicit Types s : Source.

(** The parts of the state that receiving leaves alone. *)
Record same_but_queue s s' : Prop := {
  sq_actions : s_actions s' = s_actions s;
  sq_child_pid : s_child_pid s' = s_child_pid s;
  sq_cache : s_mutation_cache s' = s_mutation_cache s;
  sq_aux : Forall aux_ok (s_aux_stream_assembler s) -> Forall aux_ok (s_aux_stream_assembler s');
}.

Lemma receive_message_carried s m ms rest buf :
  carries (s_inbox s) (m :: ms) rest -> agent_valid m -> Forall aux_ok (s_aux_stream_assembler s) -> (aux_size <= length buf)%nat ->
  exists pad tail s', receive_message buf s = Ret (Ok (encode pad m ++ tail), s') /\
    carries (s_inbox s') ms rest /\ same_but_queue s s' /\ s_msg_buffer s' = s_msg_buffer s /\
    (aux_size <= length (encode pad m ++ tail))%nat /\ (length (s_inbox s') < length (s_inbox s))%nat.
Proof.
  intros Hc Hv Haux Hbuf. destruct (receive_carried _ _ _ _ _ buf Hc Hv Haux Hbuf) as (pad & tail & aux' & inbox' & E & Hc' & Ha & Hl & Hi).
  unfold receive_message. rewrite E. cbn [mbind outcome_bind mret outcome_ret fst snd]. do 3 eexists. split; [reflexivity|].
  split_and!; [done|by split|done|done|done].
Qed.

Lemma same_but_queue_trans s1 s2 s3 : same_but_queue s1 s2 -> same_but_queue s2 s3 -> same_but_queue s1 s3.
Proof. intros [] []. split; [congruence..|auto]. Qed.

Lemma wait_for_terminated ms t fuel buf s rest :
  carries (s_inbox s) (ms ++ [AM_Terminated t]) rest -> Forall agent_valid ms ->
  Forall (fun m => agent_type m <> MsgIdTerminated) ms -> msg_valid t ->
  Forall aux_ok (s_aux_stream_assembler s) -> (aux_size <= length buf)%nat -> (length (s_inbox s) < fuel)%nat ->
  exists s', wait_for_message_loop TerminatedMessage fuel buf s = Ret (Ok t, s') /\ s_inbox s' = rest /\
    same_but_queue s s' /\ s_msg_buffer s' = s_msg_buffer s.
Proof.
  intros Hc Hv. revert fuel buf s Hc. induction Hv as [|m ms Hm _ IH]; intros [|fuel] buf s Hc Hty Ht Haux Hbuf Hf; try lia.
  - destruct (receive_message_carried s _ _ _ _ Hc Ht Haux Hbuf) as (pad & tail & s' & E & Hc' & Hs & Hb & _).
    cbn [wait_for_message_loop]. unfold mbind at 1, SM_bind at 1. rewrite E. unfold mbind, SM_bind, parse.
    rewrite encode_header by done. cbn [hdr_id MsgHeader_new agent_type message_type TerminatedMessage_Message].
    rewrite bool_decide_eq_true_2 by done. cbn [encode]. rewrite try_from_bytes_valid by done. exists s'. inversion Hc'; subst. done.
  - apply Forall_cons in Hty as [Hmt Hty].
    destruct (receive_message_carried s _ _ _ _ Hc Hm Haux Hbuf) as (pad & tail & s' & E & Hc' & Hs & Hb & Hl & Hi).
    cbn [wait_for_message_loop]. unfold mbind at 1, SM_bind at 1. rewrite E. unfold mbind at 1, SM_bind at 1, parse at 1.
    rewrite encode_header by done. cbn [hdr_id MsgHeader_new message_type TerminatedMessage_Message].
    rewrite bool_decide_eq_false_2 by done.
    destruct (IH fuel (encode pad m ++ tail) s' Hc' Hty Ht) as (s2 & E2 & Hi2 & Hs2 & Hb2); [by apply Hs|done|lia|].
    exists s2. split; [done|]. split; [done|]. split; [by eapply same_but_queue_trans|congruence].
Qed.
End queue.

Section protocol.
Context `{L : EntryLayout} `{CL : ContentLayout} `{!StackMapRecords} `{!StubLayout}.
Context (max_msg_len : nat) (pad0 : nat -> Z) (signal_try_from : Z -> option Z) (SIGBUS : Z).
Context (Hmax : (aux_size <= max_msg_len)%nat).
Implicit Types s : Source.

Lemma new_buf_length : (aux_size <= length (new_buf max_msg_len))%nat.
Proof using Hmax. unfold new_buf. by rewrite length_replicate. Qed.

Lemma wait_for_ok_carried s ms rest :
  carries (s_inbox s) (AM_Ok (HeaderOnly_default MsgIdOk) :: ms) rest -> Forall aux_ok (s_aux_stream_assembler s) ->
  exists s', wait_for_ok max_msg_len s = Ret (Ok tt, s') /\ carries (s_inbox s') ms rest /\ same_but_queue s s'.
Proof using Hmax.
  intros Hc Haux. destruct (receive_message_carried s _ _ _ _ Hc eq_refl Haux new_buf_length) as (pad & tail & s' & E & Hc' & Hs & _).
  unfold wait_for_ok, loop_fuel. cbn [wait_for_ok_loop]. unfold mbind at 1, SM_bind at 1. rewrite E.
  unfold mbind, SM_bind, parse. rewrite encode_header by done. cbn [hdr_id MsgHeader_new]. cbn [agent_type].
  by exists s'.
Qed.

Lemma wait_for_child_pid s m ms rest :
  carries (s_inbox s) (AM_ChildPid m :: ms) rest -> msg_valid m -> Forall aux_ok (s_aux_stream_assembler s) ->
  exists s', wait_for_message max_msg_len ChildPid s = Ret (Ok m, s') /\ carries (s_inbox s') ms rest /\
    same_but_queue s s' /\ s_msg_buffer s' = s_msg_buffer s.
Proof using Hmax.
  intros Hc Hv Haux. destruct (receive_message_carried s _ _ _ _ Hc Hv Haux new_buf_length) as (pad & tail & s' & E & Hc' & Hs & Hb & _).
  unfold wait_for_message, loop_fuel. cbn [wait_for_message_loop]. unfold mbind at 1, SM_bind at 1. rewrite E.
  unfold mbind, SM_bind, parse. rewrite encode_header by done. cbn [hdr_id MsgHeader_new agent_type message_type ChildPid_Message].
  rewrite bool_decide_eq_true_2 by done. cbn [encode]. rewrite try_from_bytes_valid by done. by exists s'.
Qed.

(** The result of a run with this exit code. *)
Definition result_of (exit_code : Z) (msgs : list ReceivableMessages) : RunResult :=
  if 0 <=? exit_code then RR_Terminated exit_code msgs
  else RR_Signalled (default SIGBUS (signal_try_from (- exit_code))) msgs.

Lemma wait_termination_carried hooks stats t fuel buf s l rest :
  carries (s_inbox s) ((AM_Hook <$> hooks) ++ (AM_TracePointStat <$> stats) ++ [AM_Terminated t]) rest ->
  Forall msg_valid stats -> msg_valid t -> Forall aux_ok (s_aux_stream_assembler s) -> (aux_size <= length buf)%nat ->
  s_msg_buffer s = Some l -> (length (s_inbox s) < fuel)%nat ->
  exists s', wait_for_child_termination_loop max_msg_len signal_try_from SIGBUS fuel buf s
      = Ret (Ok (result_of (exit_code t) (l ++ (RM_TracePointStat <$> stats))), s') /\
    s_inbox s' = rest /\ same_but_queue s s'.
Proof.
  revert hooks stats buf s l. induction fuel as [|fuel IH]; intros hooks stats buf s l Hc Hst Ht Haux Hbuf Hl Hfuel; [lia|].
  destruct hooks as [|h hooks]; [destruct stats as [|m stats]|].
  - destruct (receive_message_carried s _ _ _ _ Hc Ht Haux Hbuf) as (pad & tail & s' & E & Hc' & Hs & Hb & _).
    cbn [wait_for_child_termination_loop]. unfold mbind at 1, SM_bind at 1, try_receive. rewrite E.
    unfold mbind at 1, SM_bind at 1, parse at 1. rewrite encode_header by done. cbn [hdr_id MsgHeader_new].
    cbn [agent_type]. unfold on_terminated. unfold mbind at 1, SM_bind at 1, parse. cbn [encode].
    rewrite try_from_bytes_valid by done. unfold result_of. exists (with_msg_buffer s' None). cbn [fmap list_fmap].
    rewrite app_nil_r. split.
    { destruct (0 <=? exit_code t); unfold mbind, SM_bind, lift, take_msgs, signal_or_bus; cbn [mret outcome_ret]; by rewrite Hb, Hl. }
    inversion Hc'; subst. split; [done|]. destruct Hs. by split.
  - destruct (receive_message_carried s _ _ _ _ Hc (Forall_inv Hst) Haux Hbuf) as (pad & tail & s' & E & Hc' & Hs & Hb & Hlen & Hin).
    cbn [wait_for_child_termination_loop]. unfold mbind at 1, SM_bind at 1, try_receive. rewrite E.
    unfold mbind at 1, SM_bind at 1, parse at 1. rewrite encode_header by (done || by apply (Forall_inv Hst)). cbn [hdr_id MsgHeader_new].
    cbn [agent_type]. unfold mbind at 1, SM_bind at 1, on_trace_point. unfold mbind at 1, SM_bind at 1, parse. cbn [encode].
    rewrite try_from_bytes_valid by (by apply (Forall_inv Hst)). unfold push_msg. rewrite Hb, Hl.
    destruct (IH [] stats (to_bytes pad m ++ tail) (with_msg_buffer s' (Some (l ++ [RM_TracePointStat m]))) (l ++ [RM_TracePointStat m]))
      as (s2 & E2 & Hi2 & Hs2); [done|by eapply Forall_inv_tail|done|by apply Hs|done|done|cbn; lia|].
    exists s2. rewrite E2. split; [by rewrite <- app_assoc|]. split; [done|].
    eapply same_but_queue_trans; [exact Hs|]. destruct Hs2. by split.
  - destruct (receive_message_carried s _ _ _ _ Hc I Haux Hbuf) as (pad & tail & s' & E & Hc' & Hs & Hb & Hlen & Hin).
    cbn [wait_for_child_termination_loop]. unfold mbind at 1, SM_bind at 1, try_receive. rewrite E.
    unfold mbind at 1, SM_bind at 1, parse at 1. rewrite encode_header by (done || by apply (Forall_inv Hst)). cbn [hdr_id MsgHeader_new].
    destruct (IH hooks stats (encode pad (AM_Hook h) ++ tail) s' l) as (s2 & E2 & Hi2 & Hs2); [done|done|done|by apply Hs|done|congruence|lia|].
    exists s2. cbn [agent_type]. split; [by destruct h|]. split; [done|]. by eapply same_but_queue_trans.
Qed.

Lemma spawn_carried timeout s m ms rest :
  carries (s_inbox s) (AM_ChildPid m :: ms) rest -> msg_valid m -> Forall aux_ok (s_aux_stream_assembler s) ->
  exists s', spawn max_msg_len pad0 true timeout s = Ret (Ok tt, s') /\ carries (s_inbox s') ms rest /\
    s_msg_buffer s' = Some [] /\ s_child_pid s' = Some m /\ s_mutation_cache s' = s_mutation_cache s /\
    Forall aux_ok (s_aux_stream_assembler s').
Proof.
  intros Hc Hv Haux. unfold spawn, purge_workdir, modify, send. unfold mbind at 1, SM_bind at 1.
  set (s1 := if negb _ then _ else _). unfold mbind at 1, SM_bind at 1. unfold mbind at 1, SM_bind at 1.
  unfold mbind at 1, SM_bind at 1, modify. set (s2 := with_action _ _).
  assert (E2 : s_inbox s2 = s_inbox s /\ s_aux_stream_assembler s2 = s_aux_stream_assembler s /\ s_msg_buffer s2 = Some [] /\
               s_mutation_cache s2 = s_mutation_cache s) by (unfold s2, s1; by destruct (negb _)).
  destruct E2 as (E2a & E2b & E2c & E2d).
  destruct (wait_for_child_pid s2 m ms rest) as (s3 & E & Hc3 & Hs3 & Hb3); [congruence|done|congruence|].
  rewrite E. eexists. split; [reflexivity|]. cbn [with_child_pid s_inbox s_msg_buffer s_child_pid s_mutation_cache s_aux_stream_assembler].
  destruct Hs3 as [_ _ Hcm Ha]. split_and!; [done|congruence|done|congruence|]. apply Ha. congruence.
Qed.

(** ** A run and its report *)

Lemma run_traced_run S a child c :
  ready S (ag_trace_map a) -> Forall (fun id => id ∈ S) (cr_hits child) -> Z.of_nat (length (cr_hits child)) < 2 ^ 64 ->
  status_exit_code (cr_status child) = Ret c ->
  exists a', run true a child = Ret (a', AM_ChildPid (ChildPid_new (cr_pid child)) :: (AM_Hook <$> cr_messages child)
      ++ (AM_TracePointStat <$> (stat (cr_hits child) <$> filter (fun id => id ∈ cr_hits child) (sorted_ids S)))
      ++ [AM_Terminated (mk_terminated (MsgHeader_new MsgIdTerminated) c false)]) /\
    ready S (ag_trace_map a').
Proof.
  intros Hr Hh Hb Hc. destruct (run_traced_spec S (ag_trace_map a) (cr_hits child) Hr Hh Hb) as (tm' & Hr' & E).
  unfold run_traced in E. unfold run. destruct (finalize true (ag_trace_map a)) as [tm|]; [|done]. cbn [mbind outcome_bind] in E |- *.
  rewrite Hc. cbn [mbind outcome_bind]. rewrite E. cbn [mbind outcome_bind mret outcome_ret fst snd]. by eexists.
Qed.

Lemma trace_stats_points l : trace_stats (RM_TracePointStat <$> l) = Ok l.
Proof. induction l as [|m l IH]; [done|]. cbn. by rewrite IH. Qed.

(** ** Runs that time out *)

(** The trace of a run that times out is lost.  When no message arrives in time, the
    scheduler kills the process group of the child and waits for [TerminatedMessage];
    the hits the agent reports before it are read and dropped, so that only messages
    received earlier are in the result.  If there were none, the trace is empty
    whatever the child executed. *)
Theorem timeout_drops_trace s p ids hits t inbox rest l :
  s_inbox s = None :: inbox ->
  carries inbox ((AM_TracePointStat <$> (stat hits <$> ids)) ++ [AM_Terminated t]) rest ->
  Forall (fits 64) ids -> Z.of_nat (length hits) < 2 ^ 64 - 1 -> msg_valid t -> Forall aux_ok (s_aux_stream_assembler s) ->
  s_child_pid s = Some p -> pid p < 2 ^ 31 -> s_msg_buffer s = Some l ->
  (exists s', wait_for_child_termination max_msg_len signal_try_from SIGBUS false s = Ret (Ok (RR_TimedOut l), s') /\
     s_inbox s' = rest /\ s_actions s' = s_actions s ++ [KillProcessGroup (pid p)]) /\
  (forall s1 res s2, disable_tracing_and_process_result (RR_TimedOut []) s1 = Ret (Ok res, s2) -> Trace_is_empty res.2 = true).
Proof using Hmax.
  intros Ein Hc Hids Hlen Ht Haux Hpid Hp Hl. split.
  - unfold wait_for_child_termination, loop_fuel. unfold mbind at 1, SM_bind at 1. cbn [mret SM_ret]. rewrite Ein.
    cbn [length wait_for_child_termination_loop]. unfold mbind at 1, SM_bind at 1, try_receive, receive_message. rewrite Ein.
    cbn [receive_inbox mbind outcome_bind mret outcome_ret fst snd]. set (s1 := with_inbox s inbox _).
    unfold timed_out, kill_child_and_wait_for_termination, kill_child_process_group.
    unfold mbind at 1, SM_bind at 1. unfold mbind at 1, SM_bind at 1. change (s_child_pid s1) with (s_child_pid s). rewrite Hpid.
    rewrite decide_True by done. unfold mbind at 1, SM_bind at 1, wait_for_message. set (s2 := with_action s1 _).
    destruct (wait_for_terminated (AM_TracePointStat <$> (stat hits <$> ids)) t (loop_fuel s2) (new_buf max_msg_len) s2 rest)
      as (s3 & E3 & Hi3 & Hs3 & Hb3); [done| | |done|done|apply new_buf_length|apply Nat.lt_succ_diag_r|].
    { apply Forall_fmap, Forall_fmap. eapply Forall_impl; [exact Hids|]. intros id Hid. by apply stat_valid. }
    { apply Forall_fmap, Forall_forall. done. }
    rewrite E3. unfold mbind, SM_bind, take_msgs. cbn [mret SM_ret]. rewrite Hb3. change (s_msg_buffer s2) with (s_msg_buffer s).
    rewrite Hl. eexists. split; [reflexivity|]. split; [done|]. cbn [with_msg_buffer s_actions]. apply Hs3.
  - intros s1 res s2. unfold disable_tracing_and_process_result, change_cache. unfold mbind, SM_bind. cbn [run_msgs trace_stats].
    destruct (MutationCache_disable_tracing _); [|done]. by intros [= <- _].
Qed.

(** ** Tracing, end to end *)

Section traced.
Context `{!EntryLayoutLaws L}.
Context (mprotect : list MapRange -> Z -> Z -> PermsConfig -> option (list MapRange)) `{!MprotectLaws mprotect}.
Context (ks_asm : string -> option (list Z)) (tracing_cb cache_data : Z) `{!AssemblerLaws ks_asm tracing_cb}.
Context (M0 : memory) (maps0 : list MapRange) (B : Z) (N : nat).
Context (Hcache : cache_ok M0 maps0 B N) (Hmaps0 : maps_wf maps0).

(** The ids of the entries the agent installs. *)
Definition installed_ids (mc : MutationCache) : list Z :=
  (fun r => Entry_id (er_entry r)) <$> filter (fun r => is_Some (entry_stubs tracing_cb r)) (enabled_refs cache_data mc).

Lemma tm_after_slots es tm :
  Forall (fun r => Entry_is_flag_set (er_entry r) Flag_TracingEnabled = true) es ->
  foldl (tm_after tracing_cb) tm es
  = mk_trace_map (tm_data tm) (tm_len_bytes tm)
      (tm_allocated_slots tm ∪ list_to_set ((fun r => Entry_id (er_entry r)) <$> filter (fun r => is_Some (entry_stubs tracing_cb r)) es))
      (tm_total_hits tm).
Proof.
  intros Hes. revert tm. induction Hes as [|r es Hr _ IH]; intros tm.
  - cbn. destruct tm; cbn. f_equal. by rewrite (right_id_L ∅ (∪)).
  - cbn [foldl]. rewrite IH. unfold tm_after. rewrite Hr, filter_cons. cbn [andb].
    destruct (decide (is_Some (entry_stubs tracing_cb r))) as [Hs|Hs].
    + rewrite bool_decide_eq_true_2 by done. unfold alloc_slot. cbn [tm_data tm_len_bytes tm_allocated_slots tm_total_hits].
      f_equal. rewrite fmap_cons, list_to_set_cons. set_solver.
    + by rewrite bool_decide_eq_false_2.
Qed.

Lemma refs_traced mc es :
  cache_rep mc ((fun e => Entry_set_flag e Flag_TracingEnabled) <$> es) ->
  Forall (fun r => Entry_is_flag_set (er_entry r) Flag_TracingEnabled = true) (enabled_refs cache_data mc).
Proof.
  intros Hr. assert (Hall : Forall (fun r => Entry_is_flag_set (er_entry r) Flag_TracingEnabled = true) (entry_refs cache_data mc)).
  { apply Forall_forall. intros r Hin. assert (He : er_entry r ∈ MutationCache_entries mc).
    { unfold entry_refs in Hin. apply list_elem_of_fmap in Hin as (off & -> & Hoff). cbn.
      unfold MutationCache_entries, Content_entries. by apply list_elem_of_fmap_2. }
    rewrite (cache_entries_rep mc _ Hr) in He. apply list_elem_of_fmap in He as (e & -> & _).
    rewrite set_flag_bit by done. by rewrite bool_decide_eq_true_2, orb_true_r. }
  unfold enabled_refs. apply Forall_forall. intros r [Hin _]%list_elem_of_In%filter_In.
  rewrite Forall_forall in Hall. by apply Hall, list_elem_of_In.
Qed.

(** What the agent sends for a synchronisation and a run with tracing. *)
Lemma traced_agent a mc es child c m :
  reaches mprotect ks_asm tracing_cb M0 maps0 B N cache_data a ->
  cache_rep mc ((fun e => Entry_set_flag e Flag_TracingEnabled) <$> es) ->
  cache_supported M0 maps0 B N (enabled_refs cache_data mc) ->
  installed_ids mc <> [] -> Forall (fits 64) (installed_ids mc) ->
  Forall (fun id => id ∈ installed_ids mc) (cr_hits child) -> Z.of_nat (length (cr_hits child)) < 2 ^ 64 - 1 ->
  status_exit_code (cr_status child) = Ret c ->
  let S := list_to_set (installed_ids mc) : gset Z in
  let stats := stat (cr_hits child) <$> filter (fun id => id ∈ cr_hits child) (sorted_ids S) in
  Forall (fun id => id ∈ S) (cr_hits child) /\ Forall msg_valid stats /\
  exists a1 a2,
    process_message mprotect ks_asm cache_data tracing_cb true true child
      (mk_agent mc (ag_jit a) (ag_process a) (ag_trace_map a)) (RM_SyncMutations (HeaderOnly_default MsgIdSyncMutations))
      = Ret (a1, [AM_Ok (HeaderOnly_default MsgIdOk)]) /\
    process_message mprotect ks_asm cache_data tracing_cb true true child a1 (RM_RunMessage m)
      = Ret (a2, AM_ChildPid (ChildPid_new (cr_pid child)) :: (AM_Hook <$> cr_messages child) ++ (AM_TracePointStat <$> stats)
          ++ [AM_Terminated (mk_terminated (MsgHeader_new MsgIdTerminated) c false)]).
Proof.
  intros Ha Hmc Hsup Hne Hids Hhits Hlen Hc S stats.
  set (a0 := mk_agent mc (ag_jit a) (ag_process a) (ag_trace_map a)).
  destruct (sync_mutations_Ret mprotect ks_asm tracing_cb M0 maps0 B N Hcache cache_data true a0) as (a1 & code & E1 & Hs);
    [by eapply reaches_inv, reach_cache|done|unfold reset; destruct (tm_data _); by eexists|].
  assert (Hready : ready S (ag_trace_map a1)).
  { rewrite (sy_trace_map _ _ _ _ _ _ _ _ _ _ Hs), tm_after_slots by (by eapply refs_traced). unfold S. split; [|split; [done|left; split; [done|]]].
    - destruct (installed_ids mc); [done|]. cbn. set_solver.
    - cbn. by rewrite (left_id_L ∅ (∪)). }
  assert (HS : Forall (fun id => id ∈ S) (cr_hits child)).
  { eapply Forall_impl; [exact Hhits|]. intros id Hid. unfold S. by apply elem_of_list_to_set. }
  destruct (run_traced_run S a1 child c Hready HS) as (a2 & E2 & _); [lia|done|]. split; [done|]. split.
  - unfold stats. apply Forall_fmap, Forall_forall. intros id [_ Hid]%list_elem_of_filter. apply stat_valid; [|done].
    unfold sorted_ids in Hid. rewrite merge_sort_Permutation, elem_of_elements in Hid. unfold S in Hid.
    rewrite elem_of_list_to_set in Hid. rewrite Forall_forall in Hids. by apply Hids.
  - exists a1, a2. split; [cbn [process_message]; rewrite E1; reflexivity|exact E2].
Qed.

(** What [trace] makes of these messages. *)
Lemma source_trace_carried s es mc timeout status c p hooks stats inbox aux rest :
  MutationCache_enable_tracing (s_mutation_cache s) = Ret mc ->
  cache_rep mc ((fun e => Entry_set_flag e Flag_TracingEnabled) <$> es) ->
  Forall msg_valid stats -> status_exit_code status = Ret c -> fits 64 p ->
  carries inbox (AM_Ok (HeaderOnly_default MsgIdOk) :: AM_ChildPid (ChildPid_new p) :: (AM_Hook <$> hooks) ++ (AM_TracePointStat <$> stats)
    ++ [AM_Terminated (mk_terminated (MsgHeader_new MsgIdTerminated) c false)]) rest -> Forall aux_ok aux ->
  exists s', Source_trace max_msg_len pad0 signal_try_from SIGBUS true timeout (with_inbox s inbox aux)
      = Ret (Ok (result_of c (RM_TracePointStat <$> stats), from_trace_point_stats stats), s') /\
    s_inbox s' = rest /\
    cache_rep (s_mutation_cache s') ((fun e => Entry_unset_flag e Flag_TracingEnabled) <$>
      ((fun e => Entry_set_flag e Flag_TracingEnabled) <$> es)).
Proof.
  intros Emc Hmc Hst Hc Hpid Hcar Haux.
  pose proof (status_exit_code_range _ _ Hc) as Hrange. change (2 ^ 64) with 18446744073709551616 in *.
  unfold Source_trace, enable_tracing, Source_sync_mutations, change_cache.
  unfold mbind at 1, SM_bind at 1. unfold mbind at 1, SM_bind at 1. cbn [with_inbox s_mutation_cache].
  rewrite Emc. unfold mbind at 1, SM_bind at 1, send, modify.
  set (s1 := with_action (with_cache (with_inbox s inbox aux) mc) _).
  destruct (wait_for_ok_carried s1 _ rest Hcar Haux) as (s2 & Eok & Hc2 & Hs2). rewrite Eok.
  unfold Source_run. unfold mbind at 1, SM_bind at 1. unfold mbind at 1, SM_bind at 1.
  destruct (spawn_carried timeout s2 _ _ rest Hc2) as (s3 & Esp & Hc3 & Hb3 & _ & Hm3 & Ha3); [done|by apply Hs2|].
  rewrite Esp. unfold wait_for_child_termination. unfold mbind at 1, SM_bind at 1. cbn [mret SM_ret].
  destruct (wait_termination_carried hooks stats (mk_terminated (MsgHeader_new MsgIdTerminated) c false) (loop_fuel s3)
    (new_buf max_msg_len) s3 [] rest Hc3 Hst) as (s4 & E4 & Hi4 & Hs4);
    [split; [done|cbn; lia]|done|apply new_buf_length|done|unfold loop_fuel; lia|].
  rewrite E4. cbn [app exit_code]. unfold disable_tracing_and_process_result, change_cache, MutationCache_disable_tracing.
  unfold mbind at 1, SM_bind at 1.
  assert (Hcm : s_mutation_cache s4 = mc).
  { destruct Hs4 as [_ _ -> _]. rewrite Hm3. by destruct Hs2 as [_ _ -> _]. }
  rewrite Hcm. destruct (cache_set_flags mc _ Flag_TracingEnabled Hmc) as [_ [(mc2 & Emc2 & Hmc2) _]]. rewrite Emc2.
  assert (Erm : run_msgs (result_of c (RM_TracePointStat <$> stats)) = RM_TracePointStat <$> stats).
  { unfold result_of. by destruct (0 <=? c). }
  rewrite Erm, trace_stats_points. exists (with_cache s4 mc2). split; [done|]. split; [done|exact Hmc2].
Qed.

(** C1: tracing works end to end.  The scheduler sets the tracing flag of every entry of the
    shared cache, has the agent synchronise, and requests a run.  If the child executes
    installed patch points in the order [hits], then [trace] returns the exit code or
    signal of the child and a trace with exactly the executed sites (except those hit
    more than 16384 times), each with its number of executions and the position of
    its first one.  Log messages may arrive at any time in between, all
    messages of the run are consumed, and the tracing flags are off again. *)
Theorem trace_end_to_end a s es mc timeout child c m :
  reaches mprotect ks_asm tracing_cb M0 maps0 B N cache_data a -> cache_rep (s_mutation_cache s) es ->
  MutationCache_enable_tracing (s_mutation_cache s) = Ret mc ->
  cache_supported M0 maps0 B N (enabled_refs cache_data mc) ->
  installed_ids mc <> [] -> Forall (fits 64) (installed_ids mc) ->
  Forall (fun id => id ∈ installed_ids mc) (cr_hits child) -> Z.of_nat (length (cr_hits child)) < 2 ^ 64 - 1 ->
  status_exit_code (cr_status child) = Ret c -> fits 64 (cr_pid child) ->
  exists a1 a2 out,
    process_message mprotect ks_asm cache_data tracing_cb true true child
      (mk_agent mc (ag_jit a) (ag_process a) (ag_trace_map a)) (RM_SyncMutations (HeaderOnly_default MsgIdSyncMutations))
      = Ret (a1, [AM_Ok (HeaderOnly_default MsgIdOk)]) /\
    process_message mprotect ks_asm cache_data tracing_cb true true child a1 (RM_RunMessage m) = Ret (a2, out) /\
    forall inbox aux rest, carries inbox (AM_Ok (HeaderOnly_default MsgIdOk) :: out) rest -> Forall aux_ok aux ->
    exists msgs t s', Source_trace max_msg_len pad0 signal_try_from SIGBUS true timeout (with_inbox s inbox aux) = Ret (Ok (result_of c msgs, t), s') /\
      s_inbox s' = rest /\
      cache_rep (s_mutation_cache s') ((fun e => Entry_unset_flag e Flag_TracingEnabled) <$>
        ((fun e => Entry_set_flag e Flag_TracingEnabled) <$> es)) /\
      (forall id, hits_mapping t !! id
                  = if decide (site_covered (cr_hits child) id) then Some (hit_count (cr_hits child) id) else None) /\
      (forall id, exec_order t id = if decide (site_covered (cr_hits child) id) then first_hit (cr_hits child) id else None) /\
      StronglySorted (hit_before (cr_hits child)) (covered_exec_ordered t).
Proof.
  intros Ha Hes Emc Hsup Hne Hids Hhits Hlen Hc Hpid.
  destruct (cache_set_flags _ es Flag_TracingEnabled Hes) as [(mc' & Emc' & Hmc) _].
  assert (mc' = mc) as -> by (unfold MutationCache_enable_tracing in Emc; congruence).
  destruct (traced_agent a mc es child c m Ha Hmc Hsup Hne Hids Hhits Hlen Hc) as (HS & Hst & a1 & a2 & E1 & E2).
  eexists a1, a2, _. split; [exact E1|]. split; [exact E2|]. intros inbox aux rest Hcar Haux.
  destruct (source_trace_carried s es mc timeout (cr_status child) c (cr_pid child) _ _ inbox aux rest Emc Hmc Hst Hc Hpid Hcar Haux)
    as (s' & Es & Hi & Hcr).
  eexists _, _, s'. split; [exact Es|]. split; [exact Hi|]. split; [exact Hcr|].
  destruct (trace_of_stats _ (cr_hits child) HS) as [Ht1 Ht2]. split; [exact Ht1|]. split; [exact Ht2|]. by apply covered_ordered.
Qed.
End traced.
End protocol.

(** ** Witnesses *)

#[local] Existing Instance demo_stackmap.
#[local] Existing Instance demo_layout.
#[local] Existing Instance demo_layout_laws.
#[local] Existing Instance demo_content_layout.
#[local] Existing Instance demo_records.
#[local] Existing Instance demo_stub_layout.
#[local] Existing Instance demo_mprotect_laws.
#[local] Existing Instance demo_ks_laws.

Lemma carries_all pad ms rest : carries (((fun m => Some (encode pad m)) <$> ms) ++ rest) ms rest.
Proof. induction ms as [|m ms IH]; cbn; by constructor. Qed.

Definition demo_cache : MutationCache :=
  match MutationCache_push demo_mc (demo_entry 7 (replicate 8 255)) with Ret (_, mc) => mc | Panic => demo_mc end.

Lemma demo_cache_rep : cache_rep demo_cache [entry_trim (demo_entry 7 (replicate 8 255))].
Proof.
  destruct (push_rep demo_content [] (demo_entry 7 (replicate 8 255))) as (data & E & Hd & Hr).
  - apply demo_content_rep.
  - by apply demo_entry_wf; [|cbn; lia].
  - vm_compute. lia.
  - by intros [off [=]].
  - unfold demo_cache, MutationCache_push. cbn [mc_content demo_mc]. rewrite E. split; [exact Hr|done].
Qed.

Definition demo_traced_cache : MutationCache :=
  match MutationCache_enable_tracing demo_cache with Ret mc => mc | Panic => demo_cache end.

Lemma demo_traced_refs : enabled_refs 65536 demo_traced_cache = [demo_ref].
Proof. vm_compute. reflexivity. Qed.

Lemma demo_ids : installed_ids 5000 65536 demo_traced_cache = [7].
Proof. vm_compute. reflexivity. Qed.

Definition demo_source (mc : MutationCache) : Source :=
  mk_source [] [] [] None None 0 0 0 None None mc.
Definition demo_signal (n : Z) : option Z := if (1 <=? n) && (n <=? 31) then Some n else None.
Definition demo_child : ChildRun := mk_child_run 100 [CM_AfterListen] [7; 7] 256.

Lemma trace_end_to_end_witness :
  exists inbox r t s', Source_trace 600 no_pad demo_signal 7 true 1000 (with_inbox (demo_source demo_cache) inbox []) = Ret (Ok (r, t), s') /\
    hits_mapping t !! 7 = Some 2 /\ exec_order t 7 = Some 1 /\ exists msgs, r = RR_Terminated 1 msgs.
Proof.
  destruct (trace_end_to_end 600 no_pad demo_signal 7 ltac:(vm_compute; lia) demo_mprotect demo_ks 5000 65536 demo_program demo_maps
    16384 4096 demo_cache_ok demo_maps_wf demo_agent (demo_source demo_cache) [entry_trim (demo_entry 7 (replicate 8 255))] demo_traced_cache
    1000 demo_child 1 RunMessage_default) as (a1 & a2 & out & _ & _ & H).
  - constructor.
  - apply demo_cache_rep.
  - by vm_compute.
  - rewrite demo_traced_refs. apply demo_supported.
  - by rewrite demo_ids.
  - rewrite demo_ids. by apply Forall_singleton.
  - rewrite demo_ids. by repeat constructor.
  - done.
  - done.
  - done.
  - destruct (H ((fun m => Some (encode no_pad m)) <$> (AM_Ok (HeaderOnly_default MsgIdOk) :: out)) [] []) as (msgs & t & s' & E & _ & _ & Ht & Ho & _).
    { rewrite <- (app_nil_r (_ <$> _)). apply carries_all. }
    { constructor. }
    do 4 eexists. split; [exact E|]. rewrite Ht, Ho. split; [done|]. split; [done|]. by eexists.
Defined.
