(* ===== verification/Queue.v ===== *)
(** * The queue of inputs

    Models [scheduler/src/fuzzer/queue.rs].  A [QueueEntry] holds its statistics
    behind an [Arc<RwLock<..>>], so the copies of an entry share them: here the entry
    holds a reference into the store [qs_stats] of the global state, next to the
    counter of entry ids and the input cache.  The digest of the [sha2] crate is the
    parameter [sha256_hex]; timestamps and durations are integers; the saved bytes of a
    mutation cache are the image [MutationCacheContent]. *)

From S2P Require Import Prelude Rng FiniteIntegerSet Bitmap Mutators MutationCacheEntry MutationCacheContent Messages Trace.

Definition MAX_QUEUE_ENTRY_CNT : nat := N.to_nat 100000.
Definition DEFAULT_FAVOURED_WEIGHT : Z := 3.

Inductive FuzzingPhase := Discovery | Mutate | Add | Combine | NoPhase | Exit.

#[export] Instance FuzzingPhase_eq_dec : EqDecision FuzzingPhase.
Proof. solve_decision. Defined.
#[export] Instance MutatorType_eq_dec : EqDecision MutatorType.
Proof. solve_decision. Defined.

Definition phase_code (p : FuzzingPhase) : nat :=
  match p with Discovery => 0 | Mutate => 1 | Add => 2 | Combine => 3 | NoPhase => 4 | Exit => 5 end.
Definition phase_of (n : nat) : FuzzingPhase :=
  match n with 0 => Discovery | 1 => Mutate | 2 => Add | 3 => Combine | 4 => NoPhase | _ => Exit end%nat.
#[export] Instance FuzzingPhase_countable : Countable FuzzingPhase.
Proof. by refine (inj_countable' phase_code phase_of _); intros []. Defined.

Definition mutator_code (t : MutatorType) : nat * nat :=
  match t with
  | MT_Nop => (0, 0) | MT_FlipBit => (1, 0) | MT_FlipByte => (2, 0) | MT_FlipOnce => (3, 0)
  | MT_RandomBit n => (4, n) | MT_RandomByte n => (5, n) | MT_U8Counter => (6, 0)
  | MT_Havoc => (7, 0) | MT_Combine => (8, 0)
  end%nat.
Definition mutator_of (c : nat * nat) : MutatorType :=
  match c.1 with
  | 0 => MT_Nop | 1 => MT_FlipBit | 2 => MT_FlipByte | 3 => MT_FlipOnce | 4 => MT_RandomBit c.2
  | 5 => MT_RandomByte c.2 | 6 => MT_U8Counter | 7 => MT_Havoc | _ => MT_Combine
  end%nat.
#[export] Instance MutatorType_countable : Countable MutatorType.
Proof. by refine (inj_countable' mutator_code mutator_of _); intros []. Defined.

(** ** [Input] *)

Record Input := mk_input {
  input_data : list Z; input_sha256_digest : string; input_origin_path : option string;
}.

Definition Input_len (i : Input) : nat := length (input_data i).
Definition Input_is_empty (i : Input) : bool := (Input_len i =? 0)%nat.

(** ** [QueueEntryStats] *)

Record QueueEntryStats := mk_stats {
  st_trace : option Trace;
  st_tracing_in_progress : bool;
  st_blacklisted : bool;
  st_phases_done : gset FuzzingPhase;
  st_discovery_pending : option FiniteIntegerSet;
  st_combine_done : option FiniteIntegerSet;
  st_mutators_done : gset MutatorType;
  st_favoured_weight : option Z;
}.

Definition stats_new : QueueEntryStats := mk_stats None false false ∅ None None ∅ None.

Definition set_trace (s : QueueEntryStats) (trace : Trace) : QueueEntryStats :=
  mk_stats (Some trace) (st_tracing_in_progress s) (st_blacklisted s) (st_phases_done s)
    (st_discovery_pending s) (st_combine_done s) (st_mutators_done s) (st_favoured_weight s).

Definition set_blacklisted (s : QueueEntryStats) : QueueEntryStats :=
  mk_stats (st_trace s) (st_tracing_in_progress s) true (st_phases_done s)
    (st_discovery_pending s) (st_combine_done s) (st_mutators_done s) (st_favoured_weight s).

Definition is_phase_done (s : QueueEntryStats) (phase : FuzzingPhase) : bool :=
  bool_decide (phase ∈ st_phases_done s).

Definition mark_phase_done (s : QueueEntryStats) (phase : FuzzingPhase) : QueueEntryStats :=
  mk_stats (st_trace s) (st_tracing_in_progress s) (st_blacklisted s) ({[ phase ]} ∪ st_phases_done s)
    (st_discovery_pending s) (st_combine_done s) (st_mutators_done s) (st_favoured_weight s).

Definition mark_tracing_in_progress (s : QueueEntryStats) : outcome QueueEntryStats :=
  _ ← assert_that (negb (st_tracing_in_progress s));
  mret (mk_stats (st_trace s) true (st_blacklisted s) (st_phases_done s)
    (st_discovery_pending s) (st_combine_done s) (st_mutators_done s) (st_favoured_weight s)).

Definition with_pending (s : QueueEntryStats) (set : FiniteIntegerSet) : QueueEntryStats :=
  mk_stats (st_trace s) (st_tracing_in_progress s) (st_blacklisted s) (st_phases_done s)
    (Some set) (st_combine_done s) (st_mutators_done s) (st_favoured_weight s).

Section alloc.
Context `{R : Rng}.

(** [get_or_insert_with]: the covered sites on the first call. *)
Definition pending_set (seed : nat) (s : QueueEntryStats) : outcome FiniteIntegerSet :=
  match st_discovery_pending s with
  | Some set => mret set
  | None =>
      trace ← unwrap (st_trace s);
      FiniteIntegerSet_from_iter MAX_PATCHPOINT_CNT
        (hash_iter seed (set_map Z.to_nat (covered trace)))
  end.

Definition discovery_allocate (seed : nat) (s : QueueEntryStats) (max : nat)
    : outcome (FiniteIntegerSet * QueueEntryStats) :=
  set ← pending_set seed s;
  selection ← FiniteIntegerSet_choose_random seed MAX_PATCHPOINT_CNT set max;
  let set := FiniteIntegerSet_sub_assign set selection in
  mret (selection, with_pending s set).
End alloc.

Definition with_combine_done (s : QueueEntryStats) (set : FiniteIntegerSet) : QueueEntryStats :=
  mk_stats (st_trace s) (st_tracing_in_progress s) (st_blacklisted s) (st_phases_done s)
    (st_discovery_pending s) (Some set) (st_mutators_done s) (st_favoured_weight s).

(** The set behind the reference that is returned; a write through it is
    [with_combine_done]. *)
Definition combined_with_mut (s : QueueEntryStats) : FiniteIntegerSet * QueueEntryStats :=
  let set := default (FiniteIntegerSet_new MAX_QUEUE_ENTRY_CNT) (st_combine_done s) in
  (set, with_combine_done s set).

Definition mark_mutator_done (s : QueueEntryStats) (mutator : MutatorType) : bool * QueueEntryStats :=
  (bool_decide (mutator ∉ st_mutators_done s),
   mk_stats (st_trace s) (st_tracing_in_progress s) (st_blacklisted s) (st_phases_done s)
     (st_discovery_pending s) (st_combine_done s) ({[ mutator ]} ∪ st_mutators_done s)
     (st_favoured_weight s)).

Definition is_mutator_done (s : QueueEntryStats) (mutator : MutatorType) : bool :=
  bool_decide (mutator ∈ st_mutators_done s).

Definition with_favoured_weight (s : QueueEntryStats) (w : option Z) : QueueEntryStats :=
  mk_stats (st_trace s) (st_tracing_in_progress s) (st_blacklisted s) (st_phases_done s)
    (st_discovery_pending s) (st_combine_done s) (st_mutators_done s) w.

Definition is_favoured (s : QueueEntryStats) : bool :=
  match st_favoured_weight s with Some _ => true | None => false end.

(** [NonZeroU32::new] *)
Definition NonZeroU32_new (z : Z) : option Z := if z =? 0 then None else Some z.

Definition mark_favoured_once (s : QueueEntryStats) : QueueEntryStats :=
  match st_favoured_weight s with
  | None => with_favoured_weight s (NonZeroU32_new DEFAULT_FAVOURED_WEIGHT)
  | Some _ => s
  end.

Definition favoured_weight (s : QueueEntryStats) : option Z := st_favoured_weight s.

Definition favoured_decrement (s : QueueEntryStats) : QueueEntryStats :=
  with_favoured_weight s
    match st_favoured_weight s with
    | Some old => if old >? 1 then NonZeroU32_new (old - 1) else Some old
    | None => None
    end.

(** ** [QueueEntry] *)

Record QueueEntry := mk_qe {
  qe_id : Z;
  qe_parent_id : option Z;
  qe_phase : option FuzzingPhase;
  qe_mutator : option MutatorType;
  qe_patch_point : option Z;
  qe_finder : option nat;
  qe_input : Input;
  qe_creation_ts_in_ms : option Z;
  qe_mutations : option MutationCacheContent;
  qe_bitmap_hash32 : Z;
  qe_covered_edges : Bitmap;
  qe_avg_exec_duration_raw : Z;
  qe_stats : nat;
  qe_sink_unstable : bool;
  qe_generation : nat;
  qe_is_crash : bool;
  qe_pcap : option (list Z);
}.

(** The global state: [QUEUE_ENTRY_NEXT_ID], [INPUTS_CACHE] and the statistics. *)
Record QState := mk_qstate {
  qs_next_id : Z;
  qs_inputs_cache : gmap string Input;
  qs_stats : list QueueEntryStats;
}.

Definition QState_init : QState := mk_qstate 0 ∅ [].

Section inputs.
Variable sha256_hex : list Z -> string.

(** [or_insert_with] fills the cache only when the digest is new; the fresh value is
    returned in any case. *)
Definition Input_from_bytes (w : QState) (data : list Z) (origin_path : option string)
    : Input * QState :=
  let sha256_digest := sha256_hex data in
  let ret := mk_input data sha256_digest origin_path in
  let cache :=
    match qs_inputs_cache w !! sha256_digest with
    | Some _ => qs_inputs_cache w
    | None => <[sha256_digest := ret]> (qs_inputs_cache w)
    end in
  (ret, mk_qstate (qs_next_id w) cache (qs_stats w)).
End inputs.

(** [fetch_add] wraps. *)
Definition QueueEntry_new (w : QState) (input : Input) (mutations : option MutationCacheContent)
    (bitmap_hash32 avg_exec_duration_raw : Z) (sink_unstable : bool) (coverage_bitmap : Bitmap)
    (finder : option nat) (phase : option FuzzingPhase) (mutator : option MutatorType)
    (patch_point : option Z) (is_crash : bool) (pcap : option (list Z))
    : outcome (QueueEntry * QState) :=
  let next_id := qs_next_id w in
  covered_edges ← Bitmap_minimize coverage_bitmap;
  mret (mk_qe next_id None phase mutator patch_point finder input None mutations bitmap_hash32
          covered_edges avg_exec_duration_raw (length (qs_stats w)) sink_unstable 0 is_crash pcap,
        mk_qstate ((next_id + 1) mod 2 ^ 64) (qs_inputs_cache w) (qs_stats w ++ [stats_new])).

Definition set_parent (qe parent : QueueEntry) : QueueEntry :=
  mk_qe (qe_id qe) (Some (qe_id parent)) (qe_phase qe) (qe_mutator qe) (qe_patch_point qe)
    (qe_finder qe) (qe_input qe) (qe_creation_ts_in_ms qe) (qe_mutations qe) (qe_bitmap_hash32 qe)
    (qe_covered_edges qe) (qe_avg_exec_duration_raw qe) (qe_stats qe) (qe_sink_unstable qe)
    (qe_generation parent + 1) (qe_is_crash qe) (qe_pcap qe).

Definition set_creation_ts (qe : QueueEntry) (ts : Z) : QueueEntry :=
  mk_qe (qe_id qe) (qe_parent_id qe) (qe_phase qe) (qe_mutator qe) (qe_patch_point qe)
    (qe_finder qe) (qe_input qe) (Some ts) (qe_mutations qe) (qe_bitmap_hash32 qe)
    (qe_covered_edges qe) (qe_avg_exec_duration_raw qe) (qe_stats qe) (qe_sink_unstable qe)
    (qe_generation qe) (qe_is_crash qe) (qe_pcap qe).

Definition QueueEntry_eq (a b : QueueEntry) : bool := qe_id a =? qe_id b.

(** [stats_ro] and an update through [stats_rw] *)
Definition stats_ro (w : QState) (qe : QueueEntry) : outcome QueueEntryStats :=
  slice_get (qs_stats w) (qe_stats qe).

Definition stats_rw (w : QState) (qe : QueueEntry) (f : QueueEntryStats -> QueueEntryStats)
    : outcome QState :=
  s ← stats_ro w qe;
  stats ← slice_set (qs_stats w) (qe_stats qe) (f s);
  mret (mk_qstate (qs_next_id w) (qs_inputs_cache w) stats).

(** ** [Queue] *)

Record Queue := mk_queue { q_entries : list QueueEntry; q_start_ts : Z }.

Definition Queue_new (now : Z) : Queue := mk_queue [] now.

Definition Queue_push (q : Queue) (entry : QueueEntry) : QueueEntry * Queue :=
  (entry, mk_queue (q_entries q ++ [entry]) (q_start_ts q)).

Definition Queue_append (q : Queue) (entries : list QueueEntry) : Queue :=
  foldl (fun q qe => (Queue_push q qe).2) q entries.

(** [QueueIterator] owns a copy of the entries, and [next] pops the last one. *)
Record QueueIterator := mk_queue_iter { qi_entries : list QueueEntry }.

Definition QueueIterator_next (it : QueueIterator) : option QueueEntry * QueueIterator :=
  (last (qi_entries it), mk_queue_iter (removelast (qi_entries it))).

Definition Queue_iter (q : Queue) : QueueIterator := mk_queue_iter (q_entries q).

Definition Queue_iter_without_crashes (q : Queue) : QueueIterator :=
  mk_queue_iter (List.filter (fun e => negb (qe_is_crash e)) (q_entries q)).

(** [collect]: calls [next] until it returns [None]. *)
Fixpoint iter_collect (fuel : nat) (it : QueueIterator) : list QueueEntry :=
  match fuel with
  | O => []
  | S fuel =>
      match QueueIterator_next it with
      | (Some e, it) => e :: iter_collect fuel it
      | (None, _) => []
      end
  end.
Definition collect (it : QueueIterator) : list QueueEntry :=
  iter_collect (S (length (qi_entries it))) it.

Definition Queue_entries (q : Queue) : list QueueEntry := collect (Queue_iter q).
Definition Queue_len (q : Queue) : nat := length (q_entries q).
Definition Queue_is_empty (q : Queue) : bool := bool_decide (q_entries q = []).

Definition Queue_get (q : Queue) (idx : nat) : outcome QueueEntry :=
  _ ← assert_that (idx <? Queue_len q)%nat;
  unwrap (q_entries q !! idx).

Definition Queue_get_id (q : Queue) (id : Z) : outcome QueueEntry :=
  unwrap (List.find (fun entry => qe_id entry =? id) (collect (Queue_iter q))).

Definition Queue_choose_random `{R : Rng} (seed : nat) (q : Queue) : outcome QueueEntry :=
  unwrap (rng_choose seed (collect (Queue_iter q))).

Definition Queue_choose_random_filtered `{R : Rng} (seed : nat) (q : Queue) (f : QueueEntry -> bool)
    : option QueueEntry :=
  let entries := rng_shuffle seed (Queue_entries q) in
  List.find f entries.

Definition Queue_filter (q : Queue) (f : QueueEntry -> bool) : list QueueEntry :=
  foldl (fun ret entry => if f entry then ret ++ [entry] else ret) [] (Queue_entries q).

(** ** Iteration *)

Lemma iter_collect_rev fuel l :
  (length l < fuel)%nat -> iter_collect fuel (mk_queue_iter l) = reverse l.
Proof.
  revert l. induction fuel as [|fuel IH]; intros l Hl; [lia|].
  destruct l as [|x l _] using rev_ind; [done|]. cbn [iter_collect QueueIterator_next qi_entries].
  rewrite last_snoc, removelast_last, reverse_snoc. f_equal. apply IH.
  rewrite length_app in Hl. cbn in Hl. lia.
Qed.

Lemma collect_rev l : collect (mk_queue_iter l) = reverse l.
Proof. unfold collect. apply iter_collect_rev. cbn. lia. Qed.

Lemma Queue_entries_rev q : Queue_entries q = reverse (q_entries q).
Proof. apply collect_rev. Qed.

Lemma append_entries q l : q_entries (Queue_append q l) = q_entries q ++ l.
Proof.
  revert q. unfold Queue_append. induction l as [|x l IH]; intros q; cbn [foldl]; [by rewrite app_nil_r|].
  rewrite IH. cbn. by rewrite <- app_assoc.
Qed.

Lemma find_Some_elem {A} (f : A -> bool) l x : List.find f l = Some x -> x ∈ l /\ f x = true.
Proof. intros H%find_some. by rewrite list_elem_of_In. Qed.

Lemma find_unique {A} (f : A -> bool) l x :
  x ∈ l -> f x = true -> (forall y, y ∈ l -> f y = true -> y = x) -> List.find f l = Some x.
Proof.
  intros Hx Hf Hu. destruct (List.find f l) as [y|] eqn:E.
  - apply find_Some_elem in E as [Hy Hfy]. by rewrite (Hu y Hy Hfy).
  - pose proof (List.find_none f l E x) as Hn. rewrite Hn in Hf; [done|]. by apply list_elem_of_In.
Qed.

(** The entries of a queue built by [new] and [push]: every id is below the counter
    and belongs to one entry, as does every reference to statistics. *)
Record queue_wf (w : QState) (q : Queue) : Prop := {
  qwf_next : fits 64 (qs_next_id w);
  qwf_ids : NoDup (qe_id <$> q_entries q);
  qwf_stats : NoDup (qe_stats <$> q_entries q);
  qwf_below : Forall (fun e => qe_id e < qs_next_id w /\ (qe_stats e < length (qs_stats w))%nat) (q_entries q);
}.

Lemma queue_wf_init now : queue_wf QState_init (Queue_new now).
Proof. split; cbn; [done|constructor..]. Qed.

(** ** Discovery: handing out the covered sites *)

Section discovery.
Context `{R : Rng, !RngLaws R}.

(** Calls of [discovery_allocate] by the workers, each with the state of its generator
    and its maximum. *)
Fixpoint allocate_all (s : QueueEntryStats) (calls : list (nat * nat))
    : outcome (list FiniteIntegerSet * QueueEntryStats) :=
  match calls with
  | [] => mret ([], s)
  | (seed, max) :: calls =>
      r ← discovery_allocate seed s max;
      rs ← allocate_all r.2 calls;
      mret (r.1 :: rs.1, rs.2)
  end.

(** The sites that are still to be handed out. *)
Definition pending_is (s : QueueEntryStats) (P : gset nat) : Prop :=
  forall seed, exists set, pending_set seed s = Ret set /\ represents MAX_PATCHPOINT_CNT set P.

Lemma pending_first s trace :
  st_trace s = Some trace -> st_discovery_pending s = None ->
  (forall id, id ∈ covered trace -> 0 <= id <= Z.of_nat MAX_PATCHPOINT_CNT) ->
  pending_is s (set_map Z.to_nat (covered trace)).
Proof using RngLaws0.
  intros Ht Hp Hid seed. unfold pending_set. rewrite Hp, Ht. cbn [unwrap mbind outcome_bind].
  set (X := set_map Z.to_nat (covered trace) : gset nat).
  destruct (fis_from_iter_represents MAX_PATCHPOINT_CNT (hash_iter seed X)) as (set & E & Hr).
  - rewrite hash_iter_elements. apply Forall_forall. intros e He%elem_of_elements.
    apply elem_of_map in He as (id & -> & Hc). specialize (Hid id Hc). lia.
  - exists set. split; [exact E|]. rewrite hash_iter_elements, list_to_set_elements_L in Hr. done.
Qed.

Lemma allocate_step s P seed max :
  pending_is s P -> exists sel Y s', discovery_allocate seed s max = Ret (sel, s') /\
    represents MAX_PATCHPOINT_CNT sel Y /\ Y ⊆ P /\ size Y = min max (size P) /\ pending_is s' (P ∖ Y).
Proof using RngLaws0.
  intros Hp. destruct (Hp seed) as (set & E & Hr). unfold discovery_allocate. rewrite E.
  cbn [mbind outcome_bind].
  destruct (choose_random_spec seed MAX_PATCHPOINT_CNT set P max Hr) as (sel & Y & -> & HrY & Hsub & Hsz).
  cbn [mbind outcome_bind]. eexists sel, Y, _. split; [reflexivity|].
  do 3 (split; [done|]). intros seed'. eexists. split; [reflexivity|]. by apply sub_assign_represents.
Qed.

Lemma allocate_all_spec calls s P :
  pending_is s P -> exists sels Ys s', allocate_all s calls = Ret (sels, s') /\
    Forall2 (represents MAX_PATCHPOINT_CNT) sels Ys /\ ⋃ Ys ⊆ P /\ pending_is s' (P ∖ ⋃ Ys) /\
    size (⋃ Ys) = sum_list (size <$> Ys) /\
    sum_list (size <$> Ys) = min (sum_list (snd <$> calls)) (size P).
Proof using RngLaws0.
  revert s P. induction calls as [|[seed max] calls IH]; intros s P Hp; cbn [allocate_all].
  { exists [], [], s. split; [done|]. split; [constructor|]. cbn.
    split; [set_solver|]. split; [|done]. by rewrite difference_empty_L. }
  destruct (allocate_step s P seed max Hp) as (sel & Y & s1 & -> & HY & Hsub & Hsz & Hp1).
  cbn [mbind outcome_bind fst snd].
  destruct (IH s1 (P ∖ Y) Hp1) as (sels & Ys & s2 & -> & HYs & Hsub2 & Hp2 & Hun & Hsum).
  cbn [mbind outcome_bind fst snd]. exists (sel :: sels), (Y :: Ys), s2. split; [done|].
  split; [by constructor|]. cbn [fmap list_fmap sum_list_with snd].
  change (id (size Y)) with (size Y). change (id max) with max.
  change (⋃ (Y :: Ys)) with (Y ∪ ⋃ Ys). rewrite size_difference in Hsum by done.
  split; [set_solver|]. split; [|split].
  - assert (E : P ∖ (Y ∪ ⋃ Ys) = (P ∖ Y) ∖ ⋃ Ys) by set_solver. rewrite E. exact Hp2.
  - rewrite size_union by set_solver. lia.
  - pose proof (subseteq_size Y P Hsub). lia.
Qed.

(** C19: the workers that fuzz an input divide its covered sites among each other: no
    call of [discovery_allocate] panics, each hands out as many sites as asked for or
    all that are left, every site is covered by the trace, and no site is handed out
    twice; once the calls asked for as many sites as there are, all have been
    handed out. *)
Theorem discovery_partition s trace calls :
  st_trace s = Some trace -> st_discovery_pending s = None ->
  (forall id, id ∈ covered trace -> 0 <= id <= Z.of_nat MAX_PATCHPOINT_CNT) ->
  let P := set_map Z.to_nat (covered trace) : gset nat in
  exists sels Ys s', allocate_all s calls = Ret (sels, s') /\
    Forall2 (represents MAX_PATCHPOINT_CNT) sels Ys /\
    ⋃ Ys ⊆ P /\ size (⋃ Ys) = sum_list (size <$> Ys) /\
    sum_list (size <$> Ys) = min (sum_list (snd <$> calls)) (size P) /\
    ((size P <= sum_list (snd <$> calls))%nat -> ⋃ Ys = P).
Proof.
  intros Ht Hp Hid P. destruct (allocate_all_spec calls s P) as (sels & Ys & s' & E & HYs & Hsub & _ & Hun & Hsum).
  { by apply pending_first. }
  exists sels, Ys, s'. do 5 (split; [done|]). intros Hall. apply set_eq. intros x. split; [apply Hsub|].
  assert (Heq : ⋃ Ys ≡ P) by (apply set_subseteq_size_equiv; [done|lia]). apply Heq.
Qed.
End discovery.

(** ** Pushing and finding entries *)

Lemma elem_rev_1 {A} (l : list A) x : x ∈ reverse l -> x ∈ l.
Proof. by rewrite elem_of_reverse. Qed.

Lemma NoDup_fmap_elem {A B} (f : A -> B) l x y :
  NoDup (f <$> l) -> x ∈ l -> y ∈ l -> f x = f y -> x = y.
Proof.
  intros Hnd [i Hi]%list_elem_of_lookup [j Hj]%list_elem_of_lookup E.
  assert (Hij : i = j).
  { eapply (NoDup_lookup _ _ _ (f x)); [exact Hnd| |].
    - by rewrite list_lookup_fmap, Hi.
    - by rewrite list_lookup_fmap, Hj, E. }
  subst j. congruence.
Qed.

Lemma NoDup_fmap_snoc {A B} (f : A -> B) l x :
  NoDup (f <$> l) -> (forall y, y ∈ l -> f y <> f x) -> NoDup (f <$> l ++ [x]).
Proof.
  intros Hnd Hx. rewrite fmap_app. apply NoDup_app. split; [done|]. split; [|apply NoDup_singleton].
  intros b (y & -> & Hy)%list_elem_of_fmap Hb. apply (Hx y Hy). by apply list_elem_of_singleton in Hb.
Qed.

Lemma get_id_found q e :
  NoDup (qe_id <$> q_entries q) -> e ∈ q_entries q -> Queue_get_id q (qe_id e) = Ret e.
Proof.
  intros Hnd He. unfold Queue_get_id. unfold Queue_iter. rewrite collect_rev.
  rewrite (find_unique _ _ e); [done|by apply elem_of_reverse|apply Z.eqb_refl|].
  intros y Hy%elem_rev_1 E%Z.eqb_eq. by apply (NoDup_fmap_elem qe_id (q_entries q)).
Qed.

Lemma get_id_missing q id : id ∉ qe_id <$> q_entries q -> Queue_get_id q id = Panic.
Proof.
  intros Hn. unfold Queue_get_id, Queue_iter. rewrite collect_rev.
  destruct (List.find _ _) as [e|] eqn:E; [|done].
  apply find_Some_elem in E as [He%elem_rev_1 Hid%Z.eqb_eq]. contradict Hn.
  apply list_elem_of_fmap. by exists e.
Qed.

Lemma filter_rev_comm {A} (g : A -> bool) l : reverse (List.filter g l) = List.filter g (reverse l).
Proof.
  induction l as [|x l IH]; [done|]. rewrite reverse_cons, List.filter_app. cbn [List.filter].
  destruct (g x); [by rewrite reverse_cons, IH|]. by rewrite app_nil_r.
Qed.

(** An entry made by [QueueEntry::new] and pushed gets an id and statistics no
    other entry of the queue has; it is the first one [entries] yields, [get] finds
    it at the end, [get_id] finds every entry of the queue by its id and panics on
    ids the queue does not have; the other entries keep their statistics. *)
Theorem queue_push_fresh w q input mutations hash dur unstable bm edges finder phase mut pp crash pcap :
  queue_wf w q -> qs_next_id w + 1 < 2 ^ 64 -> Bitmap_minimize bm = Ret edges ->
  exists qe w', QueueEntry_new w input mutations hash dur unstable bm finder phase mut pp crash pcap
                = Ret (qe, w') /\
    let q' := (Queue_push q qe).2 in
    queue_wf w' q' /\ Queue_entries q' = qe :: Queue_entries q /\ Queue_len q' = S (Queue_len q) /\
    Queue_get q' (Queue_len q) = Ret qe /\
    (forall e, e ∈ q_entries q' -> Queue_get_id q' (qe_id e) = Ret e) /\
    (forall id, id ∉ qe_id <$> q_entries q' -> Queue_get_id q' id = Panic) /\
    stats_ro w' qe = Ret stats_new /\
    (forall e, e ∈ q_entries q -> stats_ro w' e = stats_ro w e).
Proof.
  intros [Hnx Hids Hst Hbel] Hn Hbm. unfold QueueEntry_new. rewrite Hbm. cbn [mbind outcome_bind].
  unfold fits in Hnx. eexists _, _. split; [reflexivity|]. cbn [Queue_push snd].
  set (q' := mk_queue _ _). rewrite Forall_forall in Hbel.
  assert (Hwf : queue_wf (mk_qstate ((qs_next_id w + 1) mod 2 ^ 64) (qs_inputs_cache w)
                            (qs_stats w ++ [stats_new])) q').
  { split; cbn.
    - rewrite Z.mod_small by lia. split; lia.
    - apply NoDup_fmap_snoc; [done|]. intros y Hy. destruct (Hbel y Hy). cbn. lia.
    - apply NoDup_fmap_snoc; [done|]. intros y Hy. destruct (Hbel y Hy). cbn. lia.
    - rewrite Z.mod_small, length_app by lia. apply Forall_app. split.
      + apply Forall_forall. intros y Hy. destruct (Hbel y Hy). cbn. lia.
      + constructor; [cbn; lia|constructor]. }
  split; [done|]. split; [rewrite !Queue_entries_rev; apply reverse_snoc|].
  split; [unfold Queue_len; cbn; rewrite length_app; cbn; lia|]. split.
  { unfold q', Queue_get, Queue_len. cbn [q_entries].
    rewrite length_app, (proj2 (Nat.ltb_lt _ _)) by (cbn; lia).
    cbn [assert_that mbind outcome_bind]. by rewrite list_lookup_middle. }
  split; [intros e He; apply get_id_found; [apply Hwf|done]|]. split; [apply get_id_missing|].
  unfold stats_ro, slice_get. cbn. split; [by rewrite list_lookup_middle|].
  intros e He. destruct (Hbel e He) as [_ Hlt]. by rewrite lookup_app_l.
Qed.

(** The statistics are shared by all copies of an entry and by nothing else: an
    update through a copy (with another parent or timestamp) is seen through every
    copy, and no other entry of the queue is affected.  The selections only
    return entries of the queue: [filter] and [iter_without_crashes] exactly those
    asked for, newest first, [choose_random] panics only on an empty queue, and
    [choose_random_filtered] finds an entry whenever there is one. *)
Theorem queue_share_and_select `{R : Rng, !RngLaws R} w q e parent ts f (p : QueueEntry -> bool) seed :
  queue_wf w q -> e ∈ q_entries q ->
  (exists w' s, stats_ro w e = Ret s /\ stats_rw w (set_creation_ts (set_parent e parent) ts) f = Ret w' /\
     stats_ro w' e = Ret (f s) /\ stats_ro w' (set_parent e parent) = Ret (f s) /\
     (forall e', e' ∈ q_entries q -> qe_id e' <> qe_id e -> stats_ro w' e' = stats_ro w e') /\
     queue_wf w' q) /\
  Queue_filter q p = List.filter p (reverse (q_entries q)) /\
  collect (Queue_iter_without_crashes q)
    = List.filter (fun e => negb (qe_is_crash e)) (reverse (q_entries q)) /\
  (exists c, Queue_choose_random seed q = Ret c /\ c ∈ q_entries q) /\
  (Queue_choose_random_filtered seed q p = None <-> forall c, c ∈ q_entries q -> p c = false) /\
  (forall c, Queue_choose_random_filtered seed q p = Some c -> c ∈ q_entries q /\ p c = true).
Proof.
  intros Hwf He. split; [|split; [|split; [|split; [|split]]]].
  - pose proof Hwf as [Hnx Hids Hst Hbel]. rewrite Forall_forall in Hbel.
    destruct (Hbel e He) as [_ Hlt]. destruct (slice_get_lt (qs_stats w) (qe_stats e) Hlt) as (s & Es & Hs).
    exists (mk_qstate (qs_next_id w) (qs_inputs_cache w) (<[qe_stats e := f s]> (qs_stats w))), s.
    unfold stats_rw, stats_ro. cbn [set_creation_ts set_parent qe_stats qs_stats]. rewrite Es.
    cbn [mbind outcome_bind]. rewrite slice_set_lt by done. split; [done|]. split; [done|].
    rewrite slice_get_Ret, list_lookup_insert_eq by done. split; [done|]. split; [done|]. split.
    + intros e' He' Hne. unfold slice_get. rewrite list_lookup_insert_ne; [done|].
      intros E. apply Hne. f_equal. by apply (NoDup_fmap_elem qe_stats (q_entries q)).
    + split; [done|done|done|]. apply Forall_forall. intros y Hy. cbn. rewrite length_insert.
      by apply Hbel.
  - unfold Queue_filter. rewrite foldl_push, list_fmap_id, Queue_entries_rev. done.
  - unfold Queue_iter_without_crashes. rewrite collect_rev. apply filter_rev_comm.
  - unfold Queue_choose_random, Queue_iter. rewrite collect_rev.
    pose proof (rng_choose_elem _ seed (reverse (q_entries q))) as Hc.
    destruct (rng_choose seed (reverse (q_entries q))) as [c|].
    + exists c. split; [done|]. by apply elem_of_reverse.
    + apply (f_equal reverse) in Hc. rewrite reverse_involutive in Hc. rewrite Hc in He.
      by apply elem_of_nil in He.
  - unfold Queue_choose_random_filtered. rewrite Queue_entries_rev. split.
    + intros Hn c Hc. apply (List.find_none _ _ Hn), list_elem_of_In.
      by rewrite rng_shuffle_perm, elem_of_reverse.
    + intros Hall. destruct (List.find _ _) as [c|] eqn:E; [|done].
      apply find_Some_elem in E as [Hc Hp]. rewrite rng_shuffle_perm, elem_of_reverse in Hc.
      by rewrite (Hall c Hc) in Hp.
  - intros c E. unfold Queue_choose_random_filtered in E. apply find_Some_elem in E as [Hc Hp].
    by rewrite rng_shuffle_perm, Queue_entries_rev, elem_of_reverse in Hc.
Qed.

(** ** Witnesses *)

Definition demo_covered : Trace := mk_trace {[ 3 := 1; 8 := 2; 9 := 1 ]} {[ 3 := 1; 8 := 2; 9 := 4 ]}.

Lemma discovery_partition_witness :
  exists sels Ys s', allocate_all (set_trace stats_new demo_covered) [(0, 2); (1, 5)]%nat = Ret (sels, s') /\
    Forall2 (represents MAX_PATCHPOINT_CNT) sels Ys /\ sum_list (size <$> Ys) = 3%nat.
Proof.
  destruct (discovery_partition (set_trace stats_new demo_covered) demo_covered [(0, 2); (1, 5)]%nat)
    as (sels & Ys & s' & E & HYs & _ & _ & Hsum & _); [done|done| |].
  - intros id Hid. unfold MAX_PATCHPOINT_CNT. rewrite N_nat_Z.
    assert (Hin : id ∈ elements (covered demo_covered)) by (by apply elem_of_elements).
    vm_compute in Hin. repeat (apply elem_of_cons in Hin as [->|Hin]; [done|]).
    by apply elem_of_nil in Hin.
  - exists sels, Ys, s'. split; [exact E|]. split; [exact HYs|]. rewrite Hsum. vm_compute. reflexivity.
Defined.

Definition demo_input : Input := mk_input [1; 2] "ab" None.

Definition demo_qe : QueueEntry :=
  mk_qe 0 None None None None None demo_input None None 0 (demo_map 1) 0 0 false 0 false None.
