(* ===== verification/EventCounter.v ===== *)
(** * Event counters

    Models [scheduler/src/fuzzer/event_counter.rs].  The counters are [u64] with
    checked arithmetic; [Instant]s are integers, and the current time is the argument
    [now]. *)

From S2P Require Import Prelude.

Record FuzzerEventCounter := mk_counter {
  init_ts : option Z;
  last_finding_ts : option Z;
  last_crash_ts : option Z;
  execs : Z;
  successful_source_execs : Z;
  edges_found : Z;
  hits_found : Z;
  source_crashes : Z;
  source_timeout : Z;
  source_no_output : Z;
  source_duplicated_output : Z;
  sink_timeout : Z;
  sink_crashes : Z;
  sink_unique_crashes : Z;
}.

#[export] Instance FuzzerEventCounter_eq_dec : EqDecision FuzzerEventCounter.
Proof. solve_decision. Defined.

Definition counter_new : FuzzerEventCounter := mk_counter None None None 0 0 0 0 0 0 0 0 0 0 0.

Definition with_init_ts (c : FuzzerEventCounter) (ts : option Z) : FuzzerEventCounter :=
  mk_counter ts (last_finding_ts c) (last_crash_ts c) (execs c) (successful_source_execs c)
    (edges_found c) (hits_found c) (source_crashes c) (source_timeout c) (source_no_output c)
    (source_duplicated_output c) (sink_timeout c) (sink_crashes c) (sink_unique_crashes c).

(** [replace(now).expect_none(..)] *)
Definition counter_init (c : FuzzerEventCounter) (now : Z) : outcome FuzzerEventCounter :=
  match init_ts c with
  | Some _ => Panic
  | None => mret (with_init_ts c (Some now))
  end.

(** [Instant::elapsed] is zero for instants in the future. *)
Definition elapsed (now ts : Z) : Z := Z.max 0 (now - ts).

Definition runtime (c : FuzzerEventCounter) (now : Z) : option Z := elapsed now <$> init_ts c.

Definition paths (c : FuzzerEventCounter) : outcome Z := checked_add 64 (hits_found c) (edges_found c).

(** The maximum of the timestamps that are set. *)
Definition time_since_last_new_path_or_crash (c : FuzzerEventCounter) (now : Z) : option Z :=
  match last_finding_ts c, last_crash_ts c with
  | Some a, Some b => Some (elapsed now (Z.max a b))
  | Some a, None | None, Some a => Some (elapsed now a)
  | None, None => None
  end.

(** The ten counters the operators visit; [sink_unique_crashes] and the timestamps keep
    the value of the left operand. *)
Definition map2_counters (op : Z -> Z -> outcome Z) (c rhs : FuzzerEventCounter)
    : outcome FuzzerEventCounter :=
  execs' ← op (execs c) (execs rhs);
  successful' ← op (successful_source_execs c) (successful_source_execs rhs);
  edges' ← op (edges_found c) (edges_found rhs);
  hits' ← op (hits_found c) (hits_found rhs);
  crashes' ← op (source_crashes c) (source_crashes rhs);
  timeout' ← op (source_timeout c) (source_timeout rhs);
  no_output' ← op (source_no_output c) (source_no_output rhs);
  duplicated' ← op (source_duplicated_output c) (source_duplicated_output rhs);
  sink_timeout' ← op (sink_timeout c) (sink_timeout rhs);
  sink_crashes' ← op (sink_crashes c) (sink_crashes rhs);
  mret (mk_counter (init_ts c) (last_finding_ts c) (last_crash_ts c) execs' successful' edges' hits'
          crashes' timeout' no_output' duplicated' sink_timeout' sink_crashes' (sink_unique_crashes c)).

Definition add_assign (c rhs : FuzzerEventCounter) : outcome FuzzerEventCounter :=
  map2_counters (checked_add 64) c rhs.
Definition counter_add (c rhs : FuzzerEventCounter) : outcome FuzzerEventCounter :=
  map2_counters (checked_add 64) c rhs.
Definition counter_sub (c rhs : FuzzerEventCounter) : outcome FuzzerEventCounter :=
  map2_counters checked_sub c rhs.
Definition sub_assign (c rhs : FuzzerEventCounter) : outcome FuzzerEventCounter :=
  map2_counters checked_sub c rhs.

(** The body of the loop of [Sum::sum]. *)
Definition sum_step (res e : FuzzerEventCounter) : outcome FuzzerEventCounter :=
  res ← add_assign res e;
  mret match init_ts e with
       | Some ts =>
           match init_ts res with
           | Some res_ts => if res_ts <? ts then with_init_ts res (Some ts) else res
           | None => with_init_ts res (Some ts)
           end
       | None => res
       end.

Fixpoint sum_loop (res : FuzzerEventCounter) (l : list FuzzerEventCounter)
    : outcome FuzzerEventCounter :=
  match l with
  | [] => mret res
  | e :: l => res ← sum_step res e; sum_loop res l
  end.

Definition counter_sum (l : list FuzzerEventCounter) : outcome FuzzerEventCounter :=
  sum_loop counter_new l.

(** ** Sums *)

(** The counters the operators visit, in order. *)
Definition counts (c : FuzzerEventCounter) : list Z :=
  [execs c; successful_source_execs c; edges_found c; hits_found c; source_crashes c;
   source_timeout c; source_no_output c; source_duplicated_output c; sink_timeout c; sink_crashes c].

Definition with_counts (c : FuzzerEventCounter) (l : list Z) : FuzzerEventCounter :=
  mk_counter (init_ts c) (last_finding_ts c) (last_crash_ts c) (l !!! 0%nat) (l !!! 1%nat) (l !!! 2%nat)
    (l !!! 3%nat) (l !!! 4%nat) (l !!! 5%nat) (l !!! 6%nat) (l !!! 7%nat) (l !!! 8%nat) (l !!! 9%nat)
    (sink_unique_crashes c).

Lemma map2_counters_Ret op (f : Z -> Z -> Z) c rhs :
  Forall2 (fun a b => op a b = Ret (f a b)) (counts c) (counts rhs) ->
  map2_counters op c rhs = Ret (with_counts c (zip_with f (counts c) (counts rhs))).
Proof.
  intros H. unfold counts in H. repeat (apply Forall2_cons in H as [? H]).
  unfold map2_counters.
  repeat match goal with E : op ?a ?b = _ |- context [op ?a ?b] => rewrite E; clear E; cbn [mbind outcome_bind] end.
  done.
Qed.

(** The componentwise sum of the counters. *)
Definition counts_sum (l : list FuzzerEventCounter) : list Z :=
  foldr (fun c acc => zip_with Z.add (counts c) acc) (replicate 10 0) l.

(** The newest timestamp. *)
Definition newest (l : list FuzzerEventCounter) (t : option Z) : option Z :=
  foldl (fun t c => match init_ts c, t with
                    | Some a, Some b => Some (Z.max b a)
                    | Some a, None => Some a
                    | None, t => t
                    end) t l.

Definition counter_ok (c : FuzzerEventCounter) : Prop := Forall (fun z => 0 <= z) (counts c).

Lemma counts_with_counts c l : length l = 10%nat -> counts (with_counts c l) = l.
Proof. intros Hl. do 10 (destruct l as [|? l]; [done|]). by destruct l. Qed.

Lemma counts_sum_length l : length (counts_sum l) = 10%nat.
Proof. induction l as [|c l IH]; [done|]. cbn [counts_sum foldr]. rewrite length_zip_with. unfold counts_sum in IH. by rewrite IH. Qed.

Lemma Forall_zip_add (a b : list Z) :
  Forall (fun z => 0 <= z) a -> Forall (fun z => 0 <= z) b ->
  Forall (fun z => 0 <= z) (zip_with Z.add a b).
Proof.
  intros Ha. revert b. induction Ha as [|x a Hx Ha IH]; intros b Hb; [constructor|].
  destruct Hb as [|y b Hy Hb]; cbn; constructor; [lia|auto].
Qed.

Lemma counts_sum_nonneg l : Forall counter_ok l -> Forall (fun z => 0 <= z) (counts_sum l).
Proof.
  induction 1 as [|c l Hc Hl IH]; [by apply Forall_replicate|]. cbn [counts_sum foldr].
  by apply Forall_zip_add.
Qed.

Lemma zip_add_assoc (a b c : list Z) :
  zip_with Z.add a (zip_with Z.add b c) = zip_with Z.add (zip_with Z.add a b) c.
Proof.
  revert b c. induction a as [|x a IH]; intros [|y b] [|z c]; try done. cbn. f_equal; [lia|apply IH].
Qed.

Lemma zip_add_bound (a b c : list Z) w :
  length a = length c -> length b = length c -> Forall (fun z => 0 <= z) c ->
  Forall (fun z => z < w) (zip_with Z.add (zip_with Z.add a b) c) ->
  Forall2 (fun x y => x + y < w) a b.
Proof.
  revert b c. induction a as [|x a IH]; intros [|y b] [|z c] H1 H2 Hc Hs; try done.
  cbn in *. apply Forall_cons_1 in Hc as [Hz Hc]. apply Forall_cons_1 in Hs as [Hxyz Hs].
  constructor; [lia|]. apply (IH b c); [lia|lia|done|done].
Qed.

Lemma zip_with_zeros l : zip_with Z.add (counts counter_new) (counts_sum l) = counts_sum l.
Proof.
  pose proof (counts_sum_length l) as Hl. destruct (counts_sum l) as [|z k]; [done|].
  do 10 (destruct k as [|? k]; try done).
Qed.

Lemma zip_sub_add (a b : list Z) : length a = length b -> zip_with Z.sub (zip_with Z.add a b) b = a.
Proof. revert b. induction a as [|x a IH]; intros [|y b] Hl; try done. cbn in *. f_equal; [lia|auto]. Qed.

Lemma zip_add_sub_ok (a b : list Z) w :
  Forall2 (fun x y => 0 <= x /\ x + y < w) a b ->
  Forall2 (fun x y => checked_sub x y = Ret (x - y)) (zip_with Z.add a b) b.
Proof.
  induction 1 as [|x y a b [Hx _] H IH]; cbn; constructor; [|done].
  unfold checked_sub. by rewrite decide_True by lia.
Qed.

Lemma with_counts_same c l : with_counts (with_counts c l) (counts c) = c.
Proof. by destruct c. Qed.

Lemma sum_step_spec res e :
  Forall2 (fun x y => x + y < 2 ^ 64) (counts res) (counts e) ->
  exists c, sum_step res e = Ret c /\ counts c = zip_with Z.add (counts res) (counts e) /\
    init_ts c = newest [e] (init_ts res) /\ sink_unique_crashes c = sink_unique_crashes res.
Proof.
  intros Hb. unfold sum_step, add_assign. rewrite (map2_counters_Ret _ Z.add).
  2: { apply (Forall2_impl _ _ _ _ Hb). intros. by apply checked_add_lt. }
  cbn [mbind outcome_bind]. set (r := with_counts _ _).
  assert (Hc : counts r = zip_with Z.add (counts res) (counts e))
    by (apply counts_with_counts; by rewrite length_zip_with).
  assert (Hi : init_ts r = init_ts res) by done.
  assert (Hu : sink_unique_crashes r = sink_unique_crashes res) by done.
  cbn [newest foldl]. rewrite <- Hi. eexists. split; [reflexivity|].
  destruct (init_ts e) as [ts|]; [|done]. destruct (init_ts r) as [rts|] eqn:E; [|done].
  destruct (Z.ltb_spec rts ts) as [Hlt|Hge]; (split; [exact Hc|]); (split; [|exact Hu]); cbn.
  - f_equal. lia.
  - change (init_ts r) with (init_ts res) in E. rewrite E. f_equal. lia.
Qed.

Lemma sum_loop_spec l res :
  Forall counter_ok l -> counter_ok res ->
  Forall (fun z => z < 2 ^ 64) (zip_with Z.add (counts res) (counts_sum l)) ->
  exists c, sum_loop res l = Ret c /\ counts c = zip_with Z.add (counts res) (counts_sum l) /\
    init_ts c = newest l (init_ts res) /\ sink_unique_crashes c = sink_unique_crashes res.
Proof.
  intros Hl. revert res. induction Hl as [|e l He Hl IH]; intros res Hr Hb; cbn [sum_loop].
  { exists res. split; [done|]. split; [|done]. unfold counts_sum. cbn.
    unfold counts. by rewrite !Z.add_0_r. }
  cbn [counts_sum foldr] in *. fold (counts_sum l) in *. rewrite zip_add_assoc in *.
  destruct (sum_step_spec res e) as (r1 & -> & Hc1 & Hi1 & Hu1).
  { apply (zip_add_bound _ _ (counts_sum l)); [by rewrite counts_sum_length..|by apply counts_sum_nonneg|done]. }
  cbn [mbind outcome_bind]. rewrite <- Hc1 in *.
  destruct (IH r1) as (c & E & Hc & Hi & Hu); [|done|].
  - unfold counter_ok. rewrite Hc1. by apply Forall_zip_add.
  - exists c. split; [done|]. split; [done|]. split; [|congruence].
    rewrite Hi, Hi1. done.
Qed.

(** The sum of the workers' counters: as long as no total overflows, every counter
    of the sum is the total, except [sink_unique_crashes], which is not summed and
    stays 0; the start of the sum is the newest start, not the oldest.  Subtracting a
    counter that was added gives back the other one. *)
Theorem counter_sum_totals l a b :
  Forall counter_ok l -> Forall (fun z => z < 2 ^ 64) (counts_sum l) ->
  Forall2 (fun x y => 0 <= x /\ x + y < 2 ^ 64) (counts a) (counts b) ->
  (exists c, counter_sum l = Ret c /\ counts c = counts_sum l /\ init_ts c = newest l None /\
     sink_unique_crashes c = 0) /\
  (exists s, counter_add a b = Ret s /\ counter_sub s b = Ret a).
Proof.
  intros Hl Hb Hab. split.
  - destruct (sum_loop_spec l counter_new Hl) as (c & E & Hc & Hi & Hu).
    + by repeat constructor.
    + rewrite zip_with_zeros. done.
    + exists c. rewrite zip_with_zeros in Hc. done.
  - unfold counter_add. rewrite (map2_counters_Ret _ Z.add).
    2: { apply (Forall2_impl _ _ _ _ Hab). intros x y [_ Hxy]. by apply checked_add_lt. }
    eexists. split; [reflexivity|]. unfold counter_sub.
    assert (Hc : counts (with_counts a (zip_with Z.add (counts a) (counts b)))
                 = zip_with Z.add (counts a) (counts b))
      by (apply counts_with_counts; by rewrite length_zip_with).
    rewrite (map2_counters_Ret _ Z.sub).
    + by rewrite Hc, zip_sub_add, with_counts_same by done.
    + rewrite Hc. exact (zip_add_sub_ok _ _ _ Hab).
Qed.

(** ** Witness *)

Definition demo_counter (t n : Z) : FuzzerEventCounter :=
  mk_counter (Some t) None None n 0 1 0 0 0 0 0 0 2 5.
