(* ===== verification/Cerebrum.v ===== *)
(** * Cerebrum: what the workers learn about patch points

    Models [scheduler/src/fuzzer/worker_impl/cerebrum.rs] and [cerebrum_query.rs].
    The hash set of sites is a list without duplicates, and [new_cache] is the
    result of [MutationCache::new].  The fields [active_configuration] and [queue] are
    written once and never read, and are left out; the two functions that are
    [todo!()] always panic. *)

From S2P Require Import Prelude Rng FiniteIntegerSet Bitmap Mutators Messages Trace MutationCacheEntry MutationCacheContent MutationCache MutationSite MutationCacheOps Queue EventCounter.

Record PatchPointStatsEntry := mk_pp_stats {
  yield_cnt : Z;
  source_crash_cnt : Z;
  mutation_cnt : Z;
  source_timeout_cnt : Z;
  used_by : gset Z;
}.

Definition PatchPointStatsEntry_default : PatchPointStatsEntry := mk_pp_stats 0 0 0 0 ∅.

Record FuzzerConfiguration := mk_fuzzer_configuration {
  cfg_entry : QueueEntry;
  cfg_phase : FuzzingPhase;
  cfg_mutator : MutatorType;
  cfg_target_pp_id : Z;
  cfg_counter : FuzzerEventCounter;
}.

(** The argument [iterations] is ignored by the code. *)
Definition FuzzerConfiguration_new (entry : QueueEntry) (phase : FuzzingPhase) (mutator : MutatorType)
    (target_pp_id : Z) (iterations : nat) (counter : FuzzerEventCounter) : FuzzerConfiguration :=
  mk_fuzzer_configuration entry phase mutator target_pp_id counter.

Definition finialize (cfg : FuzzerConfiguration) (other : FuzzerEventCounter)
    : outcome FuzzerConfiguration :=
  other ← sub_assign other (cfg_counter cfg);
  mret (mk_fuzzer_configuration (cfg_entry cfg) (cfg_phase cfg) (cfg_mutator cfg)
          (cfg_target_pp_id cfg) other).

Section cerebrum.
Context `{L : EntryLayout} `{CL : ContentLayout}.

Record Cerebrum := mk_cerebrum {
  patch_points : list MutationSite;
  patch_point_stats : gmap Z PatchPointStatsEntry;
  patch_point_msks : gmap Z (list (Z * list Z));
}.

Definition Cerebrum_new (sites : list MutationSite) : Cerebrum :=
  let patch_points := remove_dups sites in
  mk_cerebrum patch_points
    (foldl (fun m pp => <[ms_id pp := PatchPointStatsEntry_default]> m) ∅ patch_points) ∅.

Definition resolve_pp_id (c : Cerebrum) (id : Z) : outcome MutationSite :=
  unwrap (List.find (fun e => ms_id e =? id) (patch_points c)).

Definition pp_stats (c : Cerebrum) (id : Z) : outcome PatchPointStatsEntry :=
  unwrap (patch_point_stats c !! id).

(** The body of the loop of [report_new_qe] for one entry of the cache. *)
Definition report_mutation (qe_id : Z) (c : Cerebrum) (mc_entry : MutationCacheEntry)
    : outcome Cerebrum :=
  let id := Entry_id mc_entry in
  value ← unwrap (patch_point_stats c !! id);
  let stats := <[id := mk_pp_stats (yield_cnt value) (source_crash_cnt value) (mutation_cnt value)
                         (source_timeout_cnt value) ({[ qe_id ]} ∪ used_by value)]>
                 (patch_point_stats c) in
  let key := default [] (patch_point_msks c !! id) in
  let key :=
    if forallb (fun entry => negb (bool_decide (entry.2 = Entry_get_msk_as_slice mc_entry))) key
    then key ++ [(qe_id, Entry_get_msk_as_slice mc_entry)] else key in
  mret (mk_cerebrum (patch_points c) stats (<[id := key]> (patch_point_msks c))).

Fixpoint report_mutations (qe_id : Z) (c : Cerebrum) (entries : list MutationCacheEntry)
    : outcome Cerebrum :=
  match entries with
  | [] => mret c
  | e :: entries => c ← report_mutation qe_id c e; report_mutations qe_id c entries
  end.

Definition report_new_qe (new_cache : outcome MutationCache) (c : Cerebrum) (qe : QueueEntry)
    : outcome Cerebrum :=
  match qe_mutations qe with
  | Some mutations =>
      mc ← new_cache;
      mc ← MutationCache_load_bytes mc mutations;
      report_mutations (qe_id qe) c (MutationCache_entries mc)
  | None => mret c
  end.

Definition report_crash (c : Cerebrum) : outcome Cerebrum := Panic.

Definition report_configuration (c : Cerebrum) (cfg : FuzzerConfiguration) : outcome Cerebrum :=
  let counter := cfg_counter cfg in
  p ← unwrap (patch_point_stats c !! cfg_target_pp_id cfg);
  crash ← checked_add 64 (source_crash_cnt p) (source_crashes counter);
  mutation ← checked_add 64 (mutation_cnt p) (execs counter);
  timeout ← checked_add 64 (source_timeout_cnt p) (source_timeout counter);
  found ← checked_add 64 (edges_found counter) (hits_found counter);
  yields ← checked_add 64 (yield_cnt p) found;
  mret (mk_cerebrum (patch_points c)
          (<[cfg_target_pp_id cfg := mk_pp_stats yields crash mutation timeout (used_by p)]>
             (patch_point_stats c)) (patch_point_msks c)).

(** ** Queries *)

(** [filter(|e| f(pp_stats(e.id()))).map(|e| e.id()).collect()] *)
Fixpoint ids_with (c : Cerebrum) (f : PatchPointStatsEntry -> bool) (pps : list MutationSite)
    : outcome (gset Z) :=
  match pps with
  | [] => mret ∅
  | e :: pps =>
      stats ← pp_stats c (ms_id e);
      rest ← ids_with c f pps;
      mret (if f stats then {[ ms_id e ]} ∪ rest else rest)
  end.

Definition patch_points_unfuzzed (c : Cerebrum) : outcome (gset Z) :=
  ids_with c (fun s => mutation_cnt s =? 0) (patch_points c).

Definition patch_points_yielded (c : Cerebrum) : outcome (gset Z) :=
  ids_with c (fun s => yield_cnt s >? 0) (patch_points c).

(** The loop over the masks: those of queue entries that were not tried yet, which are
    marked as tried. *)
Fixpoint untried_msks (already_tried : FiniteIntegerSet) (msks : list (Z * list Z))
    : outcome (list (list Z) * FiniteIntegerSet) :=
  match msks with
  | [] => mret ([], already_tried)
  | (qid, msk) :: msks =>
      r ← FiniteIntegerSet_insert already_tried (Z.to_nat qid);
      rest ← untried_msks r.2 msks;
      mret (if r.1 : bool then (msk :: rest.1, rest.2) else rest)
  end.

Definition patch_point_yielding_msks (c : Cerebrum) (stats : QueueEntryStats) (id : Z)
    : outcome (list (list Z) * QueueEntryStats) :=
  let (already_tried, stats) := combined_with_mut stats in
  match patch_point_msks c !! id with
  | Some msks =>
      r ← untried_msks already_tried msks;
      mret (r.1, with_combine_done stats r.2)
  | None => mret ([], stats)
  end.

Definition patch_points_in_same_function (c : Cerebrum) (id : Z) : outcome (gset Z) :=
  pp ← resolve_pp_id c id;
  mret (list_to_set (ms_id <$> List.filter (fun other => ms_function_address other =? ms_function_address pp)
                                 (patch_points c))).

(** [for_each] over the covered sites; [contains] and [push] on the result. *)
Fixpoint functions_ordered (c : Cerebrum) (result : list Z) (ids : list Z) : outcome (list Z) :=
  match ids with
  | [] => mret result
  | pp_id :: ids =>
      pp ← resolve_pp_id c pp_id;
      let result :=
        if bool_decide (ms_function_address pp ∈ result) then result
        else result ++ [ms_function_address pp] in
      functions_ordered c result ids
  end.

Definition trace_get_functions_ordered (c : Cerebrum) (trace : Trace) : outcome (list Z) :=
  functions_ordered c [] (covered_exec_ordered trace).

Definition patch_point_ids_to_patch_point (c : Cerebrum) (ids : list Z) : outcome (list MutationSite) :=
  mapM (resolve_pp_id c) ids.
End cerebrum.

Section cerebrum_lemmas.
Context `{L : EntryLayout} `{CL : ContentLayout} `{!EntryLayoutLaws L}.
Implicit Types c : Cerebrum.
Implicit Types es : list MutationCacheEntry.

(** ** Reports *)

(** The masks known for a site. *)
Definition site_msks c (id : Z) : list (Z * list Z) := default [] (patch_point_msks c !! id).

(** The masks of a site are distinct. *)
Definition msks_wf c : Prop := forall id, NoDup (snd <$> site_msks c id).

(** [c'] knows of the mutations [es] of queue entry [qid], and otherwise what [c] knew. *)
Record learned c c' (qid : Z) es : Prop := {
  ln_points : patch_points c' = patch_points c;
  ln_stats : forall id, patch_point_stats c' !! id =
    (fun s => mk_pp_stats (yield_cnt s) (source_crash_cnt s) (mutation_cnt s) (source_timeout_cnt s)
       (if decide (id ∈ Entry_id <$> es) then {[ qid ]} ∪ used_by s else used_by s))
    <$> patch_point_stats c !! id;
  ln_prefix : forall id, exists new, site_msks c' id = site_msks c id ++ new /\
    Forall (fun p => p.1 = qid) new;
  ln_msks : forall id m, m ∈ snd <$> site_msks c' id <->
    m ∈ snd <$> site_msks c id \/ exists e, e ∈ es /\ Entry_id e = id /\ m = Entry_get_msk_as_slice e;
  ln_wf : msks_wf c -> msks_wf c';
}.

Lemma learned_nil c qid : learned c c qid [].
Proof.
  split; [done| | | |done].
  - intros id. destruct (patch_point_stats c !! id) as [[]|]; done.
  - intros id. exists []. by rewrite app_nil_r.
  - intros id m. split; [by left|]. intros [?|(e & He & _)]; [done|]. by apply elem_of_nil in He.
Qed.

Lemma learned_trans c c1 c2 qid es1 es2 :
  learned c c1 qid es1 -> learned c1 c2 qid es2 -> learned c c2 qid (es1 ++ es2).
Proof.
  intros [P1 S1 F1 M1 W1] [P2 S2 F2 M2 W2]. split; [congruence| | | |auto].
  - intros id. rewrite S2, S1. destruct (patch_point_stats c !! id) as [s|]; [|done]. cbn. do 2 f_equal.
    rewrite fmap_app. destruct (decide (id ∈ (Entry_id <$> es1) ++ (Entry_id <$> es2))) as [Hi|Hi];
      rewrite elem_of_app in Hi; repeat case_decide; set_solver.
  - intros id. destruct (F1 id) as (n1 & E1 & H1), (F2 id) as (n2 & E2 & H2).
    exists (n1 ++ n2). rewrite E2, E1, app_assoc. split; [done|]. by apply Forall_app.
  - intros id m. rewrite M2, M1. setoid_rewrite elem_of_app. naive_solver.
Qed.

Lemma forallb_fresh (key : list (Z * list Z)) msk :
  forallb (fun entry => negb (bool_decide (entry.2 = msk))) key = bool_decide (msk ∉ snd <$> key).
Proof.
  destruct (forallb _ _) eqn:E; symmetry.
  - apply bool_decide_eq_true. intros (p & -> & Hp)%list_elem_of_fmap.
    rewrite forallb_forall in E. apply list_elem_of_In in Hp. specialize (E p Hp).
    by rewrite bool_decide_true in E.
  - apply bool_decide_eq_false. intros Hn. apply not_true_iff_false in E. apply E.
    apply forallb_forall. intros p Hp%list_elem_of_In. apply negb_true_iff, bool_decide_eq_false.
    intros <-. apply Hn. apply list_elem_of_fmap. by exists p.
Qed.

Lemma report_mutation_spec qid c e :
  is_Some (patch_point_stats c !! Entry_id e) ->
  exists c', report_mutation qid c e = Ret c' /\ learned c c' qid [e].
Proof.
  intros [s Hs]. unfold report_mutation. rewrite Hs. cbn [unwrap mbind outcome_bind].
  rewrite forallb_fresh. fold (site_msks c (Entry_id e)).
  eexists. split; [reflexivity|].
  set (key := if bool_decide _ then _ else _).
  assert (Hkey : exists new, key = site_msks c (Entry_id e) ++ new /\ Forall (fun p => p.1 = qid) new /\
    (new = [] /\ Entry_get_msk_as_slice e ∈ snd <$> site_msks c (Entry_id e) \/
     new = [(qid, Entry_get_msk_as_slice e)] /\ Entry_get_msk_as_slice e ∉ snd <$> site_msks c (Entry_id e))).
  { unfold key. case_bool_decide as Hb.
    - exists [(qid, Entry_get_msk_as_slice e)]. split; [done|]. split; [by repeat constructor|by right].
    - exists []. rewrite app_nil_r. split; [done|]. split; [done|]. left. split; [done|].
      by destruct (decide (Entry_get_msk_as_slice e ∈ snd <$> site_msks c (Entry_id e))). }
  destruct Hkey as (new & Hkey & Hq & Hnew).
  assert (Hm : forall id, site_msks (mk_cerebrum (patch_points c)
     (<[Entry_id e := mk_pp_stats (yield_cnt s) (source_crash_cnt s) (mutation_cnt s) (source_timeout_cnt s)
        ({[ qid ]} ∪ used_by s)]> (patch_point_stats c)) (<[Entry_id e := key]> (patch_point_msks c))) id
     = if decide (id = Entry_id e) then key else site_msks c id).
  { intros id. unfold site_msks. cbn. case_decide as Hd; [subst; by rewrite lookup_insert_eq|].
    by rewrite lookup_insert_ne by done. }
  split; [done| | | |].
  - intros id. cbn. destruct (decide (id = Entry_id e)) as [->|Hne].
    + rewrite lookup_insert_eq, Hs. cbn. by rewrite decide_True by (by left).
    + rewrite lookup_insert_ne by done. destruct (patch_point_stats c !! id) as [[]|]; [|done]. cbn.
      rewrite decide_False; [done|]. by rewrite list_elem_of_singleton.
  - intros id. rewrite Hm. case_decide as Hd; [subst id; by exists new|].
    exists []. by rewrite app_nil_r.
  - intros id m. rewrite Hm. setoid_rewrite list_elem_of_singleton. case_decide as Hd.
    + subst id. rewrite Hkey, fmap_app, elem_of_app.
      destruct Hnew as [[-> Hin]|[-> Hnin]]; cbn; rewrite ?elem_of_nil, ?list_elem_of_singleton.
      * split; [naive_solver|]. intros [?|(e' & -> & _ & ->)]; auto.
      * split; [naive_solver|]. intros [?|(e' & -> & _ & ->)]; auto.
    + split; [by left|]. intros [?|(e' & -> & <- & _)]; done.
  - intros Hwf id. rewrite Hm. case_decide as Hd; [|apply Hwf]. rewrite Hkey, fmap_app.
    destruct Hnew as [[-> Hin]|[-> Hnin]]; [rewrite app_nil_r; apply Hwf|].
    apply NoDup_app. split; [apply Hwf|]. split; [|apply NoDup_singleton].
    intros x Hx Hx'. apply list_elem_of_singleton in Hx'. by subst x.
Qed.

Lemma report_mutations_spec qid es c :
  Forall (fun e => is_Some (patch_point_stats c !! Entry_id e)) es ->
  exists c', report_mutations qid c es = Ret c' /\ learned c c' qid es.
Proof.
  revert c. induction es as [|e es IH]; intros c Hes; cbn [report_mutations].
  { exists c. split; [done|apply learned_nil]. }
  apply Forall_cons_1 in Hes as [He Hes].
  destruct (report_mutation_spec qid c e He) as (c1 & -> & H1). cbn [mbind outcome_bind].
  destruct (IH c1) as (c2 & -> & H2).
  - apply (Forall_impl _ _ _ Hes). intros x Hx. rewrite (ln_stats _ _ _ _ H1). by apply fmap_is_Some.
  - exists c2. split; [done|]. by apply (learned_trans c c1 c2 qid [e] es).
Qed.

(** [report_new_qe] records the mutations of a new queue entry: every site it
    mutates lists the entry as its user and knows its mask, the masks of a site stay
    distinct and keep their order, new ones are appended under the id of the entry, and
    the counters of all sites and everything about other sites stay as they were. *)
Theorem cerebrum_learns mc0 c qe img es :
  qe_mutations qe = Some img -> image_of img es -> cache_rep mc0 [] ->
  (image_length img <= mc_content_size mc0)%nat -> msks_wf c ->
  Forall (fun e => is_Some (patch_point_stats c !! Entry_id e)) es ->
  exists c', report_new_qe (Ret mc0) c qe = Ret c' /\ learned c c' (qe_id qe) es /\ msks_wf c'.
Proof.
  intros Hq Himg Hmc Hfit Hwf Hes. unfold report_new_qe. rewrite Hq. cbn [mbind outcome_bind].
  destruct (load_image mc0 [] img es Hmc Himg) as [Hload _]. destruct (Hload Hfit) as (mc & -> & Hr).
  cbn [mbind outcome_bind]. rewrite (cache_entries_rep mc es Hr).
  destruct (report_mutations_spec (qe_id qe) es c Hes) as (c' & E & Hl).
  exists c'. split; [done|]. split; [done|]. by apply (ln_wf _ _ _ _ Hl).
Qed.

(** ** Masks to combine *)

Definition qids (msks : list (Z * list Z)) : gset nat := list_to_set ((fun p => Z.to_nat p.1) <$> msks).

Lemma untried_msks_spec N msks s X :
  represents N s X -> Forall (fun p => 0 <= p.1 <= Z.of_nat N) msks -> NoDup (fst <$> msks) ->
  exists s', untried_msks s msks
             = Ret (snd <$> List.filter (fun p => bool_decide (Z.to_nat p.1 ∉ X)) msks, s') /\
    represents N s' (X ∪ qids msks).
Proof.
  intros Hr Hid. revert s X Hr. induction Hid as [|[q m] msks Hq Hid IH]; intros s X Hr Hnd;
    cbn [untried_msks List.filter].
  { exists s. split; [done|]. unfold qids. cbn. by rewrite union_empty_r_L. }
  cbn [fst fmap list_fmap] in *. apply NoDup_cons in Hnd as [Hnin Hnd].
  destruct (insert_represents N s X (Z.to_nat q) Hr) as (s1 & -> & Hr1); [lia|]. cbn [mbind outcome_bind fst snd].
  destruct (IH s1 _ Hr1 Hnd) as (s2 & -> & Hr2). cbn [mbind outcome_bind fst snd].
  assert (Hf : List.filter (fun p => bool_decide (Z.to_nat p.1 ∉ {[ Z.to_nat q ]} ∪ X)) msks
               = List.filter (fun p => bool_decide (Z.to_nat p.1 ∉ X)) msks).
  { clear IH Hr2. induction Hid as [|[q' m'] msks Hq' Hid IH]; [done|]. cbn in Hnin, Hnd |- *.
    apply not_elem_of_cons in Hnin as [Hne Hnin]. apply NoDup_cons in Hnd as [_ Hnd].
    cbn in Hq, Hq'. rewrite IH by done. assert (Hne' : Z.to_nat q' <> Z.to_nat q) by lia.
    rewrite (bool_decide_ext (Z.to_nat q' ∉ {[ Z.to_nat q ]} ∪ X) (Z.to_nat q' ∉ X)) by set_solver.
    done. }
  rewrite Hf in *. exists s2. split; [by case_bool_decide|].
  replace (X ∪ qids ((q, m) :: msks)) with ({[ Z.to_nat q ]} ∪ X ∪ qids msks); [done|].
  unfold qids. cbn. set_solver.
Qed.

Lemma filter_none {A} (f : A -> bool) (l : list A) :
  (forall x, x ∈ l -> f x = false) -> List.filter f l = [].
Proof.
  induction l as [|x l IH]; intros Hf; [done|]. cbn. rewrite Hf by (by left). apply IH.
  intros y Hy. apply Hf. by right.
Qed.

(** The queue entries whose masks were tried on an entry with these statistics. *)
Definition tried_is (s : QueueEntryStats) (X : gset nat) : Prop :=
  represents MAX_QUEUE_ENTRY_CNT (combined_with_mut s).1 X.

Lemma yielding_spec c s X id :
  tried_is s X -> Forall (fun p => 0 <= p.1 <= Z.of_nat MAX_QUEUE_ENTRY_CNT) (site_msks c id) ->
  NoDup (fst <$> site_msks c id) ->
  exists s', patch_point_yielding_msks c s id
             = Ret (snd <$> List.filter (fun p => bool_decide (Z.to_nat p.1 ∉ X)) (site_msks c id), s') /\
    tried_is s' (X ∪ qids (site_msks c id)).
Proof.
  intros Hs Hid Hnd. unfold patch_point_yielding_msks, site_msks in *.
  destruct (combined_with_mut s) as [tried s1] eqn:Ec.
  destruct (patch_point_msks c !! id) as [msks|]; cbn [default] in *.
  - destruct (untried_msks_spec MAX_QUEUE_ENTRY_CNT msks tried X) as (s' & -> & Hr); [|done..|].
    { unfold tried_is in Hs. by rewrite Ec in Hs. }
    cbn [mbind outcome_bind fst snd]. eexists. split; [reflexivity|]. exact Hr.
  - exists s1. split; [done|]. unfold qids. cbn. rewrite union_empty_r_L. unfold tried_is in *.
    unfold combined_with_mut in *. injection Ec as <- <-. exact Hs.
Qed.

(** The combine phase tries the masks of every other queue entry once per entry:
    [patch_point_yielding_msks] returns exactly the masks of those queue entries that
    were not tried on the entry before and marks them as tried, so asking again
    returns nothing; and a queue entry that was tried for one site is left out for
    every other site, although its mask there is another one. *)
Theorem yielding_msks_once c s X id id' :
  tried_is s X ->
  (forall i, i = id \/ i = id' ->
     Forall (fun p => 0 <= p.1 <= Z.of_nat MAX_QUEUE_ENTRY_CNT) (site_msks c i) /\
     NoDup (fst <$> site_msks c i)) ->
  exists s' s'', patch_point_yielding_msks c s id
      = Ret (snd <$> List.filter (fun p => bool_decide (Z.to_nat p.1 ∉ X)) (site_msks c id), s') /\
    (patch_point_yielding_msks c s' id = Ret ([], s'')) /\
    exists s3, patch_point_yielding_msks c s' id'
      = Ret (snd <$> List.filter (fun p => bool_decide (Z.to_nat p.1 ∉ X ∪ qids (site_msks c id)))
                       (site_msks c id'), s3).
Proof.
  intros Hs Hwf. destruct (Hwf id) as [H1 H2]; [by left|]. destruct (Hwf id') as [H3 H4]; [by right|].
  destruct (yielding_spec c s X id Hs H1 H2) as (s1 & E1 & Hs1).
  destruct (yielding_spec c s1 _ id Hs1 H1 H2) as (s2 & E2 & _).
  destruct (yielding_spec c s1 _ id' Hs1 H3 H4) as (s3 & E3 & _).
  exists s1, s2. split; [done|]. split; [|by exists s3]. rewrite E2. do 2 f_equal.
  rewrite filter_none; [done|]. intros p Hp. apply bool_decide_eq_false. intros Hn. apply Hn.
  apply elem_of_union. right. unfold qids. apply elem_of_list_to_set, list_elem_of_fmap. by exists p.
Qed.
End cerebrum_lemmas.

(** ** Witnesses *)

#[local] Existing Instance demo_stackmap.
#[local] Existing Instance demo_layout.
#[local] Existing Instance demo_layout_laws.
#[local] Existing Instance demo_content_layout.

Definition demo_cerebrum : Cerebrum := mk_cerebrum [] {[ 7 := PatchPointStatsEntry_default ]} ∅.

Definition demo_qe_with (img : MutationCacheContent) : QueueEntry :=
  mk_qe 4 None None None None None demo_input None (Some img) 0 (demo_map 1) 0 0 false 0 false None.

Definition demo_masks : Cerebrum :=
  mk_cerebrum [] ∅ {[ 7 := [(2, [1]); (5, [9])]; 8 := [(2, [3]); (6, [4])] ]}.
