(* ===== verification/Scheduling.v ===== *)
(** * Choosing the next entry

    Models [scheduler/src/fuzzer/worker_impl/scheduling.rs] and the [FuzzerState] of
    [scheduler/src/fuzzer/worker.rs].  Weighted choices of the [rand] crate are the
    interface [WeightedRng]; the iteration order of the hash sets of entries is the
    parameter [set_order]; time is an argument. *)

From S2P Require Import Prelude Rng FiniteIntegerSet Bitmap Mutators MutationCacheEntry MutationCacheContent MutationCache Messages Trace Queue.

(** [WeightedIndex::new(weights).ok()] followed by [sample]; [choose_weighted] samples
    an index in the same way. *)
Class WeightedRng := { weighted_index : nat -> list Z -> option nat }.

Class WeightedRngLaws `(WeightedRng) := {
  (** An index is drawn with a probability proportional to its weight. *)
  weighted_index_positive : forall s ws i, weighted_index s ws = Some i -> exists w, ws !! i = Some w /\ 0 < w;
  (** There is none when there are no weights or all are zero. *)
  weighted_index_fails : forall s ws, Forall (fun w => 0 <= w) ws ->
    weighted_index s ws = None <-> Forall (fun w => w = 0) ws;
}.

Definition choose_weighted `{WeightedRng} {A} (s : nat) (l : list A) (weight : A -> Z) : option A :=
  i ← weighted_index s (weight <$> l); l !! i.

(** ** [FuzzerState] *)

Record FuzzerState := mk_fuzzer_state {
  fs_entry : option QueueEntry;
  fs_phase : option FuzzingPhase;
  fs_patch_point : option Z;
  fs_mutator : option MutatorType;
  fs_last_mutator : option MutatorType;
  fs_mutator_total_iterations : option nat;
  fs_mutator_iterations : option nat;
  fs_phases_finished : gset FuzzingPhase;
}.

Definition FuzzerState_default : FuzzerState := mk_fuzzer_state None None None None None None None ∅.

Definition set_entry (s : FuzzerState) (entry : QueueEntry) : FuzzerState :=
  mk_fuzzer_state (Some entry) (fs_phase s) (fs_patch_point s) (fs_mutator s) (fs_last_mutator s)
    (fs_mutator_total_iterations s) (fs_mutator_iterations s) (fs_phases_finished s).

Definition set_phase (s : FuzzerState) (phase : FuzzingPhase) : FuzzerState :=
  mk_fuzzer_state (fs_entry s) (Some phase) (fs_patch_point s) (fs_mutator s) (fs_last_mutator s)
    (fs_mutator_total_iterations s) (fs_mutator_iterations s) (fs_phases_finished s).

Definition set_patch_point (s : FuzzerState) (patch_point : Z) : FuzzerState :=
  mk_fuzzer_state (fs_entry s) (fs_phase s) (Some patch_point) (fs_mutator s) (fs_last_mutator s)
    (fs_mutator_total_iterations s) (fs_mutator_iterations s) (fs_phases_finished s).

Definition set_mutator (s : FuzzerState) (mutator : MutatorType) (total_iterations : nat) : FuzzerState :=
  let last := match fs_mutator s with Some m => Some m | None => fs_last_mutator s end in
  mk_fuzzer_state (fs_entry s) (fs_phase s) (fs_patch_point s) (Some mutator) last
    (Some total_iterations) (fs_mutator_iterations s) (fs_phases_finished s).

Definition set_iterations (s : FuzzerState) (iterations : nat) : outcome FuzzerState :=
  total ← unwrap (fs_mutator_total_iterations s);
  _ ← assert_that (iterations <=? total)%nat;
  mret (mk_fuzzer_state (fs_entry s) (fs_phase s) (fs_patch_point s) (fs_mutator s) (fs_last_mutator s)
    (fs_mutator_total_iterations s) (Some iterations) (fs_phases_finished s)).

Definition mark_phase_as_done (s : FuzzerState) (phase : FuzzingPhase) : FuzzerState :=
  mk_fuzzer_state (fs_entry s) (fs_phase s) (fs_patch_point s) (fs_mutator s) (fs_last_mutator s)
    (fs_mutator_total_iterations s) (fs_mutator_iterations s) ({[ phase ]} ∪ fs_phases_finished s).

Definition state_is_phase_done (s : FuzzerState) (phase : FuzzingPhase) : bool :=
  bool_decide (phase ∈ fs_phases_finished s).

Definition state_entry (s : FuzzerState) : outcome QueueEntry := unwrap (fs_entry s).
Definition state_phase (s : FuzzerState) : outcome FuzzingPhase := unwrap (fs_phase s).
Definition state_patch_point (s : FuzzerState) : outcome Z := unwrap (fs_patch_point s).
Definition state_mutator (s : FuzzerState) : outcome MutatorType := unwrap (fs_mutator s).

(** ** Favoured entries *)

Definition coverage (e : QueueEntry) : nat := Bitmap_count_bits_set (qe_covered_edges e).

(** [entry(e).or_insert_with(..)]; entries are hashed and compared by their id. *)
Definition lut_get (lut : gmap Z nat) (e : QueueEntry) : nat * gmap Z nat :=
  match lut !! qe_id e with
  | Some n => (n, lut)
  | None => (coverage e, <[qe_id e := coverage e]> lut)
  end.

Record Dominators := mk_dominators {
  dm_edge_dominator : gmap nat QueueEntry;
  dm_bytes_set_lut : gmap Z nat;
  dm_qs : QState;
}.

(** The body of the loop over the edges of a candidate. *)
Definition dominate_edge (candidate : QueueEntry) (d : Dominators) (edge : nat) : outcome Dominators :=
  match dm_edge_dominator d !! edge with
  | Some current_dominator =>
      let (current_bytes_set, lut) := lut_get (dm_bytes_set_lut d) current_dominator in
      let (candidate_bytes_set, lut) := lut_get lut candidate in
      if (current_bytes_set <? candidate_bytes_set)%nat
      then
        qs ← stats_rw (dm_qs d) current_dominator favoured_decrement;
        mret (mk_dominators (<[edge := candidate]> (dm_edge_dominator d)) lut qs)
      else mret (mk_dominators (dm_edge_dominator d) lut (dm_qs d))
  | None => mret (mk_dominators (<[edge := candidate]> (dm_edge_dominator d)) (dm_bytes_set_lut d) (dm_qs d))
  end.

Fixpoint dominate_edges (candidate : QueueEntry) (d : Dominators) (edges : list nat) : outcome Dominators :=
  match edges with
  | [] => mret d
  | edge :: edges => d ← dominate_edge candidate d edge; dominate_edges candidate d edges
  end.

Fixpoint dominate (d : Dominators) (entries : list QueueEntry) : outcome Dominators :=
  match entries with
  | [] => mret d
  | candidate :: entries =>
      d ← dominate_edges candidate d (Bitmap_edges (qe_covered_edges candidate));
      dominate d entries
  end.

Fixpoint mark_all_favoured (qs : QState) (entries : list QueueEntry) : outcome QState :=
  match entries with
  | [] => mret qs
  | entry :: entries => qs ← stats_rw qs entry mark_favoured_once; mark_all_favoured qs entries
  end.

Definition recalculate_favoured_sink_dominator_edges (qs : QState) (entries : list QueueEntry) : outcome QState :=
  d ← dominate (mk_dominators ∅ ∅ qs) entries;
  mark_all_favoured (dm_qs d) (map_to_list (dm_edge_dominator d)).*2.

Section schedule.
Context `{L : EntryLayout} `{CL : ContentLayout}.
Context `{R : Rng} `{WR : WeightedRng}.
(** The iteration order of a hash set of entries. *)
Context (set_order : list QueueEntry -> list QueueEntry).
(** The result of [MutationCache::new]. *)
Context (new_cache : outcome MutationCache).

(** [HashSet::insert] *)
Definition set_insert (s : list QueueEntry) (e : QueueEntry) : list QueueEntry :=
  if existsb (fun x => QueueEntry_eq x e) s then s else s ++ [e].

Definition insert_pps (entry : QueueEntry) (m : gmap Z (list QueueEntry)) (mces : list MutationCacheEntry)
    : gmap Z (list QueueEntry) :=
  foldl (fun m mce => <[Entry_id mce := set_insert (default [] (m !! Entry_id mce)) entry]> m) m mces.

Fixpoint pps_of_entries (mc : MutationCache) (m : gmap Z (list QueueEntry)) (entries : list QueueEntry)
    : outcome (gmap Z (list QueueEntry)) :=
  match entries with
  | [] => mret m
  | entry :: entries =>
      match qe_mutations entry with
      | Some mc_content =>
          mc ← MutationCache_load_bytes mc mc_content;
          pps_of_entries mc (insert_pps entry m (MutationCache_entries mc)) entries
      | None => pps_of_entries mc m entries
      end
  end.

(** [Iterator::max_by_key]: the last one of the greatest *)
Definition max_by_key {A} (key : A -> nat) (l : list A) : option A :=
  foldl (fun best x =>
    match best with
    | Some b => if (key x <? key b)%nat then Some b else Some x
    | None => Some x
    end) None l.

Fixpoint mark_greatest (qs : QState) (sets : list (list QueueEntry)) : outcome QState :=
  match sets with
  | [] => mret qs
  | qentries :: sets =>
      entry ← unwrap (max_by_key coverage (set_order qentries));
      qs ← stats_rw qs entry mark_favoured_once;
      mark_greatest qs sets
  end.

Definition recalculate_favoured_unique_patch_point_ids (qs : QState) (entries : list QueueEntry) : outcome QState :=
  mc ← new_cache;
  pp_to_entries ← pps_of_entries mc ∅ entries;
  mark_greatest qs (map_to_list pp_to_entries).*2.

(** Durations are in seconds. *)
Definition FAVOURED_RECALCULATION_START_DELAY : Z := 3600.
Definition FAVOURED_RECALCULATION_INTERVAL : Z := 100.

(** [ctr] is the shared [RECALCULATION_CTR]. *)
Definition recalculate_favoured (elapsed ctr : Z) (qs : QState) (entries : list QueueEntry)
    : outcome (QState * Z) :=
  if elapsed <? FAVOURED_RECALCULATION_START_DELAY then mret (qs, ctr)
  else
    let val := ctr in
    let ctr := (ctr + 1) mod 2 ^ 64 in
    if negb (val mod FAVOURED_RECALCULATION_INTERVAL =? 0) then mret (qs, ctr)
    else
      qs ← recalculate_favoured_sink_dominator_edges qs entries;
      qs ← recalculate_favoured_unique_patch_point_ids qs entries;
      mret (qs, ctr).

(** ** Selecting an entry *)

(** A filter that reads the statistics. *)
Fixpoint filter_stats (qs : QState) (f : QueueEntry -> QueueEntryStats -> bool) (entries : list QueueEntry)
    : outcome (list QueueEntry) :=
  match entries with
  | [] => mret []
  | e :: entries =>
      s ← stats_ro qs e;
      rest ← filter_stats qs f entries;
      mret (if f e s then e :: rest else rest)
  end.

Definition filter_entries (generation_ceiling : option nat) (qs : QState) (entries : list QueueEntry)
    : outcome (list QueueEntry) :=
  filter_stats qs (fun e s =>
    match generation_ceiling with Some c => (qe_generation e <=? c)%nat | None => true end
    && negb (st_blacklisted s)) entries.

Definition favoured_count (qs : QState) (entries : list QueueEntry) : outcome nat :=
  l ← filter_stats qs (fun _ s => is_favoured s) entries; mret (length l).

(** The weight of an entry, as [choose_weighted] asks for it. *)
Definition entry_weight (qs : QState) (e : QueueEntry) : Z :=
  match stats_ro qs e with Ret s => default 1 (favoured_weight s) | Panic => 1 end.

Definition schedule_common (seed : nat) (generation_ceiling : option nat) (elapsed ctr : Z) (queue : Queue) (qs : QState)
    : outcome (QueueEntry * QState * Z) :=
  let entries := collect (Queue_iter_without_crashes queue) in
  entries ← filter_entries generation_ceiling qs entries;
  prev_favoured_cnt ← favoured_count qs entries;
  r ← recalculate_favoured elapsed ctr qs entries;
  let '(qs, ctr) := r in
  favoured_cnt ← favoured_count qs entries;
  _ ← assert_that (prev_favoured_cnt <=? favoured_cnt)%nat;
  selected_entry ← unwrap (choose_weighted seed entries (entry_weight qs));
  qs ← stats_rw qs selected_entry favoured_decrement;
  mret (selected_entry, qs, ctr).

Definition in_discovery (e : QueueEntry) (s : QueueEntryStats) : bool :=
  (qe_generation e =? 0)%nat && negb (st_blacklisted s) && negb (is_phase_done s Discovery) && negb (qe_is_crash e).

(** [queue.filter(..)] with a condition on the statistics *)
Definition discovery_entries (queue : Queue) (qs : QState) : outcome (list QueueEntry) :=
  filter_stats qs in_discovery (Queue_entries queue).

Inductive ControlFlow := Continue (entry : QueueEntry) | Break.

(** The loop runs at most twice: after discovery the phase is another one. *)
Fixpoint schedule_loop (fuel seed : nat) (terminate_when_finished : bool) (generation_ceiling : option nat)
    (elapsed ctr : Z) (queue : Queue) (qs : QState) (st : FuzzerState)
    : outcome (ControlFlow * FuzzerState * QState * Z) :=
  match fuel with
  | O => Panic
  | S fuel =>
      phase ← state_phase st;
      match phase with
      | Discovery =>
          entries ← discovery_entries queue qs;
          if bool_decide (entries = [])
          then
            let st := mark_phase_as_done st Discovery in
            let st := set_phase st (if terminate_when_finished then Exit else NoPhase) in
            schedule_loop fuel seed terminate_when_finished generation_ceiling elapsed ctr queue qs st
          else
            entry ← unwrap (last (rng_shuffle seed entries));
            mret (Continue entry, st, qs, ctr)
      | Exit => mret (Break, st, qs, ctr)
      | _ =>
          r ← schedule_common seed generation_ceiling elapsed ctr queue qs;
          let '(entry, qs, ctr) := r in
          mret (Continue entry, st, qs, ctr)
      end
  end.

Definition schedule_next := schedule_loop 2.
End schedule.

(** ** Changing weights only *)

(** A weight is a [NonZeroU32]. *)
Definition weight_ok (s : QueueEntryStats) : Prop :=
  match st_favoured_weight s with Some w => 0 < w | None => True end.

(** The statistics are the same up to the weight, and a favoured entry stays one. *)
Record weight_only (s s' : QueueEntryStats) : Prop := {
  wo_rest : s' = with_favoured_weight s (st_favoured_weight s');
  wo_favoured : is_favoured s = true -> is_favoured s' = true;
  wo_ok : weight_ok s -> weight_ok s';
}.

Record reweighted (qs qs' : QState) : Prop := {
  rw_next_id : qs_next_id qs' = qs_next_id qs;
  rw_inputs : qs_inputs_cache qs' = qs_inputs_cache qs;
  rw_stats : Forall2 weight_only (qs_stats qs) (qs_stats qs');
}.

Definition stats_in (qs : QState) (e : QueueEntry) : Prop := (qe_stats e < length (qs_stats qs))%nat.

Definition favoured (qs : QState) (e : QueueEntry) : Prop :=
  exists s, stats_ro qs e = Ret s /\ is_favoured s = true.

#[export] Instance weight_only_preorder : PreOrder weight_only.
Proof.
  split; [by intros []|]. intros a b c [Eb Hb Wb] [Ec Hc Wc]. split; [|auto..]. rewrite Ec, Eb. by destruct a, b, c.
Qed.

#[export] Instance reweighted_preorder : PreOrder reweighted.
Proof. split; [by intros []|]. intros a b c [E1 E2 ?] [E3 E4 ?]. split; [congruence..|]. by etrans. Qed.

Lemma reweighted_in qs qs' e : reweighted qs qs' -> stats_in qs e <-> stats_in qs' e.
Proof. intros [_ _ H]. unfold stats_in. by rewrite (Forall2_length _ _ _ H). Qed.

Lemma stats_ro_in qs e : stats_in qs e -> exists s, qs_stats qs !! qe_stats e = Some s /\ stats_ro qs e = Ret s.
Proof.
  intros [s Hs]%lookup_lt_is_Some_2. exists s. split; [done|]. unfold stats_ro, slice_get. by rewrite Hs.
Qed.

Lemma stats_ro_Ret qs e s : stats_ro qs e = Ret s -> qs_stats qs !! qe_stats e = Some s.
Proof. unfold stats_ro, slice_get. by destruct (_ !! _) eqn:E; intros [= ->]. Qed.

Lemma reweighted_ro qs qs' e s :
  reweighted qs qs' -> stats_ro qs e = Ret s -> exists s', stats_ro qs' e = Ret s' /\ weight_only s s'.
Proof.
  intros [_ _ H] Hs%stats_ro_Ret. destruct (Forall2_lookup_l _ _ _ _ _ H Hs) as (s' & Hs' & Hw).
  exists s'. split; [|done]. unfold stats_ro, slice_get. by rewrite Hs'.
Qed.

Lemma favoured_mono qs qs' e : reweighted qs qs' -> favoured qs e -> favoured qs' e.
Proof. intros Hr (s & Hs & Hf). destruct (reweighted_ro _ _ _ _ Hr Hs) as (s' & Hs' & [_ Hw _]). exists s'. auto. Qed.

Lemma stats_rw_weight qs e f :
  stats_in qs e -> (forall s, weight_only s (f s)) ->
  exists qs' s, stats_rw qs e f = Ret qs' /\ reweighted qs qs' /\ stats_ro qs e = Ret s /\ stats_ro qs' e = Ret (f s).
Proof.
  intros Hin Hf. destruct (stats_ro_in qs e Hin) as (s & Hs & Es). unfold stats_rw. rewrite Es.
  cbn [mbind outcome_bind]. rewrite slice_set_lt by done. cbn [mbind outcome_bind].
  eexists _, s. split; [reflexivity|]. split; [split; cbn; [done..|]|split; [done|]].
  - apply Forall2_same_length_lookup_2; [by rewrite length_insert|]. intros i x y Hx Hy.
    destruct (decide (i = qe_stats e)) as [->|Hne].
    + rewrite list_lookup_insert_eq in Hy by done. simplify_eq. apply Hf.
    + rewrite list_lookup_insert_ne in Hy by done. by simplify_eq.
  - unfold stats_ro, slice_get. cbn. by rewrite list_lookup_insert_eq by done.
Qed.

Lemma decrement_weight s : weight_only s (favoured_decrement s).
Proof.
  split; [by destruct s|..]; unfold favoured_decrement, is_favoured, weight_ok, with_favoured_weight, NonZeroU32_new; cbn;
    (destruct (st_favoured_weight s) as [old|]; [|done]); (destruct (Z.gtb_spec old 1); [|done]);
    destruct (Z.eqb_spec (old - 1) 0); try done; lia.
Qed.

Lemma mark_weight s : weight_only s (mark_favoured_once s).
Proof. by destruct s as [???????[]]. Qed.

Lemma mark_favoured s : is_favoured (mark_favoured_once s) = true.
Proof. by destruct s as [???????[]]. Qed.

Lemma mark_all_favoured_Ret qs es :
  Forall (stats_in qs) es -> exists qs', mark_all_favoured qs es = Ret qs' /\ reweighted qs qs' /\ Forall (favoured qs') es.
Proof.
  revert qs. induction es as [|e es IH]; intros qs Hes.
  { exists qs. split; [done|]. split; [reflexivity|constructor]. }
  apply Forall_cons in Hes as [He Hes].
  cbn [mark_all_favoured]. destruct (stats_rw_weight qs e mark_favoured_once He mark_weight) as (qs1 & s & -> & Hr1 & _ & Es1).
  cbn [mbind outcome_bind]. destruct (IH qs1) as (qs' & E & Hr & Hf).
  { apply (Forall_impl _ _ _ Hes). intros x. by apply (reweighted_in qs qs1). }
  exists qs'. split; [exact E|]. split; [by etrans|]. constructor; [|done].
  apply (favoured_mono qs1 qs' e Hr). exists (mark_favoured_once s). split; [done|apply mark_favoured].
Qed.

(** ** Dominators *)

Definition covers (e : QueueEntry) (edge : nat) : Prop := edge ∈ Bitmap_edges (qe_covered_edges e).

Section dominators.
(** The entries of the queue: ids are unique and the statistics exist. *)
Context (E : list QueueEntry) (qs0 : QState).
Hypothesis HE_ids : forall a b, a ∈ E -> b ∈ E -> qe_id a = qe_id b -> a = b.
Hypothesis HE_stats : forall a, a ∈ E -> stats_in qs0 a.

(** After the pairs of candidate and edge in [seen]. *)
Record dominators_ok (seen : list (QueueEntry * nat)) (d : Dominators) : Prop := {
  do_seen : forall e edge, (e, edge) ∈ seen -> e ∈ E;
  do_lut : forall e n, e ∈ E -> dm_bytes_set_lut d !! qe_id e = Some n -> n = coverage e;
  do_some : forall edge c, dm_edge_dominator d !! edge = Some c ->
    (c, edge) ∈ seen /\ forall e, (e, edge) ∈ seen -> (coverage e <= coverage c)%nat;
  do_none : forall edge e, dm_edge_dominator d !! edge = None -> (e, edge) ∉ seen;
  do_qs : reweighted qs0 (dm_qs d);
}.

Lemma lut_get_spec lut e :
  e ∈ E -> (forall x n, x ∈ E -> lut !! qe_id x = Some n -> n = coverage x) ->
  (lut_get lut e).1 = coverage e /\ forall x n, x ∈ E -> (lut_get lut e).2 !! qe_id x = Some n -> n = coverage x.
Proof using HE_ids.
  intros He Hl. unfold lut_get. destruct (lut !! qe_id e) as [n|] eqn:El; cbn [fst snd].
  - split; [by apply Hl|done].
  - split; [done|]. intros x n Hx. rewrite lookup_insert_Some. intros [[Hid <-]|[_ Hn]]; [|by apply (Hl x)].
    f_equal. by apply HE_ids.
Qed.

Lemma dominate_edge_ok seen d c edge :
  c ∈ E -> dominators_ok seen d ->
  exists d', dominate_edge c d edge = Ret d' /\ dominators_ok ((c, edge) :: seen) d'.
Proof using HE_ids HE_stats.
  intros Hc [Hseen Hlut Hsome Hnone Hqs]. unfold dominate_edge.
  assert (Hseen' : forall e x, (e, x) ∈ (c, edge) :: seen -> e ∈ E).
  { intros e x [[= -> ->] | Hin]%elem_of_cons; [done|by eapply Hseen]. }
  destruct (dm_edge_dominator d !! edge) as [cur|] eqn:Ecur.
  - destruct (Hsome edge cur Ecur) as [Hin Hmax]. pose proof (Hseen cur edge Hin) as Hcur.
    destruct (lut_get_spec _ cur Hcur Hlut) as [E1 Hl1]. destruct (lut_get (dm_bytes_set_lut d) cur) as [n1 lut1].
    cbn [fst snd] in E1, Hl1. subst n1. destruct (lut_get_spec _ c Hc Hl1) as [E2 Hl2].
    destruct (lut_get lut1 c) as [n2 lut2]. cbn [fst snd] in E2, Hl2. subst n2.
    destruct (Nat.ltb_spec (coverage cur) (coverage c)) as [Hlt|Hge].
    + destruct (stats_rw_weight (dm_qs d) cur favoured_decrement) as (qs1 & s & -> & Hr1 & _).
      { apply (reweighted_in qs0 _ _ Hqs). by apply HE_stats. }
      { apply decrement_weight. }
      cbn [mbind outcome_bind]. eexists. split; [reflexivity|]. split; cbn; [done|done| | |by etrans].
      * intros x y. rewrite lookup_insert_Some. intros [[<- <-]|[Hne Hy]].
        -- split; [by left|]. intros e [[= ->] | He]%elem_of_cons; [done|]. specialize (Hmax e He). lia.
        -- destruct (Hsome x y Hy) as [Hy1 Hy2]. split; [by right|]. intros e [[= -> ->] | He]%elem_of_cons; [done|by apply Hy2].
      * intros x e. rewrite lookup_insert_None. intros [Hx Hne]. rewrite elem_of_cons. intros [[= -> ->] | He]; [done|].
        by apply (Hnone x e).
    + eexists. split; [reflexivity|]. split; cbn; [done|done| | |done].
      * intros x y Hy. destruct (Hsome x y Hy) as [Hy1 Hy2]. split; [by right|].
        intros e [[= -> ->] | He]%elem_of_cons; [|by apply Hy2]. rewrite Ecur in Hy. by simplify_eq.
      * intros x e Hx. rewrite elem_of_cons. intros [[= -> ->] | He]; [congruence|]. by apply (Hnone x e).
  - eexists. split; [reflexivity|]. split; cbn; [done|done| | |done].
    + intros x y. rewrite lookup_insert_Some. intros [[<- <-]|[Hne Hy]].
      * split; [by left|]. intros e [[= ->] | He]%elem_of_cons; [done|]. by destruct (Hnone edge e Ecur).
      * destruct (Hsome x y Hy) as [Hy1 Hy2]. split; [by right|]. intros e [[= -> ->] | He]%elem_of_cons; [done|by apply Hy2].
    + intros x e. rewrite lookup_insert_None. intros [Hx Hne]. rewrite elem_of_cons. intros [[= -> ->] | He]; [done|].
      by apply (Hnone x e).
Qed.

Lemma dominate_edges_ok seen d c edges :
  c ∈ E -> dominators_ok seen d ->
  exists d' seen', dominate_edges c d edges = Ret d' /\ dominators_ok seen' d' /\
    forall p, p ∈ seen' <-> p ∈ seen \/ (p.1 = c /\ p.2 ∈ edges).
Proof using HE_ids HE_stats.
  intros Hc. revert seen d. induction edges as [|x edges IH]; intros seen d Hd.
  { exists d, seen. split; [done|]. split; [done|]. intros p. rewrite elem_of_nil. naive_solver. }
  cbn [dominate_edges]. destruct (dominate_edge_ok seen d c x Hc Hd) as (d1 & -> & Hd1). cbn [mbind outcome_bind].
  destruct (IH _ d1 Hd1) as (d' & seen' & Ed & Hd' & Hs). exists d', seen'. split; [done|]. split; [done|].
  intros [e y]. rewrite Hs, !elem_of_cons. cbn. naive_solver.
Qed.

Lemma dominate_ok seen d es :
  (forall e, e ∈ es -> e ∈ E) -> dominators_ok seen d ->
  exists d' seen', dominate d es = Ret d' /\ dominators_ok seen' d' /\
    forall p, p ∈ seen' <-> p ∈ seen \/ (p.1 ∈ es /\ covers p.1 p.2).
Proof using HE_ids HE_stats.
  revert seen d. induction es as [|c es IH]; intros seen d Hes Hd.
  { exists d, seen. split; [done|]. split; [done|]. intros p. rewrite elem_of_nil. naive_solver. }
  cbn [dominate]. destruct (dominate_edges_ok seen d c (Bitmap_edges (qe_covered_edges c))) as (d1 & seen1 & -> & Hd1 & Hs1).
  { apply Hes. by left. }
  { done. }
  cbn [mbind outcome_bind]. destruct (IH seen1 d1) as (d' & seen' & Ed & Hd' & Hs); [|done|].
  { intros e He. apply Hes. by right. }
  exists d', seen'. split; [done|]. split; [done|]. intros [e y]. rewrite Hs, Hs1, elem_of_cons. unfold covers. cbn. naive_solver.
Qed.

Lemma edges_favoured :
  exists qs', recalculate_favoured_sink_dominator_edges qs0 E = Ret qs' /\ reweighted qs0 qs' /\
    forall e edge, e ∈ E -> covers e edge -> exists d, d ∈ E /\ covers d edge /\ favoured qs' d /\
      forall x, x ∈ E -> covers x edge -> (coverage x <= coverage d)%nat.
Proof using HE_ids HE_stats.
  unfold recalculate_favoured_sink_dominator_edges.
  destruct (dominate_ok [] (mk_dominators ∅ ∅ qs0) E) as (d & seen & -> & Hd & Hs); [done|by split; cbn; set_solver|].
  cbn [mbind outcome_bind]. destruct (mark_all_favoured_Ret (dm_qs d) (map_to_list (dm_edge_dominator d)).*2) as (qs' & Eq & Hr & Hf).
  { apply Forall_forall. intros x ([edge y] & -> & Hin%elem_of_map_to_list)%list_elem_of_fmap. cbn.
    apply (reweighted_in qs0 _ _ (do_qs _ _ Hd)), HE_stats. by eapply (do_seen _ _ Hd), (do_some _ _ Hd). }
  exists qs'. split; [exact Eq|]. split; [etrans; [apply Hd|done]|]. intros e edge He Hc.
  assert (Hin : (e, edge) ∈ seen) by (apply Hs; by right).
  destruct (dm_edge_dominator d !! edge) as [y|] eqn:Ey; [|by destruct (do_none _ _ Hd edge e Ey)].
  destruct (do_some _ _ Hd edge y Ey) as [Hy Hmax]. apply Hs in Hy as [Hy|[Hy Hcy]]; [by apply elem_of_nil in Hy|]. cbn in Hy, Hcy.
  exists y. split; [done|]. split; [done|]. split.
  - rewrite Forall_forall in Hf. apply Hf, list_elem_of_fmap. exists (edge, y). split; [done|]. by apply elem_of_map_to_list.
  - intros x Hx Hcx. apply Hmax, Hs. by right.
Qed.
End dominators.

(** ** Patch points *)

Lemma max_by_key_from {A} (key : A -> nat) l b :
  exists x, foldl (fun best x =>
      match best with
      | Some b => if (key x <? key b)%nat then Some b else Some x
      | None => Some x
      end) (Some b) l = Some x /\ x ∈ b :: l /\ forall y, y ∈ b :: l -> (key y <= key x)%nat.
Proof.
  revert b. induction l as [|a l IH]; intros b; cbn [foldl].
  { exists b. split; [done|]. split; [by left|]. by intros y ->%list_elem_of_singleton. }
  destruct (Nat.ltb_spec (key a) (key b)) as [Hlt|Hge].
  - destruct (IH b) as (x & -> & Hx & Hm). exists x. split; [done|]. rewrite !elem_of_cons in *. split; [naive_solver|].
    intros y. rewrite !elem_of_cons. specialize (Hm b ltac:(by left)) as Hb. intros [->|[->|Hy]]; [done|lia|]. apply Hm. by right.
  - destruct (IH a) as (x & -> & Hx & Hm). exists x. split; [done|]. rewrite !elem_of_cons in *. split; [naive_solver|].
    intros y. rewrite !elem_of_cons. specialize (Hm a ltac:(by left)) as Ha. intros [->|[->|Hy]]; [lia|done|]. apply Hm. by right.
Qed.

Lemma max_by_key_spec {A} (key : A -> nat) l :
  l <> [] -> exists x, max_by_key key l = Some x /\ x ∈ l /\ forall y, y ∈ l -> (key y <= key x)%nat.
Proof. destruct l as [|b l]; [done|]. intros _. apply max_by_key_from. Qed.

Section patch_points.
Context `{L : EntryLayout} `{CL : ContentLayout} `{!EntryLayoutLaws L}.
Context (set_order : list QueueEntry -> list QueueEntry).
Hypothesis set_order_perm : forall l, set_order l ≡ₚ l.
Context (E : list QueueEntry) (qs0 : QState).
Hypothesis HE_ids : forall a b, a ∈ E -> b ∈ E -> qe_id a = qe_id b -> a = b.
Hypothesis HE_stats : forall a, a ∈ E -> stats_in qs0 a.
(** The mutation entries each queue entry was saved with. *)
Context (mces : QueueEntry -> list MutationCacheEntry).

Definition mutates (e : QueueEntry) (id : Z) : Prop := id ∈ Entry_id <$> mces e.

(** The saved mutations of the entry fit into a cache of [size] bytes. *)
Definition loadable (size : nat) (e : QueueEntry) : Prop :=
  match qe_mutations e with
  | Some img => image_of img (mces e) /\ (image_length img <= size)%nat
  | None => mces e = []
  end.

Record pps_ok (seen : QueueEntry -> Prop) (m : gmap Z (list QueueEntry)) : Prop := {
  po_in : forall id e, e ∈ default [] (m !! id) <-> seen e /\ mutates e id;
  po_some : forall id l, m !! id = Some l -> l <> [];
}.

Lemma set_insert_spec s e x :
  e ∈ E -> (forall y, y ∈ s -> y ∈ E) -> x ∈ set_insert s e <-> x ∈ s \/ x = e.
Proof.
  intros He Hs. unfold set_insert. destruct (existsb _ s) eqn:Ex.
  - apply existsb_exists in Ex as (y & Hy%list_elem_of_In & Heq). unfold QueueEntry_eq in Heq. apply Z.eqb_eq in Heq.
    assert (y = e) as -> by (apply HE_ids; [by apply Hs|done|done]). naive_solver.
  - rewrite elem_of_app, list_elem_of_singleton. done.
Qed.

Lemma set_insert_nonempty s e : set_insert s e <> [].
Proof.
  unfold set_insert. destruct (existsb _ s) eqn:Ex; [|by destruct s]. intros ->. done.
Qed.

Lemma insert_pps_spec e m l :
  e ∈ E -> (forall id x, x ∈ default [] (m !! id) -> x ∈ E) -> (forall id s, m !! id = Some s -> s <> []) ->
  let m' := insert_pps e m l in
  (forall id x, x ∈ default [] (m' !! id) <-> x ∈ default [] (m !! id) \/ (x = e /\ id ∈ Entry_id <$> l)) /\
  (forall id s, m' !! id = Some s -> s <> []).
Proof.
  intros He. revert m. induction l as [|mce l IH]; intros m Hm Hn m'.
  { subst m'. cbn. split; [|done]. intros id x. rewrite elem_of_nil. naive_solver. }
  set (m1 := <[Entry_id mce := set_insert (default [] (m !! Entry_id mce)) e]> m).
  assert (Hm1 : forall id x, x ∈ default [] (m1 !! id) <-> x ∈ default [] (m !! id) \/ (x = e /\ id = Entry_id mce)).
  { intros id x. unfold m1. destruct (decide (id = Entry_id mce)) as [->|Hne].
    - rewrite lookup_insert_eq. cbn. rewrite set_insert_spec by (done || by apply Hm). naive_solver.
    - rewrite lookup_insert_ne by done. naive_solver. }
  destruct (IH m1) as [H1 H2].
  { intros id x [Hx|[-> _]]%Hm1; [by apply (Hm id)|done]. }
  { intros id s. unfold m1. rewrite lookup_insert_Some. intros [[_ <-]|[_ Hs]]; [apply set_insert_nonempty|by apply (Hn id)]. }
  subst m'. cbn [insert_pps foldl]. split; [|exact H2]. intros id x. fold m1. rewrite (H1 id x), Hm1. cbn [fmap list_fmap].
  rewrite elem_of_cons. naive_solver.
Qed.

Lemma pps_of_entries_Ret mc es0 m (seen : QueueEntry -> Prop) l :
  cache_rep mc es0 -> (forall e, e ∈ l -> e ∈ E /\ loadable (mc_content_size mc) e) -> (forall e, seen e -> e ∈ E) ->
  pps_ok seen m ->
  exists m', pps_of_entries mc m l = Ret m' /\ pps_ok (fun e => seen e \/ e ∈ l) m'.
Proof.
  revert mc es0 m seen. induction l as [|e l IH]; intros mc es0 m seen Hmc Hl Hd [Hin Hne].
  { exists m. split; [done|]. split; [|done]. intros id x. rewrite Hin, elem_of_nil. naive_solver. }
  destruct (Hl e) as [He Hload]; [by left|]. cbn [pps_of_entries]. unfold loadable in Hload.
  assert (Hl' : forall x, x ∈ l -> x ∈ E /\ loadable (mc_content_size mc) x) by (intros x Hx; apply Hl; by right).
  destruct (qe_mutations e) as [img|] eqn:Eimg.
  - destruct Hload as [Himg Hfit]. destruct (load_image mc es0 img (mces e) Hmc Himg) as [Hok _].
    destruct (Hok Hfit) as (mc' & Emc & Hmc'). rewrite Emc. cbn [mbind outcome_bind]. rewrite (cache_entries_rep _ _ Hmc').
    assert (Hsize : mc_content_size mc' = mc_content_size mc).
    { unfold MutationCache_load_bytes in Emc. destruct (_ <=? _)%nat in Emc; cbn in Emc; [|done]. by injection Emc as <-. }
    destruct (insert_pps_spec e m (mces e)) as [H1 H2]; [done| |done|].
    { intros id x [Hx _]%Hin. by apply Hd. }
    destruct (IH mc' (mces e) (insert_pps e m (mces e)) (fun x => seen x \/ x = e)) as (m' & Em & Hm'); [done|by rewrite Hsize| | |].
    { intros x [Hx| ->]; [by apply Hd|done]. }
    { split; [|done]. intros id x. rewrite H1, Hin. unfold mutates. naive_solver. }
    exists m'. split; [done|]. destruct Hm' as [Hi Hs]. split; [|done]. intros id x. rewrite Hi, elem_of_cons. naive_solver.
  - destruct (IH mc es0 m (fun x => seen x \/ x = e)) as (m' & Em & Hm'); [done|done| | |].
    { intros x [Hx| ->]; [by apply Hd|done]. }
    { split; [|done]. intros id x. rewrite Hin. unfold mutates. split; [naive_solver|]. intros [[Hx| ->] Hid]; [done|].
      rewrite Hload in Hid. by apply elem_of_nil in Hid. }
    exists m'. split; [done|]. destruct Hm' as [Hi Hs]. split; [|done]. intros id x. rewrite Hi, elem_of_cons. naive_solver.
Qed.

Lemma mark_greatest_Ret qs sets :
  Forall (fun s => s <> [] /\ Forall (stats_in qs) s) sets ->
  exists qs', mark_greatest set_order qs sets = Ret qs' /\ reweighted qs qs' /\
    Forall (fun s => exists x, x ∈ s /\ favoured qs' x /\ forall y, y ∈ s -> (coverage y <= coverage x)%nat) sets.
Proof.
  revert qs. induction sets as [|s sets IH]; intros qs Hs.
  { exists qs. split; [done|]. split; [reflexivity|constructor]. }
  apply Forall_cons in Hs as [[Hne Hin] Hs]. cbn [mark_greatest].
  destruct (max_by_key_spec coverage (set_order s)) as (x & -> & Hx & Hmax).
  { intros Hn. apply Hne. pose proof (set_order_perm s) as Hp. rewrite Hn in Hp. by apply Permutation_nil in Hp. }
  cbn [unwrap mbind outcome_bind]. rewrite set_order_perm in Hx. pose proof (proj1 (Forall_forall _ _) Hin x Hx) as Hxs.
  destruct (stats_rw_weight qs x mark_favoured_once Hxs mark_weight) as (qs1 & st & -> & Hr1 & _ & Es1).
  cbn [mbind outcome_bind]. destruct (IH qs1) as (qs' & Eq & Hr & Hf).
  { apply (Forall_impl _ _ _ Hs). intros t [Ht Hti]. split; [done|]. apply (Forall_impl _ _ _ Hti). intros y. by apply (reweighted_in qs qs1). }
  exists qs'. split; [exact Eq|]. split; [by etrans|]. constructor; [|done]. exists x. split; [done|]. split.
  - apply (favoured_mono qs1 _ _ Hr). exists (mark_favoured_once st). split; [done|apply mark_favoured].
  - intros y Hy. apply Hmax. by rewrite set_order_perm.
Qed.

Lemma patch_points_favoured mc0 :
  cache_rep mc0 [] -> (forall e, e ∈ E -> loadable (mc_content_size mc0) e) ->
  exists qs', recalculate_favoured_unique_patch_point_ids set_order (Ret mc0) qs0 E = Ret qs' /\ reweighted qs0 qs' /\
    forall e id, e ∈ E -> mutates e id -> exists d, d ∈ E /\ mutates d id /\ favoured qs' d /\
      forall x, x ∈ E -> mutates x id -> (coverage x <= coverage d)%nat.
Proof.
  intros Hmc Hl. unfold recalculate_favoured_unique_patch_point_ids. cbn [mbind outcome_bind].
  destruct (pps_of_entries_Ret mc0 [] ∅ (fun _ => False) E) as (m & -> & [Hin Hne]); [done|by auto|done| |].
  { split; [|done]. intros id e. rewrite lookup_empty. cbn. rewrite elem_of_nil. naive_solver. }
  cbn [mbind outcome_bind].
  assert (Hm : forall id e, e ∈ default [] (m !! id) <-> e ∈ E /\ mutates e id) by (intros; rewrite Hin; naive_solver).
  destruct (mark_greatest_Ret qs0 (map_to_list m).*2) as (qs' & Eq & Hr & Hf).
  { apply Forall_forall. intros s ([id s'] & -> & Hs%elem_of_map_to_list)%list_elem_of_fmap. cbn. split; [by eapply Hne|].
    apply Forall_forall. intros x Hx. apply HE_stats. by apply (Hm id); rewrite Hs. }
  exists qs'. split; [exact Eq|]. split; [done|]. intros e id He Hid. assert (Hs : e ∈ default [] (m !! id)) by (by apply Hm).
  destruct (m !! id) as [s|] eqn:Es; [|by apply elem_of_nil in Hs]. rewrite Forall_forall in Hf.
  destruct (Hf s) as (x & Hx & Hfx & Hmax). { apply list_elem_of_fmap. exists (id, s). split; [done|]. by apply elem_of_map_to_list. }
  pose proof (Hm id) as Hmid. rewrite Es in Hmid. cbn in Hmid.
  exists x. split; [by apply Hmid|]. split; [by apply Hmid|]. split; [done|]. intros y Hy Hyid. apply Hmax. by apply Hmid.
Qed.
End patch_points.

(** ** The theorems *)

Definition stats_of (qs : QState) (e : QueueEntry) : QueueEntryStats := default stats_new (qs_stats qs !! qe_stats e).

Lemma stats_of_Ret qs e : stats_in qs e -> stats_ro qs e = Ret (stats_of qs e).
Proof. intros (s & Hs & ->)%stats_ro_in. unfold stats_of. by rewrite Hs. Qed.

Lemma filter_stats_Ret qs f l :
  Forall (stats_in qs) l -> filter_stats qs f l = Ret (List.filter (fun e => f e (stats_of qs e)) l).
Proof.
  induction 1 as [|e l He _ IH]; [done|]. cbn [filter_stats List.filter]. rewrite (stats_of_Ret _ _ He), IH. cbn.
  by destruct (f e (stats_of qs e)).
Qed.

(** The entries [schedule_common] chooses from. *)
Definition schedulable (generation_ceiling : option nat) (qs : QState) (e : QueueEntry) : bool :=
  negb (qe_is_crash e) &&
  (match generation_ceiling with Some c => (qe_generation e <=? c)%nat | None => true end
   && negb (st_blacklisted (stats_of qs e))).

(** An entry of the first generation whose patch points are not all discovered. *)
Definition discoverable (qs : QState) (e : QueueEntry) : bool :=
  bool_decide (qe_generation e = 0%nat /\ qe_is_crash e = false /\ st_blacklisted (stats_of qs e) = false /\
    is_phase_done (stats_of qs e) Discovery = false).
Lemma in_discovery_spec qs e : in_discovery e (stats_of qs e) = discoverable qs e.
Proof.
  apply eq_true_iff_eq. unfold in_discovery, discoverable. rewrite bool_decide_eq_true, !andb_true_iff, !negb_true_iff, Nat.eqb_eq. tauto.
Qed.

Lemma favoured_count_mono qs qs' l n :
  reweighted qs qs' -> Forall (stats_in qs) l -> favoured_count qs l = Ret n ->
  exists n', favoured_count qs' l = Ret n' /\ (n <= n')%nat.
Proof.
  intros Hr Hl. unfold favoured_count. assert (Hl' : Forall (stats_in qs') l).
  { apply (Forall_impl _ _ _ Hl). intros x. by apply (reweighted_in qs qs'). }
  rewrite !filter_stats_Ret by done. clear Hl'.
  cbn. intros [= <-]. eexists. split; [reflexivity|]. induction Hl as [|e l He _ IH]; [done|]. cbn in IH |- *.
  destruct (reweighted_ro qs qs' e _ Hr (stats_of_Ret qs e He)) as (s' & Es & [_ Hf _]).
  rewrite stats_of_Ret in Es by (by apply (reweighted_in qs qs')). injection Es as <-.
  destruct (is_favoured (stats_of qs e)) eqn:Ef; [rewrite Hf by done; cbn; lia|].
  destruct (is_favoured (stats_of qs' e)); cbn; lia.
Qed.

Section theorems.
Context `{L : EntryLayout} `{CL : ContentLayout} `{!EntryLayoutLaws L}.
Context `{R : Rng, !RngLaws R} `{WR : WeightedRng} `{!WeightedRngLaws WR}.
Context (set_order : list QueueEntry -> list QueueEntry).
Hypothesis set_order_perm : forall l, set_order l ≡ₚ l.
Context (mc0 : MutationCache) (mces : QueueEntry -> list MutationCacheEntry).
Hypothesis mc0_rep : cache_rep mc0 [].

Lemma recalculate_favoured_spec elapsed ctr qs E :
  (forall a b, a ∈ E -> b ∈ E -> qe_id a = qe_id b -> a = b) -> (forall e, e ∈ E -> stats_in qs e) ->
  (forall e, e ∈ E -> loadable mces (mc_content_size mc0) e) ->
  let due := (FAVOURED_RECALCULATION_START_DELAY <=? elapsed) && (ctr mod FAVOURED_RECALCULATION_INTERVAL =? 0) in
  exists qs' ctr', recalculate_favoured set_order (Ret mc0) elapsed ctr qs E = Ret (qs', ctr') /\ reweighted qs qs' /\
    (due = false -> qs' = qs) /\
    (due = true ->
     (forall e edge, e ∈ E -> covers e edge -> exists d, d ∈ E /\ covers d edge /\ favoured qs' d /\
        forall x, x ∈ E -> covers x edge -> (coverage x <= coverage d)%nat) /\
     (forall e id, e ∈ E -> mutates mces e id -> exists d, d ∈ E /\ mutates mces d id /\ favoured qs' d /\
        forall x, x ∈ E -> mutates mces x id -> (coverage x <= coverage d)%nat)).
Proof using set_order_perm mc0_rep EntryLayoutLaws0.
  intros Hids Hin Hload due. unfold recalculate_favoured.
  destruct (Z.ltb_spec elapsed FAVOURED_RECALCULATION_START_DELAY) as [Hlt|Hge].
  { exists qs, ctr. split; [done|]. split; [reflexivity|]. split; [done|]. unfold due. rewrite (proj2 (Z.leb_gt _ _)) by done. done. }
  assert (Hdue : due = (ctr mod FAVOURED_RECALCULATION_INTERVAL =? 0)) by (unfold due; by rewrite (proj2 (Z.leb_le _ _))).
  rewrite Hdue. destruct (ctr mod FAVOURED_RECALCULATION_INTERVAL =? 0); cbn [negb].
  2: { eexists _, _. split; [reflexivity|]. split; [reflexivity|]. done. }
  destruct (edges_favoured E qs Hids Hin) as (qs1 & -> & Hr1 & He). cbn [mbind outcome_bind].
  destruct (patch_points_favoured set_order set_order_perm E qs1 Hids) with (mces := mces) (mc0 := mc0)
    as (qs2 & -> & Hr2 & Hp); [|done|done|].
  { intros a Ha. apply (reweighted_in qs qs1 _ Hr1). by apply Hin. }
  cbn [mbind outcome_bind]. eexists _, _. split; [reflexivity|]. split; [by etrans|]. split; [done|]. intros _. split; [|done].
  intros e edge H1 H2. destruct (He e edge H1 H2) as (d & Hd & Hc & Hf & Hm). exists d. split; [done|]. split; [done|].
  split; [by apply (favoured_mono qs1)|done].
Qed.

(** C28: when the recalculation is due, afterwards every byte of the coverage maps that a
    schedulable entry covers, and every patch point that one mutates, has a favoured
    entry with the most coverage of all that cover or mutate it.  Nothing but the
    weights changes, and no entry ceases to be favoured. *)
Theorem favoured_dominators elapsed ctr qs E :
  (forall a b, a ∈ E -> b ∈ E -> qe_id a = qe_id b -> a = b) -> (forall e, e ∈ E -> stats_in qs e) ->
  (forall e, e ∈ E -> loadable mces (mc_content_size mc0) e) ->
  FAVOURED_RECALCULATION_START_DELAY <= elapsed -> ctr mod FAVOURED_RECALCULATION_INTERVAL = 0 ->
  exists qs' ctr', recalculate_favoured set_order (Ret mc0) elapsed ctr qs E = Ret (qs', ctr') /\ reweighted qs qs' /\
    (forall e edge, e ∈ E -> covers e edge -> exists d, d ∈ E /\ covers d edge /\ favoured qs' d /\
       forall x, x ∈ E -> covers x edge -> (coverage x <= coverage d)%nat) /\
    (forall e id, e ∈ E -> mutates mces e id -> exists d, d ∈ E /\ mutates mces d id /\ favoured qs' d /\
       forall x, x ∈ E -> mutates mces x id -> (coverage x <= coverage d)%nat).
Proof.
  intros Hids Hin Hload Hge Hmod. destruct (recalculate_favoured_spec elapsed ctr qs E Hids Hin Hload)
    as (qs' & ctr' & E1 & Hr & _ & Hdue).
  exists qs', ctr'. split; [done|]. split; [done|]. apply Hdue. rewrite Hmod, (proj2 (Z.leb_le _ _)) by done. done.
Qed.

Lemma entry_weight_positive qs e :
  weight_ok (stats_of qs e) -> stats_in qs e -> 0 < entry_weight qs e.
Proof. unfold weight_ok. intros Hw Hin. unfold entry_weight. rewrite (stats_of_Ret _ _ Hin). unfold favoured_weight. by destruct (st_favoured_weight _). Qed.

Lemma choose_weighted_spec {A} seed (l : list A) (w : A -> Z) :
  Forall (fun x => 0 < w x) l ->
  match choose_weighted seed l w with Some x => x ∈ l | None => l = [] end.
Proof using WeightedRngLaws0.
  intros Hw. unfold choose_weighted. destruct (weighted_index seed (w <$> l)) as [i|] eqn:E; cbn.
  - destruct (weighted_index_positive _ _ _ E) as (v & Hv & _). apply list_lookup_fmap_Some in Hv as (x & _ & Hx).
    rewrite Hx. by apply list_elem_of_lookup_2 in Hx.
  - destruct l as [|x l]; [done|]. apply weighted_index_fails in E.
    + apply Forall_cons in E as [E _]. apply Forall_cons in Hw as [Hw _]. lia.
    + apply Forall_fmap, (Forall_impl _ _ _ Hw). intros y. cbn. lia.
Qed.

Lemma weights_reweighted qs qs' : reweighted qs qs' -> Forall weight_ok (qs_stats qs) -> Forall weight_ok (qs_stats qs').
Proof. intros [_ _ Hst] Hw. induction Hst as [|s s' l l' Hs _ IH]; [done|]. apply Forall_cons in Hw as [? ?]. constructor; [by apply (wo_ok s)|auto]. Qed.

Lemma weight_ok_of qs e : Forall weight_ok (qs_stats qs) -> weight_ok (stats_of qs e).
Proof. intros Hw. unfold stats_of. destruct (qs_stats qs !! qe_stats e) as [s|] eqn:E; [by apply (Forall_lookup_1 _ _ _ _ Hw E)|done]. Qed.

Record scheduling_ok (queue : Queue) (qs : QState) : Prop := {
  so_wf : queue_wf qs queue;
  so_weights : Forall weight_ok (qs_stats qs);
  so_loadable : forall e, e ∈ q_entries queue -> loadable mces (mc_content_size mc0) e;
}.

Lemma scheduling_ok_in queue qs e : scheduling_ok queue qs -> e ∈ q_entries queue -> stats_in qs e.
Proof. intros [Hwf _ _] He. apply (proj1 (Forall_forall _ _) (qwf_below _ _ Hwf) e He). Qed.

Lemma schedule_common_spec seed ceiling elapsed ctr queue qs :
  scheduling_ok queue qs ->
  let cands := List.filter (schedulable ceiling qs) (q_entries queue) in
  (cands = [] -> schedule_common set_order (Ret mc0) seed ceiling elapsed ctr queue qs = Panic) /\
  (cands <> [] -> exists e qs' ctr',
     schedule_common set_order (Ret mc0) seed ceiling elapsed ctr queue qs = Ret (e, qs', ctr') /\ e ∈ cands /\ reweighted qs qs').
Proof using set_order_perm mc0_rep EntryLayoutLaws0 WeightedRngLaws0.
  intros Hok cands. pose proof Hok as [Hwf Hw Hload]. pose proof (fun e => scheduling_ok_in queue qs e Hok) as Hin.
  unfold schedule_common, filter_entries, Queue_iter_without_crashes. rewrite collect_rev, filter_rev_comm.
  set (nc := List.filter _ (reverse (q_entries queue))).
  assert (Hnc : forall e, e ∈ nc -> e ∈ q_entries queue).
  { intros e He. apply list_elem_of_In, filter_In in He as [He _]. apply list_elem_of_In in He. by apply elem_of_reverse. }
  rewrite filter_stats_Ret by (apply Forall_forall; auto). cbn [mbind outcome_bind].
  set (E := List.filter _ nc).
  assert (HE : E = List.filter (schedulable ceiling qs) (reverse (q_entries queue))).
  { unfold E, nc. by rewrite List_filter_filter. }
  assert (HEq : forall e, e ∈ E <-> e ∈ cands).
  { intros e. unfold cands. rewrite HE, !list_elem_of_In, !filter_In, <- !list_elem_of_In, elem_of_reverse. done. }
  assert (HEin : forall e, e ∈ E -> e ∈ q_entries queue).
  { intros e He. apply Hnc. by apply list_elem_of_In, filter_In in He as [He%list_elem_of_In _]. }
  assert (HEs : Forall (stats_in qs) E) by (apply Forall_forall; auto).
  destruct (favoured_count qs E) as [n|] eqn:En; [|unfold favoured_count in En; by rewrite filter_stats_Ret in En by done].
  cbn [mbind outcome_bind].
  destruct (recalculate_favoured_spec elapsed ctr qs E) as (qs1 & ctr1 & -> & Hr & _); [|auto|auto|].
  { intros a b Ha Hb. apply (NoDup_fmap_elem qe_id (q_entries queue)); [apply Hwf|auto..]. }
  cbn [mbind outcome_bind]. destruct (favoured_count_mono qs qs1 E n Hr HEs En) as (n' & -> & Hn).
  cbn [mbind outcome_bind]. rewrite (proj2 (Nat.leb_le _ _)) by done. cbn [assert_that mbind outcome_bind].
  assert (HEs1 : Forall (stats_in qs1) E) by (apply (Forall_impl _ _ _ HEs); intros x; by apply (reweighted_in qs qs1)).
  pose proof (choose_weighted_spec seed E (entry_weight qs1)) as Hc.
  destruct (choose_weighted seed E (entry_weight qs1)) as [e|].
  - specialize (Hc ltac:(apply (Forall_impl _ _ _ HEs1); intros x; apply entry_weight_positive, weight_ok_of; by apply (weights_reweighted qs qs1))).
    cbn [unwrap mbind outcome_bind]. split.
    + intros Hn0. apply HEq in Hc. rewrite Hn0 in Hc. by apply elem_of_nil in Hc.
    + intros _. destruct (stats_rw_weight qs1 e favoured_decrement) as (qs2 & s & -> & Hr2 & _).
      * by apply (proj1 (Forall_forall _ _) HEs1).
      * apply decrement_weight.
      * cbn. exists e, qs2, ctr1. split; [done|]. split; [by apply HEq|by etrans].
  - split; [done|]. intros Hne. exfalso. apply Hne. destruct cands as [|x l]; [done|]. assert (Hx : x ∈ E) by (apply HEq; by left).
    rewrite Hc in Hx; [by apply elem_of_nil in Hx|]. apply (Forall_impl _ _ _ HEs1). intros y. apply entry_weight_positive, weight_ok_of.
    by apply (weights_reweighted qs qs1).
Qed.

(** C27: [schedule_next] returns after at most two rounds.  In discovery it picks an entry of
    the first generation, no crash and not blacklisted, that still has patch points to
    discover; when there is none left it marks the phase as done, and stops the worker or goes on as after
    discovery.  There it picks an entry that is no crash, not blacklisted and of an
    allowed generation, changing only weights, and panics exactly when there is no
    such entry. *)
Theorem schedule_next_picks seed tw ceiling elapsed ctr queue qs st p :
  scheduling_ok queue qs -> fs_phase st = Some p ->
  let next := schedule_next set_order (Ret mc0) seed tw ceiling elapsed ctr queue qs st in
  let open := List.filter (discoverable qs) (q_entries queue) in
  let over := set_phase (mark_phase_as_done st Discovery) (if tw then Exit else NoPhase) in
  let cands := List.filter (schedulable ceiling qs) (q_entries queue) in
  (p = Exit -> next = Ret (Break, st, qs, ctr)) /\
  (p = Discovery -> open <> [] -> exists e, next = Ret (Continue e, st, qs, ctr) /\ e ∈ open) /\
  (p = Discovery -> open = [] -> tw = true -> next = Ret (Break, over, qs, ctr)) /\
  (p <> Exit -> (p = Discovery -> open = [] /\ tw = false) ->
   (cands = [] -> next = Panic) /\
   (cands <> [] -> exists e qs' ctr', next = Ret (Continue e, if decide (p = Discovery) then over else st, qs', ctr') /\
      e ∈ cands /\ reweighted qs qs')).
Proof.
  intros Hok Hp next open over cands. pose proof (fun e => scheduling_ok_in queue qs e Hok) as Hin.
  pose proof (schedule_common_spec seed ceiling elapsed ctr queue qs Hok) as [Hempty Hsome].
  assert (Ed : discovery_entries queue qs = Ret (reverse open)).
  { unfold discovery_entries, open. rewrite Queue_entries_rev, filter_rev_comm, filter_stats_Ret by
      (apply Forall_forall; intros e He; apply Hin; by apply elem_of_reverse).
    f_equal. apply List.filter_ext. intros e. apply in_discovery_spec. }
  assert (Hrev : reverse open = [] <-> open = []).
  { split; [|by intros ->]. intros Hn. apply (f_equal reverse) in Hn. by rewrite reverse_involutive in Hn. }
  unfold next, schedule_next, schedule_loop, state_phase. rewrite Hp. cbn [unwrap mbind outcome_bind].
  split; [by intros ->|]. split; [|split].
  - intros -> Hne. rewrite Ed. cbn [mbind outcome_bind]. rewrite bool_decide_false by (by rewrite Hrev).
    destruct (last (rng_shuffle seed (reverse open))) as [e|] eqn:El.
    + exists e. split; [done|]. apply last_Some_elem_of in El. by rewrite rng_shuffle_perm, elem_of_reverse in El.
    + apply last_None in El. pose proof (rng_shuffle_perm _ seed (reverse open)) as Hperm. rewrite El in Hperm.
      apply Permutation_nil in Hperm. by rewrite Hrev in Hperm.
  - intros -> Hnil ->. rewrite Ed. cbn [mbind outcome_bind]. rewrite bool_decide_true by (by rewrite Hrev). done.
  - intros Hexit Hdisc. destruct (decide (p = Discovery)) as [->|Hd].
    + destruct (Hdisc eq_refl) as [Hnil ->]. rewrite Ed. cbn [mbind outcome_bind]. rewrite bool_decide_true by (by rewrite Hrev).
      cbn [fs_phase set_phase unwrap mbind outcome_bind]. split.
      * intros Hc. by rewrite (Hempty Hc).
      * intros Hc. destruct (Hsome Hc) as (e & qs' & ctr' & -> & He & Hr). exists e, qs', ctr'. done.
    + destruct p; try done; (split; [intros Hc; by rewrite (Hempty Hc)|]); intros Hc;
        destruct (Hsome Hc) as (e & qs' & ctr' & -> & He & Hr); exists e, qs', ctr'; done.
Qed.
End theorems.

(** ** Witnesses *)

(** The first index with a positive weight. *)
#[export] Instance first_weighted : WeightedRng := {| weighted_index := fun _ ws => fst <$> list_find (fun w => 0 < w) ws |}.

#[export] Instance first_weighted_laws : WeightedRngLaws first_weighted.
Proof.
  split; cbn.
  - intros _ ws i. destruct (list_find _ ws) as [[j w]|] eqn:E; [|done]. cbn. intros [= <-].
    apply list_find_Some in E as (Hw & Hp & _). by exists w.
  - intros _ ws Hn. rewrite fmap_None, list_find_None. rewrite !Forall_forall in *.
    split; intros Hw x Hx; specialize (Hn x Hx); specialize (Hw x Hx); cbn in *; lia.
Qed.

#[local] Existing Instance demo_stackmap.
#[local] Existing Instance demo_layout.
#[local] Existing Instance demo_layout_laws.
#[local] Existing Instance demo_content_layout.

Definition demo_qe2 : QueueEntry :=
  mk_qe 1 None None None None None demo_input None None 0 (demo_map 3) 0 1 false 0 false None.
Definition demo_two : QState := mk_qstate 2 ∅ [stats_new; stats_new].

Lemma demo_two_ok : forall e, e ∈ [demo_qe; demo_qe2] -> stats_in demo_two e /\ loadable (fun _ => []) (mc_content_size demo_mc) e.
Proof.
  intros e He. rewrite !elem_of_cons, elem_of_nil in He. by destruct He as [-> | [-> | []]]; (split; [vm_compute; lia|]).
Qed.

Lemma demo_two_ids a b : a ∈ [demo_qe; demo_qe2] -> b ∈ [demo_qe; demo_qe2] -> qe_id a = qe_id b -> a = b.
Proof.
  intros Ha Hb. rewrite !elem_of_cons, elem_of_nil in Ha, Hb.
  by destruct Ha as [-> | [-> | []]]; destruct Hb as [-> | [-> | []]].
Qed.

Lemma favoured_dominators_witness :
  exists qs' ctr', recalculate_favoured id (Ret demo_mc) 3600 0 demo_two [demo_qe; demo_qe2] = Ret (qs', ctr') /\
    favoured qs' demo_qe2.
Proof.
  destruct (favoured_dominators id (fun _ => reflexivity _) demo_mc (fun _ => []) demo_mc_rep 3600 0 demo_two [demo_qe; demo_qe2]
    demo_two_ids (fun e He => proj1 (demo_two_ok e He)) (fun e He => proj2 (demo_two_ok e He)))
    as (qs' & ctr' & E & _ & He & _); [done|done|].
  exists qs', ctr'. split; [exact E|]. destruct (He demo_qe 0%nat) as (d & Hd & _ & Hf & Hmax); [by left|by left|].
  rewrite !elem_of_cons, elem_of_nil in Hd. destruct Hd as [-> | [-> | []]]; [|done].
  specialize (Hmax demo_qe2 ltac:(by right; left) ltac:(by left)). vm_compute in Hmax. lia.
Defined.

Lemma schedule_next_picks_witness :
  exists qs' ctr', schedule_next id (Ret demo_mc) 0 false None 0 0 (mk_queue [demo_qe] 0) (mk_qstate 1 ∅ [stats_new])
    (set_phase FuzzerState_default Mutate) = Ret (Continue demo_qe, set_phase FuzzerState_default Mutate, qs', ctr').
Proof.
  destruct (schedule_next_picks id (fun _ => reflexivity _) demo_mc (fun _ => []) demo_mc_rep 0 false None 0 0
    (mk_queue [demo_qe] 0) (mk_qstate 1 ∅ [stats_new]) (set_phase FuzzerState_default Mutate) Mutate)
    as (_ & _ & _ & Hn); [|done|].
  - split; [|by repeat constructor|by intros e ->%list_elem_of_singleton].
    split; cbn; [done|apply NoDup_singleton|apply NoDup_singleton|by repeat constructor].
  - destruct Hn as [_ Hn]; [done|done|]. destruct Hn as (e & qs' & ctr' & E & He & _); [done|].
    exists qs', ctr'. rewrite E. by apply list_elem_of_singleton in He as ->.
Defined.
