(* ===== verification/RunCommon.v ===== *)
(** * Judging a run

    Models [scheduler/src/fuzzer/worker_impl/phases/run_common.rs],
    [check_virgin_maps] of [worker_impl/common.rs], the loop of [common_calibrate] in
    [fuzzer/common.rs] that collects coverage and the end of [calibrate_seed_files] in
    [worker_impl/init.rs].  Executing source and sink is outside the model: the
    coverage map a run leaves behind and the result of a calibration are arguments.
    Saving inputs to files, logging and the check of the nop mutator (which only
    logs) are left out. *)

From Stdlib Require Import SpecFloat.
From S2P Require Import Prelude Bytes Bitmap Mutators Messages Trace MutationCacheEntry MutationCacheContent MutationCache MutationSite MutationCacheOps Queue EventCounter Cerebrum.

(** ** Comparing with the virgin maps *)

(** The local map is a cache of the global one. *)
Definition check_virgin_maps (coverage_map local_virgin global_virgin : Bitmap)
    : outcome (BitmapStatus * Bitmap * Bitmap) :=
  let (has_new_bits, local_virgin) := Bitmap_has_new_bit coverage_map local_virgin in
  match has_new_bits with
  | NewEdge | NewHit =>
      let (has_new_bits, global_virgin) := Bitmap_has_new_bit coverage_map global_virgin in
      local_virgin ← Bitmap_copy_from local_virgin global_virgin;
      mret (has_new_bits, local_virgin, global_virgin)
  | NoChange => mret (has_new_bits, local_virgin, global_virgin)
  end.

(** The calibration loop: the map of every cycle is classified and cleared from the
    virgin map. *)
Definition calibrate_virgin (virgin_map : Bitmap) (maps : list Bitmap) : Bitmap :=
  foldl (fun v bitmap => (Bitmap_has_new_bit (Bitmap_classify_counts bitmap) v).2) virgin_map maps.

(** ** [f32] arithmetic: [as f32] rounds to 24 bits *)

Definition f32_of_nat (n : nat) : spec_float := binary_normalize 24 128 (Z.of_nat n) 0 false.
Definition f32_mul : spec_float -> spec_float -> spec_float := SFmul 24 128.
(** [0.98_f32] *)
Definition f32_098 : spec_float := S754_finite false 16441672 (-24).
Definition f32_ge (a b : spec_float) : bool :=
  match SFcompare a b with Some (Gt | Eq) => true | _ => false end.

(** ** Results of running source and sink *)

Inductive SourceRunResult := Source_Terminated (exit_code : Z) | Source_Signalled (signal : Z) | Source_TimedOut.
Inductive ExecError := SourceError (r : SourceRunResult) | NoSourceOutput | DuplicatedOutput.
Inductive SinkRunResult := Sink_Terminated (exit_code : Z) | Sink_Signalled (signal : Z) | Sink_TimedOut.

Definition counter_set (c : FuzzerEventCounter) (finding crash : option Z)
    (successful edges hits src_crashes src_timeout no_output duplicated snk_timeout snk_crashes unique : Z)
    : FuzzerEventCounter :=
  mk_counter (init_ts c) finding crash (execs c) successful edges hits src_crashes src_timeout
    no_output duplicated snk_timeout snk_crashes unique.

(** [stats.<field> += 1] for each field the handlers update *)
Inductive CounterField :=
| F_successful | F_edges | F_hits | F_source_crashes | F_source_timeout | F_no_output
| F_duplicated | F_sink_timeout | F_sink_crashes | F_unique_crashes.

Definition field_get (f : CounterField) (c : FuzzerEventCounter) : Z :=
  match f with
  | F_successful => successful_source_execs c | F_edges => edges_found c | F_hits => hits_found c
  | F_source_crashes => source_crashes c | F_source_timeout => source_timeout c
  | F_no_output => source_no_output c | F_duplicated => source_duplicated_output c
  | F_sink_timeout => sink_timeout c | F_sink_crashes => sink_crashes c
  | F_unique_crashes => sink_unique_crashes c
  end.

#[export] Instance CounterField_eq_dec : EqDecision CounterField.
Proof. solve_decision. Defined.

Definition field_set (f : CounterField) (c : FuzzerEventCounter) (v : Z) : FuzzerEventCounter :=
  let g f' := if decide (f = f') then v else field_get f' c in
  counter_set c (last_finding_ts c) (last_crash_ts c) (g F_successful) (g F_edges) (g F_hits)
    (g F_source_crashes) (g F_source_timeout) (g F_no_output) (g F_duplicated) (g F_sink_timeout)
    (g F_sink_crashes) (g F_unique_crashes).

Definition count (f : CounterField) (c : FuzzerEventCounter) : outcome FuzzerEventCounter :=
  v ← checked_add 64 (field_get f c) 1; mret (field_set f c v).

Definition with_last_finding (c : FuzzerEventCounter) (now : Z) : FuzzerEventCounter :=
  counter_set c (Some now) (last_crash_ts c) (successful_source_execs c) (edges_found c) (hits_found c)
    (source_crashes c) (source_timeout c) (source_no_output c) (source_duplicated_output c)
    (sink_timeout c) (sink_crashes c) (sink_unique_crashes c).

Definition with_last_crash (c : FuzzerEventCounter) (now : Z) : FuzzerEventCounter :=
  counter_set c (last_finding_ts c) (Some now) (successful_source_execs c) (edges_found c) (hits_found c)
    (source_crashes c) (source_timeout c) (source_no_output c) (source_duplicated_output c)
    (sink_timeout c) (sink_crashes c) (sink_unique_crashes c).

Definition handle_source_exec_error (stats : FuzzerEventCounter) (error : ExecError)
    : outcome FuzzerEventCounter :=
  match error with
  | SourceError Source_TimedOut => count F_source_timeout stats
  | SourceError (Source_Signalled _) => count F_source_crashes stats
  | SourceError (Source_Terminated _) => Panic
  | NoSourceOutput => count F_no_output stats
  | DuplicatedOutput => count F_duplicated stats
  end.

Section run.
Context `{L : EntryLayout} `{CL : ContentLayout}.

(** The part of a worker the handlers use. *)
Record Worker := mk_worker {
  w_virgin_map : Bitmap;
  w_crash_virgin_map : Bitmap;
  w_phase : FuzzingPhase;
  w_entry : QueueEntry;
}.

(** What the workers share. *)
Record Shared := mk_shared {
  s_virgin_map : Bitmap;
  s_crash_virgin_map : Bitmap;
  s_queue : Queue;
  s_qstate : QState;
  s_cerebrum : Cerebrum;
}.

(** What [common_calibrate] returns, with the maps of its cycles and the state after
    [QueueEntry::new]. *)
Inductive Calibration :=
| Calibrated (entry : QueueEntry) (qs : QState) (maps : list Bitmap)
| CalibrationFailed
| CalibrationFatal.

(** What an execution brings along besides its coverage map. *)
Record Env := mk_env {
  env_now : Z;
  env_calibration : Calibration;
  env_new_cache : outcome MutationCache;
}.

Definition create_new_queue_entry (env : Env) (bitmap_status : BitmapStatus) (sink_bitmap : Bitmap)
    (w : Worker) (s : Shared) : outcome (result unit (option QueueEntry) * Worker * Shared) :=
  virgin_map ← Bitmap_clone_with_pattern sink_bitmap 255;
  match env_calibration env with
  | Calibrated entry qs maps =>
      let virgin_map := calibrate_virgin virgin_map maps in
      qs ← (match bitmap_status with
            | NewEdge => stats_rw qs entry mark_favoured_once
            | _ => mret qs
            end);
      let entry := set_creation_ts entry (env_now env - q_start_ts (s_queue s)) in
      let (new_entry, queue) := Queue_push (s_queue s) entry in
      cerebrum ← report_new_qe (env_new_cache env) (s_cerebrum s) new_entry;
      let virgin_map := Bitmap_not virgin_map in
      let virgin_map := (Bitmap_has_new_bit (w_virgin_map w) virgin_map).2 in
      let shared_virgin_map := (Bitmap_has_new_bit virgin_map (s_virgin_map s)).2 in
      mret (Ok (Some new_entry), w,
            mk_shared shared_virgin_map (s_crash_virgin_map s) queue qs cerebrum)
  | CalibrationFailed => mret (Ok None, w, s)
  | CalibrationFatal => mret (Err tt, w, s)
  end.

(** The end of [calibrate_seed_files], with the maps of all cycles of all seeds. *)
Definition clear_seed_coverage (sink_bitmap : Bitmap) (maps : list Bitmap) (w : Worker) (s : Shared)
    : outcome (Worker * Shared) :=
  virgin_map ← Bitmap_clone_with_pattern sink_bitmap 255;
  let virgin_map := Bitmap_not (calibrate_virgin virgin_map maps) in
  let local := (Bitmap_has_new_bit virgin_map (w_virgin_map w)).2 in
  let global := (Bitmap_has_new_bit virgin_map (s_virgin_map s)).2 in
  mret (mk_worker local (w_crash_virgin_map w) (w_phase w) (w_entry w),
        mk_shared global (s_crash_virgin_map s) (s_queue s) (s_qstate s) (s_cerebrum s)).

Definition with_virgin (w : Worker) (m : Bitmap) : Worker :=
  mk_worker m (w_crash_virgin_map w) (w_phase w) (w_entry w).
Definition with_crash_virgin (w : Worker) (m : Bitmap) : Worker :=
  mk_worker (w_virgin_map w) m (w_phase w) (w_entry w).
Definition with_shared_virgin (s : Shared) (m : Bitmap) : Shared :=
  mk_shared m (s_crash_virgin_map s) (s_queue s) (s_qstate s) (s_cerebrum s).
Definition with_shared_crash_virgin (s : Shared) (m : Bitmap) : Shared :=
  mk_shared (s_virgin_map s) m (s_queue s) (s_qstate s) (s_cerebrum s).

(** In discovery, runs that lose edges of the entry are of no interest. *)
Definition loses_edges (w : Worker) (bytes_set : nat) : bool :=
  bool_decide (w_phase w = Discovery) &&
  f32_ge (f32_mul (f32_of_nat (Bitmap_count_bits_set (qe_covered_edges (w_entry w)))) f32_098)
         (f32_of_nat bytes_set).

Definition run_outcome : Type := outcome (result unit unit * FuzzerEventCounter * Worker * Shared).

(** [self.create_new_queue_entry(..)?] *)
Definition then_create (env : Env) (status : BitmapStatus) (cov : Bitmap) (stats : FuzzerEventCounter)
    (w : Worker) (s : Shared) : run_outcome :=
  r ← create_new_queue_entry env status cov w s;
  let '(res, w, s) := r in
  mret (match res with Ok _ => Ok tt | Err e => Err e end, stats, w, s).

Definition handle_run_result_terminated (env : Env) (stats : FuzzerEventCounter) (coverage_map : Bitmap)
    (w : Worker) (s : Shared) : run_outcome :=
  let coverage_map := Bitmap_classify_counts coverage_map in
  _ ← Bitmap_hash32 coverage_map;
  let (new_coverage, virgin_map) := Bitmap_has_new_bit coverage_map (w_virgin_map w) in
  let w := with_virgin w virgin_map in
  let bytes_set := Bitmap_count_bytes_set coverage_map in
  if loses_edges w bytes_set then mret (Ok tt, stats, w, s)
  else
    match new_coverage with
    | NewEdge | NewHit =>
        let (has_new_bits, global_virgin_map) := Bitmap_has_new_bit coverage_map (s_virgin_map s) in
        virgin_map ← Bitmap_copy_from (w_virgin_map w) global_virgin_map;
        let w := with_virgin w virgin_map in
        let s := with_shared_virgin s global_virgin_map in
        match has_new_bits with
        | NoChange => mret (Ok tt, stats, w, s)
        | _ =>
            stats ← count (match has_new_bits with NewEdge => F_edges | _ => F_hits end) stats;
            let stats := with_last_finding stats (env_now env) in
            then_create env has_new_bits coverage_map stats w s
        end
    | NoChange => mret (Ok tt, stats, w, s)
    end.

Definition handle_run_result_signalled (env : Env) (stats : FuzzerEventCounter) (coverage_map : Bitmap)
    (w : Worker) (s : Shared) : run_outcome :=
  let coverage_map := Bitmap_classify_counts coverage_map in
  r ← check_virgin_maps coverage_map (w_crash_virgin_map w) (s_crash_virgin_map s);
  let '(new_bits, local, global) := r in
  let w := with_crash_virgin w local in
  let s := with_shared_crash_virgin s global in
  match new_bits with
  | NewEdge | NewHit =>
      stats ← count F_unique_crashes stats;
      then_create env new_bits coverage_map (with_last_crash stats (env_now env)) w s
  | NoChange => mret (Ok tt, stats, w, s)
  end.

Definition handle_run_result (env : Env) (stats : FuzzerEventCounter) (run_result : SinkRunResult)
    (coverage_map : Bitmap) (w : Worker) (s : Shared) : run_outcome :=
  let coverage_map := Bitmap_classify_counts coverage_map in
  match run_result with
  | Sink_Terminated _ =>
      stats ← count F_successful stats;
      handle_run_result_terminated env stats coverage_map w s
  | Sink_Signalled _ =>
      stats ← count F_sink_crashes stats;
      handle_run_result_signalled env stats coverage_map w s
  | Sink_TimedOut =>
      stats ← count F_sink_timeout stats;
      mret (Ok tt, stats, w, s)
  end.

(** What [common_run] or [networked_common_run] returned. *)
Inductive Execution :=
| Executed (r : SinkRunResult) (coverage_map : Bitmap)
| ExecFailed (e : ExecError)
| ExecUnknown.

Definition do_run (env : Env) (stats : FuzzerEventCounter) (run : Execution) (w : Worker) (s : Shared)
    : run_outcome :=
  match run with
  | Executed r coverage_map => handle_run_result env stats r coverage_map w s
  | ExecFailed e => stats ← handle_source_exec_error stats e; mret (Ok tt, stats, w, s)
  | ExecUnknown => mret (Err tt, stats, w, s)
  end.
End run.

(** ** Bits of maps *)

Lemma not_data m : bitmap_wf m -> bm_data (Bitmap_not m) = not_w 8 <$> bm_data m.
Proof. intros Hm. apply chunks8_map; [apply not_chunk|by apply bitmap_wf_mod8|apply Hm]. Qed.

Lemma not_of_size n m : map_of_size n m -> map_of_size n (Bitmap_not m).
Proof.
  intros [Hm Hn]. split; [|done]. pose proof (not_data m Hm) as E. unfold Bitmap_not in *.
  cbn [bm_data with_data] in E. rewrite E. apply with_data_wf; [done|apply length_fmap|].
  apply Forall_fmap, (Forall_impl _ _ _ (bm_wf_bytes m Hm)). intros. by apply not_w_fits.
Qed.

Lemma classify_of_size n m : map_of_size n m -> map_of_size n (Bitmap_classify_counts m).
Proof.
  intros [Hm Hn]. split; [|done]. pose proof (classify_data m Hm) as E. unfold Bitmap_classify_counts in *.
  cbn [bm_data with_data] in E. rewrite E. apply with_data_wf; [done|apply length_fmap|].
  apply Forall_fmap, (Forall_impl _ _ _ (bm_wf_bytes m Hm)), bucket_ok.
Qed.

Lemma new_bit_of_size n m v :
  map_of_size n m -> map_of_size n v -> map_of_size n (Bitmap_has_new_bit m v).2.
Proof.
  intros [Hm ?] [Hv ?]. rewrite has_new_bit_spec by (done || congruence). cbn [snd].
  split; [|done]. apply and_not_map_wf; done || congruence.
Qed.

Lemma hit_not n m i j :
  map_of_size n m -> hit (Bitmap_not m) i j <-> (i < n)%nat /\ 0 <= j < 8 /\ ~ hit m i j.
Proof.
  intros Hm. pose proof (not_of_size n m Hm) as Hnm. unfold hit at 1. rewrite not_data by apply Hm.
  destruct Hm as [Hm Hn]. split.
  - intros (b & Hb & Ht). apply list_lookup_fmap_Some in Hb as (b0 & -> & Hb0).
    assert (Hj : 0 <= j < 8).
    { apply (hit_lt8 n (Bitmap_not m) i j Hnm). exists (not_w 8 b0). by rewrite not_data, list_lookup_fmap, Hb0. }
    rewrite not_w_spec, negb_true_iff in Ht by done. split; [|split; [done|]].
    + apply lookup_lt_Some in Hb0. destruct Hm. lia.
    + intros (b & Hb & Hbt). congruence.
  - intros (Hi & Hj & Hh). destruct (lookup_lt_is_Some_2 (bm_data m) i) as [b Hb]; [destruct Hm; lia|].
    exists (not_w 8 b). rewrite list_lookup_fmap, Hb. split; [done|]. rewrite not_w_spec by done.
    apply negb_true_iff, not_true_iff_false. intros Ht. apply Hh. by exists b.
Qed.

Lemma hit_new_bit n m v i j :
  map_of_size n m -> map_of_size n v ->
  hit (Bitmap_has_new_bit m v).2 i j <-> hit v i j /\ ~ hit m i j.
Proof.
  intros Hm Hv. pose proof (new_bit_of_size n m v Hm Hv) as Hr.
  assert (E : bm_data (Bitmap_has_new_bit m v).2 = zip_with and_not (bm_data v) (bm_data m)).
  { destruct Hm, Hv. rewrite has_new_bit_spec by (done || congruence). done. }
  split.
  - intros Hh. pose proof (hit_lt8 n _ i j Hr Hh) as Hj. destruct Hh as (b & Hb & Ht).
    rewrite E in Hb. apply lookup_zip_with_Some in Hb as (bv & bm & -> & Hbv & Hbm).
    rewrite and_not_testbit in Ht by done. apply andb_true_iff in Ht as [Ht1 Ht2%negb_true_iff].
    split; [by exists bv|]. intros (b & Hb & Hbt). congruence.
  - intros [Hh Hn]. pose proof (hit_lt8 n v i j Hv Hh) as Hj. pose proof Hh as (bv & Hbv & Ht).
    destruct (hit_lookup n v m i j Hv Hm Hh) as (bm & Hbm & _). exists (and_not bv bm).
    rewrite E. split; [apply lookup_zip_with_Some; by exists bv, bm|].
    rewrite and_not_testbit, Ht by done. cbn. apply negb_true_iff, not_true_iff_false.
    intros Hbt. apply Hn. by exists bm.
Qed.

Lemma new_bit_NoChange n m v :
  map_of_size n m -> map_of_size n v ->
  (Bitmap_has_new_bit m v).1 = NoChange <-> forall i j, hit m i j -> ~ hit v i j.
Proof.
  intros Hm Hv. rewrite (has_new_bit_status n) by done. rewrite bytes_status_NoChange_iff by apply Hm. split.
  - intros H i j (a & Ha & Hta) (b & Hb & Htb). specialize (H i a b Ha Hb).
    apply (f_equal (fun z => Z.testbit z j)) in H. by rewrite Z.land_spec, Hta, Htb, Z.testbit_0_l in H.
  - intros H i a b Ha Hb. apply (testbit_ext 8); [lia| |done|].
    + apply fits_land_l; [done|]. eapply Forall_lookup_1; [apply Hm|exact Ha].
    + intros j Hj. rewrite Z.land_spec, Z.testbit_0_l.
      destruct (Z.testbit a j) eqn:Hta; [cbn|done]. apply not_true_iff_false. intros Htb.
      apply (H i j); [by exists a|by exists b].
Qed.

(** Maps of one size with the same bits have the same data. *)
Lemma hit_ext n a b :
  map_of_size n a -> map_of_size n b -> (forall i j, hit a i j <-> hit b i j) -> bm_data a = bm_data b.
Proof.
  intros [Ha Hna] [Hb Hnb] H. apply list_eq. intros i.
  destruct (bm_data a !! i) as [x|] eqn:Ex.
  - destruct (lookup_lt_is_Some_2 (bm_data b) i) as [y Ey].
    { apply lookup_lt_Some in Ex. destruct Ha, Hb. lia. }
    rewrite Ey. f_equal. apply (testbit_ext 8); [lia| | |].
    + eapply Forall_lookup_1; [apply Ha|exact Ex].
    + eapply Forall_lookup_1; [apply Hb|exact Ey].
    + intros j Hj. specialize (H i j). unfold hit in H. rewrite Ex, Ey in H.
      destruct (Z.testbit x j) eqn:Tx, (Z.testbit y j) eqn:Ty; try done; exfalso.
      * destruct (proj1 H) as (z & [= <-] & Tz); [by exists x|congruence].
      * destruct (proj2 H) as (z & [= <-] & Tz); [by exists y|congruence].
  - apply lookup_ge_None in Ex. symmetry. apply lookup_ge_None. destruct Ha, Hb. lia.
Qed.

Lemma NoChange_same n m v :
  map_of_size n m -> map_of_size n v -> (Bitmap_has_new_bit m v).1 = NoChange ->
  Bitmap_has_new_bit m v = (NoChange, v).
Proof.
  intros Hm Hv Hnc. pose proof (new_bit_of_size n m v Hm Hv) as Hr.
  assert (E : bm_data (Bitmap_has_new_bit m v).2 = bm_data v).
  { apply (hit_ext n); [done..|]. intros i j. rewrite (hit_new_bit n) by done.
    split; [by intros [? _]|]. intros Hh. split; [done|]. intros Hmh.
    by apply (proj1 (new_bit_NoChange n m v Hm Hv) Hnc i j). }
  rewrite (surjective_pairing (Bitmap_has_new_bit m v)), Hnc. f_equal.
  unfold Bitmap_has_new_bit in *. cbn [snd bm_data with_data] in *. rewrite E. by destruct v.
Qed.

(** ** The local map as a cache *)

(** Every bit that is virgin in [g] is virgin in [l]. *)
Definition sub_virgin (g l : Bitmap) : Prop := forall i j, hit g i j -> hit l i j.

Lemma sub_virgin_data g l : bm_data l = bm_data g -> sub_virgin g l.
Proof. intros E i j (b & Hb & Ht). exists b. by rewrite E. Qed.

Lemma copy_from_of_size n l g :
  map_of_size n l -> map_of_size n g ->
  exists l', Bitmap_copy_from l g = Ret l' /\ map_of_size n l' /\ bm_data l' = bm_data g.
Proof.
  intros [Hl Hln] [Hg Hgn]. unfold Bitmap_copy_from.
  assert (E : length (bm_data l) = length (bm_data g)) by (destruct Hl, Hg; lia).
  rewrite E, Nat.eqb_refl. cbn [assert_that mbind outcome_bind].
  exists (with_data l (bm_data g)). split; [done|]. split; [|done]. split; [|done].
  apply with_data_wf; [done|done|apply Hg].
Qed.

(** Comparing with the local map first gives the answer of the global map. *)
Lemma check_virgin_spec n cov l g :
  map_of_size n cov -> map_of_size n l -> map_of_size n g -> sub_virgin g l ->
  exists l', check_virgin_maps cov l g
             = Ret ((Bitmap_has_new_bit cov g).1, l', (Bitmap_has_new_bit cov g).2) /\
    map_of_size n l' /\ sub_virgin (Bitmap_has_new_bit cov g).2 l'.
Proof.
  intros Hc Hl Hg Hsub. unfold check_virgin_maps.
  pose proof (new_bit_of_size n cov l Hc Hl) as Hl'. pose proof (new_bit_of_size n cov g Hc Hg) as Hg'.
  destruct (Bitmap_has_new_bit cov l) as [st l1] eqn:El. cbn [snd] in Hl'.
  destruct (decide (st = NoChange)) as [->|Hne].
  - assert (Hnc : (Bitmap_has_new_bit cov g).1 = NoChange).
    { apply (new_bit_NoChange n); [done..|]. intros i j Hh Hhg.
      apply (proj1 (new_bit_NoChange n cov l Hc Hl) ltac:(by rewrite El) i j Hh). by apply Hsub. }
    rewrite (NoChange_same n cov g Hc Hg Hnc). cbn [fst snd].
    rewrite (NoChange_same n cov l Hc Hl) in El by (by rewrite El). injection El as <-.
    by exists l.
  - destruct (copy_from_of_size n l1 (Bitmap_has_new_bit cov g).2 Hl' Hg') as (l' & E & Hs & Hd).
    exists l'. split; [|split; [done|by apply sub_virgin_data]].
    destruct (Bitmap_has_new_bit cov g) as [st' g'] eqn:Eg. cbn [fst snd] in *.
    destruct st; [done| |]; rewrite E; done.
Qed.

(** Runs of several workers: each names its worker and its classified coverage map. *)
Fixpoint check_runs (locals : list Bitmap) (global : Bitmap) (runs : list (nat * Bitmap))
    : outcome (list BitmapStatus * list Bitmap * Bitmap) :=
  match runs with
  | [] => mret ([], locals, global)
  | (i, cov) :: runs =>
      local ← slice_get locals i;
      r ← check_virgin_maps cov local global;
      locals ← slice_set locals i r.1.2;
      rest ← check_runs locals r.2 runs;
      mret (r.1.1 :: rest.1.1, rest.1.2, rest.2)
  end.

Lemma check_runs_spec n runs locals g :
  Forall (fun r => (r.1 < length locals)%nat /\ map_of_size n r.2) runs ->
  Forall (fun l => map_of_size n l /\ sub_virgin g l) locals -> map_of_size n g ->
  exists sts locals', check_runs locals g runs = Ret (sts, locals', observe g (snd <$> runs)) /\
    length sts = length runs /\
    (forall p i cov, runs !! p = Some (i, cov) ->
       sts !! p = Some (Bitmap_has_new_bit cov (observe g (snd <$> take p runs))).1).
Proof.
  revert locals g. induction runs as [|[i cov] runs IH]; intros locals g Hruns Hl Hg; cbn [check_runs].
  { exists [], locals. done. }
  apply Forall_cons_1 in Hruns as [[Hi Hcov] Hruns]. cbn [fst snd] in Hi, Hcov.
  destruct (slice_get_lt locals i Hi) as (l & -> & Hli). cbn [mbind outcome_bind].
  destruct (Forall_lookup_1 _ _ _ _ Hl Hli) as [Hls Hlsub].
  destruct (check_virgin_spec n cov l g Hcov Hls Hg Hlsub) as (l' & -> & Hl's & Hl'sub).
  cbn [mbind outcome_bind fst snd]. rewrite slice_set_lt by done. cbn [mbind outcome_bind].
  destruct (IH (<[i := l']> locals) (Bitmap_has_new_bit cov g).2) as (sts & locals' & E & Hlen & Hst).
  - apply (Forall_impl _ _ _ Hruns). intros r [? ?]. by rewrite length_insert.
  - apply Forall_insert; [|done]. apply (Forall_impl _ _ _ Hl). intros x [Hx Hxs]. split; [done|].
    intros a b Hh. apply Hxs. by apply (hit_new_bit n) in Hh as [? _].
  - by apply new_bit_of_size.
  - rewrite E. cbn [mbind outcome_bind fst snd].
    eexists _, locals'. split; [reflexivity|]. split; [cbn; lia|].
    intros [|p] i' cov' Hp; cbn in Hp |- *; [by injection Hp as <- <-|]. by apply (Hst p i').
Qed.

(** C2: several workers with their own virgin maps find exactly what one would: whatever
    worker executes which run in which order, a run is judged by
    [check_virgin_maps] against all earlier runs of all workers.  It is a [NewEdge]
    exactly when it has an edge none of them had, [NoChange] exactly when all its
    bits were reported before, and a [NewHit] otherwise. *)
Theorem workers_judge_globally n v k runs p i cov :
  Bitmap_new_in_mem n 255 = Ret v ->
  Forall (fun r => (r.1 < k)%nat /\ map_of_size n r.2) runs -> runs !! p = Some (i, cov) ->
  let earlier := snd <$> take p runs in
  exists sts locals g st, check_runs (replicate k v) v runs = Ret (sts, locals, g) /\
    sts !! p = Some st /\
    (st = NewEdge <->
       exists e, (exists j, hit cov e j) /\ forall m, m ∈ earlier -> forall j, ~ hit m e j) /\
    (st = NoChange <-> forall e j, hit cov e j -> exists m, m ∈ earlier /\ hit m e j).
Proof.
  intros Hv Hruns Hp earlier. pose proof (virgin_for_nil n v Hv) as [Hvs _ _].
  destruct (check_runs_spec n runs (replicate k v) v) as (sts & locals & E & _ & Hst).
  - by rewrite length_replicate.
  - apply Forall_replicate. split; [exact Hvs|]. by intros ? ? ?.
  - done.
  - eexists sts, locals, _, _. split; [exact E|]. split; [by apply Hst with i|].
    assert (Hear : Forall (map_of_size n) earlier).
    { apply Forall_fmap, Forall_take, (Forall_impl _ _ _ Hruns). by intros r [_ ?]. }
    pose proof (virgin_for_observe n earlier v Hv Hear) as Hobs.
    assert (Hcov : map_of_size n cov) by (by destruct (Forall_lookup_1 _ _ _ _ Hruns Hp)).
    rewrite (has_new_bit_status n) by (done || apply Hobs).
    split; [by apply virgin_status_NewEdge with n|by apply virgin_status_NoChange with n].
Qed.

(** ** Calibration *)

Lemma calibrate_observe v maps : calibrate_virgin v maps = observe v (Bitmap_classify_counts <$> maps).
Proof.
  unfold calibrate_virgin, observe. revert v. induction maps as [|m maps IH]; intros v; [done|].
  cbn [foldl fmap list_fmap]. apply IH.
Qed.

Lemma clone_fresh n cov : map_of_size n cov -> exists v, Bitmap_clone_with_pattern cov 255 = Ret v /\
  Bitmap_new_in_mem n 255 = Ret v.
Proof.
  intros [Hc <-]. unfold Bitmap_clone_with_pattern.
  exists (mk_bitmap None (replicate (bm_size cov) 255) 255 (bm_size cov)).
  split; rewrite new_in_mem_Ret; (split; [apply Hc|done]).
Qed.

(** The inverted virgin map of a calibration: the bits its runs reported. *)
Lemma calibration_bits n v maps :
  Bitmap_new_in_mem n 255 = Ret v -> Forall (map_of_size n) maps ->
  map_of_size n (Bitmap_not (calibrate_virgin v maps)) /\
  forall i j, hit (Bitmap_not (calibrate_virgin v maps)) i j <->
              exists m, m ∈ maps /\ hit (Bitmap_classify_counts m) i j.
Proof.
  intros Hv Hmaps. rewrite calibrate_observe.
  assert (Hcl : Forall (map_of_size n) (Bitmap_classify_counts <$> maps)).
  { apply Forall_fmap, (Forall_impl _ _ _ Hmaps). intros m. apply classify_of_size. }
  pose proof (virgin_for_observe n _ v Hv Hcl) as [Hs _ Hbits].
  split; [by apply not_of_size|]. intros i j. rewrite (hit_not n) by done. split.
  - intros (Hi & Hj & Hn). destruct (lookup_lt_is_Some_2 (bm_data (observe v (Bitmap_classify_counts <$> maps))) i)
      as [b Hb]; [destruct Hs as [[] ?]; lia|].
    assert (Ht : Z.testbit b j <> true) by (intros Ht; apply Hn; by exists b).
    rewrite (Hbits i b j Hb Hj) in Ht.
    destruct (decide (Exists (fun m => hit (Bitmap_classify_counts m) i j) maps)) as [He|He].
    + by apply Exists_exists in He.
    + exfalso. apply Ht. intros m (m0 & -> & Hm0)%list_elem_of_fmap Hh. apply He, Exists_exists. eauto.
  - intros (m & Hm & Hh). assert (Hms : map_of_size n (Bitmap_classify_counts m)).
    { apply classify_of_size. by eapply Forall_forall in Hmaps. }
    pose proof (hit_lt8 n _ i j Hms Hh) as Hj. split; [|split; [done|]].
    + destruct Hh as (b & Hb & _). apply lookup_lt_Some in Hb. destruct Hms as [[] ?]. lia.
    + intros (b & Hb & Ht). apply (proj1 (Hbits i b j Hb Hj) Ht (Bitmap_classify_counts m)); [|done].
      apply list_elem_of_fmap. by exists m.
Qed.

(** Clearing from the map of reported bits what is virgin locally leaves nothing that
    is virgin globally. *)
Lemma propagate_nothing n c l g :
  map_of_size n c -> map_of_size n l -> map_of_size n g -> sub_virgin g l ->
  Bitmap_has_new_bit (Bitmap_has_new_bit l c).2 g = (NoChange, g).
Proof.
  intros Hc Hl Hg Hsub. pose proof (new_bit_of_size n l c Hl Hc) as Hr. apply (NoChange_same n); [done..|].
  apply (new_bit_NoChange n); [done..|]. intros i j Hh Hhg. apply (hit_new_bit n) in Hh as [_ Hn]; [|done..].
  by apply Hn, Hsub.
Qed.

Section run_lemmas.
Context `{L : EntryLayout} `{CL : ContentLayout}.

(** The entry a calibration adds to the queue. *)
Definition added_entries (env : Env) (s : Shared) : list QueueEntry :=
  match env_calibration env with
  | Calibrated entry _ _ => [set_creation_ts entry (env_now env - q_start_ts (s_queue s))]
  | _ => []
  end.

(** The calibration left maps of size [n] and an entry whose statistics exist, and the
    mutations of the entry can be reported. *)
Definition env_ok (n : nat) (env : Env) (s : Shared) : Prop :=
  match env_calibration env with
  | Calibrated entry qs maps =>
      Forall (map_of_size n) maps /\ (qe_stats entry < length (qs_stats qs))%nat /\
      exists cb, report_new_qe (env_new_cache env) (s_cerebrum s)
                   (set_creation_ts entry (env_now env - q_start_ts (s_queue s))) = Ret cb
  | _ => True
  end.

Lemma create_spec n env st cov w s :
  env_ok n env s -> map_of_size n cov -> map_of_size n (w_virgin_map w) ->
  map_of_size n (s_virgin_map s) -> sub_virgin (s_virgin_map s) (w_virgin_map w) ->
  exists r s', create_new_queue_entry env st cov w s = Ret (r, w, s') /\
    s_virgin_map s' = s_virgin_map s /\ s_crash_virgin_map s' = s_crash_virgin_map s /\
    q_entries (s_queue s') = q_entries (s_queue s) ++ added_entries env s /\
    r = match env_calibration env with CalibrationFatal => Err tt | _ => Ok (head (added_entries env s)) end.
Proof.
  intros Henv Hc Hw Hs Hsub. unfold create_new_queue_entry, added_entries. unfold env_ok in Henv.
  destruct (clone_fresh n cov Hc) as (v & -> & Hv). cbn [mbind outcome_bind].
  destruct (env_calibration env) as [entry qs maps| |].
  - destruct Henv as (Hmaps & Hst & cb & Hcb).
    assert (Hqs : exists qs', (match st with NewEdge => stats_rw qs entry mark_favoured_once | _ => mret qs end)
                              = Ret qs').
    { destruct st; [by eexists|by eexists|]. unfold stats_rw, stats_ro.
      destruct (slice_get_lt _ _ Hst) as (x & -> & _). cbn [mbind outcome_bind].
      rewrite slice_set_lt by done. by eexists. }
    destruct Hqs as (qs' & ->). cbn [mbind outcome_bind Queue_push fst snd]. rewrite Hcb. cbn [mbind outcome_bind].
    destruct (calibration_bits n v maps Hv Hmaps) as [Hns _].
    rewrite (propagate_nothing n) by done. cbn [snd].
    eexists _, _. split; [reflexivity|]. done.
  - eexists _, s. rewrite app_nil_r. done.
  - eexists _, s. rewrite app_nil_r. done.
Qed.

(** The coverage of the calibration runs of a new queue entry is lost:
    [create_new_queue_entry] leaves the virgin maps of the worker and of the campaign
    as they were, whatever the calibration runs covered, although it means to clear
    their bits from both maps.  The seed files do it: [clear_seed_coverage] clears
    exactly the bits some calibration run reported from both maps. *)
Theorem calibration_coverage_dropped n env st cov w s maps :
  env_ok n env s -> map_of_size n cov -> Forall (map_of_size n) maps ->
  map_of_size n (w_virgin_map w) -> map_of_size n (s_virgin_map s) ->
  sub_virgin (s_virgin_map s) (w_virgin_map w) ->
  (exists r s', create_new_queue_entry env st cov w s = Ret (r, w, s') /\
     s_virgin_map s' = s_virgin_map s /\
     q_entries (s_queue s') = q_entries (s_queue s) ++ added_entries env s) /\
  (exists w' s', clear_seed_coverage cov maps w s = Ret (w', s') /\
     forall i j, let fresh := forall m, m ∈ maps -> ~ hit (Bitmap_classify_counts m) i j in
       (hit (w_virgin_map w') i j <-> hit (w_virgin_map w) i j /\ fresh) /\
       (hit (s_virgin_map s') i j <-> hit (s_virgin_map s) i j /\ fresh)).
Proof.
  intros Henv Hc Hmaps Hw Hs Hsub. split.
  - destruct (create_spec n env st cov w s) as (r & s' & E & Hv & _ & Hq & _); [done..|]. by exists r, s'.
  - unfold clear_seed_coverage. destruct (clone_fresh n cov Hc) as (v & -> & Hv). cbn [mbind outcome_bind].
    destruct (calibration_bits n v maps Hv Hmaps) as [Hns Hbits].
    eexists _, _. split; [reflexivity|]. intros i j. cbn [w_virgin_map s_virgin_map].
    rewrite !(hit_new_bit n), Hbits by done. naive_solver.
Qed.
(** ** Runs of a worker *)

(** The maps of a worker are caches of the maps of the campaign. *)
Record worker_ok (n : nat) (w : Worker) (s : Shared) : Prop := {
  wo_virgin : map_of_size n (w_virgin_map w);
  wo_crash : map_of_size n (w_crash_virgin_map w);
  wo_shared : map_of_size n (s_virgin_map s);
  wo_shared_crash : map_of_size n (s_crash_virgin_map s);
  wo_sub : sub_virgin (s_virgin_map s) (w_virgin_map w);
  wo_crash_sub : sub_virgin (s_crash_virgin_map s) (w_crash_virgin_map w);
}.

(** What the map of the campaign says of a run. *)
Definition judged (r : SinkRunResult) (cov : Bitmap) (s : Shared) : BitmapStatus :=
  match r with
  | Sink_Terminated _ => (Bitmap_has_new_bit cov (s_virgin_map s)).1
  | Sink_Signalled _ => (Bitmap_has_new_bit cov (s_crash_virgin_map s)).1
  | Sink_TimedOut => NoChange
  end.

(** By how much a run moves a counter. *)
Definition increment (r : SinkRunResult) (st : BitmapStatus) (f : CounterField) : Z :=
  match r, st, f with
  | Sink_Terminated _, _, F_successful | Sink_Terminated _, NewEdge, F_edges
  | Sink_Terminated _, NewHit, F_hits | Sink_Signalled _, _, F_sink_crashes
  | Sink_Signalled _, (NewEdge | NewHit), F_unique_crashes | Sink_TimedOut, _, F_sink_timeout => 1
  | _, _, _ => 0
  end.

Lemma field_get_set f f' c v : field_get f' (field_set f c v) = if decide (f = f') then v else field_get f' c.
Proof. by destruct f'. Qed.

Lemma count_Ret f c :
  field_get f c + 1 < 2 ^ 64 ->
  exists c', count f c = Ret c' /\
    forall f', field_get f' c' = field_get f' c + (if decide (f = f') then 1 else 0).
Proof.
  intros Hlt. unfold count. rewrite checked_add_lt by done. eexists. split; [reflexivity|].
  intros f'. rewrite field_get_set. destruct (decide (f = f')); [by subst|lia].
Qed.

Lemma hash32_Ret n m : map_of_size n m -> exists h, Bitmap_hash32 m = Ret h.
Proof.
  intros [Hm _]. unfold Bitmap_hash32. pose proof (bitmap_wf_mod8 m Hm) as Hl.
  assert (E : (Z.of_nat (length (bm_data m)) mod 8 =? 0) = true) by (apply Z.eqb_eq; lia).
  rewrite E. by eexists.
Qed.

Lemma with_virgin_same w : with_virgin w (w_virgin_map w) = w.
Proof. by destruct w. Qed.

Lemma with_shared_virgin_same s : with_shared_virgin s (s_virgin_map s) = s.
Proof. by destruct s. Qed.

(** Outside of the cut-off, a terminated run does what [check_virgin_maps] does. *)
Lemma terminated_eq n env stats cov w s (c := Bitmap_classify_counts cov) :
  map_of_size n cov -> loses_edges w (Bitmap_count_bytes_set c) = false ->
  map_of_size n (w_virgin_map w) ->
  handle_run_result_terminated env stats cov w s =
  r ← check_virgin_maps c (w_virgin_map w) (s_virgin_map s);
  match r.1.1 with
  | NoChange => mret (Ok tt, stats, with_virgin w r.1.2, with_shared_virgin s r.2)
  | st =>
      stats ← count (match st with NewEdge => F_edges | _ => F_hits end) stats;
      then_create env st c (with_last_finding stats (env_now env)) (with_virgin w r.1.2) (with_shared_virgin s r.2)
  end.
Proof.
  intros Hc Hl Hw. pose proof (classify_of_size n cov Hc) as Hcc.
  unfold handle_run_result_terminated, check_virgin_maps. fold c in Hcc |- *.
  destruct (hash32_Ret n c Hcc) as (h & ->). cbn [mbind outcome_bind].
  destruct (Bitmap_has_new_bit c (w_virgin_map w)) as [st l1] eqn:El.
  replace (loses_edges (with_virgin w l1) (Bitmap_count_bytes_set c)) with false by (symmetry; exact Hl).
  destruct st; cbn [mbind outcome_bind mret outcome_ret fst snd]; [by destruct s| |];
    destruct (Bitmap_has_new_bit c (s_virgin_map s)) as [st' g'];
    cbn [with_virgin w_virgin_map]; destruct (Bitmap_copy_from l1 g'); cbn [mbind outcome_bind mret outcome_ret fst snd];
    by destruct st'.
Qed.
(** A verdict on a run is followed by a new queue entry unless nothing is new. *)
Lemma then_create_spec n env st cov stats w s :
  env_ok n env s -> map_of_size n cov -> worker_ok n w s ->
  exists res s', then_create env st cov stats w s = Ret (res, stats, w, s') /\ worker_ok n w s' /\
    s_virgin_map s' = s_virgin_map s /\ s_crash_virgin_map s' = s_crash_virgin_map s /\
    q_entries (s_queue s') = q_entries (s_queue s) ++ added_entries env s /\
    (res = Err tt <-> env_calibration env = CalibrationFatal).
Proof.
  intros Henv Hc Hw. unfold then_create.
  destruct (create_spec n env st cov w s) as (r & s' & -> & Hv & Hcv & Hq & Hr); [done|done|apply Hw..|].
  cbn [mbind outcome_bind]. eexists _, s'. split; [reflexivity|].
  split; [destruct Hw; by split; rewrite ?Hv, ?Hcv|]. split_and!; [done..|].
  rewrite Hr. by destruct (env_calibration env).
Qed.

(** The maps stay caches when a verdict of [check_virgin_maps] is stored. *)
Lemma worker_ok_virgin n w s l g :
  worker_ok n w s -> map_of_size n l -> map_of_size n g -> sub_virgin g l ->
  worker_ok n (with_virgin w l) (with_shared_virgin s g).
Proof. intros [] ? ? ?. by split. Qed.

Lemma worker_ok_crash n w s l g :
  worker_ok n w s -> map_of_size n l -> map_of_size n g -> sub_virgin g l ->
  worker_ok n (with_crash_virgin w l) (with_shared_crash_virgin s g).
Proof. intros [] ? ? ?. by split. Qed.

(** What [handle_run_result] returns, in terms of what the run deserves. *)
Record deserved (n : nat) (env : Env) (stats : FuzzerEventCounter) (r : SinkRunResult) (c : Bitmap)
    (s : Shared) (res : result unit unit) (stats' : FuzzerEventCounter) (w' : Worker) (s' : Shared) : Prop := {
  de_ok : worker_ok n w' s';
  de_virgin : s_virgin_map s' = (match r with
                                 | Sink_Terminated _ => (Bitmap_has_new_bit c (s_virgin_map s)).2
                                 | _ => s_virgin_map s end);
  de_crash : s_crash_virgin_map s' = (match r with
                                      | Sink_Signalled _ => (Bitmap_has_new_bit c (s_crash_virgin_map s)).2
                                      | _ => s_crash_virgin_map s end);
  de_counters : forall f, field_get f stats' = field_get f stats + increment r (judged r c s) f;
  de_queue : q_entries (s_queue s') = q_entries (s_queue s)
    ++ (if decide (judged r c s = NoChange) then [] else added_entries env s);
  de_error : res = Err tt <-> judged r c s <> NoChange /\ env_calibration env = CalibrationFatal;
}.

(** The counter of the finding moves and the calibrated entry is queued. *)
Ltac new_coverage field Hst1 Hlt Hcreate E :=
  let stats2 := fresh "stats2" in let Hst2 := fresh "Hst2" in
  match type of Hst1 with
  | forall f, field_get f ?stats1 = _ =>
      destruct (count_Ret field stats1) as (stats2 & -> & Hst2);
      [rewrite Hst1, decide_False, Z.add_0_r by done; apply Hlt|]
  end;
  cbn [mbind outcome_bind];
  match goal with
  | |- context [then_create ?env ?st ?c ?stats ?w ?s] =>
      let Hv := fresh "Hv" in let Hcv := fresh "Hcv" in let Hq := fresh "Hq" in
      destruct (Hcreate st stats) as (? & ? & -> & ? & Hv & Hcv & Hq & ?);
      eexists _, _, _, _; split; [reflexivity|];
      split; cbn [judged]; rewrite ?Hv, ?Hcv, ?Hq, ?E; cbn [fst snd increment]; try done; [|naive_solver]
  end;
  let f := fresh "f" in intros f; specialize (Hst2 f); rewrite Hst1 in Hst2; destruct f; repeat case_decide; try done; cbn in *; lia.

Lemma terminated_deserved n env stats stats1 code cov w s (c := Bitmap_classify_counts cov) :
  worker_ok n w s -> map_of_size n cov -> env_ok n env s ->
  (forall f, field_get f stats + 1 < 2 ^ 64) ->
  (forall f, field_get f stats1 = field_get f stats + (if decide (F_successful = f) then 1 else 0)) ->
  loses_edges w (Bitmap_count_bytes_set c) = false ->
  exists res stats' w' s', handle_run_result_terminated env stats1 cov w s = Ret (res, stats', w', s') /\
    deserved n env stats (Sink_Terminated code) c s res stats' w' s'.
Proof.
  intros Hw Hcov Henv Hlt Hst1 Hl. rewrite (terminated_eq n env stats1 cov w s) by (done || apply Hw). fold c.
  assert (Hc : map_of_size n c) by (by apply classify_of_size).
  destruct (check_virgin_spec n c (w_virgin_map w) (s_virgin_map s)) as (l' & -> & Hl' & Hsub);
    [done|apply Hw..|]. cbn [mbind outcome_bind fst snd].
  pose proof (new_bit_of_size n c (s_virgin_map s) Hc ltac:(apply Hw)) as Hg.
  pose proof (worker_ok_virgin n w s l' _ Hw Hl' Hg Hsub) as Hw'.
  destruct (Bitmap_has_new_bit c (s_virgin_map s)) as [st g] eqn:E. cbn [fst snd] in *.
  pose proof (fun st stats => then_create_spec n env st c stats (with_virgin w l')
    (with_shared_virgin s g) Henv Hc Hw') as Hcreate.
  destruct st; cbn [mbind outcome_bind].
  - eexists _, _, _, _. split; [reflexivity|].
    split; cbn [judged]; rewrite ?E; cbn; rewrite ?app_nil_r; try done; [|naive_solver].
    intros f. rewrite Hst1. by destruct f.
  - new_coverage F_hits Hst1 Hlt Hcreate E.
  - new_coverage F_edges Hst1 Hlt Hcreate E.
Qed.

Lemma signalled_deserved n env stats stats1 signal cov w s (c := Bitmap_classify_counts cov) :
  worker_ok n w s -> map_of_size n cov -> env_ok n env s ->
  (forall f, field_get f stats + 1 < 2 ^ 64) ->
  (forall f, field_get f stats1 = field_get f stats + (if decide (F_sink_crashes = f) then 1 else 0)) ->
  exists res stats' w' s', handle_run_result_signalled env stats1 cov w s = Ret (res, stats', w', s') /\
    deserved n env stats (Sink_Signalled signal) c s res stats' w' s'.
Proof.
  intros Hw Hcov Henv Hlt Hst1. unfold handle_run_result_signalled. fold c.
  assert (Hc : map_of_size n c) by (by apply classify_of_size).
  destruct (check_virgin_spec n c (w_crash_virgin_map w) (s_crash_virgin_map s)) as (l' & -> & Hl' & Hsub);
    [done|apply Hw..|]. cbn [mbind outcome_bind fst snd].
  pose proof (new_bit_of_size n c (s_crash_virgin_map s) Hc ltac:(apply Hw)) as Hg.
  pose proof (worker_ok_crash n w s l' _ Hw Hl' Hg Hsub) as Hw'.
  destruct (Bitmap_has_new_bit c (s_crash_virgin_map s)) as [st g] eqn:E. cbn [fst snd] in *.
  pose proof (fun st stats => then_create_spec n env st c stats (with_crash_virgin w l')
    (with_shared_crash_virgin s g) Henv Hc Hw') as Hcreate.
  destruct st; cbn [mbind outcome_bind].
  - eexists _, _, _, _. split; [reflexivity|].
    split; cbn [judged]; rewrite ?E; cbn; rewrite ?app_nil_r; try done; [|naive_solver].
    intros f. rewrite Hst1. by destruct f.
  - new_coverage F_unique_crashes Hst1 Hlt Hcreate E.
  - new_coverage F_unique_crashes Hst1 Hlt Hcreate E.
Qed.

(** C3: [handle_run_result] does what a run deserves, whatever the sink did.  The run is judged
    on its classified coverage by the virgin map of the campaign (by the crash map
    when the sink crashed; a timeout is never new).  That map loses exactly the bits
    of the run, the other one nothing; the maps of the worker stay caches of them;
    the counters of the table [increment] move by one and all others stay; the
    calibrated entry is queued exactly when the run is new, and the only error is a
    fatal calibration of a new run.  The cut-off of the discovery phase is excluded. *)
Theorem run_judged n env stats r cov w s :
  let c := Bitmap_classify_counts (Bitmap_classify_counts cov) in
  worker_ok n w s -> map_of_size n cov -> env_ok n env s ->
  (forall f, field_get f stats + 1 < 2 ^ 64) ->
  loses_edges w (Bitmap_count_bytes_set c) = false ->
  exists res stats' w' s', handle_run_result env stats r cov w s = Ret (res, stats', w', s') /\
    deserved n env stats r c s res stats' w' s'.
Proof.
  intros c Hw Hcov Henv Hlt Hl. unfold handle_run_result.
  assert (Hc : map_of_size n (Bitmap_classify_counts cov)) by (by apply classify_of_size).
  destruct r as [code|signal|].
  - destruct (count_Ret F_successful stats (Hlt _)) as (stats1 & -> & Hst1). cbn [mbind outcome_bind].
    by apply terminated_deserved.
  - destruct (count_Ret F_sink_crashes stats (Hlt _)) as (stats1 & -> & Hst1). cbn [mbind outcome_bind].
    by apply signalled_deserved.
  - destruct (count_Ret F_sink_timeout stats (Hlt _)) as (stats1 & -> & Hst1). cbn [mbind outcome_bind].
    eexists _, _, _, _. split; [reflexivity|]. split; cbn [judged]; rewrite ?decide_True, ?app_nil_r by done;
      try done; [|naive_solver]. intros f. rewrite Hst1. by destruct f.
Qed.
(** A terminated run whose bits the local map lacks changes nothing but a counter. *)
Lemma terminated_seen n env stats cov w s (c := Bitmap_classify_counts cov) :
  map_of_size n cov -> map_of_size n (w_virgin_map w) ->
  (Bitmap_has_new_bit c (w_virgin_map w)).1 = NoChange ->
  handle_run_result_terminated env stats cov w s = Ret (Ok tt, stats, w, s).
Proof.
  intros Hcov Hw Hnc. pose proof (classify_of_size n cov Hcov) as Hc.
  unfold handle_run_result_terminated. fold c in Hc |- *.
  destruct (hash32_Ret n c Hc) as (h & ->). cbn [mbind outcome_bind].
  rewrite (NoChange_same n c) by done. rewrite with_virgin_same. by destruct (loses_edges _ _).
Qed.

(** What was just cleared from a map is not new in it. *)
Lemma new_bit_idem n c v :
  map_of_size n c -> map_of_size n v -> (Bitmap_has_new_bit c (Bitmap_has_new_bit c v).2).1 = NoChange.
Proof.
  intros Hc Hv. apply (new_bit_NoChange n); [done|by apply new_bit_of_size|].
  intros i j Hh. rewrite (hit_new_bit n) by done. by intros [_ ?].
Qed.

(** The cut-off of the discovery phase hides coverage.  A run with at most 98% of the
    edges of the queue entry is dropped, but only after its bits were cleared from the
    virgin map of the worker; the map of the campaign keeps them.  From then on the
    worker reports no run with this coverage, whatever the phase and even if the
    coverage is new to the campaign: as long as its map is not synchronised, such a
    run changes nothing but the counter of successful executions. *)
Theorem discovery_cutoff_hides n env stats code cov w s :
  let c := Bitmap_classify_counts (Bitmap_classify_counts cov) in
  map_of_size n cov -> map_of_size n (w_virgin_map w) ->
  successful_source_execs stats + 1 < 2 ^ 64 ->
  loses_edges w (Bitmap_count_bytes_set c) = true ->
  exists stats' w',
    handle_run_result env stats (Sink_Terminated code) cov w s = Ret (Ok tt, stats', w', s) /\
    w_virgin_map w' = (Bitmap_has_new_bit c (w_virgin_map w)).2 /\
    forall env2 stats2 code2 w2 s2,
      w_virgin_map w2 = w_virgin_map w' -> successful_source_execs stats2 + 1 < 2 ^ 64 ->
      exists stats2',
        handle_run_result env2 stats2 (Sink_Terminated code2) cov w2 s2 = Ret (Ok tt, stats2', w2, s2) /\
        forall f, field_get f stats2' = field_get f stats2 + (if decide (F_successful = f) then 1 else 0).
Proof.
  intros c Hcov Hw Hlt Hl. assert (Hc1 : map_of_size n (Bitmap_classify_counts cov)) by (by apply classify_of_size).
  assert (Hc : map_of_size n c) by (by apply classify_of_size). unfold handle_run_result.
  destruct (count_Ret F_successful stats Hlt) as (stats1 & -> & _). cbn [mbind outcome_bind].
  exists stats1, (with_virgin w (Bitmap_has_new_bit c (w_virgin_map w)).2). split; [|split; [done|]].
  - unfold handle_run_result_terminated. fold c. destruct (hash32_Ret n c Hc) as (h & ->). cbn [mbind outcome_bind].
    destruct (Bitmap_has_new_bit c (w_virgin_map w)) as [st l1]. cbn [snd].
    change (loses_edges (with_virgin w l1)) with (loses_edges w). by rewrite Hl.
  - intros env2 stats2 code2 w2 s2 Hw2 Hlt2.
    destruct (count_Ret F_successful stats2 Hlt2) as (stats2' & -> & Hst2). cbn [mbind outcome_bind].
    exists stats2'. split; [|done]. cbn [with_virgin w_virgin_map] in Hw2.
    apply (terminated_seen n); [done| |]; rewrite Hw2; [by apply new_bit_of_size|by apply (new_bit_idem n)].
Qed.
End run_lemmas.

(** ** Witnesses *)

Lemma demo_map_size b : byte_ok b -> map_of_size 64 (demo_map b).
Proof. intros. split; [by apply demo_map_wf|done]. Qed.

Lemma workers_judge_globally_witness :
  exists sts locals g, check_runs (replicate 2 (mk_bitmap None (replicate 64 255) 255 64))
      (mk_bitmap None (replicate 64 255) 255 64) [(0%nat, demo_map 1); (1%nat, demo_map 1)] = Ret (sts, locals, g) /\
    sts !! 1%nat = Some NoChange.
Proof.
  destruct (workers_judge_globally 64 (mk_bitmap None (replicate 64 255) 255 64) 2
    [(0%nat, demo_map 1); (1%nat, demo_map 1)] 1 1 (demo_map 1)) as (sts & locals & g & st & E & Hst & _ & Hnc).
  - done.
  - repeat constructor; cbn; try lia; by apply demo_map_wf.
  - done.
  - exists sts, locals, g. split; [exact E|]. rewrite Hst. f_equal. apply Hnc.
    intros e j Hh. exists (demo_map 1). split; [by left|done].
Defined.

#[local] Existing Instance demo_stackmap.
#[local] Existing Instance demo_layout.
#[local] Existing Instance demo_content_layout.

Definition demo_env : Env :=
  mk_env 9 (Calibrated demo_qe (mk_qstate 1 ∅ [stats_new]) [demo_map 1]) Panic.

Definition demo_worker : Worker := mk_worker (demo_map 255) (demo_map 255) Discovery demo_qe.

Definition demo_shared : Shared :=
  mk_shared (demo_map 255) (demo_map 255) (Queue_new 0) (mk_qstate 1 ∅ [stats_new]) (mk_cerebrum [] ∅ ∅).

Lemma demo_env_ok : env_ok 64 demo_env demo_shared.
Proof.
  split; [|split].
  - constructor; [by apply demo_map_size|constructor].
  - cbn. lia.
  - by eexists.
Qed.

Lemma demo_worker_ok : worker_ok 64 demo_worker demo_shared.
Proof. split; try (by apply demo_map_size); by intros i j. Qed.

Lemma run_judged_witness :
  exists stats' w' s', handle_run_result demo_env counter_new (Sink_Terminated 0) (demo_map 1) demo_worker demo_shared
      = Ret (Ok tt, stats', w', s') /\ edges_found stats' = 1 /\ length (q_entries (s_queue s')) = 1%nat.
Proof.
  destruct (run_judged 64 demo_env counter_new (Sink_Terminated 0) (demo_map 1) demo_worker demo_shared)
    as (res & stats' & w' & s' & E & Hd).
  - apply demo_worker_ok.
  - by apply demo_map_size.
  - apply demo_env_ok.
  - by intros [].
  - vm_compute. reflexivity.
  - exists stats', w', s'. split; [|split].
    + rewrite E. destruct res as [[]|[]]; [done|]. by destruct (proj1 (de_error _ _ _ _ _ _ _ _ _ _ Hd) eq_refl).
    + exact (de_counters _ _ _ _ _ _ _ _ _ _ Hd F_edges).
    + by rewrite (de_queue _ _ _ _ _ _ _ _ _ _ Hd).
Defined.

(** An entry with 64 edges and a run with one. *)
Definition demo_rich_qe : QueueEntry :=
  mk_qe 0 None None None None None demo_input None None 0 (demo_map 255) 0 0 false 0 false None.
Definition demo_poor_run : Bitmap := mk_bitmap None (1 :: replicate 63 0) 0 64.
Definition demo_discovery : Worker := mk_worker (demo_map 255) (demo_map 255) Discovery demo_rich_qe.
