(* ===== verification/MutatorSteps.v ===== *)
(** * How often a mutator yields

    The client of the mutators, [fuzz_candidates], relies on more than that a mutator
    restores its buffer: it computes with the number of steps a mutator announces.
    The class [MutatorSteps] states that a mutator yields at most that often, and each
    mutator the phases use is an instance.  [BoxMutator] is [Box<dyn Mutator>]. *)

From S2P Require Import Prelude Bytes Mutators.

(** [s_inv orig n m buf]: [m] may be in use on [buf], yields at most [n] times more, and
    dropping it restores [orig]. *)
Class MutatorSteps (M : Type) `{!Mutator M} := {
  s_inv : list Z -> nat -> M -> list Z -> Prop;
  s_inv_next : forall orig n d m buf, draws_ok d -> s_inv orig n m buf ->
    exists r m' buf', next d m buf = Ret (r, m', buf') /\
      if r : bool then exists n', n = S n' /\ s_inv orig n' m' buf' else s_inv orig n m' buf';
  s_inv_drop : forall orig n m buf, s_inv orig n m buf -> drop_mutator m buf = Ret orig;
  s_inv_length : forall orig n m buf, s_inv orig n m buf -> length buf = length orig;
}.

(** [m] was just made for [orig]. *)
Definition fresh_mutator `{MutatorSteps M} (orig : list Z) (m : M) : Prop := s_inv orig (steps_total m orig) m orig.

Lemma one_byte_off_length last saved orig buf : one_byte_off last saved orig buf -> length buf = length orig.
Proof. destruct last; cbn; [|by intros ->]. intros (_ & x & ->). apply length_insert. Qed.

Lemma bytes_off_length last saved orig buf : bytes_off last saved orig buf -> length buf = length orig.
Proof.
  destruct last as [i|]; cbn; [|by intros ->]. intros (Hi & _ & x & Hx & ->).
  rewrite !length_app, length_take, length_drop. lia.
Qed.

#[export] Program Instance Nop_steps : MutatorSteps Nop := {| s_inv orig n m buf := buf = orig /\ nop_steps m = n |}.
Next Obligation. intros orig n d [[|st] dn] buf Hd [-> <-]; cbn; yields; eauto. Qed.
Next Obligation. by intros orig n m buf [-> _]. Qed.
Next Obligation. by intros orig n m buf [-> _]. Qed.

#[export] Program Instance FlipOnce_steps : MutatorSteps FlipOnce := {|
  s_inv orig n m buf := m_inv orig m buf /\ n = if fo_done m then 0%nat else 1%nat;
|}.
Next Obligation. intros orig n d [[|]] buf Hd [-> ->]; cbn; yields; [done|]. exists 0%nat. done. Qed.
Next Obligation. intros orig n m buf [Hm _]. by apply m_inv_drop. Qed.
Next Obligation. intros orig n [[|]] buf [-> _]; cbn; [apply length_fmap|done]. Qed.

#[export] Program Instance RandomByte_steps : MutatorSteps RandomByte := {|
  s_inv orig n m buf := m_inv orig m buf /\ (rbyte_current_step m + n = rbyte_max_step m)%nat;
|}.
Next Obligation.
  intros orig n d m buf Hd [Hm Hn]. destruct (m_inv_next orig d m buf Hd Hm) as (r & m' & buf' & E & Hm').
  exists r, m', buf'. split; [exact E|]. destruct m as [N cur mx last saved]. cbn in E, Hn. unfold RandomByte_next in E. cbn in E.
  destruct (revert_bytes last saved buf) as [b|]; [cbn in E|done]. destruct (Nat.eqb_spec cur mx) as [->|Hne]; cbn in E.
  - injection E as <- <- <-. split; [done|]. cbn. lia.
  - destruct (_ <=? _)%nat; [cbn in E|done]. destruct (draw_range _ _); [cbn in E|done].
    destruct (slice_at _ _ _); [cbn in E|done]. destruct (copy_at _ _ _); [cbn in E|done]. injection E as <- <- <-.
    exists (n - 1)%nat. split; [lia|]. split; [done|]. cbn. lia.
Qed.
Next Obligation. intros orig n m buf [Hm _]. by apply m_inv_drop. Qed.
Next Obligation. intros orig n m buf [(_ & _ & _ & Hoff) _]. by eapply bytes_off_length. Qed.

#[export] Program Instance FlipBit_steps : MutatorSteps FlipBit := {|
  s_inv orig n m buf := m_inv orig m buf /\ (fbit_next_bit m + n = fbit_size_in_bits m)%nat;
|}.
Next Obligation.
  intros orig n d m buf Hd [Hm Hn]. destruct (m_inv_next orig d m buf Hd Hm) as (r & m' & buf' & E & Hm').
  exists r, m', buf'. split; [exact E|]. destruct m as [sz nxt last saved]. cbn in Hn. cbn [next FlipBit_Mutator] in E.
  unfold FlipBit_next in E. cbn [fbit_last_byte_idx fbit_last_byte_orig_value fbit_next_bit fbit_size_in_bits] in E.
  destruct (revert_byte last saved buf) as [b|]; [cbn [mbind outcome_bind] in E|done].
  destruct (Nat.eqb_spec nxt sz) as [->|Hne]; cbn [mbind outcome_bind] in E.
  - injection E as <- <- <-. split; [done|]. cbn. lia.
  - destruct (slice_get _ _); [cbn [mbind outcome_bind] in E|done]. destruct (xor_at _ _ _); [cbn [mbind outcome_bind] in E|done].
    injection E as <- <- <-. exists (n - 1)%nat. split; [lia|]. split; [done|]. cbn. lia.
Qed.
Next Obligation. intros orig n m buf [Hm _]. by apply m_inv_drop. Qed.
Next Obligation. intros orig n m buf [(_ & _ & Hoff) _]. by eapply one_byte_off_length. Qed.

#[export] Program Instance U8Counter_steps : MutatorSteps U8Counter := {|
  s_inv orig n m buf := m_inv orig m buf /\ 0 <= u8c_ctr m < 256 /\
    (u8c_next_byte m * 256 + Z.to_nat (u8c_ctr m) + n = length orig * 256)%nat;
|}.
Next Obligation.
  intros orig n d m buf Hd (Hm & Hc & Hn). destruct (m_inv_next orig d m buf Hd Hm) as (r & m' & buf' & E & Hm').
  exists r, m', buf'. split; [exact E|]. destruct Hm as (Hle & Hlen & Hoff). destruct m as [nxt last saved ctr]. cbn [u8c_next_byte u8c_ctr u8c_last_byte_idx u8c_last_byte_orig_value] in *.
  cbn [next U8Counter_Mutator] in E. unfold U8Counter_next in E. cbn [u8c_next_byte u8c_ctr u8c_last_byte_idx u8c_last_byte_orig_value] in E.
  rewrite (revert_byte_ok _ _ orig) in E by done. cbn [mbind outcome_bind] in E.
  destruct (Nat.eqb_spec nxt (length orig)) as [->|Hne]; cbn [mbind outcome_bind] in E.
  - injection E as <- <- <-. split; [done|]. cbn. lia.
  - destruct (slice_get _ _); [cbn [mbind outcome_bind] in E|done]. destruct (xor_at _ _ _); [cbn [mbind outcome_bind] in E|done].
    case_decide; injection E as <- <- <-; exists (n - 1)%nat; (split; [lia|]); (split; [done|]); cbn [u8c_next_byte u8c_ctr]; lia.
Qed.
Next Obligation. intros orig n m buf [Hm _]. by apply m_inv_drop. Qed.
Next Obligation. by intros orig n m buf [(_ & Hl & _) _]. Qed.

#[export] Program Instance Havoc_steps : MutatorSteps Havoc := {|
  s_inv orig n m buf := m_inv orig m buf /\ (hv_steps_done m + n = hv_steps_total m)%nat;
|}.
Next Obligation.
  intros orig n d m buf Hd [Hm Hn]. destruct (m_inv_next orig d m buf Hd Hm) as (r & m' & buf' & E & Hm').
  exists r, m', buf'. split; [exact E|]. destruct m as [ob dn st rp tot]. cbn in Hn. cbn [next Havoc_Mutator] in E.
  unfold Havoc_next in E. cbn [hv_steps_done hv_steps_total hv_orig_buffer] in E.
  destruct (Nat.eqb_spec dn tot) as [->|Hne].
  - destruct (copy_whole _ _); [cbn [mbind outcome_bind] in E|done]. injection E as <- <- <-. split; [done|]. cbn. lia.
  - destruct (havoc_revert _ _); [cbn [mbind outcome_bind] in E|done]. destruct (havoc_apply _ _); [cbn [mbind outcome_bind] in E|done].
    injection E as <- <- <-. exists (n - 1)%nat. split; [lia|]. split; [done|]. cbn. lia.
Qed.
Next Obligation. intros orig n m buf [Hm _]. by apply m_inv_drop. Qed.
Next Obligation. by intros orig n m buf [(_ & _ & Hl & _) _]. Qed.

#[export] Program Instance CombineMutator_steps : MutatorSteps CombineMutator := {|
  s_inv orig n m buf := m_inv orig m buf /\ n = length (cmb_msks m);
|}.
Next Obligation.
  intros orig n d m buf Hd [Hm ->]. destruct (m_inv_next orig d m buf Hd Hm) as (r & m' & buf' & E & Hm').
  exists r, m', buf'. split; [exact E|]. destruct m as [st dn msks ob os]. cbn [next CombineMutator_Mutator] in E.
  unfold CombineMutator_next in E. cbn [cmb_msks cmb_buffer_original cmb_steps cmb_steps_done cmb_one_shot] in E.
  destruct msks as [|msk msks].
  - destruct (copy_whole _ _); [cbn [mbind outcome_bind] in E|done]. by injection E as <- <- <-.
  - destruct (copy_whole _ _); [cbn [mbind outcome_bind] in E|done]. destruct (copy_at _ _ _); [cbn [mbind outcome_bind] in E|done].
    injection E as <- <- <-. exists (length msks). by split.
Qed.
Next Obligation. intros orig n m buf [Hm _]. by apply m_inv_drop. Qed.
Next Obligation. by intros orig n m buf [(_ & Hl & _) _]. Qed.

#[export] Program Instance WithTimeout_steps `{MutatorSteps M} : MutatorSteps (WithTimeout M) := {|
  s_inv orig n w buf := s_inv orig n (wt_mutator w) buf;
|}.
Next Obligation.
  intros M ?? orig n d [m t ts] buf Hd Hm. cbn in *. unfold WithTimeout_next. cbn. case_match; [by eauto 10|].
  destruct (s_inv_next orig n d m buf Hd Hm) as (r & m' & buf' & -> & Hm'). cbn. exists r. by eauto 10.
Qed.
Next Obligation. intros M ?? orig n [m t ts] buf Hm. exact (s_inv_drop orig n m buf Hm). Qed.
Next Obligation. intros M ?? orig n [m t ts] buf Hm. exact (s_inv_length orig n m buf Hm). Qed.

(** ** Boxed mutators *)

Record BoxMutator := mk_box { bx_type : Type; bx_mutator : Mutator bx_type; bx_value : bx_type }.

Definition Box_new {M} `{!Mutator M} (m : M) : BoxMutator := mk_box M _ m.

Definition Box_next (d : Draws) (b : BoxMutator) (buf : list Z) : outcome (bool * BoxMutator * list Z) :=
  r ← @next _ (bx_mutator b) d (bx_value b) buf;
  mret (r.1.1, mk_box (bx_type b) (bx_mutator b) r.1.2, r.2).

Definition Box_drop (b : BoxMutator) (buf : list Z) : outcome (list Z) := @drop_mutator _ (bx_mutator b) (bx_value b) buf.
Definition Box_type (b : BoxMutator) : MutatorType := @mutator_type _ (bx_mutator b) (bx_value b).
Definition Box_steps_total (b : BoxMutator) (buf : list Z) : nat := @steps_total _ (bx_mutator b) (bx_value b) buf.
Definition Box_one_shot (b : BoxMutator) : bool := @one_shot _ (bx_mutator b) (bx_value b).
Definition Box_needs_sync (b : BoxMutator) : bool := @needs_sync _ (bx_mutator b) (bx_value b).

(** The contract for a box. *)
Definition box_inv (orig : list Z) (n : nat) (b : BoxMutator) (buf : list Z) : Prop :=
  exists S : @MutatorSteps (bx_type b) (bx_mutator b), @s_inv _ _ S orig n (bx_value b) buf.

Definition fresh_box (orig : list Z) (b : BoxMutator) : Prop := box_inv orig (Box_steps_total b orig) b orig.

Lemma fresh_box_new `{MutatorSteps M} orig (m : M) : fresh_mutator orig m -> fresh_box orig (Box_new m).
Proof. intros Hm. eexists. exact Hm. Qed.

Lemma box_inv_next orig n d b buf :
  draws_ok d -> box_inv orig n b buf ->
  exists r b' buf', Box_next d b buf = Ret (r, b', buf') /\
    if r : bool then exists n', n = S n' /\ box_inv orig n' b' buf' else box_inv orig n b' buf'.
Proof.
  intros Hd [S Hb]. destruct (s_inv_next orig n d _ buf Hd Hb) as (r & m' & buf' & E & Hr).
  exists r, (mk_box (bx_type b) (bx_mutator b) m'), buf'. unfold Box_next. rewrite E. split; [done|].
  destruct r; [destruct Hr as (n' & -> & Hn); exists n'; split; [done|]|]; by exists S.
Qed.

Lemma box_inv_drop orig n b buf : box_inv orig n b buf -> Box_drop b buf = Ret orig.
Proof. intros [S Hb]. exact (@s_inv_drop _ _ S _ _ _ _ Hb). Qed.

Lemma box_inv_length orig n b buf : box_inv orig n b buf -> length buf = length orig.
Proof. intros [S Hb]. exact (@s_inv_length _ _ S _ _ _ _ Hb). Qed.

(** ** New mutators *)

(** A mutator that was just made for [orig] and yields when it is asked with the draws [d]. *)
Definition yields_first (d : Draws) (orig : list Z) (b : BoxMutator) : Prop :=
  exists b' buf', Box_next d b orig = Ret (true, b', buf').

Lemma yields_first_new `{Mutator M} d orig (m : M) m' buf' :
  next d m orig = Ret (true, m', buf') -> yields_first d orig (Box_new m).
Proof. intros E. unfold yields_first, Box_next. cbn. rewrite E. by eexists _, _. Qed.

Lemma Nop_new_box d orig : fresh_box orig (Box_new (Nop_new 1)) /\ yields_first d orig (Box_new (Nop_new 1)).
Proof. split; [by apply fresh_box_new|]. by eapply yields_first_new. Qed.

Lemma FlipOnce_new_box d orig : fresh_box orig (Box_new FlipOnce_new) /\ yields_first d orig (Box_new FlipOnce_new).
Proof. split; [by apply fresh_box_new|]. by eapply yields_first_new. Qed.

Lemma FlipBit_new_box d orig :
  orig <> [] -> fresh_box orig (Box_new (FlipBit_new orig)) /\ yields_first d orig (Box_new (FlipBit_new orig)).
Proof.
  intros Ho. split.
  - apply fresh_box_new. split; [|done]. cbn. auto with lia.
  - destruct orig as [|x orig]; [done|]. eapply yields_first_new. reflexivity.
Qed.

Lemma U8Counter_new_box d orig :
  orig <> [] -> fresh_box orig (Box_new U8Counter_new) /\ yields_first d orig (Box_new U8Counter_new).
Proof.
  intros Ho. split.
  - apply fresh_box_new. split; [cbn; auto with lia|]. split; [cbn; lia|]. cbn [steps_total U8Counter_Mutator U8Counter_new
      u8c_next_byte u8c_ctr]. lia.
  - destruct orig as [|x orig]; [done|]. by eapply yields_first_new.
Qed.

Lemma Havoc_new_box d orig stacks reps :
  draws_ok d -> orig <> [] -> (0 < stacks)%nat -> (0 < reps)%nat ->
  fresh_box orig (Box_new (Havoc_new orig stacks reps)) /\ yields_first d orig (Box_new (Havoc_new orig stacks reps)).
Proof.
  intros Hd Ho Hs Hr. assert (Hf : fresh_mutator orig (Havoc_new orig stacks reps)) by (split; [cbn; auto with lia|done]).
  split; [by apply fresh_box_new|].
  destruct (s_inv_next orig _ d _ orig Hd Hf) as (r & m' & buf' & E & Hr'). destruct r; [by eapply yields_first_new|].
  exfalso. cbn [next Havoc_Mutator] in E. unfold Havoc_next in E. cbn [hv_steps_done hv_steps_total Havoc_new] in E.
  destruct (Nat.eqb_spec 0 (stacks * reps)); [nia|]. by simpl_outcome.
Qed.

Lemma RandomByte_new_box d orig N steps m :
  draws_ok d -> (0 < steps)%nat -> RandomByte_new N orig steps = Some m ->
  fresh_box orig (Box_new m) /\ yields_first d orig (Box_new m).
Proof.
  intros Hd Hs Hm. unfold RandomByte_new in Hm. destruct (Nat.ltb_spec (length orig) N) as [|Hl]; [done|]. injection Hm as <-.
  set (m := mk_random_byte N 0 steps None (replicate N 0)).
  assert (Hf : fresh_mutator orig m). { split; [|done]. cbn. rewrite length_replicate. auto with lia. }
  split; [by apply fresh_box_new|].
  destruct (s_inv_next orig _ d _ orig Hd Hf) as (r & m' & buf' & E & Hr'). destruct r; [by eapply yields_first_new|].
  exfalso. cbn [next RandomByte_Mutator] in E. unfold RandomByte_next in E. cbn [m rbyte_current_step rbyte_max_step] in E.
  destruct (Nat.eqb_spec 0 steps); [lia|]. by simpl_outcome.
Qed.

Lemma CombineMutator_new_box d orig msks one_shot :
  draws_ok d -> msks <> [] -> fresh_box orig (Box_new (CombineMutator_new orig msks one_shot)) /\
  yields_first d orig (Box_new (CombineMutator_new orig msks one_shot)).
Proof.
  intros Hd Hm. set (m := CombineMutator_new orig msks one_shot).
  assert (Hf : fresh_mutator orig m). { split; [cbn; rewrite length_reverse; auto with lia|]. cbn. by rewrite length_reverse. }
  split; [by apply fresh_box_new|].
  destruct (s_inv_next orig _ d _ orig Hd Hf) as (r & m' & buf' & E & Hr'). destruct r; [by eapply yields_first_new|].
  exfalso. cbn [next CombineMutator_Mutator] in E. unfold CombineMutator_next in E. cbn [m cmb_msks CombineMutator_new] in E.
  destruct (reverse msks) as [|x l] eqn:Er; [|by simpl_outcome]. apply Hm.
  by rewrite <- (reverse_involutive msks), Er.
Qed.

(** A timeout that is not over by the first call changes nothing. *)
Lemma WithTimeout_new_box `{MutatorSteps M} d orig (m : M) timeout :
  Z.max 0 (clock_elapsed_at d - clock_now d) <= timeout ->
  fresh_mutator orig m -> yields_first d orig (Box_new m) ->
  fresh_box orig (Box_new (WithTimeout_new m timeout)) /\ yields_first d orig (Box_new (WithTimeout_new m timeout)).
Proof.
  intros Ht Hf (b' & buf' & E). split; [by apply fresh_box_new|]. unfold Box_next in E. cbn [bx_type bx_mutator bx_value Box_new] in E.
  destruct (next d m orig) as [[[r m'] buf'']|] eqn:En; [|done]. cbn in E. injection E as -> _ _.
  eapply yields_first_new. cbn [next WithTimeout_Mutator]. unfold WithTimeout_next.
  destruct (_ >? _) eqn:Eg; [apply Z.gtb_lt in Eg; cbn in Eg; lia|]. cbn [wt_mutator WithTimeout_new]. by rewrite En.
Qed.
