(* ===== verification/FuzzLoop.v ===== *)
(** * The fuzzing loop

    Models [fuzz_candidates] of
    [scheduler/src/fuzzer/worker_impl/phases/run_phase.rs].  The mutation cache of the
    source is the list of its entries, and a [&mut MutationCacheEntry] is a position in
    it ([MutationCacheContent] shows that the memory of a cache stands for such a list
    and that writes through a reference change one entry).  Executing source and sink
    and judging the run is the interface [Runner], which [RunCommon] implements.  Every
    interaction with the outside (random numbers, clock, stop requests,
    synchronisation with the agent) reads the next element of the stream [ticks].  The
    average execution time is only kept for an estimate that is never read; of its
    update the division by the number of executions is modelled. *)

From S2P Require Import Prelude Effects Bytes Bitmap Mutators MutationCacheEntry Trace Queue EventCounter Cerebrum Scheduling RunCommon MutatorSteps.

(** ** The state of the loop *)

Record Tick := mk_tick {
  tk_draws : Draws;
  (** nanoseconds *)
  tk_now : Z;
  (** whether [should_stop] finds a request or a broken channel *)
  tk_stop : bool;
  (** whether [sync_mutations] succeeds *)
  tk_sync : bool;
}.

(** [do_run] and [report_configuration] on the worker and what it shares. *)
Class Runner `{StackMap} (W : Type) := {
  run_once : nat -> FuzzerState -> list MutationCacheEntry -> FuzzerEventCounter -> W ->
    outcome (result unit unit * FuzzerEventCounter * W);
  report : W -> FuzzerConfiguration -> outcome W;
}.

Definition FUZZING_LOOP_UPDATE_INTERVAL : Z := 20 * 10 ^ 9.
Definition NO_SUCCESSFUL_EXEC_TIME_LIMIT : Z := 60 * 10 ^ 9.

(** [check_if_no_new_coverage_timeout_was_exceeded]: [true] is [Break]. *)
Definition no_new_coverage (timeout : option Z) (stats : FuzzerEventCounter) (now : Z) : outcome bool :=
  match timeout with
  | Some t =>
      ts ← unwrap (init_ts stats);
      if elapsed now ts <? t then mret false
      else mret match time_since_last_new_path_or_crash stats now with
                | Some since => t <? since
                | None => true
                end
  | None => mret false
  end.

Definition with_execs (c : FuzzerEventCounter) (n : Z) : FuzzerEventCounter :=
  mk_counter (init_ts c) (last_finding_ts c) (last_crash_ts c) n (successful_source_execs c)
    (edges_found c) (hits_found c) (source_crashes c) (source_timeout c) (source_no_output c)
    (source_duplicated_output c) (sink_timeout c) (sink_crashes c) (sink_unique_crashes c).

Section fuzz.
Context `{L : EntryLayout} {W : Type} `{!Runner W}.
Context (ticks : nat -> Tick).

Record Loop := mk_loop {
  lp_entries : list MutationCacheEntry;
  lp_state : FuzzerState;
  lp_stats : FuzzerEventCounter;
  lp_world : W;
  lp_last_update : Z;
  lp_stop_requested : bool;
  lp_configuration : option FuzzerConfiguration;
  lp_tick : nat;
  (** the mutation caches source and sink were run with *)
  lp_runs : list (list MutationCacheEntry);
}.

(** Fallible computations on the loop. *)
Definition FM (A : Type) : Type := eff Loop unit A.

Definition with_entries l es := mk_loop es (lp_state l) (lp_stats l) (lp_world l) (lp_last_update l) (lp_stop_requested l)
  (lp_configuration l) (lp_tick l) (lp_runs l).
Definition with_state l st := mk_loop (lp_entries l) st (lp_stats l) (lp_world l) (lp_last_update l) (lp_stop_requested l)
  (lp_configuration l) (lp_tick l) (lp_runs l).
Definition with_stats l stats := mk_loop (lp_entries l) (lp_state l) stats (lp_world l) (lp_last_update l) (lp_stop_requested l)
  (lp_configuration l) (lp_tick l) (lp_runs l).
Definition with_world l w := mk_loop (lp_entries l) (lp_state l) (lp_stats l) w (lp_last_update l) (lp_stop_requested l)
  (lp_configuration l) (lp_tick l) (lp_runs l).
Definition with_last_update l t := mk_loop (lp_entries l) (lp_state l) (lp_stats l) (lp_world l) t (lp_stop_requested l)
  (lp_configuration l) (lp_tick l) (lp_runs l).
Definition with_stop l b := mk_loop (lp_entries l) (lp_state l) (lp_stats l) (lp_world l) (lp_last_update l) b
  (lp_configuration l) (lp_tick l) (lp_runs l).
Definition with_configuration l c := mk_loop (lp_entries l) (lp_state l) (lp_stats l) (lp_world l) (lp_last_update l)
  (lp_stop_requested l) c (lp_tick l) (lp_runs l).

(** Read the next element of the stream. *)
Definition tick : FM Tick := fun l =>
  Ret (Ok (ticks (lp_tick l)),
       mk_loop (lp_entries l) (lp_state l) (lp_stats l) (lp_world l) (lp_last_update l) (lp_stop_requested l)
  (lp_configuration l) (S (lp_tick l)) (lp_runs l)).

(** [self.source.as_mut().unwrap().sync_mutations()?] *)
Definition sync : FM unit := t ← tick; if tk_sync t then mret tt else fun l => Ret (Err tt, l).

Definition should_stop : FM bool :=
  requested ← get lp_stop_requested;
  if requested : bool then mret true
  else t ← tick; _ ← update (fun l => with_stop l (tk_stop t)); mret (tk_stop t).

(** Through the reference to the entry at position [i]. *)
Definition entry_at (i : nat) : FM MutationCacheEntry := fun l =>
  match lp_entries l !! i with Some e => Ret (Ok e, l) | None => Panic end.
Definition change_entry (i : nat) (f : MutationCacheEntry -> MutationCacheEntry) : FM unit :=
  update (fun l => with_entries l (alter f i (lp_entries l))).

(** Write the bytes of the mask. *)
Definition Entry_with_msk (e : MutationCacheEntry) (msk : list Z) : MutationCacheEntry :=
  mk_entry (e_metadata e) (msk ++ drop (Entry_msk_len e) (e_tail e)).
Definition set_msk (i : nat) (msk : list Z) : FM unit := change_entry i (fun e => Entry_with_msk e msk).

(** Dropping mutators: their buffer is the mask of entry [i]. *)
Definition drop_box (i : nat) (b : BoxMutator) : FM unit :=
  e ← entry_at i;
  msk ← lift_outcome (Box_drop b (Entry_get_msk_as_slice e));
  set_msk i msk.

Fixpoint drop_boxes (i : nat) (bs : list BoxMutator) : FM unit :=
  match bs with
  | [] => mret tt
  | b :: bs => _ ← drop_box i b; drop_boxes i bs
  end.

(** [cerebrum.report_configuration(..)]; the configuration is taken. *)
Definition report_pending (cfg : FuzzerConfiguration) : FM unit := fun l =>
  match report (lp_world l) cfg with
  | Ret w => Ret (Ok tt, with_configuration (with_world l w) None)
  | Panic => Panic
  end.

(** A method of the state that may panic. *)
Definition change_state (f : FuzzerState -> outcome FuzzerState) : FM unit := fun l =>
  match f (lp_state l) with Ret st => Ret (Ok tt, with_state l st) | Panic => Panic end.

(** One execution of source and sink. *)
Definition execute : FM unit := fun l =>
  match run_once (lp_tick l) (lp_state l) (lp_entries l) (lp_stats l) (lp_world l) with
  | Ret (r, stats, w) =>
      Ret (r, mk_loop (lp_entries l) (lp_state l) stats w (lp_last_update l) (lp_stop_requested l)
  (lp_configuration l) (S (lp_tick l)) (lp_runs l ++ [lp_entries l]))
  | Panic => Panic
  end.

(** How the loop over a mutator ends. *)
Inductive Flow := Exhausted | BreakMce | BreakExit.

(** What the body of the loop knows about the round. *)
Record Round := mk_round {
  rd_target : nat;
  rd_one_shot : bool;
  rd_sync_needed : bool;
  rd_skip_mce_after_first_path : bool;
  rd_no_new_coverage_timeout : option Z;
  rd_total_execs_required : nat;
  rd_start_paths : Z;
  rd_start_execs : Z;
  rd_start_successful : Z;
  rd_mce_start_ts : Z;
}.

Definition disable_target (r : Round) : FM unit :=
  if rd_one_shot r then change_entry (rd_target r) Entry_disable else mret tt.
Definition sync_if_needed (r : Round) : FM unit := if rd_sync_needed r then sync else mret tt.

(** The bookkeeping every 20 seconds; [None] goes on. *)
Definition periodic (r : Round) : FM (option Flow) :=
  t ← tick;
  last_update ← get lp_last_update;
  if elapsed (tk_now t) last_update <=? FUZZING_LOOP_UPDATE_INTERVAL then mret None
  else
    stats ← get lp_stats;
    mutator_execs_done ← lift_outcome (checked_sub (execs stats) (rd_start_execs r));
    _ ← change_state (fun st => set_iterations st (Z.to_nat mutator_execs_done));
    _ ← lift_outcome (checked_sub (Z.of_nat (rd_total_execs_required r)) (execs stats));
    _ ← update (fun l => with_last_update l (tk_now t));
    stop ← should_stop;
    if stop : bool then _ ← disable_target r; mret (Some BreakExit)
    else
      exceeded ← lift_outcome (no_new_coverage (rd_no_new_coverage_timeout r) stats (tk_now t));
      if exceeded : bool then mret (Some BreakExit)
      else if (rd_start_successful r =? successful_source_execs stats) &&
              (NO_SUCCESSFUL_EXEC_TIME_LIMIT <? elapsed (tk_now t) (rd_mce_start_ts r))
      then _ ← disable_target r; _ ← sync_if_needed r; mret (Some BreakMce)
      else mret None.

(** The body of the loop after the mutator yielded. *)
Definition body (r : Round) : FM (option Flow) :=
  stats ← get lp_stats;
  n ← lift_outcome (checked_add 64 (execs stats) 1);
  _ ← update (fun l => with_stats l (with_execs stats n));
  _ ← execute;
  stats ← get lp_stats;
  paths ← lift_outcome (paths stats);
  if rd_skip_mce_after_first_path r && negb (rd_start_paths r =? paths)
  then _ ← disable_target r; _ ← sync_if_needed r; mret (Some BreakMce)
  else periodic r.

(** [for _ in mutator]: the mutator lives until the loop ends. *)
Fixpoint mutator_loop (fuel : nat) (r : Round) (b : BoxMutator) : FM Flow :=
  match fuel with
  | O => panic
  | S fuel =>
      t ← tick;
      e ← entry_at (rd_target r);
      s ← lift_outcome (Box_next (tk_draws t) b (Entry_get_msk_as_slice e));
      _ ← set_msk (rd_target r) s.2;
      let b := s.1.2 in
      if s.1.1 : bool
      then
        after (body r) (fun flow =>
          match flow with
          | Ok None => mutator_loop fuel r b
          | Ok (Some flow) => finally (mret flow) (drop_box (rd_target r) b)
          | Err e => finally (of_result (Err e)) (drop_box (rd_target r) b)
          end)
      else finally (mret Exhausted) (drop_box (rd_target r) b)
  end.

(** After the loop: report what the mutator did. *)
Definition finish_mutator (r : Round) : FM unit :=
  _ ← disable_target r;
  _ ← sync_if_needed r;
  cfg ← get lp_configuration;
  cfg ← lift_outcome (unwrap cfg);
  stats ← get lp_stats;
  cfg ← lift_outcome (finialize cfg stats);
  _ ← report_pending cfg;
  mutator_execs_done ← lift_outcome (checked_sub (execs stats) (rd_start_execs r));
  (* [time_spend.div_f64(mutator_execs_done as f64)] *)
  lift_outcome (assert_that (negb (mutator_execs_done =? 0))).

(** What [fuzz_candidates] is called with. *)
Record Request := mk_request {
  rq_entry : QueueEntry;
  rq_timeout : option Z;
  rq_skip : bool;
  rq_total : nat;
  rq_fuel : nat;
}.

(** Before the loop over a mutator. *)
Definition start_mutator (q : Request) (i : nat) (start_paths start_successful mce_start_ts : Z) (b : BoxMutator)
    : FM Round :=
  e ← entry_at i;
  let total := Box_steps_total b (Entry_get_msk_as_slice e) in
  _ ← update (fun l => with_state l (set_mutator (lp_state l) (Box_type b) total));
  stats ← get lp_stats;
  st ← get lp_state;
  phase ← lift_outcome (state_phase st);
  _ ← update (fun l => with_configuration l
        (Some (FuzzerConfiguration_new (rq_entry q) phase (Box_type b) (Entry_id e) total stats)));
  let r := mk_round i (Box_one_shot b) (Box_needs_sync b) (rq_skip q) (rq_timeout q) (rq_total q) start_paths
             (execs stats) start_successful mce_start_ts in
  _ ← (if rd_one_shot r then change_entry i Entry_enable else mret tt);
  _ ← sync_if_needed r;
  mret r.

(** One mutator on the entry at [i]. *)
Definition run_round (q : Request) (i : nat) (start_paths start_successful mce_start_ts : Z) (b : BoxMutator) : FM Flow :=
  r ← on_error (start_mutator q i start_paths start_successful mce_start_ts b) (drop_box i b);
  flow ← mutator_loop (rq_fuel q) r b;
  match flow with
  | Exhausted => _ ← finish_mutator r; mret Exhausted
  | _ => mret flow
  end.

(** The mutators of an entry; the ones that are left when the loop is broken are dropped. *)
Fixpoint mce_loop (q : Request) (i : nat) (start_paths start_successful mce_start_ts : Z) (bs : list BoxMutator) : FM Flow :=
  match bs with
  | [] => mret Exhausted
  | b :: bs =>
      after (run_round q i start_paths start_successful mce_start_ts b) (fun flow =>
        match flow with
        | Ok Exhausted => mce_loop q i start_paths start_successful mce_start_ts bs
        | _ => finally (of_result flow) (drop_boxes i bs)
        end)
  end.

Fixpoint drop_candidates (mutations : list (nat * list BoxMutator)) : FM unit :=
  match mutations with
  | [] => mret tt
  | (i, bs) :: mutations => _ ← drop_boxes i bs; drop_candidates mutations
  end.

(** One candidate; [BreakExit] leaves the loop. *)
Definition fuzz_candidate (q : Request) (i : nat) (bs : list BoxMutator) : FM Flow :=
  e ← entry_at i;
  stats ← get lp_stats;
  start_paths ← lift_outcome (paths stats);
  t ← tick;
  _ ← update (fun l => with_state l (set_patch_point (lp_state l) (Entry_id e)));
  if (Entry_msk_len e =? 0)%nat then _ ← drop_boxes i bs; mret Exhausted
  else
    flow ← mce_loop q i start_paths (successful_source_execs stats) (tk_now t) bs;
    match flow with
    | BreakExit => mret BreakExit
    | _ =>
        e' ← entry_at i;
        _ ← lift_outcome (assert_that (Bool.eqb (Entry_is_nop e) (Entry_is_nop e')));
        mret Exhausted
    end.

Fixpoint candidates_loop (q : Request) (mutations : list (nat * list BoxMutator)) : FM unit :=
  match mutations with
  | [] => mret tt
  | (i, bs) :: mutations =>
      after (fuzz_candidate q i bs) (fun flow =>
        match flow with
        | Ok BreakExit => finally (mret tt) (drop_candidates mutations)
        | Ok _ => candidates_loop q mutations
        | Err e => finally (of_result (Err e)) (drop_candidates mutations)
        end)
  end.

(** [m.steps_total()] over all mutators *)
Definition total_steps (es : list MutationCacheEntry) (mutations : list (nat * list BoxMutator)) : nat :=
  sum_list ((fun m : nat * list BoxMutator =>
    let msk := match es !! m.1 with Some e => Entry_get_msk_as_slice e | None => [] end in
    sum_list ((fun b => Box_steps_total b msk) <$> m.2)) <$> mutations).

(** After the loop: a configuration that is left is reported, and the statistics are
    added to the shared ones of the worker. *)
Definition conclude (worker_stats : FuzzerEventCounter) : FM FuzzerEventCounter :=
  cfg ← get lp_configuration;
  stats ← get lp_stats;
  _ ← match cfg with
      | Some cfg =>
          cfg ← lift_outcome (finialize cfg stats);
          report_pending cfg
      | None => mret tt
      end;
  lift_outcome (add_assign worker_stats stats).

(** [worker_stats] is the shared counter of the worker; the loop starts with fresh
    statistics, and its runs. *)
Definition fuzz_candidates (fuel : nat) (mutations : list (nat * list BoxMutator)) (timeout : option Z) (skip : bool)
    (worker_stats : FuzzerEventCounter) : FM FuzzerEventCounter :=
  st ← get lp_state;
  qe ← lift_outcome (state_entry st);
  _ ← lift_outcome (assert_that (negb (qe_is_crash qe)));
  _ ← lift_outcome (state_phase st);
  stop ← should_stop;
  if stop : bool then finally (mret worker_stats) (drop_candidates mutations)
  else
    t ← tick;
    iteration_stats ← lift_outcome (counter_init counter_new (tk_now t));
    _ ← update (fun l => with_stats l iteration_stats);
    _ ← on_error sync (drop_candidates mutations);
    es ← get lp_entries;
    let total := total_steps es mutations in
    _ ← update (fun l => with_configuration (with_last_update l (tk_now t)) None);
    _ ← candidates_loop (mk_request qe timeout skip total fuel) mutations;
    conclude worker_stats.
End fuzz.
