(* ===== verification/FuzzLoopTheorems.v ===== *)
(** * The fuzzing loop: what a round of fuzzing guarantees

    Total correctness of [FuzzLoop.fuzz_candidates].  [RunnerLaws] states what the loop
    needs from executing source and sink and from reporting a configuration;
    [FuzzLoopRunner] shows that the code of [RunCommon] and [Cerebrum] provides it.
    Programs of the loop are verified with a weakest precondition that excludes
    panics. *)

From S2P Require Import Prelude Effects Bytes Bitmap Mutators MutationCacheEntry Trace Queue EventCounter Cerebrum Scheduling RunCommon MutatorSteps FuzzLoop.

(** ** Counters that grow no faster than the executions *)

Record grown (c c' : FuzzerEventCounter) : Prop := {
  gr_nonneg : 0 <= execs c /\ forall f, 0 <= field_get f c;
  gr_execs : execs c <= execs c';
  gr_fields : forall f, field_get f c <= field_get f c' <= field_get f c + (execs c' - execs c);
  gr_paths : field_get F_edges c' + field_get F_hits c'
             <= field_get F_edges c + field_get F_hits c + (execs c' - execs c);
}.

Lemma grown_refl c : 0 <= execs c -> (forall f, 0 <= field_get f c) -> grown c c.
Proof. intros. split; [done|lia|intros; lia|lia]. Qed.

Lemma grown_nonneg c c' : grown c c' -> 0 <= execs c' /\ forall f, 0 <= field_get f c'.
Proof. intros [[He Hf] Hx Hg _]. split; [lia|]. intros f. specialize (Hf f). specialize (Hg f). lia. Qed.

Lemma grown_self c c' : grown c c' -> grown c' c'.
Proof. intros [? ?]%grown_nonneg. by apply grown_refl. Qed.

(** One more execution: every counter moves by at most one, and so does the number of paths. *)
Record one_run (c c' : FuzzerEventCounter) : Prop := {
  or_init : init_ts c' = init_ts c;
  or_execs : execs c' = execs c;
  or_fields : forall f, field_get f c <= field_get f c' <= field_get f c + 1;
  or_paths : field_get F_edges c' + field_get F_hits c' <= field_get F_edges c + field_get F_hits c + 1;
}.

Lemma field_get_with_execs f c n : field_get f (with_execs c n) = field_get f c.
Proof. by destruct f. Qed.

Lemma grown_run c s s' : grown c s -> one_run (with_execs s (execs s + 1)) s' -> grown c s'.
Proof.
  intros [Hn He Hf Hp] [_ Ee Ef Ep]. cbn in Ee. split; [done|lia| |].
  - intros f. specialize (Hf f). specialize (Ef f). rewrite field_get_with_execs in Ef. lia.
  - rewrite !field_get_with_execs in Ep. lia.
Qed.

(** The counters a configuration reports: at most [d]. *)
Record within (d : Z) (c : FuzzerEventCounter) : Prop := {
  wi_execs : execs c = d;
  wi_crashes : 0 <= source_crashes c <= d;
  wi_timeout : 0 <= source_timeout c <= d;
  wi_edges : 0 <= edges_found c;
  wi_hits : 0 <= hits_found c;
  wi_paths : edges_found c + hits_found c <= d;
}.

Lemma counts_grown c c' : grown c c' -> Forall2 (fun a b => checked_sub a b = Ret (a - b)) (counts c') (counts c).
Proof.
  intros [_ He Hf _]. assert (Hs : forall a b, b <= a -> checked_sub a b = Ret (a - b)).
  { intros a b Hab. unfold checked_sub. by rewrite decide_True. }
  repeat constructor; apply Hs; [done|apply (Hf F_successful)|apply (Hf F_edges)|apply (Hf F_hits)|apply (Hf F_source_crashes)
    |apply (Hf F_source_timeout)|apply (Hf F_no_output)|apply (Hf F_duplicated)|apply (Hf F_sink_timeout)|apply (Hf F_sink_crashes)].
Qed.

Lemma finialize_Ret cfg stats :
  grown (cfg_counter cfg) stats ->
  exists cfg', finialize cfg stats = Ret cfg' /\ cfg_target_pp_id cfg' = cfg_target_pp_id cfg /\
    within (execs stats - execs (cfg_counter cfg)) (cfg_counter cfg').
Proof.
  intros Hg. unfold finialize, sub_assign. rewrite (map2_counters_Ret _ Z.sub) by (by apply counts_grown).
  cbn [mbind outcome_bind]. eexists. split; [reflexivity|]. split; [done|]. destruct Hg as [_ He Hf Hp].
  pose proof (Hf F_edges) as H1'. pose proof (Hf F_hits) as H2'. pose proof (Hf F_source_crashes) as H3'.
  pose proof (Hf F_source_timeout) as H4'. cbn in *. split; cbn; lia.
Qed.

Lemma paths_Ret c c' : grown c c' -> execs c = 0 -> (forall f, field_get f c = 0) -> execs c' < 2 ^ 64 ->
  paths c' = Ret (hits_found c' + edges_found c').
Proof. intros [_ _ _ Hp] He Hf Hlt. rewrite !Hf in Hp. cbn [field_get] in Hp. unfold paths. apply checked_add_lt. lia. Qed.

(** ** What the loop needs from its environment *)

(** [r_inv k w]: executions can be reported until their number reaches [k] without a counter
    overflowing; [r_known] are the ids of patch points that can be reported. *)
Class RunnerLaws `{StackMap} (W : Type) `{!Runner W} := {
  r_inv : Z -> W -> Prop;
  r_known : Z -> Prop;
  r_inv_mono : forall k k' w, k' <= k -> r_inv k w -> r_inv k' w;
  run_once_ok : forall k t st es c w,
    r_inv k w -> is_Some (fs_phase st) -> is_Some (fs_entry st) -> (forall f, field_get f c + 1 < 2 ^ 64) ->
    exists r c' w', run_once t st es c w = Ret (r, c', w') /\ one_run c c' /\ r_inv k w';
  report_ok : forall k d w cfg,
    0 <= k -> r_inv (k + d) w -> r_known (cfg_target_pp_id cfg) -> within d (cfg_counter cfg) ->
    exists w', report w cfg = Ret w' /\ r_inv k w';
}.

(** What the loop keeps of the state of the worker. *)
Record kept_state (st st' : FuzzerState) : Prop := {
  ks_phase : fs_phase st' = fs_phase st;
  ks_entry : fs_entry st' = fs_entry st;
  ks_finished : fs_phases_finished st' = fs_phases_finished st;
}.

(** The mutator yields when it is first asked, whenever that is. *)
Definition starts (ticks : nat -> Tick) (b : BoxMutator) (buf : list Z) : Prop :=
  forall t, yields_first (tk_draws (ticks t)) buf b.

(** ** Entries that differ in the [Disable] flag only *)

Section entries.
Context `{L : EntryLayout}.

Definition flag_eq (e e' : MutationCacheEntry) : Prop := Entry_enable e = Entry_enable e'.

#[export] Instance flag_eq_equiv : Equivalence flag_eq.
Proof. split; [done|by intros ??|]. intros ??? E1 E2. unfold flag_eq in *. congruence. Qed.

Lemma flag_eq_tail e e' : flag_eq e e' -> e_tail e = e_tail e'.
Proof. intros E. exact (f_equal e_tail E). Qed.
Lemma flag_eq_id e e' : flag_eq e e' -> Entry_id e = Entry_id e'.
Proof. intros E. exact (f_equal Entry_id E). Qed.
Lemma flag_eq_msk_len e e' : flag_eq e e' -> Entry_msk_len e = Entry_msk_len e'.
Proof. intros E. exact (f_equal Entry_msk_len E). Qed.
Lemma flag_eq_msk e e' : flag_eq e e' -> Entry_get_msk_as_slice e = Entry_get_msk_as_slice e'.
Proof. intros E. exact (f_equal Entry_get_msk_as_slice E). Qed.

Lemma flag_eq_with_msk e e' msk : flag_eq e e' -> flag_eq (Entry_with_msk e msk) (Entry_with_msk e' msk).
Proof. intros E. exact (f_equal (fun x => Entry_with_msk x msk) E). Qed.

Lemma flag_eq_enable e : flag_eq (Entry_enable e) e.
Proof. exact (f_equal (with_flags e) (eq_sym (Z.land_assoc (Entry_flags e) _ _))). Qed.

Lemma flag_eq_disable e : flag_eq (Entry_disable e) e.
Proof.
  refine (f_equal (with_flags e) _). cbn [flag_u8].
  change (Entry_flags (Entry_disable e)) with (Z.lor (Entry_flags e) 2). rewrite Z.land_lor_distr_l.
  change (Z.land 2 (not_w 8 2)) with 0. apply Z.lor_0_r.
Qed.

Lemma with_msk_twice e a b : length a = Entry_msk_len e -> Entry_with_msk (Entry_with_msk e a) b = Entry_with_msk e b.
Proof.
  intros Ha. unfold Entry_with_msk. cbn. f_equal. f_equal. change (Entry_msk_len (mk_entry _ _)) with (Entry_msk_len e).
  by rewrite drop_app_length'.
Qed.

Lemma with_msk_same e : Entry_with_msk e (Entry_get_msk_as_slice e) = e.
Proof. destruct e as [m t]. unfold Entry_with_msk, Entry_get_msk_as_slice. cbn. f_equal. apply take_drop. Qed.

Lemma get_with_msk e a : length a = Entry_msk_len e -> Entry_get_msk_as_slice (Entry_with_msk e a) = a.
Proof.
  intros Ha. unfold Entry_get_msk_as_slice, Entry_with_msk. cbn. change (Entry_msk_len (mk_entry _ _)) with (Entry_msk_len e).
  by rewrite take_app_length'.
Qed.
End entries.

(** ** The loop *)

Section fuzz.
Context `{L : EntryLayout} {W : Type} `{!Runner W} `{!RunnerLaws W}.
Context (ticks : nat -> Tick) (Hdraws : forall n, draws_ok (tk_draws (ticks n))).
#[local] Abbreviation LoopW := (Loop (W := W)).
#[local] Abbreviation FMW := (FM (W := W)).
Implicit Types l : LoopW.

(** Writes through a reference to an entry. *)
Lemma wp_change_entry i f Q (l : LoopW) : Q (Ok tt) (with_entries l (alter f i (lp_entries l))) -> wp (change_entry i f) Q l.
Proof. done. Qed.

Lemma wp_change_state f st Q (l : LoopW) : f (lp_state l) = Ret st -> Q (Ok tt) (with_state l st) -> wp (change_state f) Q l.
Proof. intros E HQ. unfold wp, change_state. by rewrite E. Qed.

Lemma wp_report_pending cfg w Q (l : LoopW) :
  report (lp_world l) cfg = Ret w -> Q (Ok tt) (with_configuration (with_world l w) None) -> wp (report_pending cfg) Q l.
Proof. intros E HQ. unfold wp, report_pending. by rewrite E. Qed.

Ltac wp_steps ::= repeat first [wp_step | apply wp_change_entry; cbv beta iota].

(** ** The invariant of the loop *)

(** The mutation cache before the loop, the candidates, the runs so far, and the number of
    executions the mutators announce. *)
Context (es0 : list MutationCacheEntry) (candidates : list nat) (runs0 : list (list MutationCacheEntry)) (T : Z).
Context (HT : T < 2 ^ 64).
(** The state of the worker before the loop. *)
Context (st0 : FuzzerState) (Hphase : is_Some (fs_phase st0)) (Hentry : is_Some (fs_entry st0)).

(** The entries are the original ones, up to the [Disable] flag, with [buf] as mask of entry [i]. *)
Definition masked (i : nat) (buf : list Z) (es : list MutationCacheEntry) : Prop :=
  Forall2 flag_eq (alter (fun e => Entry_with_msk e buf) i es0) es.

(** A run sees the original masks but for the one of a candidate. *)
Definition proper_run (es : list MutationCacheEntry) : Prop :=
  exists i e buf, i ∈ candidates /\ es0 !! i = Some e /\ length buf = Entry_msk_len e /\ masked i buf es.

(** At most [rem] executions are left. *)
Record ok (rem : nat) (l : LoopW) : Prop := {
  ok_state : kept_state st0 (lp_state l);
  ok_init : is_Some (init_ts (lp_stats l));
  ok_counters : grown counter_new (lp_stats l);
  ok_steps : execs (lp_stats l) + Z.of_nat rem <= T;
  ok_budget : (match lp_configuration l with
    | Some cfg => r_known (cfg_target_pp_id cfg) /\ grown (cfg_counter cfg) (lp_stats l) /\
                  r_inv (T - execs (cfg_counter cfg)) (lp_world l)
    | None => r_inv (T - execs (lp_stats l)) (lp_world l) end);
  ok_runs : exists runs, lp_runs l = runs0 ++ runs /\ Z.of_nat (length runs) = execs (lp_stats l) /\
    Forall proper_run runs;
}.

Lemma ok_weaken rem rem' l : (rem' <= rem)%nat -> ok rem l -> ok rem' l.
Proof. intros Hle []. split; [done..|lia|done|done]. Qed.

Lemma ok_lt rem l : ok rem l -> execs (lp_stats l) < 2 ^ 64.
Proof using HT. intros []. lia. Qed.

Lemma ok_paths rem l : ok rem l -> paths (lp_stats l) = Ret (hits_found (lp_stats l) + edges_found (lp_stats l)).
Proof using HT. intros Hok. eapply paths_Ret; [apply Hok|done|by intros []|by eapply ok_lt]. Qed.

(** The budget as of the statistics. *)
Lemma ok_budget_now rem l : ok rem l -> r_inv (T - execs (lp_stats l)) (lp_world l).
Proof.
  intros []. destruct (lp_configuration l) as [cfg|]; [|done]. destruct ok_budget0 as (_ & [? Hx _ _] & Hr).
  eapply r_inv_mono; [|exact Hr]. lia.
Qed.

(** The current round: [n] steps of the mutator are left. *)
Record in_round (r : Round) (n : nat) (l : LoopW) : Prop := {
  ir_total : Z.of_nat (rd_total_execs_required r) = T;
  ir_start : 0 <= rd_start_execs r <= execs (lp_stats l);
  ir_configuration : is_Some (lp_configuration l);
  ir_iterations : exists total, fs_mutator_total_iterations (lp_state l) = Some total /\
    execs (lp_stats l) - rd_start_execs r + Z.of_nat n <= Z.of_nat total;
}.

Lemma in_round_weaken r n n' l : (n' <= n)%nat -> in_round r n l -> in_round r n' l.
Proof. intros Hle [? ? ? (t & ? & ?)]. split; [done..|]. exists t. split; [done|lia]. Qed.

(** ** Masks and flags of the entries *)

Lemma masked_lookup i buf es e0 :
  masked i buf es -> es0 !! i = Some e0 -> exists e, es !! i = Some e /\ flag_eq (Entry_with_msk e0 buf) e.
Proof.
  intros Hm He. eapply Forall2_lookup_l in Hm as (e & He' & Hf); [eauto|]. by rewrite list_lookup_alter_eq, He.
Qed.

Lemma masked_set i buf buf' es e0 :
  es0 !! i = Some e0 -> length buf = Entry_msk_len e0 -> masked i buf es ->
  masked i buf' (alter (fun e => Entry_with_msk e buf') i es).
Proof.
  intros He Hl Hm. unfold masked. apply Forall2_same_length_lookup_2.
  { rewrite !length_alter. apply Forall2_length in Hm. by rewrite length_alter in Hm. }
  intros j a b Ha Hb. destruct (decide (i = j)) as [<-|Hne].
  - rewrite list_lookup_alter_eq, He in Ha. injection Ha as <-. rewrite list_lookup_alter_eq in Hb.
    destruct (masked_lookup i buf es e0 Hm He) as (e & Ee & Hf). rewrite Ee in Hb. injection Hb as <-.
    rewrite <- (with_msk_twice e0 buf buf') by done. by apply flag_eq_with_msk.
  - rewrite list_lookup_alter_ne in Ha, Hb by done. eapply Forall2_lookup_lr; [exact Hm| |exact Hb].
    by rewrite list_lookup_alter_ne.
Qed.

Lemma masked_flag i buf es f : (forall e, flag_eq (f e) e) -> masked i buf es -> masked i buf (alter f i es).
Proof.
  intros Hf Hm. unfold masked in *. apply Forall2_same_length_lookup_2.
  { rewrite (length_alter f). by apply Forall2_length in Hm. }
  intros j a b Ha Hb. destruct (decide (i = j)) as [<-|Hne].
  - rewrite list_lookup_alter_eq in Hb. destruct (es !! i) as [e|] eqn:Ee; [|done]. injection Hb as <-.
    transitivity e; [|symmetry; apply Hf]. eapply Forall2_lookup_lr; [exact Hm|done..].
  - rewrite list_lookup_alter_ne in Hb by done. eapply Forall2_lookup_lr; [exact Hm|done..].
Qed.

Lemma masked_original i es e0 :
  es0 !! i = Some e0 -> masked i (Entry_get_msk_as_slice e0) es <-> Forall2 flag_eq es0 es.
Proof.
  intros He. unfold masked. replace (alter _ i es0) with es0; [done|]. apply list_eq. intros j.
  destruct (decide (i = j)) as [<-|Hne]; [|by rewrite list_lookup_alter_ne].
  rewrite list_lookup_alter_eq, He. cbn. by rewrite with_msk_same.
Qed.

(** ** Steps that keep what the invariant is about *)

Record frame (l l' : LoopW) : Prop := {
  fr_entries : lp_entries l' = lp_entries l;
  fr_state : lp_state l' = lp_state l;
  fr_stats : lp_stats l' = lp_stats l;
  fr_world : lp_world l' = lp_world l;
  fr_configuration : lp_configuration l' = lp_configuration l;
  fr_runs : lp_runs l' = lp_runs l;
}.

Lemma ok_frame rem l l' : frame l l' -> ok rem l -> ok rem l'.
Proof. intros [E1 E2 E3 E4 E5 E6] []. split; by rewrite ?E2, ?E3, ?E4, ?E5, ?E6. Qed.

Lemma in_round_frame r n l l' : frame l l' -> in_round r n l -> in_round r n l'.
Proof. intros [E1 E2 E3 E4 E5 E6] []. split; by rewrite ?E2, ?E3, ?E4, ?E5, ?E6. Qed.

Lemma ok_entries rem l es : ok rem l -> ok rem (with_entries l es).
Proof. by intros []. Qed.

Lemma in_round_entries r n l es : in_round r n l -> in_round r n (with_entries l es).
Proof. by intros []. Qed.

Lemma wp_tick Q l : (forall l', frame l l' -> Q (Ok (ticks (lp_tick l))) l') -> wp (tick ticks) Q l.
Proof. intros HQ. apply HQ. done. Qed.

Lemma wp_sync Q l : (forall r l', frame l l' -> Q r l') -> wp (sync ticks) Q l.
Proof.
  intros HQ. apply wp_bind, wp_tick. intros l' Hl'. destruct (tk_sync _); by apply HQ.
Qed.

Lemma frame_trans l l' l'' : frame l l' -> frame l' l'' -> frame l l''.
Proof. intros [] []. split; congruence. Qed.

Lemma wp_should_stop Q l : (forall b l', frame l l' -> Q (Ok b) l') -> wp (should_stop ticks) Q l.
Proof.
  intros HQ. apply wp_bind. wp_step. destruct (lp_stop_requested l); [by apply HQ|].
  apply wp_bind, wp_tick. intros l' Hl'. apply HQ. by destruct Hl'.
Qed.

Lemma wp_entry_at i e Q l : lp_entries l !! i = Some e -> Q (Ok e) l -> wp (entry_at i) Q l.
Proof. intros He HQ. unfold wp, entry_at. by rewrite He. Qed.

(** Flags of the target and synchronisation. *)
Lemma wp_disable_target r buf Q l :
  masked (rd_target r) buf (lp_entries l) ->
  (forall es, masked (rd_target r) buf es -> Q (Ok tt) (with_entries l es)) ->
  wp (disable_target r) Q l.
Proof.
  intros Hm HQ. unfold disable_target. destruct (rd_one_shot r).
  - apply HQ. apply masked_flag; [apply flag_eq_disable|done].
  - specialize (HQ _ Hm). by destruct l.
Qed.

Lemma wp_sync_if_needed r Q l : (forall res l', frame l l' -> Q res l') -> wp (sync_if_needed ticks r) Q l.
Proof. intros HQ. unfold sync_if_needed. destruct (rd_sync_needed r); [by apply wp_sync|by apply HQ]. Qed.

(** ** The body of the loop *)

(** In the round [r] with [n] steps of its mutator left, [rem] in total. *)
Record during (r : Round) (n rem : nat) (buf : list Z) (l : LoopW) : Prop := {
  du_ok : ok rem l;
  du_round : in_round r n l;
  du_masked : masked (rd_target r) buf (lp_entries l);
}.

Lemma during_frame r n rem buf l l' : frame l l' -> during r n rem buf l -> during r n rem buf l'.
Proof.
  intros Hf [Ho Hr Hm]. split; [by eapply ok_frame|by eapply in_round_frame|]. by rewrite (fr_entries _ _ Hf).
Qed.

Lemma during_entries r n rem buf buf' l es :
  masked (rd_target r) buf' es -> during r n rem buf l -> during r n rem buf' (with_entries l es).
Proof. intros Hm [Ho Hr _]. split; [by apply ok_entries|by apply in_round_entries|done]. Qed.

Lemma no_new_coverage_Ret timeout stats now :
  is_Some (init_ts stats) -> exists b, no_new_coverage timeout stats now = Ret b.
Proof.
  intros [ts Hts]. unfold no_new_coverage. destruct timeout as [t|]; [|by eexists]. rewrite Hts. cbn [unwrap mbind outcome_bind].
  destruct (_ <? _); by eexists.
Qed.

(** Leaving the round. *)
Lemma wp_leave r n rem buf (flow : Flow) Q l :
  during r n rem buf l -> (forall res l', during r n rem buf l' -> lp_stats l' = lp_stats l -> Q res l') ->
  wp (_ ← disable_target r; mret (Some flow)) Q l /\
  wp (_ ← disable_target r; _ ← sync_if_needed ticks r; mret (Some flow)) Q l.
Proof.
  intros Hd HQ. split; apply wp_bind; (eapply wp_disable_target; [apply Hd|]); intros es Hes.
  - apply HQ; [by eapply during_entries|done].
  - apply wp_bind, wp_sync_if_needed. intros res l' Hf. pose proof (fr_stats _ _ Hf) as Es.
    destruct res; (apply HQ; [|done]); (eapply during_frame; [done|]); by eapply during_entries.
Qed.

Lemma checked_sub_Ret a b : b <= a -> checked_sub a b = Ret (a - b).
Proof. intros. unfold checked_sub. by rewrite decide_True. Qed.

Lemma wp_periodic r n rem buf Q l :
  during r n rem buf l -> (forall res l', during r n rem buf l' -> lp_stats l' = lp_stats l -> Q res l') ->
  wp (periodic ticks r) Q l.
Proof.
  intros Hd HQ. unfold periodic. apply wp_bind, wp_tick. intros l1 Hf. apply (during_frame _ _ _ _ _ _ Hf) in Hd.
  rewrite <- (fr_stats _ _ Hf) in HQ.
  cbn beta iota. wp_steps. destruct (_ <=? _); [by apply HQ|].
  pose proof Hd as [Hok [ET [Hs0 Hs] Hc (total & Htot & Hle)] Hm]. wp_returns; [by apply checked_sub_Ret|]. eapply wp_change_state.
  { unfold set_iterations. rewrite Htot. cbn [unwrap mbind outcome_bind].
    replace (_ <=? _)%nat with true by (symmetry; apply Nat.leb_le; lia). reflexivity. }
  wp_returns. { apply checked_sub_Ret. rewrite ET. pose proof (ok_steps _ _ Hok). lia. }
  match goal with |- wp _ _ ?x => set (l2 := x) end.
  assert (Hd2 : during r n rem buf l2).
  { split; [destruct Hok as [[] ]; by split|split; [done..|]|done]. by exists total. }
  apply wp_should_stop. intros stop l3 Hf3. pose proof (during_frame _ _ _ _ _ _ Hf3 Hd2) as Hd3. cbn beta iota.
  rewrite <- (fr_stats _ _ Hf3 : _ = lp_stats l1) in HQ. destruct stop; [by eapply wp_leave|]. wp_steps.
  destruct (no_new_coverage_Ret (rd_no_new_coverage_timeout r) (lp_stats l1) (tk_now (ticks (lp_tick l)))) as (b & ->);
    [apply Hok|]. wp_returns; [reflexivity|]. destruct b; [by apply HQ|].
  destruct (_ && _); [by eapply wp_leave|by apply HQ].
Qed.

(** Source and sink run once with the execution counted. *)
Lemma wp_execute r n rem buf e0 Q l :
  rd_target r ∈ candidates -> es0 !! rd_target r = Some e0 -> length buf = Entry_msk_len e0 ->
  during r (S n) (S rem) buf l ->
  (forall res l', during r n rem buf l' -> rd_start_execs r < execs (lp_stats l') -> Q res l') ->
  wp execute Q (with_stats l (with_execs (lp_stats l) (execs (lp_stats l) + 1))).
Proof using HT Hphase Hentry.
  intros Hi He Hlen [Hok [ET Hs [cfg Hcfg] (total & Htot & Hle)] Hm] HQ.
  pose proof Hok as [Hks Hin Hg Hst Hb (runs & Hruns & Hnum & Hseen)]. rewrite Hcfg in Hb. destruct Hb as (Hk & Hgc & Hb).
  unfold wp, execute. cbn [lp_tick lp_state lp_entries lp_stats lp_world with_stats].
  destruct (run_once_ok _ (lp_tick l) (lp_state l) (lp_entries l)
    (with_execs (lp_stats l) (execs (lp_stats l) + 1)) (lp_world l) Hb) as (res & c' & w' & -> & Hone & Hb').
  { rewrite (ks_phase _ _ Hks). exact Hphase. }
  { rewrite (ks_entry _ _ Hks). exact Hentry. }
  { intros f. rewrite field_get_with_execs. destruct Hg as [_ _ Hf _]. specialize (Hf f). destruct f; cbn in *; lia. }
  pose proof (or_execs _ _ Hone) as Ee. cbn in Ee. apply HQ; [|cbn; lia]. split; [| |done].
  - split; cbn; [done|by rewrite (or_init _ _ Hone)|by eapply grown_run|lia| |].
    + rewrite Hcfg. split_and!; [done|by eapply grown_run|done].
    + exists (runs ++ [lp_entries l]). split; [by rewrite Hruns, app_assoc|]. split; [rewrite length_app; cbn; lia|].
      apply Forall_app. split; [done|]. apply Forall_singleton. by exists (rd_target r), e0, buf.
  - split; cbn; [done|lia|by eexists|]. exists total. split; [done|lia].
Qed.

Lemma wp_body r n rem buf e0 Q l :
  rd_target r ∈ candidates -> es0 !! rd_target r = Some e0 -> length buf = Entry_msk_len e0 ->
  during r (S n) (S rem) buf l ->
  (forall res l', during r n rem buf l' -> rd_start_execs r < execs (lp_stats l') -> Q res l') ->
  wp (body ticks r) Q l.
Proof using HT Hphase Hentry.
  intros Hi He Hlen Hd HQ. unfold body. wp_returns.
  { apply checked_add_lt. pose proof (ok_steps _ _ (du_ok _ _ _ _ _ Hd)). lia. }
  eapply wp_execute; [done..|]. intros res l' Hd' Hlt. destruct res as [[]|e]; [|by apply HQ]. wp_returns.
  { eapply ok_paths. apply Hd'. }
  assert (HQ' : forall res l'', during r n rem buf l'' -> lp_stats l'' = lp_stats l' -> Q res l'').
  { intros res l'' Hd'' E. apply HQ; [done|by rewrite E]. }
  destruct (_ && _).
  - by eapply wp_leave.
  - by eapply wp_periodic.
Qed.

(** ** The loop over a mutator *)

Lemma during_weaken r n n' rem rem' buf l :
  (n' <= n)%nat -> (rem' <= rem)%nat -> during r n rem buf l -> during r n' rem' buf l.
Proof. intros ? ? [? ? ?]. split; [by eapply ok_weaken|by eapply in_round_weaken|done]. Qed.

Section candidate.
Context (i : nat) (e0 : MutationCacheEntry) (Hi : i ∈ candidates) (He : es0 !! i = Some e0).
Context (Hlen : length (Entry_get_msk_as_slice e0) = Entry_msk_len e0).
#[local] Abbreviation orig := (Entry_get_msk_as_slice e0).

Lemma box_buf_length n b buf : box_inv orig n b buf -> length buf = Entry_msk_len e0.
Proof using Hlen. intros Hb. rewrite <- Hlen. by eapply box_inv_length. Qed.

(** The mask a mutator works on. *)
Lemma wp_msk n b buf Q l :
  box_inv orig n b buf -> masked i buf (lp_entries l) ->
  (forall e, Entry_get_msk_as_slice e = buf -> Entry_id e = Entry_id e0 -> Q (Ok e) l) -> wp (entry_at i) Q l.
Proof using He Hlen.
  intros Hb Hm HQ. destruct (masked_lookup i buf _ e0 Hm He) as (e & Ee & Hf). eapply wp_entry_at; [exact Ee|].
  apply HQ; [|by rewrite <- (flag_eq_id _ _ Hf)].
  rewrite <- (flag_eq_msk _ _ Hf). apply get_with_msk. by eapply box_buf_length.
Qed.

Lemma wp_drop_box n b buf Q l :
  box_inv orig n b buf -> masked i buf (lp_entries l) ->
  (forall es, masked i orig es -> Q (Ok tt) (with_entries l es)) -> wp (drop_box i b) Q l.
Proof using He Hlen.
  intros Hb Hm HQ. unfold drop_box. wp_steps. eapply wp_msk; [done..|]. intros e Ee _. rewrite Ee. wp_returns.
  { by eapply box_inv_drop. }
  apply HQ. eapply masked_set; [done|by eapply box_buf_length|done].
Qed.

Lemma wp_finally_drop {A} n b buf (r : result unit A) Q l :
  box_inv orig n b buf -> masked i buf (lp_entries l) ->
  (forall es, masked i orig es -> Q r (with_entries l es)) -> wp (finally (of_result r) (drop_box i b)) Q l.
Proof using He Hlen. intros Hb Hm HQ. wp_steps. by eapply wp_drop_box. Qed.

Lemma wp_mutator_loop r rest Q :
  rd_target r = i ->
  (forall res l', during r 0 rest orig l' -> (res = Ok Exhausted -> rd_start_execs r < execs (lp_stats l')) -> Q res l') ->
  forall fuel n b buf l, (n < fuel)%nat -> box_inv orig n b buf -> during r n (n + rest) buf l ->
  rd_start_execs r < execs (lp_stats l) \/ starts ticks b buf ->
  wp (mutator_loop ticks fuel r b) Q l.
Proof using HT Hdraws He Hi Hlen Hphase Hentry.
  intros Ei HQ. induction fuel as [|fuel IH]; intros n b buf l Hfuel Hb Hd Hstart; [lia|]. cbn [mutator_loop].
  apply wp_bind, wp_tick. intros l1 Hf. apply (during_frame _ _ _ _ _ _ Hf) in Hd. rewrite <- (fr_stats _ _ Hf) in Hstart.
  cbn beta iota. rewrite Ei. wp_steps. eapply wp_msk; [done|rewrite <- Ei; apply Hd|]. intros e Ee _. rewrite Ee.
  set (d := tk_draws _). assert (Hdr : draws_ok d) by apply Hdraws.
  destruct (box_inv_next orig n d b buf Hdr Hb) as (res & b' & buf' & E & Hres). rewrite E. wp_returns; [reflexivity|].
  cbn [fst snd]. assert (Hm : masked (rd_target r) buf' (alter (fun e => Entry_with_msk e buf') i (lp_entries l1))).
  { rewrite Ei. eapply masked_set; [done|by eapply box_buf_length|]. rewrite <- Ei. apply Hd. }
  apply (during_entries _ _ _ _ _ _ _ Hm) in Hd. destruct res; cbv iota.
  - destruct Hres as (n' & -> & Hb'). wp_steps. eapply (wp_body r n' (n' + rest)); [by rewrite Ei|by rewrite Ei|by eapply box_buf_length|exact Hd|].
    intros flow l2 Hd2 Hlt. assert (Hm2 : masked i buf' (lp_entries l2)) by (rewrite <- Ei; apply Hd2).
    assert (Hend : forall es, masked i orig es -> during r 0 rest orig (with_entries l2 es)).
    { intros es Hes. eapply during_entries; [by rewrite Ei|]. eapply during_weaken; [..|exact Hd2]; lia. }
    destruct flow as [[flow|]|err].
    + eapply wp_finally_drop; [done..|]. intros es Hes. apply HQ; [by apply Hend|done].
    + eapply (IH n'); [lia|done|done|by left].
    + eapply wp_finally_drop; [done..|]. intros es Hes. apply HQ; [by apply Hend|done].
  - eapply (wp_finally_drop _ _ _ (Ok Exhausted)); [exact Hres|by rewrite Ei in Hm|]. intros es Hes. apply HQ.
    + eapply during_entries; [by rewrite Ei|]. eapply during_weaken; [..|exact Hd]; lia.
    + intros _. destruct Hstart as [Hlt|Hstart]; [done|]. destruct (Hstart (lp_tick l)) as (b2 & buf2 & E2). fold d in E2. congruence.
Qed.

(** ** A round *)

Lemma wp_start_mutator q start_paths start_successful mce_start_ts b rest Q l :
  ok (Box_steps_total b orig + rest) l -> masked i orig (lp_entries l) -> fresh_box orig b -> r_known (Entry_id e0) ->
  Z.of_nat (rq_total q) = T ->
  (forall r l', during r (Box_steps_total b orig) (Box_steps_total b orig + rest) orig l' ->
     rd_target r = i -> Q (Ok r) l') ->
  (forall l', ok (Box_steps_total b orig + rest) l' -> masked i orig (lp_entries l') -> Q (Err tt) l') ->
  wp (start_mutator ticks q i start_paths start_successful mce_start_ts b) Q l.
Proof using He Hlen Hphase.
  intros Hok Hm Hb Hk HqT HQ HQe. unfold start_mutator. wp_steps. eapply wp_msk; [exact Hb|done|]. intros e Ee Eid.
  rewrite Ee, Eid. pose proof Hok as [Hks Hin Hg Hst Hbud Hruns]. destruct Hphase as [ph Hph]. wp_returns.
  { unfold state_phase. cbn. rewrite (ks_phase _ _ Hks), Hph. reflexivity. }
  match goal with |- wp _ _ ?x => set (l1 := x) end.
  set (r := mk_round _ _ _ _ _ _ _ _ _ _).
  assert (Hd : during r (Box_steps_total b orig) (Box_steps_total b orig + rest) orig l1).
  { split; [split; cbn; [by destruct Hks|done|done|done| |done]|split; cbn|done].
    - split_and!; [done|by eapply grown_self|by eapply ok_budget_now].
    - done.
    - pose proof (grown_nonneg _ _ Hg). lia.
    - by eexists.
    - eexists. split; [reflexivity|]. lia. }
  assert (Hd' : exists es, during r (Box_steps_total b orig) (Box_steps_total b orig + rest) orig (with_entries l1 es) /\
            forall Q', Q' (Ok tt) (with_entries l1 es) ->
              wp (if rd_one_shot r then change_entry i Entry_enable else mret tt) Q' l1).
  { destruct (rd_one_shot r).
    - exists (alter Entry_enable i (lp_entries l1)). split; [|done]. eapply during_entries; [|done].
      apply masked_flag; [apply flag_eq_enable|apply Hd].
    - exists (lp_entries l1). split; [eapply during_entries; [apply Hd|done]|]. done. }
  destruct Hd' as (es & Hd' & Hwp). apply Hwp. wp_steps. apply wp_sync_if_needed. intros [[]|[]] l' Hf.
  - apply HQ; [by eapply during_frame|done].
  - apply (during_frame _ _ _ _ _ _ Hf) in Hd'. apply HQe; apply Hd'.
Qed.

Lemma wp_finish_mutator r rest Q l :
  during r 0 rest orig l -> rd_start_execs r < execs (lp_stats l) ->
  (forall res l', ok rest l' -> masked (rd_target r) orig (lp_entries l') -> Q res l') ->
  wp (finish_mutator ticks r) Q l.
Proof.
  clear Hi He Hlen. intros Hd Hlt HQ. unfold finish_mutator. wp_steps. eapply wp_disable_target; [apply Hd|]. intros es Hes. wp_steps.
  apply wp_sync_if_needed. intros res l1 Hf. eapply during_entries in Hd; [|exact Hes].
  apply (during_frame _ _ _ _ _ _ Hf) in Hd. rewrite <- (fr_stats _ _ Hf : _ = lp_stats l) in Hlt.
  destruct res as [[]|err]; [|apply HQ; apply Hd]. pose proof Hd as [Hok Hr Hm]. wp_steps.
  destruct (ir_configuration _ _ _ Hr) as [cfg Hcfg]. rewrite Hcfg. wp_returns; [reflexivity|].
  pose proof (ok_budget _ _ Hok) as Hb. rewrite Hcfg in Hb. destruct Hb as (Hk & Hg & Hb).
  destruct (finialize_Ret cfg (lp_stats l1) Hg) as (cfg' & E & Ep & Hw). rewrite E. wp_returns; [reflexivity|].
  destruct (report_ok (T - execs (lp_stats l1)) (execs (lp_stats l1) - execs (cfg_counter cfg)) (lp_world l1) cfg')
    as (w' & Er & Hb'); [pose proof (ok_steps _ _ Hok); lia|by replace (_ + _) with (T - execs (cfg_counter cfg)) by lia|by rewrite Ep|done|].
  eapply wp_report_pending; [exact Er|]. wp_returns; [apply checked_sub_Ret; lia|].
  replace (_ =? 0) with false by (symmetry; apply Z.eqb_neq; lia). wp_steps. apply HQ; [by destruct Hok|done].
Qed.

(** A mutator that can be started on the mask of the candidate. *)
Record startable (fuel : nat) (b : BoxMutator) : Prop := {
  sb_fresh : fresh_box orig b;
  sb_starts : starts ticks b orig;
  sb_fuel : (Box_steps_total b orig < fuel)%nat;
}.

Lemma wp_run_round q start_paths start_successful mce_start_ts b rest Q l :
  ok (Box_steps_total b orig + rest) l -> masked i orig (lp_entries l) -> startable (rq_fuel q) b ->
  r_known (Entry_id e0) -> Z.of_nat (rq_total q) = T ->
  (forall res l', ok rest l' -> masked i orig (lp_entries l') -> Q res l') ->
  wp (run_round ticks q i start_paths start_successful mce_start_ts b) Q l.
Proof using HT Hdraws He Hi Hlen Hphase Hentry.
  intros Hok Hm [Hb Hs Hfuel] Hk HqT HQ. unfold run_round. wp_steps. apply wp_on_error.
  apply (wp_start_mutator _ _ _ _ _ rest); [done..| |].
  - intros r l1 Hd Ei. wp_steps. eapply (wp_mutator_loop r rest); [done| |exact Hfuel|exact Hb|exact Hd|by right].
    intros [[]|e] l2 Hd2 Hlt; wp_steps.
    + eapply wp_finish_mutator; [exact Hd2|by apply Hlt|]. intros res l3 Hok3 Hm3. rewrite Ei in Hm3.
      destruct res; by apply HQ.
    + apply HQ; [apply Hd2|rewrite <- Ei; apply Hd2].
    + apply HQ; [apply Hd2|rewrite <- Ei; apply Hd2].
    + apply HQ; [apply Hd2|rewrite <- Ei; apply Hd2].
  - intros l1 Hok1 Hm1. eapply wp_drop_box; [exact Hb|done|]. intros es Hes. apply HQ; [|done].
    apply ok_entries. eapply ok_weaken; [|exact Hok1]. lia.
Qed.

(** Mutators that were not used are dropped. *)
Lemma wp_drop_boxes bs Q l :
  masked i orig (lp_entries l) -> Forall (fresh_box orig) bs ->
  (forall es, masked i orig es -> Q (Ok tt) (with_entries l es)) -> wp (drop_boxes i bs) Q l.
Proof using He Hlen.
  intros Hm Hbs. revert l Hm. induction Hbs as [|b bs Hb _ IH]; intros l Hm HQ.
  { specialize (HQ _ Hm). by destruct l. }
  cbn [drop_boxes]. wp_steps. eapply wp_drop_box; [exact Hb|done|]. intros es Hes. by apply IH.
Qed.

Definition boxes_steps (bs : list BoxMutator) : nat := sum_list ((fun b => Box_steps_total b orig) <$> bs).

Lemma wp_mce_loop q start_paths start_successful mce_start_ts bs rest Q l :
  ok (boxes_steps bs + rest) l -> masked i orig (lp_entries l) -> Forall (startable (rq_fuel q)) bs ->
  r_known (Entry_id e0) -> Z.of_nat (rq_total q) = T ->
  (forall res l', ok rest l' -> masked i orig (lp_entries l') -> Q res l') ->
  wp (mce_loop ticks q i start_paths start_successful mce_start_ts bs) Q l.
Proof using HT Hdraws He Hi Hlen Hphase Hentry.
  intros Hok Hm Hbs Hk HqT HQ. revert l Hok Hm. induction Hbs as [|b bs Hb Hbs IH]; intros l Hok Hm; [by apply HQ|].
  cbn [mce_loop]. wp_steps. apply (wp_run_round _ _ _ _ _ (boxes_steps bs + rest)); [|done..|].
  { eapply ok_weaken; [|exact Hok]. unfold boxes_steps. cbn. lia. }
  intros res l1 Hok1 Hm1. apply (ok_weaken _ rest) in Hok1 as Hok2; [|lia].
  assert (Hdrop : wp (finally (of_result res) (drop_boxes i bs)) Q l1).
  { wp_steps. eapply wp_drop_boxes; [done| |intros; apply HQ; [by apply ok_entries|done]].
    eapply Forall_impl; [exact Hbs|]. by intros ? []. }
  destruct res as [[]|e]; [by apply IH|exact Hdrop..].
Qed.

Lemma wp_fuzz_candidate q bs rest Q l :
  ok (boxes_steps bs + rest) l -> masked i orig (lp_entries l) -> Forall (startable (rq_fuel q)) bs ->
  r_known (Entry_id e0) -> Z.of_nat (rq_total q) = T ->
  (forall res l', ok rest l' -> masked i orig (lp_entries l') -> Q res l') ->
  wp (fuzz_candidate ticks q i bs) Q l.
Proof using HT Hdraws He Hi Hlen Hphase Hentry.
  intros Hok Hm Hbs Hk HqT HQ. unfold fuzz_candidate. wp_steps.
  destruct (masked_lookup i orig _ e0 Hm He) as (e & Ee & Hf). rewrite with_msk_same in Hf.
  eapply wp_entry_at; [exact Ee|]. wp_returns; [by eapply ok_paths|]. apply wp_tick. intros l1 Hfr. wp_steps.
  apply (ok_frame _ _ _ Hfr) in Hok as Hok1. rewrite <- (fr_entries _ _ Hfr) in Hm.
  match goal with |- wp _ _ ?x => set (l2 := x) end.
  assert (Hok2 : ok (boxes_steps bs + rest) l2) by (destruct Hok1 as [[] ]; by split).
  destruct (_ =? 0)%nat.
  - wp_steps. eapply wp_drop_boxes; [done| |].
    { eapply Forall_impl; [exact Hbs|]. by intros ? []. }
    intros es Hes. apply HQ; [|done]. apply ok_entries. eapply ok_weaken; [|exact Hok2]. lia.
  - wp_steps. apply (wp_mce_loop _ _ _ _ _ rest); [done..|]. intros [flow|err] l3 Hok3 Hm3; [|by apply HQ].
    destruct (masked_lookup i orig _ e0 Hm3 He) as (e' & Ee' & Hf'). rewrite with_msk_same in Hf'.
    assert (Enop : Bool.eqb (Entry_is_nop e) (Entry_is_nop e') = true).
    { unfold Entry_is_nop. rewrite <- (flag_eq_msk _ _ Hf), <- (flag_eq_msk _ _ Hf'). apply eqb_reflx. }
    destruct flow; wp_steps; [| |by apply HQ]; (eapply wp_entry_at; [exact Ee'|]); wp_steps; rewrite Enop; wp_steps; by apply HQ.
Qed.
End candidate.

(** ** All candidates *)

(** A position of the cache with mutators for its mask. *)
Definition candidate_ok (fuel : nat) (m : nat * list BoxMutator) : Prop :=
  exists e, es0 !! m.1 = Some e /\ entry_wf e /\ r_known (Entry_id e) /\ Forall (startable e fuel) m.2.

(** All masks are the original ones. *)
Definition restored (es : list MutationCacheEntry) : Prop := Forall2 flag_eq es0 es.

Lemma total_steps_cons i bs mutations e :
  es0 !! i = Some e ->
  total_steps es0 ((i, bs) :: mutations) = (boxes_steps e bs + total_steps es0 mutations)%nat.
Proof. intros He. unfold total_steps. cbn. by rewrite He. Qed.

Lemma wp_drop_candidates fuel mutations Q l :
  restored (lp_entries l) -> Forall (candidate_ok fuel) mutations ->
  (forall es, restored es -> Q (Ok tt) (with_entries l es)) -> wp (drop_candidates mutations) Q l.
Proof.
  intros Hr Hms. revert l Hr. induction Hms as [|[i bs] ms (e & He & Hwf & _ & Hbs) _ IH]; intros l Hr HQ.
  { specialize (HQ _ Hr). by destruct l. }
  cbn [drop_candidates]. wp_steps. eapply (wp_drop_boxes i e He); [by apply msk_length|by eapply masked_original| |].
  { eapply Forall_impl; [exact Hbs|]. by intros ? []. }
  intros es Hes. apply IH; [|done]. by eapply masked_original.
Qed.

Lemma wp_candidates_loop q mutations Q l :
  ok (total_steps es0 mutations) l -> restored (lp_entries l) -> Forall (candidate_ok (rq_fuel q)) mutations ->
  Forall (fun m => m.1 ∈ candidates) mutations -> Z.of_nat (rq_total q) = T ->
  (forall res l', ok 0 l' -> restored (lp_entries l') -> Q res l') -> wp (candidates_loop ticks q mutations) Q l.
Proof using HT Hdraws Hphase Hentry.
  intros Hok Hr Hms Hin HqT HQ. revert l Hok Hr. induction Hms as [|[i bs] ms (e & He & Hwf & Hk & Hbs) Hms IH]; intros l Hok Hr; [by apply HQ|].
  apply Forall_cons in Hin as [Hi Hin]. cbn [candidates_loop fst snd] in *. wp_steps. rewrite (total_steps_cons _ _ _ e) in Hok by done.
  eapply (wp_fuzz_candidate i e Hi He); [by apply msk_length|exact Hok|by eapply masked_original|done..|].
  intros res l1 Hok1 Hr1. apply masked_original in Hr1; [|done].
  assert (Hdrop : forall r, wp (finally (of_result r) (drop_candidates ms)) Q l1).
  { intros r. wp_steps. apply (ok_weaken _ 0) in Hok1; [|lia]. eapply wp_drop_candidates; [done|exact Hms|].
    intros es Hes. apply HQ; [by apply ok_entries|done]. }
  destruct res as [[]|err]; [by apply IH|by apply IH|apply (Hdrop (Ok tt))|apply Hdrop].
Qed.

(** The statistics at the start. *)
Lemma ok_start rem l now :
  lp_stats l = with_init_ts counter_new (Some now) -> lp_state l = st0 ->
  lp_configuration l = None -> lp_runs l = runs0 -> Z.of_nat rem = T -> r_inv T (lp_world l) -> ok rem l.
Proof.
  intros Es Est Ec Er ET Hinv. split; rewrite ?Es, ?Ec, ?Est; cbn; [done|done| |lia| |].
  - split; cbn; [split; [lia|by intros []]|lia|by intros []|lia].
  - by replace (T - 0) with T by lia.
  - exists []. by rewrite app_nil_r.
Qed.

Lemma add_assign_execs c stats :
  grown counter_new stats -> execs stats <= T -> Forall (fun z => z + T < 2 ^ 64) (counts c) ->
  exists c', add_assign c stats = Ret c' /\ execs c' = execs c + execs stats.
Proof.
  intros [_ _ Hf _] Hle Hsum. eexists. split; [apply (map2_counters_Ret _ Z.add)|done].
  assert (Hb : forall z f, z + T < 2 ^ 64 -> z + field_get f stats < 2 ^ 64).
  { intros z f Hz. specialize (Hf f). replace (field_get f counter_new) with 0 in Hf by (by destruct f). cbn in Hf. lia. }
  unfold counts in Hsum. repeat (apply Forall_cons in Hsum as [? Hsum]).
  repeat constructor; apply checked_add_lt; [lia|..]; [apply (Hb _ F_successful)|apply (Hb _ F_edges)|apply (Hb _ F_hits)
    |apply (Hb _ F_source_crashes)|apply (Hb _ F_source_timeout)|apply (Hb _ F_no_output)|apply (Hb _ F_duplicated)
    |apply (Hb _ F_sink_timeout)|apply (Hb _ F_sink_crashes)]; done.
Qed.

Lemma wp_conclude worker_stats Q l :
  ok 0 l -> Forall (fun z => z + T < 2 ^ 64) (counts worker_stats) ->
  (forall l' stats', lp_entries l' = lp_entries l -> lp_runs l' = lp_runs l -> lp_state l' = lp_state l ->
     r_inv (T - execs (lp_stats l)) (lp_world l') ->
     execs stats' = execs worker_stats + execs (lp_stats l) -> Q (Ok stats') l') ->
  wp (conclude worker_stats) Q l.
Proof.
  intros Hok Hsum HQ. unfold conclude. wp_steps. pose proof Hok as [Hks _ Hg Hst Hb _].
  destruct (add_assign_execs worker_stats (lp_stats l) Hg) as (c' & Ea & Ee); [lia|done|].
  destruct (lp_configuration l) as [cfg|].
  - destruct Hb as (Hk & Hgc & Hb). destruct (finialize_Ret cfg (lp_stats l) Hgc) as (cfg' & E & Ep & Hw). rewrite E.
    wp_returns; [reflexivity|].
    destruct (report_ok (T - execs (lp_stats l)) (execs (lp_stats l) - execs (cfg_counter cfg)) (lp_world l) cfg')
      as (w' & Er & Hb'); [pose proof (ok_steps _ _ Hok); lia|by replace (_ + _) with (T - execs (cfg_counter cfg)) by lia|by rewrite Ep|done|].
    eapply wp_report_pending; [exact Er|]. eapply wp_lift; [exact Ea|]. by apply HQ.
  - wp_steps. eapply wp_lift; [exact Ea|]. by apply HQ.
Qed.

Lemma wp_fuzz_candidates fuel mutations timeout skip worker_stats qe Q l :
  lp_entries l = es0 -> lp_runs l = runs0 -> lp_state l = st0 -> T = Z.of_nat (total_steps es0 mutations) ->
  Forall (candidate_ok fuel) mutations -> Forall (fun m => m.1 ∈ candidates) mutations ->
  fs_entry st0 = Some qe -> qe_is_crash qe = false ->
  r_inv T (lp_world l) -> Forall (fun z => z + T < 2 ^ 64) (counts worker_stats) ->
  (forall l' runs, restored (lp_entries l') -> lp_runs l' = runs0 ++ runs -> Z.of_nat (length runs) <= T ->
     Forall proper_run runs -> kept_state st0 (lp_state l') -> r_inv 0 (lp_world l') ->
     Q (Err tt) l' /\ forall stats', execs stats' = execs worker_stats + Z.of_nat (length runs) -> Q (Ok stats') l') ->
  wp (fuzz_candidates ticks fuel mutations timeout skip worker_stats) Q l.
Proof using HT Hdraws Hphase Hentry.
  intros Hes Hruns Est ET Hms Hin Hqe Hcr Hinv Hsum HQ. unfold fuzz_candidates. pose proof Hphase as [ph Hph].
  wp_steps. wp_returns; [unfold state_entry; by rewrite Est, Hqe|]. rewrite Hcr. cbn [negb]. wp_steps.
  wp_returns; [unfold state_phase; by rewrite Est, Hph|]. apply wp_should_stop. intros stop l1 Hf1. cbv iota.
  assert (Hres : restored (lp_entries l)) by (rewrite Hes; unfold restored; reflexivity).
  assert (HQ0 : forall l', restored (lp_entries l') -> lp_runs l' = runs0 -> lp_state l' = st0 -> lp_world l' = lp_world l ->
            Q (Err tt) l' /\ Q (Ok worker_stats) l').
  { intros l' Hr El Es Ew. destruct (HQ l' [] Hr) as [? HQ']; [by rewrite app_nil_r|cbn; lia|done|by rewrite Es| |].
    - rewrite Ew. eapply r_inv_mono; [|exact Hinv]. lia.
    - split; [done|]. apply HQ'. cbn. lia. }
  pose proof (fr_entries _ _ Hf1) as Ee1. pose proof (fr_runs _ _ Hf1) as Er1. pose proof (fr_world _ _ Hf1) as Ew1.
  pose proof (fr_state _ _ Hf1) as Es1. destruct stop.
  { wp_steps. eapply wp_drop_candidates; [by rewrite Ee1|done|]. intros es Hr. apply HQ0; cbn; congruence. }
  wp_steps. apply wp_tick. intros l2 Hf2. wp_returns; [reflexivity|]. apply wp_on_error, wp_sync. intros res l3 Hf3.
  destruct Hf2 as [Ee2 Es2 Et2 Ew2 Ec2 Er2]. destruct Hf3 as [Ee3 Es3 Et3 Ew3 Ec3 Er3]. cbn in Ee3, Es3, Et3, Ew3, Ec3, Er3.
  assert (Hres3 : restored (lp_entries l3)) by (by rewrite Ee3, Ee2, Ee1).
  destruct res as [[]|err]; cbv iota.
  2:{ eapply wp_drop_candidates; [done|done|]. intros es Hr. destruct err. apply HQ0; cbn; congruence. }
  wp_steps. rewrite Ee3, Ee2, Ee1, Hes. apply wp_candidates_loop; [|done|done|done|done|].
  { eapply ok_start; cbn; [exact Et3|congruence|done|congruence|done|]. by rewrite Ew3, Ew2, Ew1. }
  intros res l4 Hok4 Hres4. pose proof Hok4 as [Hks _ _ Hst _ (runs & Eruns & Hnum & Hproper)].
  destruct (HQ l4 runs Hres4 Eruns) as [HQe _]; [lia|done|done| |].
  { eapply r_inv_mono; [|by eapply ok_budget_now]. lia. }
  destruct res as [[]|[]]; [|done].
  apply (wp_conclude worker_stats); [done|done|]. intros l5 stats' Ee5 Er5 Es5 Hr5 Ex.
  destruct (HQ l5 runs) as [_ HQo]; [by rewrite Ee5|by rewrite Er5|lia|done|by rewrite Es5| |apply HQo; lia].
  eapply r_inv_mono; [|exact Hr5]. lia.
Qed.
End fuzz.

(** ** The contract of a round *)

(** What holds when [fuzz_candidates] returned: the masks are restored, the runs since [l] saw
    one changed mask each, at most [T] runs were made and all of them counted, and the state and the
    environment of the worker are as before. *)
Record round_done `{L : EntryLayout} {W : Type} `{!Runner W} `{!RunnerLaws W} (mutations : list (nat * list BoxMutator))
    (worker_stats : FuzzerEventCounter) (l : Loop (W := W)) (res : result unit FuzzerEventCounter) (l' : Loop (W := W))
    (runs : list (list MutationCacheEntry)) : Prop := {
  rdn_restored : restored (lp_entries l) (lp_entries l');
  rdn_runs : lp_runs l' = lp_runs l ++ runs;
  rdn_bound : (length runs <= total_steps (lp_entries l) mutations)%nat;
  rdn_proper : Forall (proper_run (lp_entries l) mutations.*1) runs;
  rdn_counted : forall stats', res = Ok stats' -> execs stats' = execs worker_stats + Z.of_nat (length runs);
  rdn_state : kept_state (lp_state l) (lp_state l');
  rdn_world : r_inv 0 (lp_world l');
}.

Lemma fuzz_candidates_spec `{L : EntryLayout} {W : Type} `{!Runner W} `{!RunnerLaws W} ticks fuel mutations timeout skip
    worker_stats qe (l : Loop (W := W)) :
  let es := lp_entries l in
  let T := Z.of_nat (total_steps es mutations) in
  (forall n, draws_ok (tk_draws (ticks n))) ->
  Forall (candidate_ok ticks es fuel) mutations ->
  fs_entry (lp_state l) = Some qe -> qe_is_crash qe = false -> is_Some (fs_phase (lp_state l)) ->
  r_inv T (lp_world l) -> Forall (fun z => 0 <= z /\ z + T < 2 ^ 64) (counts worker_stats) ->
  exists res l' runs,
    fuzz_candidates ticks fuel mutations timeout skip worker_stats l = Ret (res, l') /\
    round_done mutations worker_stats l res l' runs.
Proof.
  intros es T Hdraws Hms Hqe Hcr Hph Hinv Hsum.
  assert (HT : T < 2 ^ 64).
  { unfold counts in Hsum. apply Forall_cons in Hsum as [? _]. lia. }
  assert (Hwp : wp (fuzz_candidates ticks fuel mutations timeout skip worker_stats)
                  (fun res l' => exists runs, round_done mutations worker_stats l res l' runs) l).
  { eapply (wp_fuzz_candidates ticks Hdraws es mutations.*1 (lp_runs l) T HT (lp_state l) Hph);
      [by rewrite Hqe|done|done|done|done|exact Hms| |exact Hqe|done|done| |].
    - apply Forall_forall. intros m Hm. apply list_elem_of_fmap. by exists m.
    - eapply Forall_impl; [exact Hsum|]. by intros ? [].
    - intros l' runs ? ? ? ? ? ?. split; [|intros stats' Hst]; exists runs; split; try done; try (subst T es; lia).
      by intros ? [= <-]. }
  apply wp_result in Hwp as (res & l' & E & runs & Hd). eauto.
Qed.

(** ** What a round keeps, whatever it meets *)

Section invariant.
Context `{L : EntryLayout} {W : Type} `{!Runner W}.
Context (ticks : nat -> Tick) (I : W -> Prop) (st0 : FuzzerState).
Context (Hrun : forall t st es c w r c' w', kept_state st0 st -> run_once t st es c w = Ret (r, c', w') -> I w -> I w').
Context (Hreport : forall w cfg w', report w cfg = Ret w' -> I w -> I w').
#[local] Abbreviation LoopW := (Loop (W := W)).

(** The world stays in [I], and the state keeps its identity. *)
Definition stays (l : LoopW) : Prop := I (lp_world l) /\ kept_state st0 (lp_state l).

Lemma stays_execute : preserves stays execute.
Proof using Hrun.
  intros l r l' E [Hi Hk]. unfold execute in E. destruct (run_once _ _ _ _ _) as [[[r1 c1] w1]|] eqn:Er; [|done].
  injection E as _ <-. split; [by eapply Hrun|done].
Qed.

Lemma stays_report cfg : preserves stays (report_pending cfg).
Proof using Hreport.
  intros l r l' E [Hi Hk]. unfold report_pending in E. destruct (report (lp_world l) cfg) as [w|] eqn:Er; [|done].
  injection E as _ <-. split; [by eapply Hreport|done].
Qed.

Lemma stays_iterations n : preserves stays (change_state (fun st => set_iterations st n)).
Proof.
  intros l r l' E [Hi Hk]. unfold change_state in E. destruct (set_iterations (lp_state l) n) as [st|] eqn:Es; [|done].
  injection E as _ <-. split; [done|]. unfold set_iterations in Es.
  destruct (fs_mutator_total_iterations (lp_state l)); [|done]. cbn in Es. destruct (_ <=? _)%nat; [|done]. injection Es as <-.
  destruct Hk. by split.
Qed.

Lemma stays_entry_at i : preserves stays (entry_at i).
Proof. intros l r l' E. unfold entry_at in E. destruct (lp_entries l !! i); [|done]. by injection E as _ <-. Qed.

Lemma stays_tick : preserves stays (tick ticks).
Proof. by intros l r l' [= _ <-]. Qed.

#[local] Hint Extern 1 (stays _) => (match goal with H : stays _ |- _ => destruct H as [? []]; split; [done|by split] end) : preserves.
#[local] Hint Resolve stays_execute stays_report stays_iterations stays_entry_at stays_tick : preserves.

Lemma stays_sync : preserves stays (sync ticks).
Proof. unfold sync. keeps. Qed.
#[local] Hint Resolve stays_sync : preserves.

Lemma stays_should_stop : preserves stays (should_stop ticks).
Proof. unfold should_stop. keeps. Qed.
Lemma stays_change_entry i f : preserves stays (change_entry i f).
Proof. unfold change_entry. keeps. Qed.
#[local] Hint Resolve stays_should_stop stays_change_entry : preserves.

Lemma stays_disable_target r : preserves stays (disable_target r).
Proof. unfold disable_target. keeps. Qed.
Lemma stays_sync_if_needed r : preserves stays (sync_if_needed ticks r).
Proof. unfold sync_if_needed. keeps. Qed.
Lemma stays_drop_box i b : preserves stays (drop_box i b).
Proof. unfold drop_box, set_msk. keeps. Qed.
#[local] Hint Resolve stays_disable_target stays_sync_if_needed stays_drop_box : preserves.

Lemma stays_drop_boxes i bs : preserves stays (drop_boxes i bs).
Proof. induction bs; cbn [drop_boxes]; keeps. Qed.
#[local] Hint Resolve stays_drop_boxes : preserves.

Lemma stays_drop_candidates mutations : preserves stays (drop_candidates mutations).
Proof. induction mutations as [|[i bs] mutations IH]; cbn [drop_candidates]; keeps. Qed.
#[local] Hint Resolve stays_drop_candidates : preserves.

Lemma stays_periodic r : preserves stays (periodic ticks r).
Proof. unfold periodic. keeps. Qed.
#[local] Hint Resolve stays_periodic : preserves.

Lemma stays_body r : preserves stays (body ticks r).
Proof using Hrun. unfold body. keeps. Qed.
#[local] Hint Resolve stays_body : preserves.

Lemma stays_mutator_loop fuel r b : preserves stays (mutator_loop ticks fuel r b).
Proof using Hrun. revert b. induction fuel as [|fuel IH]; intros b; cbn [mutator_loop]; unfold set_msk; keeps. Qed.
Lemma stays_finish_mutator r : preserves stays (finish_mutator ticks r).
Proof using Hreport. unfold finish_mutator. keeps. Qed.
Lemma stays_start_mutator q i a b c m : preserves stays (start_mutator ticks q i a b c m).
Proof. unfold start_mutator. keeps. Qed.
#[local] Hint Resolve stays_mutator_loop stays_finish_mutator stays_start_mutator : preserves.

Lemma stays_mce_loop q i a b c ms : preserves stays (mce_loop ticks q i a b c ms).
Proof using Hrun Hreport. induction ms as [|m ms IH]; cbn [mce_loop]; unfold run_round; keeps. Qed.
#[local] Hint Resolve stays_mce_loop : preserves.

Lemma stays_candidates_loop q mutations : preserves stays (candidates_loop ticks q mutations).
Proof using Hrun Hreport. induction mutations as [|[i bs] ms IH]; cbn [candidates_loop]; unfold fuzz_candidate; keeps. Qed.
#[local] Hint Resolve stays_candidates_loop : preserves.

(** Whatever happens in a round, it keeps the phase and the entry of the worker and every
    property of the world that executions and reports keep. *)
Lemma stays_fuzz_candidates fuel mutations timeout skip worker_stats :
  preserves stays (fuzz_candidates ticks fuel mutations timeout skip worker_stats).
Proof using Hrun Hreport. unfold fuzz_candidates, conclude. keeps. Qed.
End invariant.
