(* ===== verification/FuzzLoopRunner.v ===== *)
(** * The fuzzing loop on the worker

    [RunCommon.do_run] and [Cerebrum.report_configuration] implement the interface the
    fuzzing loop runs on, and satisfy its laws.  What executing source and sink brings
    is an argument. *)

From S2P Require Import Prelude Effects Bytes Bitmap Mutators Messages Trace MutationCacheEntry MutationCacheContent MutationCache MutationSite MutationCacheOps Queue EventCounter Cerebrum Scheduling RunCommon MutatorSteps FuzzLoop FuzzLoopTheorems.

Section runner.
Context `{L : EntryLayout} `{CL : ContentLayout}.

(** The maps have the size of the coverage map. *)
Record sizes_ok (n : nat) (w : Worker) (s : Shared) : Prop := {
  so_virgin : map_of_size n (w_virgin_map w);
  so_crash : map_of_size n (w_crash_virgin_map w);
  so_shared : map_of_size n (s_virgin_map s);
  so_shared_crash : map_of_size n (s_crash_virgin_map s);
}.

(** The counters of the patch points can still grow by [k]. *)
Record room (k : Z) (p : PatchPointStatsEntry) : Prop := {
  rm_crash : source_crash_cnt p + k < 2 ^ 64;
  rm_mutation : mutation_cnt p + k < 2 ^ 64;
  rm_timeout : source_timeout_cnt p + k < 2 ^ 64;
  rm_yield : 0 <= yield_cnt p /\ yield_cnt p + k < 2 ^ 64;
}.

Definition points_ok (ids : gset Z) (k : Z) (c : Cerebrum) : Prop :=
  forall id, id ∈ ids -> exists p, patch_point_stats c !! id = Some p /\ room k p.

(** ** Reports keep the counters *)

Lemma points_ok_insert ids k c c' i p p' :
  patch_point_stats c !! i = Some p -> (room k p -> room k p') ->
  patch_point_stats c' = <[i := p']> (patch_point_stats c) -> points_ok ids k c -> points_ok ids k c'.
Proof.
  intros Ep Hpp E Hp id Hid. destruct (Hp id Hid) as (q & Eq & Hr). rewrite E.
  destruct (decide (i = id)) as [<-|Hne]; [rewrite lookup_insert_eq|rewrite lookup_insert_ne by done; eauto].
  rewrite Ep in Eq. injection Eq as <-. eauto.
Qed.

Lemma report_mutation_points ids k qid c e c' :
  report_mutation qid c e = Ret c' -> points_ok ids k c -> points_ok ids k c'.
Proof.
  unfold report_mutation. destruct (patch_point_stats c !! Entry_id e) as [p|] eqn:Ep; [|done].
  intros [= <-]. eapply points_ok_insert; [exact Ep| |reflexivity]. by intros [].
Qed.

Lemma report_new_qe_points ids k nc c qe c' :
  report_new_qe nc c qe = Ret c' -> points_ok ids k c -> points_ok ids k c'.
Proof.
  unfold report_new_qe. destruct (qe_mutations qe) as [m|]; [|by intros [= <-]]. intros E. simpl_outcome.
  revert c E. induction (MutationCache_entries _) as [|e es IH]; intros c E Hp; cbn in E; [by injection E as <-|].
  simpl_outcome. eapply IH; [exact E|]. by eapply report_mutation_points.
Qed.

Lemma points_ok_mono ids k k' c : k' <= k -> points_ok ids k c -> points_ok ids k' c.
Proof. intros Hk Hp id Hid. destruct (Hp id Hid) as (p & Ep & []). exists p. split; [done|]. split; lia. Qed.

Lemma report_configuration_points ids k d c cfg :
  0 <= k -> points_ok ids (k + d) c -> cfg_target_pp_id cfg ∈ ids -> within d (cfg_counter cfg) ->
  exists c', report_configuration c cfg = Ret c' /\ points_ok ids k c'.
Proof.
  intros Hk Hp Hid [He Hc Ht Hed Hhi Hpa]. destruct (Hp _ Hid) as (p & Ep & [Rc Rm Rt [Ry0 Ry]]). unfold report_configuration.
  rewrite Ep. cbn [unwrap mbind outcome_bind]. repeat (rewrite checked_add_lt by lia; cbn [mbind outcome_bind]).
  eexists. split; [reflexivity|]. eapply points_ok_insert; [exact Ep| |reflexivity|].
  - intros _. split; cbn; lia.
  - eapply points_ok_mono; [|exact Hp]. lia.
Qed.

(** ** Runs *)

(** [c'] counts each of [fs] once more than [c]. *)
Record counted (fs : list CounterField) (c c' : FuzzerEventCounter) : Prop := {
  ct_init : init_ts c' = init_ts c;
  ct_execs : execs c' = execs c;
  ct_fields : forall f, field_get f c' = field_get f c + (if decide (f ∈ fs) then 1 else 0);
}.

Lemma counted_nil c : counted [] c c.
Proof. split; [done..|]. intros f. rewrite decide_False by (by intros ?%elem_of_nil). lia. Qed.

Lemma counted_count fs f c c1 :
  counted fs c c1 -> f ∉ fs -> field_get f c + 1 < 2 ^ 64 ->
  exists c2, count f c1 = Ret c2 /\ counted (f :: fs) c c2.
Proof.
  intros [Hi He Hf] Hn Hlt. unfold count. rewrite checked_add_lt; cbn [mbind outcome_bind].
  2:{ rewrite Hf, decide_False by done. lia. }
  eexists. split; [reflexivity|]. split; [done..|]. intros f'. rewrite field_get_set, !Hf.
  destruct (decide (f = f')) as [<-|Hne]; [by rewrite decide_False, decide_True by (done || by left); lia|].
  destruct (decide (f' ∈ fs)); [rewrite decide_True by (by right)|rewrite decide_False]; try done.
  intros [->|?]%elem_of_cons; done.
Qed.

(** Not both an edge and a hit are counted. *)
Lemma counted_one_run fs c c' : counted fs c c' -> F_edges ∉ fs \/ F_hits ∉ fs -> one_run c c'.
Proof.
  intros [Hi He Hf] Hn. split; [done..| |].
  - intros f. rewrite Hf. case_decide; lia.
  - rewrite !Hf. repeat case_decide; try lia. naive_solver.
Qed.

Context (n : nat) (ids : gset Z).

(** A result of a run that keeps the sizes of the maps and the counters of the patch points. *)
Definition sound_run (k : Z) (c : FuzzerEventCounter) (m : run_outcome) : Prop :=
  exists res c' w' s', m = Ret (res, c', w', s') /\ one_run c c' /\ sizes_ok n w' s' /\ points_ok ids k (s_cerebrum s').

Lemma create_sound k env st cov w s :
  env_ok n env s -> map_of_size n cov -> sizes_ok n w s -> points_ok ids k (s_cerebrum s) ->
  exists r s', create_new_queue_entry env st cov w s = Ret (r, w, s') /\ sizes_ok n w s' /\ points_ok ids k (s_cerebrum s').
Proof.
  intros Henv Hc Hw Hp. unfold create_new_queue_entry. unfold env_ok in Henv.
  destruct (clone_fresh n cov Hc) as (v & -> & Hv). cbn [mbind outcome_bind].
  destruct (env_calibration env) as [entry qs maps| |]; [|by eexists _, s|by eexists _, s].
  destruct Henv as (Hmaps & Hst & cb & Hcb).
  assert (Hqs : exists qs', (match st with NewEdge => stats_rw qs entry mark_favoured_once | _ => mret qs end) = Ret qs').
  { destruct st; [by eexists|by eexists|]. unfold stats_rw, stats_ro.
    destruct (slice_get_lt _ _ Hst) as (x & -> & _). cbn [mbind outcome_bind]. rewrite slice_set_lt by done. by eexists. }
  destruct Hqs as (qs' & ->). cbn [mbind outcome_bind Queue_push fst snd]. rewrite Hcb. cbn [mbind outcome_bind].
  destruct (calibration_bits n v maps Hv Hmaps) as [Hns _]. eexists _, _. split; [reflexivity|]. destruct Hw. split; [|].
  - split; try done. cbn [s_virgin_map]. apply new_bit_of_size; [by apply new_bit_of_size|done].
  - by eapply report_new_qe_points.
Qed.

Lemma then_create_sound k env st cov c c' w s :
  env_ok n env s -> map_of_size n cov -> sizes_ok n w s -> points_ok ids k (s_cerebrum s) -> one_run c c' ->
  sound_run k c (then_create env st cov c' w s).
Proof.
  intros Henv Hc Hw Hp Hone. unfold then_create.
  destruct (create_sound k env st cov w s) as (r & s' & -> & Hw' & Hp'); [done..|]. cbn [mbind outcome_bind].
  by eexists _, _, _, _.
Qed.

Lemma terminated_sound k env stats c cov w s :
  sizes_ok n w s -> map_of_size n cov -> env_ok n env s -> points_ok ids k (s_cerebrum s) ->
  (forall f, field_get f stats + 1 < 2 ^ 64) -> counted [F_successful] stats c ->
  sound_run k stats (handle_run_result_terminated env c cov w s).
Proof.
  intros Hw Hcov Henv Hp Hlt Hct. unfold handle_run_result_terminated. apply classify_of_size in Hcov.
  set (cv := Bitmap_classify_counts cov) in *. destruct (hash32_Ret n cv Hcov) as (h & ->). cbn [mbind outcome_bind].
  assert (Hone : one_run stats c) by (eapply counted_one_run; [exact Hct|left; set_solver]).
  pose proof (new_bit_of_size n cv (w_virgin_map w) Hcov (so_virgin _ _ _ Hw)) as Hv.
  destruct (Bitmap_has_new_bit cv (w_virgin_map w)) as [st v]. cbn [snd] in Hv.
  assert (Hw1 : sizes_ok n (with_virgin w v) s) by (by destruct Hw).
  case_match; [by eexists _, _, _, _|]. clear Hw. destruct st; [by eexists _, _, _, _|..].
  all: pose proof (new_bit_of_size n cv (s_virgin_map s) Hcov (so_shared _ _ _ Hw1)) as Hg.
  all: destruct (Bitmap_has_new_bit cv (s_virgin_map s)) as [st' g]; cbn [snd] in Hg.
  all: destruct (copy_from_of_size n v g Hv Hg) as (v' & E & Hv' & _); cbn [w_virgin_map with_virgin]; rewrite E; cbn [mbind outcome_bind].
  all: assert (Hw2 : sizes_ok n (with_virgin (with_virgin w v) v') (with_shared_virgin s g)) by (by destruct Hw1).
  all: assert (Hf : (match st' with NewEdge => F_edges | _ => F_hits end) ∉ [F_successful]) by (destruct st'; set_solver).
  all: destruct (counted_count _ _ _ _ Hct Hf (Hlt _)) as (c2 & E2 & Hc2).
  all: destruct st'; [by eexists _, _, _, _| |]; cbn beta iota in E2; rewrite E2; cbn [mbind outcome_bind];
      (apply then_create_sound; [done..|]); (eapply counted_one_run; [by destruct Hc2|]); set_solver.
Qed.

Lemma check_virgin_sizes cov l g :
  map_of_size n cov -> map_of_size n l -> map_of_size n g ->
  exists st l' g', check_virgin_maps cov l g = Ret (st, l', g') /\ map_of_size n l' /\ map_of_size n g'.
Proof.
  intros Hc Hl Hg. unfold check_virgin_maps. pose proof (new_bit_of_size n cov l Hc Hl) as Hl'.
  pose proof (new_bit_of_size n cov g Hc Hg) as Hg'. destruct (Bitmap_has_new_bit cov l) as [st l1].
  destruct (Bitmap_has_new_bit cov g) as [st' g1]. cbn [snd] in *. destruct (copy_from_of_size n l1 g1 Hl' Hg') as (l2 & E & Hl2 & _).
  destruct st; rewrite ?E; cbn [mbind outcome_bind]; by eexists _, _, _.
Qed.

Lemma signalled_sound k env stats c cov w s :
  sizes_ok n w s -> map_of_size n cov -> env_ok n env s -> points_ok ids k (s_cerebrum s) ->
  (forall f, field_get f stats + 1 < 2 ^ 64) -> counted [F_sink_crashes] stats c ->
  sound_run k stats (handle_run_result_signalled env c cov w s).
Proof.
  intros Hw Hcov Henv Hp Hlt Hct. unfold handle_run_result_signalled. apply classify_of_size in Hcov.
  destruct (check_virgin_sizes _ _ _ Hcov (so_crash _ _ _ Hw) (so_shared_crash _ _ _ Hw)) as (st & l' & g' & -> & Hl' & Hg').
  cbn [mbind outcome_bind]. assert (Hw2 : sizes_ok n (with_crash_virgin w l') (with_shared_crash_virgin s g')) by (by destruct Hw).
  assert (Hone : one_run stats c) by (eapply counted_one_run; [exact Hct|left; set_solver]).
  destruct (counted_count _ F_unique_crashes _ _ Hct ltac:(set_solver) (Hlt _)) as (c2 & -> & Hc2). cbn [mbind outcome_bind].
  destruct st; [by eexists _, _, _, _|..]; (apply then_create_sound; [done..|]);
    (eapply counted_one_run; [by destruct Hc2|]); set_solver.
Qed.

(** What an execution may bring: maps of the right size, an environment that fits, and no
    source error that the code takes for impossible. *)
Definition execution_ok (s : Shared) (x : Execution * Env) : Prop :=
  env_ok n x.2 s /\
  match x.1 with
  | Executed _ cov => map_of_size n cov
  | ExecFailed (SourceError (Source_Terminated _)) => False
  | _ => True
  end.

Lemma do_run_sound k stats run env w s :
  sizes_ok n w s -> execution_ok s (run, env) -> points_ok ids k (s_cerebrum s) ->
  (forall f, field_get f stats + 1 < 2 ^ 64) -> sound_run k stats (do_run env stats run w s).
Proof.
  intros Hw [Henv Hrun] Hp Hlt. cbn [fst snd] in *.
  assert (Hcount : forall f, exists c, count f stats = Ret c /\ counted [f] stats c).
  { intros f. apply (counted_count [] f stats stats (counted_nil stats)); [set_solver|apply Hlt]. }
  assert (Hdone : forall f (m := count f stats), f <> F_edges -> sound_run k stats (stats ← m; mret (Ok tt, stats, w, s))).
  { intros f m Hf. subst m. destruct (Hcount f) as (c & -> & Hc). eexists _, _, _, _. split; [reflexivity|]. split; [|done].
    eapply counted_one_run; [exact Hc|]. left. set_solver. }
  destruct run as [r cov|[[]| |]|]; cbn [do_run handle_source_exec_error]; try (by apply Hdone); [|done|].
  - unfold handle_run_result. apply classify_of_size in Hrun. destruct r as [code|signal|]; [| |by apply Hdone].
    + destruct (Hcount F_successful) as (c & -> & Hc). cbn [mbind outcome_bind]. by apply terminated_sound.
    + destruct (Hcount F_sink_crashes) as (c & -> & Hc). cbn [mbind outcome_bind]. by apply signalled_sound.
  - eexists _, _, _, _. split; [reflexivity|]. split; [|done]. eapply counted_one_run; [apply counted_nil|left; set_solver].
Qed.

(** ** The interface *)

(** What executing source and sink brings, with the mutations it runs with. *)
Context (executes : nat -> FuzzerState -> list MutationCacheEntry -> Shared -> Execution * Env).

(** The phase and the entry a run is judged by are the ones of the state of the worker. *)
#[export] Instance Worker_runner : Runner (Worker * Shared) := {|
  run_once t st es stats ws :=
    phase ← state_phase st;
    entry ← state_entry st;
    let x := executes t st es ws.2 in
    r ← do_run x.2 stats x.1 (mk_worker (w_virgin_map ws.1) (w_crash_virgin_map ws.1) phase entry) ws.2;
    let '(res, stats, w, s) := r in
    mret (res, stats, (w, s));
  report ws cfg :=
    cerebrum ← report_configuration (s_cerebrum ws.2) cfg;
    let s := ws.2 in
    mret (ws.1, mk_shared (s_virgin_map s) (s_crash_virgin_map s) (s_queue s) (s_qstate s) cerebrum);
|}.

Context (Hexec : forall t st es s, points_ok ids 0 (s_cerebrum s) -> execution_ok s (executes t st es s)).

#[export] Program Instance Worker_runner_laws : RunnerLaws (Worker * Shared) := {|
  r_inv k ws := sizes_ok n ws.1 ws.2 /\ points_ok ids (Z.max 0 k) (s_cerebrum ws.2);
  r_known id := id ∈ ids;
|}.
Next Obligation. intros k k' w Hk [Hs Hp]. split; [done|]. eapply points_ok_mono; [|exact Hp]. lia. Qed.
Next Obligation.
  intros k t st es c [w s] [Hs Hp] [ph Hph] [qe Hqe] Hlt. cbn [fst snd] in *. cbn [run_once Worker_runner].
  unfold state_phase, state_entry. rewrite Hph, Hqe. cbn [unwrap mbind outcome_bind fst snd].
  assert (Hx : execution_ok s (executes t st es s)). { apply Hexec. eapply points_ok_mono; [|exact Hp]. lia. }
  destruct (executes t st es s) as [run env]. cbn [fst snd].
  destruct (do_run_sound (Z.max 0 k) c run env (mk_worker (w_virgin_map w) (w_crash_virgin_map w) ph qe) s)
    as (res & c' & w' & s' & -> & Hone & Hs' & Hp'); [by destruct Hs|done..|]. cbn [mbind outcome_bind].
  by eexists _, _, _.
Qed.
Next Obligation.
  intros k d [w s] cfg Hk [Hs Hp] Hid Hw. cbn [fst snd] in *. cbn [report Worker_runner].
  assert (Hd : 0 <= d) by (destruct Hw; lia). replace (Z.max 0 (k + d)) with (Z.max 0 k + d) in Hp by lia.
  destruct (report_configuration_points ids (Z.max 0 k) d (s_cerebrum s) cfg) as (c' & E & Hp'); [lia|done..|].
  cbn [snd]. rewrite E. cbn [mbind outcome_bind]. eexists. split; [reflexivity|]. split; [by destruct Hs|done].
Qed.
End runner.

(** ** What a round guarantees *)

Section rounds.
Context `{L : EntryLayout} `{CL : ContentLayout}.

(** A worker that is about to fuzz [mutations]: the masks are proper and their mutators new,
    the state names a phase and an entry that is no crash, the maps have [n] bytes, and
    no counter overflows even if every announced execution is made. *)
Record ready (n : nat) (ids : gset Z) (executes : nat -> FuzzerState -> list MutationCacheEntry -> Shared -> Execution * Env)
    (ticks : nat -> Tick) (fuel : nat) (mutations : list (nat * list BoxMutator))
    (worker_stats : FuzzerEventCounter) (l : Loop (W := Worker * Shared)) : Prop := {
  rd_executes : forall t st es s, points_ok ids 0 (s_cerebrum s) -> execution_ok n s (executes t st es s);
  rd_ticks : forall t, draws_ok (tk_draws (ticks t));
  rd_candidates : Forall (fun m : nat * list BoxMutator => exists e, lp_entries l !! m.1 = Some e /\ entry_wf e /\ Entry_id e ∈ ids /\
                            Forall (startable ticks e fuel) m.2) mutations;
  rd_entry : exists qe, fs_entry (lp_state l) = Some qe /\ qe_is_crash qe = false;
  rd_phase : is_Some (fs_phase (lp_state l));
  rd_sizes : sizes_ok n (lp_world l).1 (lp_world l).2;
  rd_points : points_ok ids (Z.of_nat (total_steps (lp_entries l) mutations)) (s_cerebrum (lp_world l).2);
  rd_stats : Forall (fun z => 0 <= z /\ z + Z.of_nat (total_steps (lp_entries l) mutations) < 2 ^ 64) (counts worker_stats);
}.

Lemma ready_spec n ids executes ticks fuel mutations timeout skip worker_stats l
    (Hr : ready n ids executes ticks fuel mutations worker_stats l) :
  exists res l' runs,
    fuzz_candidates (Runner0 := Worker_runner executes) ticks fuel mutations timeout skip worker_stats l = Ret (res, l') /\
    round_done (RunnerLaws0 := Worker_runner_laws n ids executes (rd_executes _ _ _ _ _ _ _ _ Hr))
      mutations worker_stats l res l' runs.
Proof.
  pose proof Hr as [Hx Ht Hc (qe & Hqe & Hcr) Hph Hs Hp Hst].
  apply (fuzz_candidates_spec (Runner0 := Worker_runner executes)
           (RunnerLaws0 := Worker_runner_laws n ids executes (rd_executes _ _ _ _ _ _ _ _ Hr)) ticks fuel mutations timeout skip
           worker_stats qe l Ht Hc Hqe Hcr Hph); [|exact Hst]. split; [exact Hs|].
  by replace (Z.max 0 _) with (Z.of_nat (total_steps (lp_entries l) mutations)) by lia.
Qed.

(** C13: a round of fuzzing never leaves a mutation behind: whatever the executions
    bring, whatever the mutators draw and wherever the round stops (timeouts, stop
    requests, failed synchronisation, fatal errors), [fuzz_candidates] returns, all
    masks are the ones before the round, and source and sink only ran with caches that
    differ from the original one in the mask of one candidate (and in [Disable] flags). *)
Theorem round_restores_masks n ids executes ticks fuel mutations timeout skip worker_stats l :
  ready n ids executes ticks fuel mutations worker_stats l ->
  exists res l' runs,
    fuzz_candidates (Runner0 := Worker_runner executes) ticks fuel mutations timeout skip worker_stats l = Ret (res, l') /\
    Forall2 flag_eq (lp_entries l) (lp_entries l') /\
    lp_runs l' = lp_runs l ++ runs /\
    Forall (fun es => exists i e buf, i ∈ mutations.*1 /\ lp_entries l !! i = Some e /\ length buf = Entry_msk_len e /\
              Forall2 flag_eq (alter (fun e => Entry_with_msk e buf) i (lp_entries l)) es) runs.
Proof.
  intros Hr. destruct (ready_spec _ _ _ _ _ _ timeout skip _ _ Hr) as (res & l' & runs & E & []).
  by exists res, l', runs.
Qed.

(** C24: a round makes at most as many executions as its mutators announce, and adds
    exactly the executions it made to the statistics of the worker; none of the
    counters and none of the estimates computed on the way over- or underflows. *)
Theorem round_executions_bounded n ids executes ticks fuel mutations timeout skip worker_stats l :
  ready n ids executes ticks fuel mutations worker_stats l ->
  exists res l', fuzz_candidates (Runner0 := Worker_runner executes) ticks fuel mutations timeout skip worker_stats l = Ret (res, l') /\
    let made := (length (lp_runs l') - length (lp_runs l))%nat in
    (length (lp_runs l) <= length (lp_runs l'))%nat /\ (made <= total_steps (lp_entries l) mutations)%nat /\
    forall stats', res = Ok stats' -> execs stats' = execs worker_stats + Z.of_nat made.
Proof.
  intros Hr. destruct (ready_spec _ _ _ _ _ _ timeout skip _ _ Hr) as (res & l' & runs & E & [_ Hl Hle _ Hst _ _]).
  exists res, l'. split; [exact E|]. cbv zeta. rewrite Hl, length_app. replace (_ + _ - _)%nat with (length runs) by lia.
  split; [lia|]. split; [lia|exact Hst].
Qed.

(** A mutator that yields nothing when it is first asked. *)
Lemma silent_loop {W} `{!Runner W} ticks fuel r b e b' buf' (l : Loop (W := W)) :
  lp_entries l !! rd_target r = Some e ->
  Box_next (tk_draws (ticks (lp_tick l))) b (Entry_get_msk_as_slice e) = Ret (false, b', buf') ->
  mutator_loop ticks fuel r b l = Panic \/
  exists l', mutator_loop ticks fuel r b l = Ret (Ok Exhausted, l') /\ lp_stats l' = lp_stats l.
Proof.
  intros He Hn. destruct fuel as [|fuel]; [by left|]. cbn [mutator_loop].
  unfold mbind, eff_bind, tick, entry_at, lift_outcome, set_msk, change_entry, update. cbn [lp_entries]. rewrite He, Hn.
  cbn [fst snd]. unfold finally, after, drop_box, mbind, eff_bind, entry_at, lift_outcome, set_msk, change_entry, update, mret, eff_ret, of_result.
  repeat case_match; simplify_eq; eauto.
Qed.

Lemma no_executions_panic {W} `{!Runner W} ticks r (l : Loop (W := W)) :
  rd_sync_needed r = false -> rd_start_execs r = execs (lp_stats l) -> finish_mutator ticks r l = Panic.
Proof.
  intros Hs He. unfold finish_mutator, disable_target, sync_if_needed. rewrite Hs, He.
  unfold mbind, eff_bind, mret, eff_ret, get, lift_outcome, change_entry, update, report_pending, assert_that.
  destruct (rd_one_shot r); cbn -[checked_sub finialize]; repeat case_match; simplify_eq; try done.
  all: unfold checked_sub in *; repeat case_decide; simplify_eq; rewrite Z.sub_diag in *; done.
Qed.

Lemma start_without_sync {W} `{!Runner W} ticks q i start_paths start_successful mce_start_ts b e (l : Loop (W := W)) :
  lp_entries l !! i = Some e -> Box_needs_sync b = false ->
  start_mutator ticks q i start_paths start_successful mce_start_ts b l = Panic \/
  exists r l1 e1, start_mutator ticks q i start_paths start_successful mce_start_ts b l = Ret (Ok r, l1) /\
    rd_target r = i /\ rd_sync_needed r = false /\ rd_start_execs r = execs (lp_stats l1) /\ lp_tick l1 = lp_tick l /\
    lp_entries l1 !! i = Some e1 /\ Entry_get_msk_as_slice e1 = Entry_get_msk_as_slice e.
Proof.
  intros He Hs. unfold start_mutator, sync_if_needed, mbind, eff_bind, entry_at, update, get, lift_outcome. rewrite He.
  destruct (state_phase _) as [ph|]; [right|by left]. cbn [rd_one_shot rd_sync_needed]. rewrite Hs.
  destruct (Box_one_shot b); [eexists _, _, (Entry_enable e)|eexists _, _, e]; (split; [reflexivity|]); split_and!; try done.
  cbn. by rewrite list_lookup_alter_eq, He.
Qed.

(** A mutator that yields nothing brings the worker down: when the first
    [next] returns [None] (as a [WithTimeout] does if its time is over by then), the
    round ends in a panic, because the time spent is divided by the number of
    executions. *)
Theorem silent_mutator_panics {W} `{!Runner W} ticks q i start_paths start_successful mce_start_ts b e d b' buf' (l : Loop (W := W)) :
  lp_entries l !! i = Some e -> Box_needs_sync b = false -> tk_draws (ticks (lp_tick l)) = d ->
  Box_next d b (Entry_get_msk_as_slice e) = Ret (false, b', buf') ->
  run_round ticks q i start_paths start_successful mce_start_ts b l = Panic.
Proof.
  intros He Hs <- Hn. unfold run_round, mbind, eff_bind, on_error, after.
  destruct (start_without_sync ticks q i start_paths start_successful mce_start_ts b e l He Hs)
    as [->|(r & l1 & e1 & -> & Ei & Hs1 & Hx & Et & He1 & Em)]; [done|]. unfold mret, eff_ret.
  destruct (silent_loop ticks (rq_fuel q) r b e1 b' buf' l1) as [->|(l2 & -> & Est)];
    [by rewrite Ei|by rewrite Et, Em|done|]. rewrite no_executions_panic; [done|done|by rewrite Est].
Qed.
End rounds.

(** ** Witnesses *)

#[local] Existing Instance demo_stackmap.
#[local] Existing Instance demo_layout.
#[local] Existing Instance demo_content_layout.

Definition demo_draws : Draws := mk_draws (fun _ => 0%nat) (fun _ => 7) 0 0 0.
Lemma demo_loop_draws_ok : draws_ok demo_draws.
Proof. split; cbn; [lia|done]. Qed.
Definition demo_ticks (t : nat) : Tick := mk_tick demo_draws (Z.of_nat t * 10 ^ 9) false true.

(** The sink finds nothing. *)
Definition demo_executes (t : nat) (st : FuzzerState) (es : list MutationCacheEntry) (s : Shared) : Execution * Env :=
  (Executed (Sink_Terminated 0) (demo_map 1), mk_env 9 CalibrationFailed Panic).

Definition demo_world : Worker * Shared :=
  (demo_worker, mk_shared (demo_map 255) (demo_map 255) (Queue_new 0) (mk_qstate 1 ∅ [stats_new])
     (mk_cerebrum [] {[ 7 := PatchPointStatsEntry_default ]} ∅)).

Definition demo_loop : Loop (W := Worker * Shared) :=
  mk_loop [demo_entry 7 [1; 2]] (set_phase (set_entry FuzzerState_default demo_qe) Discovery) counter_new demo_world 0 false
    None 0 [].

Definition demo_flips : BoxMutator := Box_new (FlipBit_new [1; 2]).

Lemma demo_ready : ready 64 {[ 7 ]} demo_executes demo_ticks 17 [(0%nat, [demo_flips])] counter_new demo_loop.
Proof.
  split.
  - intros t st es s _. split; [done|]. by apply demo_map_size.
  - intros t. apply demo_loop_draws_ok.
  - constructor; [|constructor]. exists (demo_entry 7 [1; 2]). split; [done|]. split; [apply demo_entry_wf; [done|cbn; lia]|].
    split; [set_solver|]. constructor; [|constructor]. destruct (FlipBit_new_box demo_draws [1; 2]) as [Hf Hy]; [done|].
    split; [exact Hf|intros t; exact Hy|vm_compute; lia].
  - by exists demo_qe.
  - done.
  - split; by apply demo_map_size.
  - intros id Hid. apply elem_of_singleton in Hid as ->. eexists. split; [apply lookup_singleton_eq|]. split; vm_compute; intuition congruence.
  - repeat constructor; vm_compute; congruence.
Qed.

Lemma round_restores_masks_witness :
  exists res l', fuzz_candidates (Runner0 := Worker_runner demo_executes) demo_ticks 17 [(0%nat, [demo_flips])] None false
                   counter_new demo_loop = Ret (res, l') /\
    Forall2 flag_eq [demo_entry 7 [1; 2]] (lp_entries l').
Proof.
  destruct (round_restores_masks 64 {[ 7 ]} demo_executes demo_ticks 17 [(0%nat, [demo_flips])] None false counter_new demo_loop)
    as (res & l' & runs & E & Hr & _).
  - exact demo_ready.
  - exists res, l'. split; [exact E|exact Hr].
Defined.

Lemma round_executions_bounded_witness :
  exists res l', fuzz_candidates (Runner0 := Worker_runner demo_executes) demo_ticks 17 [(0%nat, [demo_flips])] None false
                   counter_new demo_loop = Ret (res, l') /\ (length (lp_runs l') - 0 <= 16)%nat.
Proof.
  destruct (round_executions_bounded 64 {[ 7 ]} demo_executes demo_ticks 17 [(0%nat, [demo_flips])] None false counter_new demo_loop)
    as (res & l' & E & _ & Hle & _).
  - exact demo_ready.
  - exists res, l'. split; [exact E|]. cbn [demo_loop lp_runs length] in Hle. exact Hle.
Defined.

(** A timeout of zero that is over when the mutator is first asked. *)
Definition demo_late : Draws := mk_draws (fun _ => 0%nat) (fun _ => 7) 0 5 9.
Definition demo_late_box : BoxMutator := Box_new (WithTimeout_new (FlipBit_new [1; 2]) 0).
