(* ===== verification/Phases.v ===== *)
(** * The phases of fuzzing

    Models [scheduler/src/fuzzer/worker_impl/phases]: [discovery.rs], [mutate.rs], [add.rs],
    [combine.rs] and [mod.rs], up to the call of [fuzz_candidates]: which entries the
    mutation cache holds in each phase and which mutators are applied to them, with the
    configuration of the phases from [config.rs].  A reference to an entry is its
    position in the cache.  Arithmetic on [f64] is that of [SpecFloat]. *)

From Stdlib Require Import SpecFloat.
From S2P Require Import Prelude Bytes Rng FiniteIntegerSet Bitmap Mutators Messages Trace MutationCacheEntry MutationCacheContent MutationCache MutationSite MutationCacheOps Queue EventCounter Cerebrum Scheduling MutatorSteps.

(** ** Configuration *)

Definition secs (n : Z) : Z := n * 10 ^ 9.

Record DiscoveryPhaseConfig := mk_discovery_config {
  dc_enabled : bool;
  dc_batch_size : Z;
  dc_terminate_when_finished : bool;
  dc_batch_cov_timeout : Z;
  dc_phase_cov_timeout : Z;
}.
Definition DiscoveryPhaseConfig_default : DiscoveryPhaseConfig :=
  mk_discovery_config true 50 false (secs (60 * 10)) (secs (60 * 20)).

Record MutatePhaseConfig := mk_mutate_config { mc_weight : Z; mc_entry_cov_timeout : Z }.
Definition MutatePhaseConfig_default : MutatePhaseConfig := mk_mutate_config 40 (secs (60 * 15)).

Record AddPhaseConfig := mk_add_config {
  ac_weight : Z;
  ac_batch_size : Z;
  ac_select_unfuzzed_weight : Z;
  ac_select_yielding_weight : Z;
  ac_select_random_weight : Z;
  ac_entry_cov_timeout : Z;
}.
Definition AddPhaseConfig_default : AddPhaseConfig := mk_add_config 3 12 1 1 1 (secs (60 * 15)).

Definition weights_sum (c : AddPhaseConfig) : outcome Z :=
  ret ← checked_add 32 0 (ac_select_unfuzzed_weight c);
  ret ← checked_add 32 ret (ac_select_yielding_weight c);
  ret ← checked_add 32 ret (ac_select_random_weight c);
  _ ← assert_that (0 <? ret);
  mret ret.

Record CombinePhaseConfig := mk_combine_config { cc_weight : Z; cc_entry_cov_timeout : Z }.
Definition CombinePhaseConfig_default : CombinePhaseConfig := mk_combine_config 10 (secs (60 * 10)).

Record PhasesConfig := mk_phases_config {
  pc_generation_ceiling : option Z;
  pc_discovery : DiscoveryPhaseConfig;
  pc_mutate : MutatePhaseConfig;
  pc_add : AddPhaseConfig;
  pc_combine : CombinePhaseConfig;
}.
Definition PhasesConfig_default : PhasesConfig :=
  mk_phases_config None DiscoveryPhaseConfig_default MutatePhaseConfig_default AddPhaseConfig_default CombinePhaseConfig_default.

(** ** [f64] arithmetic *)

Definition f64_of_Z (z : Z) : spec_float := binary_normalize 53 1024 z 0 false.
Definition f64_div : spec_float -> spec_float -> spec_float := SFdiv 53 1024.
Definition f64_mul : spec_float -> spec_float -> spec_float := SFmul 53 1024.
(** [as u32] truncates and saturates; NaN is zero. *)
Definition f64_as_u32 (f : spec_float) : Z :=
  match f with
  | S754_finite false m e =>
      Z.min (2 ^ 32 - 1) (if 0 <=? e then Zpos m * 2 ^ e else Zpos m / 2 ^ (- e))
  | S754_infinity false => 2 ^ 32 - 1
  | _ => 0
  end.

Section phases.
Context `{L : EntryLayout} `{CL : ContentLayout} `{R : Rng}.
(** [DEBUG_CHECKS_ENABLED] and the result of [MutationCache::new] *)
Context (debug_checks : bool) (new_cache : outcome MutationCache).

(** ** Mutators *)

Definition inject_debug_mutator (mutators : list BoxMutator) : list BoxMutator :=
  if debug_checks then mutators ++ [Box_new (Nop_new 1)] else mutators.

(** [mutators.push(Box::new(m)); inject_debug_mutator(&mut mutators)] *)
Definition push_mutator {M} `{!Mutator M} (m : M) (mutators : list BoxMutator) : list BoxMutator :=
  inject_debug_mutator (mutators ++ [Box_new m]).
Definition push_some {M} `{!Mutator M} (m : option M) (mutators : list BoxMutator) : list BoxMutator :=
  match m with Some m => push_mutator m mutators | None => mutators end.

Definition discovery_mutators (seed : nat) (msk : list Z) : list BoxMutator :=
  let mutators := push_mutator FlipOnce_new [] in
  let mutators := push_some ((fun m => WithTimeout_new m (secs 60)) <$> RandomByte_new 1 msk (length msk * 1)) mutators in
  rng_shuffle seed mutators.

Definition iterations (msk_len : nat) : nat :=
  (if msk_len <=? 32 then 32 * msk_len else if msk_len <=? 128 then 16 * msk_len else 16 * 128)%nat.

(** A mutator that is applied once per queue entry. *)
Definition push_once {M} `{!Mutator M} (m : M) (mutators : list BoxMutator) (s : QueueEntryStats)
    : list BoxMutator * QueueEntryStats :=
  let r := mark_mutator_done s (mutator_type m) in
  (if r.1 then push_mutator m mutators else mutators, r.2).

Definition mutate_mutators (seed : nat) (msk : list Z) (s : QueueEntryStats) : list BoxMutator * QueueEntryStats :=
  let its := iterations (length msk) in
  let '(mutators, s) := if (length msk <=? 4)%nat then push_once U8Counter_new [] s else ([], s) in
  let mutators := push_mutator (Havoc_new msk 16 its) mutators in
  let mutators := push_some (RandomByte_new 1 msk its) mutators in
  let mutators := push_some (RandomByte_new 4 msk its) mutators in
  let '(mutators, s) := push_once (FlipBit_new msk) mutators s in
  (rng_shuffle seed mutators, s).

Definition add_mutators (seed : nat) (msk : list Z) : list BoxMutator :=
  let mutators := push_mutator FlipOnce_new [] in
  let mutators := push_some (RandomByte_new 1 msk (iterations (length msk))) mutators in
  rng_shuffle seed mutators.

(** ** Which entry gets which mutators *)

Definition msk_at (es : list MutationCacheEntry) (i : nat) : list Z :=
  match es !! i with Some e => Entry_get_msk_as_slice e | None => [] end.

(** The generator advances from candidate to candidate. *)
Definition discovery_mutations (seed : nat) (es : list MutationCacheEntry) : list (nat * list BoxMutator) :=
  imap (fun k i => (i, discovery_mutators (seed + S k) (msk_at es i))) (rng_shuffle seed (seq 0 (length es))).

Fixpoint mutate_loop (seed : nat) (es : list MutationCacheEntry) (candidates : list nat) (s : QueueEntryStats)
    : list (nat * list BoxMutator) * QueueEntryStats :=
  match candidates with
  | [] => ([], s)
  | i :: candidates =>
      let '(mutators, s) := mutate_mutators seed (msk_at es i) s in
      let '(rest, s) := mutate_loop (S seed) es candidates s in
      ((i, mutators) :: rest, s)
  end.
Definition mutate_mutations (seed : nat) (es : list MutationCacheEntry) (s : QueueEntryStats) :=
  mutate_loop seed es (seq 0 (length es)) s.

(** [add_phase_prepare_mutations]: entries with a mask are skipped. *)
Definition is_nop_at (es : list MutationCacheEntry) (i : nat) : bool :=
  match es !! i with Some e => Entry_is_nop e | None => true end.
Definition add_phase_prepare_mutations (seed : nat) (es : list MutationCacheEntry) (candidates : list nat)
    : list (nat * list BoxMutator) :=
  imap (fun k i => (i, add_mutators (seed + k) (msk_at es i))) (List.filter (is_nop_at es) candidates).

(** ** The caches *)

(** The sites, fitted to the trace, joined with the entries of the queue entry.  [remove_uncovered]
    and [resize_covered_entries] come before the union in the discovery phase and after it
    in the others. *)
Definition discovery_cache (sites : list MutationSite) (trace : Trace) (entry_mc : MutationCache) : outcome MutationCache :=
  new_mc ← from_patchpoints new_cache sites;
  new_mc ← remove_uncovered new_mc trace;
  new_mc ← resize_covered_entries new_mc trace;
  MutationCache_union_and_replace new_mc entry_mc.

Definition all_covered_cache (sites : list MutationSite) (trace : Trace) (entry_mc : MutationCache) : outcome MutationCache :=
  tmp_mc ← from_patchpoints new_cache sites;
  tmp_mc ← MutationCache_union_and_replace tmp_mc entry_mc;
  tmp_mc ← remove_uncovered tmp_mc trace;
  resize_covered_entries tmp_mc trace.

(** [extract_if]: what satisfies [p] is moved out. *)
Definition extract_if {A} (p : A -> bool) (l : list A) : list A * list A :=
  (List.filter p l, List.filter (fun x => negb (p x)) l).

(** [((weight as f64 / weight_sum) * batch_size) as u32] *)
Definition calc_share (batch_size weight_sum weight : Z) : nat :=
  Z.to_nat (f64_as_u32 (f64_mul (f64_div (f64_of_Z weight) (f64_of_Z weight_sum)) (f64_of_Z batch_size))).

Definition take_ids (ids : gset Z) (covered_ids : gset Z) (seed n : nat) : list nat :=
  take n (hash_iter seed (set_map Z.to_nat (ids ∩ covered_ids))).

Definition id_in (ids : list nat) (e : MutationCacheEntry) : bool := bool_decide (Z.to_nat (Entry_id e) ∈ ids).

(** The entries the add phase works on, from the ones of [all_covered_cache]. *)
Definition add_selection (config : AddPhaseConfig) (seed : nat) (c : Cerebrum) (covered_ids : gset Z)
    (candidates : list MutationCacheEntry) : outcome (list MutationCacheEntry) :=
  let '(selection, candidates) := extract_if (fun e => negb (Entry_is_nop e)) candidates in
  weight_sum ← weights_sum config;
  let share := calc_share (ac_batch_size config) weight_sum in
  unfuzzed ← patch_points_unfuzzed c;
  let selected_ids := take_ids unfuzzed covered_ids seed (share (ac_select_unfuzzed_weight config)) in
  let '(selected, candidates) := extract_if (id_in selected_ids) candidates in
  let selection := selection ++ selected in
  yielded ← patch_points_yielded c;
  let yielding_ids := rng_choose_multiple (S seed) (hash_iter (S seed) (set_map Z.to_nat (yielded ∩ covered_ids)))
                        (share (ac_select_yielding_weight config)) in
  let '(selected, candidates) := extract_if (id_in yielding_ids) candidates in
  let selection := selection ++ selected in
  let elements := rng_choose_multiple (S (S seed)) candidates (share (ac_select_random_weight config)) in
  mret (selection ++ elements).

(** The masks that worked for other queue entries, per patch point; asking for them marks
    them as tried. *)
Fixpoint yielding_loop (c : Cerebrum) (s : QueueEntryStats) (mce_to_msks : gmap Z (list (list Z)))
    (candidates : list MutationCacheEntry) : outcome (gmap Z (list (list Z)) * QueueEntryStats) :=
  match candidates with
  | [] => mret (mce_to_msks, s)
  | e :: candidates =>
      r ← patch_point_yielding_msks c s (Entry_id e);
      let mce_to_msks := if bool_decide (r.1 = []) then mce_to_msks else <[Entry_id e := r.1]> mce_to_msks in
      yielding_loop c r.2 mce_to_msks candidates
  end.

(** The entries of the combine phase: at most 100. *)
Definition combine_selection (mce_to_msks : gmap Z (list (list Z))) (candidates : list MutationCacheEntry)
    : list MutationCacheEntry :=
  take 100 (List.filter (fun e => negb (Entry_is_nop e) || bool_decide (is_Some (mce_to_msks !! Entry_id e))) candidates).

(** The mutators of the combine phase; entries without a mask are disabled until their
    turn. *)
Fixpoint combine_loop (es : list MutationCacheEntry) (mce_to_msks : gmap Z (list (list Z))) (candidates : list nat)
    : outcome (list MutationCacheEntry * list (nat * list BoxMutator)) :=
  match candidates with
  | [] => mret (es, [])
  | i :: candidates =>
      e ← slice_get es i;
      match mce_to_msks !! Entry_id e with
      | Some msks =>
          let mce_to_msks := delete (Entry_id e) mce_to_msks in
          let es := if Entry_is_nop e then alter Entry_disable i es else es in
          let mutators := push_mutator (CombineMutator_new (Entry_get_msk_as_slice e) msks (Entry_is_nop e)) [] in
          rest ← combine_loop es mce_to_msks candidates;
          mret (rest.1, (i, mutators) :: rest.2)
      | None => combine_loop es mce_to_msks candidates
      end
  end.
End phases.
