(* ===== verification/Worker.v ===== *)
(** * A worker

    Models [scheduler/src/fuzzer/worker_impl/main_loop.rs], the tracing and loading of queue
    entries of [worker_impl/common.rs] and the phases of [Phases] with their calls of
    [fuzz_candidates].  The result of [common_trace], the patch points of the generator
    and what executions bring are arguments; clock, stop requests, synchronisation and
    random numbers come from the stream [ticks], whose position also seeds the
    generator. *)

From S2P Require Import Prelude Effects Bytes Rng FiniteIntegerSet Bitmap Mutators Messages Trace MutationCacheEntry MutationCacheContent MutationCache MutationSite MutationCacheOps Queue EventCounter Cerebrum Scheduling RunCommon MutatorSteps FuzzLoop FuzzLoopTheorems FuzzLoopRunner Phases.

(** The errors of a worker: a failed calibration or anything else. *)
Inductive WorkerError := CalibrationError | FatalError.

Section worker.
Context `{L : EntryLayout} `{CL : ContentLayout} `{R : Rng} `{WR : WeightedRng}.
Context (config : PhasesConfig) (debug_checks : bool) (fuel : nat) (ticks : nat -> Tick).
Context (set_order : list QueueEntry -> list QueueEntry) (new_cache : outcome MutationCache).
Context (executes : nat -> FuzzerState -> list MutationCacheEntry -> Shared -> Execution * Env).
(** [source.get_patchpoints()] *)
Context (patch_points : result unit (list MutationSite)).
(** [common_trace] with the mutations that are loaded *)
Context (common_trace : nat -> MutationCache -> QueueEntry -> result WorkerError Trace).
(** seconds since the start of the campaign *)
Context (campaign_age : nat -> Z).

Record FuzzingWorker := mk_fw {
  fw_state : FuzzerState;
  fw_stats : FuzzerEventCounter;
  fw_cache : MutationCache;
  fw_world : Worker * Shared;
  fw_stop_requested : bool;
  (** the shared [RECALCULATION_CTR] *)
  fw_ctr : Z;
  fw_tick : nat;
  fw_runs : list (list MutationCacheEntry);
}.

Definition WM (A : Type) : Type := eff FuzzingWorker WorkerError A.

Definition fw_set_state w st := mk_fw st (fw_stats w) (fw_cache w) (fw_world w) (fw_stop_requested w) (fw_ctr w) (fw_tick w) (fw_runs w).
Definition fw_set_cache w mc := mk_fw (fw_state w) (fw_stats w) mc (fw_world w) (fw_stop_requested w) (fw_ctr w) (fw_tick w) (fw_runs w).
Definition fw_set_stop w b := mk_fw (fw_state w) (fw_stats w) (fw_cache w) (fw_world w) b (fw_ctr w) (fw_tick w) (fw_runs w).
Definition fw_shared w : Shared := (fw_world w).2.
Definition with_qstate (s : Shared) (qs : QState) : Shared :=
  mk_shared (s_virgin_map s) (s_crash_virgin_map s) (s_queue s) qs (s_cerebrum s).
Definition fw_set_qstate w qs :=
  mk_fw (fw_state w) (fw_stats w) (fw_cache w) ((fw_world w).1, with_qstate (fw_shared w) qs) (fw_stop_requested w) (fw_ctr w)
    (fw_tick w) (fw_runs w).

Definition throw {A} (e : WorkerError) : WM A := of_result (Err e).
(** [?] on a result whose error is fatal *)
Definition try_fatal {A} (r : result unit A) : WM A := match r with Ok a => mret a | Err _ => throw FatalError end.

(** The next element of the stream and the position it has. *)
Definition next_tick : WM nat := fun w =>
  Ret (Ok (fw_tick w), mk_fw (fw_state w) (fw_stats w) (fw_cache w) (fw_world w) (fw_stop_requested w) (fw_ctr w) (S (fw_tick w)) (fw_runs w)).

Definition should_stop : WM bool :=
  requested ← get fw_stop_requested;
  if requested : bool then mret true
  else t ← next_tick; _ ← update (fun w => fw_set_stop w (tk_stop (ticks t))); mret (tk_stop (ticks t)).

(** Reading and changing the statistics of a queue entry. *)
Definition read_stats (entry : QueueEntry) : WM QueueEntryStats :=
  qs ← get (fun w => s_qstate (fw_shared w)); lift_outcome (stats_ro qs entry).
Definition write_stats (entry : QueueEntry) (f : QueueEntryStats -> QueueEntryStats) : WM unit := fun w =>
  match stats_rw (s_qstate (fw_shared w)) entry f with
  | Ret qs => Ret (Ok tt, fw_set_qstate w qs)
  | Panic => Panic
  end.

(** [source.mutation_cache_replace(..)?] *)
Definition mutation_cache_replace (other : MutationCache) : WM unit := fun w =>
  match MutationCache_replace_content (fw_cache w) other with
  | Ret (Ok mc) => Ret (Ok tt, fw_set_cache w mc)
  | Ret (Err _) => Ret (Err FatalError, w)
  | Panic => Panic
  end.

(** ** Loading and tracing queue entries *)

Definition load_queue_entry_mutations (entry : QueueEntry) : WM unit :=
  match qe_mutations entry with
  | Some data =>
      new_mc ← lift_outcome new_cache;
      new_mc ← lift_outcome (MutationCache_load_bytes new_mc data);
      mutation_cache_replace new_mc
  | None => update (fun w => fw_set_cache w (MutationCache_clear (fw_cache w)))
  end.

Definition trace_queue_entry (entry : QueueEntry) : WM (option Trace) :=
  s ← read_stats entry;
  match st_trace s with
  | Some trace => mret (Some trace)
  | None =>
      if st_tracing_in_progress s then mret None
      else
        s ← lift_outcome (mark_tracing_in_progress s);
        _ ← write_stats entry (fun _ => s);
        _ ← load_queue_entry_mutations entry;
        mc ← get fw_cache;
        t ← next_tick;
        match common_trace t mc entry with
        | Ok trace => _ ← write_stats entry (fun s => set_trace s trace); mret (Some trace)
        | Err e => throw e
        end
  end.

(** ** Fuzzing *)

(** The entries behind the references of [fuzz_candidates] are written where they are
    stored. *)
Definition store_entries (mc : MutationCache) (es : list MutationCacheEntry) : outcome MutationCache :=
  let c := mc_content mc in
  data ← foldl (fun acc p =>
           data ← acc;
           img ← Entry_image p.2;
           write_at data p.1 img) (mret (cc_data c)) (zip (Content_entries_raw c) es);
  mret (with_content mc (with_cache_data c data)).

Definition do_fuzz (mutations : list (nat * list BoxMutator)) (timeout : option Z) (skip : bool) : WM unit := fun w =>
  let l := mk_loop (MutationCache_entries (fw_cache w)) (fw_state w) counter_new (fw_world w) 0 (fw_stop_requested w) None
             (fw_tick w) (fw_runs w) in
  match fuzz_candidates (Runner0 := Worker_runner executes) ticks fuel mutations timeout skip (fw_stats w) l with
  | Ret (r, l) =>
      match store_entries (fw_cache w) (lp_entries l) with
      | Ret mc =>
          let stats := match r with Ok stats => stats | Err _ => fw_stats w end in
          Ret (match r with Ok _ => Ok tt | Err _ => Err FatalError end,
               mk_fw (lp_state l) stats mc (lp_world l) (lp_stop_requested l) (fw_ctr w) (lp_tick l) (lp_runs l))
      | Panic => Panic
      end
  | Panic => Panic
  end.

(** ** The phases *)

Definition is_discovery_phase_done : WM bool :=
  if negb (dc_enabled (pc_discovery config)) then mret true
  else
    t ← next_tick;
    stats ← get fw_stats;
    mret match time_since_last_new_path_or_crash stats (tk_now (ticks t)) with
         | Some time_passed => dc_phase_cov_timeout (pc_discovery config) <? time_passed
         | None => false
         end.

Definition do_discovery_phase : WM unit :=
  st ← get fw_state;
  _ ← lift_outcome (assert_that (negb (state_is_phase_done st Discovery)));
  entry ← lift_outcome (state_entry st);
  _ ← lift_outcome (assert_that (qe_generation entry =? 0)%nat);
  finished ← is_discovery_phase_done;
  if finished : bool then update (fun w => fw_set_state w (mark_phase_as_done (fw_state w) Discovery))
  else
    _ ← update (fun w => fw_set_state w (set_phase (fw_state w) Discovery));
    s ← read_stats entry;
    trace ← lift_outcome (unwrap (st_trace s));
    t ← next_tick;
    r ← lift_outcome (discovery_allocate t s (Z.to_nat (dc_batch_size (pc_discovery config))));
    _ ← write_stats entry (fun _ => r.2);
    if (FiniteIntegerSet_len r.1 =? 0)%nat then write_stats entry (fun s => mark_phase_done s Discovery)
    else
      pps ← try_fatal patch_points;
      let sites := List.filter (fun e => FiniteIntegerSet_contains r.1 (Z.to_nat (ms_id e))) pps in
      mc ← get fw_cache;
      new_mc ← lift_outcome (discovery_cache new_cache sites trace mc);
      _ ← mutation_cache_replace new_mc;
      mc ← get fw_cache;
      do_fuzz (discovery_mutations debug_checks t (MutationCache_entries mc))
        (Some (dc_batch_cov_timeout (pc_discovery config))) true.

Definition do_mutate_phase : WM unit :=
  _ ← update (fun w => fw_set_state w (set_phase (fw_state w) Mutate));
  st ← get fw_state;
  entry ← lift_outcome (state_entry st);
  mc ← get fw_cache;
  t ← next_tick;
  s ← read_stats entry;
  let r := mutate_mutations debug_checks t (MutationCache_entries mc) s in
  _ ← write_stats entry (fun _ => r.2);
  do_fuzz r.1 (Some (mc_entry_cov_timeout (pc_mutate config))) false.

Definition add_phase_choose_candidates : WM (list nat) :=
  st ← get fw_state;
  entry ← lift_outcome (state_entry st);
  entry_mc ← get fw_cache;
  all_patch_points ← try_fatal patch_points;
  s ← read_stats entry;
  entry_trace ← lift_outcome (unwrap (st_trace s));
  tmp_mc ← lift_outcome (all_covered_cache new_cache all_patch_points entry_trace entry_mc);
  cerebrum ← get (fun w => s_cerebrum (fw_shared w));
  t ← next_tick;
  selection ← lift_outcome (add_selection (pc_add config) t cerebrum (covered entry_trace) (MutationCache_entries tmp_mc));
  new_mc ← lift_outcome (MutationCache_from_iter new_cache selection);
  _ ← mutation_cache_replace new_mc;
  mc ← get fw_cache;
  let es := MutationCache_entries mc in
  mret (rng_shuffle t (List.filter (is_nop_at es) (seq 0 (length es)))).

Definition do_add_phase : WM unit :=
  _ ← update (fun w => fw_set_state w (set_phase (fw_state w) Add));
  candidates ← add_phase_choose_candidates;
  if bool_decide (candidates = []) then mret tt
  else
    t ← next_tick;
    mc ← get fw_cache;
    let mutations := add_phase_prepare_mutations debug_checks t (MutationCache_entries mc) candidates in
    if bool_decide (mutations.*1 = []) then mret tt
    else do_fuzz mutations (Some (mc_entry_cov_timeout (pc_mutate config))) false.

Definition do_combine_phase : WM unit :=
  _ ← update (fun w => fw_set_state w (set_phase (fw_state w) Combine));
  st ← get fw_state;
  entry ← lift_outcome (state_entry st);
  entry_mc ← get fw_cache;
  all_patch_points ← try_fatal patch_points;
  s ← read_stats entry;
  entry_trace ← lift_outcome (unwrap (st_trace s));
  tmp_mc ← lift_outcome (all_covered_cache new_cache all_patch_points entry_trace entry_mc);
  cerebrum ← get (fun w => s_cerebrum (fw_shared w));
  r ← lift_outcome (yielding_loop cerebrum s ∅ (MutationCache_entries tmp_mc));
  _ ← write_stats entry (fun _ => r.2);
  new_mc ← lift_outcome (MutationCache_from_iter new_cache (combine_selection r.1 (MutationCache_entries tmp_mc)));
  _ ← mutation_cache_replace new_mc;
  mc ← get fw_cache;
  t ← next_tick;
  let es := MutationCache_entries mc in
  r ← lift_outcome (combine_loop debug_checks es r.1 (rng_shuffle t (seq 0 (length es))));
  mc ← lift_outcome (store_entries mc r.1);
  _ ← update (fun w => fw_set_cache w mc);
  do_fuzz r.2 (Some (cc_entry_cov_timeout (pc_combine config))) false.

(** ** The main loop *)

Definition get_choices (st : FuzzerState) : list (Z * FuzzingPhase) :=
  (if state_is_phase_done st Add then [] else [(ac_weight (pc_add config), Add)]) ++
  (if state_is_phase_done st Mutate then [] else [(mc_weight (pc_mutate config), Mutate)]) ++
  (if state_is_phase_done st Combine then [] else [(cc_weight (pc_combine config), Combine)]).

Definition make_choice (seed : nat) (choices : list (Z * FuzzingPhase)) : option (Z * FuzzingPhase) :=
  i ← weighted_index seed choices.*1; choices !! i.

Definition do_choosen_phase (choice : option (Z * FuzzingPhase)) : WM unit :=
  match choice with
  | Some (_, Mutate) => do_mutate_phase
  | Some (_, Add) => do_add_phase
  | Some (_, Combine) => do_combine_phase
  | Some _ => panic
  | None => mret tt
  end.

Definition fuzz_selected_entry : WM unit :=
  st ← get fw_state;
  entry ← lift_outcome (state_entry st);
  _ ← load_queue_entry_mutations entry;
  st ← get fw_state;
  if negb (state_is_phase_done st Discovery) then do_discovery_phase
  else
    t ← next_tick;
    do_choosen_phase (make_choice t (get_choices st)).

(** The state of the scheduler is part of the worker. *)
Definition schedule : WM ControlFlow := fun w =>
  let t := fw_tick w in
  match schedule_next set_order new_cache t (dc_terminate_when_finished (pc_discovery config))
          (Z.to_nat <$> pc_generation_ceiling config) (campaign_age t) (fw_ctr w) (s_queue (fw_shared w)) (s_qstate (fw_shared w))
          (fw_state w) with
  | Ret (flow, st, qs, ctr) =>
      Ret (Ok flow, mk_fw st (fw_stats w) (fw_cache w) ((fw_world w).1, with_qstate (fw_shared w) qs) (fw_stop_requested w) ctr
                      (S t) (fw_runs w))
  | Panic => Panic
  end.

(** One iteration of the loop: go on or leave it. *)
Inductive Step := Again | Leave (ret : result WorkerError unit).

Definition iteration : WM Step :=
  next_entry ← schedule;
  match next_entry with
  | Break => mret (Leave (Ok tt))
  | Continue next_entry =>
      stop ← should_stop;
      if stop : bool then mret (Leave (Ok tt))
      else
        after (trace_queue_entry next_entry) (fun traced =>
          match traced with
          | Err CalibrationError => _ ← write_stats next_entry set_blacklisted; mret Again
          | Err e => mret (Leave (Err e))
          | Ok (Some trace) =>
              if bool_decide (exec_cnt trace = ∅) then mret Again
              else
                stop ← should_stop;
                if stop : bool then mret (Leave (Ok tt))
                else
                  _ ← update (fun w => fw_set_state w (set_entry (fw_state w) next_entry));
                  _ ← fuzz_selected_entry;
                  mret Again
          | Ok None => mret Again
          end)
  end.

(** At most [n] iterations of the loop; an error of an iteration leaves the function at
    once. *)
Fixpoint main_loop (n : nat) : WM Step :=
  match n with
  | O => mret Again
  | S n =>
      step ← iteration;
      match step with
      | Again => main_loop n
      | Leave ret => mret (Leave ret)
      end
  end.

(** [fuzzing_main_loop] after the set-up of source and sink: the loop starts in
    discovery. *)
Definition fuzzing_main_loop (n : nat) : WM Step :=
  _ ← update (fun w => fw_set_state w (set_phase (fw_state w) Discovery));
  main_loop n.
End worker.
