(* ===== verification/WorkerTheorems.v ===== *)
(** * Discovery ends

    A worker cannot stay in the discovery phase: every iteration of its main loop that
    leaves discovery unfinished takes sites from the input it picked, or takes the input
    out of discovery.  [remaining] bounds the iterations that are left. *)

From S2P Require Import Prelude Effects Bytes Rng FiniteIntegerSet Bitmap Mutators Messages Trace MutationCacheEntry MutationCacheContent MutationCache MutationSite MutationCacheOps Queue EventCounter Cerebrum Scheduling RunCommon MutatorSteps FuzzLoop FuzzLoopTheorems FuzzLoopRunner Phases Worker.

(** ** What is left to discover *)

(** The iterations an input can take part in: one per site that is pending and one to find
    that there is none. *)
Definition rank (s : QueueEntryStats) : nat :=
  match st_discovery_pending s with
  | Some set => S (FiniteIntegerSet_size set)
  | None => MAX_PATCHPOINT_CNT + 3
  end.

Definition cost (stats : list QueueEntryStats) (e : QueueEntry) : nat :=
  let s := default stats_new (stats !! qe_stats e) in
  if in_discovery e s then rank s else 0.

Definition remaining (entries : list QueueEntry) (stats : list QueueEntryStats) : nat :=
  sum_list (cost stats <$> entries).

(** What a worker leaves in the statistics of an input. *)
Record stats_ok (s : QueueEntryStats) : Prop := {
  sk_trace : forall t, st_trace s = Some t -> exec_cnt t <> ∅;
  sk_traced : st_tracing_in_progress s = true -> st_blacklisted s = true \/ is_Some (st_trace s);
  sk_pending : forall set, st_discovery_pending s = Some set -> exists P, represents MAX_PATCHPOINT_CNT set P;
}.

(** Inputs have statistics of their own. *)
Record entries_ok (entries : list QueueEntry) (stats : list QueueEntryStats) : Prop := {
  en_in : Forall (fun e => qe_stats e < length stats)%nat entries;
  en_distinct : NoDup (qe_stats <$> entries);
  en_stats : Forall stats_ok stats;
}.

Lemma stats_new_ok : stats_ok stats_new.
Proof. by split. Qed.

Lemma rank_positive s : (0 < rank s)%nat.
Proof. unfold rank. destruct (st_discovery_pending s); [apply Nat.lt_0_succ|rewrite Nat.add_comm; apply Nat.lt_0_succ]. Qed.

Lemma rank_bound s : stats_ok s -> (rank s <= MAX_PATCHPOINT_CNT + 3)%nat.
Proof.
  intros [_ _ Hp]. unfold rank. destruct (st_discovery_pending s) as [set|]; [|done].
  destruct (Hp set eq_refl) as (P & Hr). destruct (represents_size _ _ _ Hr). lia.
Qed.

Lemma remaining_bound entries stats :
  entries_ok entries stats ->
  (remaining entries stats <= length (List.filter (fun e => (qe_generation e =? 0)%nat && negb (qe_is_crash e)) entries) * (MAX_PATCHPOINT_CNT + 3))%nat.
Proof.
  intros [Hin _ Hs]. unfold remaining. induction Hin as [|e entries He _ IH]; [done|]. cbn [List.filter fmap list_fmap sum_list_with].
  assert (Hc : (cost stats e <= if (qe_generation e =? 0)%nat && negb (qe_is_crash e) then MAX_PATCHPOINT_CNT + 3 else 0)%nat).
  { unfold cost. destruct (lookup_lt_is_Some_2 _ _ He) as [s Es]. rewrite Es. cbn [default].
    pose proof (rank_bound s (Forall_lookup_1 _ _ _ _ Hs Es)). unfold in_discovery. unfold id in *.
    destruct (qe_generation e =? 0)%nat, (qe_is_crash e); cbn; repeat case_match; lia. }
  change (id (cost stats e)) with (cost stats e). destruct (_ && _); cbn [length]; lia.
Qed.

(** ** Changing the statistics of one input *)

Section change.
Context (entries : list QueueEntry) (stats : list QueueEntryStats) (Hok : entries_ok entries stats).

Lemma cost_other e x y : qe_stats x <> qe_stats e -> cost (<[qe_stats e := y]> stats) x = cost stats x.
Proof using Type. intros Hne. unfold cost. by rewrite list_lookup_insert_ne by done. Qed.

Lemma remaining_change e y :
  e ∈ entries -> (remaining entries (<[qe_stats e := y]> stats) + cost stats e = remaining entries stats + cost (<[qe_stats e := y]> stats) e)%nat.
Proof using Hok.
  intros (l1 & l2 & ->)%list_elem_of_split. unfold remaining. destruct Hok as [_ Hnd _].
  rewrite !fmap_app, !fmap_cons in *. apply NoDup_app in Hnd as (_ & Hd1 & Hnd). apply NoDup_cons in Hnd as [Hd2 _].
  rewrite !sum_list_with_app. cbn [sum_list_with].
  assert (Hl : forall l : list QueueEntry, (forall x, x ∈ l -> qe_stats x <> qe_stats e) -> cost (<[qe_stats e := y]> stats) <$> l = cost stats <$> l).
  { intros l Hl. apply list_fmap_ext. intros i x Hx. apply cost_other, Hl. by eapply list_elem_of_lookup_2. }
  rewrite !Hl; [unfold id; lia| |].
  - intros x Hx E. apply Hd2. rewrite <- E. by apply list_elem_of_fmap_2.
  - intros x Hx E. apply (Hd1 (qe_stats x)); [by apply list_elem_of_fmap_2|]. rewrite E. by left.
Qed.

Lemma entries_ok_change e y : stats_ok y -> entries_ok entries (<[qe_stats e := y]> stats).
Proof using Hok. destruct Hok as [Hin Hnd Hs]. intros Hy. split; [by rewrite length_insert|done|]. by apply Forall_insert. Qed.

Lemma entries_ok_lookup e : e ∈ entries -> exists s, stats !! qe_stats e = Some s /\ stats_ok s.
Proof using Hok.
  destruct Hok as [Hin _ Hs]. intros He. destruct (lookup_lt_is_Some_2 _ _ (proj1 (Forall_forall _ _) Hin e He)) as [s Es].
  exists s. split; [done|]. by apply (Forall_lookup_1 _ _ _ _ Hs Es).
Qed.

(** A change that keeps the input in discovery is measured by its rank. *)
Lemma remaining_less e s y :
  e ∈ entries -> stats !! qe_stats e = Some s -> in_discovery e s = true ->
  (in_discovery e y = true -> rank y < rank s)%nat -> (remaining entries (<[qe_stats e := y]> stats) < remaining entries stats)%nat.
Proof using Hok.
  intros He Es Hd Hr. pose proof (remaining_change e y He) as Hc. unfold cost in Hc.
  rewrite list_lookup_insert_eq, Es in Hc by (by eapply lookup_lt_Some). cbn [default from_option id] in Hc.
  unfold id in Hc. rewrite Hd in Hc.
  pose proof (rank_positive s) as Hpos.
  destruct (in_discovery e y); [specialize (Hr eq_refl)|]; cbn in *; lia.
Qed.
End change.

(** Inputs of later generations are not in discovery. *)
Lemma remaining_snoc entries stats e s :
  entries_ok entries stats -> (0 < qe_generation e)%nat -> qe_stats e = length stats -> stats_ok s ->
  entries_ok (entries ++ [e]) (stats ++ [s]) /\ remaining (entries ++ [e]) (stats ++ [s]) = remaining entries stats.
Proof.
  intros [Hin Hnd Hs] Hg He Hsk. rewrite Forall_forall in Hin. split; [split|].
  - apply Forall_app. rewrite length_app. cbn. split; [|constructor; [lia|constructor]].
    apply Forall_forall. intros x Hx. specialize (Hin x Hx). lia.
  - apply NoDup_fmap_snoc; [done|]. intros x Hx. specialize (Hin x Hx). lia.
  - apply Forall_app. split; [done|]. by constructor.
  - unfold remaining. rewrite fmap_app, sum_list_with_app. cbn [fmap list_fmap sum_list_with].
    assert (Hc : cost (stats ++ [s]) e = 0%nat).
    { unfold cost, in_discovery. rewrite (proj2 (Nat.eqb_neq _ _)) by lia. done. }
    rewrite Hc. unfold id. rewrite !Nat.add_0_r. f_equal. apply list_fmap_ext. intros i x Hx.
    unfold cost. rewrite lookup_app_l by (apply Hin; by eapply list_elem_of_lookup_2). done.
Qed.

(** Allocating sites lowers the rank, unless there are none. *)
Lemma allocate_rank `{R : Rng, !RngLaws R} e seed s n sel y :
  stats_ok s -> (0 < n)%nat -> discovery_allocate seed s n = Ret (sel, y) ->
  stats_ok y /\ in_discovery e y = in_discovery e s /\ (FiniteIntegerSet_len sel <> 0 -> rank y < rank s)%nat.
Proof.
  intros Hok Hn E. unfold discovery_allocate in E. apply outcome_bind_Ret in E as (set & Es & E).
  assert (Hset : exists P, represents MAX_PATCHPOINT_CNT set P /\ (size P < rank s)%nat).
  { unfold pending_set in Es. unfold rank. destruct (st_discovery_pending s) as [set0|] eqn:Ep.
    - injection Es as <-. destruct (sk_pending _ Hok _ Ep) as (P & Hr). exists P. split; [done|].
      destruct (represents_size _ _ _ Hr) as [-> _]. apply Nat.lt_succ_diag_r.
    - apply outcome_bind_Ret in Es as (tr & _ & Es). apply from_iter_Ret in Es. eexists. split; [exact Es|].
      destruct (represents_size _ _ _ Es) as [_ Hle]. lia. }
  destruct Hset as (P & Hr & Hlt). destruct (choose_random_spec seed MAX_PATCHPOINT_CNT set P n Hr) as (sel' & Y & E1 & HY & Hsub & Hsz).
  rewrite E1 in E. cbn [mbind outcome_bind] in E. injection E as -> <-. pose proof (sub_assign_represents _ _ _ _ _ Hr HY) as Hrs.
  split; [|split; [done|]].
  - destruct Hok as [H1 H2 _]. split; [done|done|]. cbn. intros ? [= <-]. by eexists.
  - intros Hne. unfold rank at 1. cbn [st_discovery_pending with_pending]. destruct (represents_size _ _ _ Hrs) as [-> _].
    change (FiniteIntegerSet_len sel) with (FiniteIntegerSet_size sel) in Hne. destruct (represents_size _ _ _ HY) as [Esz _].
    rewrite Esz in Hne. rewrite size_difference by done. pose proof (subseteq_size _ _ Hsub). lia.
Qed.

(** ** Executions *)

Section executions.
Context `{L : EntryLayout} `{CL : ContentLayout}.

(** [QueueEntry::new] gives an input statistics of its own, and [set_parent] puts it
    behind its parent. *)
Definition fresh_entry (s : Shared) (env : Env) : Prop :=
  match env_calibration env with
  | Calibrated entry qs _ =>
      qs_stats qs = qs_stats (s_qstate s) ++ [stats_new] /\ qe_stats entry = length (qs_stats (s_qstate s)) /\
      (0 < qe_generation entry)%nat
  | _ => True
  end.

(** [n] iterations are left. *)
Definition left_over (n : nat) (s : Shared) : Prop :=
  entries_ok (q_entries (s_queue s)) (qs_stats (s_qstate s)) /\ remaining (q_entries (s_queue s)) (qs_stats (s_qstate s)) = n.

Lemma create_left n env st cov w s r w' s' :
  create_new_queue_entry env st cov w s = Ret (r, w', s') -> fresh_entry s env -> left_over n s -> left_over n s'.
Proof.
  unfold create_new_queue_entry, fresh_entry. intros E Hf Hl. apply outcome_bind_Ret in E as (v & _ & E).
  destruct (env_calibration env) as [entry qs maps| |]; [|by injection E as _ _ <-..].
  destruct Hf as (Eqs & He & Hg). apply outcome_bind_Ret in E as (qs' & Eq & E). cbn [Queue_push] in E.
  apply outcome_bind_Ret in E as (c & _ & E). injection E as _ _ <-. destruct Hl as [Hok <-].
  assert (Hs : exists x, qs_stats qs' = qs_stats (s_qstate s) ++ [x] /\ stats_ok x).
  { destruct st; [injection Eq as <-; by exists stats_new|injection Eq as <-; by exists stats_new|].
    exists (mark_favoured_once stats_new). unfold stats_rw, stats_ro in Eq. apply outcome_bind_Ret in Eq as (x & Hx%slice_get_Ret & Eq).
    apply outcome_bind_Ret in Eq as (l & Hl%slice_set_Ret & Eq). injection Eq as <-. destruct Hl as [_ ->]. cbn [qs_stats].
    rewrite Eqs, He in *. rewrite insert_app_r_alt, Nat.sub_diag by done. rewrite lookup_app_r, Nat.sub_diag in Hx by done.
    injection Hx as <-. split; [done|]. by split. }
  destruct Hs as (x & Ex & Hx). unfold left_over. cbn [s_queue s_qstate q_entries]. rewrite Ex.
  apply remaining_snoc; cbn; [done|done|done|done].
Qed.

Lemma do_run_left n env c run w s r c' w' s' :
  do_run env c run w s = Ret (r, c', w', s') -> fresh_entry s env -> left_over n s -> left_over n s'.
Proof.
  assert (Hthen : forall st cov c w s s0 r c' w' s', then_create env st cov c w s = Ret (r, c', w', s') ->
            s_queue s = s_queue s0 -> s_qstate s = s_qstate s0 -> fresh_entry s0 env -> left_over n s0 -> left_over n s').
  { intros st cov c1 w1 s1 s0 r1 c2 w2 s2 E Eq Es Hf Hl. unfold then_create in E. apply outcome_bind_Ret in E as ([[r0 w0] s3] & E0 & E).
    injection E as _ _ _ <-. eapply create_left; [exact E0|..]; unfold fresh_entry, left_over; by rewrite ?Eq, Es. }
  intros E Hf Hl. destruct run as [res cov|e|]; cbn [do_run] in E.
  - unfold handle_run_result in E. destruct res; apply outcome_bind_Ret in E as (c1 & _ & E).
    + unfold handle_run_result_terminated in E. apply outcome_bind_Ret in E as (h & _ & E). destruct (Bitmap_has_new_bit _ _) as [st v].
      destruct (loses_edges _ _); [by injection E as _ _ _ <-|]. destruct st; [by injection E as _ _ _ <-|..].
      all: destruct (Bitmap_has_new_bit _ (s_virgin_map s)) as [st' g]; apply outcome_bind_Ret in E as (v' & _ & E).
      all: destruct st'; [injection E as _ _ _ <-; exact Hl|..]; apply outcome_bind_Ret in E as (c2 & _ & E).
      all: eapply Hthen; [exact E|done..].
    + unfold handle_run_result_signalled in E. apply outcome_bind_Ret in E as ([[nb l] g] & _ & E).
      destruct nb; [injection E as _ _ _ <-; exact Hl|..]; apply outcome_bind_Ret in E as (c2 & _ & E); eapply Hthen; [exact E|done..].
    + by injection E as _ _ _ <-.
  - apply outcome_bind_Ret in E as (c1 & _ & E). by injection E as _ _ _ <-.
  - by injection E as _ _ _ <-.
Qed.

(** A round of fuzzing leaves discovery where it was. *)
Context (executes : nat -> FuzzerState -> list MutationCacheEntry -> Shared -> Execution * Env).
Context (Hfresh : forall t st es s, fresh_entry s (executes t st es s).2).

Lemma fuzz_candidates_left ticks fuel mutations timeout skip stats n st0 :
  preserves (stays (fun ws : Worker * Shared => left_over n ws.2) st0)
    (fuzz_candidates (Runner0 := Worker_runner executes) ticks fuel mutations timeout skip stats).
Proof using Hfresh.
  apply stays_fuzz_candidates.
  - intros t st es c [w s] r c' [w' s'] _ E Hl. cbn [run_once Worker_runner snd] in *.
    apply outcome_bind_Ret in E as (ph & _ & E). apply outcome_bind_Ret in E as (qe & _ & E).
    apply outcome_bind_Ret in E as ([[[r1 c1] w1] s1] & E1 & E). injection E as _ _ _ <-.
    eapply do_run_left; [exact E1|apply Hfresh|exact Hl].
  - intros [w s] cfg [w' s'] E Hl. cbn [report Worker_runner snd] in *. apply outcome_bind_Ret in E as (c & _ & E).
    by injection E as _ <-.
Qed.
End executions.

Lemma to_nat_pos z : 0 < z -> (0 < Z.to_nat z)%nat.
Proof. lia. Qed.

(** ** Iterations *)

#[local] Abbreviation queued w := (q_entries (s_queue (fw_shared w))).
#[local] Abbreviation stats_list w := (qs_stats (s_qstate (fw_shared w))).

Section iterations.
Context `{L : EntryLayout} `{CL : ContentLayout} `{R : Rng, !RngLaws R} `{WR : WeightedRng}.
Context (config : PhasesConfig) (debug_checks : bool) (fuel : nat) (ticks : nat -> Tick).
Context (set_order : list QueueEntry -> list QueueEntry) (new_cache : outcome MutationCache).
Context (executes : nat -> FuzzerState -> list MutationCacheEntry -> Shared -> Execution * Env).
Context (patch_points : result unit (list MutationSite)).
Context (common_trace : nat -> MutationCache -> QueueEntry -> result WorkerError Trace).
Context (campaign_age : nat -> Z).

Definition finished (w : FuzzingWorker) : Prop := Discovery ∈ fs_phases_finished (fw_state w).

(** *** What is finished stays finished *)

Lemma finished_same {A} (m : WM A) : (forall w r w', m w = Ret (r, w') -> fw_state w' = fw_state w) -> preserves finished m.
Proof. intros Hm w r w' E. unfold finished. by rewrite (Hm _ _ _ E). Qed.

Lemma finished_next_tick : preserves finished next_tick.
Proof. by apply finished_same; intros w r w' [= _ <-]. Qed.
#[local] Hint Resolve finished_next_tick : preserves.
#[local] Hint Extern 1 (finished _) => (unfold finished in *; cbn; set_solver) : preserves.

Lemma finished_should_stop : preserves finished (Worker.should_stop ticks).
Proof. unfold Worker.should_stop. keeps. Qed.
Lemma finished_read_stats e : preserves finished (read_stats e).
Proof. unfold read_stats. keeps. Qed.
Lemma finished_write_stats e f : preserves finished (write_stats e f).
Proof. apply finished_same. intros w r w' E. unfold write_stats in E. destruct (stats_rw _ _ _); [|done]. by injection E as _ <-. Qed.
Lemma finished_replace mc : preserves finished (mutation_cache_replace mc).
Proof. apply finished_same. intros w r w' E. unfold mutation_cache_replace in E. by destruct (MutationCache_replace_content _ _) as [[?|?]|]; simplify_eq. Qed.
Lemma finished_try {A} (r : result unit A) : preserves finished (try_fatal r).
Proof. unfold try_fatal, throw. keeps. Qed.
#[local] Hint Resolve finished_should_stop finished_read_stats finished_write_stats finished_replace finished_try : preserves.

Lemma finished_load e : preserves finished (load_queue_entry_mutations new_cache e).
Proof. unfold load_queue_entry_mutations. keeps. Qed.
#[local] Hint Resolve finished_load : preserves.
Lemma finished_trace e : preserves finished (trace_queue_entry new_cache common_trace e).
Proof. unfold trace_queue_entry, throw. keeps. Qed.
#[local] Hint Resolve finished_trace : preserves.

Lemma finished_do_fuzz mutations timeout skip : preserves finished (do_fuzz fuel ticks executes mutations timeout skip).
Proof.
  intros w r w' E Hw. unfold do_fuzz in E. cbn zeta in E.
  destruct (fuzz_candidates _ _ _ _ _ _ _) as [[r1 l1]|] eqn:Ef; [|done].
  destruct (store_entries _ _); [|done]. injection E as _ <-. unfold finished in *. cbn [fw_state].
  eapply (stays_fuzz_candidates (Runner0 := Worker_runner executes) ticks (fun _ => True) (fw_state w)) in Ef as [_ [_ _ ->]]; [done|done|done|].
  by split.
Qed.
#[local] Hint Resolve finished_do_fuzz : preserves.

Lemma finished_discovery : preserves finished (do_discovery_phase config debug_checks fuel ticks new_cache executes patch_points).
Proof. unfold do_discovery_phase, is_discovery_phase_done. keeps. Qed.
Lemma finished_mutate : preserves finished (do_mutate_phase config debug_checks fuel ticks executes).
Proof. unfold do_mutate_phase. keeps. Qed.
Lemma finished_add : preserves finished (do_add_phase config debug_checks fuel ticks new_cache executes patch_points).
Proof. unfold do_add_phase, add_phase_choose_candidates. keeps. Qed.
Lemma finished_combine : preserves finished (do_combine_phase config debug_checks fuel ticks new_cache executes patch_points).
Proof. unfold do_combine_phase. keeps. Qed.
#[local] Hint Resolve finished_discovery finished_mutate finished_add finished_combine : preserves.

Lemma finished_schedule : preserves finished (schedule config set_order new_cache campaign_age).
Proof.
  intros w r w' E Hw. unfold schedule in E. destruct (schedule_next _ _ _ _ _ _ _ _ _ _) as [[[[flow st] qs] ctr]|] eqn:Es; [|done].
  injection E as _ <-. unfold finished in *. cbn [fw_state].
  assert (Hl : forall n seed tw gc el ctr q qs st flow st' qs' ctr',
    schedule_loop set_order new_cache n seed tw gc el ctr q qs st = Ret (flow, st', qs', ctr') ->
    Discovery ∈ fs_phases_finished st -> Discovery ∈ fs_phases_finished st'); [|by eapply Hl; [exact Es|]].
  clear. induction n as [|n IH]; intros seed tw gc el ctr q qs st flow st' qs' ctr' E Hin; [done|]. cbn [schedule_loop] in E.
  apply outcome_bind_Ret in E as (p & _ & E). destruct p.
  1: { apply outcome_bind_Ret in E as (es & _ & E). destruct (bool_decide (es = [])).
       - eapply IH; [exact E|]. cbn. set_solver.
       - apply outcome_bind_Ret in E as (e & _ & E). by injection E as _ <- _ _. }
  5: by injection E as _ <- _ _.
  all: apply outcome_bind_Ret in E as ([[e qs1] ctr1] & _ & E); by injection E as _ <- _ _.
Qed.
#[local] Hint Resolve finished_schedule : preserves.

Lemma finished_iteration :
  preserves finished (iteration config debug_checks fuel ticks set_order new_cache executes patch_points common_trace campaign_age).
Proof. unfold iteration, fuzz_selected_entry, do_choosen_phase. keeps. Qed.

(** *** One input changes *)

Context (Hfresh : forall t st es s, fresh_entry s (executes t st es s).2).
Context (Htrace : forall t mc e trace, common_trace t mc e = Ok trace -> exec_cnt trace <> ∅).
Context (Hbatch : 0 < dc_batch_size (pc_discovery config)).


(** Since [w0], the statistics of [e] became [x]. *)
Record changed (e : QueueEntry) (x : QueueEntryStats) (st : FuzzerState) (w0 w : FuzzingWorker) : Prop := {
  ch_state : fw_state w = st;
  ch_queue : queued w = queued w0;
  ch_stats : stats_list w = <[qe_stats e := x]> (stats_list w0);
}.

Section one_entry.
Context (e : QueueEntry) (w0 : FuzzingWorker) (Hw0 : entries_ok (queued w0) (stats_list w0)) (He : e ∈ queued w0).

Lemma in_bounds : (qe_stats e < length (stats_list w0))%nat.
Proof using Hw0 He. destruct Hw0 as [Hin _ _]. by apply (proj1 (Forall_forall _ _) Hin). Qed.

Lemma changed_ro x st w : changed e x st w0 w -> stats_ro (s_qstate (fw_shared w)) e = Ret x.
Proof using Hw0 He. intros [_ _ E]. apply slice_get_Ret. rewrite E. apply list_lookup_insert_eq, in_bounds. Qed.

Lemma wlp_read x st w Q : changed e x st w0 w -> Q (Ok x) w -> wlp (read_stats e) Q w.
Proof using Hw0 He. intros Hc HQ. unfold read_stats. wlp_steps. apply wlp_lift. intros s. rewrite (changed_ro x st w Hc). by intros [= <-]. Qed.

Lemma wlp_write x st w f Q :
  changed e x st w0 w -> (forall w', changed e (f x) st w0 w' -> Q (Ok tt) w') -> wlp (write_stats e f) Q w.
Proof using Hw0 He.
  intros Hc HQ r w' E. unfold write_stats, stats_rw in E. rewrite (changed_ro x st w Hc) in E. cbn [mbind outcome_bind] in E.
  destruct (slice_set _ _ _) as [l|] eqn:El; [|done]. apply slice_set_Ret in El as [_ ->]. injection E as <- <-. apply HQ.
  destruct Hc as [Es Eq El]. split; [done|done|]. cbn. rewrite El. apply list_insert_insert_eq.
Qed.

(** Steps that touch neither the state nor what is shared. *)
Lemma changed_same {A} (m : WM A) x st :
  (forall w r w', m w = Ret (r, w') -> fw_state w' = fw_state w /\ fw_world w' = fw_world w) -> preserves (changed e x st w0) m.
Proof using Type. intros Hm w r w' E [Es Eq El]. destruct (Hm w r w' E) as [E1 E2]. split; unfold fw_shared in *; congruence. Qed.

Lemma changed_next_tick x st : preserves (changed e x st w0) next_tick.
Proof using Type. apply changed_same. by intros w r w' [= _ <-]. Qed.
Lemma wlp_next_tick x st w Q :
  changed e x st w0 w -> (forall t w', changed e x st w0 w' -> Q (Ok t) w') -> wlp next_tick Q w.
Proof using Type. intros Hc HQ r w' E. pose proof (changed_next_tick _ _ _ _ _ E Hc) as Hc'. injection E as <- <-. by apply HQ. Qed.
Lemma changed_replace x st mc : preserves (changed e x st w0) (mutation_cache_replace mc).
Proof using Type.
  apply changed_same. intros w r w' E. unfold mutation_cache_replace in E.
  by destruct (MutationCache_replace_content _ _) as [[?|?]|]; simplify_eq.
Qed.
#[local] Hint Resolve changed_next_tick changed_replace : preserves.
#[local] Hint Extern 1 (changed _ _ _ _ _) => (match goal with H : changed _ _ _ _ _ |- _ => destruct H; by split end) : preserves.

Lemma changed_should_stop x st : preserves (changed e x st w0) (Worker.should_stop ticks).
Proof using Type. unfold Worker.should_stop. keeps. Qed.
Lemma changed_phase_done x st : preserves (changed e x st w0) (is_discovery_phase_done config ticks).
Proof using Type. unfold is_discovery_phase_done. keeps. Qed.
Lemma changed_load x st qe : preserves (changed e x st w0) (load_queue_entry_mutations new_cache qe).
Proof using Type. unfold load_queue_entry_mutations. keeps. Qed.

(** Loading never reports a failed calibration. *)
Lemma load_fatal qe w r w' : load_queue_entry_mutations new_cache qe w = Ret (r, w') -> r <> Err CalibrationError.
Proof using Type.
  assert (Hw : wlp (load_queue_entry_mutations new_cache qe) (fun r _ => r <> Err CalibrationError) w); [|by apply Hw].
  unfold load_queue_entry_mutations. destruct (qe_mutations qe); wlp_steps; [|done].
  apply wlp_lift. intros mc _. wlp_steps. apply wlp_lift. intros mc' _. intros r1 w1 E. unfold mutation_cache_replace in E.
  by destruct (MutationCache_replace_content _ _) as [[?|?]|]; simplify_eq.
Qed.

(** The input that was picked is traced: it has been before, or now, or it goes on the
    blacklist. *)
Lemma wlp_trace s st w :
  changed e s st w0 w -> stats_ok s -> in_discovery e s = true ->
  wlp (trace_queue_entry new_cache common_trace e) (fun r w' =>
    match r with
    | Ok (Some t) => exec_cnt t <> ∅ /\ exists x, changed e x st w0 w' /\ stats_ok x /\ in_discovery e x = true /\ rank x = rank s
    | Ok None => False
    | Err CalibrationError => exists x, changed e x st w0 w' /\ stats_ok (set_blacklisted x)
    | Err FatalError => True
    end) w.
Proof using Hw0 He Htrace.
  intros Hc Hok Hd. unfold trace_queue_entry. wlp_step. apply (wlp_read s st); [done|]. cbv beta iota.
  destruct (st_trace s) as [t|] eqn:Et.
  { wlp_steps. split; [by apply Hok|]. by exists s. }
  destruct (st_tracing_in_progress s) eqn:Ep.
  { destruct (sk_traced _ Hok Ep) as [Hb|[? Hb]]; [|congruence]. unfold in_discovery in Hd. rewrite Hb in Hd.
    by destruct (qe_generation e =? 0)%nat. }
  wlp_step. apply wlp_lift. intros s1 E1. unfold mark_tracing_in_progress in E1. rewrite Ep in E1. injection E1 as <-.
  wlp_step. eapply wlp_write; [exact Hc|]. clear w Hc. intros w Hc.
  set (s1 := mk_stats _ true _ _ _ _ _ _) in Hc. wlp_step. intros r w1 E.
  pose proof (load_fatal e w r w1 E) as Hr. pose proof (changed_load _ _ e w r w1 E Hc) as Hc1. clear w Hc E.
  destruct r as [[]|[]]; [|done|done]. wlp_steps. eapply wlp_next_tick; [exact Hc1|]. intros t w Hc.
  destruct (common_trace t _ e) as [tr|er] eqn:Er.
  - wlp_steps. eapply wlp_write; [exact Hc|]. intros w2 Hc2. wlp_steps. split; [by eapply Htrace|].
    eexists. split; [exact Hc2|]. split; [|split; [exact Hd|done]]. split; cbn; [intros ? [= <-]; by eapply Htrace|by right|].
    apply Hok.
  - unfold throw. wlp_steps. destruct er; [|done]. exists s1. split; [done|]. split; cbn; [|by left|apply Hok]. by rewrite Et.
Qed.

(** After the phase discovery is finished, or less is left. *)
Definition progress (w : FuzzingWorker) : Prop :=
  finished w \/ (fs_phase (fw_state w) = Some Discovery /\
    exists n, left_over n (fw_shared w) /\ (n < remaining (queued w0) (stats_list w0))%nat).

Lemma changed_progress s x st w :
  changed e x st w0 w -> stats_list w0 !! qe_stats e = Some s -> in_discovery e s = true -> stats_ok x ->
  (in_discovery e x = true -> rank x < rank s)%nat -> fs_phase st = Some Discovery -> progress w.
Proof using Hw0 He.
  intros [Es Eq El] Hs Hd Hx Hr Hp. right. rewrite Es. split; [done|]. eexists. split; [split; [|reflexivity]|].
  - rewrite Eq, El. by apply entries_ok_change.
  - rewrite Eq, El. by eapply remaining_less.
Qed.

Lemma wlp_do_fuzz mutations timeout skip w :
  progress w -> wlp (do_fuzz fuel ticks executes mutations timeout skip) (fun _ => progress) w.
Proof using Hfresh.
  intros [Hw|(Hp & n & Hl & Hlt)] r w' E; [left; by eapply finished_do_fuzz|]. unfold do_fuzz in E. cbn zeta in E.
  destruct (fuzz_candidates _ _ _ _ _ _ _) as [[r1 l1]|] eqn:Ef; [|done]. destruct (store_entries _ _); [|done]. injection E as _ <-.
  eapply (fuzz_candidates_left executes Hfresh _ _ _ _ _ _ n (fw_state w)) in Ef as [Hl' [Hp' _ _]]; [by split|].
  right. cbn [fw_state]. rewrite Hp'. split; [done|]. by exists n.
Qed.

Lemma wlp_discovery s x st w :
  changed e x st w0 w -> stats_list w0 !! qe_stats e = Some s -> in_discovery e s = true -> stats_ok x -> in_discovery e x = true ->
  rank x = rank s -> fs_entry st = Some e ->
  wlp (do_discovery_phase config debug_checks fuel ticks new_cache executes patch_points)
    (fun r w' => r = Ok tt -> progress w') w.
Proof using Hfresh Hw0 He RngLaws0 Hbatch.
  intros Hc Hs Hd Hx Hdx Hrx Hst. unfold do_discovery_phase. wlp_steps. rewrite (ch_state _ _ _ _ _ Hc). apply wlp_lift. intros _ _.
  wlp_steps. apply wlp_lift. unfold state_entry. rewrite Hst. intros ? [= <-]. wlp_steps. apply wlp_lift. intros _ _. wlp_step.
  eapply wlp_mono; [apply wlp_preserves; [apply changed_phase_done|exact Hc]|]. clear w Hc. intros [b|] w Hc; [|done].
  destruct b; [wlp_steps; intros _; left; by apply elem_of_union_l, elem_of_singleton|]. wlp_steps.
  assert (Hc1 : changed e x (set_phase st Discovery) w0 (fw_set_state w (set_phase (fw_state w) Discovery))).
  { destruct Hc as [<- ? ?]. by split. }
  revert Hc1. generalize (fw_set_state w (set_phase (fw_state w) Discovery)). clear w Hc. intros w Hc.
  apply (wlp_read x (set_phase st Discovery)); [done|]. wlp_step. apply wlp_lift. intros tr _. wlp_step.
  eapply wlp_next_tick; [exact Hc|]. clear w Hc. intros t w Hc. wlp_step. apply wlp_lift. intros [sel y] Ea. cbn [fst snd].
  destruct (allocate_rank e t x (Z.to_nat (dc_batch_size (pc_discovery config))) sel y Hx (to_nat_pos _ Hbatch) Ea) as (Hy & Hdy & Hlt). wlp_step.
  eapply wlp_write; [exact Hc|]. clear w Hc. intros w Hc. destruct (Nat.eqb_spec (FiniteIntegerSet_len sel) 0) as [|Hne].
  { eapply wlp_write; [exact Hc|]. intros w1 Hc1 _. eapply changed_progress; [exact Hc1|done|done| | |done].
    - destruct Hy. by split.
    - unfold in_discovery, is_phase_done. cbn. rewrite bool_decide_true by (by apply elem_of_union_l, elem_of_singleton). by rewrite !andb_false_r. }
  assert (Hpr : forall w1, changed e y (set_phase st Discovery) w0 w1 -> progress w1).
  { intros w1 Hc1. eapply changed_progress; [exact Hc1|done|done|done| |done]. intros _. rewrite <- Hrx. by apply Hlt. }
  unfold try_fatal, throw. wlp_step. destruct patch_points as [pps|]; wlp_steps; [|done]. apply wlp_lift. intros mc _. wlp_steps.
  eapply wlp_mono; [apply wlp_preserves; [apply changed_replace|exact Hc]|]. clear w Hc. intros [[]|] w Hc; [|done]. wlp_steps.
  eapply wlp_mono; [by apply wlp_do_fuzz, Hpr|]. done.
Qed.
End one_entry.

(** *** The main loop *)

(** A worker that has not finished discovery is in it. *)
Record discovery_inv (w : FuzzingWorker) : Prop := {
  di_entries : entries_ok (queued w) (stats_list w);
  di_phase : finished w \/ fs_phase (fw_state w) = Some Discovery;
}.

#[local] Abbreviation iterate :=
  (iteration config debug_checks fuel ticks set_order new_cache executes patch_points common_trace campaign_age).
#[local] Abbreviation looping :=
  (main_loop config debug_checks fuel ticks set_order new_cache executes patch_points common_trace campaign_age).

(** In discovery an open input is picked, or the phase is over. *)
Lemma wlp_schedule w :
  discovery_inv w -> ~ finished w ->
  wlp (schedule config set_order new_cache campaign_age) (fun r w' =>
    match r with
    | Ok (Continue e) => finished w' \/ exists s, e ∈ queued w /\ stats_list w !! qe_stats e = Some s /\ in_discovery e s = true /\
        changed e s (fw_state w) w w'
    | _ => True
    end) w.
Proof using RngLaws0.
  intros [[Hin Hnd Hs] [Hf|Hp]] Hn; [done|]. intros r w' E. unfold schedule in E.
  destruct (schedule_next _ _ _ _ _ _ _ _ _ _) as [[[[flow st] qs] ctr]|] eqn:Es; [|done]. injection E as <- <-.
  unfold schedule_next in Es. cbn [schedule_loop] in Es. unfold state_phase in Es. rewrite Hp in Es. cbn [unwrap mbind outcome_bind] in Es.
  unfold discovery_entries in Es. rewrite Queue_entries_rev, filter_stats_Ret in Es; [|by apply Forall_reverse].
  cbn [mbind outcome_bind] in Es. case_bool_decide as Hnil.
  - destruct flow; [|done]. left. unfold finished. cbn [fw_state].
    destruct (dc_terminate_when_finished _); cbn in Es; [by injection Es|].
    apply outcome_bind_Ret in Es as ([[e1 qs1] ctr1] & _ & Es). injection Es as _ <- _ _. by apply elem_of_union_l, elem_of_singleton.
  - destruct (last _) as [e|] eqn:El; [|done]. cbn in Es. injection Es as <- <- <- <-. right.
    apply last_Some_elem_of in El. rewrite rng_shuffle_perm, list_elem_of_In, filter_In, <- list_elem_of_In, elem_of_reverse in El.
    destruct El as [He Hd]. destruct (lookup_lt_is_Some_2 _ _ (proj1 (Forall_forall _ _) Hin e He)) as [s Es].
    exists s. split; [done|]. split; [done|]. unfold stats_of in Hd. rewrite Es in Hd. split; [done|]. split; [done|done|]. cbn.
    by rewrite list_insert_id.
Qed.

Lemma wlp_selected w0 e s x w :
  entries_ok (queued w0) (stats_list w0) -> e ∈ queued w0 -> stats_list w0 !! qe_stats e = Some s -> in_discovery e s = true ->
  changed e x (fw_state w0) w0 w -> stats_ok x -> in_discovery e x = true -> rank x = rank s -> ~ finished w0 ->
  wlp (_ ← update (fun w => fw_set_state w (set_entry (fw_state w) e));
       _ ← fuzz_selected_entry config debug_checks fuel ticks new_cache executes patch_points; mret Again)
    (fun r w' => r = Ok Again -> progress w0 w') w.
Proof using Hfresh RngLaws0 Hbatch.
  intros Hw0 He Hs Hd Hc Hx Hdx Hrx Hn. wlp_steps.
  assert (Hc1 : changed e x (set_entry (fw_state w0) e) w0 (fw_set_state w (set_entry (fw_state w) e))).
  { destruct Hc as [-> ? ?]. by split. }
  revert Hc1. generalize (fw_set_state w (set_entry (fw_state w) e)). clear w Hc. intros w Hc.
  unfold fuzz_selected_entry. wlp_steps. rewrite (ch_state _ _ _ _ _ Hc). apply wlp_lift. intros ? [= <-]. wlp_step.
  eapply wlp_mono; [apply wlp_preserves; [apply changed_load|exact Hc]|]. clear w Hc. intros [[]|] w Hc; [|done]. wlp_steps.
  rewrite (ch_state _ _ _ _ _ Hc). unfold state_is_phase_done at 1. rewrite bool_decide_false by exact Hn. cbn [negb].
  eapply wlp_mono; [by eapply wlp_discovery|]. cbv beta. intros [[]|] w' Hp; [|done]. wlp_steps. intros _. by apply Hp.
Qed.

Lemma again_progress w w' : discovery_inv w -> ~ finished w' -> iterate w = Ret (Ok Again, w') -> progress w w'.
Proof using Hfresh RngLaws0 Hbatch Htrace.
  intros Hinv Hn' E. assert (Hn : ~ finished w) by (intros Hf; apply Hn'; by eapply finished_iteration).
  assert (Hw : wlp iterate (fun r w' => r = Ok Again -> progress w w') w); [|by apply (Hw _ _ E)].
  pose proof (di_entries _ Hinv) as Hok. unfold iteration. wlp_step. eapply wlp_mono; [by apply wlp_schedule|].
  intros [[e|]|] w1 Hs; [|wlp_steps; by intros [=]|done]. destruct Hs as [Hf|(s & He & Hs & Hd & Hc)].
  { eapply wlp_mono; [apply (wlp_preserves finished); [|exact Hf]|intros; by left]. unfold fuzz_selected_entry, do_choosen_phase. keeps. }
  assert (Hsk : stats_ok s) by (destruct Hok as [_ _ Hall]; by apply (Forall_lookup_1 _ _ _ _ Hall Hs)).
  assert (Hstop : forall x k w1, changed e x (fw_state w) w w1 ->
    (forall w2, changed e x (fw_state w) w w2 -> wlp k (fun r w' => r = Ok Again -> progress w w') w2) ->
    wlp (stop ← Worker.should_stop ticks; if stop : bool then mret (Leave (Ok tt)) else k) (fun r w' => r = Ok Again -> progress w w') w1).
  { intros x k w2 Hc2 Hk. wlp_step. eapply wlp_mono; [apply wlp_preserves; [apply changed_should_stop|exact Hc2]|].
    intros [[]|] w3 Hc3; [wlp_steps; by intros [=]|by apply Hk|done]. }
  eapply Hstop; [exact Hc|]. clear w1 Hc. intros w1 Hc. wlp_step. eapply wlp_mono; [by apply (wlp_trace e w Hok He s)|].
  clear w1 Hc. intros [[t|]|[]] w1 Hr; [|done| |wlp_steps; by intros [=]].
  - destruct Hr as (Hne & x & Hc & Hx & Hdx & Hrx). rewrite bool_decide_false by done.
    eapply Hstop; [exact Hc|]. clear w1 Hc. intros w1 Hc. by eapply wlp_selected.
  - destruct Hr as (x & Hc & Hx). wlp_step. eapply wlp_write; [done|done|exact Hc|]. intros w2 Hc2. wlp_steps. intros _.
    eapply changed_progress; [done|done|exact Hc2|done|done|done| |].
    + unfold in_discovery. cbn. by rewrite andb_false_r.
    + by destruct (di_phase _ Hinv).
Qed.

Lemma finished_main_loop k : preserves finished (looping k).
Proof. induction k as [|k IH]; cbn [main_loop]; [keeps|]. apply preserves_bind; [apply finished_iteration|]. intros []; keeps. Qed.

Lemma main_loop_again k w w' :
  looping (S k) w = Ret (Ok Again, w') -> exists w1, iterate w = Ret (Ok Again, w1) /\ looping k w1 = Ret (Ok Again, w').
Proof using Type.
  cbn [main_loop]. unfold mbind, eff_bind. destruct (iterate w) as [[[[|ret]|e] w1]|] eqn:E; intros E'; [|done..]. by exists w1.
Qed.

Lemma progress_inv w w' : progress w w' -> ~ finished w' ->
  discovery_inv w' /\ (remaining (queued w') (stats_list w') < remaining (queued w) (stats_list w))%nat.
Proof using Type.
  intros [Hf|(Hp & n & [Hok <-] & Hlt)] Hn; [done|]. split; [split; [done|by right]|done].
Qed.

Lemma discovery_measure w k w' :
  discovery_inv w -> looping k w = Ret (Ok Again, w') -> (remaining (queued w) (stats_list w) < k)%nat -> finished w'.
Proof using Hfresh RngLaws0 Hbatch Htrace.
  intros Hinv Hk Hlt.
  destruct (decide (Discovery ∈ fs_phases_finished (fw_state w'))) as [|Hn]; [done|]. exfalso.
  assert (Hm : (k <= remaining (queued w) (stats_list w))%nat); [|lia]. clear Hlt.
  revert w Hinv Hk. induction k as [|k IH]; intros w Hinv Hk; [lia|]. apply main_loop_again in Hk as (w1 & E & Hk).
  assert (Hn1 : ~ finished w1) by (intros Hf; apply Hn; by eapply finished_main_loop).
  destruct (progress_inv w w1) as [Hinv1 Hlt]; [by apply again_progress|done|]. specialize (IH w1 Hinv1 Hk). lia.
Qed.
End iterations.

Section discovery.
Context `{L : EntryLayout} `{CL : ContentLayout} `{R : Rng, !RngLaws R} `{WR : WeightedRng}.
Context (config : PhasesConfig) (debug_checks : bool) (fuel : nat) (ticks : nat -> Tick).
Context (set_order : list QueueEntry -> list QueueEntry) (new_cache : outcome MutationCache).
Context (executes : nat -> FuzzerState -> list MutationCacheEntry -> Shared -> Execution * Env).
Context (patch_points : result unit (list MutationSite)).
Context (common_trace : nat -> MutationCache -> QueueEntry -> result WorkerError Trace).
Context (campaign_age : nat -> Z).

(** C20: discovery ends, if no trace is empty.  For a worker on its own, with calibrations that
    deliver fresh entries, tracing runs that return a trace with at least one hit or fail, a
    positive batch size, and a queue of which no input is being traced by another worker and
    none has an empty trace ([entries_ok]): [remaining] is at most [MAX_PATCHPOINT_CNT + 3]
    per seed, and a worker that has done more iterations of its main loop has finished
    discovery, whatever else the executions bring and whatever is found on the way.  An
    iteration that goes on takes pending sites from the input it picked, or takes the input
    out of discovery, or finishes the phase, and inputs that are found are never part of it.
    Without the condition on the traces discovery may never end: [empty_trace_stalls]. *)
Theorem discovery_ends w :
  (forall t st es s, fresh_entry s (executes t st es s).2) ->
  (forall t mc e trace, common_trace t mc e = Ok trace -> exec_cnt trace <> ∅) ->
  0 < dc_batch_size (pc_discovery config) ->
  entries_ok (queued w) (stats_list w) -> finished w \/ fs_phase (fw_state w) = Some Discovery ->
  (remaining (queued w) (stats_list w) <=
     length (List.filter (fun e => (qe_generation e =? 0)%nat && negb (qe_is_crash e)) (queued w)) * (MAX_PATCHPOINT_CNT + 3))%nat /\
  forall k w', main_loop config debug_checks fuel ticks set_order new_cache executes patch_points common_trace campaign_age k w
                 = Ret (Ok Again, w') ->
    (remaining (queued w) (stats_list w) < k)%nat -> finished w'.
Proof.
  intros Hfresh Htrace Hbatch Hok Hphase. split; [by apply remaining_bound|]. intros k w' Hk Hlt.
  by eapply (discovery_measure config debug_checks fuel ticks set_order new_cache executes patch_points common_trace campaign_age).
Qed.
End discovery.

(** ** Inputs without sites *)

Section stall.
Context `{L : EntryLayout} `{CL : ContentLayout} `{R : Rng, !RngLaws R} `{WR : WeightedRng}.
Context (config : PhasesConfig) (debug_checks : bool) (fuel : nat) (ticks : nat -> Tick).
Context (set_order : list QueueEntry -> list QueueEntry) (new_cache : outcome MutationCache).
Context (executes : nat -> FuzzerState -> list MutationCacheEntry -> Shared -> Execution * Env).
Context (patch_points : result unit (list MutationSite)).
Context (common_trace : nat -> MutationCache -> QueueEntry -> result WorkerError Trace).
Context (campaign_age : nat -> Z).

(** The worker is in discovery, and every open input was traced without a hit. *)
Record stalled (w : FuzzingWorker) : Prop := {
  sl_phase : fs_phase (fw_state w) = Some Discovery;
  sl_stop : fw_stop_requested w = false;
  sl_in : Forall (stats_in (s_qstate (fw_shared w))) (q_entries (s_queue (fw_shared w)));
  sl_open : exists e, e ∈ q_entries (s_queue (fw_shared w)) /\ in_discovery e (stats_of (s_qstate (fw_shared w)) e) = true;
  sl_empty : forall e, e ∈ q_entries (s_queue (fw_shared w)) -> in_discovery e (stats_of (s_qstate (fw_shared w)) e) = true ->
    exists t, st_trace (stats_of (s_qstate (fw_shared w)) e) = Some t /\ exec_cnt t = ∅;
}.

Lemma stalled_schedule w :
  stalled w -> exists e t w', schedule config set_order new_cache campaign_age w = Ret (Ok (Continue e), w') /\
    fw_state w' = fw_state w /\ fw_world w' = fw_world w /\ fw_stop_requested w' = false /\
    stats_ro (s_qstate (fw_shared w)) e = Ret (stats_of (s_qstate (fw_shared w)) e) /\
    st_trace (stats_of (s_qstate (fw_shared w)) e) = Some t /\ exec_cnt t = ∅.
Proof using RngLaws0.
  intros [Hp Hst Hin (e0 & He0 & Hd0) Hem]. unfold schedule, schedule_next. cbn [schedule_loop].
  unfold state_phase. rewrite Hp. cbn [unwrap mbind outcome_bind]. unfold discovery_entries.
  rewrite Queue_entries_rev, filter_stats_Ret by (by apply Forall_reverse). cbn [mbind outcome_bind].
  set (open := List.filter _ _). assert (Hopen : forall e, e ∈ open <-> e ∈ q_entries (s_queue (fw_shared w)) /\
    in_discovery e (stats_of (s_qstate (fw_shared w)) e) = true).
  { intros e. unfold open. by rewrite list_elem_of_In, filter_In, <- list_elem_of_In, elem_of_reverse. }
  assert (Hne : open <> []) by (intros Hnil; apply (elem_of_nil e0); rewrite <- Hnil; by apply Hopen).
  rewrite bool_decide_false by done. destruct (last (rng_shuffle _ open)) as [e|] eqn:El.
  2: { apply last_None in El. pose proof (rng_shuffle_perm _ (fw_tick w) open) as Hpm. rewrite El in Hpm.
       by apply Permutation_nil in Hpm. }
  apply last_Some_elem_of in El. rewrite rng_shuffle_perm in El. apply Hopen in El as [He Hd].
  destruct (Hem e He Hd) as (t & Et & Hempty). exists e, t. eexists. split; [reflexivity|]. cbn. split; [done|].
  split; [unfold with_qstate, fw_shared; by destruct (fw_world w) as [? []]|]. split; [done|]. split; [|done].
  apply stats_of_Ret. by apply (proj1 (Forall_forall _ _) Hin e He).
Qed.

Lemma stalled_iteration w :
  (forall i, tk_stop (ticks i) = false) -> stalled w ->
  wp (iteration config debug_checks fuel ticks set_order new_cache executes patch_points common_trace campaign_age)
    (fun r w' => r = Ok Again /\ fw_state w' = fw_state w /\ fw_world w' = fw_world w /\ fw_stop_requested w' = false) w.
Proof using RngLaws0.
  intros Ht Hs. destruct (stalled_schedule w Hs) as (e & t & w1 & E & Est & Ewd & Estop & Ero & Et & Hempty).
  unfold iteration. wp_step. unfold wp at 1. rewrite E. wp_step. unfold Worker.should_stop. wp_steps. rewrite Estop. wp_steps.
  unfold wp at 1. cbn [next_tick]. wp_steps. rewrite Ht. wp_steps. unfold trace_queue_entry, read_stats. wp_steps.
  eapply wp_lift; [unfold fw_shared; cbn; rewrite Ewd; exact Ero|]. cbv beta iota. rewrite Et. wp_steps.
  rewrite bool_decide_true by done. wp_steps. by cbn.
Qed.

(** A seed whose trace is empty keeps its worker busy for ever.  When every open input
    of discovery was traced without a hit, the main loop picks one of them, warns that it
    were blacklisted and goes on, without changing anything: until the worker is stopped,
    no number of iterations ends discovery. *)
Theorem empty_trace_stalls w k :
  (forall i, tk_stop (ticks i) = false) -> stalled w ->
  exists w', main_loop config debug_checks fuel ticks set_order new_cache executes patch_points common_trace campaign_age k w
               = Ret (Ok Again, w') /\
    fw_state w' = fw_state w /\ fw_world w' = fw_world w.
Proof using RngLaws0.
  intros Ht. revert w. induction k as [|k IH]; intros w Hs; [by exists w|]. cbn [main_loop].
  destruct (wp_result _ _ _ (stalled_iteration w Ht Hs)) as (r & w1 & E & -> & Est & Ewd & Estop).
  unfold mbind, eff_bind. rewrite E. destruct (IH w1) as (w' & E' & E1 & E2).
  - destruct Hs. unfold fw_shared in *. split; unfold fw_shared; by rewrite ?Est, ?Ewd.
  - exists w'. split; [exact E'|]. by rewrite E1, E2.
Qed.
End stall.

(** ** Witnesses *)

#[local] Existing Instance demo_stackmap.
#[local] Existing Instance demo_layout.
#[local] Existing Instance demo_layout_laws.
#[local] Existing Instance demo_content_layout.
#[local] Existing Instance demo_records.

(** A seed all sites of which were handed out, and an input found from it. *)
Definition demo_explored : QueueEntryStats := mk_stats (Some demo_trace) true false {[ Discovery ]} None None ∅ None.

Definition demo_fuzzing : FuzzingWorker :=
  mk_fw (set_phase FuzzerState_default Discovery) counter_new demo_mc
    (demo_worker, mk_shared (demo_map 255) (demo_map 255) (mk_queue [demo_qe; set_parent demo_qe2 demo_qe] 0)
       (mk_qstate 2 ∅ [demo_explored; stats_new]) (mk_cerebrum [] {[ 7 := PatchPointStatsEntry_default ]} ∅)) false 0 0 [].

Definition demo_main_loop (k : nat) : WM Step :=
  main_loop PhasesConfig_default false 20 demo_ticks id (Ret demo_mc) demo_executes (Ok []) (fun _ _ _ => Ok demo_trace) (fun _ => 0) k.

Lemma discovery_ends_witness :
  exists w, demo_main_loop 2 demo_fuzzing = Ret (Ok Again, w) /\ finished w.
Proof.
  assert (Hinv : entries_ok (queued demo_fuzzing) (stats_list demo_fuzzing)).
  { split; cbn; [repeat constructor; cbn; lia|by repeat constructor; set_solver|].
    constructor; [|constructor; [apply stats_new_ok|constructor]]. split; cbn; [by intros t [= <-]|eauto|done]. }
  destruct (discovery_ends PhasesConfig_default false 20 demo_ticks id (Ret demo_mc) demo_executes (Ok []) (fun _ _ _ => Ok demo_trace)
    (fun _ => 0) demo_fuzzing (fun _ _ _ _ => I) (fun _ _ _ _ E => ltac:(by injection E as <-)) eq_refl Hinv (or_intror eq_refl)) as [_ Hend].
  destruct (demo_main_loop 2 demo_fuzzing) as [[[[|]|] w]|] eqn:E; try (exfalso; revert E; vm_compute; discriminate).
  exists w. split; [done|]. apply (Hend 2%nat w E). vm_compute. lia.
Defined.

(** A seed that was traced without a hit. *)
Definition demo_stalled : FuzzingWorker :=
  mk_fw (set_phase FuzzerState_default Discovery) counter_new demo_mc
    (demo_worker, mk_shared (demo_map 255) (demo_map 255) (mk_queue [demo_qe] 0)
       (mk_qstate 1 ∅ [mk_stats (Some (mk_trace ∅ ∅)) true false ∅ None None ∅ None]) (mk_cerebrum [] ∅ ∅)) false 0 0 [].
