(* ===== verification/Config.v ===== *)
(** * The configuration

    Models [scheduler/src/config.rs] with the channels of [scheduler/src/io_channels.rs].
    Values of the [yaml-rust] crate are the interface [YamlLib], the file system is [FileSystem]; a conversion of
    the trait [TryFromYaml] is a function that is passed to [get_attribute].  Errors keep
    their kind; texts that are only formatted for the user are left out, and so is the
    context that is attached on the way.  The formats with a regular expression are
    written out as the search for its leftmost match. *)

From Stdlib Require Import Ascii.
From S2P Require Import Prelude Effects Bytes Rng FiniteIntegerSet Bitmap Mutators MutationCacheEntry MutationCacheContent MutationCache Messages Trace Queue EventCounter Cerebrum Scheduling MutatorSteps Phases AuxStream Source.

(** ** Data *)

Inductive InputChannel := In_None | In_Stdin | In_File | In_Tcp | In_Udp.
Inductive OutputChannel := Out_None | Out_Stdout | Out_File | Out_Tcp | Out_Udp.
Inductive TransportType := TCP | UDP.

#[export] Instance InputChannel_eq_dec : EqDecision InputChannel.
Proof. solve_decision. Defined.

(** [std::path::PathBuf] *)
Record PathBuf := path { path_str : string }.
#[export] Instance PathBuf_eq_dec : EqDecision PathBuf.
Proof. solve_decision. Defined.

Definition is_relative (p : PathBuf) : bool := negb (String.prefix "/" (path_str p)).

(** [push] and [join]: an absolute path replaces the old one. *)
Definition ends_with_slash (s : string) : bool :=
  bool_decide (String.substring (String.length s - 1) 1 s = "/"%string).
Definition path_push (p : PathBuf) (s : string) : PathBuf :=
  if String.prefix "/" s then path s
  else if (String.length (path_str p) =? 0)%nat then path s
  else if ends_with_slash (path_str p) then path (path_str p +:+ s)
  else path (path_str p +:+ "/" +:+ s).

Record SourceConfig := mk_source_config {
  so_env : list (string * string);
  so_bin_path : PathBuf;
  so_arguments : list string;
  so_input_type : InputChannel;
  so_output_type : OutputChannel;
  so_output_suffix : option string;
  so_log_stdout : bool;
  so_log_stderr : bool;
  so_is_server : option bool;
  so_server_port : option string;
  so_server_ready_on : option ServerReadySignalKind;
  so_allowed_patch_points : option (list Z);
  so_max_patch_points : option Z;
  so_blocked_patchpoint_instructions : option (list LLVMInstruction);
  so_working_dir : option PathBuf;
}.

Record SinkConfig := mk_sink_config {
  si_bin_path : PathBuf;
  si_arguments : list string;
  si_env : list (string * string);
  si_input_type : InputChannel;
  si_output_type : OutputChannel;
  si_log_stdout : bool;
  si_log_stderr : bool;
  si_allow_unstable_sink : bool;
  si_is_server : option bool;
  si_server_port : option string;
  si_server_ready_on : option ServerReadySignalKind;
  si_working_dir : option PathBuf;
  si_send_sigterm : bool;
}.

Record SinkCovConfig := mk_sink_cov_config {
  sc_bin_path : PathBuf; sc_env : list (string * string); sc_working_dir : option PathBuf;
}.

Record AflNetConfig := mk_aflnet_config {
  an_env : list (string * string);
  an_bin_path : PathBuf;
  an_input_dir : PathBuf;
  an_protocol : string;
  an_netinfo : string;
  an_send_sigterm : bool;
  an_enable_state_aware_mode : bool;
}.

Record SGFuzzConfig := mk_sgfuzz_config {
  sg_bin_path : PathBuf;
  sg_env : list (string * string);
  sg_args : option (list string);
  sg_input_dir : PathBuf;
  sg_netinfo : string;
}.

Record StateAflConfig := mk_stateafl_config {
  sa_bin_path : PathBuf;
  sa_env : list (string * string);
  sa_input_dir : PathBuf;
  sa_protocol : string;
  sa_netinfo : string;
  sa_send_sigterm : bool;
  sa_enable_state_aware_mode : bool;
}.

Record VanillaConfig := mk_vanilla_config {
  va_env : list (string * string); va_bin_path : PathBuf; va_arguments : list string;
}.

Record GeneralConfig := mk_general_config {
  ge_input_dir : PathBuf;
  ge_work_dir : PathBuf;
  ge_tracing_timeout : Z;
  ge_jail_uid : option Z;
  ge_jail_gid : option Z;
  ge_jail_drop_to_sudo_callee : bool;
}.

Record Config := mk_config {
  c_general : GeneralConfig;
  c_source : SourceConfig;
  c_phases : PhasesConfig;
  c_sink : SinkConfig;
  c_sink_cov : option SinkCovConfig;
  c_vanilla : VanillaConfig;
  c_aflnet : option AflNetConfig;
  c_stateafl : option StateAflConfig;
  c_sgfuzz : option SGFuzzConfig;
}.

Inductive ConfigError :=
| InvalidSyntax
| Missingattribute (name : string)
| InvalidValue
| ConvertionFailed (expected_type : string)
| MissingSection (name : string)
| UnexpectedAttribute (name : string)
| OtherError.

(** ** The directories *)

Definition aflnet_workdir (g : GeneralConfig) : PathBuf := path_push (ge_work_dir g) "aflnet-workdir".
Definition interesting_pcaps_path (g : GeneralConfig) : PathBuf := path_push (ge_work_dir g) "interesting-pcaps".
Definition crashing_pcaps_path (g : GeneralConfig) : PathBuf := path_push (ge_work_dir g) "crashing-pcaps".
Definition stateafl_workdir (g : GeneralConfig) : PathBuf := path_push (ge_work_dir g) "stateafl-workdir".
Definition sgfuzz_workdir (g : GeneralConfig) : PathBuf := path_push (ge_work_dir g) "sgfuzz-workdir".
Definition sgfuzz_seed_out_dir (g : GeneralConfig) : PathBuf := path_push (sgfuzz_workdir g) "findings".
Definition sgfuzz_seed_with_ts_out_dir (g : GeneralConfig) : PathBuf := path_push (sgfuzz_workdir g) "findings-ts".
Definition sgfuzz_crash_out_dir (g : GeneralConfig) : PathBuf := path_push (sgfuzz_workdir g) "crashes".
Definition llvm_cov_directory (g : GeneralConfig) : PathBuf := path_push (ge_work_dir g) "llvm-cov".
Definition interesting_path (g : GeneralConfig) : PathBuf := path_push (ge_work_dir g) "interesting".
Definition valgrind_path (g : GeneralConfig) : PathBuf := path_push (ge_work_dir g) "valgrind".
Definition crashing_path (g : GeneralConfig) : PathBuf := path_push (ge_work_dir g) "crashing".
Definition pcap_path (g : GeneralConfig) : PathBuf := path_push (ge_work_dir g) "pcaps".
Definition asan_reports_path (g : GeneralConfig) : PathBuf := path_push (ge_work_dir g) "asan".
Definition queue_path (g : GeneralConfig) : PathBuf := path_push (ge_work_dir g) "queue".
Definition patch_points_path (g : GeneralConfig) : PathBuf := path_push (ge_work_dir g) "0/source/state/patch_points.json".
Definition introspection_path (g : GeneralConfig) : PathBuf := path_push (ge_work_dir g) "introspection.json".

Definition jail_enabled (g : GeneralConfig) : bool := bool_decide (is_Some (ge_jail_uid g)).
Definition jail_uid_gid (g : GeneralConfig) : outcome (option (Z * Z)) :=
  if jail_enabled g then
    uid ← unwrap (ge_jail_uid g);
    gid ← unwrap (ge_jail_gid g);
    mret (Some (uid, gid))
  else mret None.

Definition target_uses_network (c : Config) : bool :=
  match so_input_type (c_source c) with In_Tcp | In_Udp => true | _ => false end.

Definition server_port (c : Config) : outcome (option string) :=
  if default false (so_is_server (c_source c)) then mret (so_server_port (c_source c))
  else if default false (si_is_server (c_sink c)) then mret (si_server_port (c_sink c))
  else Panic.

(** ** Texts *)

(** [to_lowercase]: letters outside ASCII keep their form; none of them becomes a letter of
    the words that are compared. *)
Definition lower_ascii (c : Ascii.ascii) : Ascii.ascii :=
  let n := Ascii.N_of_ascii c in
  if ((65 <=? n) && (n <=? 90))%N then Ascii.ascii_of_N (n + 32) else c.
Fixpoint to_lowercase (s : string) : string :=
  match s with EmptyString => s | String c s => String (lower_ascii c) (to_lowercase s) end.

Definition is_digit (c : Ascii.ascii) : bool :=
  let n := Ascii.N_of_ascii c in ((48 <=? n) && (n <=? 57))%N.
Definition digit (c : Ascii.ascii) : Z := Z.of_N (Ascii.N_of_ascii c) - 48.

(** The longest run of digits at the start. *)
Fixpoint take_digits (s : string) : string * string :=
  match s with
  | String c s' => if is_digit c then let (d, r) := take_digits s' in (String c d, r) else (EmptyString, s)
  | EmptyString => (EmptyString, EmptyString)
  end.

Fixpoint digits_value (acc : Z) (s : string) : Z :=
  match s with EmptyString => acc | String c s => digits_value (acc * 10 + digit c) s end.

(** [<uN>::from_str] on digits: the only error is that the value does not fit. *)
Definition parse_digits (w : Z) (s : string) : option Z :=
  let v := digits_value 0 s in if v <? 2 ^ w then Some v else None.

(** [<uN>::from_str]: digits, after a sign that may be there. *)
Definition parse_uint (w : Z) (s : string) : option Z :=
  let s := match s with String "+"%char s' => s' | _ => s end in
  let (d, rest) := take_digits s in
  match d, rest with
  | String _ _, EmptyString => parse_digits w d
  | _, _ => None
  end.

(** The suffixes of a duration in milliseconds. *)
Definition suffix_factor (c : Ascii.ascii) : option (list Z) :=
  match c with
  | "s" => Some [1000]
  | "m" => Some [1000; 60]
  | "h" => Some [1000; 3600]
  | "d" => Some [1000; 3600; 24]
  | "a" => Some [1000; 3600; 24; 365]
  | _ => None
  end%char.

(** The leftmost match of [([0-9]+)(s|m|h|d|a)]. *)
Fixpoint find_duration (s : string) : option (string * list Z) :=
  match s with
  | EmptyString => None
  | String c s' =>
      if is_digit c then
        let (d, rest) := take_digits s in
        match rest with
        | String u _ => match suffix_factor u with Some f => Some (d, f) | None => find_duration s' end
        | EmptyString => find_duration s'
        end
      else find_duration s'
  end.

Fixpoint mul_all (w v : Z) (fs : list Z) : outcome Z :=
  match fs with [] => mret v | f :: fs => v ← checked_mul w v f; mul_all w v fs end.

(** [FromStrDuration::from_str], in milliseconds. *)
Definition FromStrDuration_from_str (s : string) : outcome (result unit Z) :=
  match find_duration s with
  | None => mret (Err tt)
  | Some (amount, factors) =>
      amount ← unwrap (parse_digits 64 amount);
      millis ← mul_all 64 amount factors;
      mret (Ok millis)
  end.

(** The leftmost match of [bind] or [listen], and the number in parentheses after it, if
    there is one that does not start with a zero. *)
Definition paren_number (s : string) : option string :=
  match s with
  | String "("%char s' =>
      let (d, rest) := take_digits s' in
      match d, rest with
      | String c _, String ")"%char _ => if Ascii.eqb c "0"%char then None else Some d
      | _, _ => None
      end
  | _ => None
  end.
Definition drop_string (n : nat) (s : string) : string := String.substring n (String.length s - n) s.
Fixpoint find_ready (s : string) : option (bool * option string) :=
  if String.prefix "bind" s then Some (true, paren_number (drop_string 4 s))
  else if String.prefix "listen" s then Some (false, paren_number (drop_string 6 s))
  else match s with EmptyString => None | String _ s' => find_ready s' end.

Definition transport_type (netinfo : string) : outcome TransportType :=
  if String.prefix "tcp" (to_lowercase netinfo) then mret TCP
  else if String.prefix "udp" (to_lowercase netinfo) then mret UDP
  else Panic.

(** [split('/').last()] *)
Fixpoint after_last_slash (s : string) : string :=
  match s with
  | EmptyString => EmptyString
  | String c s' =>
      match String.index 0 "/" s with
      | Some _ => after_last_slash s'
      | None => s
      end
  end.
Definition dst_port (c : SGFuzzConfig) : outcome Z := unwrap (parse_uint 16 (after_last_slash (sg_netinfo c))).

(** ** Values of the [yaml-rust] crate *)

Class YamlLib := {
  Yaml : Type;
  as_str : Yaml -> option string;
  as_i64 : Yaml -> option Z;
  as_bool : Yaml -> option bool;
  as_vec : Yaml -> option (list Yaml);
  (** in insertion order *)
  as_hash : Yaml -> option (list (Yaml * Yaml));
  (** [yaml[name]] *)
  yaml_index : Yaml -> string -> Yaml;
  is_badvalue : Yaml -> bool;
  is_null : Yaml -> bool;
  Yaml_Hash : list (Yaml * Yaml) -> Yaml;
  load_from_str : string -> result unit (list Yaml);
}.

Class FileSystem := {
  path_exists : PathBuf -> bool;
  canonicalize : PathBuf -> result unit PathBuf;
}.

Section builder.
Context `{YL : YamlLib} `{FS : FileSystem}.
(** [LLVMInstruction::try_from] of the [llvm_stackmap] crate *)
Context (llvm_instruction : Z -> option LLVMInstruction).
(** the order in which the hash set of keys is visited *)
Context (hash_order : list string -> list string).
Context (base_dir : PathBuf).

Definition CM (A : Type) : Type := eff unit ConfigError A.
Definition fail {A} (e : ConfigError) : CM A := of_result (Err e).
(** [ok_or_else(..)?] *)
Definition ok_or {A} (o : option A) (e : ConfigError) : CM A := match o with Some a => mret a | None => fail e end.

(** ** [TryFromYaml] *)

Definition String_try_from_yaml (yaml : Yaml) : CM string := ok_or (as_str yaml) (ConvertionFailed "String").

(** [ret as u64] wraps. *)
Definition MutationSiteID_try_from_yaml (yaml : Yaml) : CM Z :=
  ret ← ok_or (as_i64 yaml) (ConvertionFailed "i64"); mret (ret mod 2 ^ 64).

Fixpoint convert_all {A B} (f : A -> CM B) (l : list A) : CM (list B) :=
  match l with
  | [] => mret []
  | elem :: l => elem_res ← f elem; ret_new ← convert_all f l; mret (elem_res :: ret_new)
  end.

Definition Vec_try_from_yaml {T} (conv : Yaml -> CM T) (yaml : Yaml) : CM (list T) :=
  ret ← ok_or (as_vec yaml) (ConvertionFailed "Array"); convert_all conv ret.

Definition PathBuf_try_from_yaml (yaml : Yaml) : CM PathBuf :=
  ret ← ok_or (as_str yaml) (ConvertionFailed "PathBuf");
  if is_relative (path ret) then
    match canonicalize (path_push base_dir ret) with Ok p => mret p | Err _ => fail OtherError end
  else mret (path ret).

Definition bool_try_from_yaml (yaml : Yaml) : CM bool := ok_or (as_bool yaml) (ConvertionFailed "bool").

(** [for_int_type!]: [try_into] checks the range. *)
Definition int_try_from_yaml (lo hi : Z) (yaml : Yaml) : CM Z :=
  ret ← ok_or (as_i64 yaml) OtherError;
  if (lo <=? ret) && (ret <=? hi) then mret ret else fail OtherError.
Definition u32_try_from_yaml : Yaml -> CM Z := int_try_from_yaml 0 (2 ^ 32 - 1).
Definition usize_try_from_yaml : Yaml -> CM Z := int_try_from_yaml 0 (2 ^ 64 - 1).
Definition i64_try_from_yaml : Yaml -> CM Z := int_try_from_yaml (- 2 ^ 63) (2 ^ 63 - 1).

Definition InputChannel_try_from_yaml (yaml : Yaml) : CM InputChannel :=
  ret ← String_try_from_yaml yaml;
  let ret := to_lowercase ret in
  if bool_decide (ret = "none") then mret In_None
  else if bool_decide (ret = "stdin") then mret In_Stdin
  else if bool_decide (ret = "file") then mret In_File
  else if bool_decide (ret = "tcp") then mret In_Tcp
  else if bool_decide (ret = "udp") then mret In_Udp
  else fail InvalidValue.

Definition OutputChannel_try_from_yaml (yaml : Yaml) : CM OutputChannel :=
  ret ← String_try_from_yaml yaml;
  let ret := to_lowercase ret in
  if bool_decide (ret = "none") then mret Out_None
  else if bool_decide (ret = "stdout") then mret Out_Stdout
  else if bool_decide (ret = "file") then mret Out_File
  else if bool_decide (ret = "tcp") then mret Out_Tcp
  else if bool_decide (ret = "udp") then mret Out_Udp
  else fail InvalidValue.

Definition ServerReadySignalKind_try_from_yaml (yaml : Yaml) : CM ServerReadySignalKind :=
  ret ← String_try_from_yaml yaml;
  matches ← lift_outcome (unwrap (find_ready (to_lowercase ret)));
  let '(is_bind, number) := matches in
  ctr ← match number with
        | None => mret 0
        | Some number => lift_outcome (unwrap (parse_digits 64 number))
        end;
  mret (if is_bind : bool then Ready_Bind ctr else Ready_Listen ctr).

Definition pair_try_from_yaml (kv : Yaml) : CM (string * string) :=
  kv ← ok_or (as_hash kv) (ConvertionFailed "Hash");
  match kv with
  | [(k, v)] => k ← String_try_from_yaml k; v ← String_try_from_yaml v; mret (k, v)
  | _ => fail InvalidValue
  end.
Definition pairs_try_from_yaml (yaml : Yaml) : CM (list (string * string)) :=
  ret ← ok_or (as_vec yaml) (ConvertionFailed "Array"); convert_all pair_try_from_yaml ret.

(** In nanoseconds, as the other durations. *)
Definition Duration_try_from_yaml (yaml : Yaml) : CM Z :=
  ret ← String_try_from_yaml yaml;
  duration ← lift_outcome (FromStrDuration_from_str ret);
  match duration with Ok millis => mret (millis * 10 ^ 6) | Err _ => fail InvalidValue end.

Definition Option_try_from_yaml {T} (conv : Yaml -> CM T) (yaml : Yaml) : CM (option T) :=
  if is_badvalue yaml || is_null yaml then mret None
  else
    let as_none := match as_str yaml with Some s => bool_decide (to_lowercase s = "none") | None => false end in
    if as_none then mret None else ret ← conv yaml; mret (Some ret).

Definition Hash_try_from_yaml (yaml : Yaml) : CM (list (Yaml * Yaml)) := ok_or (as_hash yaml) InvalidValue.

Definition LLVMInstruction_try_from_yaml (yaml : Yaml) : CM LLVMInstruction :=
  val ← usize_try_from_yaml yaml; ok_or (llvm_instruction val) InvalidValue.

(** ** Attributes and sections *)

Definition get_attribute {T} (conv : Yaml -> CM T) (yaml : Yaml) (attr_name : string) : CM T := conv (yaml_index yaml attr_name).

Definition get_section (yml : Yaml) (name : string) : CM Yaml :=
  section ← get_attribute (Option_try_from_yaml Hash_try_from_yaml) yml name;
  match section with Some s => mret (Yaml_Hash s) | None => fail (MissingSection name) end.

Definition get_optional_section (yml : Yaml) (name : string) : CM (option Yaml) :=
  section ← get_attribute (Option_try_from_yaml Hash_try_from_yaml) yml name;
  mret (Yaml_Hash <$> section).

Definition check_for_unparsed_keys (yaml : Yaml) (expected_keys : list string) : CM unit :=
  h ← lift_outcome (unwrap (as_hash yaml));
  keys ← lift_outcome (mapM (fun kv => unwrap (as_str kv.1)) h);
  match List.find (fun k => negb (bool_decide (k ∈ expected_keys))) (hash_order keys) with
  | Some k => fail (UnexpectedAttribute k)
  | None => mret tt
  end.

Definition attribute_or {T} (conv : Yaml -> CM T) (d : T) (yaml : Yaml) (name : string) : CM T :=
  o ← get_attribute (Option_try_from_yaml conv) yaml name; mret (default d o).

Definition general_keys : list string :=
  ["work-directory"; "input-directory"; "jail-uid"; "jail-gid"; "jail-drop-to-sudo-callee"; "sink"; "sink-cov"; "source"; "afl-net";
   "state-afl"; "sgfuzz"; "vanilla"; "phases"]%string.

Definition parse_general_section (yaml : Yaml) : CM GeneralConfig :=
  work_dir ← get_attribute PathBuf_try_from_yaml yaml "work-directory";
  input_dir ← get_attribute PathBuf_try_from_yaml yaml "input-directory";
  jail_uid ← get_attribute (Option_try_from_yaml u32_try_from_yaml) yaml "jail-uid";
  jail_gid ← get_attribute (Option_try_from_yaml u32_try_from_yaml) yaml "jail-gid";
  drop_to_callee ← get_attribute (Option_try_from_yaml bool_try_from_yaml) yaml "jail-drop-to-sudo-callee";
  _ ← match jail_uid, jail_gid with
      | Some _, Some _ | None, None => mret tt
      | _, _ => fail OtherError
      end;
  _ ← check_for_unparsed_keys yaml general_keys;
  mret (mk_general_config input_dir work_dir (secs 300) jail_uid jail_gid (default true drop_to_callee)).

Definition source_keys : list string :=
  ["env"; "bin-path"; "arguments"; "input-type"; "output-type"; "output-suffix"; "log-stdout"; "log-stderr"; "is-server"; "server-port";
   "server-ready-on"; "allowed-patch-points"; "max-patch-points"; "blocked-patch-point-instructions"; "working-dir"]%string.

Definition parse_source_section (yaml : Yaml) : CM SourceConfig :=
  env ← attribute_or pairs_try_from_yaml [] yaml "env";
  bin_path ← get_attribute PathBuf_try_from_yaml yaml "bin-path";
  arguments ← get_attribute (Vec_try_from_yaml String_try_from_yaml) yaml "arguments";
  input_type ← get_attribute InputChannel_try_from_yaml yaml "input-type";
  output_type ← get_attribute OutputChannel_try_from_yaml yaml "output-type";
  output_suffix ← get_attribute (Option_try_from_yaml String_try_from_yaml) yaml "output-suffix";
  log_stdout ← get_attribute bool_try_from_yaml yaml "log-stdout";
  log_stderr ← get_attribute bool_try_from_yaml yaml "log-stderr";
  is_server ← get_attribute (Option_try_from_yaml bool_try_from_yaml) yaml "is-server";
  port ← get_attribute (Option_try_from_yaml String_try_from_yaml) yaml "server-port";
  server_ready_on ← get_attribute (Option_try_from_yaml ServerReadySignalKind_try_from_yaml) yaml "server-ready-on";
  allowed ← get_attribute (Option_try_from_yaml (Vec_try_from_yaml MutationSiteID_try_from_yaml)) yaml "allowed-patch-points";
  max_patch_points ← get_attribute (Option_try_from_yaml i64_try_from_yaml) yaml "max-patch-points";
  blocked ← get_attribute (Option_try_from_yaml (Vec_try_from_yaml LLVMInstruction_try_from_yaml)) yaml
              "blocked-patch-point-instructions";
  working_dir ← get_attribute (Option_try_from_yaml PathBuf_try_from_yaml) yaml "working-dir";
  _ ← check_for_unparsed_keys yaml source_keys;
  mret (mk_source_config env bin_path arguments input_type output_type output_suffix log_stdout log_stderr is_server port
          server_ready_on allowed max_patch_points blocked working_dir).

Definition discovery_keys : list string :=
  ["enabled"; "batch-size"; "terminate-when-finished"; "batch-cov-timeout"; "phase-cov-timeout"]%string.

Definition parse_discovery_phase_section (section : Yaml) : CM DiscoveryPhaseConfig :=
  enabled ← get_attribute bool_try_from_yaml section "enabled";
  batch_size ← get_attribute u32_try_from_yaml section "batch-size";
  terminate_when_finished ← get_attribute bool_try_from_yaml section "terminate-when-finished";
  batch_cov_timeout ← attribute_or Duration_try_from_yaml (secs (60 * 5)) section "batch-cov-timeout";
  phase_cov_timeout ← attribute_or Duration_try_from_yaml (secs (60 * 10)) section "phase-cov-timeout";
  _ ← check_for_unparsed_keys section discovery_keys;
  mret (mk_discovery_config enabled batch_size terminate_when_finished batch_cov_timeout phase_cov_timeout).

Definition parse_mutate_phase_section (section : Yaml) : CM MutatePhaseConfig :=
  weight ← get_attribute u32_try_from_yaml section "weight";
  entry_cov_timeout ← attribute_or Duration_try_from_yaml (secs (60 * 10)) section "entry-cov-timeout";
  _ ← check_for_unparsed_keys section ["weight"; "entry-cov-timeout"]%string;
  mret (mk_mutate_config weight entry_cov_timeout).

Definition add_keys : list string :=
  ["weight"; "batch-size"; "select-unfuzzed-weight"; "select-yielding-weight"; "select-random-weight"; "entry-cov-timeout"]%string.

Definition parse_add_phase_section (section : Yaml) : CM AddPhaseConfig :=
  weight ← get_attribute u32_try_from_yaml section "weight";
  batch_size ← get_attribute u32_try_from_yaml section "batch-size";
  select_unfuzzed_weight ← get_attribute u32_try_from_yaml section "select-unfuzzed-weight";
  select_yielding_weight ← get_attribute u32_try_from_yaml section "select-yielding-weight";
  select_random_weight ← get_attribute u32_try_from_yaml section "select-random-weight";
  entry_cov_timeout ← attribute_or Duration_try_from_yaml (secs (60 * 10)) section "entry-cov-timeout";
  _ ← check_for_unparsed_keys section add_keys;
  mret (mk_add_config weight batch_size select_unfuzzed_weight select_yielding_weight select_random_weight entry_cov_timeout).

Definition parse_combine_phase_section (section : Yaml) : CM CombinePhaseConfig :=
  weight ← get_attribute u32_try_from_yaml section "weight";
  entry_cov_timeout ← attribute_or Duration_try_from_yaml (secs (60 * 30)) section "entry-cov-timeout";
  _ ← check_for_unparsed_keys section ["weight"; "entry-cov-timeout"]%string;
  mret (mk_combine_config weight entry_cov_timeout).

(** [if let Some(section) = self.get_optional_section(..)? { .. } else { default() }] *)
Definition section_or {T} (parse : Yaml -> CM T) (d : T) (yml : Yaml) (name : string) : CM T :=
  section ← get_optional_section yml name;
  match section with Some section => parse section | None => mret d end.

Definition phases_keys : list string := ["generation-ceiling"; "discovery"; "mutate"; "add"; "combine"]%string.

Definition parse_phases_section (phases_section : Yaml) : CM PhasesConfig :=
  generation_ceiling ← get_attribute (Option_try_from_yaml u32_try_from_yaml) phases_section "generation-ceiling";
  discovery_config ← section_or parse_discovery_phase_section DiscoveryPhaseConfig_default phases_section "discovery";
  mutate_config ← section_or parse_mutate_phase_section MutatePhaseConfig_default phases_section "mutate";
  add_config ← section_or parse_add_phase_section AddPhaseConfig_default phases_section "add";
  combine_config ← section_or parse_combine_phase_section CombinePhaseConfig_default phases_section "combine";
  _ ← check_for_unparsed_keys phases_section phases_keys;
  mret (mk_phases_config generation_ceiling discovery_config mutate_config add_config combine_config).

Definition afl_net_keys : list string :=
  ["bin-path"; "env"; "input-dir"; "netinfo"; "protocol"; "send-sigterm"; "enable-state-aware-mode"]%string.

Definition parse_afl_net_section (yaml : Yaml) : CM AflNetConfig :=
  bin_path ← get_attribute PathBuf_try_from_yaml yaml "bin-path";
  env ← attribute_or pairs_try_from_yaml [] yaml "env";
  input_dir ← get_attribute PathBuf_try_from_yaml yaml "input-dir";
  netinfo ← get_attribute String_try_from_yaml yaml "netinfo";
  protocol ← get_attribute String_try_from_yaml yaml "protocol";
  send_sigterm ← attribute_or bool_try_from_yaml false yaml "send-sigterm";
  enable_state_aware_mode ← attribute_or bool_try_from_yaml true yaml "enable-state-aware-mode";
  _ ← check_for_unparsed_keys yaml afl_net_keys;
  mret (mk_aflnet_config env bin_path input_dir protocol netinfo send_sigterm enable_state_aware_mode).

Definition parse_state_afl_section (yaml : Yaml) : CM StateAflConfig :=
  bin_path ← get_attribute PathBuf_try_from_yaml yaml "bin-path";
  env ← attribute_or pairs_try_from_yaml [] yaml "env";
  input_dir ← get_attribute PathBuf_try_from_yaml yaml "input-dir";
  netinfo ← get_attribute String_try_from_yaml yaml "netinfo";
  protocol ← get_attribute String_try_from_yaml yaml "protocol";
  send_sigterm ← attribute_or bool_try_from_yaml false yaml "send-sigterm";
  enable_state_aware_mode ← attribute_or bool_try_from_yaml true yaml "enable-state-aware-mode";
  _ ← check_for_unparsed_keys yaml afl_net_keys;
  mret (mk_stateafl_config bin_path env input_dir protocol netinfo send_sigterm enable_state_aware_mode).

Definition parse_sgfuzz_section (yaml : Yaml) : CM SGFuzzConfig :=
  bin_path ← get_attribute PathBuf_try_from_yaml yaml "bin-path";
  arguments ← get_attribute (Option_try_from_yaml (Vec_try_from_yaml String_try_from_yaml)) yaml "arguments";
  env ← attribute_or pairs_try_from_yaml [] yaml "env";
  input_dir ← get_attribute PathBuf_try_from_yaml yaml "input-dir";
  netinfo ← get_attribute String_try_from_yaml yaml "netinfo";
  _ ← check_for_unparsed_keys yaml ["bin-path"; "env"; "input-dir"; "netinfo"; "arguments"]%string;
  mret (mk_sgfuzz_config bin_path env arguments input_dir netinfo).

Definition sink_keys : list string :=
  ["env"; "bin-path"; "bin-path-cov"; "arguments"; "input-type"; "output-type"; "log-stdout"; "log-stderr"; "allow-unstable-sink";
   "is-server"; "server-port"; "server-ready-on"; "working-dir"; "send-sigterm"]%string.

Definition parse_sink_section (yaml : Yaml) : CM SinkConfig :=
  env ← attribute_or pairs_try_from_yaml [] yaml "env";
  bin_path ← get_attribute PathBuf_try_from_yaml yaml "bin-path";
  arguments ← get_attribute (Vec_try_from_yaml String_try_from_yaml) yaml "arguments";
  input_type ← get_attribute InputChannel_try_from_yaml yaml "input-type";
  output_type ← get_attribute OutputChannel_try_from_yaml yaml "output-type";
  log_stdout ← get_attribute bool_try_from_yaml yaml "log-stdout";
  log_stderr ← get_attribute bool_try_from_yaml yaml "log-stderr";
  allow_unstable_sink ← attribute_or bool_try_from_yaml true yaml "allow-unstable-sink";
  is_server ← get_attribute (Option_try_from_yaml bool_try_from_yaml) yaml "is-server";
  port ← get_attribute (Option_try_from_yaml String_try_from_yaml) yaml "server-port";
  server_ready_on ← get_attribute (Option_try_from_yaml ServerReadySignalKind_try_from_yaml) yaml "server-ready-on";
  working_dir ← get_attribute (Option_try_from_yaml PathBuf_try_from_yaml) yaml "working-dir";
  send_sigterm ← attribute_or bool_try_from_yaml false yaml "send-sigterm";
  _ ← check_for_unparsed_keys yaml sink_keys;
  mret (mk_sink_config bin_path arguments env input_type output_type log_stdout log_stderr allow_unstable_sink is_server port
          server_ready_on working_dir send_sigterm).

Definition parse_sink_cov_section (yaml : Yaml) : CM SinkCovConfig :=
  env ← attribute_or pairs_try_from_yaml [] yaml "env";
  bin_path ← get_attribute PathBuf_try_from_yaml yaml "bin-path";
  working_dir ← get_attribute (Option_try_from_yaml PathBuf_try_from_yaml) yaml "working-dir";
  _ ← check_for_unparsed_keys yaml ["env"; "bin-path"; "working-dir"]%string;
  mret (mk_sink_cov_config bin_path env working_dir).

Definition parse_vanilla_section (yaml : Yaml) (arguments : list string) : CM VanillaConfig :=
  env ← attribute_or pairs_try_from_yaml [] yaml "env";
  bin_path ← get_attribute PathBuf_try_from_yaml yaml "bin-path";
  _ ← check_for_unparsed_keys yaml ["env"; "bin-path"]%string;
  mret (mk_vanilla_config env bin_path arguments).

(** ** Validation *)

Definition must_exist (p : PathBuf) : CM unit := if path_exists p then mret tt else fail OtherError.

Definition validate (c : Config) : CM unit :=
  _ ← must_exist (ge_input_dir (c_general c));
  _ ← must_exist (so_bin_path (c_source c));
  _ ← must_exist (si_bin_path (c_sink c));
  must_exist (va_bin_path (c_vanilla c)).

(** ** The whole file *)

Definition required {T} (parse : Yaml -> CM T) (yaml : Yaml) (name : string) : CM T :=
  let section := yaml_index yaml name in
  if is_badvalue section then fail (MissingSection name) else parse section.
Definition optional {T} (parse : Yaml -> CM T) (yaml : Yaml) (name : string) : CM (option T) :=
  let section := yaml_index yaml name in
  if is_badvalue section then mret None else ret ← parse section; mret (Some ret).

Definition from_str (config : string) : CM Config :=
  yaml ← match load_from_str config with Ok y => mret y | Err _ => fail InvalidSyntax end;
  yaml ← lift_outcome (slice_get yaml 0);
  general_config ← parse_general_section yaml;
  source_config ← required parse_source_section yaml "source";
  phase_config ← optional parse_phases_section yaml "phases";
  sink_config ← required parse_sink_section yaml "sink";
  sink_cov_config ← optional parse_sink_cov_section yaml "sink-cov";
  aflnet_section ← optional parse_afl_net_section yaml "afl-net";
  stateafl_section ← optional parse_state_afl_section yaml "state-afl";
  sgfuzz_section ← optional parse_sgfuzz_section yaml "sgfuzz";
  vanilla_config ← required (fun s => parse_vanilla_section s (si_arguments sink_config)) yaml "vanilla";
  let config := mk_config general_config source_config (default PhasesConfig_default phase_config) sink_config sink_cov_config
                  vanilla_config aflnet_section stateafl_section sgfuzz_section in
  _ ← validate config;
  mret config.
End builder.
