(* ===== verification/ConfigTheorems.v ===== *)
(** * What a configuration guarantees

    Whatever [from_str] accepts can be used: the values are in the range of their types,
    the files that must exist do, the jail is described by both ids or none, and no section
    has an attribute that its parser does not expect.  Durations are read as they are written. *)

From Stdlib Require Import Ascii.
From stdpp Require Import pretty.
From S2P Require Import Prelude Effects Bytes Rng FiniteIntegerSet Bitmap Mutators MutationCacheEntry MutationCacheContent MutationCache Messages Trace Queue EventCounter Cerebrum Scheduling MutatorSteps Phases AuxStream Source Config.

(** ** Results *)

(** If [m] succeeds, [P] holds of the value. *)
Definition ensures {A} (P : A -> Prop) (m : CM A) : Prop := forall s a s', m s = Ret (Ok a, s') -> P a.

Lemma ensures_bind {A B} (Q : A -> Prop) (P : B -> Prop) (m : CM A) (k : A -> CM B) :
  ensures Q m -> (forall a, Q a -> ensures P (k a)) -> ensures P (m ≫= k).
Proof.
  intros Hm Hk s b s' E. unfold mbind, eff_bind in E. destruct (m s) as [[[a|e] s1]|] eqn:Em; [|done|done].
  eapply Hk; [by eapply Hm|exact E].
Qed.

Lemma ensures_any {A B} (P : B -> Prop) (m : CM A) (k : A -> CM B) : (forall a, ensures P (k a)) -> ensures P (m ≫= k).
Proof. intros Hk. apply (ensures_bind (fun _ => True)); [done|]. intros a _. apply Hk. Qed.

Lemma ensures_ret {A} (P : A -> Prop) (a : A) : P a -> ensures P (mret a : CM A).
Proof. by intros HP s a' s' [= <- _]. Qed.
Lemma ensures_fail {A} (P : A -> Prop) e : ensures P (fail e : CM A).
Proof. by intros s a s'. Qed.
Lemma ensures_lift {A} (P : A -> Prop) (m : outcome A) : (forall a, m = Ret a -> P a) -> ensures P (lift_outcome m : CM A).
Proof. intros HP s a s' E. unfold lift_outcome in E. destruct m; [|done]. injection E as <- _. by apply HP. Qed.

Create HintDb ensures discriminated.
#[export] Hint Resolve ensures_ret ensures_fail : ensures.

(** ** The ranges of the types *)

(** The fields of [u32]. *)
Record phases_ok (c : PhasesConfig) : Prop := {
  po_ceiling : forall z, pc_generation_ceiling c = Some z -> fits 32 z;
  po_discovery : fits 32 (dc_batch_size (pc_discovery c));
  po_mutate : fits 32 (mc_weight (pc_mutate c));
  po_add : Forall (fits 32) [ac_weight (pc_add c); ac_batch_size (pc_add c); ac_select_unfuzzed_weight (pc_add c);
             ac_select_yielding_weight (pc_add c); ac_select_random_weight (pc_add c)];
  po_combine : fits 32 (cc_weight (pc_combine c));
}.

(** Both ids of the jail or none, and each is a [u32]. *)
Definition jail_ok (g : GeneralConfig) : Prop :=
  match ge_jail_uid g, ge_jail_gid g with
  | Some uid, Some gid => fits 32 uid /\ fits 32 gid
  | None, None => True
  | _, _ => False
  end.

Lemma jail_ids g : jail_ok g -> exists ids, jail_uid_gid g = Ret ids.
Proof. unfold jail_ok, jail_uid_gid, jail_enabled. destruct (ge_jail_uid g), (ge_jail_gid g); [by eexists|done..|by eexists]. Qed.

Section sound.
Context `{YL : YamlLib} `{FS : FileSystem}.
Context (hash_order : list string -> list string).
(** Visiting the set visits every key. *)
Hypothesis hash_order_all : forall l k, k ∈ l -> k ∈ hash_order l.
(** A mapping is read as what it was made of. *)
Hypothesis as_hash_Hash : forall h, as_hash (Yaml_Hash h) = Some h.

Lemma u32_range y : ensures (fits 32) (u32_try_from_yaml y).
Proof.
  unfold u32_try_from_yaml, int_try_from_yaml. apply ensures_any. intros z.
  destruct (Z.leb_spec 0 z); [|apply ensures_fail]. destruct (Z.leb_spec z (2 ^ 32 - 1)); [|apply ensures_fail].
  apply ensures_ret. split; [done|]. change (2 ^ 32) with 4294967296 in *. lia.
Qed.

Lemma option_ensures {T} (P : T -> Prop) (conv : Yaml -> CM T) y :
  (forall y, ensures P (conv y)) -> ensures (fun o => forall t, o = Some t -> P t) (Option_try_from_yaml conv y).
Proof.
  intros Hc. unfold Option_try_from_yaml. destruct (is_badvalue y || is_null y); [by apply ensures_ret|].
  destruct (match as_str y with Some s => _ | None => false end); [by apply ensures_ret|].
  apply (ensures_bind P); [apply Hc|]. intros a Ha. apply ensures_ret. by intros t [= <-].
Qed.

Lemma get_u32 y name : ensures (fits 32) (get_attribute u32_try_from_yaml y name).
Proof. apply u32_range. Qed.

(** Every key is one of the expected ones. *)
Definition known_keys (expected : list string) (y : Yaml) : Prop :=
  exists h, as_hash y = Some h /\ Forall (fun kv : Yaml * Yaml => exists k, as_str kv.1 = Some k /\ k ∈ expected) h.

Lemma keys_checked y expected : ensures (fun _ => known_keys expected y) (check_for_unparsed_keys hash_order y expected).
Proof using hash_order_all.
  unfold check_for_unparsed_keys. apply (ensures_bind (fun h => as_hash y = Some h)).
  { apply ensures_lift. intros h. by destruct (as_hash y); intros [= <-]. }
  intros h Hh. apply (ensures_bind (fun ks => mapM (fun kv : Yaml * Yaml => unwrap (as_str kv.1)) h = Ret ks)).
  { by apply ensures_lift. }
  intros ks Hks. destruct (List.find _ (hash_order ks)) as [k|] eqn:Ef; [apply ensures_fail|]. apply ensures_ret. exists h. split; [done|].
  assert (Hall : forall k, k ∈ ks -> k ∈ expected).
  { intros k Hk%hash_order_all%list_elem_of_In. apply (List.find_none _ _ Ef) in Hk. by case_bool_decide. }
  clear Ef Hh. revert ks Hks Hall. induction h as [|kv h IH]; intros ks Hks Hall; [constructor|]. cbn in Hks.
  destruct (as_str kv.1) as [k|] eqn:Ek; [|done]. cbn in Hks. destruct (mapM _ h) as [l|] eqn:El; [|done]. cbn in Hks. injection Hks as <-.
  constructor; [exists k; split; [done|apply Hall; by left]|]. apply (IH l eq_refl). intros k' Hk'. apply Hall. by right.
Qed.

#[local] Hint Resolve get_u32 u32_range keys_checked : ensures.

(** The attributes are checked at the end. *)
Ltac checked := eapply ensures_bind; [by apply keys_checked|]; intros [] Hk; by apply ensures_ret.

(** The last step of a parser. *)
Lemma checked_ret {T} (P : T -> Prop) y expected (c : T) :
  P c -> ensures (fun c => P c /\ known_keys expected y) (_ ← check_for_unparsed_keys hash_order y expected; mret c).
Proof using hash_order_all. intros Hc. eapply ensures_bind; [by apply keys_checked|]. intros [] Hk. by apply ensures_ret. Qed.

Lemma discovery_range y :
  ensures (fun c => fits 32 (dc_batch_size c) /\ known_keys discovery_keys y) (parse_discovery_phase_section hash_order y).
Proof using hash_order_all.
  apply ensures_any. intros ?. apply (ensures_bind (fits 32)); [apply get_u32|]. intros z Hz. do 3 (apply ensures_any; intros ?).
  by apply (checked_ret (fun c => fits 32 (dc_batch_size c))).
Qed.
Lemma mutate_range y :
  ensures (fun c => fits 32 (mc_weight c) /\ known_keys ["weight"; "entry-cov-timeout"]%string y) (parse_mutate_phase_section hash_order y).
Proof using hash_order_all.
  apply (ensures_bind (fits 32)); [apply get_u32|]. intros z Hz. apply ensures_any. intros ?. by apply (checked_ret (fun c => fits 32 (mc_weight c))).
Qed.
Lemma combine_range y :
  ensures (fun c => fits 32 (cc_weight c) /\ known_keys ["weight"; "entry-cov-timeout"]%string y) (parse_combine_phase_section hash_order y).
Proof using hash_order_all.
  apply (ensures_bind (fits 32)); [apply get_u32|]. intros z Hz. apply ensures_any. intros ?. by apply (checked_ret (fun c => fits 32 (cc_weight c))).
Qed.
Definition add_ok (c : AddPhaseConfig) : Prop :=
  Forall (fits 32) [ac_weight c; ac_batch_size c; ac_select_unfuzzed_weight c; ac_select_yielding_weight c; ac_select_random_weight c].
Lemma add_range y : ensures (fun c => add_ok c /\ known_keys add_keys y) (parse_add_phase_section hash_order y).
Proof using hash_order_all.
  unfold parse_add_phase_section. do 5 (apply (ensures_bind (fits 32)); [apply get_u32|]; intros ? ?). apply ensures_any. intros ?.
  apply checked_ret. unfold add_ok. repeat (apply Forall_cons_2; [done|]). apply Forall_nil_2.
Qed.

(** An optional section of the phases may be missing, empty or [none]. *)
Definition section_absent (y : Yaml) : bool :=
  is_badvalue y || is_null y || match as_str y with Some s => bool_decide (to_lowercase s = "none") | None => false end.
Definition section_keys (expected : list string) (y : Yaml) : Prop := section_absent y = true \/ known_keys expected y.

Lemma optional_section_read y name :
  ensures (fun o => match o with
    | None => section_absent (yaml_index y name) = true
    | Some y' => exists h, as_hash (yaml_index y name) = Some h /\ y' = Yaml_Hash h end) (get_optional_section y name).
Proof using Type.
  intros s o s'. unfold get_optional_section, get_attribute, Option_try_from_yaml, Hash_try_from_yaml, section_absent, mbind, eff_bind.
  destruct (is_badvalue _ || is_null _); [by intros [= <- _]|]. destruct (match as_str _ with Some _ => _ | None => false end); [by intros [= <- _]|].
  destruct (as_hash _) as [h|]; [|done]. intros [= <- _]. by exists h.
Qed.
Lemma section_or_checked {T} (P : T -> Prop) expected (parse : Yaml -> CM T) d y name :
  (forall y, ensures (fun c => P c /\ known_keys expected y) (parse y)) -> P d ->
  ensures (fun c => P c /\ section_keys expected (yaml_index y name)) (section_or parse d y name).
Proof using as_hash_Hash.
  intros Hp Hd. eapply ensures_bind; [apply optional_section_read|]. intros [y'|] Ho; [|apply ensures_ret; split; [done|by left]].
  destruct Ho as (h & Eh & ->). intros s c s' E. apply Hp in E as [Hc (h' & Eh' & Hk)]. split; [done|]. right. exists h. split; [done|].
  rewrite as_hash_Hash in Eh'. by injection Eh' as <-.
Qed.

(** The attributes of the section of the phases and of the phases. *)
Record phases_keys_ok (y : Yaml) : Prop := {
  pk_phases : known_keys phases_keys y;
  pk_discovery : section_keys discovery_keys (yaml_index y "discovery");
  pk_mutate : section_keys ["weight"; "entry-cov-timeout"]%string (yaml_index y "mutate");
  pk_add : section_keys add_keys (yaml_index y "add");
  pk_combine : section_keys ["weight"; "entry-cov-timeout"]%string (yaml_index y "combine");
}.

Lemma phases_range y : ensures (fun c => phases_ok c /\ phases_keys_ok y) (parse_phases_section hash_order y).
Proof using hash_order_all as_hash_Hash.
  apply (ensures_bind (fun o => forall z, o = Some z -> fits 32 z)); [apply option_ensures, u32_range|]. intros o Ho.
  eapply ensures_bind; [apply section_or_checked; [apply discovery_range|done]|]. intros d [Hd Hkd].
  eapply ensures_bind; [apply section_or_checked; [apply mutate_range|done]|]. intros mu [Hmu Hkm].
  eapply ensures_bind; [apply section_or_checked; [apply add_range|by repeat constructor]|]. intros ad [Had Hka].
  eapply ensures_bind; [apply section_or_checked; [apply combine_range|done]|]. intros co [Hco Hkc].
  eapply ensures_bind; [by apply keys_checked|]. intros [] Hk. by apply ensures_ret.
Qed.

Context (base_dir : PathBuf).

Lemma general_checked y : ensures (fun g => jail_ok g /\ known_keys general_keys y) (parse_general_section hash_order base_dir y).
Proof using hash_order_all.
  unfold parse_general_section. do 2 (apply ensures_any; intros ?).
  eapply ensures_bind; [apply (option_ensures (fits 32)), u32_range|]. intros uid Hu.
  eapply ensures_bind; [apply (option_ensures (fits 32)), u32_range|]. intros gid Hg. apply ensures_any. intros dr.
  apply (ensures_bind (fun _ => match uid, gid with Some _, Some _ | None, None => True | _, _ => False end)).
  { destruct uid, gid; try apply ensures_fail; by apply ensures_ret. }
  intros _ Hj. apply checked_ret. unfold jail_ok. cbn. destruct uid, gid; auto.
Qed.

Context (llvm_instruction : Z -> option LLVMInstruction).

Lemma source_checked y : ensures (fun _ => known_keys source_keys y) (parse_source_section llvm_instruction hash_order base_dir y).
Proof using hash_order_all. unfold parse_source_section. do 15 (apply ensures_any; intros ?). checked. Qed.
Lemma sink_checked y : ensures (fun _ => known_keys sink_keys y) (parse_sink_section hash_order base_dir y).
Proof using hash_order_all. unfold parse_sink_section. do 13 (apply ensures_any; intros ?). checked. Qed.
Lemma sink_cov_checked y : ensures (fun _ => known_keys ["env"; "bin-path"; "working-dir"]%string y) (parse_sink_cov_section hash_order base_dir y).
Proof using hash_order_all. unfold parse_sink_cov_section. do 3 (apply ensures_any; intros ?). checked. Qed.
Lemma afl_net_checked y : ensures (fun _ => known_keys afl_net_keys y) (parse_afl_net_section hash_order base_dir y).
Proof using hash_order_all. unfold parse_afl_net_section. do 7 (apply ensures_any; intros ?). checked. Qed.
Lemma state_afl_checked y : ensures (fun _ => known_keys afl_net_keys y) (parse_state_afl_section hash_order base_dir y).
Proof using hash_order_all. unfold parse_state_afl_section. do 7 (apply ensures_any; intros ?). checked. Qed.
Lemma sgfuzz_checked y :
  ensures (fun _ => known_keys ["bin-path"; "env"; "input-dir"; "netinfo"; "arguments"]%string y) (parse_sgfuzz_section hash_order base_dir y).
Proof using hash_order_all. unfold parse_sgfuzz_section. do 5 (apply ensures_any; intros ?). checked. Qed.
Lemma vanilla_checked y args :
  ensures (fun v => va_arguments v = args /\ known_keys ["env"; "bin-path"]%string y) (parse_vanilla_section hash_order base_dir y args).
Proof using hash_order_all.
  unfold parse_vanilla_section. do 2 (apply ensures_any; intros ?). by apply (checked_ret (fun v => va_arguments v = args)).
Qed.

Lemma required_ensures {T} (P : T -> Prop) (parse : Yaml -> CM T) y name :
  ensures P (parse (yaml_index y name)) -> ensures P (required parse y name).
Proof using Type. intros Hp. unfold required. destruct (is_badvalue _); [apply ensures_fail|done]. Qed.

(** A section that need not be there. *)
Definition if_given (P : Yaml -> Prop) (y : Yaml) : Prop := is_badvalue y = true \/ P y.
Lemma optional_ensures {T} (Q : Yaml -> Prop) (parse : Yaml -> CM T) y name :
  ensures (fun _ => Q (yaml_index y name)) (parse (yaml_index y name)) -> ensures (fun _ => if_given Q (yaml_index y name)) (optional parse y name).
Proof using Type.
  intros Hp. unfold optional. destruct (is_badvalue _) eqn:Eb; [apply ensures_ret; by left|].
  eapply ensures_bind; [apply Hp|]. intros c Hc. apply ensures_ret. by right.
Qed.

Lemma phases_or_default y :
  ensures (fun o => phases_ok (default PhasesConfig_default o) /\ if_given phases_keys_ok (yaml_index y "phases"))
    (optional (parse_phases_section hash_order) y "phases").
Proof using hash_order_all as_hash_Hash.
  unfold optional. destruct (is_badvalue _) eqn:Eb.
  - apply ensures_ret. split; [|by left]. by repeat constructor.
  - eapply ensures_bind; [apply phases_range|]. intros c [Hc Hk]. apply ensures_ret. split; [done|by right].
Qed.

Lemma must_exist_ensures p : ensures (fun _ => path_exists p = true) (must_exist p).
Proof using Type. unfold must_exist. destruct (path_exists p); [by apply ensures_ret|apply ensures_fail]. Qed.

Lemma validated c :
  ensures (fun _ => Forall (fun p => path_exists p = true) [ge_input_dir (c_general c); so_bin_path (c_source c); si_bin_path (c_sink c); va_bin_path (c_vanilla c)])
    (validate c).
Proof using Type.
  unfold validate. do 3 (eapply ensures_bind; [apply must_exist_ensures|]; intros ? ?).
  intros s r s' E. apply must_exist_ensures in E. repeat (apply Forall_cons_2; [done|]). apply Forall_nil_2.
Qed.

(** Every attribute of every section is one that the parser of the section expects. *)
Record document_ok (y : Yaml) : Prop := {
  do_general : known_keys general_keys y;
  do_source : known_keys source_keys (yaml_index y "source");
  do_phases : if_given phases_keys_ok (yaml_index y "phases");
  do_sink : known_keys sink_keys (yaml_index y "sink");
  do_sink_cov : if_given (known_keys ["env"; "bin-path"; "working-dir"]%string) (yaml_index y "sink-cov");
  do_afl_net : if_given (known_keys afl_net_keys) (yaml_index y "afl-net");
  do_state_afl : if_given (known_keys afl_net_keys) (yaml_index y "state-afl");
  do_sgfuzz : if_given (known_keys ["bin-path"; "env"; "input-dir"; "netinfo"; "arguments"]%string) (yaml_index y "sgfuzz");
  do_vanilla : known_keys ["env"; "bin-path"]%string (yaml_index y "vanilla");
}.

(** A configuration that was accepted, and the document it was read from. *)
Record accepted (text : string) (c : Config) : Prop := {
  ac_jail : jail_ok (c_general c);
  ac_jail_ids : exists ids, jail_uid_gid (c_general c) = Ret ids;
  ac_phases : phases_ok (c_phases c);
  ac_files : Forall (fun p => path_exists p = true)
               [ge_input_dir (c_general c); so_bin_path (c_source c); si_bin_path (c_sink c); va_bin_path (c_vanilla c)];
  ac_arguments : va_arguments (c_vanilla c) = si_arguments (c_sink c);
  ac_document : exists yaml rest, load_from_str text = Ok (yaml :: rest) /\ document_ok yaml;
}.

(** C37: what [from_str] accepts can be used.  The input directory and the binaries of the
    source, the sink and the vanilla target exist, weights and batch sizes are [u32], the
    vanilla binary gets the arguments of the sink, both ids of the jail are given as [u32] or
    none (so [jail_uid_gid] never panics), and in every section of the file, those of the
    phases and of the competitors included, each attribute is one that the parser of the
    section expects: misspelled attributes are rejected.  (An expected attribute need not be
    read: [bin-path-cov] of the sink is not.) *)
Theorem config_sound text c :
  from_str llvm_instruction hash_order base_dir text tt = Ret (Ok c, tt) -> accepted text c.
Proof using hash_order_all as_hash_Hash.
  revert c. assert (Hall : ensures (accepted text) (from_str llvm_instruction hash_order base_dir text)); [|intros c E; by eapply Hall].
  unfold from_str. apply (ensures_bind (fun l => load_from_str text = Ok l)).
  { destruct (load_from_str text); [by apply ensures_ret|apply ensures_fail]. }
  intros l Hl. apply (ensures_bind (fun y => exists rest, l = y :: rest)).
  { apply ensures_lift. intros y Hy%slice_get_Ret. destruct l as [|y' rest]; [done|]. injection Hy as ->. by exists rest. }
  intros y (rest & ->). eapply ensures_bind; [apply general_checked|]. intros g [Hj Hg].
  eapply ensures_bind; [apply required_ensures, source_checked|]. intros so Hso.
  eapply ensures_bind; [apply phases_or_default|]. intros ph [Hph Hkp].
  eapply ensures_bind; [apply required_ensures, sink_checked|]. intros si Hsi.
  eapply ensures_bind; [apply optional_ensures, sink_cov_checked|]. intros sc Hsc.
  eapply ensures_bind; [apply optional_ensures, afl_net_checked|]. intros an Han.
  eapply ensures_bind; [apply optional_ensures, state_afl_checked|]. intros st Hst.
  eapply ensures_bind; [apply optional_ensures, sgfuzz_checked|]. intros sg Hsg.
  eapply ensures_bind; [apply required_ensures, vanilla_checked|]. intros va [Hva Hkv].
  eapply ensures_bind; [apply validated|]. intros [] Hex. apply ensures_ret. split; [done|by apply jail_ids|done..|by exists y, rest].
Qed.
End sound.

(** ** Durations *)

#[local] Arguments is_digit : simpl never.
#[local] Arguments suffix_factor : simpl never.

Fixpoint all_digits (s : string) : bool :=
  match s with EmptyString => true | String c s => is_digit c && all_digits s end.
Fixpoint no_digits (s : string) : bool :=
  match s with EmptyString => true | String c s => negb (is_digit c) && no_digits s end.

Lemma append_nil s : EmptyString +:+ s = s.
Proof. done. Qed.
Lemma append_cons x d s : String x d +:+ s = String x (d +:+ s).
Proof. done. Qed.

Lemma app_snoc_string d c s : d +:+ String c s = (d +:+ String c EmptyString) +:+ s.
Proof. induction d as [|x d IH]; [done|]. exact (f_equal (String x) IH). Qed.

Lemma digits_value_snoc acc d c : digits_value acc (d +:+ String c EmptyString) = digits_value acc d * 10 + digit c.
Proof. revert acc. induction d as [|x d IH]; intros acc; [done|]. cbn. apply IH. Qed.

Lemma all_digits_snoc d c : all_digits (d +:+ String c EmptyString) = all_digits d && is_digit c.
Proof.
  induction d as [|x d IH]; [exact (andb_true_r (is_digit c))|]. rewrite append_cons. cbn [all_digits]. by rewrite IH, andb_assoc.
Qed.

Lemma pretty_char_digit n : (n < 10)%N -> is_digit (pretty_N_char n) = true /\ digit (pretty_N_char n) = Z.of_N n.
Proof.
  intros Hn. destruct n as [|p]; [by split|]. do 4 (destruct p as [p|p|]; [try lia|try lia|by split]); lia.
Qed.

Lemma pretty_go_digits x s :
  exists d, pretty_N_go x s = d +:+ s /\ all_digits d = true /\ digits_value 0 d = Z.of_N x /\ (x <> 0%N -> d <> EmptyString).
Proof.
  revert s. induction (N.lt_wf_0 x) as [x _ IH]; intros s. destruct (decide (x = 0)%N) as [->|Hx].
  { by exists EmptyString. }
  rewrite pretty_N_go_step by lia. destruct (IH (x `div` 10)%N ltac:(apply N.div_lt; lia) (String (pretty_N_char (x mod 10)) s))
    as (d & -> & Hd & Hv & _).
  destruct (pretty_char_digit (x mod 10)%N) as [Hc Hcv]; [by apply N.mod_lt|].
  exists (d +:+ String (pretty_N_char (x mod 10)) EmptyString). split; [apply app_snoc_string|].
  split; [by rewrite all_digits_snoc, Hd, Hc|]. split; [|by destruct d].
  rewrite digits_value_snoc, Hv, Hcv. pose proof (N.div_mod x 10 ltac:(done)). lia.
Qed.

(** The decimal form of a number. *)
Lemma pretty_digits n : all_digits (pretty n) = true /\ digits_value 0 (pretty n) = Z.of_N n /\ pretty n <> EmptyString.
Proof.
  unfold pretty, pretty_N. case_decide as Hn; [by subst|]. destruct (pretty_go_digits n EmptyString) as (d & -> & Hd & Hv & Hne).
  assert (E : d +:+ EmptyString = d) by (clear; induction d as [|c d IH]; [done|]; exact (f_equal (String c) IH)).
  rewrite E. auto.
Qed.

Lemma take_digits_app d c s : all_digits d = true -> is_digit c = false -> take_digits (d +:+ String c s) = (d, String c s).
Proof.
  intros Hd Hc. induction d as [|x d IH]; [rewrite append_nil; cbn [take_digits]; by rewrite Hc|].
  cbn [all_digits] in Hd. apply andb_true_iff in Hd as [Hx Hd]. rewrite append_cons. cbn [take_digits]. by rewrite Hx, (IH Hd).
Qed.

Lemma suffix_no_digit u f : suffix_factor u = Some f -> is_digit u = false.
Proof. destruct u as [[] [] [] [] [] [] [] []]; by intros [= <-]. Qed.

Lemma find_duration_spec p d u f rest :
  no_digits p = true -> all_digits d = true -> d <> EmptyString -> suffix_factor u = Some f ->
  find_duration (p +:+ d +:+ String u rest) = Some (d, f).
Proof.
  intros Hp Hd Hne Hu. induction p as [|c p IH].
  - destruct d as [|c d]; [done|]. rewrite append_nil. pose proof (take_digits_app (String c d) u rest Hd (suffix_no_digit u f Hu)) as Et.
    cbn [all_digits] in Hd. apply andb_true_iff in Hd as [Hc _]. rewrite append_cons in Et |- *. cbn [find_duration]. by rewrite Hc, Et, Hu.
  - cbn [no_digits] in Hp. apply andb_true_iff in Hp as [Hc Hp]. apply negb_true_iff in Hc. rewrite append_cons. cbn [find_duration].
    rewrite Hc. by apply IH.
Qed.

(** The milliseconds of a unit. *)
Definition unit_millis (f : list Z) : Z := foldr Z.mul 1 f.

Lemma unit_millis_positive f : Forall (fun x => 0 < x) f -> 0 < unit_millis f.
Proof. induction 1; [done|]. by apply Z.mul_pos_pos. Qed.

Lemma mul_all_spec w v f :
  0 <= v -> v < 2 ^ w -> Forall (fun x => 0 < x) f ->
  mul_all w v f = if decide (v * unit_millis f < 2 ^ w) then Ret (v * unit_millis f) else Panic.
Proof.
  intros Hv Hlt Hf. revert v Hv Hlt. induction Hf as [|x f Hx Hf IH]; intros v Hv Hlt; cbn [mul_all unit_millis foldr].
  { rewrite Z.mul_1_r. by rewrite decide_True. }
  pose proof (unit_millis_positive f Hf) as Hu.
  rewrite Z.mul_assoc. fold (unit_millis f). unfold checked_mul. case_decide as H1; cbn [mbind outcome_bind].
  - by rewrite IH by nia.
  - rewrite decide_False by nia. done.
Qed.

(** Durations are read as they are written.  A number and a unit give that many
    milliseconds of the unit, also behind other text and whatever follows; the code panics
    exactly when the milliseconds do not fit into 64 bits. *)
Theorem duration_roundtrip p n u f rest :
  no_digits p = true -> suffix_factor u = Some f ->
  FromStrDuration_from_str (p +:+ pretty n +:+ String u rest) =
    if decide (Z.of_N n * unit_millis f < 2 ^ 64) then Ret (Ok (Z.of_N n * unit_millis f)) else Panic.
Proof.
  intros Hp Hu. destruct (pretty_digits n) as (Hd & Hv & Hne). unfold FromStrDuration_from_str.
  rewrite (find_duration_spec p (pretty n) u f rest) by done. unfold parse_digits. rewrite Hv.
  assert (Hf : Forall (fun x => 0 < x) f).
  { destruct u as [[] [] [] [] [] [] [] []]; try done; injection Hu as <-; repeat constructor. }
  pose proof (unit_millis_positive f Hf) as Hm.
  destruct (Z.ltb_spec (Z.of_N n) (2 ^ 64)) as [Hlt|Hge]; cbn [unwrap mbind outcome_bind].
  - rewrite mul_all_spec by (done || lia). by case_decide.
  - rewrite decide_False by nia. done.
Qed.

(** ** A configuration that panics later *)

Lemma keys_accepted `{YL : YamlLib} hash_order y expected s :
  (forall l k, k ∈ hash_order l -> k ∈ l) -> known_keys expected y -> check_for_unparsed_keys hash_order y expected s = Ret (Ok tt, s).
Proof.
  intros Hord (h & Hh & Hk). unfold check_for_unparsed_keys, mbind, eff_bind, lift_outcome. rewrite Hh. cbn [unwrap].
  assert (Hm : exists ks, mapM (fun kv : Yaml * Yaml => unwrap (as_str kv.1)) h = Ret ks /\ Forall (fun k => k ∈ expected) ks).
  { clear Hh. induction Hk as [|kv h (k & Ek & Hin) _ (ks & Eks & IH)]; [by exists []|]. exists (k :: ks). cbn. rewrite Ek. cbn.
    rewrite Eks. split; [done|by constructor]. }
  destruct Hm as (ks & -> & Hks). destruct (List.find _ (hash_order ks)) as [k|] eqn:Ef; [|done].
  apply find_some in Ef as [Hin%list_elem_of_In Hn]. rewrite Forall_forall in Hks. specialize (Hks k (Hord _ _ Hin)).
  by rewrite bool_decide_true in Hn.
Qed.

Lemma get_u32_ok `{YL : YamlLib} y name z s :
  as_i64 (yaml_index y name) = Some z -> fits 32 z -> get_attribute u32_try_from_yaml y name s = Ret (Ok z, s).
Proof.
  intros Hz [H1 H2]. unfold get_attribute, u32_try_from_yaml, int_try_from_yaml, mbind, eff_bind. rewrite Hz. cbn [ok_or mret eff_ret].
  rewrite (proj2 (Z.leb_le 0 z)), (proj2 (Z.leb_le z (2 ^ 32 - 1))) by lia. done.
Qed.

(** The weights of the add phase may all be zero: the section is accepted, and the phase
    panics as soon as it is chosen. *)
Lemma zero_weights_accepted `{YL : YamlLib} hash_order y :
  as_i64 (yaml_index y "weight") = Some 3 -> as_i64 (yaml_index y "batch-size") = Some 12 ->
  as_i64 (yaml_index y "select-unfuzzed-weight") = Some 0 -> as_i64 (yaml_index y "select-yielding-weight") = Some 0 ->
  as_i64 (yaml_index y "select-random-weight") = Some 0 ->
  is_badvalue (yaml_index y "entry-cov-timeout") = true -> known_keys add_keys y ->
  (forall l k, k ∈ hash_order l -> k ∈ l) ->
  exists c, parse_add_phase_section hash_order y tt = Ret (Ok c, tt) /\ weights_sum c = Panic.
Proof.
  intros H1 H2 H3 H4 H5 Hb Hk Hord. unfold parse_add_phase_section, mbind, eff_bind.
  rewrite (get_u32_ok _ _ _ _ H1), (get_u32_ok _ _ _ _ H2), (get_u32_ok _ _ _ _ H3), (get_u32_ok _ _ _ _ H4), (get_u32_ok _ _ _ _ H5) by done.
  unfold attribute_or, get_attribute, Option_try_from_yaml, mbind, eff_bind. rewrite Hb. cbn -[check_for_unparsed_keys].
  rewrite (keys_accepted hash_order y add_keys tt Hord Hk). eexists. split; [reflexivity|]. reflexivity.
Qed.

(** ** Witnesses *)

Inductive DemoYaml :=
| DStr (s : string) | DBool (b : bool) | DVec (l : list DemoYaml) | DHash (l : list (string * DemoYaml)) | DPairs (l : list (DemoYaml * DemoYaml)) | DBad.

Definition demo_index (y : DemoYaml) (name : string) : DemoYaml :=
  match y with
  | DHash l => match List.find (fun kv => bool_decide (kv.1 = name)) l with Some kv => kv.2 | None => DBad end
  | _ => DBad
  end.

Definition demo_binary : list (string * DemoYaml) :=
  [("bin-path", DStr "/bin/ls"); ("arguments", DVec [DStr "@@"]); ("input-type", DStr "File"); ("output-type", DStr "stdout");
   ("log-stdout", DBool false); ("log-stderr", DBool false)]%string.
Definition demo_document : DemoYaml :=
  DHash [("work-directory", DStr "/work"); ("input-directory", DStr "/in"); ("source", DHash demo_binary); ("sink", DHash demo_binary);
         ("vanilla", DHash [("bin-path", DStr "/bin/ls")])]%string.

#[local] Instance demo_yaml_lib : YamlLib := {|
  Yaml := DemoYaml;
  as_str y := match y with DStr s => Some s | _ => None end;
  as_i64 y := None;
  as_bool y := match y with DBool b => Some b | _ => None end;
  as_vec y := match y with DVec l => Some l | _ => None end;
  as_hash y := match y with
               | DHash l => Some ((fun kv => (DStr kv.1, kv.2)) <$> l)
               | DPairs l => Some l
               | _ => None
               end;
  yaml_index := demo_index;
  is_badvalue y := match y with DBad => true | _ => false end;
  is_null _ := false;
  Yaml_Hash l := DPairs l;
  load_from_str _ := Ok [demo_document];
|}.

#[local] Instance demo_file_system : FileSystem := {| path_exists _ := true; canonicalize p := Ok p |}.

Lemma config_sound_witness :
  exists c, from_str (fun _ => None) id (path "/") "work-directory: /work" tt = Ret (Ok c, tt) /\ accepted "work-directory: /work" c /\
    si_input_type (c_sink c) = In_File.
Proof.
  destruct (from_str (fun _ => None) id (path "/") "work-directory: /work" tt) as [[[c|e] []]|] eqn:E;
    [|exfalso; revert E; vm_compute; discriminate..].
  exists c. split; [done|]. split; [by apply (config_sound (YL := demo_yaml_lib) id (fun _ _ H => H) (fun _ => eq_refl) (path "/") (fun _ => None))|].
  revert E. vm_compute. by intros [= <-].
Defined.
