(* ===== verification/Sink.v ===== *)
(** * The sink and its fork server

    Models [AflSink] of [scheduler/src/sink.rs]: the protocol with the fork server of the
    consumer, which is asked for a child and reports its process id, messages of a server
    that is ready, and the exit status.  System calls are the interface [Kernel]; what the
    forked child does before [execve] (environment, limits, redirections) and the files of
    a work directory are left out.  A poll that is interrupted is repeated; the recursion
    is on fuel. *)

From S2P Require Import Prelude Effects Bytes Rng FiniteIntegerSet Bitmap Mutators MutationCacheEntry MutationCacheContent MutationCache Messages Trace MutationSite MutationCacheOps Queue EventCounter Cerebrum Scheduling RunCommon MutatorSteps Phases AuxStream Source Config.

Definition FS_OPT_MAPSIZE : Z := 0x40000000.
Definition AFL_DEFAULT_TIMEOUT : Z := 10000 * 10 ^ 6.
Definition DEFAULT_TERMINATION_GRACE_PERIOD : Z := secs 120.
Definition SIGKILL : Z := 9.
Definition SIGTERM : Z := 15.
Definition SIGUSR2 : Z := 12.

Inductive SinkError := SinkFatalError | CommunicationTimeoutError | SinkOther.

(** [From<RunResult> for WaitForPeerResult] *)
Definition peer_of_sink (r : SinkRunResult) : WaitForPeerResult :=
  match r with
  | Sink_Terminated c => WP_Terminated c
  | Sink_Signalled s => WP_Signalled s
  | Sink_TimedOut => WP_TimedOut
  end.

(** The pipes a worker reads from: [receive_fd] and [ft_receive_fd]. *)
Inductive Fd := ReceiveFd | FtReceiveFd.
#[export] Instance Fd_eq_dec : EqDecision Fd.
Proof. solve_decision. Defined.

(** [poll]: the descriptors with [POLLIN] and nothing else *)
Inductive PollResult := PollReady (ready : list Fd) | PollTimedOut | PollInterrupted | PollFailed.

Class Kernel (K : Type) := {
  k_poll : list Fd -> Z -> K -> PollResult * K;
  (** [read] of up to four bytes *)
  k_read : Fd -> K -> list Z * K;
  (** [write] of four bytes to [send_fd]; the number written *)
  k_write : list Z -> K -> Z * K;
  k_kill : Z -> Z -> K -> K;
  (** [fork] and the set-up of the pipes *)
  k_fork : K -> Z * K;
  k_killpg : Z -> Z -> K -> K;
  (** [wait_pid_timeout(..).is_ok()] *)
  k_wait_pid : Z -> Z -> K -> bool * K;
  (** [try_get_child_exit_reason(..).is_some()] *)
  k_exit_reason : Z -> K -> bool * K;
}.

(** [i32::from_le_bytes] *)
Definition i32_from_le_bytes (bs : list Z) : Z :=
  let z := of_le bs in if z <? 2 ^ 31 then z else z - 2 ^ 32.

(** The macros of [wait(2)]. *)
Definition WIFEXITED (status : Z) : bool := Z.land status 0x7f =? 0.
Definition WEXITSTATUS (status : Z) : Z := Z.land (Z.shiftr status 8) 0xff.
Definition WTERMSIG (status : Z) : Z := Z.land status 0x7f.
(** [((status & 0x7f) + 1) as i8 >= 2] *)
Definition WIFSIGNALED (status : Z) : bool :=
  let v := Z.land status 0x7f + 1 in 2 <=? (if v <? 128 then v else v - 256).

Section sink.
Context {K : Type} `{Kernel K}.
(** the configuration of the sink, [Signal::try_from(..).is_ok()] and [Bitmap::new_in_shm(.., 0)] *)
Context (config : SinkConfig) (known_signal : Z -> bool) (new_map : nat -> outcome Bitmap).

Record AflSink := mk_afl_sink {
  sk_bitmap : Bitmap;
  sk_child_pid : option Z;
  sk_forkserver_sid : option Z;
  sk_bitmap_was_resize : bool;
  sk_purge_ctr : Z;
  sk_bind_ctr : Z;
  sk_listen_ctr : Z;
  (** the content of the input file *)
  sk_input_file : list Z;
}.

Definition SM (A : Type) : Type := eff (AflSink * K) SinkError A.

Definition with_bitmap s m := mk_afl_sink m (sk_child_pid s) (sk_forkserver_sid s) (sk_bitmap_was_resize s) (sk_purge_ctr s) (sk_bind_ctr s) (sk_listen_ctr s) (sk_input_file s).
Definition with_child s p := mk_afl_sink (sk_bitmap s) p (sk_forkserver_sid s) (sk_bitmap_was_resize s) (sk_purge_ctr s) (sk_bind_ctr s) (sk_listen_ctr s) (sk_input_file s).
Definition with_sid s p := mk_afl_sink (sk_bitmap s) (sk_child_pid s) p (sk_bitmap_was_resize s) (sk_purge_ctr s) (sk_bind_ctr s) (sk_listen_ctr s) (sk_input_file s).
Definition with_resized s b := mk_afl_sink (sk_bitmap s) (sk_child_pid s) (sk_forkserver_sid s) b (sk_purge_ctr s) (sk_bind_ctr s) (sk_listen_ctr s) (sk_input_file s).
Definition with_purge s n := mk_afl_sink (sk_bitmap s) (sk_child_pid s) (sk_forkserver_sid s) (sk_bitmap_was_resize s) n (sk_bind_ctr s) (sk_listen_ctr s) (sk_input_file s).
Definition with_ctrs s b l := mk_afl_sink (sk_bitmap s) (sk_child_pid s) (sk_forkserver_sid s) (sk_bitmap_was_resize s) (sk_purge_ctr s) b l (sk_input_file s).
Definition with_input s d := mk_afl_sink (sk_bitmap s) (sk_child_pid s) (sk_forkserver_sid s) (sk_bitmap_was_resize s) (sk_purge_ctr s) (sk_bind_ctr s) (sk_listen_ctr s) d.

Definition sink_get {A} (f : AflSink -> A) : SM A := get (fun sk => f sk.1).
Definition sink_update (f : AflSink -> AflSink) : SM unit := update (fun sk => (f sk.1, sk.2)).
Definition sys {A} (call : K -> A * K) : SM A := fun sk => let (a, k) := call sk.2 in Ret (Ok a, (sk.1, k)).
Definition sys_ (call : K -> K) : SM unit := update (fun sk => (sk.1, call sk.2)).
Definition sink_fail {A} (e : SinkError) : SM A := of_result (Err e).

(** ** Waiting *)

Fixpoint wait_for_data (fuel : nat) (fds : list Fd) (timeout : Z) : SM (list Fd) :=
  match fuel with
  | O => panic
  | S fuel =>
      nready ← sys (k_poll fds timeout);
      match nready with
      | PollReady [] => sink_fail SinkFatalError
      | PollReady ready_fds => mret ready_fds
      | PollTimedOut => sink_fail CommunicationTimeoutError
      | PollInterrupted => wait_for_data fuel fds timeout
      | PollFailed => sink_fail SinkFatalError
      end
  end.

Context (fuel : nat).
#[local] Abbreviation wait := (wait_for_data fuel).

(** Errors of the result of [m] as a value. *)
Definition attempt {A} (m : SM A) : SM (result SinkError A) := after m (fun r => mret r).

(** ** Starting and stopping *)

Definition stop : SM unit :=
  sid ← sink_get sk_forkserver_sid;
  _ ← sink_update (fun s => with_sid s None);
  match sid with
  | None => mret tt
  | Some sid =>
      _ ← sys_ (k_killpg sid SIGTERM);
      ok ← sys (k_wait_pid sid (secs 60));
      if ok : bool then mret tt
      else
        _ ← sys_ (k_killpg sid SIGKILL);
        _ ← sys (k_wait_pid sid (secs 10));
        mret tt
  end.

(** [((status & 0x00fffffe) >> 1) + 1] and [next_power_of_two] *)
Definition requested_map_size (status : Z) : Z := Z.shiftr (Z.land status 0x00fffffe) 1 + 1.
Definition next_power_of_two (n : Z) : Z := 2 ^ Z.log2_up n.

(** The parent; [rounds] bounds the restarts. *)
Fixpoint start (rounds : nat) : SM unit :=
  match rounds with
  | O => panic
  | S rounds =>
      child_pid ← sys k_fork;
      if child_pid =? -1 then sink_fail SinkOther
      else
        _ ← sink_update (fun s => with_sid s (Some child_pid));
        _ ← wait [ReceiveFd] AFL_DEFAULT_TIMEOUT;
        buffer ← sys (k_read ReceiveFd);
        if negb (length buffer =? 4)%nat then sink_fail SinkOther
        else
          let status := of_le buffer in
          if Z.land status FS_OPT_MAPSIZE =? FS_OPT_MAPSIZE then
            resized ← sink_get sk_bitmap_was_resize;
            if resized : bool then mret tt
            else
              let new_map_size := next_power_of_two (requested_map_size status) in
              size ← sink_get (fun s => bm_size (sk_bitmap s));
              if Z.of_nat size <? new_map_size then
                _ ← stop;
                map ← lift_outcome (new_map (Z.to_nat new_map_size));
                _ ← sink_update (fun s => with_resized (with_bitmap s map) true);
                start rounds
              else mret tt
          else mret tt
  end.

(** ** Running a child *)

(** [write]: the file is truncated and rewritten. *)
Definition sink_write (data : list Z) : SM unit := sink_update (fun s => with_input s data).

(** Every thousandth call deletes files; failures are only logged. *)
Definition maybe_purge_orphaned_files : SM unit := sink_update (fun s => with_purge s (sk_purge_ctr s + 1)).

(** Discards what the last child left in the auxiliary pipe; the bytes end up in
    [buffer]. *)
Fixpoint flush_ft_pipe (n : nat) (buffer : list Z) : SM (list Z) :=
  match n with
  | O => panic
  | S n =>
      ret ← attempt (wait [FtReceiveFd] 0);
      match ret with
      | Ok _ =>
          bytes ← sys (k_read FtReceiveFd);
          flush_ft_pipe n (bytes ++ drop (length bytes) buffer)
      | Err _ => mret buffer
      end
  end.

Definition spawn_child (flushes : nat) : SM unit :=
  _ ← sink_update (fun s => with_ctrs (with_bitmap s (Bitmap_reset (sk_bitmap s))) 0 0);
  _ ← maybe_purge_orphaned_files;
  buffer ← flush_ft_pipe flushes [0; 0; 0; 0];
  ret ← sys (k_write buffer);
  if negb (ret =? 4) then sink_fail SinkOther
  else
    _ ← wait [ReceiveFd] AFL_DEFAULT_TIMEOUT;
    buffer ← sys (k_read ReceiveFd);
    if negb (length buffer =? 4)%nat then sink_fail SinkOther
    else
      let child_pid := i32_from_le_bytes buffer in
      if child_pid <=? 0 then sink_fail SinkOther
      else sink_update (fun s => with_child s (Some child_pid)).

Definition handle_child_exit_msg : SM SinkRunResult :=
  buffer ← sys (k_read ReceiveFd);
  if negb (length buffer =? 4)%nat then sink_fail SinkOther
  else
    let child_msg := i32_from_le_bytes buffer in
    if WIFEXITED child_msg then
      _ ← sink_update (fun s => with_child s None);
      mret (Sink_Terminated (WEXITSTATUS child_msg))
    else if WIFSIGNALED child_msg then
      let signal := WTERMSIG child_msg in
      let signal := if known_signal signal then signal else SIGUSR2 in
      _ ← sink_update (fun s => with_child s None);
      if signal =? SIGTERM then mret (Sink_Terminated 0) else mret (Sink_Signalled signal)
    else panic.

(** Waits for the acknowledgement of a child that was killed and consumes its status; [Err]
    when there is none. *)
Definition await_killed : SM (result SinkError unit) :=
  ack ← attempt (wait [ReceiveFd] DEFAULT_TERMINATION_GRACE_PERIOD);
  match ack with
  | Ok _ => _ ← sys (k_read ReceiveFd); _ ← sink_update (fun s => with_child s None); mret (Ok tt)
  | Err e => mret (Err e)
  end.

Definition wait_for_child_termination (timeout : Z) (immediately_issue_sigkill : bool) (issue_sigterm_after : option Z)
    : SM SinkRunResult :=
  pid ← sink_get sk_child_pid;
  child_pid ← lift_outcome (unwrap pid);
  _ ← (if immediately_issue_sigkill then sys_ (k_kill child_pid SIGKILL) else mret tt);
  let issue_sigterm_after := if si_send_sigterm config then Some timeout else issue_sigterm_after in
  wait_state ←
    match issue_sigterm_after with
    | Some delay =>
        ret ← attempt (wait [ReceiveFd] delay);
        match ret with
        | Err _ => _ ← sys_ (k_kill child_pid SIGTERM); attempt (wait [ReceiveFd] timeout)
        | Ok l => mret (Ok l)
        end
    | None => attempt (wait [ReceiveFd] timeout)
    end;
  match wait_state with
  | Ok _ => handle_child_exit_msg
  | Err _ =>
      _ ← sys_ (k_kill child_pid SIGKILL);
      ack ← await_killed;
      match ack with
      | Ok _ => mret Sink_TimedOut
      | Err e =>
          sid ← sink_get sk_forkserver_sid;
          sid ← lift_outcome (unwrap sid);
          _ ← sys (k_exit_reason sid);
          _ ← sink_update (fun s => with_child s None);
          sink_fail e
      end
  end.

Definition sink_run (flushes : nat) (timeout : Z) : SM SinkRunResult :=
  _ ← spawn_child flushes;
  wait_for_child_termination timeout false None.

(** ** Waiting for a server *)

Definition is_ready_signal (ready_on : ServerReadySignalKind) (child_msg listen_ctr bind_ctr : Z) : bool :=
  (child_msg =? 1) && bool_decide (ready_on = Ready_Listen (listen_ctr - 1)) ||
  (child_msg =? 2) && bool_decide (ready_on = Ready_Bind (bind_ctr - 1)).

(** [n] bounds the messages of the child. *)
Fixpoint wait_for_server (n : nat) (timeout : Z) : SM WaitForPeerResult :=
  match n with
  | O => panic
  | S n =>
      pid ← sink_get sk_child_pid;
      child_pid ← lift_outcome (unwrap pid);
      ready ← attempt (wait [ReceiveFd; FtReceiveFd] timeout);
      match ready with
      | Ok ready_fds =>
          if bool_decide (ReceiveFd ∈ ready_fds) then
            r ← handle_child_exit_msg; mret (peer_of_sink r)
          else if bool_decide (FtReceiveFd ∈ ready_fds) then
            buffer ← sys (k_read FtReceiveFd);
            if negb (length buffer =? 4)%nat then sink_fail SinkOther
            else
              let ready_signal_kind := default (Ready_Listen 0) (si_server_ready_on config) in
              let child_msg := i32_from_le_bytes buffer in
              _ ← sink_update (fun s =>
                    if child_msg =? 1 then with_ctrs s (sk_bind_ctr s) (sk_listen_ctr s + 1)
                    else if child_msg =? 2 then with_ctrs s (sk_bind_ctr s + 1) (sk_listen_ctr s)
                    else s);
              ctrs ← sink_get (fun s => (sk_listen_ctr s, sk_bind_ctr s));
              if is_ready_signal ready_signal_kind child_msg ctrs.1 ctrs.2 then mret WP_Ready
              else wait_for_server n timeout
          else panic
      | Err _ =>
          _ ← sys_ (k_kill child_pid SIGKILL);
          ack ← await_killed;
          match ack with
          | Ok _ => mret WP_TimedOut
          | Err e =>
              sid ← sink_get sk_forkserver_sid;
              sid ← lift_outcome (unwrap sid);
              reason ← sys (k_exit_reason sid);
              _ ← (if reason : bool then sink_update (fun s => with_sid s None) else mret tt);
              sink_fail e
          end
      end
  end.
End sink.
