(* ===== verification/SinkTheorems.v ===== *)
(** * In step with the fork server

    A fork server is a process the worker shares two pipes with.  [View] is what is known
    of it: the messages that were not read yet, the child that runs, and the children that
    ended.  Between two system calls of the worker only the child moves: it sends messages
    or ends, and the fork server reports its status.  [sink_run] keeps in step: the result
    it returns is the one of the child it started, and nothing of that child is left for
    the next run. *)

From S2P Require Import Prelude Effects Bytes Rng FiniteIntegerSet Bitmap Mutators MutationCacheEntry MutationCacheContent MutationCache Messages Trace MutationSite MutationCacheOps Queue EventCounter Cerebrum Scheduling RunCommon MutatorSteps Phases AuxStream Source Config Sink.

(** ** The fork server *)

Record View := mk_view {
  (** unread words of the two pipes *)
  v_pending : list Z;
  v_ft : list Z;
  v_child : option Z;
  (** process id and status of the children that ended *)
  v_ended : list (Z * Z);
  (** signals that will still interrupt a call *)
  v_signals : nat;
}.

(** The status of a child that exited or was killed. *)
Definition status_ok (status : Z) : Prop := fits 31 status /\ (WIFEXITED status || WIFSIGNALED status) = true.

Inductive moves : View -> View -> Prop :=
| mv_done v : moves v v
| mv_exit p status pending ft ended n v :
    status_ok status -> moves (mk_view (pending ++ [status]) ft None (ended ++ [(p, status)]) n) v ->
    moves (mk_view pending ft (Some p) ended n) v
| mv_message p m pending ft ended n v :
    moves (mk_view pending (ft ++ [m]) (Some p) ended n) v -> moves (mk_view pending ft (Some p) ended n) v
| mv_signal pending ft child ended n v :
    moves (mk_view pending ft child ended n) v -> moves (mk_view pending ft child ended (S n)) v.

Definition readable (fd : Fd) (v : View) : Prop :=
  match fd with ReceiveFd => v_pending v <> [] | FtReceiveFd => v_ft v <> [] end.

(** What the pipes and the fork server promise. *)
Class ForkServer (K : Type) `{Kernel K} := {
  view : K -> View;
  poll_moves : forall fds t k, moves (view k) (view (k_poll fds t k).2);
  poll_interrupted : forall fds t k, (k_poll fds t k).1 = PollInterrupted -> (v_signals (view (k_poll fds t k).2) < v_signals (view k))%nat;
  poll_ready : forall fds t k l fd, (k_poll fds t k).1 = PollReady l -> fd ∈ l -> fd ∈ fds /\ readable fd (view (k_poll fds t k).2);
  kill_moves : forall p s k, moves (view k) (view (k_kill p s k));
  reason_moves : forall p k, moves (view k) (view (k_exit_reason p k).2);
  (** A word that is there is read as a whole. *)
  read_word : forall k m pending, v_pending (view k) = m :: pending ->
    (k_read ReceiveFd k).1 = to_le 4 m /\
    moves (mk_view pending (v_ft (view k)) (v_child (view k)) (v_ended (view k)) (v_signals (view k))) (view (k_read ReceiveFd k).2);
  read_ft : forall k m ft, v_ft (view k) = m :: ft ->
    length (k_read FtReceiveFd k).1 = 4%nat /\
    moves (mk_view (v_pending (view k)) ft (v_child (view k)) (v_ended (view k)) (v_signals (view k))) (view (k_read FtReceiveFd k).2);
  (** An idle fork server answers a request with the id of a new child. *)
  write_forks : forall k b, v_child (view k) = None ->
    ((k_write b k).1 = 4 -> exists pid, 0 < pid < 2 ^ 31 /\
       moves (mk_view (v_pending (view k) ++ [pid]) (v_ft (view k)) (Some pid) (v_ended (view k)) (v_signals (view k))) (view (k_write b k).2)) /\
    ((k_write b k).1 <> 4 -> moves (view k) (view (k_write b k).2));
}.

(** ** Moves *)

Lemma moves_trans a b c : moves a b -> moves b c -> moves a c.
Proof. induction 1; intros Hc; [done|..]; eauto using moves. Qed.

#[export] Instance moves_preorder : PreOrder moves.
Proof. split; [intros v; apply mv_done|intros a b c; apply moves_trans]. Qed.

Lemma moves_signals v v' : moves v v' -> (v_signals v' <= v_signals v)%nat.
Proof. induction 1; cbn in *; lia. Qed.

(** Without a child nothing is sent. *)
Lemma moves_idle v v' : moves v v' -> v_child v = None ->
  v_pending v' = v_pending v /\ v_ft v' = v_ft v /\ v_child v' = None /\ v_ended v' = v_ended v.
Proof. induction 1; intros Hc; [done|done|done|]. by apply IHmoves. Qed.

(** The child runs, or its status waits to be read. *)
Inductive running (ended : list (Z * Z)) (pid : Z) (v : View) : Prop :=
| run_alive : v_child v = Some pid -> v_pending v = [] -> v_ended v = ended -> running ended pid v
| run_ended status : v_child v = None -> v_pending v = [status] -> status_ok status -> v_ended v = ended ++ [(pid, status)] -> running ended pid v.

Lemma running_moves ended pid v v' : moves v v' -> running ended pid v -> running ended pid v'.
Proof.
  induction 1 as [v|p st pe ft en n v Hst _ IH|p m pe ft en n v _ IH|pe ft ch en n v _ IH]; intros Hr; [done|..].
  - destruct Hr as [Hc Hp He|? Hc]; [|done]. cbn in *. simplify_eq. apply IH. by eapply run_ended.
  - apply IH. destruct Hr as [Hc Hp He|? Hc]; [|done]. by apply run_alive.
  - apply IH. destruct Hr as [Hc Hp He|st Hc Hp Hst He]; [by apply run_alive|by eapply run_ended].
Qed.

(** A new child has been announced. *)
Inductive announced (ended : list (Z * Z)) (pid : Z) (v : View) : Prop :=
| ann_alive : v_child v = Some pid -> v_pending v = [pid] -> v_ended v = ended -> announced ended pid v
| ann_ended status : v_child v = None -> v_pending v = [pid; status] -> status_ok status -> v_ended v = ended ++ [(pid, status)] -> announced ended pid v.

Lemma announced_moves ended pid v v' : moves v v' -> announced ended pid v -> announced ended pid v'.
Proof.
  induction 1 as [v|p st pe ft en n v Hst _ IH|p m pe ft en n v _ IH|pe ft ch en n v _ IH]; intros Hr; [done|..].
  - destruct Hr as [Hc Hp He|? Hc]; [|done]. cbn in *. simplify_eq. apply IH. by eapply ann_ended.
  - apply IH. destruct Hr as [Hc Hp He|? Hc]; [|done]. by apply ann_alive.
  - apply IH. destruct Hr as [Hc Hp He|st Hc Hp Hst He]; [by apply ann_alive|by eapply ann_ended].
Qed.

Lemma i32_word z : fits 31 z -> i32_from_le_bytes (to_le 4 z) = z.
Proof.
  intros [Hz Hlt]. unfold i32_from_le_bytes. rewrite of_le_to_le.
  - by rewrite (proj2 (Z.ltb_lt _ _)).
  - change (256 ^ Z.of_nat 4) with (2 ^ 32). change (2 ^ 31) with 2147483648 in Hlt. change (2 ^ 32) with 4294967296. lia.
Qed.

(** ** The steps of a run *)

Section run.
Context {K : Type} `{FSrv : ForkServer K}.
Context (fuel : nat).

(** [k'] is reached from [k] without the worker. *)
Definition later (k k' : K) : Prop := moves (view k) (view k').

Lemma later_signals k k' : later k k' -> (v_signals (view k) < fuel)%nat -> (v_signals (view k') < fuel)%nat.
Proof using Type. intros Hl%moves_signals Hlt. eapply Nat.le_lt_trans; eauto. Qed.

Lemma wp_sys {A} (call : K -> A * K) (Q : result SinkError A -> AflSink * K -> Prop) s k :
  Q (Ok (call k).1) (s, (call k).2) -> wp (sys call) Q (s, k).
Proof using Type. unfold wp, sys. cbn. by destruct (call k). Qed.

Lemma wp_wait n fds t s k (Q : result SinkError (list Fd) -> AflSink * K -> Prop) :
  (v_signals (view k) < n)%nat ->
  (forall k' l, later k k' -> l <> [] -> (forall fd, fd ∈ l -> fd ∈ fds /\ readable fd (view k')) -> Q (Ok l) (s, k')) ->
  (forall k' e, later k k' -> Q (Err e) (s, k')) ->
  wp (wait_for_data n fds t) Q (s, k).
Proof using Type.
  intros Hn HOk HErr. revert k Hn HOk HErr. induction n as [|n IH]; intros k Hn HOk HErr; [lia|].
  cbn [wait_for_data]. apply wp_bind, wp_sys. pose proof (poll_moves fds t k) as Hm.
  destruct ((k_poll fds t k).1) as [[|fd l]| | |] eqn:Ep; cbv beta iota.
  - by apply HErr.
  - apply HOk; [done|done|]. intros fd' Hin. by eapply poll_ready.
  - by apply HErr.
  - apply IH.
    + pose proof (poll_interrupted fds t k Ep). lia.
    + intros k' l' Hl. apply HOk. unfold later in *. by etrans.
    + intros k' e Hl. apply HErr. unfold later in *. by etrans.
  - by apply HErr.
Qed.

Lemma wp_attempt {A} (m : SM A) (Q : result SinkError (result SinkError A) -> AflSink * K -> Prop) sk :
  wp m (fun r sk' => Q (Ok r) sk') sk -> wp (attempt m) Q sk.
Proof using Type. intros Hm. by apply wp_after. Qed.

(** Nothing runs and nothing is unread; [ended] is what ended so far. *)
Record idle (ended : list (Z * Z)) (s : AflSink) (k : K) : Prop := {
  id_pid : sk_child_pid s = None;
  id_child : v_child (view k) = None;
  id_pending : v_pending (view k) = [];
  id_ended : v_ended (view k) = ended;
}.

Lemma idle_later ended s k k' : later k k' -> idle ended s k -> idle ended s k'.
Proof using Type. intros Hl [H1 H2 H3 H4]. destruct (moves_idle _ _ Hl H2) as (E1 & _ & E3 & E4). split; congruence. Qed.

Lemma wp_flush n ended s k b (Q : result SinkError (list Z) -> AflSink * K -> Prop) :
  idle ended s k -> (v_signals (view k) < fuel)%nat -> (length (v_ft (view k)) < n)%nat ->
  (forall k' b', idle ended s k' -> (v_signals (view k') < fuel)%nat -> Q (Ok b') (s, k')) ->
  wp (flush_ft_pipe fuel n b) Q (s, k).
Proof using Type.
  intros Hi Hs. revert b k Hi Hs. induction n as [|n IH]; intros b k Hi Hs Hn HQ; [lia|]. cbn [flush_ft_pipe].
  apply wp_bind, wp_attempt, wp_wait; [done| |].
  - intros k' l Hl Hne Hr. cbv beta iota. apply wp_bind, wp_sys. cbv beta iota.
    destruct l as [|fd l]; [done|]. destruct (Hr fd) as [Hin Hfd]; [by left|]. apply list_elem_of_singleton in Hin as ->. cbn in Hfd.
    destruct (v_ft (view k')) as [|m ft] eqn:Eft; [done|]. destruct (read_ft k' m ft Eft) as [_ Hm].
    pose proof (idle_later _ _ _ _ Hl Hi) as Hi'. pose proof (moves_idle _ _ Hl (id_child _ _ _ Hi)) as (_ & Eft' & _).
    destruct (moves_idle _ _ Hm (id_child _ _ _ Hi')) as (E1 & E2 & E3 & E4). cbn in E1, E2, E3, E4.
    apply IH.
    + destruct Hi'. split; congruence.
    + apply moves_signals in Hm. cbn in Hm. pose proof (later_signals _ _ Hl Hs). lia.
    + rewrite E2. rewrite Eft in Eft'. rewrite <- Eft' in Hn. cbn in Hn. lia.
    + intros k2 b2 Hi2 Hs2. by apply HQ.
  - intros k' e Hl. cbv beta iota. apply HQ; [by eapply idle_later|by eapply later_signals].
Qed.

(** The child is running, or its status is unread. *)
Record busy (ended : list (Z * Z)) (pid : Z) (s : AflSink) (k : K) : Prop := {
  bu_pid : sk_child_pid s = Some pid;
  bu_running : running ended pid (view k);
}.

Lemma busy_later ended pid s k k' : later k k' -> busy ended pid s k -> busy ended pid s k'.
Proof using Type. intros Hl [H1 H2]. split; [done|]. by eapply running_moves. Qed.

(** After reading the status of the child. *)
Lemma read_status ended pid s k :
  busy ended pid s k -> v_pending (view k) <> [] ->
  exists status, status_ok status /\ (k_read ReceiveFd k).1 = to_le 4 status /\
    idle (ended ++ [(pid, status)]) (with_child s None) (k_read ReceiveFd k).2 /\
    (v_signals (view (k_read ReceiveFd k).2) <= v_signals (view k))%nat.
Proof using Type.
  intros [_ [?? _|status Hc Hp Hst He]] Hne; [done|]. destruct (read_word k status [] Hp) as [E Hm]. exists status. split; [done|]. split; [done|].
  split; [|by apply moves_signals in Hm]. destruct (moves_idle _ _ Hm Hc) as (E1 & _ & E3 & E4). cbn in *. split; cbn; congruence.
Qed.

Lemma wp_spawn n ended s k (Q : result SinkError unit -> AflSink * K -> Prop) :
  idle ended s k -> (v_signals (view k) < fuel)%nat -> (length (v_ft (view k)) < n)%nat ->
  (forall pid s' k', busy ended pid s' k' -> sk_forkserver_sid s' = sk_forkserver_sid s -> (v_signals (view k') < fuel)%nat -> Q (Ok tt) (s', k')) ->
  (forall e s' k', Q (Err e) (s', k')) ->
  wp (spawn_child fuel n) Q (s, k).
Proof using Type.
  intros Hi Hs Hn HOk HErr. unfold spawn_child, maybe_purge_orphaned_files, sink_update. wp_steps. cbn [fst snd].
  set (s1 := with_purge _ _). assert (Hi1 : idle ended s1 k) by (destruct Hi; by split).
  apply (wp_flush n ended s1 k); [done..|]. clear k Hi Hs Hn Hi1. intros k b Hi Hs. apply wp_bind, wp_sys. cbv beta iota.
  destruct (write_forks k b (id_child _ _ _ Hi)) as [H4 _]. destruct (Z.eqb_spec (k_write b k).1 4) as [E4|]; [|by apply HErr].
  destruct (H4 E4) as (pid & Hpid & Hm). cbn [negb]. set (k1 := (k_write b k).2) in *.
  assert (Ha : announced ended pid (view k1)).
  { apply (announced_moves _ _ _ _ Hm). rewrite (id_pending _ _ _ Hi), (id_ended _ _ _ Hi). by apply ann_alive. }
  assert (Hs1 : (v_signals (view k1) < fuel)%nat) by (apply moves_signals in Hm; cbn in Hm; lia).
  apply wp_bind, wp_wait; [done| |by intros; apply HErr]. intros k2 l Hl _ _. cbv beta iota.
  pose proof (announced_moves _ _ _ _ Hl Ha) as Ha2. pose proof (later_signals _ _ Hl Hs1) as Hs2. apply wp_bind, wp_sys. cbv beta iota.
  assert (Hr : (k_read ReceiveFd k2).1 = to_le 4 pid /\ running ended pid (view (k_read ReceiveFd k2).2) /\
            (v_signals (view (k_read ReceiveFd k2).2) < fuel)%nat).
  { destruct Ha2 as [Hc Hp He|st Hc Hp Hst He]; destruct (read_word k2 _ _ Hp) as [E Hm2];
      (split; [done|]); (split; [|apply moves_signals in Hm2; cbn in Hm2; lia]); apply (running_moves _ _ _ _ Hm2).
    - by apply run_alive.
    - by eapply run_ended. }
  destruct Hr as (E & Hr & Hs3). rewrite E, to_le_length. cbn [Nat.eqb negb]. rewrite i32_word by (split; [lia|apply Hpid]).
  rewrite (proj2 (Z.leb_gt _ _)) by lia. apply (HOk pid); [by split|done|done].
Qed.

Lemma wp_await_killed ended pid s k (Q : result SinkError (result SinkError unit) -> AflSink * K -> Prop) :
  busy ended pid s k -> (v_signals (view k) < fuel)%nat ->
  (forall status k', idle (ended ++ [(pid, status)]) (with_child s None) k' -> Q (Ok (Ok tt)) (with_child s None, k')) ->
  (forall e k', later k k' -> Q (Ok (Err e)) (s, k')) ->
  wp (await_killed fuel) Q (s, k).
Proof using Type.
  intros Hb Hs HOk HErr. unfold await_killed. apply wp_bind, wp_attempt, wp_wait; [done| |].
  - intros k' l Hl Hne Hr. cbv beta iota. destruct l as [|fd l]; [done|]. destruct (Hr fd) as [Hin Hp]; [by left|].
    apply list_elem_of_singleton in Hin as ->. destruct (read_status _ _ _ _ (busy_later _ _ _ _ _ Hl Hb) Hp) as (st & _ & _ & Hi & _).
    apply wp_bind, wp_sys. cbv beta iota. unfold sink_update. wp_steps. by apply (HOk st).
  - intros k' e Hl. cbv beta iota. wp_steps. by apply HErr.
Qed.

Context (known_signal : Z -> bool).

(** How the status of a child is reported; [SIGTERM] counts as a normal end. *)
Definition reported (status : Z) : SinkRunResult :=
  if WIFEXITED status then Sink_Terminated (WEXITSTATUS status)
  else
    let signal := if known_signal (WTERMSIG status) then WTERMSIG status else SIGUSR2 in
    if signal =? SIGTERM then Sink_Terminated 0 else Sink_Signalled signal.

Lemma wp_exit_msg ended pid s k (Q : result SinkError SinkRunResult -> AflSink * K -> Prop) :
  busy ended pid s k -> v_pending (view k) <> [] ->
  (forall status k', idle (ended ++ [(pid, status)]) (with_child s None) k' -> Q (Ok (reported status)) (with_child s None, k')) ->
  wp (handle_child_exit_msg known_signal) Q (s, k).
Proof using Type.
  intros Hb Hne HQ. destruct (read_status _ _ _ _ Hb Hne) as (status & [Hf Hk] & E & Hi & _). specialize (HQ status _ Hi).
  unfold handle_child_exit_msg. apply wp_bind, wp_sys. cbv beta iota. rewrite E, to_le_length. cbn [Nat.eqb negb].
  rewrite (i32_word status Hf). unfold reported in HQ. destruct (WIFEXITED status); [exact HQ|]. cbn [orb] in Hk. rewrite Hk.
  cbn zeta in *. destruct (_ =? SIGTERM); exact HQ.
Qed.

Context (config : SinkConfig).

(** The result of waiting for a child: its status is reported, or it was killed. *)
Definition ended_as (ended : list (Z * Z)) (pid : Z) (res : SinkRunResult) (s : AflSink) (k : K) : Prop :=
  exists status, idle (ended ++ [(pid, status)]) s k /\ (res = reported status \/ res = Sink_TimedOut).

(** Waiting tells whether a status is there. *)
Definition waited (s : AflSink) (k : K) (r : result SinkError (result SinkError (list Fd))) (sk : AflSink * K) : Prop :=
  sk.1 = s /\ later k sk.2 /\ match r with Ok (Ok _) => v_pending (view sk.2) <> [] | Ok (Err _) => True | Err _ => False end.

Lemma wp_wait_receive t s k : (v_signals (view k) < fuel)%nat -> wp (attempt (wait_for_data fuel [ReceiveFd] t)) (waited s k) (s, k).
Proof using Type.
  intros Hs. apply wp_attempt, wp_wait; [done| |by intros k' e Hl].
  intros k' l Hl Hne Hr. destruct l as [|fd l]; [done|]. destruct (Hr fd) as [Hin Hp]; [by left|]. by apply list_elem_of_singleton in Hin as ->.
Qed.

Lemma wp_wait_state pid timeout (after_ : option Z) s k :
  (v_signals (view k) < fuel)%nat ->
  wp (match after_ with
      | Some delay =>
          ret ← attempt (wait_for_data fuel [ReceiveFd] delay);
          match ret with
          | Err _ => _ ← sys_ (k_kill pid SIGTERM); attempt (wait_for_data fuel [ReceiveFd] timeout)
          | Ok l => mret (Ok l)
          end
      | None => attempt (wait_for_data fuel [ReceiveFd] timeout)
      end) (waited s k) (s, k).
Proof using Type.
  intros Hs. destruct after_ as [delay|]; [|by apply wp_wait_receive]. apply wp_bind. eapply wp_mono; [by apply wp_wait_receive|].
  intros r [s' k1] (E & Hl & Hr). cbn [fst snd] in *. subst s'. destruct r as [[l|e]|]; [by split| |done].
  unfold sys_. wp_steps. cbn [fst snd]. pose proof (kill_moves pid SIGTERM k1) as Hm.
  assert (Hl2 : later k (k_kill pid SIGTERM k1)) by (unfold later in *; by etrans).
  eapply wp_mono; [apply wp_wait_receive; by eapply later_signals|]. intros r [s' k2] (E & Hl3 & Hr3). cbn [fst snd] in *.
  split; [done|]. split; [unfold later in *; by etrans|done].
Qed.

Lemma wp_termination ended pid timeout kill sigterm s k :
  busy ended pid s k -> (v_signals (view k) < fuel)%nat -> is_Some (sk_forkserver_sid s) ->
  wp (wait_for_child_termination config known_signal fuel timeout kill sigterm)
    (fun r sk => match r with Ok res => ended_as ended pid res sk.1 sk.2 | Err _ => sk_child_pid sk.1 = None end) (s, k).
Proof using Type.
  intros Hb Hs [sid Hsid]. unfold wait_for_child_termination, sink_get. wp_steps. cbn [fst]. rewrite (bu_pid _ _ _ _ Hb).
  eapply wp_lift; [reflexivity|]. cbv beta iota. apply wp_bind.
  assert (Hk : forall k1, later k k1 -> busy ended pid s k1 /\ (v_signals (view k1) < fuel)%nat).
  { intros k1 Hl. split; [by eapply busy_later|by eapply later_signals]. }
  assert (Hkill : wp (if kill then sys_ (k_kill pid SIGKILL) else mret tt) (fun r sk => r = Ok tt /\ sk.1 = s /\ later k sk.2) (s, k)).
  { destruct kill; [unfold sys_|]; wp_steps; (split; [done|]); (split; [done|]); [apply kill_moves|unfold later; reflexivity]. }
  eapply wp_mono; [exact Hkill|]. intros r [s' k1] (-> & E & Hl1). cbv beta iota. cbn [fst snd] in E, Hl1. subst s'.
  destruct (Hk k1 Hl1) as [Hb1 Hs1]. clear k Hb Hs Hk Hkill Hl1. rename k1 into k. apply wp_bind.
  eapply wp_mono; [by apply wp_wait_state|]. cbv beta. intros r [s' k1] (E & Hl & Hr). cbn [fst snd] in E, Hl, Hr. subst s'. pose proof (busy_later _ _ _ _ _ Hl Hb1) as Hb.
  pose proof (later_signals _ _ Hl Hs1) as Hs. destruct r as [[l|e]|]; [| |done].
  - eapply wp_exit_msg; [exact Hb|exact Hr|]. intros st k2 Hi. exists st. split; [exact Hi|by left].
  - unfold sys_. wp_steps. cbn [fst snd]. pose proof (kill_moves pid SIGKILL k1) as Hm.
    apply (wp_await_killed ended pid); [by eapply busy_later|by eapply later_signals| |].
    + intros st k2 Hi. cbv beta iota. wp_steps. exists st. split; [exact Hi|by right].
    + intros e' k2 Hl2. cbv beta iota. wp_steps. cbn [fst]. rewrite Hsid. eapply wp_lift; [reflexivity|]. cbv beta iota.
      apply wp_bind, wp_sys. cbv beta iota. unfold sink_update, sink_fail. by wp_steps.
Qed.

(** C22: the worker stays in step with the fork server.  Starting from an idle fork server, a
    run of the sink never panics and never waits for ever; when it returns a result,
    exactly one child was started and ended, the result is the one its exit status stands
    for (or the child was killed for taking too long), and the fork server is idle again
    with nothing unread: the next run reads the answers to its own request. *)
Theorem sink_run_in_step n timeout ended s k :
  idle ended s k -> is_Some (sk_forkserver_sid s) -> (v_signals (view k) < fuel)%nat -> (length (v_ft (view k)) < n)%nat ->
  exists r s' k', sink_run config known_signal fuel n timeout (s, k) = Ret (r, (s', k')) /\
    match r with
    | Ok res => exists pid status, idle (ended ++ [(pid, status)]) s' k' /\ (res = reported status \/ res = Sink_TimedOut)
    | Err _ => True
    end.
Proof using Type.
  intros Hi Hsid Hs Hn. assert (Hwp : wp (sink_run config known_signal fuel n timeout) (fun r sk => match r with
    | Ok res => exists pid status, idle (ended ++ [(pid, status)]) sk.1 sk.2 /\ (res = reported status \/ res = Sink_TimedOut)
    | Err _ => True end) (s, k)).
  { unfold sink_run. wp_step. apply (wp_spawn n ended); [done..| |done]. intros pid s1 k1 Hb Es Hs1. cbv beta iota.
    eapply wp_mono; [eapply wp_termination; [exact Hb|exact Hs1|by rewrite Es]|]. intros [res|] [s2 k2]; [|done]. cbn [fst snd].
    intros (st & Hst). by exists pid, st. }
  apply wp_result in Hwp as (r & [s' k'] & E & Hr). by exists r, s', k'.
Qed.
End run.

(** ** Witnesses *)

(** A fork server whose children exit at once with code three. *)
Definition demo_step (v : View) : View :=
  match v_child v with
  | Some p => mk_view (v_pending v ++ [768]) (v_ft v) None (v_ended v ++ [(p, 768)]) (v_signals v)
  | None => v
  end.

#[local] Instance demo_kernel : Kernel View := {|
  k_poll fds _ v :=
    (if bool_decide (ReceiveFd ∈ fds /\ v_pending (demo_step v) <> []) then PollReady [ReceiveFd] else PollTimedOut, demo_step v);
  k_read fd v :=
    match fd with
    | ReceiveFd => match v_pending v with
                   | m :: l => (to_le 4 m, mk_view l (v_ft v) (v_child v) (v_ended v) (v_signals v))
                   | [] => ([], v)
                   end
    | FtReceiveFd => match v_ft v with
                     | m :: l => (to_le 4 m, mk_view (v_pending v) l (v_child v) (v_ended v) (v_signals v))
                     | [] => ([], v)
                     end
    end;
  k_write _ v :=
    match v_child v with
    | None => (4, mk_view (v_pending v ++ [77]) (v_ft v) (Some 77) (v_ended v) (v_signals v))
    | Some _ => (0, v)
    end;
  k_kill _ _ v := v;
  k_fork v := (5, v);
  k_killpg _ _ v := v;
  k_wait_pid _ _ v := (true, v);
  k_exit_reason _ v := (true, v);
|}.

Lemma demo_step_moves v : moves v (demo_step v).
Proof. destruct v as [pe ft [p|] en n]; [|apply mv_done]. cbn. eapply mv_exit; [|apply mv_done]. by split. Qed.

#[local] Program Instance demo_fork_server : ForkServer View := {| view v := v |}.
Next Obligation. intros. apply demo_step_moves. Qed.
Next Obligation. intros fds t k. cbn. by case_bool_decide. Qed.
Next Obligation.
  intros fds t k l fd. cbn. case_bool_decide as Hd; [|done]. intros [= <-] ->%list_elem_of_singleton. exact Hd.
Qed.
Next Obligation. intros. apply mv_done. Qed.
Next Obligation. intros. apply mv_done. Qed.
Next Obligation. intros k m l E. cbn in *. rewrite E. split; [done|apply mv_done]. Qed.
Next Obligation. intros k m l E. cbn in *. rewrite E. split; [done|apply mv_done]. Qed.
Next Obligation.
  intros k b E. cbn in *. rewrite E. split; [|done]. intros _. exists 77. split; [done|]. apply mv_done.
Qed.

Definition demo_sink_config : SinkConfig :=
  mk_sink_config (path "/bin/true") [] [] In_File Out_None false false true None None None None false.
Definition demo_sink : AflSink := mk_afl_sink (demo_map 0) None (Some 5) false 0 0 0 [].

Lemma sink_run_in_step_witness :
  exists s k, sink_run demo_sink_config (fun _ => true) 3 3 (secs 1) (demo_sink, mk_view [] [1; 2] None [] 0)
                = Ret (Ok (Sink_Terminated 3), (s, k)) /\ idle [(77, 768)] s k.
Proof.
  destruct (sink_run_in_step 3 (fun _ => true) demo_sink_config 3 (secs 1) [] demo_sink (mk_view [] [1; 2] None [] 0))
    as (r & s & k & E & Hr).
  - by split.
  - by eexists.
  - cbn. lia.
  - cbn. lia.
  - destruct r as [res|e]; [|exfalso; revert E; vm_compute; discriminate].
    destruct Hr as (pid & status & Hi & _). exists s, k.
    assert (Hv : res = Sink_Terminated 3 /\ pid = 77 /\ status = 768).
    { pose proof (id_ended _ _ _ Hi) as He. revert E He. vm_compute. intros [= <- <- <-]. by intros [= <- <-]. }
    destruct Hv as (-> & -> & ->). split; [exact E|exact Hi].
Defined.
