(* ===== verification/Common.v ===== *)
(** * Running source and sink together

    Models [scheduler/src/fuzzer/common.rs], [scheduler/src/fuzzer/common_networked.rs] and
    the endpoints of [scheduler/src/networked.rs] on top of the source of [Source] and the
    sink of [Sink].  What the source writes to its output and the consumer to the
    coverage map, whether a message queue accepts a message, the clock and the hash of
    [ahash] are arguments; [tcpdump] is left out, so the recorded packets are an argument
    too.  Errors of [anyhow] are the values of [CommonError]: those the callers look for,
    and all others. *)

From S2P Require Import Prelude Effects Bytes Rng FiniteIntegerSet Bitmap Mutators MutationCacheEntry MutationCacheContent MutationCache Messages Trace MutationSite MutationCacheOps AuxStream Source Queue EventCounter Cerebrum Scheduling RunCommon MutatorSteps Phases Config Sink.

Definition CALIBRATION_MEASURE_CYCLES : nat := 20.
Definition DEFAULT_CALIBRATION_TIMEOUT : Z := secs 1.
Definition MAX_OUTPUT_SIZE : Z := 1024 * 1024.

(** ** Data *)

Inductive InputType := InputType_Input (i : Input) | InputType_Bytes (b : list Z) | InputType_Parent (e : QueueEntry).

Definition InputType_bytes (t : InputType) : list Z :=
  match t with
  | InputType_Input i => input_data i
  | InputType_Bytes b => b
  | InputType_Parent e => input_data (qe_input e)
  end.

Inductive ServerRunResult := Server_Source (r : RunResult) | Server_Sink (r : SinkRunResult).

Inductive CalibrationError :=
| SourceUnstable
| SinkUnstable
| SourceExecutionFailed (r : RunResult)
| SinkExecutionFailed (r : SinkRunResult)
| ServerExecutionFailed (r : ServerRunResult)
| CE_NoSourceOutput
| ExecutionDurationVarianceTooHight.

(** [ExecError] with the messages of the source left out is the one of [RunCommon]. *)
Inductive CommonError := Calibration (e : CalibrationError) | Exec (e : ExecError) | Unexpected.

Definition source_result (r : RunResult) : SourceRunResult :=
  match r with
  | RR_Terminated c _ => Source_Terminated c
  | RR_Signalled s _ => Source_Signalled s
  | RR_TimedOut _ => Source_TimedOut
  end.

(** [TryFrom<WaitForPeerResult>]; [Ready] can not be converted. *)
Definition source_of_peer (r : WaitForPeerResult) : option RunResult :=
  match r with
  | WP_Terminated c => Some (RR_Terminated c [])
  | WP_Signalled s => Some (RR_Signalled s [])
  | WP_TimedOut => Some (RR_TimedOut [])
  | WP_Ready => None
  end.
Definition sink_of_peer (r : WaitForPeerResult) : option SinkRunResult :=
  match r with
  | WP_Terminated c => Some (Sink_Terminated c)
  | WP_Signalled s => Some (Sink_Signalled s)
  | WP_TimedOut => Some Sink_TimedOut
  | WP_Ready => None
  end.

Inductive NetworkedRunResult := Net_Terminated (exit_code : Z) | Net_Signalled (signal : Z) | Net_TimedOut.
Definition networked_of_source (r : RunResult) : NetworkedRunResult :=
  match r with
  | RR_Terminated c _ => Net_Terminated c
  | RR_Signalled s _ => Net_Signalled s
  | RR_TimedOut _ => Net_TimedOut
  end.
Definition networked_of_sink (r : SinkRunResult) : NetworkedRunResult :=
  match r with
  | Sink_Terminated c => Net_Terminated c
  | Sink_Signalled s => Net_Signalled s
  | Sink_TimedOut => Net_TimedOut
  end.

(** Which of the two is the client and which the server. *)
Inductive Client := Client_Source | Client_AflSink.
Inductive Server := Server_IsSource | Server_IsAflSink.

Section common.
Context {K : Type} `{Kernel K} `{L : EntryLayout} `{CL : ContentLayout}.
(** The parameters of [Source] *)
Context (max_msg_len : nat) (pad : nat -> Z) (signal_try_from : Z -> option Z) (SIGBUS : Z).
(** the fuel of [Sink]: interrupted polls, discarded messages, and messages of a server *)
Context (polls flushes server_messages : nat).
Context (config : Config) (new_cache : outcome MutationCache) (patch_points : result unit (list MutationSite)).
Context (hash : list Z -> Z).
(** at a given step: does the queue accept a message, what did the source write, what did the
    instrumented consumer write to each byte of the coverage map, the clock in nanoseconds, and
    the packets of [tcpdump] *)
Context (send_ok : nat -> bool) (produced : nat -> list Z) (covered_bytes : nat -> nat -> Z) (now : nat -> Z) (pcap : nat -> option (list Z)).
Context (sha256_hex : list Z -> string).

Record Pair := mk_pair {
  pr_source : Source;
  pr_sink : AflSink;
  pr_kernel : K;
  (** the input file of the source *)
  pr_input : list Z;
  (** [SEEN_OUTPUT_HASHES] *)
  pr_seen : gset Z;
  (** the buffer for the output of the source *)
  pr_buffer : list Z;
  pr_qstate : QState;
  (** the virgin map [common_calibrate] is given *)
  pr_virgin : option Bitmap;
  (** every input the sink was run with *)
  pr_sunk : list (list Z);
  pr_step : nat;
}.

Definition PM (A : Type) : Type := eff Pair CommonError A.

Definition pr_with_source p s := mk_pair s (pr_sink p) (pr_kernel p) (pr_input p) (pr_seen p) (pr_buffer p) (pr_qstate p) (pr_virgin p) (pr_sunk p) (S (pr_step p)).
Definition pr_with_sink p s k := mk_pair (pr_source p) s k (pr_input p) (pr_seen p) (pr_buffer p) (pr_qstate p) (pr_virgin p) (pr_sunk p) (S (pr_step p)).
Definition pr_with_input p d := mk_pair (pr_source p) (pr_sink p) (pr_kernel p) d (pr_seen p) (pr_buffer p) (pr_qstate p) (pr_virgin p) (pr_sunk p) (pr_step p).
Definition pr_with_seen p x := mk_pair (pr_source p) (pr_sink p) (pr_kernel p) (pr_input p) x (pr_buffer p) (pr_qstate p) (pr_virgin p) (pr_sunk p) (pr_step p).
Definition pr_with_buffer p b := mk_pair (pr_source p) (pr_sink p) (pr_kernel p) (pr_input p) (pr_seen p) b (pr_qstate p) (pr_virgin p) (pr_sunk p) (S (pr_step p)).
Definition pr_with_qstate p q := mk_pair (pr_source p) (pr_sink p) (pr_kernel p) (pr_input p) (pr_seen p) (pr_buffer p) q (pr_virgin p) (pr_sunk p) (pr_step p).
Definition pr_with_virgin p v := mk_pair (pr_source p) (pr_sink p) (pr_kernel p) (pr_input p) (pr_seen p) (pr_buffer p) (pr_qstate p) v (pr_sunk p) (pr_step p).
Definition pr_with_sunk p d := mk_pair (pr_source p) (pr_sink p) (pr_kernel p) (pr_input p) (pr_seen p) (pr_buffer p) (pr_qstate p) (pr_virgin p) (pr_sunk p ++ [d]) (pr_step p).
Definition pr_tick p := mk_pair (pr_source p) (pr_sink p) (pr_kernel p) (pr_input p) (pr_seen p) (pr_buffer p) (pr_qstate p) (pr_virgin p) (pr_sunk p) (S (pr_step p)).

Definition common_fail {A} (e : CommonError) : PM A := of_result (Err e).

(** Steps of the source and of the sink; their errors are unexpected ones. *)
Definition on_source {A} (m : bool -> Source.SM A) : PM A := fun p =>
  match m (send_ok (pr_step p)) (pr_source p) with
  | Ret (Ok a, s) => Ret (Ok a, pr_with_source p s)
  | Ret (Err _, s) => Ret (Err Unexpected, pr_with_source p s)
  | Panic => Panic
  end.
Definition on_sink {A} (m : Sink.SM A) : PM A := fun p =>
  match m (pr_sink p, pr_kernel p) with
  | Ret (Ok a, (s, k)) => Ret (Ok a, pr_with_sink p s k)
  | Ret (Err _, (s, k)) => Ret (Err Unexpected, pr_with_sink p s k)
  | Panic => Panic
  end.

Definition the_time : PM Z := fun p => Ret (Ok (now (pr_step p)), pr_tick p).

Definition known_signal (n : Z) : bool := match signal_try_from n with Some _ => true | None => false end.

(** ** The source *)

(** [Source::write]: networked sources have no input file. *)
Definition source_write (data : list Z) : PM unit :=
  match so_input_type (c_source config) with
  | In_Stdin | In_File => update (fun p => pr_with_input p data)
  | In_None | In_Tcp | In_Udp => mret tt
  end.

(** [Source::read]: outputs that are too long are discarded. *)
Definition source_read : PM unit :=
  match so_output_type (c_source config) with
  | Out_File | Out_Stdout =>
      update (fun p =>
        let data := produced (pr_step p) in
        pr_with_buffer p (if Z.of_nat (length data) <=? MAX_OUTPUT_SIZE then data else []))
  | Out_Tcp | Out_Udp => update (fun p => pr_with_buffer p [])
  | Out_None => panic
  end.

Definition source_run (timeout : Z) : PM RunResult :=
  on_source (fun ok => Source_run max_msg_len pad signal_try_from SIGBUS ok (timeout / 10 ^ 6)).

(** [Source::mutation_cache_replace(..)?] *)
Definition source_cache_replace (mc : MutationCache) : PM unit := fun p =>
  match MutationCache_replace_content (s_mutation_cache (pr_source p)) mc with
  | Ret (Ok mc) => Ret (Ok tt, pr_with_source p (with_cache (pr_source p) mc))
  | Ret (Err _) => Ret (Err Unexpected, p)
  | Panic => Panic
  end.

(** ** The sink *)

(** The coverage map is memory the consumer shares; this is what a child wrote until it ended. *)
Definition collect : PM unit :=
  update (fun p =>
    let m := sk_bitmap (pr_sink p) in
    pr_with_sink p (with_bitmap (pr_sink p) (with_data m (covered_bytes (pr_step p) <$> seq 0 (length (bm_data m))))) (pr_kernel p)).

Definition run_sink (timeout : Z) : PM SinkRunResult :=
  r ← on_sink (sink_run (c_sink config) known_signal polls flushes timeout); _ ← collect; mret r.
(** [sink.write(data)], which is followed by a run. *)
Definition write_sink (data : list Z) : PM unit :=
  _ ← on_sink (sink_write data); update (fun p => pr_with_sunk p data).
Definition sink_bitmap : PM Bitmap := get (fun p => sk_bitmap (pr_sink p)).
Definition set_sink_bitmap (m : Bitmap) : PM unit := update (fun p => pr_with_sink p (with_bitmap (pr_sink p) m) (pr_kernel p)).

(** ** Clients and servers *)

Definition as_millis (timeout : Z) : Z := timeout / 10 ^ 6.

Definition source_spawn (timeout : Z) : PM unit := on_source (fun ok => Source.spawn max_msg_len pad ok (as_millis timeout)).
Definition source_wait (kill_child : bool) : PM RunResult :=
  on_source (fun _ => Source.wait_for_child_termination max_msg_len signal_try_from SIGBUS kill_child).
Definition sink_spawn : PM unit := on_sink (spawn_child polls flushes).
Definition sink_wait (timeout : Z) (kill_child : bool) : PM SinkRunResult :=
  r ← on_sink (Sink.wait_for_child_termination (c_sink config) known_signal polls timeout kill_child None); _ ← collect; mret r.

Definition Client_spawn (client : Client) (timeout : Z) : PM unit :=
  match client with Client_Source => source_spawn timeout | Client_AflSink => sink_spawn end.

Definition Client_wait_until_connect (client : Client) : PM WaitForPeerResult :=
  match client with
  | Client_Source =>
      let source_uses_tcp := match so_output_type (c_source config) with Out_Tcp => true | _ => false end in
      if negb (default false (so_is_server (c_source config))) && source_uses_tcp
      then on_source (fun _ => wait_until_connect max_msg_len signal_try_from)
      else mret WP_Ready
  | Client_AflSink => mret WP_Ready
  end.

Definition Client_wait_for_child_termination (client : Client) (timeout : Z) (kill_child : bool) : PM NetworkedRunResult :=
  match client with
  | Client_Source => r ← source_wait kill_child; mret (networked_of_source r)
  | Client_AflSink => r ← sink_wait timeout kill_child; mret (networked_of_sink r)
  end.

Definition Server_wait_until_listening (server : Server) (timeout : Z) : PM WaitForPeerResult :=
  match server with
  | Server_IsSource => on_source (fun _ => wait_until_listening max_msg_len signal_try_from)
  | Server_IsAflSink => on_sink (wait_for_server (c_sink config) known_signal polls server_messages timeout)
  end.

Definition Server_spawn (server : Server) (timeout : Z) : PM unit :=
  match server with Server_IsSource => source_spawn timeout | Server_IsAflSink => sink_spawn end.

Definition Server_wait_for_child_termination (server : Server) (timeout : Z) (kill_child : bool) : PM NetworkedRunResult :=
  match server with
  | Server_IsSource => r ← source_wait kill_child; mret (networked_of_source r)
  | Server_IsAflSink => r ← sink_wait timeout kill_child; mret (networked_of_sink r)
  end.

Definition Server_port (server : Server) : option string :=
  match server with
  | Server_IsSource => so_server_port (c_source config)
  | Server_IsAflSink => si_server_port (c_sink config)
  end.

(** [config.source.is_server.unwrap()] decides who is who. *)
Definition endpoints : PM (Client * Server) :=
  is_server ← lift_outcome (unwrap (so_is_server (c_source config)));
  mret (if is_server : bool then (Client_AflSink, Server_IsSource) else (Client_Source, Server_IsAflSink)).

(** ** Networked runs *)

(** Both networked runs: [not_ready] and [not_connected] are the errors of a server that does
    not accept connections and of a client that does not connect. *)
Definition networked_run (not_ready not_connected : WaitForPeerResult -> outcome CommonError) (timeout : Z) : PM SinkRunResult :=
  ends ← endpoints;
  let (client, server) := ends : Client * Server in
  _ ← Server_spawn server timeout;
  ret ← Server_wait_until_listening server timeout;
  match ret with
  | WP_Terminated _ | WP_Signalled _ | WP_TimedOut => e ← lift_outcome (not_ready ret); common_fail e
  | WP_Ready =>
      _ ← Client_spawn client timeout;
      ret ← Client_wait_until_connect client;
      match ret with
      | WP_Terminated _ | WP_Signalled _ | WP_TimedOut =>
          err ← lift_outcome (not_connected ret);
          _ ← Server_wait_for_child_termination server timeout true;
          common_fail err
      | WP_Ready =>
          consumer_result ← sink_wait timeout false;
          _ ← source_wait true;
          mret consumer_result
      end
  end.

(** The server's failure is reported as one of the source. *)
Definition networked_common_calibration_run (timeout : Z) : PM SinkRunResult :=
  networked_run
    (fun ret => r ← unwrap (source_of_peer ret); mret (Calibration (SourceExecutionFailed r)))
    (fun ret => r ← unwrap (sink_of_peer ret); mret (Calibration (SinkExecutionFailed r)))
    timeout.

Definition networked_common_run (timeout : Z) : PM SinkRunResult :=
  networked_run (fun _ => mret (Exec NoSourceOutput)) (fun _ => mret (Exec NoSourceOutput)) timeout.

(** ** Runs over files *)

(** [source.write], [source.run] and [source.read]; [failed] is the error of a source that does
    not terminate by itself. *)
Definition produce (failed : RunResult -> CommonError) (no_output : CommonError) (data : list Z) (timeout : Z) : PM (list Z) :=
  _ ← source_write data;
  success ← source_run timeout;
  match success with
  | RR_Terminated _ _ =>
      _ ← source_read;
      sink_input ← get pr_buffer;
      if bool_decide (sink_input = []) then common_fail no_output else mret sink_input
  | _ => common_fail (failed success)
  end.

Definition common_calibration_run (data : list Z) (timeout : Z) : PM SinkRunResult :=
  if target_uses_network config then networked_common_calibration_run timeout
  else
    sink_input ← produce (fun r => Calibration (SourceExecutionFailed r)) (Calibration CE_NoSourceOutput) data timeout;
    _ ← write_sink sink_input;
    run_sink timeout.

(** The locks of [SEEN_OUTPUT_HASHES] are taken one after the other; here nothing happens in
    between. *)
Definition common_run (source_input_bytes : list Z) (timeout : Z) : PM SinkRunResult :=
  scratch_buffer ← produce (fun r => Exec (SourceError (source_result r))) (Exec NoSourceOutput) source_input_bytes timeout;
  let h := hash scratch_buffer in
  seen ← get pr_seen;
  if bool_decide (h ∈ seen) then common_fail (Exec DuplicatedOutput)
  else
    _ ← update (fun p => pr_with_seen p ({[ h ]} ∪ pr_seen p));
    _ ← write_sink scratch_buffer;
    run_sink timeout.

(** ** Tracing *)

Definition source_enable_tracing : PM unit := on_source (fun ok => enable_tracing max_msg_len pad ok).

(** The networked part of [common_trace] once tracing is enabled: the errors up to the last line
    leave the whole function, the result of the last line is a value. *)
Definition traced_run (client : Client) (server : Server) (timeout : Z) : PM (result CommonError (RunResult * Trace)) :=
  _ ← Server_spawn server timeout;
  ret ← Server_wait_until_listening server timeout;
  match ret with
  | WP_Terminated _ | WP_Signalled _ | WP_TimedOut =>
      is_server ← lift_outcome (unwrap (so_is_server (c_source config)));
      e ← lift_outcome (if is_server : bool
                        then r ← unwrap (source_of_peer ret); mret (Server_Source r)
                        else r ← unwrap (sink_of_peer ret); mret (Server_Sink r));
      common_fail (Calibration (ServerExecutionFailed e))
  | WP_Ready =>
      _ ← Client_spawn client timeout;
      producer_result ← source_wait false;
      _ ← sink_wait timeout true;
      after (on_source (fun _ => disable_tracing_and_process_result producer_result)) (fun r => mret r)
  end.

Definition networked_trace (timeout : Z) : PM (result CommonError (RunResult * Trace)) :=
  ends ← endpoints;
  _ ← source_enable_tracing;
  traced_run ends.1 ends.2 timeout.

Definition common_trace (data : list Z) (timeout : Z) : PM Trace :=
  pp ← of_result (match patch_points with Ok pp => Ok pp | Err _ => Err Unexpected end);
  trace_mc ← lift_outcome (from_patchpoints new_cache pp);
  current_mc ← get (fun p => s_mutation_cache (pr_source p));
  mc_backup ← lift_outcome (MutationCache_try_clone current_mc new_cache);
  trace_mc ← lift_outcome (MutationCache_union_and_replace trace_mc current_mc);
  _ ← source_cache_replace trace_mc;
  trace_result ←
    (if target_uses_network config then networked_trace timeout
     else
       _ ← source_write data;
       after (on_source (fun ok => Source_trace max_msg_len pad signal_try_from SIGBUS ok (as_millis timeout))) (fun r => mret r));
  _ ← source_cache_replace mc_backup;
  match trace_result with
  | Ok (RR_Terminated _ _, trace) =>
      _ ← source_read;
      sink_input ← get pr_buffer;
      if negb (target_uses_network config) && bool_decide (sink_input = []) then common_fail (Calibration CE_NoSourceOutput)
      else mret trace
  | Ok (run_result, _) => common_fail (Calibration (SourceExecutionFailed run_result))
  | Err e => common_fail e
  end.

(** ** Calibration *)

(** [avg_exec_duration_raw().mul_f64(2.0)], which is exact for the durations of executions, or the
    default; twice as long for a sink that is stopped with [SIGTERM]. *)
Definition calibration_timeout (parent : option QueueEntry) : Z :=
  let default_timeout :=
    match parent with Some e => qe_avg_exec_duration_raw e * 2 | None => DEFAULT_CALIBRATION_TIMEOUT end in
  if si_send_sigterm (c_sink config) then default_timeout * 2 else default_timeout.

(** Anything but a termination is a failed calibration, except for the crash of a crashing input. *)
Definition acceptable (is_crash : bool) (sink_res : SinkRunResult) : bool :=
  match sink_res with
  | Sink_Terminated _ => true
  | Sink_Signalled _ => is_crash
  | Sink_TimedOut => false
  end.

(** One cycle: its duration and the classified map, which is cleared from the virgin map. *)
Definition calibration_cycle (data : list Z) (default_timeout : Z) (is_crash : bool) : PM (Z * Bitmap) :=
  cycle_start_ts ← the_time;
  sink_res ← common_calibration_run data default_timeout;
  if negb (acceptable is_crash sink_res) then common_fail (Calibration (SinkExecutionFailed sink_res))
  else
    end_ts ← the_time;
    let calibration_round_duration := Z.max 0 (end_ts - cycle_start_ts) in
    if negb (si_send_sigterm (c_sink config)) && (default_timeout <? calibration_round_duration)
    then common_fail (Calibration ExecutionDurationVarianceTooHight)
    else
      bitmap ← sink_bitmap;
      let bitmap := Bitmap_classify_counts bitmap in
      _ ← set_sink_bitmap bitmap;
      copy ← lift_outcome (Bitmap_clone bitmap);
      _ ← update (fun p => pr_with_virgin p ((fun virgin_map => (Bitmap_has_new_bit bitmap virgin_map).2) <$> pr_virgin p));
      mret (calibration_round_duration, copy).

(** The durations and the maps of all cycles. *)
Fixpoint calibration_cycles (n : nat) (data : list Z) (default_timeout : Z) (is_crash : bool) : PM (list (Z * Bitmap)) :=
  match n with
  | O => mret []
  | S n =>
      c ← calibration_cycle data default_timeout is_crash;
      l ← calibration_cycles n data default_timeout is_crash;
      mret (c :: l)
  end.

(** [iter().max().unwrap()] *)
Definition max_duration (l : list Z) : outcome Z :=
  match l with [] => Panic | d :: l => Ret (foldl Z.max d l) end.

Fixpoint hash_all (maps : list Bitmap) : outcome (list Z) :=
  match maps with
  | [] => Ret []
  | m :: maps => h ← Bitmap_hash32 m; hs ← hash_all maps; mret (h :: hs)
  end.

(** [n_mib_bytes!(4)] *)
Definition MAX_PCAP_SIZE : Z := 4 * 1024 * 1024.
Definition keep_pcap (pcap : option (list Z)) : option (list Z) :=
  match pcap with
  | Some f => if MAX_PCAP_SIZE <? Z.of_nat (length f) then None else Some f
  | None => None
  end.

(** The input of the new entry: fresh bytes go through the cache of inputs. *)
Definition calibration_input (input : InputType) : PM Input :=
  match input with
  | InputType_Bytes b => fun p =>
      let (i, qs) := Input_from_bytes sha256_hex (pr_qstate p) b None in Ret (Ok i, pr_with_qstate p qs)
  | InputType_Input i => mret i
  | InputType_Parent e => mret (qe_input e)
  end.

Definition new_queue_entry (make : QState -> outcome (QueueEntry * QState)) : PM QueueEntry := fun p =>
  match make (pr_qstate p) with
  | Ret (qe, qs) => Ret (Ok qe, pr_with_qstate p qs)
  | Panic => Panic
  end.

Definition common_calibrate (input : InputType) (finder : option nat) (phase : option FuzzingPhase)
    (mutator : option MutatorType) (patch_point : option Z) (is_crash : bool) (parent : option QueueEntry) : PM QueueEntry :=
  let data := InputType_bytes input in
  cycles ← calibration_cycles CALIBRATION_MEASURE_CYCLES data (calibration_timeout parent) is_crash;
  timeout ← lift_outcome (max_duration cycles.*1);
  hashes ← lift_outcome (hash_all cycles.*2);
  let varying := (1 <? size (list_to_set hashes : gset Z))%nat in
  if varying && negb (si_allow_unstable_sink (c_sink config)) then common_fail (Calibration SinkUnstable)
  else
    bitmap ← sink_bitmap;
    let bitmap := Bitmap_classify_counts bitmap in
    _ ← set_sink_bitmap bitmap;
    qe_hash ← lift_outcome (Bitmap_hash32 bitmap);
    qe_input ← calibration_input input;
    mc ← get (fun p => s_mutation_cache (pr_source p));
    mc ← lift_outcome (MutationCache_try_clone mc new_cache);
    mc ← lift_outcome (MutationCache_purge_nop_entries mc);
    mutation_bytes ← lift_outcome (MutationCache_save_bytes mc);
    recorded ← get (fun p => pcap (pr_step p));
    qe ← new_queue_entry (fun qs =>
           QueueEntry_new qs qe_input (Some mutation_bytes.1) qe_hash timeout varying bitmap finder phase mutator patch_point
             is_crash (keep_pcap recorded));
    mret (match input with InputType_Parent parent => set_parent qe parent | _ => qe end).
End common.
