(* ===== verification/CommonTheorems.v ===== *)
(** * Properties of running source and sink together

    The outputs of the source reach the sink at most once, tracing restores the mutation
    cache, and a calibration delivers what [RunCommon] assumes of one. *)

From S2P Require Import Prelude Effects Bytes Rng FiniteIntegerSet Bitmap Mutators MutationCacheEntry MutationCacheContent MutationCache Messages Trace MutationSite MutationCacheOps Jit JitStub JitPatch Agent AgentSync AgentTheorems Protocol SinkTheorems FuzzLoop FuzzLoopTheorems FuzzLoopRunner Phases Worker WorkerTheorems AuxStream Source Queue EventCounter Cerebrum Scheduling RunCommon MutatorSteps Config Sink Common.

(** ** Frames *)

Section frames.
Context {K : Type} `{Kernel K} `{L : EntryLayout} `{CL : ContentLayout}.
Implicit Types p : Pair (K:=K).

Lemma on_source_preserves {A} send_ok (P : Pair (K:=K) -> Prop) (m : bool -> Source.SM A) :
  (forall p s, P p -> P (pr_with_source p s)) -> preserves P (on_source send_ok m).
Proof.
  intros HP p r p' E Hp. unfold on_source in E.
  destruct (m _ _) as [[[a|e] s]|]; [| |done]; injection E as _ <-; by apply HP.
Qed.

Lemma on_sink_preserves {A} (P : Pair (K:=K) -> Prop) (m : Sink.SM A) :
  (forall p s k, P p -> P (pr_with_sink p s k)) -> preserves P (on_sink m).
Proof.
  intros HP p r p' E Hp. unfold on_sink in E.
  destruct (m _) as [[[a|e] [s k]]|]; [| |done]; injection E as _ <-; by apply HP.
Qed.

Lemma collect_preserves covered_bytes (P : Pair (K:=K) -> Prop) :
  (forall p s k, P p -> P (pr_with_sink p s k)) -> preserves P (collect covered_bytes).
Proof. intros HP. apply preserves_update. intros p. apply HP. Qed.

(** Runs of the sink, and waiting for it. *)
Lemma sink_steps_preserve {A} covered_bytes (P : Pair (K:=K) -> Prop) (m : Sink.SM A) :
  (forall p s k, P p -> P (pr_with_sink p s k)) -> preserves P (r ← on_sink m; _ ← collect covered_bytes; mret r).
Proof.
  intros HP. apply preserves_bind; [by apply on_sink_preserves|]. intros r.
  apply preserves_bind; [by apply collect_preserves|]. intros _. apply preserves_ret.
Qed.

(** What the sink keeps is kept. *)
Lemma on_sink_keeps {A} (P : AflSink -> Prop) (m : Sink.SM A) :
  preserves (fun sk => P sk.1) m -> preserves (fun p => P (pr_sink p)) (on_sink m).
Proof.
  intros Hm p r p' E Hp. unfold on_sink in E.
  destruct (m _) as [[[a|e] [s k]]|] eqn:Em; [| |done]; injection E as _ <-; exact (Hm _ _ _ Em Hp).
Qed.
End frames.

(** Runs of the sink leave its input file alone, and only reset its map. *)
Section sink_frames.
Context {K : Type} `{Kernel K} (config : SinkConfig) (known_signal : Z -> bool) (fuel : nat).
Definition resets (s s' : AflSink) : Prop :=
  sk_input_file s' = sk_input_file s /\ (sk_bitmap s' = sk_bitmap s \/ sk_bitmap s' = Bitmap_reset (sk_bitmap s)).
Context (Q : AflSink -> Prop) (HQ : forall s s', resets s s' -> Q s -> Q s').
#[local] Abbreviation P := (fun sk : AflSink * K => Q sk.1).

Lemma sink_update_keeps (f : AflSink -> AflSink) :
  (forall s, resets s (f s)) -> preserves P (sink_update f).
Proof using HQ. intros Hf. apply preserves_update. intros [s k] Hs. cbn in *. by eapply HQ. Qed.
Lemma sys_keeps {A} (call : K -> A * K) : preserves P (sys call).
Proof. intros [s k] r sk' E Hs. unfold sys in E. cbn in E. destruct (call k). by injection E as _ <-. Qed.
Lemma sys__keeps (call : K -> K) : preserves P (sys_ call).
Proof. by apply preserves_update. Qed.
Lemma sink_get_keeps {A} (f : AflSink -> A) : preserves P (sink_get f).
Proof. apply preserves_get. Qed.
Lemma sink_fail_keeps {A} e : preserves P (sink_fail e : Sink.SM A).
Proof. apply preserves_of_result. Qed.
#[local] Hint Resolve sys_keeps sys__keeps sink_get_keeps sink_fail_keeps : preserves.
#[local] Hint Extern 1 (preserves _ (sink_update _)) => apply sink_update_keeps; intros; repeat case_match; split; auto : preserves.

Lemma wait_for_data_keeps fds timeout : preserves P (wait_for_data fuel fds timeout).
Proof using HQ. induction fuel as [|n IH]; cbn [wait_for_data]; keeps. Qed.
#[local] Hint Resolve wait_for_data_keeps : preserves.
Lemma attempt_keeps {A} (m : Sink.SM A) : preserves P m -> preserves P (attempt m).
Proof using HQ. intros Hm. unfold attempt. keeps. Qed.
#[local] Hint Resolve attempt_keeps : preserves.
Lemma flush_keeps n buffer : preserves P (flush_ft_pipe fuel n buffer).
Proof using HQ. revert buffer. induction n as [|n IH]; intros buffer; cbn [flush_ft_pipe]; keeps. Qed.
#[local] Hint Resolve flush_keeps : preserves.
Lemma handle_exit_keeps : preserves P (handle_child_exit_msg known_signal).
Proof using HQ. unfold handle_child_exit_msg. keeps. Qed.
Lemma await_keeps : preserves P (await_killed fuel).
Proof using HQ. unfold await_killed. keeps. Qed.
#[local] Hint Resolve handle_exit_keeps await_keeps : preserves.

Lemma sink_run_keeps flushes timeout : preserves P (sink_run config known_signal fuel flushes timeout).
Proof using HQ. unfold sink_run, spawn_child, maybe_purge_orphaned_files, Sink.wait_for_child_termination. keeps. Qed.
Lemma sink_wait_keeps timeout kill sigterm : preserves P (Sink.wait_for_child_termination config known_signal fuel timeout kill sigterm).
Proof using HQ. unfold Sink.wait_for_child_termination. keeps. Qed.
Lemma sink_spawn_keeps flushes : preserves P (spawn_child fuel flushes).
Proof using HQ. unfold spawn_child, maybe_purge_orphaned_files. keeps. Qed.
Lemma sink_server_keeps n timeout : preserves P (wait_for_server config known_signal fuel n timeout).
Proof using HQ. induction n as [|n IH]; cbn [wait_for_server]; keeps. Qed.
End sink_frames.

(** ** What the operations of the source leave alone *)

Section source_frames.
Context `{L : EntryLayout} `{CL : ContentLayout}.
Context (max_msg_len : nat) (pad : nat -> Z) (signal_try_from : Z -> option Z) (SIGBUS : Z).
(** a property of the mutation cache *)
Context (P : Source -> Prop) (HP : forall s s', s_mutation_cache s' = s_mutation_cache s -> P s -> P s').

Lemma src_ret {A} (a : A) : preserves P (SM_ret A a).
Proof using. by intros s r s' [= _ <-]. Qed.
Lemma src_bind {A B} (m : Source.SM A) (f : A -> Source.SM B) :
  preserves P m -> (forall a, preserves P (f a)) -> preserves P (SM_bind A B f m).
Proof using. exact (preserves_bind P m f). Qed.
Lemma src_throw {A} e : preserves P (throw e : Source.SM A).
Proof using. by intros s r s' [= _ <-]. Qed.
Lemma src_lift {A} (m : outcome A) : preserves P (Source.lift m).
Proof using. exact (preserves_lift P m). Qed.
Lemma src_parse {A} (m : outcome (result MessageError A)) : preserves P (parse m).
Proof using. intros s r s' E. unfold parse in E. destruct m as [[a|e]|]; [| |done]; by injection E as _ <-. Qed.
Lemma src_modify f : (forall s, s_mutation_cache (f s) = s_mutation_cache s) -> preserves P (modify f).
Proof using HP. intros Hf s r s' [= _ <-]. by apply HP. Qed.
(** A computation whose fuel depends on the state. *)
Lemma src_fuel {A} (f : Source -> nat) (m : nat -> Source.SM A) : (forall n, preserves P (m n)) -> preserves P (fun s => m (f s) s).
Proof using. intros Hm s r s' E. by apply (Hm (f s)) in E. Qed.
Lemma src_receive buf : preserves P (receive_message buf).
Proof using HP. intros s r s' E. unfold receive_message in E. apply outcome_bind_Ret in E as (x & _ & E). injection E as _ <-. by apply HP. Qed.
Lemma src_try_receive buf : preserves P (try_receive buf).
Proof using HP.
  intros s r s' E. unfold try_receive in E. destruct (receive_message buf s) as [[[b|e] s1]|] eqn:E1; [| |done];
    injection E as _ <-; by eapply src_receive.
Qed.
Lemma src_take : preserves P take_msgs.
Proof using HP. intros s r s' E. unfold take_msgs in E. destruct (s_msg_buffer s); [|done]. injection E as _ <-. by apply HP. Qed.
Lemma src_push m : preserves P (push_msg m).
Proof using HP. intros s r s' E. unfold push_msg in E. destruct (s_msg_buffer s); [|done]. injection E as _ <-. by apply HP. Qed.
Lemma src_killpg : preserves P kill_child_process_group.
Proof using HP.
  intros s r s' E. unfold kill_child_process_group in E. destruct (s_child_pid s) as [c|]; [|done].
  destruct (decide _); [|done]. injection E as _ <-. by apply HP.
Qed.
Lemma src_send ok bytes : preserves P (send ok bytes).
Proof using HP. unfold send. destruct ok; [by apply src_modify|apply src_throw]. Qed.
#[local] Hint Resolve src_ret src_throw src_lift src_parse src_receive src_try_receive src_take src_push src_killpg src_send : preserves.
#[local] Ltac src := repeat first [solve [eauto with preserves] | apply src_bind; [|intros] | case_match].

Lemma src_wait_ok : preserves P (wait_for_ok max_msg_len).
Proof using HP.
  apply (src_fuel loop_fuel (fun n => wait_for_ok_loop n _)). intros n. generalize (new_buf max_msg_len).
  induction n as [|n IH]; intros buf; cbn [wait_for_ok_loop]; src.
Qed.
Lemma src_wait_message (M : Type) `{Message M} : preserves P (wait_for_message max_msg_len M).
Proof using HP.
  apply (src_fuel loop_fuel (fun n => wait_for_message_loop M n _)). intros n. generalize (new_buf max_msg_len).
  induction n as [|n IH]; intros buf; cbn [wait_for_message_loop]; src.
Qed.
#[local] Hint Resolve src_wait_ok src_wait_message : preserves.

Lemma src_spawn ok timeout : preserves P (Source.spawn max_msg_len pad ok timeout).
Proof using HP.
  unfold Source.spawn, purge_workdir. src; apply src_modify; intros; [|done..]. by destruct (negb _).
Qed.
Lemma src_timed_out : preserves P (timed_out max_msg_len).
Proof using HP. unfold timed_out, kill_child_and_wait_for_termination. src. Qed.
Lemma src_trace_point buf : preserves P (on_trace_point buf).
Proof using HP. unfold on_trace_point. src. Qed.
Lemma src_terminated f buf : preserves P (on_terminated f buf).
Proof using HP. unfold on_terminated. src. Qed.
#[local] Hint Resolve src_spawn src_timed_out src_trace_point src_terminated : preserves.

Lemma src_listening : preserves P (wait_until_listening max_msg_len signal_try_from).
Proof using HP.
  apply (src_fuel loop_fuel (fun n => wait_until_listening_loop max_msg_len signal_try_from n _)). intros n.
  generalize (new_buf max_msg_len). induction n as [|n IH]; intros buf; cbn [wait_until_listening_loop]; src.
  all: intros s r s' E Hs; case_bool_decide; [injection E as _ <-; by eapply HP, Hs|].
  all: eapply IH; [exact E|by eapply HP, Hs].
Qed.
Lemma src_connect : preserves P (wait_until_connect max_msg_len signal_try_from).
Proof using HP.
  intros s r s' E. unfold wait_until_connect in E. apply outcome_bind_Ret in E as (_ & _ & E). revert E.
  generalize (loop_fuel s), (new_buf max_msg_len). intros n. revert s r s'.
  change (forall s r s', (forall buf, wait_until_connect_loop max_msg_len signal_try_from n buf s = Ret (r, s') -> P s -> P s')).
  enough (Hl : forall buf, preserves P (wait_until_connect_loop max_msg_len signal_try_from n buf)) by (intros s r s' buf; apply Hl).
  induction n as [|n IH]; intros buf; cbn [wait_until_connect_loop]; src.
Qed.
Lemma src_wait kill : preserves P (Source.wait_for_child_termination max_msg_len signal_try_from SIGBUS kill).
Proof using HP.
  unfold Source.wait_for_child_termination. apply src_bind; [src|]. intros _.
  apply (src_fuel loop_fuel (fun n => wait_for_child_termination_loop max_msg_len signal_try_from SIGBUS n _)). intros n.
  generalize (new_buf max_msg_len). induction n as [|n IH]; intros buf; cbn [wait_for_child_termination_loop]; src.
Qed.
Lemma src_run ok timeout : preserves P (Source_run max_msg_len pad signal_try_from SIGBUS ok timeout).
Proof using HP. unfold Source_run. apply src_bind; [src|]. intros _. apply src_wait. Qed.

(** Tracing changes the cache twice. *)
Context (Hset : forall mc mc' s, MutationCache_enable_tracing mc = Ret mc' -> s_mutation_cache s = mc -> P s -> P (with_cache s mc')).
Context (Hunset : forall mc mc' s, MutationCache_disable_tracing mc = Ret mc' -> s_mutation_cache s = mc -> P s -> P (with_cache s mc')).
Lemma src_change f : (forall s mc, f (s_mutation_cache s) = Ret mc -> P s -> P (with_cache s mc)) -> preserves P (change_cache f).
Proof using. intros Hf s r s' E. unfold change_cache in E. destruct (f _) as [mc|] eqn:Ef; [|done]. injection E as _ <-. by apply Hf. Qed.
Lemma src_enable ok : preserves P (enable_tracing max_msg_len pad ok).
Proof using HP Hset. unfold enable_tracing, Source_sync_mutations. apply src_bind; [|intros; src]. apply src_change. intros. by eapply Hset. Qed.
Lemma src_disable res : preserves P (disable_tracing_and_process_result res).
Proof using HP Hunset. unfold disable_tracing_and_process_result. apply src_bind; [|intros; src]. apply src_change. intros. by eapply Hunset. Qed.
Lemma src_trace ok timeout : preserves P (Source_trace max_msg_len pad signal_try_from SIGBUS ok timeout).
Proof using HP Hset Hunset.
  unfold Source_trace. apply src_bind; [apply src_enable|]. intros _. apply src_bind; [apply src_run|]. intros. apply src_disable.
Qed.
End source_frames.

(** ** Outputs reach the sink once *)

Section once.
Context {K : Type} `{Kernel K} `{L : EntryLayout} `{CL : ContentLayout}.
Context (max_msg_len : nat) (pad : nat -> Z) (signal_try_from : Z -> option Z) (SIGBUS : Z).
Context (polls flushes : nat) (config : Config) (hash : list Z -> Z) (send_ok : nat -> bool) (produced : nat -> list Z) (covered_bytes : nat -> nat -> Z).
Implicit Types p : Pair (K:=K).
#[local] Abbreviation run := (common_run max_msg_len pad signal_try_from SIGBUS polls flushes config hash send_ok produced covered_bytes).

(** The sink, the outputs it ran on and the hashes are those of [p]. *)
Record untouched p p' : Prop := {
  un_sink : pr_sink p' = pr_sink p;
  un_kernel : pr_kernel p' = pr_kernel p;
  un_seen : pr_seen p' = pr_seen p;
  un_sunk : pr_sunk p' = pr_sunk p;
}.

Lemma untouched_refl p : untouched p p.
Proof. done. Qed.
#[local] Hint Resolve untouched_refl : core.
#[local] Ltac unaffected := intros; match goal with Hu : untouched _ _ |- _ => destruct Hu; by split end.

Lemma source_write_untouched data p : preserves (untouched p) (source_write config data).
Proof. unfold source_write. keeps; unaffected. Qed.
Lemma source_read_untouched p : preserves (untouched p) (source_read config produced).
Proof. unfold source_read. keeps; unaffected. Qed.
Lemma source_run_untouched timeout p : preserves (untouched p) (source_run max_msg_len pad signal_try_from SIGBUS send_ok timeout).
Proof. apply on_source_preserves. unaffected. Qed.

Lemma produce_untouched failed no_output data timeout p :
  wlp (produce max_msg_len pad signal_try_from SIGBUS config send_ok produced failed no_output data timeout)
    (fun r p' => untouched p p' /\ match r with Ok d => d <> [] | Err _ => True end) p.
Proof.
  unfold produce. wlp_step. eapply wlp_mono; [apply wlp_preserves; [apply source_write_untouched|apply untouched_refl]|].
  intros [[]|e] p1 H1; [|done]. wlp_step. eapply wlp_mono; [apply wlp_preserves; [apply source_run_untouched|exact H1]|].
  intros [r|e] p2 H2; [|done]. destruct r as [c ms|s ms|ms]; [|by apply wlp_of_result..]. wlp_step.
  eapply wlp_mono; [apply wlp_preserves; [apply source_read_untouched|exact H2]|].
  intros [[]|e] p3 H3; [|done]. wlp_steps. case_bool_decide; [by apply wlp_of_result|by apply wlp_ret].
Qed.

Lemma wlp_write_sink d (Q : result CommonError unit -> Pair -> Prop) p :
  Q (Ok tt) (pr_with_sunk (pr_with_sink p (with_input (pr_sink p) d) (pr_kernel p)) d) -> wlp (write_sink d) Q p.
Proof. by intros HQ r p' [= <- <-]. Qed.

(** One run: either the sink is not touched and the run fails, or the sink runs on a new output. *)
Lemma common_run_wlp data timeout p :
  wlp (run data timeout)
    (fun r p' => (untouched p p' /\ exists e, r = Err e) \/
       exists d, d <> [] /\ hash d ∉ pr_seen p /\ pr_sunk p' = pr_sunk p ++ [d] /\ pr_seen p' = {[ hash d ]} ∪ pr_seen p /\
         sk_input_file (pr_sink p') = d) p.
Proof.
  unfold common_run. wlp_step. eapply wlp_mono; [apply produce_untouched|]. intros [d|e] p1 [Hu Hd]; [|left; eauto].
  wlp_steps. case_bool_decide as Hin; [apply wlp_of_result; left; eauto|]. wlp_steps. apply wlp_write_sink.
  eapply wlp_mono; [apply (wlp_preserves (fun q => (pr_sunk q = pr_sunk p ++ [d] /\ pr_seen q = {[ hash d ]} ∪ pr_seen p) /\
    sk_input_file (pr_sink q) = d))|].
  - intros q r q' E [H1 H2]. split.
    + revert E H1. by apply (sink_steps_preserve covered_bytes (fun q => pr_sunk q = pr_sunk p ++ [d] /\ pr_seen q = {[ hash d ]} ∪ pr_seen p)).
    + revert E H2. apply (preserves_bind (fun q => sk_input_file (pr_sink q) = d)).
      * apply (on_sink_keeps (fun s => sk_input_file s = d)). apply (sink_run_keeps _ _ _ (fun s => sk_input_file s = d)). by intros s s' [-> _].
      * intros res. by apply preserves_bind; [apply preserves_update|intros _; apply preserves_ret].
  - destruct Hu as [_ _ Hs Hk]. cbn. by rewrite Hs, Hk.
  - intros r p2 [[H1 H2] H3]. right. exists d. destruct Hu as [_ _ Hs _]. by rewrite Hs in Hin.
Qed.

(** A sequence of runs and their results. *)
Fixpoint run_all (inputs : list (list Z * Z)) p : outcome (list (result CommonError SinkRunResult) * Pair) :=
  match inputs with
  | [] => Ret ([], p)
  | (data, timeout) :: inputs =>
      r ← run data timeout p;
      rs ← run_all inputs r.2;
      mret (r.1 :: rs.1, rs.2)
  end.

Definition succeeded (r : result CommonError SinkRunResult) : bool := match r with Ok _ => true | Err _ => false end.

(** C11: the sink never runs twice on outputs with the same hash.  Whatever inputs, results and
    failures a sequence of [common_run]s goes through, the outputs it passes on to the sink are
    not empty, have pairwise different hashes, none of which was seen before, and are exactly what
    is added to [SEEN_OUTPUT_HASHES]; there is one for every run that returns a result of the sink. *)
Theorem outputs_reach_sink_once inputs p rs p' :
  run_all inputs p = Ret (rs, p') ->
  exists outs, pr_sunk p' = pr_sunk p ++ outs /\ NoDup (hash <$> outs) /\
    Forall (fun d => d <> [] /\ hash d ∉ pr_seen p) outs /\
    (forall h, h ∈ pr_seen p' <-> h ∈ pr_seen p \/ h ∈ hash <$> outs) /\
    (length (List.filter succeeded rs) <= length outs <= length inputs)%nat.
Proof.
  revert p rs. induction inputs as [|[data timeout] inputs IH]; intros p rs E; cbn [run_all] in E.
  { injection E as <- <-. exists []. rewrite app_nil_r. split_and!; [done|constructor|constructor| |done..].
    intros h. split; [by left|]. intros [|[]%elem_of_nil]; done. }
  apply outcome_bind_Ret in E as ([r p1] & E1 & E). apply outcome_bind_Ret in E as ([rs1 p2] & E2 & E). injection E as <- <-.
  destruct (IH p1 rs1 E2) as (outs & Hs & Hn & Hf & Hseen & Hl1 & Hl2). cbn [fst snd] in *.
  destruct (common_run_wlp data timeout p r p1 E1) as [([_ _ Hsn Hsk] & e & ->)|(d & Hd & Hh & Hsk & Hsn & _)].
  - exists outs. rewrite Hsk in Hs. rewrite Hsn in Hf, Hseen. split_and!; [done|done|done|done|cbn; done|cbn; lia].
  - exists (d :: outs). rewrite Hs, Hsk, <- app_assoc. rewrite Hsn in Hf, Hseen. split_and!; [done| | | | |].
    + rewrite fmap_cons. constructor; [|done]. intros (d' & Heq & Hin)%list_elem_of_fmap. rewrite Forall_forall in Hf.
      destruct (Hf d' Hin) as [_ Hno]. apply Hno. rewrite <- Heq. apply elem_of_union_l. by apply elem_of_singleton.
    + constructor; [done|]. eapply Forall_impl; [exact Hf|]. intros d' [? Hno]. split; [done|]. intros Hin. apply Hno.
      by apply elem_of_union_r.
    + intros h. rewrite Hseen, fmap_cons, elem_of_cons, elem_of_union, elem_of_singleton. tauto.
    + cbn [List.filter]. destruct r; cbn; lia.
    + cbn. lia.
Qed.
End once.

(** ** Tracing restores the mutation cache *)

Section restore.
Context {K : Type} `{Kernel K} `{L : EntryLayout} `{CL : ContentLayout} `{!EntryLayoutLaws L}.
Context (max_msg_len : nat) (pad : nat -> Z) (signal_try_from : Z -> option Z) (SIGBUS : Z).
Context (polls flushes server_messages : nat) (config : Config) (new_cache : outcome MutationCache).
Context (patch_points : result unit (list MutationSite)) (send_ok : nat -> bool) (produced : nat -> list Z) (covered_bytes : nat -> nat -> Z).
Implicit Types p : Pair (K:=K).
#[local] Abbreviation cache p := (s_mutation_cache (pr_source p)).
#[local] Abbreviation trace :=
  (common_trace max_msg_len pad signal_try_from SIGBUS polls flushes server_messages config new_cache patch_points send_ok produced covered_bytes).

(** The cache of the source has [n] bytes. *)
Definition cache_bytes (n : nat) p : Prop := mc_content_size (cache p) = n.
(** The operations that leave the whole source alone. *)
Definition same_source (s : Source) p : Prop := pr_source p = s.

Lemma on_source_keeps {A} (P : Source -> Prop) (m : bool -> Source.SM A) :
  (forall ok, preserves P (m ok)) -> preserves (fun p => P (pr_source p)) (on_source send_ok m).
Proof.
  intros Hm p r p' E Hp. unfold on_source in E. pose proof (Hm (send_ok (pr_step p))) as Hm'.
  destruct (m _ _) as [[[a|e] s]|] eqn:Em; [| |done]; injection E as _ <-; exact (Hm' _ _ _ Em Hp).
Qed.

Lemma for_each_mut_size mc f mc' : for_each_mut mc f = Ret mc' -> mc_content_size mc' = mc_content_size mc.
Proof. unfold for_each_mut. intros E. apply outcome_bind_Ret in E as (c & _ & E). by injection E as <-. Qed.

Lemma bytes_after_replace n mc p r p' : source_cache_replace mc p = Ret (r, p') -> cache_bytes n p -> cache_bytes n p'.
Proof.
  unfold source_cache_replace, MutationCache_replace_content, cache_bytes. intros E <-.
  destruct (_ <? _)%nat; cbn [mret outcome_ret] in E; by injection E as _ <-.
Qed.

(** A property of the cache is kept by everything but tracing. *)
Section pair_frames.
Context (P : Source -> Prop) (HP : forall s s', s_mutation_cache s' = s_mutation_cache s -> P s -> P s').
#[local] Abbreviation PP := (fun p => P (pr_source p)).

Lemma pair_write data : preserves PP (source_write config data).
Proof using. unfold source_write. keeps; done. Qed.
Lemma pair_read : preserves PP (source_read config produced).
Proof using. unfold source_read. keeps; done. Qed.
Lemma pair_sink {A} (m : Sink.SM A) : preserves PP (on_sink m).
Proof using. by apply on_sink_preserves. Qed.
Lemma pair_sink_wait timeout kill_child : preserves PP (sink_wait signal_try_from polls config covered_bytes timeout kill_child).
Proof using. by apply sink_steps_preserve. Qed.
Lemma pair_wait kill_child : preserves PP (source_wait max_msg_len signal_try_from SIGBUS send_ok kill_child).
Proof using HP. apply on_source_keeps. intros _. by apply src_wait. Qed.
Lemma pair_server_spawn server timeout : preserves PP (Server_spawn max_msg_len pad polls flushes send_ok server timeout).
Proof using HP. destruct server; [|apply pair_sink]. apply on_source_keeps. intros ok. by apply src_spawn. Qed.
Lemma pair_client_spawn client timeout : preserves PP (Client_spawn max_msg_len pad polls flushes send_ok client timeout).
Proof using HP. destruct client; [|apply pair_sink]. apply on_source_keeps. intros ok. by apply src_spawn. Qed.
Lemma pair_listening server timeout :
  preserves PP (Server_wait_until_listening max_msg_len signal_try_from polls server_messages config send_ok server timeout).
Proof using HP. destruct server; [|apply pair_sink]. apply on_source_keeps. intros ok. by apply src_listening. Qed.
End pair_frames.

Section sizes.
Context (n : nat).
#[local] Abbreviation P := (fun s : Source => mc_content_size (s_mutation_cache s) = n).

Lemma bytes_frame s s' : s_mutation_cache s' = s_mutation_cache s -> P s -> P s'.
Proof. intros E Hs. cbn in *. by rewrite E. Qed.
Lemma bytes_change mc f mc' (s : Source) : for_each_mut mc f = Ret mc' -> s_mutation_cache s = mc -> P s -> P (with_cache s mc').
Proof. intros E <- Hs. cbn. by rewrite (for_each_mut_size _ _ _ E). Qed.

Lemma networked_trace_bytes timeout :
  preserves (cache_bytes n) (networked_trace max_msg_len pad signal_try_from SIGBUS polls flushes server_messages config send_ok covered_bytes timeout).
Proof.
  unfold networked_trace, traced_run, endpoints, common_fail, source_enable_tracing.
  keeps; first [apply (pair_server_spawn P)|apply (pair_client_spawn P)|apply (pair_listening P)|apply (pair_wait P)
    |apply (pair_sink_wait P)|apply (pair_sink P)|apply (on_source_keeps P); intros]; try apply bytes_frame.
  - apply src_enable; [apply bytes_frame|]. intros *. apply bytes_change.
  - apply src_disable; [apply bytes_frame|]. intros *. apply bytes_change.
Qed.

Lemma file_trace_bytes data timeout :
  preserves (cache_bytes n) (_ ← source_write config data;
    after (on_source send_ok (fun ok => Source_trace max_msg_len pad signal_try_from SIGBUS ok timeout)) (fun r => mret r)).
Proof.
  keeps; [apply (pair_write P)|apply (on_source_keeps P); intros]. apply src_trace; [apply bytes_frame|intros *; apply bytes_change..].
Qed.
End sizes.

(** The errors of tracing are values. *)
Lemma file_trace_value {A} data (m : PM A) p r p' :
  (_ ← source_write config data; after m (fun r => mret r)) p = Ret (r, p') -> exists a, r = Ok a.
Proof.
  unfold mbind, eff_bind, source_write, after.
  destruct (so_input_type _); cbn; destruct (m _) as [[r1 p1]|]; try done; intros [= <- _]; by eexists.
Qed.

(** The copy of a cache, written back over whatever the cache became. *)
Lemma backup_restores mc nc es es0 backup mc' r :
  cache_rep mc es -> cache_rep nc es0 -> mc_content_size nc = mc_content_size mc ->
  MutationCache_try_clone mc (Ret nc) = Ret backup -> mc_content_size mc' = mc_content_size mc ->
  MutationCache_replace_content mc' backup = Ret r -> exists mc'', r = Ok mc'' /\ MutationCache_entries mc'' = es.
Proof.
  intros Hmc Hnc Hn Eb Hs Er. unfold MutationCache_try_clone in Eb. cbn [mbind outcome_bind] in Eb.
  unfold MutationCache_load_bytes in Eb. apply outcome_bind_Ret in Eb as (_ & _ & Eb). injection Eb as <-.
  unfold MutationCache_replace_content in Er. cbn [mc_content_size with_content] in Er. rewrite Hs, Hn, Nat.ltb_irrefl in Er.
  injection Er as <-. eexists. split; [reflexivity|]. destruct Hmc as [Hr _]. destruct Hr as [_ Hcur _ _ Hp].
  unfold MutationCache_entries, Content_entries, entry_ref. cbn.
  eapply packed_entries, packed_agree, Hp. by rewrite <- !app_assoc, take_app_le.
Qed.
(** When the networked part returns early, which ends [common_trace], tracing is still enabled. *)
Section early.
Context (P : Source -> Prop) (HP : forall s s', s_mutation_cache s' = s_mutation_cache s -> P s -> P s').
#[local] Abbreviation after_error := (fun r p => match r with Err _ => P (pr_source p) | Ok _ => True end).

Lemma early_step {A B} (m : PM A) (f : A -> PM B) p :
  preserves (fun p => P (pr_source p)) m -> P (pr_source p) -> (forall a p', P (pr_source p') -> wlp (f a) after_error p') ->
  wlp (m ≫= f) after_error p.
Proof using.
  intros Hm Hp Hf. apply wlp_bind. eapply wlp_mono; [by apply (wlp_preserves _ _ _ Hm)|]. intros [a|e] p' Hp'; [by apply Hf|done].
Qed.

Lemma traced_run_error client server timeout p :
  P (pr_source p) ->
  wlp (traced_run max_msg_len pad signal_try_from SIGBUS polls flushes server_messages config send_ok covered_bytes client server timeout) after_error p.
Proof using HP.
  intros Hp. unfold traced_run. apply early_step; [by apply pair_server_spawn|done|]. intros _ p1 H1.
  apply early_step; [by apply pair_listening|done|]. intros ret p2 H2. destruct ret.
  4:{ apply early_step; [by apply pair_client_spawn|done|]. intros _ p3 H3. apply early_step; [by apply pair_wait|done|].
      intros res p4 H4. apply early_step; [apply pair_sink_wait|done|]. intros _ p5 H5. wlp_step. intros r p6 _. by apply wlp_ret. }
  all: apply early_step; [apply preserves_lift|done|]; intros b p3 H3; apply early_step; [apply preserves_lift|done|]; intros e p4 H4;
    by apply wlp_of_result.
Qed.
End early.

Lemma enable_wlp p :
  wlp (source_enable_tracing max_msg_len pad send_ok) (fun _ p' => MutationCache_enable_tracing (cache p) = Ret (cache p')) p.
Proof.
  intros r p' E. unfold source_enable_tracing, on_source, enable_tracing in E. unfold mbind at 1, SM_bind at 1, change_cache in E.
  destruct (MutationCache_enable_tracing (cache p)) as [mc|]; [|done].
  destruct (Source_sync_mutations _ _ _ _) as [[r1 s1]|] eqn:Es; [|done].
  assert (Hs : s_mutation_cache s1 = mc).
  { revert Es. unfold Source_sync_mutations. intros Es.
    refine (src_bind (fun s => s_mutation_cache s = mc) _ _ _ _ _ _ _ Es _); [|intros _|done].
    - apply src_send. by intros s s' ->.
    - apply src_wait_ok. by intros s s' ->. }
  destruct r1; injection E as _ <-; cbn; by rewrite Hs.
Qed.

Lemma networked_error_leaves_tracing timeout p e p' :
  networked_trace max_msg_len pad signal_try_from SIGBUS polls flushes server_messages config send_ok covered_bytes timeout p = Ret (Err e, p') ->
  MutationCache_enable_tracing (cache p) = Ret (cache p').
Proof.
  intros E. revert E. unfold networked_trace, endpoints. intros E.
  set (P := fun s : Source => MutationCache_enable_tracing (cache p) = Ret (s_mutation_cache s)).
  enough (Hw : wlp (networked_trace max_msg_len pad signal_try_from SIGBUS polls flushes server_messages config send_ok covered_bytes timeout)
    (fun r p' => match r with Err _ => P (pr_source p') | Ok _ => True end) p) by exact (Hw _ _ E).
  unfold networked_trace, endpoints. wlp_steps. apply wlp_lift. intros b _. wlp_steps.
  eapply wlp_mono; [apply enable_wlp|]. intros [[]|x] p1 H1; [|done]. apply traced_run_error; [|done].
  unfold P. by intros s s' ->.
Qed.
(** C14: [common_trace] and the mutation cache.  It replaces the cache by one with an entry for
    every patch point, enables tracing, runs the source and writes back a copy taken before.
    Over files the cache holds its old entries again whatever happens, errors of the source
    and of its protocol included; with networked targets it does whenever a trace is returned.
    An error with networked targets restores the cache too, unless it is one of the networked
    part itself (a server that never gets ready, say), which returns early: then the
    function returns this error and leaves the cache for tracing, with tracing enabled. *)
Theorem common_trace_restores_cache nc es es0 data timeout p r p' :
  new_cache = Ret nc -> cache_rep nc es0 -> cache_rep (cache p) es -> mc_content_size nc = mc_content_size (cache p) ->
  trace data timeout p = Ret (r, p') ->
  MutationCache_entries (cache p') = es \/
  (target_uses_network config = true /\ exists e p1, r = Err e /\
     networked_trace max_msg_len pad signal_try_from SIGBUS polls flushes server_messages config send_ok covered_bytes timeout p1 = Ret (Err e, p') /\
     MutationCache_enable_tracing (cache p1) = Ret (cache p')).
Proof.
  intros Enc Hnc Hp Hn E. revert r p' E.
  change (wlp (trace data timeout) (fun r p' => MutationCache_entries (cache p') = es \/
    (target_uses_network config = true /\ exists e p1, r = Err e /\
     networked_trace max_msg_len pad signal_try_from SIGBUS polls flushes server_messages config send_ok covered_bytes timeout p1 = Ret (Err e, p') /\
     MutationCache_enable_tracing (cache p1) = Ret (cache p'))) p).
  unfold common_trace. wlp_steps. destruct patch_points as [pp|[]]; [|left; by apply cache_entries_rep].
  wlp_steps. apply wlp_lift. intros t Et. wlp_steps. apply wlp_lift. intros backup Eb. rewrite Enc in Eb. wlp_steps.
  apply wlp_lift. intros u Eu. wlp_steps. intros r1 p1 E1. pose proof (bytes_after_replace _ _ _ _ _ E1 eq_refl) as H1.
  destruct r1 as [[]|e].
  2:{ left. unfold source_cache_replace in E1. destruct (MutationCache_replace_content _ _) as [[]|]; [done| |done].
      injection E1 as _ <-. by apply cache_entries_rep. }
  wlp_step. intros r2 p2 E2.
  assert (Hr2 : cache_bytes (mc_content_size (cache p)) p2 /\
    match r2 with
    | Ok _ => True
    | Err e => target_uses_network config = true /\
        networked_trace max_msg_len pad signal_try_from SIGBUS polls flushes server_messages config send_ok covered_bytes timeout p1 = Ret (Err e, p2)
    end).
  { destruct (target_uses_network config); split.
    - by eapply (networked_trace_bytes _ _ _ _ _ E2).
    - by destruct r2.
    - by eapply (file_trace_bytes _ _ _ _ _ _ E2).
    - by destruct (file_trace_value _ _ _ _ _ E2) as [a ->]. }
  destruct Hr2 as [H2 Hnet]. destruct r2 as [tr|e].
  2:{ right. destruct Hnet as [Hnet Ee]. split; [done|]. exists e, p1. split; [done|]. split; [done|]. by eapply networked_error_leaves_tracing. }
  wlp_step. intros r3 p3 E3.
  unfold source_cache_replace in E3. destruct (MutationCache_replace_content (cache p2) backup) as [r4|] eqn:E4; [|done].
  destruct (backup_restores _ _ _ _ _ _ _ Hp Hnc Hn Eb H2 E4) as (mc & -> & Hmc). injection E3 as <- <-.
  set (p3 := pr_with_source p2 _). assert (H3 : MutationCache_entries (cache p3) = es) by exact Hmc. clearbody p3.
  destruct tr as [[[c ms|sg ms|ms] t']|e]; [|by apply wlp_of_result; left..]. wlp_step.
  eapply wlp_mono; [apply (wlp_preserves _ _ _ (pair_read (fun s => MutationCache_entries (s_mutation_cache s) = es))); exact H3|].
  intros [[]|e] p4 H4; [|by left]. wlp_steps. destruct (_ && _); [by apply wlp_of_result; left|by apply wlp_ret; left].
Qed.
End restore.

(** ** Sizes of the map *)

(** The map of the sink has [n] bytes. *)
Definition sized {K} `{StackMap} (n : nat) (p : Pair (K:=K)) : Prop := map_of_size n (sk_bitmap (pr_sink p)).

Section sizes.
Context {K : Type} `{Kernel K} `{L : EntryLayout} `{CL : ContentLayout}.
Context (max_msg_len : nat) (pad : nat -> Z) (signal_try_from : Z -> option Z) (SIGBUS : Z).
Context (polls flushes server_messages : nat) (config : Config).
Context (send_ok : nat -> bool) (produced : nat -> list Z) (covered_bytes : nat -> nat -> Z).
Implicit Types p : Pair (K:=K).

(** The consumer writes bytes to its map. *)
Context (covered_ok : forall t k, byte_ok (covered_bytes t k)) (n : nat).
#[local] Abbreviation sized := (sized (K:=K) n).

Lemma sized_resets s s' : resets s s' -> map_of_size n (sk_bitmap s) -> map_of_size n (sk_bitmap s').
Proof using.
  intros [_ [->| ->]] Hs; [done|]. destruct Hs as [Hw Hn]. split; [|done]. destruct Hw as [H1 H2 H3 H4]. split; cbn; try done.
  - by rewrite length_replicate.
  - by apply Forall_replicate.
Qed.
Lemma sized_frame p p' : sk_bitmap (pr_sink p') = sk_bitmap (pr_sink p) -> sized p -> sized p'.
Proof using. unfold CommonTheorems.sized. by intros ->. Qed.

Lemma collect_sized : preserves sized (collect covered_bytes).
Proof using covered_ok.
  apply preserves_update. intros p [Hw Hn]. split; [|done]. apply with_data_wf; [done| |].
  - by rewrite length_fmap, length_seq.
  - apply Forall_fmap, Forall_forall. intros k _. apply covered_ok.
Qed.
Lemma sink_sized {A} (m : Sink.SM A) :
  preserves (fun sk : AflSink * K => map_of_size n (sk_bitmap sk.1)) m -> preserves sized (on_sink m).
Proof using. apply (on_sink_keeps (fun s => map_of_size n (sk_bitmap s))). Qed.
Lemma source_sized {A} (m : bool -> Source.SM A) : preserves sized (on_source send_ok m).
Proof using. apply on_source_preserves. intros p s. by apply sized_frame. Qed.
Lemma write_sized d : preserves (fun sk : AflSink * K => map_of_size n (sk_bitmap sk.1)) (sink_write d).
Proof using. unfold sink_write, sink_get, sink_update, sink_fail. keeps; done. Qed.
#[local] Hint Resolve collect_sized source_sized : preserves.

Lemma calibration_run_sized data timeout :
  preserves sized
    (common_calibration_run max_msg_len pad signal_try_from SIGBUS polls flushes server_messages config send_ok produced covered_bytes data timeout).
Proof using covered_ok.
  set (Q := fun s : AflSink => map_of_size n (sk_bitmap s)).
  unfold common_calibration_run, networked_common_calibration_run, networked_run, endpoints, produce, write_sink, run_sink,
    source_write, source_read, source_run, common_fail, Server_spawn, Client_spawn, Server_wait_until_listening, Client_wait_until_connect,
    Server_wait_for_child_termination, source_spawn, sink_spawn, source_wait, sink_wait.
  keeps; first [apply sink_sized|done];
    first [apply write_sized|apply (sink_run_keeps _ _ _ Q)|apply (sink_wait_keeps _ _ _ Q)|apply (sink_spawn_keeps _ Q)|apply (sink_server_keeps _ _ _ Q)];
    apply sized_resets.
Qed.
End sizes.

(** ** Calibration *)

Section calibration.
Context {K : Type} `{Kernel K} `{L : EntryLayout} `{CL : ContentLayout}.
Context (max_msg_len : nat) (pad : nat -> Z) (signal_try_from : Z -> option Z) (SIGBUS : Z).
Context (polls flushes server_messages : nat) (config : Config) (new_cache : outcome MutationCache).
Context (send_ok : nat -> bool) (produced : nat -> list Z) (covered_bytes : nat -> nat -> Z) (now : nat -> Z) (pcap : nat -> option (list Z)) (sha256_hex : list Z -> string).
Implicit Types p : Pair (K:=K).
#[local] Abbreviation cycle :=
  (calibration_cycle max_msg_len pad signal_try_from SIGBUS polls flushes server_messages config send_ok produced covered_bytes now).
#[local] Abbreviation cycles :=
  (calibration_cycles max_msg_len pad signal_try_from SIGBUS polls flushes server_messages config send_ok produced covered_bytes now).
#[local] Abbreviation calibrate :=
  (common_calibrate max_msg_len pad signal_try_from SIGBUS polls flushes server_messages config new_cache send_ok produced covered_bytes now pcap sha256_hex).

(** The queue and the virgin map are those of [p]. *)
Definition same_queue p p' : Prop := pr_qstate p' = pr_qstate p /\ pr_virgin p' = pr_virgin p.

Lemma source_queue {A} p (m : bool -> Source.SM A) : preserves (same_queue p) (on_source send_ok m).
Proof. by apply on_source_preserves. Qed.
Lemma sink_queue {A} p (m : Sink.SM A) : preserves (same_queue p) (on_sink m).
Proof. by apply on_sink_preserves. Qed.
#[local] Hint Resolve source_queue sink_queue : preserves.

Lemma calibration_run_queue p data timeout :
  preserves (same_queue p)
    (common_calibration_run max_msg_len pad signal_try_from SIGBUS polls flushes server_messages config send_ok produced covered_bytes data timeout).
Proof.
  unfold common_calibration_run, networked_common_calibration_run, networked_run, endpoints, produce, write_sink, run_sink,
    source_write, source_read, source_run, common_fail, Server_spawn, Client_spawn, Server_wait_until_listening, Client_wait_until_connect,
    Server_wait_for_child_termination, source_spawn, sink_spawn, source_wait, sink_wait.
  keeps; done.
Qed.

#[local] Abbreviation one_run :=
  (common_calibration_run max_msg_len pad signal_try_from SIGBUS polls flushes server_messages config send_ok produced covered_bytes).

(** A completed cycle: the targets ran on [data], the consumer ended as it may, the cycle took
    [d], and the map [m] of the consumer is classified and cleared from the virgin map. *)
Inductive ran_cycle (data : list Z) (timeout : Z) (is_crash : bool) (d : Z) (m : Bitmap) p p' : Prop :=
| Ran_cycle res p1
    (rc_run : one_run data timeout (pr_tick p) = Ret (Ok res, p1))
    (rc_res : acceptable is_crash res = true)
    (rc_duration : d = Z.max 0 (now (pr_step p1) - now (pr_step p)))
    (rc_timeout : si_send_sigterm (c_sink config) = false -> d <= timeout)
    (rc_map : m = sk_bitmap (pr_sink p1))
    (rc_next : p' = pr_with_virgin (pr_with_sink (pr_tick p1) (with_bitmap (pr_sink p1) (Bitmap_classify_counts m)) (pr_kernel p1))
                      ((fun v => (Bitmap_has_new_bit (Bitmap_classify_counts m) v).2) <$> pr_virgin p1)).

(** Consecutive cycles, with the duration and the map of each. *)
Inductive ran_cycles (data : list Z) (timeout : Z) (is_crash : bool) : list (Z * Bitmap) -> Pair (K:=K) -> Pair (K:=K) -> Prop :=
| Ran_none p : ran_cycles data timeout is_crash [] p p
| Ran_next d m runs p p1 p2 :
    ran_cycle data timeout is_crash d m p p1 -> ran_cycles data timeout is_crash runs p1 p2 ->
    ran_cycles data timeout is_crash ((d, m) :: runs) p p2.

Lemma ran_cycle_queue data timeout is_crash d m p p' :
  ran_cycle data timeout is_crash d m p p' ->
  pr_qstate p' = pr_qstate p /\ pr_virgin p' = (fun v => (Bitmap_has_new_bit (Bitmap_classify_counts m) v).2) <$> pr_virgin p.
Proof.
  intros [res p1 E _ _ _ _ ->]. destruct (calibration_run_queue (pr_tick p) _ _ _ _ _ E) as [H1 H2]; [done|]. cbn in *.
  by rewrite H1, H2.
Qed.

Lemma ran_cycles_queue data timeout is_crash runs p p' :
  ran_cycles data timeout is_crash runs p p' ->
  pr_qstate p' = pr_qstate p /\ pr_virgin p' = (fun v => calibrate_virgin v runs.*2) <$> pr_virgin p.
Proof.
  induction 1 as [p|d m runs p p1 p2 Hc _ [IH1 IH2]]; [by destruct (pr_virgin p)|].
  destruct (ran_cycle_queue _ _ _ _ _ _ _ Hc) as [H1 H2]. split; [congruence|]. rewrite IH2, H2. by destruct (pr_virgin p).
Qed.

Lemma ran_cycles_durations data timeout is_crash runs p p' :
  ran_cycles data timeout is_crash runs p p' ->
  Forall (fun d => 0 <= d /\ (si_send_sigterm (c_sink config) = false -> d <= timeout)) runs.*1.
Proof. induction 1 as [|d m runs p p1 p2 [res p' _ _ -> Ht _ _] _ IH]; cbn; constructor; [split; [lia|done]|done]. Qed.

(** The sink is left with the classified map of the last cycle. *)
Lemma ran_cycles_last data timeout is_crash runs p p' c :
  ran_cycles data timeout is_crash runs p p' -> last runs = Some c -> sk_bitmap (pr_sink p') = Bitmap_classify_counts c.2.
Proof.
  induction 1 as [|d m runs p p1 p2 Hc Hr IH]; [done|]. intros Hl. destruct runs as [|c' runs]; [|by apply IH].
  injection Hl as <-. inversion Hr; subst. by destruct Hc as [res p' _ _ _ _ _ ->].
Qed.

Lemma ran_cycles_sized n data timeout is_crash runs p p' :
  (forall t k, byte_ok (covered_bytes t k)) -> ran_cycles data timeout is_crash runs p p' -> sized n p ->
  Forall (map_of_size n) runs.*2 /\ sized n p'.
Proof.
  intros Hb. induction 1 as [p|d m runs p p1 p2 [res p' E _ _ _ -> ->] _ IH]; intros Hs; [by split; [constructor|]|].
  pose proof (calibration_run_sized _ _ _ _ _ _ _ _ _ _ _ Hb n data timeout _ _ _ E Hs) as H1.
  destruct IH as [H2 H3]; [by apply classify_of_size|]. split; [by constructor|done].
Qed.

Lemma cycle_sized n data timeout is_crash p r p' :
  (forall t k, byte_ok (covered_bytes t k)) -> sized n p -> cycle data timeout is_crash p = Ret (r, p') -> sized n p'.
Proof.
  intros Hb Hs E. revert r p' E. change (wlp (cycle data timeout is_crash) (fun _ => sized n) p).
  unfold calibration_cycle, the_time, sink_bitmap, set_sink_bitmap, common_fail. wlp_step. intros r p1 [= <- <-]. wlp_step.
  eapply wlp_mono; [apply (wlp_preserves _ _ _ (calibration_run_sized _ _ _ _ _ _ _ _ _ _ _ Hb n _ _)), Hs|]. intros [res|e] p2 H2; [|done].
  destruct (negb _); [by apply wlp_of_result|]. wlp_step. intros r p3 [= <- <-].
  destruct (negb (si_send_sigterm _) && _); [by apply wlp_of_result|]. wlp_steps. apply wlp_lift. intros copy _. wlp_steps.
  by apply classify_of_size.
Qed.

Lemma cycle_wlp data timeout is_crash p :
  wlp (cycle data timeout is_crash) (fun r p' => match r with
    | Ok c => exists m, ran_cycle data timeout is_crash c.1 m p p' /\ Bitmap_clone (Bitmap_classify_counts m) = Ret c.2
    | Err _ => same_queue p p'
    end) p.
Proof.
  unfold calibration_cycle, the_time, sink_bitmap, set_sink_bitmap. wlp_step. intros r p1 [= <- <-]. wlp_step. intros r p2 E.
  pose proof (calibration_run_queue p _ _ _ _ _ E ltac:(done)) as Hq.
  destruct r as [res|e]; [|done]. destruct (acceptable is_crash res) eqn:Ea; cbn [negb]; [|by apply wlp_of_result]. wlp_step.
  intros r p3 [= <- <-]. destruct (negb (si_send_sigterm _) && _) eqn:Eb; [by apply wlp_of_result|]. wlp_steps.
  apply wlp_lift. intros copy Ec. wlp_steps. exists (sk_bitmap (pr_sink p2)). split; [|exact Ec].
  econstructor; [exact E|exact Ea|done| |done|done]. intros Hs. rewrite Hs in Eb. cbn in *. lia.
Qed.

Lemma cycles_wlp n data timeout is_crash p :
  wlp (cycles n data timeout is_crash) (fun r p' => match r with
    | Ok l => exists runs, ran_cycles data timeout is_crash runs p p' /\ length runs = n /\ l.*1 = runs.*1 /\
                Forall2 (fun c m => Bitmap_clone (Bitmap_classify_counts m) = Ret c) l.*2 runs.*2
    | Err e => exists runs p1, ran_cycles data timeout is_crash runs p p1 /\ (length runs < n)%nat /\
                cycle data timeout is_crash p1 = Ret (Err e, p')
    end) p.
Proof.
  revert p. induction n as [|n IH]; intros p; cbn [calibration_cycles].
  { wlp_steps. exists []. by split_and!; [constructor| | |constructor]. }
  wlp_step. intros r p1 E. pose proof (cycle_wlp _ _ _ _ _ _ E) as Hc.
  destruct r as [[d c]|e]; [|exists [], p; split_and!; [constructor|cbn; lia|done]]. destruct Hc as (m & Hm & Ec).
  wlp_step. eapply wlp_mono; [apply IH|]. intros [l|e] p2 Hl.
  - wlp_steps. destruct Hl as (runs & Hr & Hn & Hd & Hf). exists ((d, m) :: runs). cbn.
    split_and!; [by econstructor|lia|congruence|by constructor].
  - destruct Hl as (runs & p3 & Hr & Hn & Hx). exists ((d, m) :: runs), p3. cbn. split_and!; [by econstructor|lia|done].
Qed.

Lemma clone_data m c : Bitmap_clone m = Ret c -> bm_data c = bm_data m.
Proof.
  unfold Bitmap_clone, Bitmap_clone_as_mem_backed, Bitmap_copy_from. intros E. apply outcome_bind_Ret in E as (x & _ & E).
  apply outcome_bind_Ret in E as (_ & _ & E). by injection E as <-.
Qed.

Lemma hash_all_Ret maps hs : hash_all maps = Ret hs -> Forall2 (fun m h => Bitmap_hash32 m = Ret h) maps hs.
Proof.
  revert hs. induction maps as [|m maps IH]; intros hs E; cbn [hash_all] in E; [injection E as <-; constructor|].
  apply outcome_bind_Ret in E as (h & Eh & E). apply outcome_bind_Ret in E as (l & El & E). injection E as <-. constructor; auto.
Qed.

(** All hashes are the same. *)
Lemma one_hash (hs : list Z) x y : (1 <? size (list_to_set hs : gset Z))%nat = false -> x ∈ hs -> y ∈ hs -> x = y.
Proof.
  intros Hs%Nat.ltb_ge Hx Hy. apply (elem_of_list_to_set (C:=gset Z)) in Hx, Hy.
  assert (H1 : size (list_to_set hs : gset Z) = 1%nat).
  { pose proof (size_empty_inv (list_to_set hs : gset Z)) as He.
    destruct (size (list_to_set hs : gset Z)) as [|[]] eqn:E; [|done|lia]. by apply He in Hx. }
  exact (size_singleton_inv _ x y H1 Hx Hy).
Qed.

Lemma max_duration_spec l d : max_duration l = Ret d -> d ∈ l /\ Forall (fun x => x <= d) l.
Proof.
  destruct l as [|x l]; [done|]. intros [= <-]. revert x. induction l as [|y l IH]; intros x; cbn.
  - split; [by left|by repeat constructor].
  - destruct (IH (Z.max x y)) as [H1 H2]. apply Forall_cons in H2 as [H2 H3]. split; [|repeat constructor; [lia|lia|done]].
    apply elem_of_cons in H1 as [->|H1]; [|right; by right]. destruct (Z.max_spec x y) as [[_ ->]|[_ ->]]; [right; left|left].
Qed.

(** All maps have one classified hash. *)
Definition one_coverage (maps : list Bitmap) : Prop :=
  exists h, Forall (fun m => Bitmap_hash32 (Bitmap_classify_counts m) = Ret h) maps.

(** What a calibration started in [p] and ended in [p'] says of its entry: [runs] are the twenty
    cycles it ran. *)
Record calibrated (input : InputType) (is_crash : bool) (parent : option QueueEntry) (runs : list (Z * Bitmap)) (qe : QueueEntry) p p' : Prop := {
  cal_runs : exists p1, ran_cycles (InputType_bytes input) (calibration_timeout config parent) is_crash runs p p1 /\
    sk_bitmap (pr_sink p') = Bitmap_classify_counts (sk_bitmap (pr_sink p1)) /\ pr_virgin p' = pr_virgin p1;
  cal_cycles : length runs = CALIBRATION_MEASURE_CYCLES;
  cal_virgin : pr_virgin p' = (fun v => calibrate_virgin v runs.*2) <$> pr_virgin p;
  cal_stable : qe_sink_unstable qe = false -> one_coverage runs.*2;
  cal_unstable : qe_sink_unstable qe = true -> si_allow_unstable_sink (c_sink config) = true /\ ~ one_coverage runs.*2;
  cal_hash : exists c, last runs = Some c /\
    Bitmap_hash32 (Bitmap_classify_counts (Bitmap_classify_counts c.2)) = Ret (qe_bitmap_hash32 qe) /\
    Bitmap_minimize (Bitmap_classify_counts (Bitmap_classify_counts c.2)) = Ret (qe_covered_edges qe);
  cal_longest : qe_avg_exec_duration_raw qe ∈ runs.*1 /\ Forall (fun d => d <= qe_avg_exec_duration_raw qe) runs.*1;
  cal_duration : si_send_sigterm (c_sink config) = false -> 0 <= qe_avg_exec_duration_raw qe <= calibration_timeout config parent;
  cal_id : qe_id qe = qs_next_id (pr_qstate p);
  cal_next : qs_next_id (pr_qstate p') = (qs_next_id (pr_qstate p) + 1) mod 2 ^ 64;
  cal_stats : qe_stats qe = length (qs_stats (pr_qstate p));
  cal_state : qs_stats (pr_qstate p') = qs_stats (pr_qstate p) ++ [stats_new];
  cal_input : input_data (qe_input qe) = InputType_bytes input;
  cal_crash : qe_is_crash qe = is_crash;
  cal_generation : qe_generation qe = match input with InputType_Parent e => (qe_generation e + 1)%nat | _ => 0%nat end;
}.

(** A calibration that fails after the completed cycles [runs]: the next cycle failed, or the
    coverage varied, which the configuration does not allow. *)
Inductive gave_up (data : list Z) (timeout : Z) (is_crash : bool) (runs : list (Z * Bitmap)) (e : CommonError) p p' : Prop :=
| Failed_cycle p1
    (gu_runs : ran_cycles data timeout is_crash runs p p1)
    (gu_count : (length runs < CALIBRATION_MEASURE_CYCLES)%nat)
    (gu_cycle : cycle data timeout is_crash p1 = Ret (Err e, p'))
| Varying
    (gu_runs : ran_cycles data timeout is_crash runs p p')
    (gu_count : length runs = CALIBRATION_MEASURE_CYCLES)
    (gu_error : e = Calibration SinkUnstable)
    (gu_config : si_allow_unstable_sink (c_sink config) = false)
    (gu_coverage : ~ one_coverage runs.*2).

Lemma gave_up_queue data timeout is_crash runs e p p' :
  gave_up data timeout is_crash runs e p p' ->
  pr_qstate p' = pr_qstate p /\ pr_virgin p' = (fun v => calibrate_virgin v runs.*2) <$> pr_virgin p.
Proof.
  intros [p1 Hr _ E|Hr _ _ _ _]; [|by eapply ran_cycles_queue]. destruct (ran_cycles_queue _ _ _ _ _ _ Hr) as [H1 H2].
  destruct (cycle_wlp _ _ _ _ _ _ E) as [H3 H4]. by rewrite H3, H4.
Qed.

Lemma calibration_input_wlp input p :
  wlp (calibration_input sha256_hex input) (fun r p' => pr_virgin p' = pr_virgin p /\ pr_sink p' = pr_sink p /\ qs_next_id (pr_qstate p') = qs_next_id (pr_qstate p) /\
    qs_stats (pr_qstate p') = qs_stats (pr_qstate p) /\ exists i, r = Ok i /\ input_data i = InputType_bytes input) p.
Proof.
  destruct input as [i|b|e]; [apply wlp_ret; eauto 8| |apply wlp_ret; eauto 8]. intros r p' E. cbn in E. injection E as <- <-.
  cbn. eauto 8.
Qed.

Lemma classified_hashes copies maps hs :
  Forall2 (fun c m => Bitmap_clone (Bitmap_classify_counts m) = Ret c) copies maps -> hash_all copies = Ret hs ->
  Forall2 (fun m h => Bitmap_hash32 (Bitmap_classify_counts m) = Ret h) maps hs.
Proof.
  intros Hf Eh%hash_all_Ret. revert hs Eh. induction Hf as [|c m l maps Hc _ IH]; intros hs Eh; inversion Eh as [|? h ? hs' Hh Ht]; subst; constructor; [|auto].
  unfold Bitmap_hash32 in *. by rewrite (clone_data _ _ Hc) in Hh.
Qed.

(** More than one hash is exactly more than one coverage. *)
Lemma varying_spec copies maps hs :
  Forall2 (fun c m => Bitmap_clone (Bitmap_classify_counts m) = Ret c) copies maps -> hash_all copies = Ret hs ->
  if (1 <? size (list_to_set hs : gset Z))%nat then ~ one_coverage maps else one_coverage maps.
Proof.
  intros Hf Eh. pose proof (classified_hashes _ _ _ Hf Eh) as Hall. destruct (1 <? _)%nat eqn:Hs.
  - intros (h & Hh). apply Nat.ltb_lt in Hs.
    assert (Hsub : (list_to_set hs : gset Z) ⊆ {[h]}).
    { intros x Hx%elem_of_list_to_set. apply list_elem_of_lookup in Hx as [i Hi].
      destruct (Forall2_lookup_r _ _ _ _ _ Hall Hi) as (m & Hm & Em). rewrite (proj1 (Forall_lookup _ _) Hh i m Hm) in Em.
      apply elem_of_singleton. congruence. }
    apply subseteq_size in Hsub. rewrite size_singleton in Hsub. lia.
  - destruct hs as [|h0 hs]; [inversion Hall; subst; exists 0; constructor|]. exists h0. apply Forall_forall. intros m Hm.
    apply list_elem_of_lookup in Hm as [i Hi]. destruct (Forall2_lookup_l _ _ _ _ _ Hall Hi) as (h & Hh & Eq). rewrite Eq. f_equal.
    apply (one_hash (h0 :: hs)); [done|by eapply list_elem_of_lookup_2|by left].
Qed.

Lemma calibrate_wlp input finder phase mutator patch_point is_crash parent p :
  wlp (calibrate input finder phase mutator patch_point is_crash parent) (fun r p' => match r with
    | Ok qe => exists runs, calibrated input is_crash parent runs qe p p'
    | Err e => exists runs, gave_up (InputType_bytes input) (calibration_timeout config parent) is_crash runs e p p'
    end) p.
Proof.
  unfold common_calibrate, sink_bitmap, set_sink_bitmap. wlp_step. eapply wlp_mono; [apply cycles_wlp|].
  intros [l|e] p1 Hl; [|destruct Hl as (runs & p2 & ? & ? & ?); exists runs; by eapply Failed_cycle].
  destruct Hl as (runs & Hr & Hn & Hd & Hf). wlp_step. apply wlp_lift. intros d Ed. wlp_step. rewrite Hd in Ed.
  apply max_duration_spec in Ed as [Hd1 Hd2]. apply wlp_lift. intros hs Eh. pose proof (varying_spec _ _ _ Hf Eh) as Hvar.
  destruct (ran_cycles_queue _ _ _ _ _ _ Hr) as [H1 Hv]. set (varying := (1 <? size (list_to_set hs : gset Z))%nat) in *.
  destruct (varying && negb (si_allow_unstable_sink (c_sink config))) eqn:Ev.
  { apply andb_true_iff in Ev as [Ev1 Ev2%negb_true_iff]. rewrite Ev1 in Hvar. apply wlp_of_result. exists runs. by apply Varying. }
  wlp_steps. apply wlp_lift. intros h Eqh.
  wlp_step. eapply wlp_mono; [apply calibration_input_wlp|]. intros ri p2 (Hv2 & Hk & Hid & Hst & i & -> & Hi). cbv beta iota. wlp_steps.
  apply wlp_lift. intros mc1 _. wlp_step. apply wlp_lift. intros mc2 _. wlp_step. apply wlp_lift. intros [bytes mc3] _. wlp_steps.
  intros rq p3 Eq. unfold new_queue_entry, QueueEntry_new in Eq.
  destruct (Bitmap_minimize _) as [edges|] eqn:Em; cbn [mbind outcome_bind] in Eq; [|done]. injection Eq as <- <-. cbv beta iota. wlp_steps.
  exists runs. cbn in Hid, Hst, Hk. rewrite H1 in Hid, Hst.
  assert (Hlast : exists c, last runs = Some c).
  { destruct (last runs) as [c|] eqn:El; [by exists c|]. apply last_None in El. by subst. }
  destruct Hlast as (c & Hlast). pose proof (ran_cycles_last _ _ _ _ _ _ _ Hr Hlast) as Hc. rewrite Hc in Eqh, Em.
  match goal with |- calibrated _ _ _ _ ?q _ _ => set (qe := q) end.
  assert (Hqd : qe_avg_exec_duration_raw qe = d /\ qe_sink_unstable qe = varying) by (unfold qe; by destruct input).
  destruct Hqd as [Hqd Hqu].
  split; rewrite ?Hqd, ?Hqu; try (unfold qe; by destruct input).
  - exists p1. split; [exact Hr|]. cbn. by rewrite Hk, Hv2.
  - cbn. by rewrite Hv2.
  - intros Hu. by rewrite Hu in Hvar.
  - intros Hu. rewrite Hu in Hvar, Ev. split; [by destruct (si_allow_unstable_sink _)|done].
  - exists c. split; [done|]. unfold qe. by destruct input.
  - intros Hs. pose proof (ran_cycles_durations _ _ _ _ _ _ Hr) as Hds. rewrite Forall_forall in Hds. destruct (Hds d Hd1). auto.
  - cbn. by rewrite Hid.
  - unfold qe. destruct input; cbn; by rewrite Hst.
  - cbn. by rewrite Hst.
Qed.

(** The size of the maps of a calibration. *)
Lemma calibrate_sized n input is_crash parent runs r p p' :
  (forall t k, byte_ok (covered_bytes t k)) -> sized n p ->
  match r with
  | Ok qe => calibrated input is_crash parent runs qe p p'
  | Err e => gave_up (InputType_bytes input) (calibration_timeout config parent) is_crash runs e p p'
  end ->
  Forall (map_of_size n) runs.*2 /\ sized n p'.
Proof.
  intros Hb Hs Hr. destruct r as [qe|e].
  - destruct (cal_runs _ _ _ _ _ _ _ Hr) as (p1 & H1 & H2 & _). destruct (ran_cycles_sized n _ _ _ _ _ _ Hb H1 Hs) as [H3 H4].
    split; [done|]. unfold sized. rewrite H2. by apply classify_of_size.
  - destruct Hr as [p1 H1 _ E|H1 _ _ _ _]; [|by eapply ran_cycles_sized]. destruct (ran_cycles_sized n _ _ _ _ _ _ Hb H1 Hs) as [H3 H4].
    split; [done|]. by eapply cycle_sized.
Qed.

(** C9: what a calibration delivers.  When [common_calibrate] returns an entry, it ran the targets
    twenty times, one run after the other from the state the previous one left, each ending as it
    may and, unless the sink is stopped with [SIGTERM], within the timeout.  The coverage of every
    one of these runs is cleared from the virgin map; the entry is marked unstable exactly when the
    runs differ in their classified coverage, which the configuration must then allow; its duration is
    that of the longest cycle, and its hash and edges are those of the last map (classified once
    more); it has a new id, its own fresh statistics, the given input and a generation behind its
    parent.  This is what the scheduling of the discovery phase assumes of a calibration, and, when
    the map of the sink has [n] bytes, the sizes and the statistics the handlers of a run assume.  When
    it fails, no entry was created, the error is that of the first failed cycle or, after twenty
    cycles with different coverage, [SinkUnstable], and only the completed cycles are cleared. *)
Theorem calibration_delivers input finder phase mutator patch_point is_crash parent p r p' :
  calibrate input finder phase mutator patch_point is_crash parent p = Ret (r, p') ->
  match r with
  | Ok qe => exists runs, calibrated input is_crash parent runs qe p p' /\
      (forall s env e, s_qstate s = pr_qstate p -> input = InputType_Parent e ->
        env_calibration env = Calibrated qe (pr_qstate p') runs.*2 -> fresh_entry s env) /\
      (forall n, (forall t k, byte_ok (covered_bytes t k)) -> sized n p ->
        Forall (map_of_size n) runs.*2 /\ (qe_stats qe < length (qs_stats (pr_qstate p')))%nat)
  | Err e => exists runs, gave_up (InputType_bytes input) (calibration_timeout config parent) is_crash runs e p p' /\
      pr_qstate p' = pr_qstate p /\ pr_virgin p' = (fun v => calibrate_virgin v runs.*2) <$> pr_virgin p
  end.
Proof.
  intros E. pose proof (calibrate_wlp _ _ _ _ _ _ _ _ _ _ E) as Hr. destruct r as [qe|e].
  - destruct Hr as (runs & Hc). exists runs. split; [done|]. split.
    + intros s env e Hs -> Henv. unfold fresh_entry. rewrite Henv, Hs.
      rewrite (cal_stats _ _ _ _ _ _ _ Hc), (cal_state _ _ _ _ _ _ _ Hc), (cal_generation _ _ _ _ _ _ _ Hc). split_and!; [done|done|lia].
    + intros n Hb Hs. split; [by eapply (calibrate_sized n _ _ _ _ (Ok qe))|].
      rewrite (cal_stats _ _ _ _ _ _ _ Hc), (cal_state _ _ _ _ _ _ _ Hc), length_app. cbn. lia.
  - destruct Hr as (runs & Hg). exists runs. split; [done|by eapply gave_up_queue].
Qed.
End calibration.

(** ** Replaying an entry *)

Section replay.
Context {K : Type} `{Kernel K} `{L : EntryLayout} `{CL : ContentLayout} `{!EntryLayoutLaws L}.
Context (max_msg_len : nat) (pad : nat -> Z) (signal_try_from : Z -> option Z) (SIGBUS : Z).
Context (polls flushes server_messages : nat) (config : Config) (new_cache : outcome MutationCache).
Context (send_ok : nat -> bool) (produced : nat -> list Z) (covered_bytes : nat -> nat -> Z) (now : nat -> Z) (pcap : nat -> option (list Z)) (sha256_hex : list Z -> string).
Implicit Types p : Pair (K:=K).
#[local] Abbreviation cache p := (s_mutation_cache (pr_source p)).
#[local] Abbreviation calibrate :=
  (common_calibrate max_msg_len pad signal_try_from SIGBUS polls flushes server_messages config new_cache send_ok produced covered_bytes now pcap sha256_hex).

(** A calibration does not touch the cache. *)
Section frame.
Context (mc : MutationCache).
#[local] Abbreviation P := (fun s : Source => s_mutation_cache s = mc).
#[local] Abbreviation PP := (fun p : Pair (K:=K) => cache p = mc).
Lemma cache_frame s s' : s_mutation_cache s' = s_mutation_cache s -> P s -> P s'.
Proof. intros E Hs. cbn in *. congruence. Qed.
Lemma cache_source {A} (m : bool -> Source.SM A) : (forall ok, preserves P (m ok)) -> preserves PP (on_source send_ok m).
Proof. apply (on_source_keeps send_ok P). Qed.
Lemma cache_sink {A} (m : Sink.SM A) : preserves PP (on_sink m).
Proof. by apply on_sink_preserves. Qed.
Lemma calibration_run_cache data timeout :
  preserves PP
    (common_calibration_run max_msg_len pad signal_try_from SIGBUS polls flushes server_messages config send_ok produced covered_bytes data timeout).
Proof.
  unfold common_calibration_run, networked_common_calibration_run, networked_run, endpoints, produce, write_sink, run_sink,
    source_write, source_read, source_run, common_fail, Server_spawn, Client_spawn, Server_wait_until_listening, Client_wait_until_connect,
    Server_wait_for_child_termination, source_spawn, sink_spawn, source_wait, sink_wait.
  keeps; first [apply cache_sink|apply cache_source; intros|done];
    first [apply src_spawn|apply src_wait|apply src_listening|apply src_connect|apply src_run]; apply cache_frame.
Qed.
#[local] Hint Resolve calibration_run_cache : preserves.

Lemma cycles_cache n data timeout is_crash :
  preserves PP
    (calibration_cycles max_msg_len pad signal_try_from SIGBUS polls flushes server_messages config send_ok produced covered_bytes now n data timeout is_crash).
Proof.
  induction n as [|n IH]; cbn [calibration_cycles]; unfold calibration_cycle, sink_bitmap, set_sink_bitmap, common_fail; keeps;
    first [by intros p r p' [= _ <-]|done].
Qed.
End frame.

Lemma clone_rep mc nc es es0 :
  cache_rep mc es -> cache_rep nc es0 -> mc_content_size nc = mc_content_size mc ->
  exists b, MutationCache_try_clone mc (Ret nc) = Ret b /\ cache_rep b es /\ mc_content_size b = mc_content_size mc.
Proof.
  intros [Hr Hs] [Hn Hns] Hsz. unfold MutationCache_try_clone. cbn [mbind outcome_bind]. unfold MutationCache_load_bytes, image_length, assert_that.
  pose proof (cr_total _ _ Hr) as Ht. pose proof (cr_total _ _ Hn) as Htn.
  destruct (Nat.leb_spec (content_header_size + length (cc_data (mc_content mc))) (mc_content_size nc)); [|lia]. cbn [mbind outcome_bind].
  eexists. split; [reflexivity|]. split; [|exact Hsz]. split; [|done]. destruct Hr as [_ Hc Hsl Hf Hp]. split; cbn.
  - rewrite length_app, length_drop. lia.
  - rewrite length_app. lia.
  - done.
  - done.
  - eapply packed_agree, Hp. by rewrite take_app_le.
Qed.

Lemma saved_image mc es :
  cache_rep mc es -> exists img mc', MutationCache_save_bytes mc = Ret (img, mc') /\ image_of img es /\ (image_length img <= mc_content_size mc)%nat.
Proof.
  intros [Hr Hs]. unfold MutationCache_save_bytes. destruct (consolidate_compact _ es Hr) as (c' & -> & (Hr' & Hcur & _) & Hd & _).
  cbn [mbind outcome_bind].
  assert (Hrep' : cache_rep (with_content mc c') es).
  { split; [done|]. cbn. rewrite Hs, (cr_total _ _ Hr), (cr_total _ _ Hr'). lia. }
  destruct (used_image_Ret _ _ Hrep') as (img & -> & Hi1 & Hi2). cbn [mbind outcome_bind]. eexists _, _. split; [reflexivity|].
  split; [done|]. rewrite Hi1. cbn. pose proof (cr_current _ _ Hr'). pose proof (cr_total _ _ Hr). lia.
Qed.

(** The mutations of a queue entry are those of the cache that do something. *)
Definition does_something (e : MutationCacheEntry) : bool :=
  (0 <? Entry_msk_len e)%nat && existsb (fun b => negb (b =? 0)) (Entry_get_msk_as_slice e).

Lemma calibrate_mutations nc es es0 input finder phase mutator patch_point is_crash parent p qe p' :
  new_cache = Ret nc -> cache_rep nc es0 -> cache_rep (cache p) es -> mc_content_size nc = mc_content_size (cache p) ->
  NoDup (Entry_id <$> es) ->
  calibrate input finder phase mutator patch_point is_crash parent p = Ret (Ok qe, p') ->
  exists img, qe_mutations qe = Some img /\ image_of img (List.filter does_something es) /\ (image_length img <= mc_content_size nc)%nat.
Proof.
  intros Enc Hnc Hp Hn Hnd E. revert E.
  enough (Hw : wlp (calibrate input finder phase mutator patch_point is_crash parent) (fun r _ => match r with
    | Ok qe => exists img, qe_mutations qe = Some img /\ image_of img (List.filter does_something es) /\ (image_length img <= mc_content_size nc)%nat
    | Err _ => True end) p) by (intros E; exact (Hw _ _ E)).
  unfold common_calibrate, sink_bitmap, set_sink_bitmap. wlp_step.
  eapply wlp_mono; [apply (wlp_preserves _ _ _ (cycles_cache (cache p) _ _ _ _)); done|].
  intros [l|e] p1 H1; [|done]. wlp_step. apply wlp_lift. intros d _. wlp_step. apply wlp_lift. intros hs _.
  destruct (_ && _); [by apply wlp_of_result|]. wlp_steps. apply wlp_lift. intros h _. wlp_step.
  intros ri p2 Ei. assert (H2 : cache p2 = cache p).
  { rewrite <- H1. destruct input; cbn in Ei; by injection Ei as _ <-. }
  destruct ri as [i|e]; [|done]. wlp_steps. rewrite H2, Enc. destruct (clone_rep _ _ _ _ Hp Hnc Hn) as (b & -> & Hb & Hbs).
  apply wlp_lift. intros ? [= <-]. wlp_step. unfold MutationCache_purge_nop_entries.
  destruct (retain_filter b es does_something Hb Hnd) as (mc2 & Er & Hr & Hl). unfold does_something in Er. rewrite Er.
  apply wlp_lift. intros ? [= <-]. wlp_step. destruct (saved_image _ _ Hr) as (img & mc3 & -> & Him & Hlen).
  apply wlp_lift. intros ? [= <-]. wlp_steps. intros rq p3 Eq. unfold new_queue_entry, QueueEntry_new in Eq.
  destruct (Bitmap_minimize _); cbn [mbind outcome_bind] in Eq; [|done]. injection Eq as <- <-. cbv beta iota. wlp_steps.
  exists img. split; [by destruct input|]. split; [done|]. destruct Hr as [Hr1 Hr2]. destruct Hl as (Hld & _ & _ & _).
  pose proof (cr_total _ _ Hr1). destruct Hb as [Hb1 Hb2]. pose proof (cr_total _ _ Hb1). lia.
Qed.

(** A queue entry reproduces what was found.  The mutations a calibration stores in its entry
    are those of the source's cache, with the entries that change nothing left out; when a worker
    loads the entry later ([load_queue_entry_mutations]), whatever its own cache holds, the cache
    of its source has exactly these mutations, in the same order. *)
Theorem calibrated_entry_replays nc es es0 input finder phase mutator patch_point is_crash parent p qe p' (w : FuzzingWorker) :
  new_cache = Ret nc -> cache_rep nc es0 -> cache_rep (cache p) es -> mc_content_size nc = mc_content_size (cache p) ->
  NoDup (Entry_id <$> es) ->
  calibrate input finder phase mutator patch_point is_crash parent p = Ret (Ok qe, p') ->
  (mc_content_size nc <= mc_content_size (fw_cache w))%nat ->
  exists w', load_queue_entry_mutations new_cache qe w = Ret (Ok tt, w') /\
    MutationCache_entries (fw_cache w') = List.filter does_something es.
Proof.
  intros Enc Hnc Hp Hn Hnd E Hw.
  destruct (calibrate_mutations nc es es0 _ _ _ _ _ _ _ _ _ _ Enc Hnc Hp Hn Hnd E) as (img & Eq & Him & Hlen).
  unfold load_queue_entry_mutations. rewrite Eq, Enc. unfold mbind, eff_bind, lift_outcome.
  destruct (load_image nc es0 img _ Hnc Him) as [Hload _]. destruct (Hload Hlen) as (mc & Eload & Hmc). rewrite Eload.
  unfold mutation_cache_replace, MutationCache_replace_content.
  assert (Hsz : mc_content_size mc = mc_content_size nc).
  { unfold MutationCache_load_bytes in Eload. apply outcome_bind_Ret in Eload as (_ & _ & Eload). by injection Eload as <-. }
  destruct (Nat.ltb_spec (mc_content_size (fw_cache w)) (mc_content_size mc)); [lia|]. cbn [mret outcome_ret].
  eexists. split; [reflexivity|]. destruct Hmc as [Hr _]. destruct Hr as [_ Hcur _ _ Hpk].
  unfold MutationCache_entries, Content_entries, entry_ref. cbn. eapply packed_entries, packed_agree, Hpk. by rewrite take_app_le.
Qed.
End replay.

(** ** Witnesses *)

#[local] Existing Instance demo_stackmap.
#[local] Existing Instance demo_layout.
#[local] Existing Instance demo_layout_laws.
#[local] Existing Instance demo_content_layout.
#[local] Existing Instance demo_kernel.

Definition demo_config : Config :=
  mk_config (mk_general_config (path "/in") (path "/work") (secs 300) None None true)
    (mk_source_config [] (path "/bin/true") [] In_File Out_File None false false None None None None None None None)
    PhasesConfig_default demo_sink_config None (mk_vanilla_config [] (path "/bin/true") []) None None None.

(** The messages of a run that exits with code zero. *)
Definition demo_run : list AgentMessage :=
  [AM_ChildPid (ChildPid_new 100); AM_Terminated (mk_terminated (MsgHeader_new MsgIdTerminated) 0 false)].

Definition demo_pair (messages : list AgentMessage) : Pair :=
  mk_pair (with_inbox (demo_source demo_cache) ((fun m => Some (encode no_pad m)) <$> messages) []) demo_sink (mk_view [] [] None [] 0)
    [] ∅ [] QState_init (Some (demo_map 255)) [] 0.

Lemma outputs_reach_sink_once_witness :
  exists p, run_all 600 no_pad demo_signal 7 3 3 demo_config of_le (fun _ => true) (fun _ => [65]) (fun _ _ => 1)
              [([1], secs 1); ([2], secs 1)] (demo_pair (demo_run ++ demo_run)) = Ret ([Ok (Sink_Terminated 3); Err (Exec DuplicatedOutput)], p) /\
    exists outs, pr_sunk p = outs /\ NoDup (of_le <$> outs) /\ (1 <= length outs)%nat.
Proof.
  destruct (run_all 600 no_pad demo_signal 7 3 3 demo_config of_le (fun _ => true) (fun _ => [65]) (fun _ _ => 1)
    [([1], secs 1); ([2], secs 1)] (demo_pair (demo_run ++ demo_run))) as [[rs p]|] eqn:E; [|exfalso; revert E; by vm_compute].
  assert (Hr : rs = [Ok (Sink_Terminated 3); Err (Exec DuplicatedOutput)]) by (revert E; vm_compute; congruence).
  destruct (outputs_reach_sink_once 600 no_pad demo_signal 7 3 3 demo_config of_le (fun _ => true) (fun _ => [65]) (fun _ _ => 1) _ _ _ _ E)
    as (outs & Hs & Hn & _ & _ & Hl & _).
  subst rs. exists p. split; [reflexivity|]. exists outs. split; [exact Hs|]. split; [exact Hn|exact Hl].
Defined.

Definition demo_trace_messages : list AgentMessage :=
  AM_Ok (HeaderOnly_default MsgIdOk) :: AM_ChildPid (ChildPid_new 100) :: AM_TracePointStat (stat [7; 7] 7) ::
  [AM_Terminated (mk_terminated (MsgHeader_new MsgIdTerminated) 0 false)].

Lemma common_trace_restores_cache_witness :
  exists t p, common_trace 600 no_pad demo_signal 7 3 3 3 demo_config (Ret demo_mc) (Ok [demo_site]) (fun _ => true) (fun _ => [65]) (fun _ _ => 1)
                [1] (secs 1) (demo_pair demo_trace_messages) = Ret (Ok t, p) /\
    hits_mapping t !! 7 = Some 2 /\ MutationCache_entries (s_mutation_cache (pr_source p)) = [entry_trim (demo_entry 7 (replicate 8 255))].
Proof.
  destruct (common_trace 600 no_pad demo_signal 7 3 3 3 demo_config (Ret demo_mc) (Ok [demo_site]) (fun _ => true) (fun _ => [65]) (fun _ _ => 1)
    [1] (secs 1) (demo_pair demo_trace_messages)) as [[r p]|] eqn:E; [|exfalso; revert E; by vm_compute].
  assert (Hr : match r with Ok t => hits_mapping t !! 7 = Some 2 | Err _ => False end) by (revert E; vm_compute; by intros [= <- _]).
  destruct r as [t|e]; [|destruct Hr]. exists t, p. split; [reflexivity|]. split; [exact Hr|].
  destruct (common_trace_restores_cache 600 no_pad demo_signal 7 3 3 3 demo_config (Ret demo_mc) (Ok [demo_site]) (fun _ => true) (fun _ => [65]) (fun _ _ => 1)
    demo_mc [entry_trim (demo_entry 7 (replicate 8 255))] [] [1] (secs 1) (demo_pair demo_trace_messages) (Ok t) p eq_refl demo_mc_rep demo_cache_rep eq_refl E)
    as [He|(_ & e & p1 & Hbad & _)]; [exact He|discriminate Hbad].
Defined.

Lemma demo_covered_ok (t k : nat) : byte_ok 1.
Proof. by vm_compute. Qed.
Lemma demo_pair_sized l : sized 64 (demo_pair l).
Proof. split; [|done]. apply demo_map_wf. by vm_compute. Qed.

Lemma calibration_delivers_witness :
  exists qe p runs, common_calibrate 600 no_pad demo_signal 7 3 3 3 demo_config (Ret demo_mc) (fun _ => true) (fun _ => [65]) (fun _ _ => 1) Z.of_nat (fun _ => None)
      (fun _ => "ab"%string) (InputType_Parent demo_qe) None None None None false None (demo_pair (mjoin (replicate 20 demo_run))) = Ret (Ok qe, p) /\
    calibrated 600 no_pad demo_signal 7 3 3 3 demo_config (fun _ => true) (fun _ => [65]) (fun _ _ => 1) Z.of_nat
      (InputType_Parent demo_qe) false None runs qe (demo_pair (mjoin (replicate 20 demo_run))) p /\ Forall (map_of_size 64) runs.*2.
Proof.
  destruct (common_calibrate 600 no_pad demo_signal 7 3 3 3 demo_config (Ret demo_mc) (fun _ => true) (fun _ => [65]) (fun _ _ => 1) Z.of_nat (fun _ => None)
    (fun _ => "ab"%string) (InputType_Parent demo_qe) None None None None false None (demo_pair (mjoin (replicate 20 demo_run)))) as [[r p]|] eqn:E;
    [|exfalso; revert E; by vm_compute].
  assert (Hr : match r with Ok _ => True | Err _ => False end) by (revert E; vm_compute; by intros [= <- _]).
  destruct r as [qe|e]; [|destruct Hr].
  destruct (calibration_delivers 600 no_pad demo_signal 7 3 3 3 demo_config (Ret demo_mc) (fun _ => true) (fun _ => [65]) (fun _ _ => 1) Z.of_nat (fun _ => None)
    (fun _ => "ab"%string) (InputType_Parent demo_qe) None None None None false None _ _ _ E) as (runs & Hc & _ & Hn).
  exists qe, p, runs. split; [reflexivity|]. split; [exact Hc|].
  exact (proj1 (Hn 64%nat demo_covered_ok (demo_pair_sized _))).
Defined.
