(* ===== verification/Init.v ===== *)
(** * Starting a worker

    Models [scheduler/src/fuzzer/worker_impl/init.rs] (without the creation of the processes) and
    [report_execution_duration] of [worker_impl/common.rs].  Reading the input directory, the
    patch points of the generator and whether the parent still listens on the channel of the
    worker are arguments; the calibration of a seed is the one of [Common]. *)

From S2P Require Import Prelude Effects Bytes Rng FiniteIntegerSet Bitmap Mutators MutationCacheEntry MutationCacheContent MutationCache Messages Trace MutationSite MutationCacheOps AuxStream Source Queue EventCounter Cerebrum Scheduling RunCommon MutatorSteps Phases Config Sink Common.

Definition AVG_EXECUTION_TIME_STABILIZATION_VALUE : Z := 100.

(** [Duration] in nanoseconds; its operators panic when the seconds do not fit into 64 bits. *)
Definition duration (d : Z) : outcome Z := if d <? 2 ^ 64 * 10 ^ 9 then Ret d else Panic.

Definition report_execution_duration (avg avg_execution_duration n : Z) : outcome Z :=
  a ← duration (avg * AVG_EXECUTION_TIME_STABILIZATION_VALUE);
  b ← duration (avg_execution_duration * n);
  sum ← duration (a + b);
  k ← checked_add 32 n AVG_EXECUTION_TIME_STABILIZATION_VALUE;
  mret (sum / k).

Inductive InitError := InputDirFailed | ParentGone | AllImportsFailed | InitializedByOtherFailed.

Section init.
Context {K : Type} `{Kernel K} `{L : EntryLayout} `{CL : ContentLayout}.
Context (max_msg_len : nat) (pad : nat -> Z) (signal_try_from : Z -> option Z) (SIGBUS : Z).
Context (polls flushes server_messages : nat) (config : Config) (new_cache : outcome MutationCache).
Context (patch_points : result unit (list MutationSite)).
Context (send_ok : nat -> bool) (produced : nat -> list Z) (covered_bytes : nat -> nat -> Z) (now : nat -> Z) (pcap : nat -> option (list Z)).
Context (sha256_hex : list Z -> string).
(** [Input::from_dir(..)], whether a send to the parent succeeds, and the clock in milliseconds *)
Context (inputs : result unit (list Input)) (parent_listens : nat -> bool) (utc_now : Z).

(** What the workers of a campaign share. *)
Record CampaignShared := mk_campaign_shared {
  cs_virgin_map : Bitmap;
  cs_crash_virgin_map : Bitmap;
  cs_queue : Queue;
  cs_cerebrum : option Cerebrum;
  (** [shared_init_done] and [queue_init_failed_flag] *)
  cs_init_done : bool;
  cs_init_failed : bool;
}.

(** A worker that starts, with what it shares. *)
Record Init := mk_init {
  in_uid : nat;
  in_pair : Pair (K:=K);
  in_virgin_map : Bitmap;
  in_crash_virgin_map : Bitmap;
  in_avg_execution_duration : Z;
  in_shared : CampaignShared;
}.

Definition IM (A : Type) : Type := eff Init InitError A.

Definition in_with_pair i p := mk_init (in_uid i) p (in_virgin_map i) (in_crash_virgin_map i) (in_avg_execution_duration i) (in_shared i).
Definition in_with_maps i v c := mk_init (in_uid i) (in_pair i) v c (in_avg_execution_duration i) (in_shared i).
Definition in_with_avg i d := mk_init (in_uid i) (in_pair i) (in_virgin_map i) (in_crash_virgin_map i) d (in_shared i).
Definition in_with_shared i s := mk_init (in_uid i) (in_pair i) (in_virgin_map i) (in_crash_virgin_map i) (in_avg_execution_duration i) s.
Definition cs_with_maps s v c := mk_campaign_shared v c (cs_queue s) (cs_cerebrum s) (cs_init_done s) (cs_init_failed s).
Definition cs_with_queue s q := mk_campaign_shared (cs_virgin_map s) (cs_crash_virgin_map s) q (cs_cerebrum s) (cs_init_done s) (cs_init_failed s).
Definition cs_with_cerebrum s c := mk_campaign_shared (cs_virgin_map s) (cs_crash_virgin_map s) (cs_queue s) (Some c) (cs_init_done s) (cs_init_failed s).
Definition cs_with_flags s d f := mk_campaign_shared (cs_virgin_map s) (cs_crash_virgin_map s) (cs_queue s) (cs_cerebrum s) d f.

Definition init_fail {A} (e : InitError) : IM A := of_result (Err e).
(** A step of source and sink; its error is a value. *)
Definition on_pair {A} (m : PM A) : IM (result CommonError A) := fun i =>
  match m (in_pair i) with Ret (r, p) => Ret (Ok r, in_with_pair i p) | Panic => Panic end.

(** ** The bitmaps *)

Definition resize_bitmap (bm_size' : nat) (bitmap : Bitmap) : outcome Bitmap :=
  if (bm_size bitmap =? bm_size')%nat then mret bitmap else Bitmap_new_in_mem bm_size' 255.

Definition resize_bitmaps : IM unit :=
  size ← get (fun i => bm_size (sk_bitmap (pr_sink (in_pair i))));
  i ← get id;
  virgin_map ← lift_outcome (resize_bitmap size (in_virgin_map i));
  crash_virgin_map ← lift_outcome (resize_bitmap size (in_crash_virgin_map i));
  shared_virgin ← lift_outcome (resize_bitmap size (cs_virgin_map (in_shared i)));
  shared_crash_virgin ← lift_outcome (resize_bitmap size (cs_crash_virgin_map (in_shared i)));
  update (fun i => in_with_shared (in_with_maps i virgin_map crash_virgin_map)
                     (cs_with_maps (in_shared i) shared_virgin shared_crash_virgin)).

(** ** The seeds *)

(** Importing a seed: it starts with an empty mutation cache. *)
Definition import_seed (num_inputs : nat) (input : Input) : IM (option QueueEntry) :=
  i ← get id;
  if negb (parent_listens (pr_step (in_pair i))) then init_fail ParentGone
  else
    _ ← update (fun i => let p := in_pair i in
          in_with_pair i (pr_with_source p (with_cache (pr_source p) (MutationCache_clear (s_mutation_cache (pr_source p))))));
    result ← on_pair (common_calibrate max_msg_len pad signal_try_from SIGBUS polls flushes server_messages config new_cache send_ok
                        produced covered_bytes now pcap sha256_hex (InputType_Input input) (Some (in_uid i)) None None None false None);
    match result with
    | Ok entry =>
        avg ← get in_avg_execution_duration;
        (* [num_inputs as u32]: the division panics on zero *)
        _ ← lift_outcome (assert_that (negb (Z.of_nat num_inputs mod 2 ^ 32 =? 0)));
        avg ← lift_outcome (report_execution_duration avg (qe_avg_exec_duration_raw entry)
                              (AVG_EXECUTION_TIME_STABILIZATION_VALUE / (Z.of_nat num_inputs mod 2 ^ 32)));
        _ ← update (fun i => in_with_avg i avg);
        mret (Some entry)
    | Err _ => mret None
    end.

Fixpoint import_seeds (num_inputs : nat) (l : list Input) : IM (list QueueEntry) :=
  match l with
  | [] => mret []
  | input :: l =>
      entry ← import_seed num_inputs input;
      entries ← import_seeds num_inputs l;
      mret (option_list entry ++ entries)
  end.

Definition calibrate_seed_files : IM (list QueueEntry) :=
  inputs ← match inputs with Ok l => mret l | Err _ => init_fail InputDirFailed end;
  bitmap ← get (fun i => sk_bitmap (pr_sink (in_pair i)));
  virgin_map ← lift_outcome (Bitmap_clone_with_pattern bitmap 255);
  _ ← update (fun i => in_with_pair i (pr_with_virgin (in_pair i) (Some virgin_map)));
  entries ← import_seeds (length inputs) inputs;
  virgin_map ← get (fun i => pr_virgin (in_pair i));
  virgin_map ← lift_outcome (unwrap virgin_map);
  let virgin_map := Bitmap_not virgin_map in
  _ ← update (fun i =>
        let s := in_shared i in
        in_with_shared (in_with_maps i (Bitmap_has_new_bit virgin_map (in_virgin_map i)).2 (in_crash_virgin_map i))
          (cs_with_maps s (Bitmap_has_new_bit virgin_map (cs_virgin_map s)).2 (cs_crash_virgin_map s)));
  if bool_decide (entries = []) then init_fail AllImportsFailed else mret entries.

(** ** The shared state *)

(** The closure of [call_once], which keeps its error in a variable. *)
Definition init_shared_once : IM (option InitError) :=
  pps ← lift_outcome (match patch_points with Ok l => Ret l | Err _ => Panic end);
  _ ← update (fun i => in_with_shared i (cs_with_cerebrum (in_shared i) (Cerebrum_new pps)));
  after calibrate_seed_files (fun success =>
    match success with
    | Err e =>
        _ ← update (fun i => in_with_shared i (cs_with_flags (in_shared i) (cs_init_done (in_shared i)) true));
        mret (Some e)
    | Ok entries =>
        _ ← update (fun i =>
              let q := cs_queue (in_shared i) in
              let entries := (fun e => set_creation_ts e (utc_now - q_start_ts q)) <$> entries in
              in_with_shared i (cs_with_queue (in_shared i) (Queue_append q entries)));
        mret None
    end).

Definition init_shared : IM unit :=
  done ← get (fun i => cs_init_done (in_shared i));
  error ←
    (if done : bool then mret None
     else
       error ← init_shared_once;
       _ ← update (fun i => in_with_shared i (cs_with_flags (in_shared i) true (cs_init_failed (in_shared i))));
       mret error);
  match error with
  | Some e => init_fail e
  | None =>
      init_failed ← get (fun i => cs_init_failed (in_shared i));
      if init_failed : bool then init_fail InitializedByOtherFailed else mret tt
  end.
End init.
