(* ===== verification/InitTheorems.v ===== *)
(** * Properties of the start of a worker

    The maps of a worker have the size of the map of its sink, and the shared state is
    initialised by one worker: from then on the queue holds the seeds that could be
    calibrated and the virgin maps are cleared of exactly what these runs covered. *)

From S2P Require Import Prelude Effects Bytes Rng FiniteIntegerSet Bitmap Mutators MutationCacheEntry MutationCacheContent MutationCache Messages Trace MutationSite MutationCacheOps Jit JitStub JitPatch Agent AgentSync AgentTheorems Protocol SinkTheorems FuzzLoop FuzzLoopTheorems FuzzLoopRunner Phases Worker WorkerTheorems AuxStream Source Queue EventCounter Cerebrum Scheduling RunCommon MutatorSteps Config Sink Common CommonTheorems Init.

(** ** Lists of entries *)


Section maps.
Context {K : Type} `{StackMap}.
Implicit Types (p : Pair (K:=K)) (i : Init (K:=K)).

(** ** Clearing the seeds from the maps *)





(** The maps of a worker have the size of the map of its sink, and what no worker saw, it did
    not see. *)
Record start_ok (n : nat) i : Prop := {
  si_sink : sized n (in_pair i);
  si_virgin : map_of_size n (in_virgin_map i);
  si_crash : map_of_size n (in_crash_virgin_map i);
  si_shared : map_of_size n (cs_virgin_map (in_shared i));
  si_shared_crash : map_of_size n (cs_crash_virgin_map (in_shared i));
  si_sub : sub_virgin (cs_virgin_map (in_shared i)) (in_virgin_map i);
  si_sub_crash : sub_virgin (cs_crash_virgin_map (in_shared i)) (in_crash_virgin_map i);
}.


(** ** The maps *)

(** A map as [FuzzingWorker::new] and the campaign create it. *)
Definition fresh_map (v : Bitmap) : Prop := exists k, Bitmap_new_in_mem k 255 = Ret v.

Lemma fresh_all n v g : Bitmap_new_in_mem n 255 = Ret v -> map_of_size n g -> map_of_size n v /\ sub_virgin g v.
Proof.
  intros Hv Hg. pose proof (new_in_mem_wf n 255 v ltac:(by vm_compute) Hv) as Hw. apply new_in_mem_Ret in Hv as [_ ->].
  split; [done|]. intros a b Hh. pose proof (hit_lt8 n g a b Hg Hh) as Hb. destruct Hh as (x & Hx & _). apply lookup_lt_Some in Hx.
  exists 255. split; [apply lookup_replicate_2; destruct Hg as [[] ?]; lia|].
  change 255 with (Z.ones 8). apply Z.ones_spec_low. lia.
Qed.

Lemma resize_size n v : (8 <= n)%nat /\ is_power_of_two n = true -> bitmap_wf v ->
  exists v', resize_bitmap n v = Ret v' /\ map_of_size n v' /\ (bm_size v = n -> v' = v) /\ (fresh_map v -> Bitmap_new_in_mem n 255 = Ret v').
Proof.
  intros Hn Hv. unfold resize_bitmap. destruct (Nat.eqb_spec (bm_size v) n) as [E|E].
  - exists v. split_and!; try done. intros (k & Hk). pose proof Hk as Hk'. apply new_in_mem_Ret in Hk as [_ ->]. cbn in E. by subst k.
  - eexists. assert (Hr : Bitmap_new_in_mem n 255 = Ret (mk_bitmap None (replicate n 255) 255 n)) by (by apply new_in_mem_Ret).
    rewrite Hr. split; [done|]. split; [|done]. split; [|done]. apply (new_in_mem_wf n 255); [by vm_compute|done].
Qed.

Lemma fresh_wf v : fresh_map v -> bitmap_wf v.
Proof. intros (k & Hk). apply (new_in_mem_wf k 255); [by vm_compute|done]. Qed.

(** After [resize_bitmaps] the four maps of a new worker fit the map of its sink.  It never
    panics for a sink whose map is well formed, whatever size the maps were created with; the
    worker takes everything the campaign has not seen for new; and when the shared maps already have
    the size of the map of the sink, as they have for every worker but the first, they keep
    what other workers cleared. *)
Theorem resize_bitmaps_fit n i :
  sized n (in_pair i) -> fresh_map (in_virgin_map i) -> fresh_map (in_crash_virgin_map i) ->
  bitmap_wf (cs_virgin_map (in_shared i)) -> bitmap_wf (cs_crash_virgin_map (in_shared i)) ->
  exists i', resize_bitmaps i = Ret (Ok tt, i') /\ start_ok n i' /\
    (bm_size (cs_virgin_map (in_shared i)) = n -> cs_virgin_map (in_shared i') = cs_virgin_map (in_shared i)) /\
    (bm_size (cs_crash_virgin_map (in_shared i)) = n -> cs_crash_virgin_map (in_shared i') = cs_crash_virgin_map (in_shared i)).
Proof.
  intros Hs Hv Hc Hg Hgc. destruct Hs as [Hw Hn]. pose proof (bm_wf_size _ Hw) as Hsz. rewrite Hn in Hsz.
  destruct (resize_size n _ Hsz (fresh_wf _ Hv)) as (v' & Ev & Hv1 & _ & Hv2). destruct (resize_size n _ Hsz (fresh_wf _ Hc)) as (c' & Ec & Hc1 & _ & Hc2).
  destruct (resize_size n _ Hsz Hg) as (g' & Eg & Hg1 & Hg2 & _). destruct (resize_size n _ Hsz Hgc) as (h' & Eh & Hh1 & Hh2 & _).
  unfold resize_bitmaps, get, update, lift_outcome, mbind, eff_bind. rewrite Hn. unfold id. rewrite Ev, Ec, Eg, Eh.
  eexists. split; [reflexivity|]. split; [|by split].
  split; cbn; try done; [by apply (fresh_all n v' g' (Hv2 Hv))|by apply (fresh_all n c' h' (Hc2 Hc))].
Qed.
End maps.

(** ** Imported entries *)


(** Ids are 64 bits wide. *)
#[local] Abbreviation id_ok q := (0 <= qs_next_id q < 2 ^ 64).



Section start.
Context {K : Type} `{Kernel K} `{L : EntryLayout} `{CL : ContentLayout}.
Context (max_msg_len : nat) (pad : nat -> Z) (signal_try_from : Z -> option Z) (SIGBUS : Z).
Context (polls flushes server_messages : nat) (config : Config) (new_cache : outcome MutationCache).
Context (patch_points : result unit (list MutationSite)).
Context (send_ok : nat -> bool) (produced : nat -> list Z) (covered_bytes : nat -> nat -> Z) (now : nat -> Z) (pcap : nat -> option (list Z)).
Context (sha256_hex : list Z -> string).
Context (inputs : result unit (list Input)) (parent_listens : nat -> bool) (utc_now : Z).
Implicit Types (p : Pair (K:=K)) (i : Init (K:=K)).
#[local] Abbreviation calibrate :=
  (common_calibrate max_msg_len pad signal_try_from SIGBUS polls flushes server_messages config new_cache send_ok produced covered_bytes now pcap sha256_hex).
#[local] Abbreviation cycle :=
  (calibration_cycle max_msg_len pad signal_try_from SIGBUS polls flushes server_messages config send_ok produced covered_bytes now).
#[local] Abbreviation cycles :=
  (calibration_cycles max_msg_len pad signal_try_from SIGBUS polls flushes server_messages config send_ok produced covered_bytes now).
#[local] Abbreviation seed :=
  (import_seed max_msg_len pad signal_try_from SIGBUS polls flushes server_messages config new_cache send_ok produced covered_bytes now pcap sha256_hex
     parent_listens).
#[local] Abbreviation seeds :=
  (import_seeds max_msg_len pad signal_try_from SIGBUS polls flushes server_messages config new_cache send_ok produced covered_bytes now pcap sha256_hex
     parent_listens).
#[local] Abbreviation seed_files :=
  (calibrate_seed_files max_msg_len pad signal_try_from SIGBUS polls flushes server_messages config new_cache send_ok produced covered_bytes now pcap
     sha256_hex inputs parent_listens).
#[local] Abbreviation shared :=
  (init_shared max_msg_len pad signal_try_from SIGBUS polls flushes server_messages config new_cache patch_points send_ok produced covered_bytes now pcap
     sha256_hex inputs parent_listens utc_now).

(** Ids are 64 bits wide. *)
#[local] Abbreviation id_ok q := (0 <= qs_next_id q < 2 ^ 64).

(** ** What the calibrations saw *)

(** The consumer writes bytes to its map. *)
Hypothesis covered_ok : forall t k, byte_ok (covered_bytes t k).

#[local] Abbreviation calibrated :=
  (calibrated max_msg_len pad signal_try_from SIGBUS polls flushes server_messages config send_ok produced covered_bytes now).
#[local] Abbreviation gave_up :=
  (gave_up max_msg_len pad signal_try_from SIGBUS polls flushes server_messages config send_ok produced covered_bytes now).

(** ** The seeds *)








(** The maps of a worker and the shared state. *)
Definition same_maps i i' : Prop :=
  in_uid i' = in_uid i /\ in_virgin_map i' = in_virgin_map i /\ in_crash_virgin_map i' = in_crash_virgin_map i /\ in_shared i' = in_shared i.

Lemma same_maps_refl i : same_maps i i.
Proof. done. Qed.
#[local] Hint Resolve same_maps_refl : core.








(** ** The shared state *)



End start.

(** ** Witnesses *)

#[local] Existing Instance demo_stackmap.
#[local] Existing Instance demo_layout.
#[local] Existing Instance demo_layout_laws.
#[local] Existing Instance demo_content_layout.
#[local] Existing Instance demo_kernel.






