(* ===== verification/Campaign.v ===== *)
(** * Campaigns

    Models [scheduler/src/fuzzer/campaign.rs], the proxies of workers and their start in
    [fuzzer/worker.rs], and the loop that supervises a campaign, [handle_cli_fuzz_subcommand] of
    [cli/handler.rs].  What the threads, the clock and the machine do is the record
    [Surroundings]; the shared state a campaign hands to its workers is the one of [Init].
    Writing the configuration and the queue to disk is left out, except for the failure of a
    dump, and so are locks a panicking worker poisoned.  A [join] waits as long as the fuel of
    the campaign allows; a worker that does not end blocks it. *)

From S2P Require Import Prelude Effects EventCounter.

Definition MAX_WORKER_RESTART_CNT : nat := 100.
Definition DYNAMIC_JOB_SPAWNING_MAX_JOBS : nat := 100.
Definition seconds (n : Z) : Z := n * 10 ^ 9.
Definition DYNAMIC_JOB_SPAWNING_INITIAL_DELAY : Z := seconds 300.
Definition DYNAMIC_JOB_SPAWNING_DELAY : Z := seconds 120.
Definition CAMPAIN_DUMP_INTERVAL : Z := seconds 60.

(** ** The surroundings *)

Inductive RecvTimeoutError := RecvTimeout | RecvDisconnected.

(** Why a thread ended: it panicked, it returned an error, or it is done. *)
Inductive ThreadEnd := ThreadPanicked | ThreadFailed | ThreadDone.

(** What is observed at a step, of workers by their uid. *)
Record Surroundings := mk_surroundings {
  (** the clock in nanoseconds *)
  clock : nat -> Z;
  (** the receiving end of the channel of the worker is connected, or holds a message *)
  worker_alive : nat -> Z -> bool;
  (** [thread::Builder::spawn] succeeds *)
  thread_spawns : Z -> bool;
  (** the messages of an initialising worker that arrive in time, and the error after the last *)
  init_messages : Z -> list bool * RecvTimeoutError;
  (** how the thread of a worker that was told to stop ended, observed after waiting for so
      long; [None] while it runs *)
  thread_end : Z -> nat -> option ThreadEnd;
  worker_stats : Z -> FuzzerEventCounter;
  termination_requested : nat -> bool;
  (** [cpu_usage < DYNAMIC_JOB_SPAWNING_CPU_THRESHOLD] *)
  cpu_is_free : nat -> bool;
  dump_succeeds : nat -> bool;
}.

(** ** State *)

Record WorkerProxy := mk_worker_proxy {
  wp_uid : Z;
  (** [thread_handle] is [Some] *)
  wp_thread_handle : bool;
  (** messages in the stop channel *)
  wp_stops : nat;
}.

Inductive CampaignError := ThreadSpawnFailed (uid : Z) | InitFailed (uid : Z) (e : RecvTimeoutError) | DumpFailed.

Record FuzzingCampaign := mk_campaign {
  ca_workers : list WorkerProxy;
  ca_restarted_worker : list Z;
  (** [NEXT_WORKER_UID] *)
  ca_next_uid : Z;
  ca_step : nat;
}.

Definition Campaign_new : FuzzingCampaign := mk_campaign [] [] 0 0.

Definition CM (A : Type) : Type := eff FuzzingCampaign CampaignError A.
Definition ca_with_workers c l := mk_campaign l (ca_restarted_worker c) (ca_next_uid c) (ca_step c).
Definition ca_with_restarted c l := mk_campaign (ca_workers c) l (ca_next_uid c) (ca_step c).
Definition ca_with_uid c n := mk_campaign (ca_workers c) (ca_restarted_worker c) n (ca_step c).
Definition ca_tick c := mk_campaign (ca_workers c) (ca_restarted_worker c) (ca_next_uid c) (S (ca_step c)).

Section campaign.
Context (env : Surroundings).

(** An observation; the next one is made later. *)
Definition look {A} (f : nat -> A) : CM A := fun c => Ret (Ok (f (ca_step c)), ca_tick c).

(** ** Workers *)

(** [FuzzingWorker::new] takes the next id. *)
Definition FuzzingWorker_new : CM Z := fun c =>
  Ret (Ok (ca_next_uid c), ca_with_uid c ((ca_next_uid c + 1) mod 2 ^ 64)).

(** The loop in [spawn]: messages that say that the worker is not yet ready start the wait anew. *)
Fixpoint await_init (messages : list bool) (e : RecvTimeoutError) : result RecvTimeoutError unit :=
  match messages with
  | true :: _ => Ok tt
  | false :: messages => await_init messages e
  | [] => Err e
  end.

(** The join of a disconnected worker that follows an error is only logged. *)
Definition FuzzingWorker_spawn (uid : Z) : CM WorkerProxy :=
  if negb (thread_spawns env uid) then of_result (Err (ThreadSpawnFailed uid))
  else
    match await_init (init_messages env uid).1 (init_messages env uid).2 with
    | Ok _ => mret (mk_worker_proxy uid true 0)
    | Err e => of_result (Err (InitFailed uid e))
    end.

Definition is_alive (w : WorkerProxy) : CM bool := look (fun t => worker_alive env t (wp_uid w)).

(** A failed send means that the worker is gone. *)
Definition request_stop_soon (w : WorkerProxy) : WorkerProxy := mk_worker_proxy (wp_uid w) (wp_thread_handle w) (S (wp_stops w)).

(** [None] when the thread has not ended after [fuel]: [handle.join()] still blocks. *)
Definition join (fuel : nat) (w : WorkerProxy) : outcome (option (result unit unit * WorkerProxy)) :=
  _ ← assert_that (wp_thread_handle w);
  let w := mk_worker_proxy (wp_uid w) false (wp_stops w) in
  mret match thread_end env (wp_uid w) fuel with
       | None => None
       | Some ThreadDone => Some (Ok tt, w)
       | Some ThreadPanicked | Some ThreadFailed => Some (Err tt, w)
       end.

(** ** Operations of the campaign *)

Definition num_workers : CM nat := get (fun c => length (ca_workers c)).

Definition spawn_additional_worker : CM unit :=
  uid ← FuzzingWorker_new;
  worker ← FuzzingWorker_spawn uid;
  update (fun c => ca_with_workers c (ca_workers c ++ [worker])).

(** The workers of [start] share a barrier, here they are started like the others. *)
Fixpoint campaign_start (worker_cnt : nat) : CM unit :=
  match worker_cnt with
  | O => mret tt
  | S n => _ ← spawn_additional_worker; campaign_start n
  end.

Fixpoint any_alive (l : list WorkerProxy) : CM bool :=
  match l with
  | [] => mret false
  | w :: l => alive ← is_alive w; if alive : bool then mret true else any_alive l
  end.
Definition is_any_worker_alive : CM bool := l ← get ca_workers; any_alive l.

(** The first loop of [restart_crashed_worker]. *)
Fixpoint crashed (l : list WorkerProxy) : CM (list Z) :=
  match l with
  | [] => mret []
  | w :: l =>
      alive ← is_alive w;
      restarted ← get ca_restarted_worker;
      uids ← crashed l;
      mret (if negb alive && negb (bool_decide (wp_uid w ∈ restarted)) then wp_uid w :: uids else uids)
  end.

(** The second loop; [all] are all crashed workers. *)
Fixpoint restart_all (all l : list Z) : CM unit :=
  match l with
  | [] => mret tt
  | worker_uid :: l =>
      restarted ← get ca_restarted_worker;
      if (MAX_WORKER_RESTART_CNT <? length restarted)%nat
      then update (fun c => ca_with_restarted c (ca_restarted_worker c ++ all))
      else
        _ ← update (fun c => ca_with_restarted c (ca_restarted_worker c ++ [worker_uid]));
        _ ← spawn_additional_worker;
        restart_all all l
  end.

Definition restart_crashed_worker : CM unit :=
  workers ← get ca_workers;
  crashed_workers ← crashed workers;
  restart_all crashed_workers crashed_workers.

Fixpoint join_all (fuel : nat) (l : list WorkerProxy) : outcome (option (list WorkerProxy)) :=
  match l with
  | [] => mret (Some [])
  | w :: l =>
      r ← join fuel w;
      match r with
      | None => mret None
      | Some r => l ← join_all fuel l; mret ((fun l => r.2 :: l) <$> l)
      end
  end.

(** The sum of the statistics is printed, with the time since the campaign was initialised.  The
    result says whether all workers ended within the fuel. *)
Definition shutdown (fuel : nat) : CM bool :=
  _ ← update (fun c => ca_with_workers c (request_stop_soon <$> ca_workers c));
  workers ← get ca_workers;
  workers ← lift_outcome (join_all fuel workers);
  match workers with
  | None => mret false
  | Some workers =>
      _ ← update (fun c => ca_with_workers c workers);
      global_stats_sum ← lift_outcome (counter_sum (worker_stats env ∘ wp_uid <$> workers));
      _ ← lift_outcome (unwrap (init_ts global_stats_sum));
      mret true
  end.

Definition dump : CM unit :=
  ok ← look (dump_succeeds env);
  if ok : bool then mret tt else of_result (Err DumpFailed).

(** ** The supervising loop *)

Definition elapsed_since (ts : Z) : CM Z := look (fun t => elapsed (clock env t) ts).
Definition instant_now : CM Z := look (clock env).

(** The local variables of the loop. *)
Record Supervision := mk_supervision {
  su_dynamic_job_spawning : bool;
  su_last_job_spawned : Z;
  su_last_dump_ts : Z;
}.

(** The state when the dump is reached, or [None] for the [continue] that skips it. *)
Definition spawn_dynamically (start_ts : Z) (s : Supervision) : CM (Supervision * bool) :=
  if negb (su_dynamic_job_spawning s) then mret (s, true)
  else
    e ← elapsed_since start_ts;
    if negb (DYNAMIC_JOB_SPAWNING_INITIAL_DELAY <? e) then mret (s, true)
    else
      e ← elapsed_since (su_last_job_spawned s);
      if negb (DYNAMIC_JOB_SPAWNING_DELAY <? e) then mret (s, true)
      else
        last_job_spawned ← instant_now;
        let s := mk_supervision (su_dynamic_job_spawning s) last_job_spawned (su_last_dump_ts s) in
        cpu_free ← look (cpu_is_free env);
        n ← num_workers;
        if (DYNAMIC_JOB_SPAWNING_MAX_JOBS <? n)%nat then mret (s, false)
        else if cpu_free : bool then
          after spawn_additional_worker (fun r =>
            mret (match r with
                  | Ok _ => s
                  | Err _ => mk_supervision false (su_last_job_spawned s) (su_last_dump_ts s)
                  end, true))
        else mret (s, true).

Definition dump_regularly (s : Supervision) : CM Supervision :=
  e ← elapsed_since (su_last_dump_ts s);
  if negb (CAMPAIN_DUMP_INTERVAL <? e) then mret s
  else
    last_dump_ts ← instant_now;
    after dump (fun _ => mret (mk_supervision (su_dynamic_job_spawning s) (su_last_job_spawned s) last_dump_ts)).

(** The body of the loop; [None] is [break].  Errors of a restart are logged. *)
Definition supervise_once (start_ts : Z) (s : Supervision) : CM (option Supervision) :=
  requested ← look (termination_requested env);
  if requested : bool then mret None
  else
    alive ← is_any_worker_alive;
    if negb alive then mret None
    else
      after restart_crashed_worker (fun _ =>
        s' ← spawn_dynamically start_ts s;
        if s'.2 : bool then s ← dump_regularly s'.1; mret (Some s) else mret (Some s'.1)).

Fixpoint supervise (fuel : nat) (start_ts timeout : Z) (s : Supervision) : CM bool :=
  match fuel with
  | O => mret false
  | S fuel =>
      e ← elapsed_since start_ts;
      if negb (e <? timeout) then mret true
      else
        r ← supervise_once start_ts s;
        match r with
        | None => mret true
        | Some s => supervise fuel start_ts timeout s
        end
  end.

(** [unwrap()] turns the errors of the start and of the last dump into panics.  The result says whether
    the loop and the shutdown ended within the fuel. *)
Definition fuzz_campaign (fuel : nat) (dynamic_job_spawning : bool) (job_cnt : nat) (timeout : Z) : CM bool :=
  last_job_spawned ← instant_now;
  r ← after (campaign_start job_cnt) (fun r => mret r);
  _ ← lift_outcome (match r with Ok _ => Ret tt | Err _ => Panic end);
  start_ts ← instant_now;
  last_dump_ts ← instant_now;
  ended ← supervise fuel start_ts timeout (mk_supervision dynamic_job_spawning last_job_spawned last_dump_ts);
  if negb ended then mret false
  else
    stopped ← after (shutdown fuel) (fun r => mret (match r with Ok b => b | Err _ => true end));
    if negb stopped then mret false
    else
      r ← after dump (fun r => mret r);
      _ ← lift_outcome (match r with Ok _ => Ret tt | Err _ => Panic end);
      mret true.
End campaign.

(** ** Steps *)

(** Workers have ids of their own and are not joined yet. *)
Record workers_ok (c : FuzzingCampaign) : Prop := {
  wk_next : 0 <= ca_next_uid c;
  wk_uids : Forall (fun w => 0 <= wp_uid w < ca_next_uid c) (ca_workers c);
  wk_distinct : NoDup (wp_uid <$> ca_workers c);
  wk_running : Forall (fun w => w = mk_worker_proxy (wp_uid w) true 0) (ca_workers c);
}.

(** Only the step count differs. *)
Definition same_campaign (c c' : FuzzingCampaign) : Prop :=
  ca_workers c' = ca_workers c /\ ca_restarted_worker c' = ca_restarted_worker c /\ ca_next_uid c' = ca_next_uid c /\
  (ca_step c <= ca_step c')%nat.

Lemma same_campaign_refl c : same_campaign c c.
Proof. done. Qed.
Lemma same_campaign_trans c1 c2 c3 : same_campaign c1 c2 -> same_campaign c2 c3 -> same_campaign c1 c3.
Proof. intros (? & ? & ? & ?) (? & ? & ? & ?). split_and!; try congruence. lia. Qed.
#[local] Hint Resolve same_campaign_refl : core.

Lemma same_workers_ok c c' : same_campaign c c' -> workers_ok c -> workers_ok c'.
Proof. intros (E1 & E2 & E3 & _) []. split; by rewrite ?E1, ?E3. Qed.

Lemma tick_ok c : workers_ok c -> workers_ok (ca_tick c).
Proof. apply same_workers_ok. split_and!; cbn; try done. lia. Qed.

Section steps.
Context (env : Surroundings).

Lemma wp_look {A} (f : nat -> A) (Q : result CampaignError A -> FuzzingCampaign -> Prop) c :
  Q (Ok (f (ca_step c))) (ca_tick c) -> wp (look f) Q c.
Proof. done. Qed.

(** A new worker, or none. *)
Definition spawned (r : result CampaignError unit) (c c' : FuzzingCampaign) : Prop :=
  ca_next_uid c' = ca_next_uid c + 1 /\ ca_restarted_worker c' = ca_restarted_worker c /\ ca_step c' = ca_step c /\
  ca_workers c' = ca_workers c ++ match r with Ok _ => [mk_worker_proxy (ca_next_uid c) true 0] | Err _ => [] end.

Lemma spawn_wp c :
  0 <= ca_next_uid c -> ca_next_uid c + 1 < 2 ^ 64 ->
  wp (spawn_additional_worker env) (fun r c' => spawned r c c' /\
    (thread_spawns env (ca_next_uid c) = true -> await_init (init_messages env (ca_next_uid c)).1 (init_messages env (ca_next_uid c)).2 = Ok tt -> r = Ok tt)) c.
Proof.
  intros H0 H1. unfold spawn_additional_worker, FuzzingWorker_spawn. apply wp_bind. unfold wp at 1, FuzzingWorker_new. rewrite Z.mod_small by lia.
  wp_step. destruct (thread_spawns _ _) eqn:Et; cbn [negb]; [|wp_steps; split; [split_and!; cbn; try done; by rewrite app_nil_r|done]].
  destruct (await_init _ _) as [[]|e] eqn:Ea; wp_steps; (split; [split_and!; cbn; try done; by rewrite ?app_nil_r|done]).
Qed.

Lemma spawned_ok r c c' : spawned r c c' -> workers_ok c -> workers_ok c'.
Proof.
  intros (En & _ & _ & Ew) [Hn Hu Hd Hr]. split; rewrite ?En, ?Ew; [lia| | |].
  - apply Forall_app. split; [|destruct r; repeat constructor; cbn; lia]. eapply Forall_impl; [exact Hu|]. cbn. lia.
  - rewrite fmap_app. apply NoDup_app. split; [done|]. split; [|destruct r; [apply NoDup_singleton|constructor]].
    intros x Hx Hx2. destruct r; [|by apply not_elem_of_nil in Hx2]. apply list_elem_of_singleton in Hx2 as ->.
    apply list_elem_of_fmap in Hx as (w & Hw & Hel). eapply Forall_forall in Hu; [|exact Hel]. cbn in *. lia.
  - apply Forall_app. split; [done|]. destruct r; repeat constructor.
Qed.

(** ** Looking after crashed workers *)

Lemma any_alive_wp l c :
  wp (any_alive env l) (fun r c' => same_campaign c c' /\ exists b, r = Ok b /\
    (b = true -> exists w t, w ∈ l /\ (ca_step c <= t)%nat /\ worker_alive env t (wp_uid w) = true)) c.
Proof.
  revert c. induction l as [|w l IH]; intros c; cbn [any_alive]; [wp_steps; split; [done|]; by exists false|].
  apply wp_bind, wp_look. cbv beta iota. destruct (worker_alive _ _ _) eqn:Ea.
  - wp_steps. split; [split_and!; cbn; try done; lia|]. exists true. split; [done|]. intros _. exists w, (ca_step c). split; [by left|done].
  - eapply wp_mono; [apply IH|]. intros r c' (Hs & b & -> & Hb).
    split; [eapply same_campaign_trans, Hs; split_and!; cbn; try done; lia|]. exists b. split; [done|].
    intros (w' & t & Hw & Ht & Hal)%Hb. exists w', t. split; [by right|]. cbn in Ht. split; [lia|done].
Qed.

Lemma crashed_wp l c :
  wp (crashed env l) (fun r c' => same_campaign c c' /\ exists ks, r = Ok ks /\ ks `sublist_of` (wp_uid <$> l) /\
    Forall (fun u => u ∉ ca_restarted_worker c /\ exists t, (ca_step c <= t)%nat /\ worker_alive env t u = false) ks /\
    forall w, w ∈ l -> (forall t, (ca_step c <= t)%nat -> worker_alive env t (wp_uid w) = false) ->
      wp_uid w ∈ ca_restarted_worker c \/ wp_uid w ∈ ks) c.
Proof.
  revert c. induction l as [|w l IH]; intros c; cbn [crashed].
  { wp_steps. split; [done|]. exists []. split_and!; try done. intros w Hw. by apply not_elem_of_nil in Hw. }
  apply wp_bind, wp_look. cbv beta iota. wp_steps. eapply wp_mono; [apply IH|]. intros r c' (Hs & ks & -> & Hsub & Hks & Hall). wp_steps.
  cbn in Hks, Hall. split; [eapply same_campaign_trans, Hs; split_and!; cbn; try done; lia|]. eexists. split; [done|].
  assert (Hks' : Forall (fun u => u ∉ ca_restarted_worker c /\ exists t, (ca_step c <= t)%nat /\ worker_alive env t u = false) ks).
  { eapply Forall_impl; [exact Hks|]. cbn. intros u (Hu & t & Ht & Ha). split; [done|]. exists t. split; [lia|done]. }
  cbn [ca_tick ca_restarted_worker]. destruct (worker_alive env (ca_step c) (wp_uid w)) eqn:Ea; cbn [negb andb].
  - split; [by apply sublist_cons|]. split; [done|]. intros w' [->|Hw']%elem_of_cons Hd; [by rewrite Hd in Ea|].
    apply Hall; [done|]. intros t Ht. apply Hd. lia.
  - case_bool_decide as Hin; cbn [negb]; (split; [first [by apply sublist_cons|by apply sublist_skip]|]).
    + split; [done|]. intros w' [->|Hw']%elem_of_cons Hd; [by left|]. apply Hall; [done|]. intros t Ht. apply Hd. lia.
    + split; [constructor; [split; [done|]; by exists (ca_step c)|done]|]. intros w' [->|Hw']%elem_of_cons Hd; [right; by left|].
      destruct (Hall w' Hw') as [?|?]; [intros t Ht; apply Hd; lia|by left|right; by right].
Qed.

(** How many workers may still be restarted. *)
Definition restarts_left (c : FuzzingCampaign) : nat := MAX_WORKER_RESTART_CNT + 1 - length (ca_restarted_worker c).

Record restarted_all (all l : list Z) (r : result CampaignError unit) (c c' : FuzzingCampaign) : Prop := {
  ra_step : ca_step c' = ca_step c;
  ra_ok : workers_ok c';
  ra_workers : ca_workers c `prefix_of` ca_workers c';
  ra_outcome : match r with
    | Ok _ =>
        ca_restarted_worker c' = ca_restarted_worker c ++ take (restarts_left c) l ++ (if (length l <=? restarts_left c)%nat then [] else all) /\
        length (ca_workers c') = (length (ca_workers c) + length l `min` restarts_left c)%nat /\
        ca_next_uid c' = ca_next_uid c + Z.of_nat (length l `min` restarts_left c)
    | Err _ => exists j, (S j <= length l `min` restarts_left c)%nat /\ ca_restarted_worker c' = ca_restarted_worker c ++ take (S j) l /\
        length (ca_workers c') = (length (ca_workers c) + j)%nat /\ ca_next_uid c' = ca_next_uid c + Z.of_nat (S j)
    end;
}.

Lemma restart_all_wp all l c :
  workers_ok c -> ca_next_uid c + Z.of_nat (length l) < 2 ^ 64 -> wp (restart_all env all l) (fun r c' => restarted_all all l r c c') c.
Proof.
  revert c. induction l as [|u l IH]; intros c Hc Hn; cbn [restart_all].
  { wp_steps. split; [done|done|done|]. cbn. rewrite take_nil, app_nil_r, Nat.add_0_r, Z.add_0_r. done. }
  wp_steps. unfold restarts_left in *. destruct (Nat.ltb_spec MAX_WORKER_RESTART_CNT (length (ca_restarted_worker c))) as [Hm|Hm].
  { wp_steps. destruct Hc. split; [done|done|done|]. cbn [ca_with_restarted ca_workers ca_restarted_worker ca_next_uid].
    unfold restarts_left. replace (MAX_WORKER_RESTART_CNT + 1 - length (ca_restarted_worker c))%nat with 0%nat by lia.
    cbn [take length Nat.leb app]. rewrite Nat.min_0_r, Nat.add_0_r, Z.add_0_r. done. }
  wp_steps. cbn [length] in Hn. pose proof (wk_next _ Hc). eapply wp_mono; [apply spawn_wp; cbn; lia|]. intros r c1 [Hsp _].
  set (c0 := ca_with_restarted c (ca_restarted_worker c ++ [u])) in *. assert (H0 : workers_ok c0) by (destruct Hc; by split).
  pose proof (spawned_ok _ _ _ Hsp H0) as H1. destruct Hsp as (En & Er & Es & Ew). cbn in En, Er, Es, Ew.
  assert (Hl : (MAX_WORKER_RESTART_CNT + 1 - length (ca_restarted_worker c) = S (MAX_WORKER_RESTART_CNT + 1 - length (ca_restarted_worker c1)))%nat)
    by (rewrite Er, length_app; cbn [length]; lia).
  destruct r as [[]|e]; cbv beta iota.
  - eapply wp_mono; [apply IH; [done|lia]|]. intros r c2 [Hs2 Hok Hp Hout]. split; [congruence|done|etrans; [|exact Hp]; rewrite Ew; by apply prefix_app_r|].
    unfold restarts_left in *. rewrite Hl. destruct r as [[]|e].
    + destruct Hout as (O1 & O2 & O3). rewrite O1, O2, O3, Er, Ew, En, !length_app. cbn [take length Nat.leb Nat.min app]. rewrite <- app_assoc.
      split; [done|]. split; lia.
    + destruct Hout as (j & O0 & O1 & O2 & O3). exists (S j). rewrite O1, O2, O3, Er, Ew, En, !length_app. cbn [take length Nat.min app].
      rewrite <- app_assoc. split; [lia|]. split; [done|]. split; lia.
  - split; [done|done|rewrite Ew; by apply prefix_app_r|]. unfold restarts_left. rewrite Hl. exists 0%nat.
    rewrite Er, Ew, En, app_nil_r. cbn [take length Nat.min]. rewrite take_0. split; [lia|]. split; [done|]. split; lia.
Qed.

(** ** The number of workers *)

Definition most_restarts : nat := MAX_WORKER_RESTART_CNT + 1.
Definition most_dynamic : nat := DYNAMIC_JOB_SPAWNING_MAX_JOBS + 1.

(** A campaign of [jobs] jobs in which [failed] spawns outside restarts failed. *)
Record bounded (jobs failed : nat) (c : FuzzingCampaign) : Prop := {
  bo_ok : workers_ok c;
  bo_count : (length (ca_workers c) <= jobs `max` most_dynamic + length (ca_restarted_worker c) `min` most_restarts)%nat;
  bo_least : (jobs <= length (ca_workers c))%nat;
  bo_next : ca_next_uid c <= Z.of_nat (length (ca_workers c) + length (ca_restarted_worker c) `min` most_restarts + failed);
}.

Lemma same_bounded jobs failed c c' : same_campaign c c' -> bounded jobs failed c -> bounded jobs failed c'.
Proof. intros Hs [H1 H2 H4 H3]. pose proof Hs as (E1 & E2 & E3 & _). split; [by eapply same_workers_ok|by rewrite E1, E2|by rewrite E1|by rewrite E1, E2, E3]. Qed.

Context (jobs : nat) (Hjobs : Z.of_nat jobs < 2 ^ 62).

Lemma no_wrap failed c : (failed <= 1)%nat -> bounded jobs failed c -> ca_next_uid c + Z.of_nat (length (ca_workers c)) + 2 < 2 ^ 64.
Proof using Hjobs. intros Hf [_ H2 _ H3]. unfold most_restarts, most_dynamic, MAX_WORKER_RESTART_CNT, DYNAMIC_JOB_SPAWNING_MAX_JOBS in *. lia. Qed.

(** What a restart does: [ks] are the workers found dead. *)
Record restart_result (ks : list Z) (r : result CampaignError unit) (c c' : FuzzingCampaign) : Prop := {
  rr_sound : Forall (fun u => u ∈ wp_uid <$> ca_workers c /\ u ∉ ca_restarted_worker c /\
                              exists t, (ca_step c <= t)%nat /\ worker_alive env t u = false) ks;
  rr_complete : forall w, w ∈ ca_workers c -> (forall t, (ca_step c <= t)%nat -> worker_alive env t (wp_uid w) = false) ->
    wp_uid w ∈ ca_restarted_worker c \/ wp_uid w ∈ ks;
  rr_distinct : NoDup ks;
  rr_workers : ca_workers c `prefix_of` ca_workers c';
  rr_outcome : match r with
    | Ok _ => (forall u, u ∈ ks -> u ∈ ca_restarted_worker c') /\
        length (ca_workers c') = (length (ca_workers c) + length ks `min` restarts_left c)%nat
    | Err _ => exists k u, ks !! k = Some u /\ u ∈ ca_restarted_worker c' /\ length (ca_workers c') = (length (ca_workers c) + k)%nat
    end;
}.

Lemma restart_wp failed c :
  (failed <= 1)%nat -> bounded jobs failed c ->
  wp (restart_crashed_worker env) (fun r c' => bounded jobs failed c' /\ (ca_step c <= ca_step c')%nat /\ exists ks, restart_result ks r c c') c.
Proof using Hjobs.
  intros Hf Hc. unfold restart_crashed_worker. wp_steps. eapply wp_mono; [apply crashed_wp|]. intros r c1 (Hs & ks & -> & Hsub & Hks & Hall).
  pose proof (same_bounded _ _ _ _ Hs Hc) as H1. pose proof Hs as (E1 & E2 & E3 & E4). pose proof (no_wrap _ _ Hf Hc) as Hw.
  pose proof (sublist_length _ _ Hsub) as Hlen. rewrite length_fmap in Hlen.
  eapply wp_mono; [apply restart_all_wp; [apply H1|rewrite E3; lia]|]. intros r c2 [Es Hok Hp Hout]. destruct Hc as [_ Hcount Hleast Hnext].
  assert (Hres : restart_result ks r c c2).
  { split; [|done| |congruence|].
    - apply Forall_forall. intros u Hu. split; [by eapply elem_of_sublist|]. by eapply Forall_forall in Hks.
    - eapply sublist_NoDup, Hsub. rewrite <- E1. apply H1.
    - unfold restarts_left in *. rewrite E1, E2 in Hout. destruct r as [[]|e].
      + destruct Hout as (O1 & O2 & _). split; [|done]. intros u Hu. rewrite O1. apply elem_of_app. right. apply elem_of_app.
        destruct (Nat.leb_spec (length ks) (MAX_WORKER_RESTART_CNT + 1 - length (ca_restarted_worker c))); [left; by rewrite take_ge by lia|by right].
      + destruct Hout as (j & O0 & O1 & O2 & _). exists j. destruct (lookup_lt_is_Some_2 ks j) as [u Hu]; [lia|]. exists u. split; [done|].
        split; [|done]. rewrite O1. apply elem_of_app. right. eapply list_elem_of_lookup_2, (lookup_take_Some _ _ j). split; [exact Hu|lia]. }
  split; [|split; [lia|by exists ks]]. unfold restarts_left in Hout. rewrite E1, E2, E3 in Hout.
  unfold most_restarts in *. destruct r as [[]|e].
  - destruct Hout as (O1 & O2 & O3). split; [done| | |]; rewrite ?O1, O2, ?O3, ?length_app, ?length_take; unfold most_restarts; 
      destruct (Nat.leb_spec (length ks) (MAX_WORKER_RESTART_CNT + 1 - length (ca_restarted_worker c))); cbn [length]; lia.
  - destruct Hout as (j & O0 & O1 & O2 & O3). split; [done| | |]; rewrite ?O1, O2, ?O3, ?length_app, ?length_take; unfold most_restarts; lia.
Qed.

(** ** The supervising loop *)

#[local] Abbreviation failures s := (if su_dynamic_job_spawning s then 0%nat else 1%nat).

Lemma failures_le (b : bool) : ((if b then 0 else 1) <= 1)%nat.
Proof. destruct b; lia. Qed.

Lemma look_bounded {A} (f : nat -> A) failed c (Q : result CampaignError A -> FuzzingCampaign -> Prop) :
  bounded jobs failed c ->
  (forall a c', bounded jobs failed c' -> (ca_step c < ca_step c')%nat -> Q (Ok a) c') -> wp (look f) Q c.
Proof. intros Hc HQ. apply wp_look, HQ; [|cbn; lia]. eapply same_bounded, Hc. split_and!; cbn; try done. lia. Qed.

Lemma dynamic_wp ts s c :
  bounded jobs (failures s) c ->
  wp (spawn_dynamically env ts s) (fun r c' => exists s' b, r = Ok (s', b) /\ bounded jobs (failures s') c' /\ (ca_step c <= ca_step c')%nat) c.
Proof using Hjobs.
  intros Hc. unfold spawn_dynamically, elapsed_since, instant_now, num_workers. destruct (su_dynamic_job_spawning s) eqn:Ed; cbn [negb].
  2: { wp_steps. exists s, true. by rewrite Ed. }
  assert (Hdone : forall c' (b : bool) t, bounded jobs 0 c' -> (ca_step c <= ca_step c')%nat ->
    exists s' b', Ok (E:=CampaignError) (mk_supervision true t (su_last_dump_ts s), b) = Ok (s', b') /\ bounded jobs (failures s') c' /\ (ca_step c <= ca_step c')%nat).
  { intros c' b t Hc' Hle. eexists _, b. by split. }
  apply wp_bind. eapply look_bounded; [exact Hc|]. intros e c1 H1 L1. destruct (_ <? e); cbn [negb].
  2: { wp_steps. exists s, true. rewrite Ed. split_and!; done || lia. }
  apply wp_bind. eapply look_bounded; [exact H1|]. intros e2 c2 H2 L2. destruct (_ <? e2); cbn [negb].
  2: { wp_steps. exists s, true. rewrite Ed. split_and!; done || lia. }
  apply wp_bind. eapply look_bounded; [exact H2|]. intros t c3 H3 L3. cbv beta iota.
  apply wp_bind. eapply look_bounded; [exact H3|]. intros free c4 H4 L4. wp_steps.
  destruct (Nat.ltb_spec DYNAMIC_JOB_SPAWNING_MAX_JOBS (length (ca_workers c4))) as [Hm|Hm]; [wp_steps; apply Hdone; [done|lia]|].
  destruct free; [|wp_steps; apply Hdone; [done|lia]]. wp_steps. pose proof (no_wrap 0 c4 ltac:(lia) H4) as Hw. destruct H4 as [Hok Hcnt Hleast Hnext].
  eapply wp_mono; [apply spawn_wp; [apply Hok|lia]|]. intros r c5 [Hsp _]. pose proof (spawned_ok _ _ _ Hsp Hok) as H5.
  destruct Hsp as (En & Er & Es & Ew). wp_steps. destruct r as [[]|e5].
  - apply Hdone; [|lia]. split; [done| | |]; rewrite ?En, ?Er, Ew, length_app; unfold most_dynamic in *; cbn [length]; lia.
  - eexists _, true. split; [reflexivity|]. cbn [su_dynamic_job_spawning]. split; [|lia]. rewrite app_nil_r in Ew. split; [done|by rewrite Er, Ew|by rewrite Ew|].
    rewrite En, Er, Ew. lia.
Qed.

Lemma dump_wp failed s c :
  bounded jobs failed c ->
  wp (dump_regularly env s) (fun r c' => exists s', r = Ok s' /\ su_dynamic_job_spawning s' = su_dynamic_job_spawning s /\
    bounded jobs failed c' /\ (ca_step c <= ca_step c')%nat) c.
Proof.
  intros Hc. unfold dump_regularly, elapsed_since, instant_now, dump. apply wp_bind. eapply look_bounded; [exact Hc|]. intros e c1 H1 L1.
  destruct (_ <? e); cbn [negb]; [|wp_steps; exists s; split_and!; done || lia]. apply wp_bind. eapply look_bounded; [exact H1|]. intros t c2 H2 L2. cbv beta iota.
  apply wp_after, wp_bind. eapply look_bounded; [exact H2|]. intros ok c3 H3 L3. destruct ok; wp_steps; (eexists; split; [reflexivity|]); split_and!; done || lia.
Qed.

(** The body of the loop keeps the bounds. *)
Lemma supervise_once_wp ts s c :
  bounded jobs (failures s) c ->
  wp (supervise_once env ts s) (fun r c' => (ca_step c < ca_step c')%nat /\ exists o, r = Ok o /\
    match o with Some s' => bounded jobs (failures s') c' | None => bounded jobs 1 c' end) c.
Proof using Hjobs.
  intros Hc.
  assert (Hmono : forall c' k, (k <= 1)%nat -> bounded jobs k c' -> bounded jobs 1 c') by (intros c' k Hk []; split; [done|done|done|lia]).
  unfold supervise_once. apply wp_bind. eapply look_bounded; [exact Hc|]. intros req c1 H1 L1. destruct req.
  { wp_steps. split; [done|]. exists None. split; [done|]. eapply Hmono, H1. apply failures_le. }
  unfold is_any_worker_alive. wp_steps. eapply wp_mono; [apply any_alive_wp|]. intros r c2 (Hs & b & -> & _).
  pose proof (same_bounded _ _ _ _ Hs H1) as H2. destruct Hs as (_ & _ & _ & L2). destruct b; cbn [negb].
  2: { wp_steps. split; [lia|]. exists None. split; [done|]. eapply Hmono, H2. apply failures_le. }
  apply wp_after. eapply wp_mono; [apply restart_wp, H2; apply failures_le|]. intros r c3 (H3 & L3 & _). apply wp_bind.
  eapply wp_mono; [apply dynamic_wp, H3|]. intros r4 c4 (s4 & b & -> & H4 & L4). cbv beta iota. cbn [fst snd]. destruct b.
  - apply wp_bind. eapply wp_mono; [apply dump_wp, H4|]. intros r5 c5 (s5 & -> & Ed & H5 & L5). wp_steps. split; [lia|].
    exists (Some s5). split; [done|]. cbv beta iota. by rewrite Ed.
  - wp_steps. split; [lia|]. by exists (Some s4).
Qed.

Lemma supervise_wp fuel ts timeout s c :
  bounded jobs (failures s) c ->
  wp (supervise env fuel ts timeout s) (fun r c' => bounded jobs 1 c' /\ exists b, r = Ok b /\
    forall N, (forall t, (N <= t)%nat -> ts + timeout <= clock env t) -> (0 < fuel)%nat -> (N < fuel + ca_step c)%nat -> b = true) c.
Proof using Hjobs.
  revert s c. induction fuel as [|fuel IH]; intros s c Hc; cbn [supervise].
  { wp_steps. split; [destruct Hc as [? ? ? Hn]; split; [done|done|done|]; pose proof (failures_le (su_dynamic_job_spawning s)); lia|].
    exists false. split; [done|]. intros N HN Hlt Ht. lia. }
  apply wp_bind. unfold elapsed_since. apply wp_look. cbv beta iota.
  assert (H0 : bounded jobs (failures s) (ca_tick c)) by (eapply same_bounded, Hc; split_and!; cbn; try done; lia).
  destruct (Z.ltb_spec (elapsed (clock env (ca_step c)) ts) timeout) as [Hlt|Hge]; cbn [negb].
  2: { wp_steps. split; [|exists true; split; [done|]; by intros]. destruct H0 as [? ? ? Hn]. split; [done|done|done|].
    pose proof (failures_le (su_dynamic_job_spawning s)). lia. }
  apply wp_bind. eapply wp_mono; [apply supervise_once_wp, H0|]. intros r c1 (L1 & o & -> & H1). cbn in L1. destruct o as [s'|].
  - eapply wp_mono; [apply IH, H1|]. intros r c2 (H2 & b & -> & Hb). split; [done|]. exists b. split; [done|]. intros N HN Hf Hlt2.
    assert (HNs : (ca_step c < N)%nat).
    { destruct (Nat.le_gt_cases N (ca_step c)) as [Hle|]; [|done]. specialize (HN _ Hle). unfold elapsed in Hlt. lia. }
    apply (Hb N HN); lia.
  - wp_steps. split; [done|]. exists true. split; [done|]. by intros.
Qed.

(** ** Start and end *)

Lemma start_wp n c :
  workers_ok c -> ca_next_uid c = Z.of_nat (length (ca_workers c)) -> ca_restarted_worker c = [] -> (length (ca_workers c) + n = jobs)%nat ->
  wp (campaign_start env n) (fun r c' => ca_step c' = ca_step c /\
    (r = Ok tt -> workers_ok c' /\ ca_next_uid c' = Z.of_nat (length (ca_workers c')) /\ ca_restarted_worker c' = [] /\ length (ca_workers c') = jobs) /\
    ((forall u, ca_next_uid c <= u < Z.of_nat jobs ->
        thread_spawns env u = true /\ await_init (init_messages env u).1 (init_messages env u).2 = Ok tt) -> r = Ok tt)) c.
Proof using Hjobs.
  revert c. induction n as [|n IH]; intros c Hok Hn Hr Hl; cbn [campaign_start].
  { wp_steps. split; [done|]. split; [|done]. intros _. split_and!; try done. lia. }
  wp_steps. eapply wp_mono; [apply spawn_wp; [lia|lia]|]. intros r c1 [Hsp Hready]. pose proof (spawned_ok _ _ _ Hsp Hok) as H1.
  destruct Hsp as (En & Er & Es & Ew). destruct r as [[]|e].
  - assert (El : length (ca_workers c1) = S (length (ca_workers c))) by (rewrite Ew, length_app; cbn; lia).
    eapply wp_mono; [apply IH; [done|lia|congruence|lia]|]. intros r c2 (Es2 & H2 & Hall). split; [congruence|]. split; [done|].
    intros Hu. apply Hall. intros u Hrange. apply Hu. lia.
  - split; [done|]. split; [done|]. intros Hu. destruct (Hu (ca_next_uid c)) as [Ha Hb]; [lia|]. by apply Hready.
Qed.

Definition joined (w : WorkerProxy) : WorkerProxy := mk_worker_proxy (wp_uid w) false 1.

(** The thread ends within [fuel], once it was told to stop. *)
Definition ends (fuel : nat) (u : Z) : Prop := is_Some (thread_end env u fuel).

Lemma join_all_stopped fuel l :
  Forall (fun w => w = mk_worker_proxy (wp_uid w) true 0) l ->
  exists o, join_all env fuel (request_stop_soon <$> l) = Ret o /\
    (Forall (fun w => ends fuel (wp_uid w)) l -> o = Some (joined <$> l)) /\
    (forall l', o = Some l' -> l' = joined <$> l /\ Forall (fun w => ends fuel (wp_uid w)) l).
Proof.
  induction 1 as [|w l -> _ (o & IH & H1 & H2)]; [by exists (Some []); split_and!; [| |intros ? [= <-]]|].
  cbn [fmap list_fmap join_all]. unfold join. cbn [wp_thread_handle request_stop_soon assert_that mbind outcome_bind wp_uid wp_stops mret outcome_ret].
  unfold ends at 1 2. cbn [wp_uid]. destruct (thread_end env (wp_uid w) fuel) as [e|] eqn:Ee.
  - exists ((fun l => joined w :: l) <$> o). split; [destruct e; cbn [mbind outcome_bind]; by rewrite IH|]. split.
    + intros [_ Hl]%Forall_cons. by rewrite (H1 Hl).
    + intros l' El. destruct o as [l2|]; [|done]. injection El as <-. destruct (H2 l2 eq_refl) as [-> Hl]. split; [done|].
      constructor; [unfold ends; cbn [wp_uid]; by rewrite Ee|done].
  - exists None. split; [done|]. split; [|done]. intros He%Forall_inv. unfold ends in He. cbn in He. rewrite Ee in He. by destruct He.
Qed.

Lemma shutdown_wlp fuel c :
  workers_ok c -> wlp (shutdown env fuel) (fun r c' => exists b, r = Ok b /\ wp_uid <$> ca_workers c' = wp_uid <$> ca_workers c /\ ca_step c' = ca_step c /\
    (b = true -> ca_workers c' = joined <$> ca_workers c /\ Forall (fun w => ends fuel (wp_uid w)) (ca_workers c))) c.
Proof.
  intros Hc. unfold shutdown. wlp_steps. cbn [ca_with_workers ca_workers].
  destruct (join_all_stopped fuel _ (wk_running _ Hc)) as (o & E & _ & Ho). rewrite E. apply wlp_lift. intros ? [= <-].
  destruct o as [l|]; [|wlp_steps; exists false; split_and!; try done; cbn; by rewrite <- list_fmap_compose].
  destruct (Ho l eq_refl) as [-> He]. wlp_steps. apply wlp_lift. intros st _. wlp_steps. apply wlp_lift. intros ts _. wlp_steps.
  exists true. split_and!; try done. cbn. by rewrite <- list_fmap_compose.
Qed.

(** The sums of statistics like these fit. *)
Definition counts_fit (u : Z) : Prop :=
  Forall (fun z => 0 <= z /\ z * Z.of_nat (jobs `max` most_dynamic + most_restarts) < 2 ^ 64) (counts (worker_stats env u)).
Definition stats_fit (u : Z) : Prop := is_Some (init_ts (worker_stats env u)) /\ counts_fit u.

Lemma counts_sum_le l B :
  Forall (fun st => Forall (fun z => z <= B) (counts st)) l -> Forall (fun z => z <= B * Z.of_nat (length l)) (counts_sum l).
Proof.
  induction 1 as [|st l Hst _ IH]; [apply Forall_replicate; cbn; lia|]. cbn [counts_sum foldr length]. fold (counts_sum l).
  apply Forall_lookup_2. intros k z Hz. apply lookup_zip_with_Some in Hz as (a & b & -> & Ha & Hb).
  pose proof (Forall_lookup_1 _ _ _ _ Hst Ha). pose proof (Forall_lookup_1 _ _ _ _ IH Hb). cbn in *. lia.
Qed.

Lemma newest_Some l t : is_Some t \/ (l <> [] /\ Forall (fun st => is_Some (init_ts st)) l) -> is_Some (newest l t).
Proof.
  revert t. induction l as [|st l IH]; intros t Hl; [by destruct Hl as [?|[? _]]|]. unfold newest in *. cbn [foldl]. apply IH. left.
  destruct Hl as [[t' ->]|[_ Hl]]; [by destruct (init_ts st)|]. apply Forall_cons in Hl as [[i ->] _]. by destruct t.
Qed.

Lemma stats_sum l :
  l <> [] -> (length l <= jobs `max` most_dynamic + most_restarts)%nat -> Forall stats_fit l ->
  exists st ts, counter_sum (worker_stats env <$> l) = Ret st /\ init_ts st = Some ts.
Proof.
  intros Hne Hlen Hl. set (n := Z.of_nat (jobs `max` most_dynamic + most_restarts)). assert (Hn : 0 < n) by (unfold n, most_dynamic; lia).
  assert (Hst : Forall (fun st => Forall (fun z => 0 <= z /\ z <= (2 ^ 64 - 1) / n) (counts st)) (worker_stats env <$> l)).
  { apply Forall_fmap. eapply Forall_impl; [exact Hl|]. cbn. intros u [_ Hu]. eapply Forall_impl; [exact Hu|]. cbn. intros z [Hz Hzn].
    split; [done|]. apply Z.div_le_lower_bound; [lia|]. change (z * n < 2 ^ 64) in Hzn. rewrite Z.mul_comm. lia. }
  destruct (sum_loop_spec (worker_stats env <$> l) counter_new) as (st & E & _ & Hi & _).
  - eapply Forall_impl; [exact Hst|]. intros st Hs. eapply Forall_impl; [exact Hs|]. by intros z [].
  - repeat constructor; cbn; lia.
  - rewrite zip_with_zeros. eapply Forall_impl.
    + apply (counts_sum_le _ ((2 ^ 64 - 1) / n)). eapply Forall_impl; [exact Hst|]. intros st Hs. eapply Forall_impl; [exact Hs|]. by intros z [].
    + cbn. intros z Hz. rewrite length_fmap in Hz. pose proof (Z.mul_div_le (2 ^ 64 - 1) n Hn).
      assert ((2 ^ 64 - 1) / n * Z.of_nat (length l) <= (2 ^ 64 - 1) / n * n).
      { apply Z.mul_le_mono_nonneg_l; [apply Z.div_pos; lia|]. unfold n. lia. }
      lia.
  - destruct (newest_Some (worker_stats env <$> l) None) as [ts Hts].
    + right. split; [by destruct l|]. apply Forall_fmap. eapply Forall_impl; [exact Hl|]. by intros u [].
    + exists st, ts. split; [exact E|]. by rewrite Hi.
Qed.

Lemma shutdown_returns fuel c :
  workers_ok c -> ca_workers c <> [] -> (length (ca_workers c) <= jobs `max` most_dynamic + most_restarts)%nat ->
  Forall (fun w => stats_fit (wp_uid w)) (ca_workers c) -> Forall (fun w => ends fuel (wp_uid w)) (ca_workers c) ->
  exists c', shutdown env fuel c = Ret (Ok true, c').
Proof.
  intros Hc Hne Hlen Hst Hends. destruct (stats_sum (wp_uid <$> ca_workers c)) as (st & ts & Es & Ets).
  - by destruct (ca_workers c).
  - by rewrite length_fmap.
  - by apply Forall_fmap.
  - unfold shutdown, update, get, lift_outcome, mbind, eff_bind. cbn [ca_with_workers ca_workers].
    destruct (join_all_stopped fuel _ (wk_running _ Hc)) as (o & Eo & Ho & _). rewrite Eo, (Ho Hends), list_fmap_compose, <- (list_fmap_compose _ wp_uid).
    change (wp_uid ∘ joined) with wp_uid. rewrite Es, Ets. eexists. reflexivity.
Qed.

(** ** The life of a campaign *)

Lemma campaign_new_ok : workers_ok Campaign_new.
Proof. split; cbn; [lia|constructor..]. Qed.

(** A campaign up to the end of the supervising loop. *)
Lemma campaign_wlp fuel dynamic timeout :
  wlp (fuzz_campaign env fuel dynamic jobs timeout)
    (fun r c => exists c1, bounded jobs 1 c1 /\ wp_uid <$> ca_workers c = wp_uid <$> ca_workers c1 /\
      (r = Ok true -> ca_workers c = joined <$> ca_workers c1 /\ Forall (fun w => ends fuel (wp_uid w)) (ca_workers c1))) Campaign_new.
Proof using Hjobs.
  unfold fuzz_campaign, instant_now. wlp_step. intros r0 c0 [= <- <-]. wlp_steps. cbv beta iota.
  set (c0 := ca_tick Campaign_new). assert (H0 : workers_ok c0) by exact (tick_ok _ campaign_new_ok).
  intros r c1 E1. pose proof (start_wp jobs c0 H0 eq_refl eq_refl eq_refl) as Hst. unfold wp in Hst. rewrite E1 in Hst.
  destruct Hst as (_ & Hst & _). wlp_steps. apply wlp_lift. intros [] Er. destruct r as [[]|e]; [|done]. destruct (Hst eq_refl) as (Hok & Hn & Hr & Hl).
  wlp_step. intros r2 c2 [= <- <-]. wlp_step. intros r3 c3 [= <- <-]. cbv beta iota. wlp_step.
  assert (Hb : bounded jobs (if dynamic then 0 else 1) (ca_tick (ca_tick c1))).
  { split; [apply tick_ok, tick_ok, Hok|cbn; rewrite Hr; cbn; lia|cbn; lia|cbn; rewrite Hr, Hn; cbn; lia]. }
  intros r4 c4 E4. pose proof (supervise_wp fuel (clock env (ca_step c1)) timeout
    (mk_supervision dynamic (clock env 0) (clock env (S (ca_step c1)))) _ Hb) as Hs. unfold wp in Hs. rewrite E4 in Hs.
  destruct Hs as (H4 & b & -> & _). destruct b; cbn [negb]; [|wlp_steps; by exists c4]. wlp_steps.
  eapply wlp_mono; [apply shutdown_wlp, H4|]. intros r5 c5 (b & -> & Eu & _ & Ew). wlp_steps. destruct b; cbn [negb]; [|wlp_steps; exists c4; by split_and!].
  wlp_steps. unfold dump. wlp_steps. intros r6 c6 [= <- <-].
  destruct (dump_succeeds _ _); wlp_steps; apply wlp_lift; intros [] Ed; [|done]. wlp_steps. exists c4. split; [done|]. split; [exact Eu|]. intros _. by apply Ew.
Qed.

(** C21: however a campaign goes, the number of its workers is bounded and workers are told apart.
    Whatever workers crash, spawns fail, and however often the supervising loop runs, a campaign of
    [jobs] jobs never has more than the larger of [jobs] and 101 workers, plus 101 restarted ones, and
    no two of them have the same id; when [handle_cli_fuzz_subcommand] returns, each of them
    was told to stop once and was joined. *)
Theorem campaign_workers_bounded fuel dynamic timeout r c :
  fuzz_campaign env fuel dynamic jobs timeout Campaign_new = Ret (r, c) ->
  (length (ca_workers c) <= jobs `max` (DYNAMIC_JOB_SPAWNING_MAX_JOBS + 1) + (MAX_WORKER_RESTART_CNT + 1))%nat /\
  NoDup (wp_uid <$> ca_workers c) /\
  (r = Ok true -> Forall (fun w => wp_stops w = 1%nat /\ wp_thread_handle w = false) (ca_workers c)).
Proof using Hjobs.
  intros E. destruct (campaign_wlp fuel dynamic timeout _ _ E) as (c1 & [Hok Hcnt _ _] & Hu & Ew). clear E.
  assert (Hl : length (ca_workers c) = length (ca_workers c1)) by (by rewrite <- (length_fmap wp_uid), Hu, length_fmap).
  split; [rewrite Hl; unfold most_dynamic, most_restarts in Hcnt; lia|]. split; [rewrite Hu; apply Hok|].
  intros ->. destruct (Ew eq_refl) as [-> _]. apply Forall_fmap, Forall_true. by intros w.
Qed.

(** When the campaign is over, the thread of every worker has ended: a single worker that never
    ends keeps [handle_cli_fuzz_subcommand] from returning. *)
Lemma campaign_waits_for_workers fuel dynamic timeout c :
  fuzz_campaign env fuel dynamic jobs timeout Campaign_new = Ret (Ok true, c) ->
  Forall (fun w => is_Some (thread_end env (wp_uid w) fuel)) (ca_workers c).
Proof using Hjobs.
  intros E. destruct (campaign_wlp fuel dynamic timeout _ _ E) as (c1 & _ & _ & Ew). destruct (Ew eq_refl) as [-> He].
  by apply Forall_fmap.
Qed.

(** C25: a campaign whose time is over ends, if its workers end.  Provided that the first workers get
    ready, the clock moves past the timeout, the thread of every worker ends within the fuel
    once it was told to stop ([join] has no timeout), every worker has recorded when it
    was initialised, the sums of the statistics fit and dumps succeed:
    [handle_cli_fuzz_subcommand] returns without a panic after a number of rounds of its loop that
    depends only on the clock, however often workers crash, restarts and further spawns
    fail, and whatever the load of the machine is; and every worker was joined. *)
Theorem campaign_ends fuel dynamic timeout N :
  (0 < jobs)%nat ->
  (forall u, 0 <= u < Z.of_nat jobs -> thread_spawns env u = true /\ await_init (init_messages env u).1 (init_messages env u).2 = Ok tt) ->
  (forall t, (N <= t)%nat -> clock env 1%nat + timeout <= clock env t) -> (N < fuel)%nat ->
  (forall u, is_Some (thread_end env u fuel)) ->
  (forall u, is_Some (init_ts (worker_stats env u))) -> (forall u, counts_fit u) -> (forall t, dump_succeeds env t = true) ->
  exists c, fuzz_campaign env fuel dynamic jobs timeout Campaign_new = Ret (Ok true, c) /\
    Forall (fun w => wp_thread_handle w = false) (ca_workers c).
Proof using Hjobs.
  intros Hj Hready Hclock Hfuel Hends Hinit Hcounts Hdump.
  enough (Hw : wp (fuzz_campaign env fuel dynamic jobs timeout) (fun r _ => r = Ok true) Campaign_new).
  { apply wp_result in Hw as (r & c & E & ->). exists c. split; [done|]. destruct (campaign_wlp _ _ _ _ _ E) as (c1 & _ & _ & Ew).
    destruct (Ew eq_refl) as [-> _]. apply Forall_fmap, Forall_true. by intros w. }
  unfold fuzz_campaign, instant_now. apply wp_bind, wp_look. cbv beta iota. apply wp_bind, wp_after.
  set (c0 := ca_tick Campaign_new). assert (H0 : workers_ok c0) by exact (tick_ok _ campaign_new_ok).
  eapply wp_mono; [apply (start_wp jobs c0 H0 eq_refl eq_refl eq_refl)|]. intros r c1 (Es & Hst & Hall). cbn in Es.
  rewrite (Hall Hready) in *. destruct (Hst eq_refl) as (Hok & Hn & Hr & Hl). wp_steps. eapply wp_lift; [reflexivity|]. cbv beta iota.
  apply wp_bind, wp_look. cbv beta iota. apply wp_bind, wp_look. cbv beta iota. rewrite Es.
  assert (Hb : bounded jobs (if dynamic then 0 else 1) (ca_tick (ca_tick c1))).
  { split; [apply tick_ok, tick_ok, Hok|cbn; rewrite Hr; cbn; lia|cbn; lia|cbn; rewrite Hr, Hn; cbn; lia]. }
  apply wp_bind. eapply wp_mono; [exact (supervise_wp fuel (clock env 1%nat) timeout (mk_supervision dynamic _ _) _ Hb)|].
  intros r4 c4 (H4 & b & -> & Hend). rewrite (Hend N Hclock) by lia. cbn [negb]. apply wp_bind, wp_after.
  destruct H4 as [Hok4 Hcnt Hleast _]. destruct (shutdown_returns fuel c4) as (c5 & E5).
  - exact Hok4.
  - intros Hnil. rewrite Hnil in Hleast. cbn in Hleast. lia.
  - lia.
  - apply Forall_true. intros w. by split.
  - apply Forall_true. intros w. apply Hends.
  - unfold wp at 1. rewrite E5. wp_steps. cbn [negb]. wp_steps. unfold dump. wp_steps. apply wp_look. rewrite Hdump. wp_steps. by eapply wp_lift.
Qed.

(** Crashed workers are replaced once.  A round of [restart_crashed_worker] replaces the workers
    it found dead, as long as fewer than 101 were replaced before: each of them that was
    not replaced or written off earlier gets one new worker, while the workers that exist
    stay; all of them are then marked, so that no worker is ever replaced twice, and every worker
    that is dead when the round starts is covered.  When a spawn fails, the round ends, and the
    crashed worker it was for is marked too. *)
Theorem crashed_workers_replaced failed c :
  (failed <= 1)%nat -> bounded jobs failed c ->
  exists r c' ks, restart_crashed_worker env c = Ret (r, c') /\ restart_result ks r c c' /\ bounded jobs failed c'.
Proof using Hjobs.
  intros Hf Hc. pose proof (restart_wp failed c Hf Hc) as Hw. apply wp_result in Hw as (r & c' & E & Hb & _ & ks & Hr). by exists r, c', ks.
Qed.

(** When all workers are dead at once, none is replaced: the campaign is over. *)
Lemma dead_campaign_ends ts s c :
  (forall t, termination_requested env t = false) ->
  (forall w t, w ∈ ca_workers c -> (ca_step c <= t)%nat -> worker_alive env t (wp_uid w) = false) ->
  exists c', supervise_once env ts s c = Ret (Ok None, c') /\ same_campaign c c'.
Proof.
  intros Hreq Hdead. enough (Hw : wp (supervise_once env ts s) (fun r c' => r = Ok None /\ same_campaign c c') c).
  { apply wp_result in Hw as (r & c' & E & -> & Hs). by exists c'. }
  unfold supervise_once, is_any_worker_alive. apply wp_bind, wp_look. rewrite Hreq. wp_steps. eapply wp_mono; [apply any_alive_wp|].
  intros r c' (Hs & b & -> & Hb). destruct b.
  - exfalso. destruct (Hb eq_refl) as (w & t & Hw & Ht & Ha). cbn in Ht. rewrite (Hdead w t Hw ltac:(lia)) in Ha. done.
  - cbn [negb]. wp_steps. split; [done|]. eapply same_campaign_trans, Hs. split_and!; cbn; try done. lia.
Qed.
End steps.

(** ** Witnesses *)

(** Worker 1 is dead from step 10 on; the time is over at step 40. *)
Definition demo_surroundings : Surroundings :=
  mk_surroundings (fun t => seconds (Z.of_nat t)) (fun t u => negb ((u =? 1) && (10 <=? t)%nat)) (fun _ => true)
    (fun _ => ([false; true], RecvTimeout)) (fun u n => if (n <? 3)%nat then None else Some (if u =? 1 then ThreadPanicked else ThreadDone))
    (fun _ => with_init_ts counter_new (Some 0)) (fun _ => false) (fun _ => true) (fun _ => true).

Lemma campaign_workers_bounded_witness :
  exists c, fuzz_campaign demo_surroundings 20 true 2 (seconds 30) Campaign_new = Ret (Ok true, c) /\
    wp_uid <$> ca_workers c = [0; 1; 2] /\ (length (ca_workers c) <= 202)%nat.
Proof.
  destruct (fuzz_campaign demo_surroundings 20 true 2 (seconds 30) Campaign_new) as [[r c]|] eqn:E; [|exfalso; revert E; by vm_compute].
  destruct (campaign_workers_bounded demo_surroundings 2 ltac:(by vm_compute) 20 true (seconds 30) r c E) as (Hl & _ & _).
  assert (Hr : r = Ok true /\ wp_uid <$> ca_workers c = [0; 1; 2]) by (revert E; vm_compute; by intros [= <- <-]).
  destruct Hr as [-> Hu]. exists c. split; [reflexivity|]. split; [exact Hu|exact Hl].
Defined.

Lemma campaign_ends_witness :
  exists c, fuzz_campaign demo_surroundings 100 true 2 (seconds 30) Campaign_new = Ret (Ok true, c) /\
    Forall (fun w => wp_thread_handle w = false) (ca_workers c).
Proof.
  apply (campaign_ends demo_surroundings 2 ltac:(by vm_compute) 100 true (seconds 30) 40).
  - lia.
  - intros u _. by split.
  - intros t Ht. cbn. unfold seconds. lia.
  - lia.
  - intros u. by eexists.
  - intros u. by eexists.
  - intros u. repeat constructor; vm_compute; congruence.
  - done.
Defined.

Definition demo_campaign : FuzzingCampaign := mk_campaign [mk_worker_proxy 0 true 0; mk_worker_proxy 1 true 0] [] 2 10.
