(* ===== verification/CoverageTrace.v ===== *)
(** * Parsing the traces of the coverage tool

    Models [fuzztruction_shared/src/eval/coverage_trace.rs] and [TraceParser] of
    [scheduler/src/coverage/classic.rs], on traces in ASCII.  The expressions of the parser are
    sequences of character classes in which a class never contains what may follow it, so
    that a match at a position is found by taking as much as possible of each class; a search
    returns the match at the leftmost position. *)

From Stdlib Require Import Ascii.
From stdpp Require Import pretty.
From S2P Require Import Prelude Effects Phases Config ConfigTheorems.

(** ** Data *)

Record CovBasicBlock := mk_cov_bb { cb_module_id : Z; cb_address : Z; cb_size : Z }.

Record CovModule := mk_cov_module {
  cm_id : Z;
  cm_containing_id : Z;
  cm_start : Z;
  cm_end : Z;
  cm_entry : Z;
  cm_offset : Z;
  cm_preferred_base : Z;
  cm_path : string;
}.

Record CovTrace := mk_cov_trace {
  cv_path : string;
  cv_timestamp_ms : Z;
  cv_basic_blocks : list CovBasicBlock;
  cv_modules : list CovModule;
  cv_id_to_name : gmap Z string;
}.

Definition CovTrace_len (t : CovTrace) : nat := length (cv_basic_blocks t).
Definition CovTrace_is_empty (t : CovTrace) : bool := bool_decide (cv_basic_blocks t = []).

(** ** Matching *)

Definition is_hex (c : Ascii.ascii) : bool :=
  let n := Ascii.N_of_ascii c in is_digit c || ((65 <=? n) && (n <=? 70))%N || ((97 <=? n) && (n <=? 102))%N.
Definition is_space (c : Ascii.ascii) : bool :=
  let n := Ascii.N_of_ascii c in ((9 <=? n) && (n <=? 13))%N || (n =? 32)%N.

(** The longest start of characters of a class. *)
Fixpoint span (f : Ascii.ascii -> bool) (s : string) : string * string :=
  match s with
  | String c s' => if f c then let (d, r) := span f s' in (String c d, r) else (EmptyString, s)
  | EmptyString => (EmptyString, EmptyString)
  end.

(** What is left of a text after a word, after a class repeated at least once ([some]) or any
    number of times. *)
Fixpoint lit (p s : string) : option string :=
  match p, s with
  | EmptyString, s => Some s
  | String a p, String b s => if Ascii.eqb a b then lit p s else None
  | String _ _, EmptyString => None
  end.
Definition some (f : Ascii.ascii -> bool) (s : string) : option (string * string) :=
  match span f s with (EmptyString, _) => None | r => Some r end.
Definition spaces (s : string) : option string := snd <$> some is_space s.
Definition maybe_spaces (s : string) : string := (span is_space s).2.

(** [0[xX][0-9a-fA-F]+]: the text with its prefix. *)
Definition hex_number (s : string) : option (string * string) :=
  match s with
  | String "0"%char (String ("x"%char as x) s) | String "0"%char (String ("X"%char as x) s) =>
      '(h, s) ← some is_hex s; Some (String "0" (String x h), s)
  | _ => None
  end.

(** The leftmost match. *)
Fixpoint search {A} (m : string -> option A) (s : string) : option A :=
  match m s with
  | Some a => Some a
  | None => match s with EmptyString => None | String _ s => search m s end
  end.

Definition TRACE_VERSION_REGEX : string -> option string :=
  search (fun s => s ← lit "DRCOV VERSION: " s; '(version, _) ← some is_digit s; Some version).

Definition MODULE_HEADER_REGEX : string -> option (string * string) :=
  search (fun s => s ← lit "Module Table: version " s; '(version, s) ← some is_digit s; s ← lit ", count " s;
                   '(mod_num, _) ← some is_digit s; Some (version, mod_num)).

(** A separator: a comma and spaces. *)
Definition comma (s : string) : option string := s ← lit "," s; spaces s.

(** [,\s+(?P<path>.+)]: the spaces leave one character for the path. *)
Definition path_field (s : string) : option string :=
  s ← lit "," s;
  let (sp, rest) := span is_space s in
  match sp, rest with
  | EmptyString, _ => None
  | String _ sp', EmptyString => match sp' with EmptyString => None | _ => String.get (String.length sp - 1) sp ≫= fun c => Some (String c EmptyString) end
  | _, p => Some p
  end.

Definition MODULE_ENTRY_REGEX : string -> option (list string) :=
  search (fun s =>
    '(id, s) ← some is_digit s; s ← comma s;
    '(containing_id, s) ← some is_digit s; s ← comma s;
    '(start, s) ← hex_number s; s ← comma s;
    '(end_, s) ← hex_number s; s ← comma s;
    '(entry, s) ← hex_number s; s ← comma s;
    '(offset, s) ← some is_hex s; s ← comma s;
    '(preferred_base, s) ← hex_number s;
    file ← path_field s;
    Some [id; containing_id; start; end_; entry; offset; preferred_base; file]).

Definition BB_HEADER_REGEX : string -> option string :=
  search (fun s => s ← lit "BB Table: " s; '(bbcount, s) ← some is_digit s; _ ← lit " bbs" s; Some bbcount).

Definition BB_ENTRY_REGEX : string -> option (string * string * string) :=
  search (fun s =>
    s ← lit "module[" s; let s := maybe_spaces s in
    '(id, s) ← some is_digit s; s ← lit "]: 0x" s;
    '(address, s) ← some is_hex s; s ← comma s;
    '(size, _) ← some is_digit s; Some (id, address, size)).

Definition TS_FILENAME_REGEX : string -> option string :=
  search (fun s => s ← lit "ts:" s; '(timestamp, _) ← some is_digit s; Some timestamp).

(** ** Numbers *)

Definition hex_digit_value (c : Ascii.ascii) : option Z :=
  let n := Z.of_N (Ascii.N_of_ascii c) in
  if is_digit c then Some (n - 48)
  else if (65 <=? n) && (n <=? 70) then Some (n - 55)
  else if (97 <=? n) && (n <=? 102) then Some (n - 87) else None.

Fixpoint hex_value (acc : Z) (s : string) : option Z :=
  match s with
  | EmptyString => Some acc
  | String c s => d ← hex_digit_value c; hex_value (acc * 16 + d) s
  end.

(** [u64::from_str_radix(.., 16)] on a text that does not start with a sign. *)
Definition from_str_radix_16 (s : string) : option Z :=
  match s with
  | EmptyString => None
  | _ => v ← hex_value 0 s; if v <? 2 ^ 64 then Some v else None
  end.

(** [trim_start_matches("0x")] *)
Fixpoint trim_0x (s : string) : string :=
  match s with
  | String "0"%char (String "x"%char s) => trim_0x s
  | _ => s
  end.

(** Decimal first, hexadecimal only when that fails. *)
Definition parse_int_from_capture (capture : string) : outcome Z :=
  match parse_uint 64 capture with
  | Some v => Ret v
  | None => unwrap (from_str_radix_16 (trim_0x capture))
  end.

(** ** The parser *)

Definition check_trace_version (line : string) : outcome (result unit unit) :=
  version ← unwrap (TRACE_VERSION_REGEX line ≫= parse_uint 64);
  mret (if version =? 3 then Ok tt else Err tt).

Definition parse_module_header (line : string) : outcome (result unit Z) :=
  '(version, mod_num) ← unwrap (MODULE_HEADER_REGEX line);
  version ← unwrap (parse_uint 64 version);
  num_modules ← unwrap (parse_uint 64 mod_num);
  mret (if version =? 5 then Ok num_modules else Err tt).

Definition parse_module (line : string) : outcome CovModule :=
  captures ← unwrap (MODULE_ENTRY_REGEX line);
  match captures with
  | [id; containing_id; start; end_; entry; offset; preferred_base; file] =>
      id ← parse_int_from_capture id;
      containing_id ← parse_int_from_capture containing_id;
      start ← parse_int_from_capture start;
      end_ ← parse_int_from_capture end_;
      entry ← parse_int_from_capture entry;
      offset ← parse_int_from_capture offset;
      preferred_base ← parse_int_from_capture preferred_base;
      mret (mk_cov_module id containing_id start end_ entry offset preferred_base file)
  | _ => Panic
  end.

Definition parse_bb_header (line : string) : outcome Z :=
  bbcount ← unwrap (BB_HEADER_REGEX line); parse_int_from_capture bbcount.

Definition parse_bb_entry (line : string) : outcome CovBasicBlock :=
  '(id, address, size) ← unwrap (BB_ENTRY_REGEX line);
  module_id ← parse_int_from_capture id;
  address ← parse_int_from_capture address;
  size ← parse_int_from_capture size;
  mret (mk_cov_bb module_id address size).

(** The argument is the name of the file. *)
Definition parse_timestamp (name : string) : outcome Z := unwrap (TS_FILENAME_REGEX name ≫= parse_uint 64).

Definition next_line (lines : list string) : outcome (string * list string) :=
  match lines with [] => Panic | l :: lines => Ret (l, lines) end.

(** [n] lines; running out of lines is a panic. *)
Fixpoint parse_lines {A} (parse : string -> outcome A) (n : Z) (lines : list string) : outcome (list A * list string) :=
  if n <=? 0 then mret ([], lines)
  else
    match lines with
    | [] => Panic
    | line :: lines => a ← parse line; '(l, rest) ← parse_lines parse (n - 1) lines; mret (a :: l, rest)
    end.

(** [content] are the lines of the trace, or an error when it cannot be read. *)
Definition parse_trace (input_name : string) (content : result unit (list string)) : outcome (result unit CovTrace) :=
  match content with
  | Err e => mret (Err e)
  | Ok lines =>
      '(l, lines) ← next_line lines;
      version ← check_trace_version l;
      match version with
      | Err e => mret (Err e)
      | Ok _ =>
          '(_, lines) ← next_line lines;
          '(l, lines) ← next_line lines;
          num_modules ← parse_module_header l;
          match num_modules with
          | Err e => mret (Err e)
          | Ok num_modules =>
              '(_, lines) ← next_line lines;
              '(modules, lines) ← parse_lines parse_module num_modules lines;
              let id_to_name := foldl (fun m x => <[cm_id x := cm_path x]> m) ∅ modules in
              '(l, lines) ← next_line lines;
              num_bbs ← parse_bb_header l;
              '(_, lines) ← next_line lines;
              '(basic_blocks, _) ← parse_lines parse_bb_entry num_bbs lines;
              timestamp_ms ← parse_timestamp input_name;
              mret (Ok (mk_cov_trace input_name timestamp_ms basic_blocks modules id_to_name))
          end
      end
  end.

(** ** Matching what was written *)

#[local] Arguments is_digit : simpl never.
#[local] Arguments is_hex : simpl never.
#[local] Arguments is_space : simpl never.
#[local] Arguments String.append : simpl never.

Fixpoint all_chars (f : ascii -> bool) (s : string) : bool :=
  match s with EmptyString => true | String c s => f c && all_chars f s end.
(** The class ends here. *)
Definition stops (f : ascii -> bool) (s : string) : bool := match s with EmptyString => true | String c _ => negb (f c) end.

Lemma span_app f d s : all_chars f d = true -> stops f s = true -> span f (d +:+ s) = (d, s).
Proof.
  intros Hd Hs. induction d as [|c d IH].
  - rewrite append_nil. destruct s as [|c s]; [done|]. cbn in Hs |- *. apply negb_true_iff in Hs. by rewrite Hs.
  - cbn in Hd. apply andb_true_iff in Hd as [Hc Hd]. rewrite append_cons. cbn. by rewrite Hc, (IH Hd).
Qed.
Lemma some_app f d s : all_chars f d = true -> d <> EmptyString -> stops f s = true -> some f (d +:+ s) = Some (d, s).
Proof. intros Hd Hne Hs. unfold some. rewrite span_app by done. by destruct d. Qed.
Lemma lit_app p s : lit p (p +:+ s) = Some s.
Proof. induction p as [|c p IH]; [done|]. rewrite append_cons. cbn. by rewrite Ascii.eqb_refl. Qed.
Lemma search_here {A} (m : string -> option A) s a : m s = Some a -> search m s = Some a.
Proof. intros E. destruct s; cbn; by rewrite E. Qed.

(** Blanks. *)
Fixpoint blanks (k : nat) : string := match k with O => EmptyString | S k => String " " (blanks k) end.
Lemma blanks_space k : all_chars is_space (blanks k) = true.
Proof. by induction k. Qed.
Lemma spaces_app k s : stops is_space s = true -> spaces (blanks (S k) +:+ s) = Some s.
Proof. intros Hs. unfold spaces. rewrite some_app; [done|apply blanks_space|done|done]. Qed.
Lemma comma_app k s : stops is_space s = true -> comma ("," +:+ blanks (S k) +:+ s) = Some s.
Proof. intros Hs. unfold comma. rewrite lit_app. cbn [mbind option_bind]. by apply spaces_app. Qed.

(** Characters of one class that are not in another one. *)
Lemma class_disjoint (f g : ascii -> bool) c : forallb (fun n => implb (f (ascii_of_nat n)) (negb (g (ascii_of_nat n)))) (seq 0 256) = true -> f c = true -> g c = false.
Proof.
  intros Hall Hf. rewrite forallb_forall in Hall. specialize (Hall (nat_of_ascii c)). rewrite ascii_nat_embedding, Hf in Hall. cbn [implb] in Hall.
  apply negb_true_iff, Hall, in_seq. pose proof (nat_ascii_bounded c). lia.
Qed.
Lemma stops_first (f g : ascii -> bool) d s :
  forallb (fun n => implb (f (ascii_of_nat n)) (negb (g (ascii_of_nat n)))) (seq 0 256) = true ->
  all_chars f d = true -> d <> EmptyString -> stops g (d +:+ s) = true.
Proof.
  intros Hall Hd Hne. destruct d as [|c d]; [done|]. rewrite append_cons. cbn in *. apply andb_true_iff in Hd as [Hc _].
  apply negb_true_iff. by apply (class_disjoint f).
Qed.

(** No character of a class is in the other one. *)
Lemma class_excludes (f g : ascii -> bool) d :
  forallb (fun n => implb (f (ascii_of_nat n)) (negb (g (ascii_of_nat n)))) (seq 0 256) = true ->
  all_chars f d = true -> all_chars (fun c => negb (g c)) d = true.
Proof.
  intros Hall Hd. induction d as [|c d IH]; [done|]. cbn in Hd |- *. apply andb_true_iff in Hd as [Hc Hd]. rewrite (IH Hd), andb_true_r.
  apply negb_true_iff. by apply (class_disjoint f).
Qed.
Lemma all_chars_app f a b : all_chars f (a +:+ b) = all_chars f a && all_chars f b.
Proof. induction a as [|c a IH]; [done|]. rewrite append_cons. cbn. by rewrite IH, andb_assoc. Qed.

Lemma digits_chars d : all_digits d = all_chars is_digit d.
Proof. induction d as [|c d IH]; [done|]. cbn. by rewrite IH. Qed.
Lemma digits_take d s : take_digits (d +:+ s) = span is_digit (d +:+ s).
Proof. induction d as [|c d IH]; [|rewrite append_cons; cbn; by rewrite IH]. rewrite append_nil. induction s as [|c s IH]; [done|]. cbn. by rewrite IH. Qed.

Lemma append_empty s : s +:+ EmptyString = s.
Proof. induction s as [|c s IH]; [done|]. exact (f_equal (String c) IH). Qed.

(** Numbers in decimal. *)
Lemma pretty_some (n : N) s : stops is_digit s = true -> some is_digit (pretty n +:+ s) = Some (pretty n, s).
Proof. intros Hs. destruct (pretty_digits n) as (Hd & _ & Hne). rewrite digits_chars in Hd. by apply some_app. Qed.
Lemma digits_parse d : all_digits d = true -> d <> EmptyString -> parse_uint 64 d = parse_digits 64 d.
Proof.
  intros Hd Hne. unfold parse_uint. destruct d as [|c d]; [done|].
  assert (Hc : c <> "+"%char). { intros ->. done. }
  assert (E : (match String c d with String "+"%char s' => s' | _ => String c d end) = String c d) by (destruct c as [[] [] [] [] [] [] [] []]; done).
  rewrite E. rewrite <- (append_empty (String c d)) at 1. rewrite digits_take, span_app; [done|by rewrite <- digits_chars|done].
Qed.
Lemma pretty_int (n : N) : Z.of_N n < 2 ^ 64 -> parse_int_from_capture (pretty n) = Ret (Z.of_N n).
Proof.
  intros Hn. destruct (pretty_digits n) as (Hd & Hv & Hne). unfold parse_int_from_capture. rewrite digits_parse by done.
  unfold parse_digits. rewrite Hv. destruct (Z.ltb_spec (Z.of_N n) (2 ^ 64)); [done|lia].
Qed.

(** Numbers in hexadecimal. *)
Definition all_hex (h : string) : bool := all_chars is_hex h && negb (String.eqb h EmptyString).
Definition hex_of (h : string) : Z := default 0 (hex_value 0 h).

Lemma hex_parts h : all_hex h = true -> all_chars is_hex h = true /\ h <> EmptyString.
Proof. unfold all_hex. intros [Hh Hne]%andb_true_iff. split; [done|]. by intros ->. Qed.

Lemma hex_digit_Some c : is_hex c = true -> exists v, hex_digit_value c = Some v.
Proof.
  unfold is_hex, hex_digit_value. intros Hc. destruct (is_digit c); [by eexists|]. cbn in Hc. apply orb_true_iff in Hc as [Hc|Hc];
    apply andb_true_iff in Hc as [H1%N.leb_le H2%N.leb_le]; repeat case_match; eauto; rewrite ?andb_false_iff, ?Z.leb_gt in *; lia.
Qed.
Lemma hex_value_Some h acc : all_chars is_hex h = true -> exists v, hex_value acc h = Some v.
Proof.
  revert acc. induction h as [|c h IH]; intros acc Hh; [by eexists|]. cbn in Hh. apply andb_true_iff in Hh as [Hc Hh]. cbn.
  destruct (hex_digit_Some c Hc) as [v ->]. by apply IH.
Qed.
Lemma radix_hex h : all_hex h = true -> hex_of h < 2 ^ 64 -> from_str_radix_16 h = Some (hex_of h).
Proof.
  intros [Hh Hne]%hex_parts. unfold from_str_radix_16, hex_of. destruct (hex_value_Some h 0 Hh) as [v Hv]. rewrite Hv. cbn.
  intros Hlt. destruct h; [done|]. cbn [mbind option_bind]. destruct (Z.ltb_spec v (2 ^ 64)); [done|lia].
Qed.
Lemma trim_hex h : all_chars is_hex h = true -> trim_0x h = h.
Proof.
  intros Hh. destruct h as [|a [|b h]]; [done|destruct a as [[] [] [] [] [] [] [] []]; done|]. cbn [all_chars] in Hh.
  destruct (Ascii.eqb b "x") eqn:Eb; [apply Ascii.eqb_eq in Eb as ->; rewrite andb_comm in Hh; done|].
  destruct a as [[] [] [] [] [] [] [] []]; try done. destruct b as [[] [] [] [] [] [] [] []]; done.
Qed.

(** What a number without prefix is taken for. *)
Definition read_number (h : string) : Z :=
  if all_digits h && (digits_value 0 h <? 2 ^ 64) then digits_value 0 h else hex_of h.

Lemma not_digits_uint h : all_chars is_hex h = true -> all_digits h = false -> parse_uint 64 h = None.
Proof.
  intros Hh Hd. unfold parse_uint.
  assert (E : (match h with String "+"%char s' => s' | _ => h end) = h).
  { destruct h as [|c h]; [done|]. destruct (Ascii.eqb c "+") eqn:Ec; [apply Ascii.eqb_eq in Ec as ->; done|].
    destruct c as [[] [] [] [] [] [] [] []]; done. }
  rewrite E. clear E Hh.
  assert (Hr : (take_digits h).2 <> EmptyString).
  { induction h as [|c h IH]; [done|]. cbn in Hd |- *. destruct (is_digit c); [|done]. cbn in Hd. specialize (IH Hd). by destruct (take_digits h). }
  destruct (take_digits h) as [d r]. cbn in Hr. destruct d; [done|]. by destruct r.
Qed.

Lemma hex_int h : all_hex h = true -> hex_of h < 2 ^ 64 -> parse_int_from_capture h = Ret (read_number h).
Proof.
  intros Hh Hlt. pose proof (hex_parts h Hh) as [Hc Hne]. unfold parse_int_from_capture, read_number.
  destruct (all_digits h) eqn:Hd; cbn [andb].
  - rewrite digits_parse by done. unfold parse_digits. destruct (digits_value 0 h <? 2 ^ 64); [done|]. by rewrite trim_hex, radix_hex.
  - rewrite not_digits_uint by done. by rewrite trim_hex, radix_hex.
Qed.

Lemma prefixed_int h : all_hex h = true -> hex_of h < 2 ^ 64 -> parse_int_from_capture (String "0" (String "x" h)) = Ret (hex_of h).
Proof.
  intros Hh Hlt. pose proof (hex_parts h Hh) as [Hc _]. unfold parse_int_from_capture. cbn [parse_uint take_digits]. cbn.
  change (trim_0x (String "0" (String "x" h))) with (trim_0x h). by rewrite trim_hex, radix_hex.
Qed.

(** ** The format of the tool *)

Record ModuleText := mk_module_text {
  mt_pad : nat; mt_sep : nat; mt_id : N; mt_containing_id : N; mt_start : string; mt_end : string; mt_entry : string;
  mt_offset : string; mt_preferred_base : string; mt_path : string;
}.
Record BBText := mk_bb_text { bt_pad : nat; bt_sep : nat; bt_module_id : N; bt_address : string; bt_size : N }.

Definition sep (k : nat) (s : string) : string := "," +:+ blanks (S k) +:+ s.
Definition module_line (t : ModuleText) : string :=
  blanks (mt_pad t) +:+ pretty (mt_id t) +:+ sep (mt_sep t) (pretty (mt_containing_id t) +:+ sep (mt_sep t)
    ("0x" +:+ mt_start t +:+ sep (mt_sep t) ("0x" +:+ mt_end t +:+ sep (mt_sep t) ("0x" +:+ mt_entry t +:+ sep (mt_sep t)
    (mt_offset t +:+ sep (mt_sep t) ("0x" +:+ mt_preferred_base t +:+ sep (mt_sep t) (mt_path t))))))).
Definition bb_line (t : BBText) : string :=
  "module[" +:+ blanks (bt_pad t) +:+ pretty (bt_module_id t) +:+ "]: 0x" +:+ bt_address t +:+ sep (bt_sep t) (pretty (bt_size t)).

Definition hex64 (h : string) : Prop := all_hex h = true /\ hex_of h < 2 ^ 64.
Record module_text_ok (t : ModuleText) : Prop := {
  mo_id : Z.of_N (mt_id t) < 2 ^ 64;
  mo_containing_id : Z.of_N (mt_containing_id t) < 2 ^ 64;
  mo_start : hex64 (mt_start t);
  mo_end : hex64 (mt_end t);
  mo_entry : hex64 (mt_entry t);
  mo_offset : hex64 (mt_offset t);
  mo_base : hex64 (mt_preferred_base t);
  mo_path : mt_path t <> EmptyString /\ stops is_space (mt_path t) = true;
}.
Record bb_text_ok (t : BBText) : Prop := {
  bo_module_id : Z.of_N (bt_module_id t) < 2 ^ 64;
  bo_address : hex64 (bt_address t);
  bo_size : Z.of_N (bt_size t) < 2 ^ 64;
}.

(** What is read: numbers without [0x] as [read_number] says. *)
Definition module_of (t : ModuleText) : CovModule :=
  mk_cov_module (Z.of_N (mt_id t)) (Z.of_N (mt_containing_id t)) (hex_of (mt_start t)) (hex_of (mt_end t)) (hex_of (mt_entry t))
    (read_number (mt_offset t)) (hex_of (mt_preferred_base t)) (mt_path t).
Definition bb_of (t : BBText) : CovBasicBlock :=
  mk_cov_bb (Z.of_N (bt_module_id t)) (read_number (bt_address t)) (Z.of_N (bt_size t)).

#[local] Opaque lit.
#[local] Arguments some : simpl never.

Lemma pretty_stops (n : N) s g : forallb (fun n => implb (is_digit (ascii_of_nat n)) (negb (g (ascii_of_nat n)))) (seq 0 256) = true -> stops g (pretty n +:+ s) = true.
Proof. intros Hg. destruct (pretty_digits n) as (Hd & _ & Hne). rewrite digits_chars in Hd. by apply (stops_first is_digit). Qed.
Lemma hex_stops h s g : forallb (fun n => implb (is_hex (ascii_of_nat n)) (negb (g (ascii_of_nat n)))) (seq 0 256) = true -> all_hex h = true -> stops g (h +:+ s) = true.
Proof. intros Hg [Hh Hne]%hex_parts. by apply (stops_first is_hex). Qed.
Lemma hex_some h s : all_hex h = true -> stops is_hex s = true -> some is_hex (h +:+ s) = Some (h, s).
Proof. intros [Hh Hne]%hex_parts Hs. by apply some_app. Qed.
Lemma hex_number_app h s : all_hex h = true -> stops is_hex s = true -> hex_number ("0x" +:+ h +:+ s) = Some (String "0" (String "x" h), s).
Proof. intros Hh Hs. change ("0x" +:+ h +:+ s) with (String "0" (String "x" (h +:+ s))). unfold hex_number. by rewrite hex_some. Qed.
Lemma sep_stops f k s : f ","%char = false -> stops f (sep k s) = true.
Proof. intros Hf. change (sep k s) with (String "," (blanks (S k) +:+ s)). cbn [stops]. by rewrite Hf. Qed.
Lemma comma_sep k s : stops is_space s = true -> comma (sep k s) = Some s.
Proof. apply comma_app. Qed.

Lemma bb_line_read t : bb_text_ok t -> parse_bb_entry (bb_line t) = Ret (bb_of t).
Proof.
  intros [Hm [Ha Hav] Hs]. unfold parse_bb_entry.
  assert (E : BB_ENTRY_REGEX (bb_line t) = Some (pretty (bt_module_id t), bt_address t, pretty (bt_size t))).
  { apply search_here. unfold bb_line. rewrite lit_app. cbn [mbind option_bind]. unfold maybe_spaces.
    rewrite span_app by (apply blanks_space || by apply pretty_stops). cbn [snd]. rewrite pretty_some by done. cbn [mbind option_bind].
    rewrite lit_app. cbn [mbind option_bind]. rewrite hex_some by (done || by apply sep_stops). cbn [mbind option_bind].
    rewrite <- (append_empty (pretty (bt_size t))) at 1. rewrite comma_sep by (by apply pretty_stops). cbn [mbind option_bind].
    by rewrite pretty_some. }
  rewrite E. cbn [unwrap mbind outcome_bind]. by rewrite !pretty_int, hex_int.
Qed.

Lemma search_blanks {A} (m : string -> option A) k s : (forall s, m (String " " s) = None) -> search m (blanks k +:+ s) = search m s.
Proof. intros Hm. induction k as [|k IH]; [done|]. cbn [blanks]. rewrite append_cons. cbn [search]. by rewrite Hm. Qed.

Lemma path_field_app k p : p <> EmptyString -> stops is_space p = true -> path_field (sep k p) = Some p.
Proof.
  intros Hne Hs. unfold path_field, sep. rewrite lit_app. cbn [mbind option_bind]. rewrite span_app by (apply blanks_space || done).
  cbn [blanks]. by destruct p.
Qed.

Lemma module_line_read t : module_text_ok t -> parse_module (module_line t) = Ret (module_of t).
Proof.
  intros [H1 H2 [H3 V3] [H4 V4] [H5 V5] [H6 V6] [H7 V7] [H8 V8]]. unfold parse_module.
  assert (E : MODULE_ENTRY_REGEX (module_line t) = Some [pretty (mt_id t); pretty (mt_containing_id t); String "0" (String "x" (mt_start t));
    String "0" (String "x" (mt_end t)); String "0" (String "x" (mt_entry t)); mt_offset t; String "0" (String "x" (mt_preferred_base t)); mt_path t]).
  { unfold MODULE_ENTRY_REGEX, module_line. rewrite search_blanks by done. apply search_here.
    assert (Hd : forall k s, stops is_digit (sep k s) = true) by (intros; by apply sep_stops).
    assert (Hh : forall k s, stops is_hex (sep k s) = true) by (intros; by apply sep_stops).
    rewrite pretty_some by done. cbn [mbind option_bind]. rewrite comma_sep by (by apply pretty_stops). cbn [mbind option_bind].
    rewrite pretty_some by done. cbn [mbind option_bind].
    do 3 (rewrite comma_sep by done; cbn [mbind option_bind]; rewrite hex_number_app by done; cbn [mbind option_bind]).
    rewrite comma_sep by (by apply hex_stops). cbn [mbind option_bind]. rewrite hex_some by done. cbn [mbind option_bind].
    rewrite comma_sep by done. cbn [mbind option_bind]. rewrite hex_number_app by done. cbn [mbind option_bind]. by rewrite path_field_app. }
  rewrite E. cbn [unwrap mbind outcome_bind]. rewrite !pretty_int by done. cbn [mbind outcome_bind]. rewrite !prefixed_int by done.
  cbn [mbind outcome_bind]. by rewrite hex_int.
Qed.

Lemma parse_lines_written {A B} (parse : string -> outcome A) (line : B -> string) (f : B -> A) l rest :
  (forall t, t ∈ l -> parse (line t) = Ret (f t)) -> parse_lines parse (Z.of_nat (length l)) ((line <$> l) ++ rest) = Ret (f <$> l, rest).
Proof.
  induction l as [|t l IH]; intros Hl; [by destruct rest|]. cbn [length fmap list_fmap app parse_lines].
  destruct (Z.leb_spec (Z.of_nat (S (length l))) 0); [lia|]. rewrite Hl by (by left). cbn [mbind outcome_bind].
  replace (Z.of_nat (S (length l)) - 1) with (Z.of_nat (length l)) by lia. rewrite IH; [done|]. intros t' Ht. apply Hl. by right.
Qed.

(** A trace as the tool writes it. *)
Definition trace_text (flavor columns1 columns2 : string) (ms : list ModuleText) (bbs : list BBText) : list string :=
  "DRCOV VERSION: 3"%string :: flavor :: ("Module Table: version 5, count " +:+ pretty (N.of_nat (length ms))) :: columns1 ::
  (module_line <$> ms) ++ ("BB Table: " +:+ pretty (N.of_nat (length bbs)) +:+ " bbs") :: columns2 :: (bb_line <$> bbs).

Lemma pretty_uint (n : N) : Z.of_N n < 2 ^ 64 -> parse_uint 64 (pretty n) = Some (Z.of_N n).
Proof.
  intros Hn. destruct (pretty_digits n) as (Hd & Hv & Hne). rewrite digits_parse by done. unfold parse_digits. rewrite Hv.
  destruct (Z.ltb_spec (Z.of_N n) (2 ^ 64)); [done|lia].
Qed.

Lemma module_header_read (n : N) : Z.of_N n < 2 ^ 64 -> parse_module_header ("Module Table: version 5, count " +:+ pretty n) = Ret (Ok (Z.of_N n)).
Proof.
  intros Hn. unfold parse_module_header.
  assert (E : MODULE_HEADER_REGEX ("Module Table: version 5, count " +:+ pretty n) = Some ("5"%string, pretty n)).
  { apply search_here. change ("Module Table: version 5, count " +:+ pretty n) with ("Module Table: version " +:+ "5" +:+ ", count " +:+ pretty n).
    rewrite lit_app. cbn [mbind option_bind]. rewrite some_app by done. cbn [mbind option_bind]. rewrite lit_app. cbn [mbind option_bind].
    rewrite <- (append_empty (pretty n)) at 1. by rewrite pretty_some. }
  rewrite E. cbn [unwrap mbind outcome_bind]. change (parse_uint 64 "5") with (Some 5). cbn [unwrap mbind outcome_bind]. by rewrite pretty_uint.
Qed.

Lemma bb_header_read (n : N) : Z.of_N n < 2 ^ 64 -> parse_bb_header ("BB Table: " +:+ pretty n +:+ " bbs") = Ret (Z.of_N n).
Proof.
  intros Hn. unfold parse_bb_header.
  assert (E : BB_HEADER_REGEX ("BB Table: " +:+ pretty n +:+ " bbs") = Some (pretty n)).
  { apply search_here. rewrite lit_app. cbn [mbind option_bind]. rewrite pretty_some by done. cbn [mbind option_bind].
    by replace (lit " bbs" " bbs") with (Some EmptyString) by (by vm_compute). }
  rewrite E. cbn [unwrap mbind outcome_bind]. by apply pretty_int.
Qed.

(** What the parser makes of a trace.  A trace that the tool wrote (version 3 with a module table of
    version 5, as many lines as announced, numbers that fit 64 bits) is parsed without an error into
    its modules, names and basic blocks in order, with every number that has the prefix [0x] and every
    decimal number as it was written.  The addresses of basic blocks and the offsets of modules,
    which are hexadecimal without a prefix in the captured text, are read as [read_number] says: as
    hexadecimal only if they have a letter or do not fit as a decimal number. *)
Theorem trace_parsed name ts flavor columns1 columns2 ms bbs :
  Forall module_text_ok ms -> Forall bb_text_ok bbs -> Z.of_nat (length ms) < 2 ^ 64 -> Z.of_nat (length bbs) < 2 ^ 64 ->
  parse_timestamp name = Ret ts ->
  parse_trace name (Ok (trace_text flavor columns1 columns2 ms bbs)) =
    Ret (Ok (mk_cov_trace name ts (bb_of <$> bbs) (module_of <$> ms) (foldl (fun m t => <[Z.of_N (mt_id t) := mt_path t]> m) ∅ ms))).
Proof.
  intros Hms Hbbs Hlm Hlb Hts. unfold parse_trace, trace_text. cbn [next_line mbind outcome_bind].
  assert (Ev : check_trace_version "DRCOV VERSION: 3" = Ret (Ok tt)) by (by vm_compute). rewrite Ev. cbn [mbind outcome_bind next_line].
  rewrite module_header_read by (rewrite nat_N_Z; exact Hlm). cbn [mbind outcome_bind next_line]. rewrite nat_N_Z.
  rewrite (parse_lines_written parse_module module_line module_of); [|intros t Ht; apply module_line_read; by eapply Forall_forall in Hms].
  cbn [mbind outcome_bind next_line]. rewrite bb_header_read by (rewrite nat_N_Z; exact Hlb). cbn [mbind outcome_bind next_line]. rewrite nat_N_Z.
  rewrite <- (app_nil_r (bb_line <$> bbs)), (parse_lines_written parse_bb_entry bb_line bb_of);
    [|intros t Ht; apply bb_line_read; by eapply Forall_forall in Hbbs].
  cbn [mbind outcome_bind]. rewrite Hts. cbn [mbind outcome_bind]. do 2 f_equal. f_equal. by rewrite foldl_fmap.
Qed.

(** Two basic blocks that the parser takes for one: [0x10] and [0xa]. *)
Lemma addresses_collide :
  parse_bb_entry "module[  1]: 0x0000000000000010,  4" = Ret (mk_cov_bb 1 10 4) /\
  parse_bb_entry "module[  1]: 0x000000000000000a,  4" = Ret (mk_cov_bb 1 10 4).
Proof. by vm_compute. Qed.

(** ** Witness *)

Definition demo_module_text : ModuleText := mk_module_text 1 0 7 7 "400000" "401000" "400010" "0000" "400000" "/bin/true".
Definition demo_bb_texts : list BBText := [mk_bb_text 2 1 7 "00000010" 4; mk_bb_text 2 1 7 "000000f0" 12].

Lemma demo_hex64 h : all_hex h && (hex_of h <? 2 ^ 64) = true -> hex64 h.
Proof. intros [Hh Hv%Z.ltb_lt]%andb_true_iff. by split. Qed.
