(* ===== verification/Coverage.v ===== *)
(** * Coverage reports

    Models [lib/compute_coverage/src/main.rs], which turns the traces of a campaign into
    reports of basic blocks, and the reports of branches in
    [scheduler/src/coverage/postprocess.rs].  Reading and writing files and the tools that are
    started are left out: a run starts from the parsed traces, the branches start from the
    parsed export of [llvm-cov].  Hash maps and sets, whose order is not specified, are finite maps
    and sets. *)

From Stdlib Require Import Ascii.
From stdpp Require Import fin_sets fin_maps.
From S2P Require Import Prelude Effects Phases Config ConfigTheorems CoverageTrace.

(** ** Basic blocks over time *)

Module Blocks.

(** Names of modules are shared, and compared by their text. *)
Record BasicBlock := mk_bb { bb_module_name : string; bb_offset : Z }.
#[export] Instance BasicBlock_eq_dec : EqDecision BasicBlock.
Proof. solve_decision. Defined.
#[export] Program Instance BasicBlock_countable : Countable BasicBlock :=
  inj_countable (fun b => (bb_module_name b, bb_offset b)) (fun p => Some (mk_bb p.1 p.2)) _.
Next Obligation. by intros []. Qed.

Record BlockTrace := mk_block_trace { tr_timestamp_ms : Z; tr_bbs : list BasicBlock }.

(** [name.contains(entry)] *)
Definition contains (entry name : string) : bool := bool_decide (is_Some (search (lit entry) name)).

Definition blacklist : list string :=
  ["/lib/x86_64-linux-gnu/libgcc_s.so"; "/lib/x86_64-linux-gnu/libstdc++"; "/lib/x86_64-linux-gnu/libc-";
   "/lib/x86_64-linux-gnu/libpthread"; "/lib/x86_64-linux-gnu/libm-"; "/lib/x86_64-linux-gnu/libdl"; "/lib/x86_64-linux-gnu/ld-"]%string.
Definition module_filter_fn (module_name : string) : bool := negb (existsb (fun entry => contains entry module_name) blacklist).

(** All names of the trace are in [MODULES_SET], so only the id can be missing. *)
Definition get_module_name (trace : CovTrace) (bb : CovBasicBlock) : outcome string := unwrap (cv_id_to_name trace !! cb_module_id bb).

Definition from_trace_bb (trace : CovTrace) (bb : CovBasicBlock) : outcome BasicBlock :=
  module_name ← get_module_name trace bb; mret (mk_bb module_name (cb_address bb)).

Fixpoint filter_bbs (trace : CovTrace) (module_filter : option (string -> bool)) (l : list CovBasicBlock) : outcome (list BasicBlock) :=
  match l with
  | [] => mret []
  | bb :: l =>
      parsed_bb ← from_trace_bb trace bb;
      bbs ← filter_bbs trace module_filter l;
      mret (if match module_filter with Some f => f (bb_module_name parsed_bb) | None => true end then parsed_bb :: bbs else bbs)
  end.

Definition Trace_from_trace (trace : CovTrace) (module_filter : option (string -> bool)) : outcome BlockTrace :=
  bbs ← filter_bbs trace module_filter (cv_basic_blocks trace);
  mret (mk_block_trace (cv_timestamp_ms trace) bbs).

(** [sort_by_key(|trace| trace.timestamp_ms)], which is stable. *)
Definition ts_le (a b : BlockTrace) : Prop := tr_timestamp_ms a <= tr_timestamp_ms b.
#[export] Instance ts_le_dec : RelDecision ts_le := fun a b => decide (tr_timestamp_ms a <= tr_timestamp_ms b).

(** The loop over the traces, oldest first; each drops the later ones with the same blocks. *)
Fixpoint drop_duplicates (fuel : nat) (traces : list BlockTrace) : list BlockTrace :=
  match fuel, traces with
  | S fuel, trace :: traces => trace :: drop_duplicates fuel (filter (fun t => tr_bbs t <> tr_bbs trace) traces)
  | _, _ => []
  end.

(** The fuel is enough: every round removes at least one trace. *)
Definition Run_from_traces (traces : list BlockTrace) : option (list BlockTrace) :=
  match traces with
  | [] => None
  | _ => Some (drop_duplicates (length traces) (merge_sort ts_le traces))
  end.

(** The blocks with the time they were found. *)
Definition see_block (ts : Z) (bb_to_ts : gmap BasicBlock Z) (bb : BasicBlock) : gmap BasicBlock Z :=
  let entry := default ts (bb_to_ts !! bb) in
  <[bb := if ts <? entry then ts else entry]> bb_to_ts.
Definition covered_bbs (run : list BlockTrace) : gmap BasicBlock Z :=
  foldl (fun m trace => foldl (see_block (tr_timestamp_ms trace)) m (tr_bbs trace)) ∅ run.

(** [TimestampInS(trace.timestamp_ms() / 1000)] *)
Definition in_s (ts : Z) : Z := ts / 1000.

Definition add_bbs (m : gmap Z (gset BasicBlock)) (ts : Z) (bbs : gset BasicBlock) : gmap Z (gset BasicBlock) :=
  <[ts := default ∅ (m !! ts) ∪ bbs]> m.
Definition ts_to_bbs_covered (run : list BlockTrace) : gmap Z (gset BasicBlock) :=
  foldl (fun m trace => add_bbs m (in_s (tr_timestamp_ms trace)) (list_to_set (tr_bbs trace))) ∅ run.

Definition key_le {A} (a b : Z * A) : Prop := a.1 <= b.1.
#[export] Instance key_le_dec {A} : RelDecision (key_le (A:=A)) := fun a b => decide (a.1 <= b.1).
Definition sorted_entries {A} (m : gmap Z A) : list (Z * A) := merge_sort key_le (map_to_list m).

(** The body of the loop: what is new, and what was seen. *)
Definition add_new (acc : gmap Z (gset BasicBlock) * gset BasicBlock) (e : Z * gset BasicBlock) : gmap Z (gset BasicBlock) * gset BasicBlock :=
  let (ret, seen_bbs) := acc in
  let new_bbs := e.2 ∖ seen_bbs in
  (add_bbs ret e.1 new_bbs, seen_bbs ∪ new_bbs).
Definition ts_to_new_covered_bss (run : list BlockTrace) : gmap Z (gset BasicBlock) :=
  (foldl add_new (∅, ∅) (sorted_entries (ts_to_bbs_covered run))).1.

(** The lines of [coverage.csv]. *)
Definition coverage_over_time (run : list BlockTrace) : list (Z * nat) :=
  omap (fun e : Z * gset BasicBlock => if bool_decide (e.2 = ∅) then None else Some (e.1, size e.2)) (sorted_entries (ts_to_new_covered_bss run)).

(** *** When a block was found *)

(** [t] is the smallest value that [l] has for [b]. *)
Definition smallest {A} (l : list (A * Z)) (b : A) (t : Z) : Prop := (b, t) ∈ l /\ forall t', (b, t') ∈ l -> t <= t'.

Lemma smallest_unique {A} (l : list (A * Z)) b t t' : smallest l b t -> smallest l b t' -> t = t'.
Proof. intros [H1 H2] [H3 H4]. apply Z.le_antisymm; auto. Qed.

Lemma smallest_extend {A} (l l' : list (A * Z)) b t :
  (forall p, p ∈ l' -> p ∈ l) -> (forall t, (b, t) ∈ l -> exists t', (b, t') ∈ l' /\ t' <= t) -> smallest l b t <-> smallest l' b t.
Proof.
  intros Hsub Hcov. split; intros [H1 H2].
  - destruct (Hcov t H1) as (t' & Ht' & Hle). pose proof (H2 t' (Hsub _ Ht')). assert (t = t') as -> by lia. split; [done|]. auto.
  - split; [auto|]. intros t' Ht'. destruct (Hcov t' Ht') as (t0 & Ht0 & Hle). specialize (H2 t0 Ht0). lia.
Qed.

(** The blocks of the traces with the times of the traces. *)
Definition sightings (traces : list BlockTrace) : list (BasicBlock * Z) := traces ≫= fun tr => (fun b => (b, tr_timestamp_ms tr)) <$> tr_bbs tr.

Lemma elem_of_sightings traces b t : (b, t) ∈ sightings traces <-> exists tr, tr ∈ traces /\ b ∈ tr_bbs tr /\ tr_timestamp_ms tr = t.
Proof.
  unfold sightings. rewrite list_elem_of_bind. split.
  - intros (tr & Hb & Htr). apply list_elem_of_fmap in Hb as (b' & [= -> ->] & Hb). eauto.
  - intros (tr & Htr & Hb & <-). exists tr. split; [|done]. apply list_elem_of_fmap. by exists b.
Qed.

Lemma covered_sightings run : covered_bbs run = foldl (fun m p => see_block p.2 m p.1) ∅ (sightings run).
Proof.
  unfold covered_bbs. generalize (∅ : gmap BasicBlock Z). induction run as [|tr run IH]; intros m; [done|].
  unfold sightings. cbn. rewrite foldl_app, foldl_fmap. apply IH.
Qed.

Lemma see_all l (b : BasicBlock) :
  match foldl (fun m p => see_block p.2 m p.1) ∅ l !! b with Some t => smallest l b t | None => forall t, (b, t) ∉ l end.
Proof.
  induction l as [|[b0 t0] l IH] using rev_ind; [cbn [foldl]; rewrite lookup_empty; intros t; apply not_elem_of_nil|].
  rewrite foldl_app. cbn [foldl]. set (m := foldl _ ∅ l) in *. unfold see_block. cbn [fst snd]. destruct (decide (b = b0)) as [<-|Hne].
  - rewrite lookup_insert_eq. destruct (m !! b) as [t|].
    + change (default t0 (Some t)) with t. destruct IH as [Hin Hmin]. unfold smallest. destruct (Z.ltb_spec t0 t).
      * split; [apply elem_of_app; right; by apply list_elem_of_singleton|]. intros t' [Ht'|[= ->]%list_elem_of_singleton]%elem_of_app; [|lia].
        specialize (Hmin t' Ht'). lia.
      * split; [apply elem_of_app; by left|]. intros t' [Ht'|[= ->]%list_elem_of_singleton]%elem_of_app; [auto|lia].
    + change (default t0 None) with t0. rewrite Z.ltb_irrefl. split; [apply elem_of_app; right; by apply list_elem_of_singleton|].
      intros t' [Ht'|[= ->]%list_elem_of_singleton]%elem_of_app; [by apply IH in Ht'|lia].
  - rewrite lookup_insert_ne by done.
    assert (Hin : forall t, (b, t) ∈ l ++ [(b0, t0)] <-> (b, t) ∈ l).
    { intros t. rewrite elem_of_app, list_elem_of_singleton. split; [intros [?|[= -> _]]; done|by left]. }
    destruct (m !! b) as [t|]; [|intros t; rewrite Hin; apply IH]. unfold smallest. rewrite Hin. setoid_rewrite Hin. exact IH.
Qed.

Lemma covered_smallest run b t : covered_bbs run !! b = Some t <-> smallest (sightings run) b t.
Proof.
  rewrite covered_sightings. pose proof (see_all (sightings run) b) as Hm. destruct (_ !! b) as [t'|].
  - split; [by intros [= <-]|]. intros Ht. f_equal. by apply (smallest_unique (sightings run) b).
  - split; [done|]. intros [Hin _]. by apply Hm in Hin.
Qed.

(** *** Traces with the same blocks *)

#[export] Instance ts_le_trans : Transitive ts_le.
Proof. intros a b c. unfold ts_le. lia. Qed.
#[export] Instance ts_le_total : Total ts_le.
Proof. intros a b. unfold ts_le. lia. Qed.

Lemma sorted_filter (P : BlockTrace -> Prop) `{!forall x, Decision (P x)} l : StronglySorted ts_le l -> StronglySorted ts_le (filter P l).
Proof.
  induction 1 as [|t l _ IH Ht]; [constructor|]. rewrite filter_cons. case_decide; [|done]. constructor; [done|].
  apply Forall_forall. intros x [_ Hx]%list_elem_of_filter. by eapply Forall_forall in Ht.
Qed.

Lemma drop_duplicates_sub n l tr : tr ∈ drop_duplicates n l -> tr ∈ l.
Proof.
  revert l. induction n as [|n IH]; intros [|t l]; cbn; try (by intros Hn%not_elem_of_nil). intros [->|Htr]%elem_of_cons; [by left|]. apply IH in Htr.
  apply list_elem_of_filter in Htr as [_ Htr]. by right.
Qed.

Lemma drop_duplicates_oldest n l tr :
  (length l <= n)%nat -> StronglySorted ts_le l -> tr ∈ l -> exists tr', tr' ∈ drop_duplicates n l /\ tr_bbs tr' = tr_bbs tr /\ ts_le tr' tr.
Proof.
  revert l. induction n as [|n IH]; intros [|t l] Hn Hs Htr; cbn in Hn; try (by apply not_elem_of_nil in Htr); [lia|]. cbn [drop_duplicates].
  apply StronglySorted_inv in Hs as [Hs Ht]. apply elem_of_cons in Htr as [->|Htr]; [exists t; split; [by left|]; split; [done|unfold ts_le; lia]|].
  destruct (decide (tr_bbs tr = tr_bbs t)) as [E|E].
  - exists t. split; [by left|]. split; [done|]. by eapply Forall_forall in Ht.
  - destruct (IH (filter (fun x => tr_bbs x <> tr_bbs t) l)) as (tr' & Htr' & Hb & Hle).
    + pose proof (length_filter (fun x => tr_bbs x <> tr_bbs t) l). lia.
    + by apply sorted_filter.
    + by apply list_elem_of_filter.
    + exists tr'. split; [by right|done].
Qed.

Lemma run_smallest traces run b t : Run_from_traces traces = Some run -> smallest (sightings run) b t <-> smallest (sightings traces) b t.
Proof.
  intros E. assert (Er : run = drop_duplicates (length traces) (merge_sort ts_le traces)) by (destruct traces; [done|by injection E]).
  symmetry. apply smallest_extend.
  - intros [b' t'] (tr & Htr & Hb & Ht)%elem_of_sightings. apply elem_of_sightings. exists tr. split; [|done]. rewrite Er in Htr.
    apply drop_duplicates_sub in Htr. by rewrite merge_sort_Permutation in Htr.
  - intros t' (tr & Htr & Hb & <-)%elem_of_sightings.
    destruct (drop_duplicates_oldest (length traces) (merge_sort ts_le traces) tr) as (tr' & Htr' & Hbb & Hle).
    + by rewrite merge_sort_Permutation.
    + by apply StronglySorted_merge_sort; apply _.
    + by rewrite merge_sort_Permutation.
    + exists (tr_timestamp_ms tr'). split; [|exact Hle]. apply elem_of_sightings. exists tr'. rewrite Er, Hbb. done.
Qed.

(** *** New blocks per second *)

#[export] Instance key_le_trans {A} : Transitive (key_le (A:=A)).
Proof. intros a b c. unfold key_le. lia. Qed.
#[export] Instance key_le_total {A} : Total (key_le (A:=A)).
Proof. intros a b. unfold key_le. lia. Qed.

Lemma elem_of_sorted_entries {A} (m : gmap Z A) k x : (k, x) ∈ sorted_entries m <-> m !! k = Some x.
Proof. unfold sorted_entries. by rewrite merge_sort_Permutation, elem_of_map_to_list. Qed.

Lemma sorted_keys_NoDup {A} (m : gmap Z A) : NoDup (sorted_entries m).*1.
Proof. unfold sorted_entries. rewrite merge_sort_Permutation. apply NoDup_fst_map_to_list. Qed.

Lemma sorted_entries_keys {A} (m : gmap Z A) : StronglySorted Z.lt (sorted_entries m).*1.
Proof.
  pose proof (sorted_keys_NoDup m) as Hnd.
  assert (Hs : StronglySorted key_le (sorted_entries m)) by (apply StronglySorted_merge_sort; apply _).
  induction Hs as [|[k x] l _ IH Hk]; [constructor|]. cbn in *. apply NoDup_cons in Hnd as [Hni Hnd]. constructor; [auto|].
  apply Forall_forall. intros k' Hk'. apply list_elem_of_fmap in Hk' as ([k2 x2] & -> & Hin). cbn.
  eapply Forall_forall in Hk; [|exact Hin]. unfold key_le in Hk. cbn in Hk.
  assert (k <> k2). { intros ->. apply Hni. apply list_elem_of_fmap. by exists (k2, x2). } lia.
Qed.

(** The blocks a map has for a key. *)
Definition blocks_at (m : gmap Z (gset BasicBlock)) (s : Z) : gset BasicBlock := default ∅ (m !! s).

Lemma blocks_at_add m ts bbs s b : b ∈ blocks_at (add_bbs m ts bbs) s <-> b ∈ blocks_at m s \/ (s = ts /\ b ∈ bbs).
Proof.
  unfold blocks_at, add_bbs. destruct (decide (s = ts)) as [->|Hne].
  - rewrite lookup_insert_eq. cbn. rewrite elem_of_union. naive_solver.
  - rewrite lookup_insert_ne by done. naive_solver.
Qed.

Lemma blocks_at_empty s b : b ∉ blocks_at ∅ s.
Proof. unfold blocks_at. rewrite lookup_empty. cbn. set_solver. Qed.

Lemma covered_at run s b : b ∈ blocks_at (ts_to_bbs_covered run) s <-> exists t, (b, t) ∈ sightings run /\ in_s t = s.
Proof.
  unfold ts_to_bbs_covered. induction run as [|tr run IH] using rev_ind.
  - cbn. split; [by intros ?%blocks_at_empty|]. intros (t & Ht & _). by apply not_elem_of_nil in Ht.
  - rewrite foldl_app. cbn [foldl]. rewrite blocks_at_add, IH, elem_of_list_to_set. setoid_rewrite elem_of_sightings. split.
    + intros [(t & (x & Hx & Hb & <-) & <-)|[-> Hb]].
      * exists (tr_timestamp_ms x). split; [|done]. exists x. split; [|done]. apply elem_of_app. by left.
      * exists (tr_timestamp_ms tr). split; [|done]. exists tr. split; [|done]. apply elem_of_app. right. by apply list_elem_of_singleton.
    + intros (t & (x & Hx & Hb & <-) & <-). apply elem_of_app in Hx as [Hx|Hx%list_elem_of_singleton]; [|subst x; by right].
      left. exists (tr_timestamp_ms x). split; [|done]. by exists x.
Qed.

(** The first entry with a block. *)
Definition first_entry (l : list (Z * gset BasicBlock)) (b : BasicBlock) (s : Z) : Prop :=
  (exists X, (s, X) ∈ l /\ b ∈ X) /\ forall s' X, (s', X) ∈ l -> b ∈ X -> s <= s'.

Lemma add_new_first l b :
  StronglySorted Z.lt l.*1 ->
  (forall s, b ∈ blocks_at (foldl add_new (∅, ∅) l).1 s <-> first_entry l b s) /\
  (b ∈ (foldl add_new (∅, ∅) l).2 <-> exists s X, (s, X) ∈ l /\ b ∈ X).
Proof.
  induction l as [|[s0 X0] l IH] using rev_ind; intros Hs.
  - cbn. split; [|split; [set_solver|]; intros (s & X & H & _); by apply not_elem_of_nil in H]. intros s.
    split; [by intros ?%blocks_at_empty|]. intros [(X & H & _) _]. by apply not_elem_of_nil in H.
  - rewrite fmap_app in Hs. cbn in Hs. apply StronglySorted_app in Hs as (Hlt & Hs & _). destruct (IH Hs) as [Hf Hseen]. clear IH.
    assert (Hk : forall s X, (s, X) ∈ l -> s < s0).
    { intros s X Hin. apply (Hlt s s0); [apply list_elem_of_fmap; by exists (s, X)|by apply list_elem_of_singleton]. }
    rewrite foldl_app. cbn [foldl]. destruct (foldl add_new (∅, ∅) l) as [ret seen]. cbn [add_new fst snd] in *. split.
    + intros s. rewrite blocks_at_add, Hf, elem_of_difference, Hseen. unfold first_entry. setoid_rewrite elem_of_app. setoid_rewrite list_elem_of_singleton. split.
      * intros [[(X & Hin & Hb) Hmin]|(-> & Hb & Hn)].
        -- split; [exists X; auto|]. intros s' X' [Hin'|[= -> ->]] Hb'; [by eapply Hmin|]. specialize (Hk s X Hin). lia.
        -- split; [exists X0; auto|]. intros s' X' [Hin'|[= -> ->]] Hb'; [|lia]. exfalso. apply Hn. by exists s', X'.
      * intros [(X & [Hin|[= -> ->]] & Hb) Hmin].
        -- left. split; [eauto|]. intros s' X' Hin' Hb'. apply (Hmin s' X'); auto.
        -- destruct (decide (b ∈ seen)) as [Hin|Hni].
           ++ apply Hseen in Hin as (s' & X' & Hin' & Hb'). specialize (Hk _ _ Hin'). specialize (Hmin s' X' (or_introl Hin') Hb'). lia.
           ++ right. split; [done|]. split; [done|]. by rewrite <- Hseen.
    + rewrite elem_of_union, elem_of_difference, Hseen. setoid_rewrite elem_of_app. setoid_rewrite list_elem_of_singleton. split.
      * intros [(s & X & Hin & Hb)|[Hb _]]; [exists s, X; auto|exists s0, X0; auto].
      * intros (s & X & [Hin|[= -> ->]] & Hb); [left; eauto|]. destruct (decide (b ∈ seen)) as [Hi|Hi]; [left; by apply Hseen|right; split; [done|by rewrite <- Hseen]].
Qed.

Lemma in_s_mono t t' : t <= t' -> in_s t <= in_s t'.
Proof. intros Ht. apply Z.div_le_mono; lia. Qed.

Lemma first_entry_blocks (m : gmap Z (gset BasicBlock)) b s :
  first_entry (sorted_entries m) b s <-> b ∈ blocks_at m s /\ forall s', b ∈ blocks_at m s' -> s <= s'.
Proof.
  assert (Hb : forall s, b ∈ blocks_at m s <-> exists X, (s, X) ∈ sorted_entries m /\ b ∈ X).
  { intros s'. setoid_rewrite elem_of_sorted_entries. unfold blocks_at. destruct (m !! s') as [X|]; cbn; [|set_solver]. naive_solver. }
  unfold first_entry. rewrite <- Hb. split; intros [H1 H2]; (split; [done|]).
  - intros s' (X & Hin & HX)%Hb. by eapply H2.
  - intros s' X Hin HX. apply H2, Hb. eauto.
Qed.

Lemma new_at run s b : b ∈ blocks_at (ts_to_new_covered_bss run) s <-> exists t, covered_bbs run !! b = Some t /\ in_s t = s.
Proof.
  unfold ts_to_new_covered_bss. rewrite (proj1 (add_new_first _ b (sorted_entries_keys _))), first_entry_blocks, covered_at.
  setoid_rewrite covered_smallest. split.
  - intros [(t0 & Ht0 & <-) Hmin]. destruct (covered_bbs run !! b) as [t|] eqn:E.
    + apply covered_smallest in E. exists t. split; [done|]. apply Z.le_antisymm; [apply in_s_mono; by apply E|]. apply Hmin, covered_at.
      exists t. split; [apply E|done].
    + rewrite covered_sightings in E. pose proof (see_all (sightings run) b) as Hm. rewrite E in Hm. by apply Hm in Ht0.
  - intros (t & [Hin Hmin] & <-). split; [eauto|]. intros s' (t' & Ht' & <-)%covered_at. by apply in_s_mono, Hmin.
Qed.

(** *** The report *)

Lemma csv_sum (l : list (Z * gset BasicBlock)) :
  sum_list (omap (fun e : Z * gset BasicBlock => if bool_decide (e.2 = ∅) then None else Some (e.1, size e.2)) l).*2 = sum_list (size <$> l.*2).
Proof.
  induction l as [|[s X] l IH]; [done|]. cbn [omap list_omap fmap list_fmap fst snd sum_list_with]. case_bool_decide as HX.
  - subst X. rewrite IH. change (id (size (∅ : gset BasicBlock))) with (size (∅ : gset BasicBlock)). by rewrite size_empty.
  - cbn [fmap list_fmap snd sum_list_with]. by rewrite IH.
Qed.

Lemma disjoint_sizes (l : list (Z * gset BasicBlock)) (D : gset BasicBlock) :
  NoDup l.*1 -> (forall b s s' X X', (s, X) ∈ l -> (s', X') ∈ l -> b ∈ X -> b ∈ X' -> s = s') ->
  (forall b, b ∈ D <-> exists s X, (s, X) ∈ l /\ b ∈ X) -> sum_list (size <$> l.*2) = size D.
Proof.
  revert D. induction l as [|[s X] l IH]; intros D Hnd Hdis HD; cbn [fmap list_fmap fst snd sum_list_with].
  - assert (E : D = ∅). { apply set_eq. intros b. rewrite HD. split; [|set_solver]. intros (s & X & H & _). by apply not_elem_of_nil in H. }
    subst D. by rewrite size_empty.
  - cbn in Hnd. apply NoDup_cons in Hnd as [Hni Hnd]. change (id (size X)) with (size X).
    assert (Hsep : forall b s' X', (s', X') ∈ l -> b ∈ X' -> b ∉ X).
    { intros b s' X' Hin Hb Hbx. assert (s = s') as <- by (apply (Hdis b s s' X X'); [by left|by right|done|done]).
      apply Hni. apply list_elem_of_fmap. by exists (s, X'). }
    rewrite (IH (D ∖ X)).
    + assert (HX : X ⊆ D). { intros b Hb. apply HD. exists s, X. split; [by left|done]. }
      pose proof (size_difference D X HX) as Hsz. pose proof (subseteq_size X D HX). lia.
    + done.
    + intros b s1 s2 X1 X2 H1 H2. apply (Hdis b); by right.
    + intros b. rewrite elem_of_difference, HD. split.
      * intros [(s' & X' & [[= -> ->]|Hin]%elem_of_cons & Hb) Hn]; [done|eauto].
      * intros (s' & X' & Hin & Hb). split; [exists s', X'; split; [by right|done]|by eapply Hsep].
Qed.

(** C38: the two reports of basic blocks agree with the traces and with each other.  The time that
    [covered_bbs.json] gives for a block is that of the oldest trace with this block, also though
    traces with the same blocks were dropped; a block is counted as new in [coverage.csv] exactly
    in the second of that time; so the numbers of the second report add up to the number of blocks of the
    first. *)
Theorem coverage_reports_agree traces run :
  Run_from_traces traces = Some run ->
  (forall b t, covered_bbs run !! b = Some t <->
     (exists tr, tr ∈ traces /\ b ∈ tr_bbs tr /\ tr_timestamp_ms tr = t) /\ (forall tr, tr ∈ traces -> b ∈ tr_bbs tr -> t <= tr_timestamp_ms tr)) /\
  (forall b s, b ∈ blocks_at (ts_to_new_covered_bss run) s <-> exists t, covered_bbs run !! b = Some t /\ in_s t = s) /\
  sum_list (coverage_over_time run).*2 = size (dom (covered_bbs run)).
Proof.
  intros E. split; [|split].
  - intros b t. rewrite covered_smallest, (run_smallest traces run b t E). unfold smallest. setoid_rewrite elem_of_sightings. naive_solver.
  - intros b s. apply new_at.
  - unfold coverage_over_time. rewrite csv_sum. apply disjoint_sizes.
    + apply sorted_keys_NoDup.
    + intros b s s' X X' H1%elem_of_sorted_entries H2%elem_of_sorted_entries Hb Hb'.
      assert (Hs : b ∈ blocks_at (ts_to_new_covered_bss run) s) by (unfold blocks_at; by rewrite H1).
      assert (Hs' : b ∈ blocks_at (ts_to_new_covered_bss run) s') by (unfold blocks_at; by rewrite H2).
      apply new_at in Hs as (t & Et & <-), Hs' as (t' & Et' & <-). congruence.
    + intros b. rewrite elem_of_dom. split.
      * intros [t Et]. assert (Hs : b ∈ blocks_at (ts_to_new_covered_bss run) (in_s t)) by (apply new_at; eauto).
        unfold blocks_at in Hs. destruct (ts_to_new_covered_bss run !! in_s t) as [X|] eqn:EX; cbn in Hs; [|set_solver].
        exists (in_s t), X. by rewrite elem_of_sorted_entries.
      * intros (s & X & HX%elem_of_sorted_entries & Hb). assert (Hs : b ∈ blocks_at (ts_to_new_covered_bss run) s) by (unfold blocks_at; by rewrite HX).
        apply new_at in Hs as (t & -> & _). by eexists.
Qed.

Definition demo_block (n : Z) : BasicBlock := mk_bb "/bin/true" n.

Lemma coverage_reports_agree_witness :
  exists run, Run_from_traces [mk_block_trace 2500 [demo_block 1; demo_block 2]; mk_block_trace 900 [demo_block 1]; mk_block_trace 3000 [demo_block 1]] = Some run /\
    length run = 2%nat /\ coverage_over_time run = [(0, 1%nat); (2, 1%nat)] /\ size (dom (covered_bbs run)) = 2%nat.
Proof.
  eexists. split; [reflexivity|]. split; [by vm_compute|]. split; [by vm_compute|].
  destruct (coverage_reports_agree [mk_block_trace 2500 [demo_block 1; demo_block 2]; mk_block_trace 900 [demo_block 1]; mk_block_trace 3000 [demo_block 1]] _ eq_refl)
    as (_ & _ & <-). by vm_compute.
Defined.
End Blocks.

(** ** Branches over time *)

Module Branches.

Record CoveredBranch := mk_branch { br_start_line : Z; br_start_col : Z; br_file_id : Z; br_false_branch : bool }.
#[export] Instance CoveredBranch_eq_dec : EqDecision CoveredBranch.
Proof. solve_decision. Defined.
#[export] Program Instance CoveredBranch_countable : Countable CoveredBranch :=
  inj_countable (fun b => (br_start_line b, br_start_col b, br_file_id b, br_false_branch b))
    (fun '(l, c, f, b) => Some (mk_branch l c f b)) _.
Next Obligation. by intros []. Qed.

(** [FILE_TO_ID_MAPPING] and [NEXT_FILE_ID] *)
Record FileIds := mk_file_ids { fi_mapping : gmap string Z; fi_next : Z }.
Definition FileIds_init : FileIds := mk_file_ids ∅ 0.

(** [get_global_file_id] under the read lock, and under the write lock. *)
Definition read_file_id (ids : FileIds) (file_path : string) : option Z := fi_mapping ids !! file_path.
Definition write_file_id (ids : FileIds) (file_path : string) : Z * FileIds :=
  match fi_mapping ids !! file_path with
  | Some id => (id, ids)
  | None => (fi_next ids, mk_file_ids (<[file_path := fi_next ids]> (fi_mapping ids)) ((fi_next ids + 1) mod 2 ^ 32))
  end.
Definition get_global_file_id (ids : FileIds) (file_path : string) : Z * FileIds :=
  match read_file_id ids file_path with
  | Some id => (id, ids)
  | None => write_file_id ids file_path
  end.

(** The part of the export that is read. *)
Record ReportBranch := mk_report_branch {
  rb_line_start : Z; rb_column_start : Z; rb_file_id : nat; rb_execution_count : Z; rb_false_execution_count : Z;
}.
Record ReportFunction := mk_report_function { rf_filenames : list string; rf_branches : list ReportBranch }.

(** [try_into().unwrap()] *)
Definition narrow (w v : Z) : outcome Z := if (0 <=? v) && (v <? 2 ^ w) then Ret v else Panic.

Definition convert_branch (filenames : list string) (branch : ReportBranch) (acc : gset CoveredBranch * FileIds) : outcome (gset CoveredBranch * FileIds) :=
  let (branches, ids) := acc in
  file_path ← unwrap (filenames !! rb_file_id branch);
  let (global_file_id, ids) := get_global_file_id ids file_path in
  start_line ← narrow 32 (rb_line_start branch);
  start_col ← narrow 16 (rb_column_start branch);
  let branches := if 0 <? rb_execution_count branch then {[ mk_branch start_line start_col global_file_id false ]} ∪ branches else branches in
  let branches := if 0 <? rb_false_execution_count branch then {[ mk_branch start_line start_col global_file_id true ]} ∪ branches else branches in
  mret (branches, ids).

Fixpoint convert_branches (filenames : list string) (l : list ReportBranch) (acc : gset CoveredBranch * FileIds) : outcome (gset CoveredBranch * FileIds) :=
  match l with
  | [] => mret acc
  | branch :: l => acc ← convert_branch filenames branch acc; convert_branches filenames l acc
  end.

Fixpoint convert_functions (l : list ReportFunction) (acc : gset CoveredBranch * FileIds) : outcome (gset CoveredBranch * FileIds) :=
  match l with
  | [] => mret acc
  | f :: l => acc ← convert_branches (rf_filenames f) (rf_branches f) acc; convert_functions l acc
  end.

(** [data]: the first one is used. *)
Definition convert_json_to_covered_branches (ids : FileIds) (data : list (list ReportFunction)) : outcome (gset CoveredBranch * FileIds) :=
  functions ← unwrap (data !! 0%nat); convert_functions functions (∅, ids).

(** The reports of all files: each adds its branches to those of its timestamp. *)
Definition add_report (m : gmap Z (gset CoveredBranch)) (ts : Z) (branches : gset CoveredBranch) : gmap Z (gset CoveredBranch) :=
  <[ts := default ∅ (m !! ts) ∪ branches]> m.

(** [for ts in 0..=max_ts]: the number of branches seen so far, where it grew. *)
Definition count_step (m : gmap Z (gset CoveredBranch)) (acc : gset CoveredBranch * gmap Z Z) (ts : Z) : gset CoveredBranch * gmap Z Z :=
  let (seen_branches, cnt) := acc in
  match m !! ts with
  | Some branches =>
      let seen := seen_branches ∪ branches in
      (seen, if bool_decide (size seen_branches <> size seen) then <[ts := Z.of_nat (size seen)]> cnt else cnt)
  | None => acc
  end.

Definition max_key (m : gmap Z (gset CoveredBranch)) : Z := foldr Z.max 0 (map_to_list m).*1.

Definition count_over_time (m : gmap Z (gset CoveredBranch)) : outcome (gmap Z Z) :=
  if bool_decide (m = ∅) then Panic
  else Ret (foldl (count_step m) (∅, ∅) (seqZ 0 (max_key m + 1))).2.

(** *** Counting *)

(** Everything up to a timestamp. *)
Definition seen_until (m : gmap Z (gset CoveredBranch)) (ts : Z) : gset CoveredBranch :=
  ⋃ ((fun t => default ∅ (m !! t)) <$> seqZ 0 ts).

Lemma seen_until_step m ts : 0 <= ts -> seen_until m (ts + 1) = seen_until m ts ∪ default ∅ (m !! ts).
Proof.
  intros Hts. unfold seen_until. replace (ts + 1) with (ts + 1) by lia. rewrite seqZ_app by lia. cbn. rewrite fmap_app, union_list_app_L. cbn. set_solver.
Qed.

Lemma elem_of_seen_until m ts b : b ∈ seen_until m ts <-> exists t, 0 <= t < ts /\ b ∈ (default ∅ (m !! t) : gset CoveredBranch).
Proof.
  unfold seen_until. rewrite elem_of_union_list. split.
  - intros (X & HX & Hb). apply list_elem_of_fmap in HX as (t & -> & Ht%elem_of_seqZ). exists t. split; [lia|done].
  - intros (t & Ht & Hb). exists (default ∅ (m !! t)). split; [|done]. apply list_elem_of_fmap. exists t. split; [done|]. apply elem_of_seqZ. lia.
Qed.

Lemma count_steps m n :
  let r := foldl (count_step m) (∅, ∅) (seqZ 0 (Z.of_nat n)) in
  r.1 = seen_until m (Z.of_nat n) /\
  forall ts c, r.2 !! ts = Some c <->
    0 <= ts < Z.of_nat n /\ c = Z.of_nat (size (seen_until m (ts + 1))) /\ (size (seen_until m ts) < size (seen_until m (ts + 1)))%nat.
Proof.
  induction n as [|n IH]; cbn zeta in *.
  { change (seqZ 0 (Z.of_nat 0)) with (@nil Z). cbn [foldl fst snd]. split; [done|]. intros ts c. rewrite lookup_empty. split; [done|lia]. }
  rewrite seqZ_S, foldl_app, Nat2Z.inj_succ. cbn [foldl]. rewrite Z.add_0_l. set (r := foldl _ _ _) in *. destruct r as [seen cnt].
  cbn [fst snd] in IH. destruct IH as [-> Hcnt]. set (k := Z.of_nat n) in *. assert (Hk : 0 <= k) by lia.
  pose proof (seen_until_step m k Hk) as Hstep. unfold count_step.
  assert (Hkeep : forall ts c, ts <> k -> cnt !! ts = Some c <->
    0 <= ts < Z.succ k /\ c = Z.of_nat (size (seen_until m (ts + 1))) /\ (size (seen_until m ts) < size (seen_until m (ts + 1)))%nat).
  { intros ts c Hne. rewrite Hcnt. split; intros (H1 & H2); (split; [lia|done]). }
  assert (Hnone : cnt !! k = None).
  { destruct (cnt !! k) as [c|] eqn:E; [|done]. apply Hcnt in E as [? _]. lia. }
  destruct (m !! k) as [X|] eqn:EX; cbn [default from_option id fst snd] in *.
  - change (default ∅ (Some X)) with X in Hstep. split; [by rewrite <- Hstep|]. intros ts c. rewrite <- Hstep.
    destruct (decide (ts = k)) as [->|Hne].
    + assert (Hle : (size (seen_until m k) <= size (seen_until m (k + 1)))%nat) by (rewrite Hstep; apply subseteq_size; set_solver).
      case_bool_decide as Hd.
      * rewrite lookup_insert_eq. split; [intros [= <-]; split; [lia|]; split; [done|lia]|]. by intros (_ & -> & _).
      * rewrite Hnone. split; [done|]. intros (_ & _ & Hlt). lia.
    + case_bool_decide; rewrite ?lookup_insert_ne by done; by apply Hkeep.
  - change (default ∅ None) with (∅ : gset CoveredBranch) in Hstep. rewrite union_empty_r_L in Hstep. split; [by rewrite <- Hstep|].
    intros ts c. destruct (decide (ts = k)) as [->|Hne]; [|by apply Hkeep]. rewrite Hnone, Hstep. split; [done|]. intros (_ & _ & Hlt). lia.
Qed.

Lemma max_key_spec m k X : m !! k = Some X -> k <= max_key m.
Proof.
  intros E%elem_of_map_to_list. unfold max_key. apply (list_elem_of_fmap_2 fst) in E. cbn in E. induction (map_to_list m).*1 as [|x l IH]; [by apply not_elem_of_nil in E|].
  cbn. apply elem_of_cons in E as [->|E]; [lia|]. specialize (IH E). lia.
Qed.
Lemma max_key_pos m : 0 <= max_key m.
Proof. unfold max_key. induction (map_to_list m).*1 as [|x l IH]; cbn; lia. Qed.

(** All branches. *)
Definition all_branches (m : gmap Z (gset CoveredBranch)) : gset CoveredBranch := seen_until m (max_key m + 1).

Lemma seen_mono m a b : a <= b -> seen_until m a ⊆ seen_until m b.
Proof. intros Hab x (t & Ht & Hx)%elem_of_seen_until. apply elem_of_seen_until. exists t. split; [lia|done]. Qed.

(** The number grows when there is a new branch. *)
Lemma grows_iff m ts :
  0 <= ts -> (size (seen_until m ts) < size (seen_until m (ts + 1)))%nat <-> exists b X, m !! ts = Some X /\ b ∈ X /\ b ∉ seen_until m ts.
Proof.
  intros Hts. pose proof (seen_until_step m ts Hts) as Hstep. split.
  - intros Hlt. destruct (decide (seen_until m (ts + 1) ⊆ seen_until m ts)) as [Hsub|Hsub]; [apply subseteq_size in Hsub; lia|].
    destruct (m !! ts) as [X|]; [|exfalso; apply Hsub; rewrite Hstep; cbn; set_solver]. change (default ∅ (Some X)) with X in Hstep.
    destruct (set_choose_or_empty (X ∖ seen_until m ts)) as [[b Hb]|He]; [exists b, X; set_solver|].
    exfalso. apply Hsub. rewrite Hstep. set_solver.
  - intros (b & X & EX & Hb & Hn). rewrite EX in Hstep. change (default ∅ (Some X)) with X in Hstep. apply subset_size. rewrite Hstep. set_solver.
Qed.

Lemma last_growth m (n : nat) :
  seen_until m (Z.of_nat n) <> ∅ -> exists ts, 0 <= ts < Z.of_nat n /\ seen_until m (ts + 1) = seen_until m (Z.of_nat n) /\
    (size (seen_until m ts) < size (seen_until m (ts + 1)))%nat.
Proof.
  induction n as [|n IH]; intros Hne; [done|].
  assert (Hsub : seen_until m (Z.of_nat n) ⊆ seen_until m (Z.of_nat (S n))) by (apply seen_mono; lia).
  destruct (decide (seen_until m (Z.of_nat n) = seen_until m (Z.of_nat (S n)))) as [E|E].
  - destruct IH as (ts & Hts & H1 & H2); [by rewrite E|]. exists ts. split; [lia|]. split; [congruence|done].
  - exists (Z.of_nat n). replace (Z.of_nat n + 1) with (Z.of_nat (S n)) by lia. split; [lia|]. split; [done|]. apply subset_size. set_solver.
Qed.

(** The report of the number of branches over time.  For timestamps that are not negative, and at
    least one report, [results/coverage.json] has an entry for a timestamp exactly when the reports of this
    timestamp have a branch that no earlier one has, and the entry is the number of branches
    of all reports up to then; so the entries grow with time and the last one counts
    every covered branch. *)
Theorem branch_counts_over_time m :
  m <> ∅ -> (forall k, is_Some (m !! k) -> 0 <= k) ->
  exists cnt, count_over_time m = Ret cnt /\
    (forall ts c, cnt !! ts = Some c <->
       c = Z.of_nat (size (seen_until m (ts + 1))) /\ exists b X, m !! ts = Some X /\ b ∈ X /\ forall t Y, t < ts -> m !! t = Some Y -> b ∉ Y) /\
    (forall ts ts' c c', cnt !! ts = Some c -> cnt !! ts' = Some c' -> ts < ts' -> c < c') /\
    (forall b, b ∈ all_branches m <-> exists t X, m !! t = Some X /\ b ∈ X) /\
    (all_branches m <> ∅ -> exists ts, cnt !! ts = Some (Z.of_nat (size (all_branches m)))).
Proof.
  intros Hne Hpos. unfold count_over_time. rewrite bool_decide_false by done. pose proof (max_key_pos m) as Hmp.
  destruct (count_steps m (Z.to_nat (max_key m + 1))) as [_ Hcnt]. rewrite Z2Nat.id in Hcnt by lia. eexists. split; [reflexivity|].
  set (cnt := (foldl _ _ _).2) in *.
  assert (Hnew : forall b ts, b ∉ seen_until m ts <-> forall t Y, t < ts -> m !! t = Some Y -> b ∉ Y).
  { intros b ts. rewrite elem_of_seen_until. split.
    - intros Hn t Y Ht EY Hb. apply Hn. exists t. rewrite EY. split; [|done]. split; [by apply Hpos; eexists|done].
    - intros Hall (t & Ht & Hb). destruct (m !! t) as [Y|] eqn:EY; [|by apply elem_of_empty in Hb]. by apply (Hall t Y (proj2 Ht) EY). }
  split; [|split; [|split]].
  - intros ts c. rewrite Hcnt. split.
    + intros (Hts & -> & Hlt). split; [done|]. apply grows_iff in Hlt as (b & X & EX & Hb & Hn); [|lia]. rewrite Hnew in Hn. by exists b, X.
    + intros (-> & b & X & EX & Hb & Hn). rewrite <- Hnew in Hn. assert (0 <= ts) by (apply Hpos; by eexists). pose proof (max_key_spec m ts X EX).
      split; [lia|]. split; [done|]. apply grows_iff; [done|]. by exists b, X.
  - intros ts ts' c c' (_ & -> & _)%Hcnt (_ & -> & Hlt)%Hcnt Htt.
    assert (Hsub : seen_until m (ts + 1) ⊆ seen_until m ts') by (apply seen_mono; lia). apply subseteq_size in Hsub. lia.
  - intros b. unfold all_branches. rewrite elem_of_seen_until. split.
    + intros (t & Ht & Hb). destruct (m !! t) as [X|] eqn:EX; [by exists t, X|by apply elem_of_empty in Hb].
    + intros (t & X & EX & Hb). exists t. rewrite EX. split; [|done]. split; [by apply Hpos; eexists|]. pose proof (max_key_spec m t X EX). lia.
  - intros Hall. unfold all_branches in *. replace (max_key m + 1) with (Z.of_nat (Z.to_nat (max_key m + 1))) in Hall |- * by lia.
    destruct (last_growth m _ Hall) as (ts & Hts & E & Hlt). exists ts. apply Hcnt. rewrite <- E. split; [lia|done].
Qed.

(** *** Identifiers of files *)

(** Threads that look up files: each reads the mapping, and those that found nothing take the
    write lock later.  [done] are the results. *)
Record Threads := mk_threads { th_ids : FileIds; th_waiting : list string; th_done : list (string * Z) }.

Inductive thread_step : Threads -> Threads -> Prop :=
  | step_hit st file_path id :
      read_file_id (th_ids st) file_path = Some id ->
      thread_step st (mk_threads (th_ids st) (th_waiting st) ((file_path, id) :: th_done st))
  | step_miss st file_path :
      read_file_id (th_ids st) file_path = None ->
      thread_step st (mk_threads (th_ids st) (file_path :: th_waiting st) (th_done st))
  | step_write st before file_path after :
      th_waiting st = before ++ file_path :: after ->
      thread_step st (mk_threads (write_file_id (th_ids st) file_path).2 (before ++ after)
                        ((file_path, (write_file_id (th_ids st) file_path).1) :: th_done st)).

(** Ids are given to one file each, and every result is the id of the file. *)
Record ids_ok (st : Threads) : Prop := {
  id_size : fi_next (th_ids st) = Z.of_nat (size (fi_mapping (th_ids st)));
  id_bound : forall f i, fi_mapping (th_ids st) !! f = Some i -> 0 <= i < fi_next (th_ids st);
  id_inj : forall f g i, fi_mapping (th_ids st) !! f = Some i -> fi_mapping (th_ids st) !! g = Some i -> f = g;
  id_done : forall f i, (f, i) ∈ th_done st -> fi_mapping (th_ids st) !! f = Some i;
}.

Lemma write_file_id_spec ids f :
  Z.of_nat (size (fi_mapping ids)) < 2 ^ 32 - 1 -> fi_next ids = Z.of_nat (size (fi_mapping ids)) ->
  let r := write_file_id ids f in
  fi_mapping r.2 !! f = Some r.1 /\
  ((fi_mapping ids !! f = Some r.1 /\ r.2 = ids) \/
   (fi_mapping ids !! f = None /\ r.1 = fi_next ids /\ fi_mapping r.2 = <[f := fi_next ids]> (fi_mapping ids) /\ fi_next r.2 = fi_next ids + 1)).
Proof.
  intros Hsz Hn. unfold write_file_id. destruct (fi_mapping ids !! f) as [i|] eqn:E; cbn; [by auto|].
  split; [apply lookup_insert_eq|]. right. split_and!; try done. rewrite Z.mod_small; lia.
Qed.

Lemma thread_step_ok st st' : Z.of_nat (size (fi_mapping (th_ids st))) < 2 ^ 32 - 1 -> thread_step st st' -> ids_ok st -> ids_ok st'.
Proof.
  intros Hsz Hstep [H1 H2 H3 H4]. destruct Hstep as [st f i Hr|st f Hr|st before f after Hw]; [split; cbn; try done| |].
  - intros g j [[= -> ->]|Hin]%elem_of_cons; [exact Hr|auto].
  - by split.
  - destruct (write_file_id_spec (th_ids st) f Hsz H1) as [Hf [[Hold Eids]|(Hnone & Er & Emap & Enext)]].
    + split; cbn; rewrite ?Eids; try done. intros g j [[= -> ->]|Hin]%elem_of_cons; [done|auto].
    + assert (Hbound : forall g j, fi_mapping (th_ids st) !! g = Some j -> j <> fi_next (th_ids st)) by (intros g j Hg; apply H2 in Hg; lia).
      split; cbn; rewrite ?Emap, ?Enext, ?Er.
      * rewrite map_size_insert_None by done. lia.
      * intros g j. destruct (decide (f = g)) as [<-|Hne]; [rewrite lookup_insert_eq; intros [= <-]; lia|rewrite lookup_insert_ne by done].
        intros Hg. apply H2 in Hg. lia.
      * intros g h j. destruct (decide (f = g)) as [<-|Hg], (decide (f = h)) as [<-|Hh]; rewrite ?lookup_insert_eq, ?lookup_insert_ne by done;
          [done|intros [= <-] Hj; by apply Hbound in Hj|intros Hj [= <-]; by apply Hbound in Hj|eauto].
      * intros g j [[= -> ->]|Hin]%elem_of_cons; [apply lookup_insert_eq|]. destruct (decide (f = g)) as [<-|Hne]; [|by rewrite lookup_insert_ne; auto].
        apply H4 in Hin. congruence.
Qed.

Definition Threads_init : Threads := mk_threads FileIds_init [] [].

Lemma step_size st st' : thread_step st st' -> (size (fi_mapping (th_ids st)) <= size (fi_mapping (th_ids st')))%nat.
Proof.
  destruct 1 as [st f i Hr|st f Hr|st before f after Hw]; cbn; [lia|lia|]. unfold write_file_id.
  destruct (fi_mapping (th_ids st) !! f) eqn:E; cbn; [lia|]. rewrite map_size_insert_None by done. lia.
Qed.

Lemma threads_reach_ok st : rtc thread_step Threads_init st -> Z.of_nat (size (fi_mapping (th_ids st))) < 2 ^ 32 - 1 -> ids_ok st.
Proof.
  revert st. apply (rtc_ind_r (fun st => Z.of_nat (size (fi_mapping (th_ids st))) < 2 ^ 32 - 1 -> ids_ok st)); [intros Hsz|intros st st' _ Hstep IH Hsz].
  - split; cbn; [by rewrite map_size_empty|intros f i; by rewrite lookup_empty|intros f g i; by rewrite lookup_empty|intros f i Hin; by apply not_elem_of_nil in Hin].
  - pose proof (step_size _ _ Hstep). apply (thread_step_ok st); [lia|done|apply IH; lia].
Qed.

(** Threads agree on the ids of files.  However the threads that convert reports interleave in
    [get_global_file_id], between the look-up under the read lock and the insertion under the write
    lock included, two calls get the same id if and only if they are for the same file, as long
    as there are fewer than 2^32 - 1 files. *)
Theorem file_ids_agree st f g i j :
  rtc thread_step Threads_init st -> Z.of_nat (size (fi_mapping (th_ids st))) < 2 ^ 32 - 1 ->
  (f, i) ∈ th_done st -> (g, j) ∈ th_done st -> f = g <-> i = j.
Proof.
  intros Hr Hsz Hf Hg. destruct (threads_reach_ok st Hr Hsz) as [_ _ Hinj Hdone]. apply Hdone in Hf, Hg. split; [intros ->; congruence|].
  intros ->. by eapply Hinj.
Qed.

(** Both threads miss the file before one of them inserts it. *)
Definition demo_threads : Threads :=
  mk_threads (mk_file_ids (<["a.c"%string := 0]> ∅) 1) [] [("a.c"%string, 0); ("a.c"%string, 0)].

Lemma demo_threads_reached : rtc thread_step Threads_init demo_threads.
Proof.
  eapply rtc_l; [by apply (step_miss _ "a.c")|]. eapply rtc_l; [by apply (step_miss _ "a.c")|].
  eapply rtc_l; [by apply (step_write _ [] "a.c" ["a.c"%string])|]. eapply rtc_l; [by apply (step_write _ [] "a.c" [])|]. apply rtc_refl.
Qed.

Definition demo_branch (n : Z) : CoveredBranch := mk_branch n 1 0 false.
Definition demo_reports : gmap Z (gset CoveredBranch) := <[2 := {[ demo_branch 1; demo_branch 2 ]}]> (<[3 := {[ demo_branch 1 ]}]> (<[5 := {[ demo_branch 9 ]}]> ∅)).
End Branches.
