(* ===== verification/Jail.v ===== *)
(** * Privileges and the jail of the source

    Models [lib/jail/src/jail.rs], the checks of [scheduler/src/checks.rs] and the set-up of the
    jail in [scheduler/src/cli/fuzztruction.rs].  A process has the user and group ids of Linux;
    [setuid] and the like follow [credentials(7)] with [CAP_SETUID], [CAP_SETGID] and
    [CAP_SYS_ADMIN] held by processes with the effective user id 0.  What files, mounts and
    directories do is the record [Host].  The sets of paths of the builder are finite sets. *)

From Stdlib Require Import Ascii.
From stdpp Require Import pretty.
From S2P Require Import Prelude Effects Phases Config ConfigTheorems CoverageTrace.

(** ** Processes *)

Record Creds := mk_creds { ruid : Z; euid : Z; suid : Z; rgid : Z; egid : Z; sgid : Z; groups : list Z }.

Record Process := mk_process {
  ps_creds : Creds;
  (** the process has a mount namespace of its own, with these mounts, the newest first *)
  ps_own_mounts : bool;
  ps_mounts : list (list string);
  ps_root : string;
  ps_cwd : string;
  ps_umask : Z;
  (** [RLIMIT_NOFILE], soft and hard *)
  ps_nofile : Z * Z;
}.

Inductive JailError := OsError | MountFailed (args : list string) | NotExisting (p : string) | ChecksFailed | MissingEnv (name : string).

Definition PM (A : Type) : Type := eff Process JailError A.
Definition ps_set_creds c p := mk_process c (ps_own_mounts p) (ps_mounts p) (ps_root p) (ps_cwd p) (ps_umask p) (ps_nofile p).
Definition ps_unshared p := mk_process (ps_creds p) true (ps_mounts p) (ps_root p) (ps_cwd p) (ps_umask p) (ps_nofile p).
Definition ps_mounted args p := mk_process (ps_creds p) (ps_own_mounts p) (args :: ps_mounts p) (ps_root p) (ps_cwd p) (ps_umask p) (ps_nofile p).
Definition ps_set_root r p := mk_process (ps_creds p) (ps_own_mounts p) (ps_mounts p) r (ps_cwd p) (ps_umask p) (ps_nofile p).
Definition ps_set_cwd d p := mk_process (ps_creds p) (ps_own_mounts p) (ps_mounts p) (ps_root p) d (ps_umask p) (ps_nofile p).
Definition ps_set_umask u p := mk_process (ps_creds p) (ps_own_mounts p) (ps_mounts p) (ps_root p) (ps_cwd p) u (ps_nofile p).
Definition ps_set_nofile l p := mk_process (ps_creds p) (ps_own_mounts p) (ps_mounts p) (ps_root p) (ps_cwd p) (ps_umask p) l.

(** The effective user id 0 has the capabilities. *)
Definition privileged (c : Creds) : bool := euid c =? 0.

(** Calls that return 0 or fail; a privileged call sets all ids, another one only the effective
    id, to one of the real, effective and saved ids ([setuid] and [setgid]: real and saved). *)
Definition k_setuid (u : Z) (c : Creds) : option Creds :=
  if privileged c then Some (mk_creds u u u (rgid c) (egid c) (sgid c) (groups c))
  else if (u =? ruid c) || (u =? suid c) then Some (mk_creds (ruid c) u (suid c) (rgid c) (egid c) (sgid c) (groups c)) else None.
Definition k_seteuid (u : Z) (c : Creds) : option Creds :=
  if privileged c || (u =? ruid c) || (u =? euid c) || (u =? suid c) then Some (mk_creds (ruid c) u (suid c) (rgid c) (egid c) (sgid c) (groups c)) else None.
Definition k_setgid (g : Z) (c : Creds) : option Creds :=
  if privileged c then Some (mk_creds (ruid c) (euid c) (suid c) g g g (groups c))
  else if (g =? rgid c) || (g =? sgid c) then Some (mk_creds (ruid c) (euid c) (suid c) (rgid c) g (sgid c) (groups c)) else None.
Definition k_setegid (g : Z) (c : Creds) : option Creds :=
  if privileged c || (g =? rgid c) || (g =? egid c) || (g =? sgid c) then Some (mk_creds (ruid c) (euid c) (suid c) (rgid c) g (sgid c) (groups c)) else None.

(** ** The host *)

Record Host := mk_host {
  ho_unshare : bool;
  (** [mount] with these arguments exits with 0 *)
  ho_mount : list string -> bool;
  ho_exists : string -> bool;
  ho_create_dir_all : string -> bool;
  (** a directory with this root *)
  ho_chdir : string -> string -> bool;
  ho_chroot : string -> bool;
  (** the new directory of [tempfile] *)
  ho_tempdir : option string;
  (** [cat /proc/self/mountinfo] runs and prints text *)
  ho_mountinfo : bool;
  (** files of [/proc] and [/sys] *)
  ho_file : string -> option string;
  ho_write_file : string -> string -> bool;
  ho_ldconfig : bool;
  ho_setrlimit : bool;
  (** environment *)
  ho_env : string -> option string;
  (** how many inputs [Input::from_dir] finds *)
  ho_inputs : PathBuf -> result unit nat;
}.

Section jail.
Context (host : Host).

Definition fail_jail {A} (e : JailError) : PM A := of_result (Err e).
Definition require (b : bool) (e : JailError) : PM unit := if b then mret tt else fail_jail e.

(** [wrap_libc] around a call. *)
Definition wrap_libc (call : Creds -> option Creds) : PM unit :=
  c ← get ps_creds;
  match call c with Some c => update (ps_set_creds c) | None => fail_jail OsError end.

(** ** [jail.rs] *)

Record JailBuilder := mk_jail_builder {
  jb_rw_binds : gset string;
  jb_ro_binds : gset string;
  jb_drop_to : option (Z * Z);
  jb_no_random_devices : bool;
}.
Record Jail := mk_jail { ja_builder : JailBuilder; ja_new_root : string }.

Definition JailBuilder_new : JailBuilder := mk_jail_builder ∅ ∅ None false.
Definition bind_rw (p : PathBuf) (b : JailBuilder) := mk_jail_builder ({[path_str p]} ∪ jb_rw_binds b) (jb_ro_binds b) (jb_drop_to b) (jb_no_random_devices b).
Definition bind_ro (p : PathBuf) (b : JailBuilder) := mk_jail_builder (jb_rw_binds b) ({[path_str p]} ∪ jb_ro_binds b) (jb_drop_to b) (jb_no_random_devices b).
Definition builder_drop_privileges (user group : Z) (b : JailBuilder) := mk_jail_builder (jb_rw_binds b) (jb_ro_binds b) (Some (user, group)) (jb_no_random_devices b).
Definition no_random_devices (b : JailBuilder) := mk_jail_builder (jb_rw_binds b) (jb_ro_binds b) (jb_drop_to b) true.
Definition Jail_from_builder (b : JailBuilder) : result JailError Jail :=
  match ho_tempdir host with Some new_root => Ok (mk_jail b new_root) | None => Err OsError end.
Definition build (b : JailBuilder) : result JailError Jail := Jail_from_builder b.

Definition internal_drop_privileges (uid gid : Z) (permanent : bool) : PM unit :=
  if permanent then wrap_libc (k_setgid gid) ;; wrap_libc (k_setuid uid)
  else wrap_libc (k_setegid gid) ;; wrap_libc (k_seteuid uid).
Definition jail_drop_privileges (j : Jail) (permanent : bool) : PM unit :=
  match jb_drop_to (ja_builder j) with Some (uid, gid) => internal_drop_privileges uid gid permanent | None => mret tt end.

(** Calls that need privileges. *)
Definition mount (args : list string) : PM unit :=
  c ← get ps_creds;
  require (privileged c && ho_mount host args) (MountFailed args) ;; update (ps_mounted args).
Definition remount_bind_mount_ro (mount_path : string) : PM unit := mount ["-o"; "remount,ro,bind"; mount_path]%string.
Definition unshare_mounts : PM unit :=
  c ← get ps_creds; require (privileged c && ho_unshare host) OsError ;; update ps_unshared.
Definition chroot (root : string) : PM unit :=
  c ← get ps_creds; require (privileged c && ho_chroot host root) OsError ;; update (ps_set_root root).
Definition set_current_dir (d : string) : PM unit :=
  root ← get ps_root; require (ho_chdir host root d) OsError ;; update (ps_set_cwd d).

Fixpoint each {A} (f : A -> PM unit) (l : list A) : PM unit := match l with [] => mret tt | a :: l => f a ;; each f l end.

Definition default_ro_source_dirs : list string := ["/home/user/fuzztruction"; "/etc/hosts"; "/etc/hostname"; "/etc/resolv.conf"]%string.
Definition eval_result : string := "/home/user/fuzztruction/eval-result".

Definition mount_default_ro (new_root source : string) : PM unit :=
  mount ["--bind"%string; source; new_root +:+ source] ;; remount_bind_mount_ro (new_root +:+ source).
Definition mount_zero (device : string) : PM unit := mount ["-o"%string; "bind"%string; "/dev/zero"%string; "/dev/" +:+ device].
Definition mount_bind (new_root mode p : string) : PM unit :=
  require (ho_exists host p) (NotExisting p) ;;
  let dst_path := new_root +:+ "/" +:+ p in
  require (ho_create_dir_all host dst_path) OsError ;;
  mount ["--bind"%string; "-o"%string; mode; p; dst_path].

Definition enter (j : Jail) : PM unit :=
  let new_root := ja_new_root j in
  unshare_mounts ;;
  mount ["--bind"; "-o"; "-ro"; "/"; new_root]%string ;;
  remount_bind_mount_ro new_root ;;
  each (mount_default_ro new_root) default_ro_source_dirs ;;
  mount ["--bind"%string; eval_result; new_root +:+ eval_result] ;;
  mount ["-o"%string; "bind"%string; "/proc"%string; new_root +:+ "/proc"] ;;
  mount ["-o"%string; "bind"%string; "/sys"%string; new_root +:+ "/sys"] ;;
  mount ["-o"%string; "rbind"%string; "/dev"%string; new_root +:+ "/dev"] ;;
  (if jb_no_random_devices (ja_builder j) then each mount_zero ["hwrng"; "random"; "urandom"]%string else mret tt) ;;
  mount ["-t"%string; "tmpfs"%string; "-o"%string; "noatime,rw"%string; "none"%string; new_root +:+ "/tmp"] ;;
  each (mount_bind new_root "rw") (elements (jb_rw_binds (ja_builder j))) ;;
  each (mount_bind new_root "ro") (elements (jb_ro_binds (ja_builder j))) ;;
  chroot new_root ;;
  set_current_dir "/tmp" ;;
  jail_drop_privileges j true ;;
  lift_outcome (assert_that (ho_mountinfo host)).

(** ** Paths *)

(** The parts of a path; repeated slashes and single dots do not count. *)
Fixpoint split_slash (s : string) : list string :=
  match s with
  | EmptyString => [EmptyString]
  | String c s =>
      if Ascii.eqb c "/" then EmptyString :: split_slash s
      else match split_slash s with [] => [String c EmptyString] | x :: l => String c x :: l end
  end.
Definition parts (s : string) : list string := List.filter (fun x => negb (String.eqb x EmptyString) && negb (String.eqb x ".")) (split_slash s).
Fixpoint strip_list (p l : list string) : option (list string) :=
  match p, l with
  | [], l => Some l
  | a :: p, b :: l => if String.eqb a b then strip_list p l else None
  | _ :: _, [] => None
  end.
(** [Path::strip_prefix] of an absolute path. *)
Definition strip_prefix (prefix p : string) : option string :=
  if String.prefix "/" p then String.concat "/" <$> strip_list (parts prefix) (parts p) else None.
Definition jail_resolve_path_from_child (j : Jail) (p : PathBuf) : PathBuf :=
  match strip_prefix (ja_new_root j) (path_str p) with
  | Some rest => path_push (path "/") rest
  | None => p
  end.

(** ** [checks.rs] *)

(** [trim] *)
Fixpoint trim_end (s : string) : string :=
  match s with
  | EmptyString => EmptyString
  | String c s => match trim_end s with EmptyString => if is_space c then EmptyString else String c EmptyString | t => String c t end
  end.
Definition trim (s : string) : string := trim_end (maybe_spaces s).

(** [parse::<i32>()] *)
Definition parse_i32 (s : string) : option Z :=
  match s with
  | String "-"%char s => match s with String "+"%char _ => None | _ => v ← parse_uint 64 s; if v <=? 2 ^ 31 then Some (- v) else None end
  | _ => v ← parse_uint 64 s; if v <? 2 ^ 31 then Some v else None
  end.

Definition str_contains (entry s : string) : bool := bool_decide (is_Some (search (lit entry) s)).

(** A file that must be there. *)
Definition expect_file (p : string) : PM string := lift_outcome (unwrap (ho_file host p)).
Definition check (b : bool) : PM unit := require b ChecksFailed.

Definition check_core_pattern_is_core : PM unit := content ← expect_file "/proc/sys/kernel/core_pattern"; check (String.eqb (trim content) "core").
Definition check_fs_suid_dumpable : PM unit := content ← expect_file "/proc/sys/fs/suid_dumpable"; check (String.eqb (trim content) "0").

(** [split('\n')] *)
Fixpoint split_lines (s : string) : list string :=
  match s with
  | EmptyString => [EmptyString]
  | String c s =>
      if Ascii.eqb c (ascii_of_nat 10) then EmptyString :: split_lines s
      else match split_lines s with [] => [String c EmptyString] | x :: l => String c x :: l end
  end.
Definition check_if_tmp_is_tmpfs : PM unit :=
  content ← expect_file "/proc/mounts";
  match List.filter (str_contains "tmpfs /tmp ") (split_lines content) with
  | [line] => check (str_contains "tmpfs" line)
  | _ => fail_jail ChecksFailed
  end.
Definition check_if_agent_is_in_path : PM unit := check (ho_ldconfig host).
Definition check_scaling_governor : PM unit :=
  match ho_file host "/sys/devices/system/cpu/cpu0/cpufreq/scaling_governor" with
  | Some governor => check (String.eqb (trim governor) "performance")
  | None => mret tt
  end.
Definition check_perf_event_paranoid : PM unit :=
  content ← expect_file "/proc/sys/kernel/perf_event_paranoid";
  level ← lift_outcome (unwrap (parse_i32 (trim content)));
  check (negb (1 <? level)).
Definition check_file_limit : PM unit :=
  '(soft_limit, hard_limit) ← get ps_nofile;
  if soft_limit <? hard_limit then lift_outcome (assert_that (ho_setrlimit host)) ;; update (ps_set_nofile (hard_limit, hard_limit)) else mret tt.
(** Writing the file needs privileges. *)
Definition check_mqueue_queues_max : PM unit :=
  match ho_file host "/proc/sys/fs/mqueue/queues_max" with
  | None => fail_jail OsError
  | Some content =>
      limit ← lift_outcome (unwrap (parse_uint 64 (trim content)));
      if limit <? 1024 then c ← get ps_creds; lift_outcome (assert_that (privileged c && ho_write_file host "/proc/sys/fs/mqueue/queues_max" "1024")) else mret tt
  end.

Definition check_system : PM unit :=
  check_core_pattern_is_core ;;
  check_fs_suid_dumpable ;;
  check_if_tmp_is_tmpfs ;;
  check_if_agent_is_in_path ;;
  check_scaling_governor ;;
  check_perf_event_paranoid ;;
  check_file_limit ;;
  check_mqueue_queues_max.

Definition check_jail (config : Config) : PM unit :=
  ids ← lift_outcome (jail_uid_gid (c_general config));
  match ids with
  | Some (uid, _) => wrap_libc (k_seteuid 0) ;; wrap_libc (k_seteuid uid)
  | None => mret tt
  end ;;
  wrap_libc (k_setuid 0) ;;
  update (ps_set_umask 0).

Definition check_input_directory (config : Config) : PM unit :=
  match ho_inputs host (ge_input_dir (c_general config)) with
  | Err _ => fail_jail OsError
  | Ok n => check (negb (n =? 0)%nat)
  end.
Definition check_config (config : Config) : PM unit := check_jail config ;; check_input_directory config.

(** ** [fuzztruction.rs] *)

Definition env_var (name : string) : PM string := match ho_env host name with Some v => mret v | None => fail_jail (MissingEnv name) end.
Definition with_jail_ids (config : Config) (uid gid : Z) : Config :=
  let g := c_general config in
  mk_config (mk_general_config (ge_input_dir g) (ge_work_dir g) (ge_tracing_timeout g) (Some uid) (Some gid) (ge_jail_drop_to_sudo_callee g))
    (c_source config) (c_phases config) (c_sink config) (c_sink_cov config) (c_vanilla config) (c_aflnet config) (c_stateafl config) (c_sgfuzz config).
Definition configure_jail (config : Config) : PM Config :=
  if ge_jail_drop_to_sudo_callee (c_general config) then
    uid ← env_var "SUDO_UID";
    gid ← env_var "SUDO_GID";
    uid ← lift_outcome (unwrap (parse_uint 32 uid));
    gid ← lift_outcome (unwrap (parse_uint 32 gid));
    mret (with_jail_ids config uid gid)
  else mret config.

(** The part of [real_main] that prepares the process. *)
Definition prepare_process (config : Config) : PM Config :=
  config ← configure_jail config;
  check_config config ;;
  check_system ;;
  mret config.
End jail.

(** ** What a jail guarantees *)

(** Nothing but mounts is added. *)
Definition only_mounts (p p' : Process) : Prop := exists new,
  p' = mk_process (ps_creds p) (ps_own_mounts p) (new ++ ps_mounts p) (ps_root p) (ps_cwd p) (ps_umask p) (ps_nofile p).
#[export] Instance only_mounts_preorder : PreOrder only_mounts.
Proof.
  split.
  - intros p. exists []. by destruct p.
  - intros p q r [l ->] [l' ->]. exists (l' ++ l). cbn. by rewrite app_assoc.
Qed.
Definition mounting {A} (m : PM A) : Prop := forall p, wlp m (fun _ p' => only_mounts p p') p.

Section mounting.
Context (host : Host).

Lemma mounting_bind {A B} (m : PM A) (f : A -> PM B) : mounting m -> (forall a, mounting (f a)) -> mounting (m ≫= f).
Proof.
  intros Hm Hf p. apply wlp_bind. eapply wlp_mono; [apply Hm|]. intros [a|e] q Hq; [|done]. eapply wlp_mono; [apply Hf|]. intros r q' Hq'. by etrans.
Qed.
Lemma mounting_mount args : mounting (mount host args).
Proof.
  intros p. unfold mount, require, fail_jail. wlp_steps. destruct (_ && _); wlp_steps; [|done]. by exists [args].
Qed.
Lemma mounting_require b e : mounting (require b e).
Proof. intros p. by destruct b; intros r p' [= _ <-]. Qed.
Lemma mounting_ret {A} (a : A) : mounting (mret a).
Proof. by intros p r p' [= _ <-]. Qed.
Lemma mounting_each {A} (f : A -> PM unit) l : (forall a, mounting (f a)) -> mounting (each f l).
Proof. intros Hf. induction l as [|a l IH]; [apply mounting_ret|]. by apply mounting_bind. Qed.
Lemma mounting_bind_mount new_root mode d : mounting (mount_bind host new_root mode d).
Proof. unfold mount_bind. auto using mounting_bind, mounting_require, mounting_mount. Qed.

(** A mount that was made is there, and stays. *)
Lemma mount_made args p : wlp (mount host args) (fun r p' => match r with Ok _ => args ∈ ps_mounts p' | Err _ => True end) p.
Proof. unfold mount, require, fail_jail. wlp_steps. destruct (_ && _); wlp_steps; [|done]. by left. Qed.
Lemma mounts_stay args p p' : only_mounts p p' -> args ∈ ps_mounts p -> args ∈ ps_mounts p'.
Proof. intros [l ->] Hin. apply elem_of_app. by right. Qed.

Definition bind_args (new_root mode d : string) : list string := ["--bind"%string; "-o"%string; mode; d; new_root +:+ "/" +:+ d].
Lemma bind_mount_made new_root mode d p :
  wlp (mount_bind host new_root mode d) (fun r p' => match r with Ok _ => bind_args new_root mode d ∈ ps_mounts p' | Err _ => True end) p.
Proof.
  unfold mount_bind, require, fail_jail. apply wlp_bind. destruct (ho_exists host d); [|by apply wlp_of_result]. apply wlp_ret, wlp_bind.
  destruct (ho_create_dir_all host _); [|by apply wlp_of_result]. apply wlp_ret. apply mount_made.
Qed.
Lemma binds_made new_root mode l p :
  wlp (each (mount_bind host new_root mode) l)
      (fun r p' => only_mounts p p' /\ match r with Ok _ => forall d, d ∈ l -> bind_args new_root mode d ∈ ps_mounts p' | Err _ => True end) p.
Proof.
  revert p. induction l as [|d l IH]; intros p; cbn [each]; [apply wlp_ret; split; [done|]; by intros d Hd%elem_of_nil|].
  apply wlp_bind. intros r q E. pose proof (mounting_bind_mount new_root mode d p r q E) as Hq. pose proof (bind_mount_made new_root mode d p r q E) as Hd.
  destruct r as [[]|e]; [|done]. eapply wlp_mono; [apply IH|]. intros r q' [Hq' Hl]. split; [by etrans|]. destruct r; [|done].
  intros d' [->|Hd']%elem_of_cons; [by eapply mounts_stay|by apply Hl].
Qed.
End mounting.

Section enter.
Context (host : Host) (j : Jail).
#[local] Abbreviation new_root := (ja_new_root j).
#[local] Abbreviation drop_to := (jb_drop_to (ja_builder j)).

(** What is left of the credentials. *)
Definition dropped (target : option (Z * Z)) (c : Creds) : Creds :=
  match target with Some (u, g) => mk_creds u u u g g g (groups c) | None => c end.

Definition entered (p : Process) (r : result JailError unit) (p' : Process) : Prop :=
  match r with
  | Ok _ =>
      ps_own_mounts p' = true /\ ps_root p' = new_root /\ ps_cwd p' = "/tmp"%string /\ ps_creds p' = dropped drop_to (ps_creds p) /\
      (forall d, d ∈ jb_rw_binds (ja_builder j) -> bind_args new_root "rw" d ∈ ps_mounts p') /\
      (forall d, d ∈ jb_ro_binds (ja_builder j) -> bind_args new_root "ro" d ∈ ps_mounts p')
  | Err _ => ps_creds p' = ps_creds p
  end.

Lemma wlp_mounting {A B} p0 (m : PM A) (f : A -> PM B) Q p :
  only_mounts p0 p -> mounting m -> (forall e q, only_mounts p0 q -> Q (Err e) q) -> (forall a q, only_mounts p0 q -> wlp (f a) Q q) -> wlp (m ≫= f) Q p.
Proof.
  intros Hp Hm He Hf. apply wlp_bind. eapply wlp_mono; [apply Hm|]. intros [a|e] q Hq; [apply Hf|apply He]; by etrans.
Qed.
Lemma mounting_remount d : mounting (remount_bind_mount_ro host d).
Proof. apply mounting_mount. Qed.
Lemma mounting_default_ro d : mounting (mount_default_ro host new_root d).
Proof. unfold mount_default_ro, remount_bind_mount_ro. auto using mounting_bind, mounting_mount. Qed.
Lemma mounting_zero b : mounting (if b : bool then each (mount_zero host) ["hwrng"; "random"; "urandom"]%string else mret tt).
Proof. destruct b; [|apply mounting_ret]. apply mounting_each. intros d. apply mounting_mount. Qed.

(** The end of [enter], when all mounts are made. *)
Lemma switch_root p :
  privileged (ps_creds p) = true ->
  wlp (chroot host new_root ;; set_current_dir host "/tmp" ;; jail_drop_privileges j true ;; lift_outcome (assert_that (ho_mountinfo host)))
      (fun r p' => ps_own_mounts p' = ps_own_mounts p /\ ps_mounts p' = ps_mounts p /\
         match r with Ok _ => ps_root p' = new_root /\ ps_cwd p' = "/tmp"%string /\ ps_creds p' = dropped drop_to (ps_creds p) | Err _ => ps_creds p' = ps_creds p end) p.
Proof.
  intros Hp. unfold chroot, set_current_dir, require, fail_jail. wlp_steps. rewrite Hp. cbn [andb]. destruct (ho_chroot host _); wlp_steps; [|done].
  destruct (ho_chdir host _ _); wlp_steps; [|done]. unfold jail_drop_privileges, dropped. destruct drop_to as [[u g]|].
  - unfold internal_drop_privileges, wrap_libc. wlp_steps. unfold k_setgid. cbn [ps_creds ps_set_cwd ps_set_root]. rewrite Hp. wlp_steps.
    unfold k_setuid. cbn [ps_creds ps_set_creds ps_set_cwd ps_set_root]. change (privileged _) with (privileged (ps_creds p)). rewrite Hp. wlp_steps.
    apply wlp_lift. done.
  - wlp_steps. apply wlp_lift. done.
Qed.

Lemma enter_spec p : privileged (ps_creds p) = true -> wlp (enter host j) (entered p) p.
Proof.
  intros Hp. unfold enter. apply wlp_bind. unfold unshare_mounts, require, fail_jail. apply wlp_bind, wlp_get. rewrite Hp. cbn [andb].
  destruct (ho_unshare host); [|by apply wlp_of_result]. apply wlp_bind, wlp_ret, wlp_update. cbv beta iota.
  set (p0 := ps_unshared p). assert (H0 : only_mounts p0 p0) by done.
  assert (He : forall e q, only_mounts p0 q -> entered p (Err e) q) by (by intros e q [l ->]).
  eapply (wlp_mounting p0); [exact H0|apply mounting_mount|exact He|clear H0; intros _ q H0].
  do 8 (eapply (wlp_mounting p0); [exact H0|solve [auto using mounting_mount, mounting_remount, mounting_each, mounting_default_ro, mounting_zero]|exact He|clear q H0; intros _ q H0]).
  apply wlp_bind. eapply wlp_mono; [apply binds_made|]. intros r q1 [Hq1 Hrw]. destruct r as [[]|e]; [|apply He; by etrans].
  apply wlp_bind. eapply wlp_mono; [apply binds_made|]. intros r q2 [Hq2 Hro]. destruct r as [[]|e]; [|apply He; by do 2 etrans].
  assert (H2 : only_mounts p0 q2) by (by do 2 etrans). destruct H2 as [l E2].
  assert (Ec : ps_creds q2 = ps_creds p) by (by rewrite E2).
  eapply wlp_mono; [apply switch_root; by rewrite Ec|]. intros r p' (Ho & Em & Hr). destruct r as [[]|e]; cbn; [|by rewrite Hr].
  destruct Hr as (Hroot & Hcwd & Hc). rewrite Ho, Em, Hc, Ec, E2. split; [done|]. do 3 (split; [done|]). split.
  - intros d Hd. rewrite <- E2. eapply mounts_stay; [exact Hq2|]. apply Hrw. by apply elem_of_elements.
  - intros d Hd. rewrite <- E2. apply Hro. by apply elem_of_elements.
Qed.

Lemma enter_unprivileged p : privileged (ps_creds p) = false -> enter host j p = Ret (Err OsError, p).
Proof. intros Hp. unfold enter, unshare_mounts, mbind, eff_bind, get. by rewrite Hp. Qed.

Lemma no_way_back u g (c : Creds) :
  u <> 0 -> let c := dropped (Some (u, g)) c in k_setuid 0 c = None /\ k_seteuid 0 c = None /\ privileged c = false.
Proof.
  intros Hu. unfold k_setuid, k_seteuid, privileged, dropped. cbn [euid ruid suid].
  assert ((u =? 0) = false) as -> by lia. by assert ((0 =? u) = false) as -> by lia.
Qed.

(** When the host does what it is asked for. *)
Record HostReady := {
  hr_unshare : ho_unshare host = true;
  hr_mount : forall args, ho_mount host args = true;
  hr_exists : forall d, d ∈ jb_rw_binds (ja_builder j) \/ d ∈ jb_ro_binds (ja_builder j) -> ho_exists host d = true;
  hr_create : forall d, ho_create_dir_all host d = true;
  hr_chroot : ho_chroot host new_root = true;
  hr_tmp : ho_chdir host new_root "/tmp" = true;
  hr_mountinfo : ho_mountinfo host = true;
}.
Context (Hready : HostReady).

Definition succeeds_mounting (m : PM unit) : Prop := forall p, privileged (ps_creds p) = true -> wp m (fun r p' => r = Ok tt /\ only_mounts p p') p.
Lemma succeeds_mount args : succeeds_mounting (mount host args).
Proof. intros p Hp. unfold mount, require. wp_steps. rewrite Hp, (hr_mount Hready). cbn. wp_steps. split; [done|]. by exists [args]. Qed.
Lemma succeeds_then m m' : succeeds_mounting m -> succeeds_mounting m' -> succeeds_mounting (m ;; m').
Proof.
  intros Hm Hm' p Hp. apply wp_bind. eapply wp_mono; [by apply Hm|]. intros r q [-> Hq]. eapply wp_mono; [apply Hm'; destruct Hq as [l ->]; exact Hp|].
  intros r q' [-> Hq']. split; [done|by etrans].
Qed.
Lemma succeeds_ret : succeeds_mounting (mret tt).
Proof. by intros p Hp. Qed.
Lemma succeeds_each {A} (f : A -> PM unit) l : (forall a, a ∈ l -> succeeds_mounting (f a)) -> succeeds_mounting (each f l).
Proof.
  induction l as [|a l IH]; intros Hf; [apply succeeds_ret|]. apply succeeds_then; [apply Hf; by left|]. apply IH. intros a' Ha'. apply Hf. by right.
Qed.
Lemma succeeds_bind_mount mode d : d ∈ jb_rw_binds (ja_builder j) \/ d ∈ jb_ro_binds (ja_builder j) -> succeeds_mounting (mount_bind host new_root mode d).
Proof. intros Hd. unfold mount_bind. rewrite (hr_exists Hready d Hd), (hr_create Hready). do 2 (apply succeeds_then; [exact succeeds_ret|]). apply succeeds_mount. Qed.

Lemma wp_succeeds {B} m (f : unit -> PM B) Q p :
  privileged (ps_creds p) = true -> succeeds_mounting m -> (forall q, privileged (ps_creds q) = true -> wp (f tt) Q q) -> wp (m ≫= f) Q p.
Proof. intros Hp Hm Hf. apply wp_bind. eapply wp_mono; [by apply Hm|]. intros r q [-> [l ->]]. by apply Hf. Qed.

Lemma succeeds_default_ro d : succeeds_mounting (mount_default_ro host new_root d).
Proof. apply succeeds_then; apply succeeds_mount. Qed.
Lemma succeeds_zero b : succeeds_mounting (if b : bool then each (mount_zero host) ["hwrng"; "random"; "urandom"]%string else mret tt).
Proof. destruct b; [|apply succeeds_ret]. apply succeeds_each. intros d _. apply succeeds_mount. Qed.

Lemma switch_root_succeeds p :
  privileged (ps_creds p) = true ->
  wp (chroot host new_root ;; set_current_dir host "/tmp" ;; jail_drop_privileges j true ;; lift_outcome (assert_that (ho_mountinfo host))) (fun r _ => r = Ok tt) p.
Proof.
  intros Hp. unfold chroot, set_current_dir, require. wp_steps. rewrite Hp, (hr_chroot Hready). cbn [andb]. wp_steps. cbn [ps_root ps_set_root]. rewrite (hr_tmp Hready). wp_steps.
  rewrite (hr_mountinfo Hready). unfold jail_drop_privileges. destruct drop_to as [[u g]|]; [|by wp_steps].
  unfold internal_drop_privileges, wrap_libc. wp_steps. unfold k_setgid. cbn [ps_creds ps_set_cwd ps_set_root]. rewrite Hp. wp_steps.
  unfold k_setuid. cbn [ps_creds ps_set_creds ps_set_cwd ps_set_root]. change (privileged _) with (privileged (ps_creds p)). rewrite Hp. by wp_steps.
Qed.

Lemma enter_succeeds p : privileged (ps_creds p) = true -> exists p', enter host j p = Ret (Ok tt, p').
Proof.
  intros Hp. cut (wp (enter host j) (fun r _ => r = Ok tt) p); [intros (r & p' & E & ->)%wp_result; by exists p'|].
  unfold enter. apply wp_bind. unfold unshare_mounts, require. apply wp_bind. change (wp (get ps_creds) ?Q p) with (Q (Ok (ps_creds p)) p). cbv beta iota.
  rewrite Hp, (hr_unshare Hready). cbn [andb]. apply wp_bind. change (wp (mret tt) ?Q p) with (Q (Ok tt) p). cbv beta iota.
  change (wp (update ps_unshared) ?Q p) with (Q (Ok tt) (ps_unshared p)). cbv beta iota.
  apply wp_succeeds; [exact Hp|apply succeeds_mount|intros q Hq].
  do 8 (apply wp_succeeds; [exact Hq|first [apply succeeds_mount|apply succeeds_zero|apply succeeds_each; intros; apply succeeds_default_ro]|clear q Hq; intros q Hq]).
  do 2 (apply wp_succeeds; [exact Hq|apply succeeds_each; intros d Hd%elem_of_elements; apply succeeds_bind_mount; auto|clear q Hq; intros q Hq]).
  by apply switch_root_succeeds.
Qed.
End enter.

(** ** The checks *)

(** The process may take the user id 0. *)
Definition may_be_root (c : Creds) : bool := privileged c || (0 =? ruid c) || (0 =? suid c).

Lemma setuid_root c : may_be_root c = true -> exists c', k_setuid 0 c = Some c' /\ euid c' = 0 /\ groups c' = groups c.
Proof.
  unfold may_be_root, k_setuid. destruct (privileged c); [by eexists|]. cbn [orb]. intros ->. by eexists.
Qed.

(** A process whose real or saved user id is 0 passes and becomes root, without changing its
    groups. *)
Lemma check_jail_passes config p ids :
  jail_uid_gid (c_general config) = Ret ids -> ruid (ps_creds p) = 0 \/ suid (ps_creds p) = 0 ->
  exists c, check_jail config p = Ret (Ok tt, ps_set_umask 0 (ps_set_creds c p)) /\ privileged c = true /\ groups c = groups (ps_creds p).
Proof.
  intros Eids Hroot. unfold check_jail, wrap_libc. rewrite Eids. unfold mbind, eff_bind, get, update, lift_outcome. destruct ids as [[u g]|].
  - assert (E0 : exists c0, k_seteuid 0 (ps_creds p) = Some c0 /\ euid c0 = 0 /\ ruid c0 = ruid (ps_creds p) /\ suid c0 = suid (ps_creds p) /\ groups c0 = groups (ps_creds p)).
    { unfold k_seteuid. assert (_ || _ || _ || _ = true) as ->; [|by eexists].
      destruct Hroot as [-> | ->]; cbn; by rewrite ?orb_true_r. }
    destruct E0 as (c0 & -> & He0 & Hr0 & Hs0 & Hg0). cbn [ps_creds ps_set_creds].
    assert (E1 : k_seteuid u c0 = Some (mk_creds (ruid c0) u (suid c0) (rgid c0) (egid c0) (sgid c0) (groups c0))) by (unfold k_seteuid, privileged; by rewrite He0).
    rewrite E1. cbn [ps_creds ps_set_creds].
    destruct (setuid_root (mk_creds (ruid c0) u (suid c0) (rgid c0) (egid c0) (sgid c0) (groups c0))) as (c2 & -> & He2 & Hg2).
    { unfold may_be_root. cbn. rewrite Hr0, Hs0. destruct Hroot as [-> | ->]; cbn; by rewrite ?orb_true_r. }
    exists c2. unfold privileged. rewrite He2, Hg2. cbn. rewrite Hg0. by destruct p.
  - destruct (setuid_root (ps_creds p)) as (c2 & E2 & He2 & Hg2).
    { unfold may_be_root. destruct Hroot as [-> | ->]; cbn; by rewrite ?orb_true_r. }
    unfold mret, eff_ret. rewrite E2. exists c2. unfold privileged. rewrite He2, Hg2. by destruct p.
Qed.
