(* ===== verification/ProcMaps.v ===== *)
(** * Memory mappings of the source

    Models the parser of [/proc/PID/maps] in [lib/proc-maps/src/linux_maps.rs], the search for an
    address in [lib/proc-maps/src/lib.rs], and what [scheduler/src/source.rs] makes of the mappings:
    paths are translated from the jail of the source, and the mappings of its executable are
    selected.  Files are ASCII; the file of the process is an argument. *)

From Stdlib Require Import Ascii.
From stdpp Require Import pretty.
From S2P Require Import Prelude Effects Trace MutationSite Dwarf X86 Jit Phases Config ConfigTheorems CoverageTrace Jail.

(** ** The parser *)

(** [split_whitespace] *)
Fixpoint words (s : string) : list string :=
  match s with
  | EmptyString => []
  | String c s =>
      if is_space c then words s
      else match s with
           | EmptyString => [String c EmptyString]
           | String c' _ => if is_space c' then String c EmptyString :: words s
                            else match words s with [] => [String c EmptyString] | w :: l => String c w :: l end
           end
  end.

(** [split('-')] *)
Fixpoint split_dash (s : string) : list string :=
  match s with
  | EmptyString => [EmptyString]
  | String c s =>
      if Ascii.eqb c "-" then EmptyString :: split_dash s
      else match split_dash s with [] => [String c EmptyString] | x :: l => String c x :: l end
  end.

(** [usize::from_str_radix(.., 16)] *)
Definition usize_hex (s : string) : option Z := match s with String "+"%char s => from_str_radix_16 s | _ => from_str_radix_16 s end.

(** A line that has fields. *)
Definition parse_map_line (range : string) (fields : list string) : outcome MapRange :=
  range_start ← unwrap (split_dash range !! 0%nat);
  range_end ← unwrap (split_dash range !! 1%nat);
  flags ← unwrap (fields !! 0%nat);
  offset ← unwrap (fields !! 1%nat);
  dev ← unwrap (fields !! 2%nat);
  inode ← unwrap (fields !! 3%nat);
  range_start ← unwrap (usize_hex range_start);
  range_end ← unwrap (usize_hex range_end);
  offset ← unwrap (usize_hex offset);
  inode ← unwrap (parse_uint 64 inode);
  mret (mk_map_range range_start range_end offset dev flags inode
    (match String.concat " " (drop 4 fields) with EmptyString => None | p => Some p end)).

(** The loop ends at the first line without fields. *)
Fixpoint parse_map_lines (lines : list string) : outcome (list MapRange) :=
  match lines with
  | [] => mret []
  | line :: lines =>
      match words line with
      | [] => mret []
      | range :: fields => m ← parse_map_line range fields; l ← parse_map_lines lines; mret (m :: l)
      end
  end.
Definition parse_proc_maps (contents : string) : outcome (list MapRange) := parse_map_lines (split_lines contents).

(** [file] is the text of [/proc/PID/maps], if it can be read. *)
Definition get_process_maps (file : result unit string) : outcome (result unit (list MapRange)) :=
  match file with Err e => mret (Err e) | Ok contents => m ← parse_proc_maps contents; mret (Ok m) end.

Definition map_contain_addr (map : MapRange) (addr : Z) : outcome bool :=
  if MapRange_start map <=? addr then
    size ← MapRange_size map;
    fin ← checked_add 64 (MapRange_start map) size;
    mret (addr <? fin)
  else mret false.
(** [any], which stops at the first match. *)
Fixpoint maps_contain_addr (addr : Z) (maps : list MapRange) : outcome bool :=
  match maps with
  | [] => mret false
  | map :: maps => b ← map_contain_addr map addr; if b : bool then mret true else maps_contain_addr addr maps
  end.

(** ** In the source *)

Definition source_resolve_path (jail : option Jail) (p : PathBuf) : PathBuf :=
  match jail with Some j => jail_resolve_path_from_child j p | None => p end.
Definition resolve_mapping (jail : option Jail) (m : MapRange) : MapRange :=
  mk_map_range (range_start m) (range_end m) (mr_offset m) (mr_dev m) (mr_flags m) (mr_inode m)
    ((fun p => path_str (source_resolve_path jail (path p))) <$> mr_pathname m).
(** The end of [Source::start]. *)
Definition source_mappings (jail : option Jail) (file : result unit string) : outcome (result unit (list MapRange)) :=
  maps ← get_process_maps file;
  mret (match maps with Ok maps => Ok (List.map (resolve_mapping jail) maps) | Err e => Err e end).

(** [Path] equality: the parts count, and whether the path is absolute. *)
Definition path_eqb (a b : PathBuf) : bool := Bool.eqb (is_relative a) (is_relative b) && bool_decide (parts (path_str a) = parts (path_str b)).
Definition get_main_executable_mappings (jail : option Jail) (bin_path : PathBuf) (file : result unit string) : outcome (result unit (list MapRange)) :=
  maps ← get_process_maps file;
  mret (match maps with
        | Ok maps => Ok (List.filter (fun m => path_eqb bin_path (source_resolve_path jail (path (default EmptyString (mr_pathname m))))) maps)
        | Err e => Err e
        end).
Fixpoint exec_mappings (maps : list MapRange) : outcome (list MapRange) :=
  match maps with
  | [] => mret []
  | m :: maps => b ← MapRange_is_exec m; l ← exec_mappings maps; mret (if b : bool then m :: l else l)
  end.
Definition get_main_executable_text_mapping (jail : option Jail) (bin_path : PathBuf) (file : result unit string) : outcome (result unit MapRange) :=
  maps ← get_main_executable_mappings jail bin_path file;
  match maps with
  | Err e => mret (Err e)
  | Ok maps => l ← exec_mappings maps; mret (match l with [m] => Ok m | _ => Err tt end)
  end.

(** ** What is printed is parsed *)

#[local] Arguments is_digit : simpl never.
#[local] Arguments is_hex : simpl never.
#[local] Arguments is_space : simpl never.
#[local] Arguments String.append : simpl never.

(** A line of the kernel: addresses in hexadecimal, and blanks before the path. *)
Record MapLine := mk_map_line {
  ml_start : string; ml_end : string; ml_flags : string; ml_offset : string; ml_dev : string; ml_inode : N; ml_blanks : nat; ml_path : string;
}.
Definition no_space (s : string) : bool := all_chars (fun c => negb (is_space c)) s && negb (String.eqb s EmptyString).
Definition usize_text (h : string) : bool := all_hex h && (hex_of h <? 2 ^ 64).
Definition map_line_ok (l : MapLine) : bool :=
  usize_text (ml_start l) && usize_text (ml_end l) && usize_text (ml_offset l) && no_space (ml_flags l) && no_space (ml_dev l) &&
  (Z.of_N (ml_inode l) <? 2 ^ 64) && all_chars (fun c => negb (Ascii.eqb c (ascii_of_nat 10))) (ml_path l).
Definition print_map_line (l : MapLine) : string :=
  ml_start l +:+ "-" +:+ ml_end l +:+ " " +:+ ml_flags l +:+ " " +:+ ml_offset l +:+ " " +:+ ml_dev l +:+ " " +:+ pretty (ml_inode l) +:+ " " +:+ blanks (ml_blanks l) +:+ ml_path l.
Fixpoint print_maps (l : list MapLine) : string :=
  match l with [] => EmptyString | x :: l => print_map_line x +:+ String (ascii_of_nat 10) (print_maps l) end.
(** Blanks that follow each other become one. *)
Definition printed_range (l : MapLine) : MapRange :=
  mk_map_range (hex_of (ml_start l)) (hex_of (ml_end l)) (hex_of (ml_offset l)) (ml_dev l) (ml_flags l) (Z.of_N (ml_inode l))
    (match String.concat " " (words (ml_path l)) with EmptyString => None | p => Some p end).

Lemma words_space s : words (String " " s) = words s.
Proof. done. Qed.
Lemma words_blanks k s : words (blanks k +:+ s) = words s.
Proof. induction k as [|k IH]; [done|]. exact IH. Qed.
Lemma words_app w s : no_space w = true -> words (w +:+ String " " s) = w :: words s.
Proof.
  unfold no_space. intros [Hw Hne]%andb_true_iff. induction w as [|c w IH]; [done|]. cbn in Hw. apply andb_true_iff in Hw as [Hc%negb_true_iff Hw].
  rewrite append_cons. destruct w as [|c' w].
  - rewrite append_nil. cbn. by rewrite Hc.
  - specialize (IH Hw eq_refl). rewrite append_cons in IH |- *. cbn in Hw. apply andb_true_iff in Hw as [Hc'%negb_true_iff _].
    cbn [words] in IH |- *. rewrite Hc, Hc' in *. by rewrite IH.
Qed.

Lemma hex_no_space h : all_hex h = true -> no_space h = true.
Proof.
  intros Hh. pose proof (hex_parts h Hh) as [Hc Hne]. unfold no_space. apply andb_true_iff. split; [revert Hc; by apply class_excludes|]. by destruct h.
Qed.
Lemma pretty_no_space (n : N) : no_space (pretty n) = true.
Proof.
  destruct (pretty_digits n) as (Hd & _ & Hne). rewrite digits_chars in Hd. unfold no_space. apply andb_true_iff. split; [revert Hd; by apply class_excludes|]. by destruct (pretty n).
Qed.
Lemma split_dash_app h s : all_chars is_hex h = true -> split_dash (h +:+ String "-" s) = h :: split_dash s.
Proof.
  induction h as [|c h IH]; intros Hh; [done|]. cbn in Hh. apply andb_true_iff in Hh as [Hc Hh]. rewrite append_cons. cbn [split_dash].
  assert (Ascii.eqb c "-" = false) as -> by (by apply (class_disjoint is_hex (fun c => Ascii.eqb c "-"))). by rewrite IH.
Qed.
Lemma split_dash_last h : all_chars is_hex h = true -> split_dash h = [h].
Proof.
  induction h as [|c h IH]; intros Hh; [done|]. cbn in Hh. apply andb_true_iff in Hh as [Hc Hh]. cbn [split_dash].
  assert (Ascii.eqb c "-" = false) as -> by (by apply (class_disjoint is_hex (fun c => Ascii.eqb c "-"))). by rewrite IH.
Qed.
Lemma usize_hex_text h : usize_text h = true -> usize_hex h = Some (hex_of h).
Proof.
  unfold usize_text. intros [Hh Hlt%Z.ltb_lt]%andb_true_iff. pose proof (hex_parts h Hh) as [Hc Hne]. destruct h as [|c h]; [done|].
  assert (E : usize_hex (String c h) = from_str_radix_16 (String c h)) by (cbn in Hc; unfold usize_hex; destruct (Ascii.eqb_spec c "+") as [->|Hp]; [done|]; destruct c as [[] [] [] [] [] [] [] []]; done).
  rewrite E. unfold from_str_radix_16. destruct (hex_value_Some (String c h) 0 Hc) as [v Ev]. unfold hex_of in Hlt |- *. rewrite Ev in *. cbn [mbind option_bind default] in *.
  by destruct (Z.ltb_spec v (2 ^ 64)); [|cbn in Hlt; lia].
Qed.
Lemma split_lines_app l s : all_chars (fun c => negb (Ascii.eqb c (ascii_of_nat 10))) l = true -> split_lines (l +:+ String (ascii_of_nat 10) s) = l :: split_lines s.
Proof.
  induction l as [|c l IH]; intros Hl; [done|]. cbn in Hl. apply andb_true_iff in Hl as [Hc%negb_true_iff Hl]. rewrite append_cons. cbn [split_lines]. by rewrite Hc, (IH Hl).
Qed.

Lemma usize_text_hex h : usize_text h = true -> all_hex h = true.
Proof. by intros [Hh _]%andb_true_iff. Qed.

(** The fields of a printed line. *)
Lemma no_space_dash a b : no_space a = true -> no_space b = true -> no_space (a +:+ String "-" b) = true.
Proof.
  unfold no_space. intros [Ha _]%andb_true_iff [Hb _]%andb_true_iff. rewrite all_chars_app, Ha. cbn [andb all_chars]. rewrite Hb. by destruct a.
Qed.
Lemma print_map_words l :
  map_line_ok l = true ->
  words (print_map_line l) = [ml_start l +:+ String "-" (ml_end l); ml_flags l; ml_offset l; ml_dev l; pretty (ml_inode l)] ++ words (ml_path l).
Proof.
  unfold map_line_ok. rewrite !andb_true_iff. intros [[[[[[Hs He] Ho] Hf] Hd] _] _]. unfold print_map_line.
  assert (E : forall a b c : string, a +:+ "-" +:+ b +:+ c = (a +:+ String "-" b) +:+ c).
  { intros a b c. induction a as [|x a IH]; [done|]. exact (f_equal (String x) IH). }
  assert (E2 : forall x : string, " " +:+ x = String " " x) by done. rewrite E, !E2. rewrite words_app by (apply no_space_dash; by apply hex_no_space, usize_text_hex).
  rewrite words_app by done. rewrite words_app by (by apply hex_no_space, usize_text_hex). rewrite words_app by done. rewrite words_app by apply pretty_no_space.
  by rewrite words_blanks.
Qed.
Lemma parse_printed_line l :
  map_line_ok l = true ->
  parse_map_line (ml_start l +:+ String "-" (ml_end l)) ([ml_flags l; ml_offset l; ml_dev l; pretty (ml_inode l)] ++ words (ml_path l)) = Ret (printed_range l).
Proof.
  unfold map_line_ok. rewrite !andb_true_iff. intros [[[[[[Hs He] Ho] Hf] Hd] Hi%Z.ltb_lt] _]. unfold parse_map_line.
  pose proof (hex_parts _ (usize_text_hex _ Hs)) as [Hsc _]. pose proof (hex_parts _ (usize_text_hex _ He)) as [Hec _].
  rewrite split_dash_app, split_dash_last by done. cbn [lookup list_lookup unwrap app]. unfold mbind, outcome_bind. rewrite !usize_hex_text by done. cbn [unwrap].
  destruct (pretty_digits (ml_inode l)) as (Hdig & Hv & Hne). rewrite digits_parse by done. unfold parse_digits. rewrite Hv.
  destruct (Z.ltb_spec (Z.of_N (ml_inode l)) (2 ^ 64)); [|lia]. done.
Qed.
Lemma print_map_newline l : map_line_ok l = true -> all_chars (fun c => negb (Ascii.eqb c (ascii_of_nat 10))) (print_map_line l) = true.
Proof.
  unfold map_line_ok. rewrite !andb_true_iff. intros [[[[[[Hs He] Ho] Hf] Hd] _] Hp]. destruct (pretty_digits (ml_inode l)) as (Hdig & _ & _). rewrite digits_chars in Hdig.
  assert (Hhex : forall h, usize_text h = true -> all_chars (fun c => negb (Ascii.eqb c (ascii_of_nat 10))) h = true).
  { intros h Hh. pose proof (hex_parts _ (usize_text_hex _ Hh)) as [Hc _]. revert Hc. by apply (class_excludes is_hex (fun c => Ascii.eqb c (ascii_of_nat 10))). }
  assert (Hns : forall h, no_space h = true -> all_chars (fun c => negb (Ascii.eqb c (ascii_of_nat 10))) h = true).
  { intros h [Hh _]%andb_true_iff. revert Hh. by apply (class_excludes (fun c => negb (is_space c)) (fun c => Ascii.eqb c (ascii_of_nat 10))). }
  apply (class_excludes is_digit (fun c => Ascii.eqb c (ascii_of_nat 10))) in Hdig; [|done].
  assert (Hb : forall k, all_chars (fun c => negb (Ascii.eqb c (ascii_of_nat 10))) (blanks k) = true) by (by induction k).
  unfold print_map_line. by rewrite !all_chars_app, (Hhex _ Hs), (Hhex _ He), (Hhex _ Ho), (Hns _ Hf), (Hns _ Hd), Hdig, Hp, Hb.
Qed.

(** C39: the mappings the kernel prints are parsed back, with a path in which blanks that follow each other
    become one blank, and no path where there is none. *)
Theorem maps_parsed l : forallb map_line_ok l = true -> parse_proc_maps (print_maps l) = Ret (printed_range <$> l).
Proof.
  unfold parse_proc_maps. induction l as [|x l IH]; [done|]. cbn [forallb print_maps]. intros [Hx Hl]%andb_true_iff.
  rewrite split_lines_app by (by apply print_map_newline). cbn [parse_map_lines]. rewrite print_map_words by done. cbn [app].
  change (pretty (ml_inode x) :: words (ml_path x)) with ([pretty (ml_inode x)] ++ words (ml_path x)).
  pose proof (parse_printed_line x Hx) as E. cbn [app] in E |- *. rewrite E. cbn [mbind outcome_bind]. by rewrite (IH Hl).
Qed.
Lemma maps_parsed_witness :
  parse_proc_maps (print_maps [mk_map_line "00400000" "00507000" "r-xp" "00000000" "00:14" 205736 10 "/usr/my  bin"; mk_map_line "7f43" "7f44" "rw-p" "0" "00:00" 0 0 EmptyString])
  = Ret [mk_map_range 4194304 5271552 0 "00:14" "r-xp" 205736 (Some "/usr/my bin"%string); mk_map_range 32579 32580 0 "00:00" "rw-p" 0 None].
Proof.
  exact (maps_parsed [mk_map_line "00400000" "00507000" "r-xp" "00000000" "00:14" 205736 10 "/usr/my  bin"; mk_map_line "7f43" "7f44" "rw-p" "0" "00:00" 0 0 EmptyString] eq_refl).
Defined.
