(* ===== verification/Launch.v ===== *)
(** * Starting and stopping targets

    Models how the children of the fuzzer are prepared and ended: the arguments of the source
    ([Source::new]), what the forked child does until it executes the target ([Source::start],
    [AflSink::start] and its helpers in [scheduler/src/sink.rs]), the queues that the agent finds in
    its environment ([CommunicationChannel::from_env]), and how a fork server is stopped
    ([stop_forkserver], [AflSink::stop], [wait_pid_timeout] of [fuzztruction_shared/src/util.rs]).
    A child has a table of file descriptors next to the privileges of [Jail]; the number that
    [open] and [pipe] choose is an argument, of which only is known that it was not in use. *)

From Stdlib Require Import Ascii.
From stdpp Require Import pretty.
From S2P Require Import Prelude Effects Phases Config ConfigTheorems CoverageTrace Jail.

(** ** Arguments of the source *)

Module SourceArgs.

Inductive SourceError := MissingFileIdentifier | UnexpectedArgument | FatalIOError.

(** [arg.replace(from, to)], for a word that is not empty: matches are taken from the left. *)
Fixpoint replace_fuel (fuel : nat) (w new s : string) : string :=
  match fuel with
  | O => s
  | S fuel =>
      match s with
      | EmptyString => EmptyString
      | String c s' => match lit w s with Some rest => new +:+ replace_fuel fuel w new rest | None => String c (replace_fuel fuel w new s') end
      end
  end.
Definition replace (w new s : string) : string := replace_fuel (String.length s) w new s.

(** The state: the arguments, the path of the output, and whether its file is there. *)
Record Args := mk_args { sa_args : list string; sa_output : string; sa_output_exists : bool }.
Definition AM (A : Type) : Type := eff Args SourceError A.
Definition set_args l a := mk_args l (sa_output a) (sa_output_exists a).

(** [fs::remove_file] of the output. *)
Definition remove_output : AM unit :=
  e ← get sa_output_exists;
  if e : bool then update (fun a => mk_args (sa_args a) (sa_output a) false) else of_result (Err FatalIOError).

(** The first argument with the marker. *)
Fixpoint replace_first_in (w new : string) (l : list string) : list string :=
  match l with
  | [] => []
  | a :: l => if str_contains w a then replace w new a :: l else a :: replace_first_in w new l
  end.

(** The loop over the arguments for the output. *)
Fixpoint replace_outputs (path : string) (l : list string) : AM (list string) :=
  match l with
  | [] => mret []
  | a :: l =>
      a ← (if str_contains "$$" a then remove_output ;; mret (replace "$$" path a) else mret a);
      l ← replace_outputs path l;
      mret (a :: l)
  end.

Section args.
(** The temporary files of the markers with a number. *)
Context (temp : string -> string).

Definition replace_markers (args : list string) : list string :=
  (fun a => if String.prefix "$$" a then temp a else a) <$> args.

Definition prepare (input_channel : InputChannel) (output_channel : OutputChannel) (input_path suffix : string) : AM unit :=
  args ← get sa_args;
  (if existsb (String.eqb "@$") args then
     lift_outcome (assert_that (match input_channel with In_File => true | _ => false end)) ;;
     lift_outcome (assert_that (match output_channel with Out_File => true | _ => false end)) ;;
     update (fun a => mk_args (replace_first_in "@$" input_path (sa_args a)) (input_path +:+ suffix) true)
   else
     (match input_channel with
      | In_File =>
          if existsb (str_contains "@@") args
          then update (fun a => set_args ((fun s => if str_contains "@@" s then replace "@@" input_path s else s) <$> sa_args a) a)
          else of_result (Err MissingFileIdentifier)
      | _ => mret tt
      end) ;;
     args ← get sa_args;
     match output_channel with
     | Out_File =>
         if existsb (str_contains "$$") args
         then path ← get sa_output; l ← replace_outputs path args; update (set_args l)
         else of_result (Err MissingFileIdentifier)
     | _ => if existsb (str_contains "$$") args then of_result (Err UnexpectedArgument) else mret tt
     end) ;;
  update (fun a => set_args (replace_markers (sa_args a)) a).
End args.
End SourceArgs.

(** ** Children *)

Inductive FileKind := DevNull | RegularFile (p : string) | PipeRead (pipe : nat) | PipeWrite (pipe : nat).
Record Desc := mk_desc { de_file : FileKind; de_writable : bool }.

Record Child := mk_child {
  ch_process : Process;
  ch_fds : gmap Z Desc;
  ch_session : bool;
  ch_fsize : option Z;
  ch_core : option Z;
  ch_no_aslr : bool;
  (** [DEV_NULL_FD], once it was used *)
  ch_dev_null : option Z;
}.
Definition CM (A : Type) : Type := eff Child JailError A.

Definition ch_set_process p c := mk_child p (ch_fds c) (ch_session c) (ch_fsize c) (ch_core c) (ch_no_aslr c) (ch_dev_null c).
Definition ch_set_fds f c := mk_child (ch_process c) f (ch_session c) (ch_fsize c) (ch_core c) (ch_no_aslr c) (ch_dev_null c).
Definition ch_set_session c := mk_child (ch_process c) (ch_fds c) true (ch_fsize c) (ch_core c) (ch_no_aslr c) (ch_dev_null c).
Definition ch_set_fsize l c := mk_child (ch_process c) (ch_fds c) (ch_session c) (Some l) (ch_core c) (ch_no_aslr c) (ch_dev_null c).
Definition ch_set_core l c := mk_child (ch_process c) (ch_fds c) (ch_session c) (ch_fsize c) (Some l) (ch_no_aslr c) (ch_dev_null c).
Definition ch_set_no_aslr c := mk_child (ch_process c) (ch_fds c) (ch_session c) (ch_fsize c) (ch_core c) true (ch_dev_null c).
Definition ch_set_dev_null d c := mk_child (ch_process c) (ch_fds c) (ch_session c) (ch_fsize c) (ch_core c) (ch_no_aslr c) (Some d).

(** A call of [Jail] in the child. *)
Definition in_process {A} (m : PM A) : CM A := fun c =>
  match m (ch_process c) with Ret (r, p) => Ret (r, ch_set_process p c) | Panic => Panic end.
(** [unwrap] of a result. *)
Definition unwrapped {A} (m : CM A) : CM A := fun c =>
  match m c with Ret (Ok a, c) => Ret (Ok a, c) | _ => Panic end.

(** [dup2] of a descriptor that is not open does nothing; the code does not look at its result
    where it is [dup2_]. *)
Definition dup2 (old new : Z) : CM bool :=
  fds ← get ch_fds;
  match fds !! old with
  | Some d => update (ch_set_fds (<[new := d]> fds)) ;; mret true
  | None => mret false
  end.
Definition dup2_ (old new : Z) : CM unit := _ ← dup2 old new; mret tt.
Definition close (fd : Z) : CM unit := update (fun c => ch_set_fds (delete fd (ch_fds c)) c).

(** [CString::new(..).unwrap()] *)
Definition no_nul (s : string) : bool := all_chars (fun c => negb (Ascii.eqb c (ascii_of_nat 0))) s.
Definition cstring (s : string) : CM string := lift_outcome (assert_that (no_nul s)) ;; mret s.
Fixpoint cstrings (l : list string) : CM (list string) :=
  match l with [] => mret [] | s :: l => s ← cstring s; l ← cstrings l; mret (s :: l) end.

(** What is handed to [execve]. *)
Record Exec := mk_exec { ex_path : string; ex_argv : list string; ex_envp : list string }.

Definition mib (n : Z) : Z := n * 2 ^ 20.
Definition env_entry (name value : string) : string := name +:+ "=" +:+ value.

Section launch.
Context (host : Host) (k_fresh : gmap Z Desc -> option Z).

(** [open("/dev/null", O_RDONLY)]; a failure is a panic. *)
Definition open_dev_null : CM Z :=
  fds ← get ch_fds;
  fd ← lift_outcome (unwrap (k_fresh fds));
  update (ch_set_fds (<[fd := mk_desc DevNull false]> fds)) ;; mret fd.
(** [personality] returns the flags that were set before. *)
Definition disable_aslr : CM unit := before ← get ch_no_aslr; lift_outcome (assert_that (negb before)) ;; update ch_set_no_aslr.

Definition set_fsize_limit (log_stdout log_stderr : bool) (limit : Z) : CM unit :=
  if negb log_stdout && negb log_stderr then lift_outcome (assert_that (ho_setrlimit host)) ;; update (ch_set_fsize limit) else mret tt.
Definition disable_core_dumps : CM unit := lift_outcome (assert_that (ho_setrlimit host)) ;; update (ch_set_core 0).
Definition same_user : CM unit := c ← get (fun c => ps_creds (ch_process c)); lift_outcome (assert_that (ruid c =? euid c)).
(** The second assertion compares the effective group with itself. *)
Definition same_group : CM unit := c ← get (fun c => ps_creds (ch_process c)); lift_outcome (assert_that (egid c =? egid c)).

(** ** The source *)

Record SourceStart := mk_source_start {
  ss_path : PathBuf;
  ss_args : list string;
  ss_workdir : PathBuf;
  ss_input_channel : InputChannel;
  ss_output_channel : OutputChannel;
  ss_input_file : Z;
  ss_output_file : Z;
  ss_stdout_file : option Z;
  ss_stderr_file : option Z;
  ss_mq_send_name : string;
  ss_mq_recv_name : string;
  ss_log_stdout : bool;
  ss_log_stderr : bool;
  ss_log_level : string;
  ss_shm_name : option string;
  ss_config : option Config;
  ss_jail : option Jail;
}.

Definition source_envp (s : SourceStart) (shm_name : string) : list string :=
  [env_entry "FT_MQ_SEND" (ss_mq_recv_name s); env_entry "FT_MQ_RECV" (ss_mq_send_name s); env_entry "FT_LOG_LEVEL" (ss_log_level s);
   env_entry "FT_SHM_NAME" shm_name; "LD_BIND_NOW=1"%string] ++
  match ss_config s with Some cfg => (fun v : string * string => env_entry v.1 v.2) <$> so_env (c_source cfg) | None => [] end.

Definition source_stdin (s : SourceStart) (dev_null_fd : Z) : CM unit :=
  match ss_input_channel s with
  | In_Stdin => dup2_ (ss_input_file s) 0 ;; close (ss_input_file s)
  | _ => dup2_ dev_null_fd 0
  end.
Definition source_stdout (s : SourceStart) (dev_null_fd : Z) : CM unit :=
  match ss_output_channel s with
  | Out_Stdout => dup2_ (ss_output_file s) 1 ;; close (ss_output_file s)
  | _ =>
      if ss_log_stdout s then fd ← lift_outcome (unwrap (ss_stdout_file s)); dup2_ fd 1 ;; close fd
      else dup2_ dev_null_fd 1
  end.
Definition source_stderr (s : SourceStart) (dev_null_fd : Z) : CM unit :=
  if ss_log_stderr s then fd ← lift_outcome (unwrap (ss_stderr_file s)); dup2_ fd 2 ;; close fd else dup2_ dev_null_fd 2.

(** Limits, the jail, the directory and the check of the user. *)
Definition source_confine (s : SourceStart) : CM unit :=
  set_fsize_limit (ss_log_stdout s) (ss_log_stderr s) (mib 16) ;;
  disable_core_dumps ;;
  disable_aslr ;;
  match ss_jail s with Some j => unwrapped (in_process (enter host j)) | None => mret tt end ;;
  cfg ← lift_outcome (unwrap (ss_config s));
  unwrapped (in_process (set_current_dir host (path_str (default (ss_workdir s) (so_working_dir (c_source cfg)))))) ;;
  same_user ;;
  same_group.

(** The child of [Source::start], up to [execve]. *)
Definition source_child (s : SourceStart) : CM Exec :=
  update ch_set_session ;;
  let path := path_str (ss_path s) in
  argv ← cstrings (ss_args s);
  path ← cstring path;
  let argv := path :: argv in
  shm_name ← lift_outcome (unwrap (ss_shm_name s));
  envp ← cstrings (source_envp s shm_name);
  dev_null_fd ← open_dev_null;
  source_stdin s dev_null_fd ;;
  source_stdout s dev_null_fd ;;
  source_stderr s dev_null_fd ;;
  close dev_null_fd ;;
  close (ss_output_file s) ;;
  close (ss_input_file s) ;;
  source_confine s ;;
  mret (mk_exec path argv envp).

(** [Source::new]: the jail of the source. *)
Definition source_jail (config : option Config) (workdir : PathBuf) : outcome (result JailError (option Jail)) :=
  match config with
  | None => mret (Ok None)
  | Some config =>
      ids ← jail_uid_gid (c_general config);
      match ids with
      | None => mret (Ok None)
      | Some (uid, gid) =>
          let jail := no_random_devices (bind_rw workdir (builder_drop_privileges uid gid JailBuilder_new)) in
          mret (match build host jail with Ok j => Ok (Some j) | Err e => Err e end)
      end
  end.

(** ** The sink *)

Definition FORKSRV_FD : Z := 198.
Definition AFL_READ_FROM_PARENT_FD : Z := FORKSRV_FD.
Definition AFL_WRITE_TO_PARENT_FD : Z := FORKSRV_FD + 1.
Definition AFL_FT_WRITE_TO_PARENT_FD : Z := FORKSRV_FD + 2.

(** [init_done] is whether the descriptors were reserved before. *)
Definition reserver_forkserver_fds_once (init_done : bool) : CM unit :=
  if init_done then mret tt
  else
    null_fd ← open_dev_null;
    dup2_ null_fd AFL_READ_FROM_PARENT_FD ;;
    dup2_ null_fd AFL_WRITE_TO_PARENT_FD ;;
    dup2_ null_fd AFL_FT_WRITE_TO_PARENT_FD ;;
    close null_fd.

Record SinkStart := mk_sink_start {
  sn_path : PathBuf;
  sn_args : list string;
  sn_workdir : PathBuf;
  sn_input_channel : InputChannel;
  sn_input_file : Z;
  sn_stdout_file : option Z;
  sn_stderr_file : option Z;
  sn_log_stdout : bool;
  sn_log_stderr : bool;
  sn_asan_log_file : PathBuf;
  sn_map_shm_id : Z;
  sn_map_size : Z;
  sn_coverage_report : option PathBuf;
  sn_enable_rr : bool;
  sn_config : Config;
}.

(** [*DEV_NULL_FD] *)
Definition dev_null_fd : CM Z :=
  d ← get ch_dev_null;
  match d with Some fd => mret fd | None => fd ← open_dev_null; update (ch_set_dev_null fd) ;; mret fd end.

(** [pipe]: the end to read from, the end to write to. *)
Definition k_pipe (n : nat) : CM (Z * Z) :=
  fds ← get ch_fds;
  r ← lift_outcome (unwrap (k_fresh fds));
  let fds := <[r := mk_desc (PipeRead n) false]> fds in
  w ← lift_outcome (unwrap (k_fresh fds));
  update (ch_set_fds (<[w := mk_desc (PipeWrite n) true]> fds)) ;; mret (r, w).

Definition asan_options (asan_log_file : PathBuf) : list string :=
  ["abort_on_error=1"; "symbolize=1"; "detect_leaks=0"; "handle_abort=2"; "handle_segv=2"; "handle_sigbus=2"; "handle_sigill=2";
   "detect_stack_use_after_return=0"; "detect_odr_violation=0"; "log_path=" +:+ path_str asan_log_file]%string.
Definition sink_envp (s : SinkStart) : list string :=
  [env_entry "__AFL_SHM_ID" (pretty (sn_map_shm_id s)); env_entry "AFL_MAP_SIZE" (pretty (sn_map_size s));
   env_entry "ASAN_OPTIONS" (String.concat ":" (asan_options (sn_asan_log_file s)))] ++
  match sn_coverage_report s with Some p => [env_entry "LLVM_PROFILE_FILE" (path_str p)] | None => [] end ++
  ((fun v : string * string => env_entry v.1 v.2) <$> si_env (c_sink (sn_config s))).

Definition close_stdin_or_connect_to_input_file (s : SinkStart) : CM unit :=
  match sn_input_channel s with
  | In_Stdin => dup2_ (sn_input_file s) 0
  | _ => fd ← dev_null_fd; dup2_ fd 0
  end.
Definition connect_log (log : bool) (file : option Z) (std : Z) : CM unit :=
  if log then fd ← lift_outcome (unwrap file); dup2_ fd std ;; close fd else fd ← dev_null_fd; dup2_ fd std.
Definition setup_stdout_stderr_logging (s : SinkStart) : CM unit :=
  connect_log (sn_log_stdout s) (sn_stdout_file s) 1 ;; connect_log (sn_log_stderr s) (sn_stderr_file s) 2.

Definition move_fd (old new : Z) : CM unit :=
  if old =? new then mret tt else ok ← dup2 old new; lift_outcome (assert_that ok) ;; close old.
Definition dup2_child_fds (send_fd receive_fd ft_receive_fd child_receive_fd child_send_fd ft_child_send_fd : Z) : CM unit :=
  close receive_fd ;;
  close ft_receive_fd ;;
  close send_fd ;;
  move_fd child_receive_fd AFL_READ_FROM_PARENT_FD ;;
  move_fd child_send_fd AFL_WRITE_TO_PARENT_FD ;;
  move_fd ft_child_send_fd AFL_FT_WRITE_TO_PARENT_FD.

Definition sink_drop_privileges (config : Config) : CM unit :=
  ids ← lift_outcome (jail_uid_gid (c_general config));
  match ids with
  | Some (user, group) => unwrapped (in_process (wrap_libc (k_setgid group))) ;; unwrapped (in_process (wrap_libc (k_setuid user)))
  | None => mret tt
  end.

Definition rr_args : list string := ["/usr/bin/rr"; "record"; "--disable-cpuid-features-ext"; "0xdc230000,0x2c42,0xc"; "--"]%string.

(** Limits, privileges, the directory and the check of the user. *)
Definition sink_confine (s : SinkStart) : CM unit :=
  set_fsize_limit (sn_log_stdout s) (sn_log_stderr s) (mib 512) ;;
  disable_core_dumps ;;
  disable_aslr ;;
  (if sn_enable_rr s then mret tt else sink_drop_privileges (sn_config s)) ;;
  unwrapped (in_process (set_current_dir host (path_str (default (sn_workdir s) (si_working_dir (c_sink (sn_config s))))))) ;;
  same_user ;;
  same_group.

(** The pipes and the child of [AflSink::start], up to [execve]. *)
Definition sink_child (s : SinkStart) : CM Exec :=
  '(child_receive_fd, send_fd) ← k_pipe 0;
  '(receive_fd, child_send_fd) ← k_pipe 1;
  '(ft_receive_fd, ft_child_send_fd) ← k_pipe 2;
  update ch_set_session ;;
  path ← cstring (path_str (sn_path s));
  args ← cstrings (sn_args s);
  let args := path :: args in
  envp ← cstrings (sink_envp s);
  close_stdin_or_connect_to_input_file s ;;
  setup_stdout_stderr_logging s ;;
  dup2_child_fds send_fd receive_fd ft_receive_fd child_receive_fd child_send_fd ft_child_send_fd ;;
  sink_confine s ;;
  mret (if sn_enable_rr s then mk_exec "/usr/bin/rr" (rr_args ++ args) envp else mk_exec path args envp).

(** ** The agent *)

(** [env::var] in a program that was started with this environment. *)
Fixpoint getenv (envp : list string) (name : string) : option string :=
  match envp with [] => None | e :: envp => match lit (name +:+ "=") e with Some v => Some v | None => getenv envp name end end.

Inductive CommunicationChannelError := MissingEnvironmentVariables | FailedToOpenMessageQueues.
(** The names of the queues to send to and to receive from; [mq_open] is whether a queue can be
    opened. *)
Definition from_env (mq_open : string -> bool) (envp : list string) : result CommunicationChannelError (string * string) :=
  match getenv envp "FT_MQ_RECV", getenv envp "FT_MQ_SEND" with
  | Some recv_name, Some send_name => if mq_open send_name && mq_open recv_name then Ok (send_name, recv_name) else Err FailedToOpenMessageQueues
  | _, _ => Err MissingEnvironmentVariables
  end.
End launch.

(** ** Stopping a fork server *)

Inductive StopSignal := SIGTERM | SIGKILL.
#[export] Instance StopSignal_eq_dec : EqDecision StopSignal.
Proof. solve_decision. Defined.

(** A fork server: whether it ends after these signals, and whether it does so within a
    timeout; whether [pidfd_open], [poll] and [waitpid] work for it. *)
Record Server := mk_server {
  sv_ends : list StopSignal -> bool;
  sv_in_time : list StopSignal -> Z -> bool;
  sv_pidfd_open : bool;
  sv_poll : bool;
  sv_waitpid : bool;
}.

(** A computation that sends signals; [None] when it waits for ever. *)
Definition Stopping (A : Type) : Type := list StopSignal -> option (A * list StopSignal).
#[export] Instance stopping_ret : MRet Stopping := fun A a l => Some (a, l).
#[export] Instance stopping_bind : MBind Stopping := fun A B f m l => match m l with Some (a, l) => f a l | None => None end.

Section stop.
Context (server : Server).

Definition kill (sig : StopSignal) : Stopping unit := fun l => Some (tt, l ++ [sig]).
(** [poll]: the number of ready descriptors, which is 0 after the timeout. *)
Definition poll_pidfd (timeout : Z) : Stopping (result unit Z) := fun l =>
  Some (if sv_poll server then Ok (if sv_in_time server l timeout then 1 else 0) else Err tt, l).
(** [waitpid] without [WNOHANG] *)
Definition waitpid : Stopping (result unit unit) := fun l =>
  if sv_waitpid server then if sv_ends server l then Some (Ok tt, l) else None else Some (Err tt, l).

(** [Ok(Some(..))] is [Ok true]. *)
Definition wait_pid_timeout (timeout : Z) : Stopping (result unit bool) :=
  if sv_pidfd_open server then
    ready ← poll_pidfd timeout;
    match ready with
    | Ok _ => status ← waitpid; mret (match status with Ok _ => Ok true | Err e => Err e end)
    | Err _ => mret (Ok false)
    end
  else mret (Err tt).

Definition stop_with (timeout kill_timeout : Z) : Stopping unit :=
  kill SIGTERM ;;
  r ← wait_pid_timeout timeout;
  match r with
  | Ok _ => mret tt
  | Err _ => kill SIGKILL ;; _ ← wait_pid_timeout kill_timeout; mret tt
  end.

(** Both wait in seconds. *)
Definition stop_forkserver : Stopping unit := stop_with 120 120.
Definition AflSink_stop (forkserver_sid : option Z) : Stopping unit :=
  match forkserver_sid with Some _ => stop_with 60 10 | None => mret tt end.
End stop.
