(* ===== verification/LaunchTheorems.v ===== *)
(** * How targets are started and stopped

    Theorems on the model of [Launch]: the source and the sink only execute their target with the
    right descriptors, limits, directories and privileges, the pipes of the fork server are where
    it looks for them, the agent finds the queues of the source, and what happens when a fork
    server does not stop. *)

From Stdlib Require Import Ascii.
From stdpp Require Import pretty fin_maps.
From S2P Require Import Prelude Effects Phases Config ConfigTheorems CoverageTrace Jail Launch.

Lemma unwrap_Ret {A} (o : option A) a : unwrap o = Ret a -> o = Some a.
Proof. destruct o; [by intros [= ->]|done]. Qed.

(** ** Descriptors *)

Definition connect (old new : Z) (fds : gmap Z Desc) : gmap Z Desc := match fds !! old with Some d => <[new := d]> fds | None => fds end.

Lemma ch_same_fds c : ch_set_fds (ch_fds c) c = c.
Proof. by destruct c. Qed.
Lemma dup2_eq old new c : dup2_ old new c = Ret (Ok tt, ch_set_fds (connect old new (ch_fds c)) c).
Proof. unfold dup2_, dup2, connect, mbind, eff_bind, get, update. destruct (ch_fds c !! old); [done|]. by rewrite ch_same_fds. Qed.
Lemma close_eq fd c : close fd c = Ret (Ok tt, ch_set_fds (delete fd (ch_fds c)) c).
Proof. done. Qed.
Lemma redirect_eq old new c : (dup2_ old new ;; close old) c = Ret (Ok tt, ch_set_fds (delete old (connect old new (ch_fds c))) c).
Proof. unfold mbind at 1, eff_bind at 1. rewrite dup2_eq. by rewrite close_eq. Qed.

Lemma connect_new old new fds d : fds !! old = Some d -> connect old new fds !! new = Some d.
Proof. unfold connect. intros ->. apply lookup_insert_eq. Qed.
Lemma connect_ne old new fds fd : fd <> new -> connect old new fds !! fd = fds !! fd.
Proof. unfold connect. intros Hne. destruct (fds !! old); [|done]. by rewrite lookup_insert_ne. Qed.

(** Reading a table after redirections. *)
Ltac differ := first [assumption | apply not_eq_sym; assumption | discriminate | lia].
Ltac fds_simpl :=
  repeat match goal with
  | |- context [ <[?i := ?x]> ?m !! ?i ] => rewrite (lookup_insert_eq m i x)
  | |- context [ delete ?i ?m !! ?i ] => rewrite (lookup_delete_eq m i)
  | |- context [ connect ?old ?i ?m !! ?i ] => erewrite (connect_new old i m) by (fds_simpl; first [eassumption | reflexivity])
  | |- context [ <[?i := ?x]> ?m !! ?j ] => rewrite (lookup_insert_ne m i j x) by differ
  | |- context [ delete ?i ?m !! ?j ] => rewrite (lookup_delete_ne m i j) by differ
  | |- context [ connect ?old ?i ?m !! ?j ] => rewrite (connect_ne old i m j) by differ
  end.

Section source.
Context (host : Host) (k_fresh : gmap Z Desc -> option Z) (s : SourceStart).

Definition stdin_fds (d : Z) (fds : gmap Z Desc) : gmap Z Desc :=
  match ss_input_channel s with In_Stdin => delete (ss_input_file s) (connect (ss_input_file s) 0 fds) | _ => connect d 0 fds end.
Lemma source_stdin_eq d c : source_stdin s d c = Ret (Ok tt, ch_set_fds (stdin_fds d (ch_fds c)) c).
Proof. unfold source_stdin, stdin_fds. destruct (ss_input_channel s); (apply dup2_eq || apply redirect_eq). Qed.

(** Where the output and the errors of the source go. *)
Inductive Target := ToFile (fd : Z) | ToNull.
Definition stdout_target : option Target :=
  match ss_output_channel s with
  | Out_Stdout => Some (ToFile (ss_output_file s))
  | _ => if ss_log_stdout s then ToFile <$> ss_stdout_file s else Some ToNull
  end.
Definition stderr_target : option Target := if ss_log_stderr s then ToFile <$> ss_stderr_file s else Some ToNull.
Definition target_fds (t : Target) (std d : Z) (fds : gmap Z Desc) : gmap Z Desc :=
  match t with ToFile fd => delete fd (connect fd std fds) | ToNull => connect d std fds end.

Lemma source_stdout_eq d c :
  source_stdout s d c = match stdout_target with Some t => Ret (Ok tt, ch_set_fds (target_fds t 1 d (ch_fds c)) c) | None => Panic end.
Proof.
  unfold source_stdout, stdout_target. destruct (ss_output_channel s); try apply redirect_eq;
    (destruct (ss_log_stdout s); [destruct (ss_stdout_file s) as [fd|]; [exact (redirect_eq fd 1 c)|done]|apply dup2_eq]).
Qed.
Lemma source_stderr_eq d c :
  source_stderr s d c = match stderr_target with Some t => Ret (Ok tt, ch_set_fds (target_fds t 2 d (ch_fds c)) c) | None => Panic end.
Proof.
  unfold source_stderr, stderr_target. destruct (ss_log_stderr s); [destruct (ss_stderr_file s) as [fd|]; [exact (redirect_eq fd 2 c)|done]|apply dup2_eq].
Qed.

(** The files of the source are open, none is a standard descriptor, and they differ. *)
Record SourceFiles (fds : gmap Z Desc) : Prop := {
  sf_std : forall fd, 0 <= fd <= 2 -> is_Some (fds !! fd);
  sf_input : 2 < ss_input_file s /\ is_Some (fds !! ss_input_file s);
  sf_output : 2 < ss_output_file s /\ is_Some (fds !! ss_output_file s) /\ ss_output_file s <> ss_input_file s;
  sf_stdout : forall fd, ss_stdout_file s = Some fd -> 2 < fd /\ is_Some (fds !! fd) /\ fd <> ss_input_file s /\ fd <> ss_output_file s;
  sf_stderr : forall fd, ss_stderr_file s = Some fd -> 2 < fd /\ is_Some (fds !! fd) /\ fd <> ss_input_file s /\ fd <> ss_output_file s /\ ss_stdout_file s <> Some fd;
}.

Definition null_desc : Desc := mk_desc DevNull false.
Definition target_desc (t : Target) (fds : gmap Z Desc) : option Desc := match t with ToFile fd => fds !! fd | ToNull => Some null_desc end.
Definition stdin_desc (fds : gmap Z Desc) : option Desc := match ss_input_channel s with In_Stdin => fds !! ss_input_file s | _ => Some null_desc end.

Definition child_fds (d : Z) (t1 t2 : Target) (fds : gmap Z Desc) : gmap Z Desc :=
  delete (ss_input_file s) (delete (ss_output_file s) (delete d (target_fds t2 2 d (target_fds t1 1 d (stdin_fds d (<[d := null_desc]> fds)))))).

Lemma stdout_file_facts fds fd :
  SourceFiles fds -> stdout_target = Some (ToFile fd) ->
  2 < fd /\ is_Some (fds !! fd) /\ fd <> ss_input_file s /\ forall fd2, stderr_target = Some (ToFile fd2) -> fd2 <> fd.
Proof.
  intros Hf Ht. assert (H2 : forall fd2, stderr_target = Some (ToFile fd2) -> ss_stderr_file s = Some fd2).
  { unfold stderr_target. intros fd2. destruct (ss_log_stderr s), (ss_stderr_file s); cbn; congruence. }
  assert (Hd : fd = ss_output_file s \/ ss_stdout_file s = Some fd).
  { unfold stdout_target in Ht. destruct (ss_output_channel s); try (left; congruence); right; destruct (ss_log_stdout s), (ss_stdout_file s); cbn in Ht; congruence. }
  destruct Hd as [-> |Hd].
  - destruct (sf_output _ Hf) as (? & ? & ?). do 3 (split; [done|]). intros fd2 E%H2. by apply (sf_stderr _ Hf) in E as (_ & _ & _ & ? & _).
  - destruct (sf_stdout _ Hf fd Hd) as (? & ? & ? & ?). do 3 (split; [done|]). intros fd2 E%H2 ->. by apply (sf_stderr _ Hf) in E as (_ & _ & _ & _ & ?).
Qed.
Lemma stderr_file_facts fds fd :
  SourceFiles fds -> stderr_target = Some (ToFile fd) -> 2 < fd /\ is_Some (fds !! fd) /\ fd <> ss_input_file s /\ fd <> ss_output_file s.
Proof.
  intros Hf Ht. assert (E : ss_stderr_file s = Some fd) by (unfold stderr_target in Ht; destruct (ss_log_stderr s), (ss_stderr_file s); cbn in Ht; congruence).
  destruct (sf_stderr _ Hf fd E) as (? & ? & ? & ? & _). done.
Qed.

Lemma child_fds_spec fds d t1 t2 :
  SourceFiles fds -> fds !! d = None -> stdout_target = Some t1 -> stderr_target = Some t2 ->
  let fds' := child_fds d t1 t2 fds in
  fds' !! 0 = stdin_desc fds /\ fds' !! 1 = target_desc t1 fds /\ fds' !! 2 = target_desc t2 fds /\
  fds' !! ss_input_file s = None /\ fds' !! ss_output_file s = None /\ fds' !! d = None.
Proof.
  intros Hf Hd E1 E2. destruct (sf_input _ Hf) as (Hi & [di Edi]). destruct (sf_output _ Hf) as (Ho & [do Edo] & Hoi).
  assert (Hd2 : 2 < d \/ d < 0). { destruct (decide (0 <= d <= 2)) as [Hr|]; [|lia]. apply (sf_std _ Hf) in Hr as [x Hx]. congruence. }
  assert (d <> ss_input_file s) by congruence. assert (d <> ss_output_file s) by congruence.
  assert (Hstdin : stdin_fds d (<[d:=null_desc]> fds) = match stdin_desc fds with Some x => if decide (ss_input_channel s = In_Stdin) then delete (ss_input_file s) (<[0:=x]> (<[d:=null_desc]> fds)) else <[0:=x]> (<[d:=null_desc]> fds) | None => ∅ end).
  { unfold stdin_fds, stdin_desc, connect. destruct (ss_input_channel s); rewrite ?lookup_insert_eq, ?lookup_insert_ne, ?Edi by done; done. }
  assert (Es : exists x, stdin_desc fds = Some x) by (unfold stdin_desc; destruct (ss_input_channel s); eauto). destruct Es as [x Ex]. rewrite Ex in Hstdin.
  cbv zeta. unfold child_fds. rewrite Hstdin, Ex. clear Hstdin.
  destruct t1 as [f1|]; [destruct (stdout_file_facts _ _ Hf E1) as (? & [d1 Ed1] & ? & H12); assert (d <> f1) by congruence|];
  (destruct t2 as [f2|]; [destruct (stderr_file_facts _ _ Hf E2) as (? & [d2 Ed2] & ? & ?); assert (d <> f2) by congruence; try pose proof (H12 _ E2)|]);
  cbn [target_fds target_desc]; rewrite ?Ed1, ?Ed2; destruct (decide _); repeat split; by fds_simpl.
Qed.

(** ** The child of the source *)

Lemma wlp_eq {A} (m : CM A) Q c x c1 : m c = Ret (x, c1) -> Q x c1 -> wlp m Q c.
Proof. intros E HQ r c' E'. rewrite E in E'. by injection E' as <- <-. Qed.
Lemma wlp_panics {A} (m : CM A) Q c : m c = Panic -> wlp m Q c.
Proof. intros E r c' E'. by rewrite E in E'. Qed.

Lemma cstrings_eq l c : cstrings l c = if forallb no_nul l then Ret (Ok l, c) else Panic.
Proof.
  induction l as [|x l IH]; [done|]. cbn [cstrings forallb]. unfold mbind at 1, eff_bind at 1, cstring, mbind at 1, eff_bind at 1, lift_outcome, assert_that.
  destruct (no_nul x); [|done]. cbn [andb mret]. unfold mret at 1, eff_ret at 1, mbind at 1, eff_bind at 1. rewrite IH. by destruct (forallb _ l).
Qed.
Lemma wlp_cstrings l Q c : (forallb no_nul l = true -> Q (Ok l) c) -> wlp (cstrings l) Q c.
Proof. intros HQ. destruct (forallb no_nul l) eqn:E; [eapply wlp_eq|apply wlp_panics]; rewrite ?cstrings_eq, ?E; auto. Qed.
Lemma wlp_cstring x Q c : Q (Ok x) c -> wlp (cstring x) Q c.
Proof. intros HQ. unfold cstring. apply wlp_bind, wlp_lift. intros [] _. by apply wlp_ret. Qed.
Lemma wlp_in_process {A} (m : PM A) Q c : wlp m (fun r p => match r with Ok a => Q (Ok a) (ch_set_process p c) | Err _ => True end) (ch_process c) -> wlp (unwrapped (in_process m)) Q c.
Proof.
  intros Hm r c' E. unfold unwrapped, in_process in E. destruct (m (ch_process c)) as [[[a|e] p]|] eqn:Em; try done. injection E as <- <-. by apply (Hm (Ok a) p).
Qed.

(** What holds when the target of the source is executed. *)
Record SourceStarted (c : Child) (cfg : Config) (t1 t2 : Target) (ex : Exec) (c' : Child) : Prop := {
  st_stdin : ch_fds c' !! 0 = stdin_desc (ch_fds c);
  st_stdout : ch_fds c' !! 1 = target_desc t1 (ch_fds c);
  st_stderr : ch_fds c' !! 2 = target_desc t2 (ch_fds c);
  st_closed : ch_fds c' !! ss_input_file s = None /\ ch_fds c' !! ss_output_file s = None;
  st_limits : ch_core c' = Some 0 /\ ch_no_aslr c' = true /\ ch_session c' = true /\ (ss_log_stdout s = false -> ss_log_stderr s = false -> ch_fsize c' = Some (mib 16));
  st_user : ruid (ps_creds (ch_process c')) = euid (ps_creds (ch_process c'));
  st_cwd : ps_cwd (ch_process c') = path_str (default (ss_workdir s) (so_working_dir (c_source cfg)));
  st_jail : match ss_jail s with
            | Some j => ps_root (ch_process c') = ja_new_root j /\ ps_own_mounts (ch_process c') = true /\
                ps_creds (ch_process c') = dropped (jb_drop_to (ja_builder j)) (ps_creds (ch_process c)) /\
                forall d, d ∈ jb_rw_binds (ja_builder j) -> bind_args (ja_new_root j) "rw" d ∈ ps_mounts (ch_process c')
            | None => ps_creds (ch_process c') = ps_creds (ch_process c) /\ ps_root (ch_process c') = ps_root (ch_process c)
            end;
  st_exec : ex_path ex = path_str (ss_path s) /\ ex_argv ex = path_str (ss_path s) :: ss_args s /\
            exists shm, ss_shm_name s = Some shm /\ ex_envp ex = source_envp s shm;
}.

Lemma enter_any j p : wlp (enter host j) (entered j p) p.
Proof.
  destruct (privileged (ps_creds p)) eqn:Hp; [by apply enter_spec|]. intros r p' E. rewrite enter_unprivileged in E by done. by injection E as <- <-.
Qed.
Lemma chdir_spec d p : wlp (set_current_dir host d) (fun r p' => match r with Ok _ => p' = ps_set_cwd d p | Err _ => True end) p.
Proof. unfold set_current_dir, require, fail_jail. apply wlp_bind, wlp_get. cbv beta iota. apply wlp_bind. destruct (ho_chdir _ _ _); [|by apply wlp_of_result]. by apply wlp_ret, wlp_update. Qed.

(** The part that does not touch descriptors. *)
Definition confined (c : Child) (cfg : Config) (c' : Child) : Prop :=
  ch_fds c' = ch_fds c /\ ch_session c' = ch_session c /\
  (ch_core c' = Some 0 /\ ch_no_aslr c' = true /\ (ss_log_stdout s = false -> ss_log_stderr s = false -> ch_fsize c' = Some (mib 16))) /\
  ruid (ps_creds (ch_process c')) = euid (ps_creds (ch_process c')) /\
  ps_cwd (ch_process c') = path_str (default (ss_workdir s) (so_working_dir (c_source cfg))) /\
  match ss_jail s with
  | Some j => ps_root (ch_process c') = ja_new_root j /\ ps_own_mounts (ch_process c') = true /\
      ps_creds (ch_process c') = dropped (jb_drop_to (ja_builder j)) (ps_creds (ch_process c)) /\
      forall d, d ∈ jb_rw_binds (ja_builder j) -> bind_args (ja_new_root j) "rw" d ∈ ps_mounts (ch_process c')
  | None => ps_creds (ch_process c') = ps_creds (ch_process c) /\ ps_root (ch_process c') = ps_root (ch_process c)
  end.

Lemma fsize_spec c limit :
  wlp (set_fsize_limit host (ss_log_stdout s) (ss_log_stderr s) limit)
      (fun r c' => r = Ok tt /\ exists l, c' = mk_child (ch_process c) (ch_fds c) (ch_session c) l (ch_core c) (ch_no_aslr c) (ch_dev_null c) /\
                   (ss_log_stdout s = false -> ss_log_stderr s = false -> l = Some limit)) c.
Proof.
  unfold set_fsize_limit. destruct (ss_log_stdout s), (ss_log_stderr s); cbn [negb andb];
    try (apply wlp_ret; split; [done|]; exists (ch_fsize c); split; [by destruct c|done]).
  apply wlp_bind, wlp_lift. intros [] _. apply wlp_update. split; [done|]. by exists (Some limit).
Qed.

Lemma source_confine_spec c : wlp (source_confine host s) (fun r c' => r = Ok tt /\ exists cfg, ss_config s = Some cfg /\ confined c cfg c') c.
Proof.
  unfold source_confine. apply wlp_bind. eapply wlp_mono; [apply fsize_spec|]. intros r c1 (-> & l & -> & Hl). unfold disable_core_dumps, disable_aslr.
  apply wlp_bind, wlp_bind, wlp_lift. intros [] _. apply wlp_update, wlp_bind, wlp_bind, wlp_get. cbv beta iota. apply wlp_bind, wlp_lift. intros [] _. apply wlp_update.
  cbv beta iota. match goal with |- wlp _ _ ?x => set (c1 := x) end.
  apply wlp_bind. eapply (wlp_mono _ (fun r c2 => r = Ok tt /\ exists p, c2 = ch_set_process p c1 /\
     match ss_jail s with Some j => entered j (ch_process c) (Ok tt) p | None => p = ch_process c end)).
  { destruct (ss_jail s) as [j|]; [|apply wlp_ret; split; [done|]; exists (ch_process c); by split].
    apply wlp_in_process. eapply wlp_mono; [apply enter_any|]. intros [[]|e] p Hp; [|done]. split; [done|]. exists p. by split. }
  intros r c2 (-> & p & -> & Hp). apply wlp_bind, wlp_lift. intros cfg Ecfg. apply wlp_bind, wlp_in_process. eapply wlp_mono; [apply chdir_spec|].
  intros [[]|e] p' Hp'; [|done]. subst p'. unfold same_user, same_group. apply wlp_bind, wlp_bind, wlp_get. cbv beta iota. apply wlp_lift. intros [] Euser.
  apply wlp_bind, wlp_get. cbv beta iota. apply wlp_lift. intros [] _. split; [done|]. exists cfg.
  split; [by destruct (ss_config s); [injection Ecfg as <-|]|]. cbn in Euser. destruct (Z.eqb_spec (ruid (ps_creds p)) (euid (ps_creds p))) as [Eu|]; [|done].
  repeat (split; [done|]). cbn. destruct (ss_jail s) as [j|]; [|by rewrite Hp]. cbn in Hp. destruct Hp as (? & ? & ? & ? & ? & _). done.
Qed.

Lemma source_child_spec c :
  SourceFiles (ch_fds c) -> (forall fds fd, k_fresh fds = Some fd -> fds !! fd = None) ->
  wlp (source_child host k_fresh s) (fun r c' => exists ex cfg t1 t2, r = Ok ex /\ ss_config s = Some cfg /\ stdout_target = Some t1 /\ stderr_target = Some t2 /\ SourceStarted c cfg t1 t2 ex c') c.
Proof.
  intros Hf Hfresh. unfold source_child. apply wlp_bind, wlp_update. cbv beta iota zeta. apply wlp_bind, wlp_cstrings. intros _. apply wlp_bind, wlp_cstring.
  apply wlp_bind, wlp_lift. intros shm Eshm. apply wlp_bind, wlp_cstrings. intros _. apply wlp_bind. unfold open_dev_null. apply wlp_bind, wlp_get. cbv beta iota.
  apply wlp_bind, wlp_lift. intros d Ed. apply wlp_bind, wlp_update, wlp_ret.
  assert (Hd : ch_fds c !! d = None). { apply Hfresh. change (ch_fds (ch_set_session c)) with (ch_fds c) in Ed. by destruct (k_fresh (ch_fds c)); [injection Ed as <-|]. }
  apply wlp_bind. eapply wlp_eq; [apply source_stdin_eq|]. apply wlp_bind.
  destruct stdout_target as [t1|] eqn:E1; [|apply wlp_panics; by rewrite source_stdout_eq, E1]. eapply wlp_eq; [by rewrite source_stdout_eq, E1|].
  apply wlp_bind. destruct stderr_target as [t2|] eqn:E2; [|apply wlp_panics; by rewrite source_stderr_eq, E2]. eapply wlp_eq; [by rewrite source_stderr_eq, E2|].
  do 3 (apply wlp_bind; eapply wlp_eq; [apply close_eq|]).
  cbn [ch_fds ch_set_fds ch_set_session ch_process ch_session ch_fsize ch_core ch_no_aslr ch_dev_null]. apply wlp_bind. eapply wlp_mono; [apply source_confine_spec|].
  intros r c' (-> & cfg & Ecfg & Efds & Es & (Hc & Ha & Hl) & Hu & Hcwd & Hj). apply wlp_ret. cbn in Efds, Es.
  eexists _, cfg, t1, t2. do 4 (split; [done|]). destruct (child_fds_spec (ch_fds c) d t1 t2 Hf Hd E1 E2) as (H0 & H1 & H2 & Hin & Hout & _).
  split; rewrite ?Efds; try done. cbn. split; [done|]. split; [done|]. exists shm. by destruct (ss_shm_name s); [injection Eshm as <-|].
Qed.

(** The child gets there when nothing fails. *)
Lemma wp_eq {A} (m : CM A) Q c x c1 : m c = Ret (x, c1) -> Q x c1 -> wp m Q c.
Proof. unfold wp. by intros ->. Qed.
Lemma wp_cstrings l Q c : forallb no_nul l = true -> Q (Ok l) c -> wp (cstrings l) Q c.
Proof. intros Hl HQ. eapply wp_eq; [by rewrite cstrings_eq, Hl|done]. Qed.
Lemma wp_in_process {A} (m : PM A) a p Q c : m (ch_process c) = Ret (Ok a, p) -> Q (Ok a) (ch_set_process p c) -> wp (unwrapped (in_process m)) Q c.
Proof. unfold wp, unwrapped, in_process. by intros ->. Qed.

Definition ready_to_start (c : Child) (cfg : Config) : Prop :=
  ho_setrlimit host = true /\ ch_no_aslr c = false /\
  (forall root, ho_chdir host root (path_str (default (ss_workdir s) (so_working_dir (c_source cfg)))) = true) /\
  match ss_jail s with
  | Some j => HostReady host j /\ privileged (ps_creds (ch_process c)) = true /\ is_Some (jb_drop_to (ja_builder j))
  | None => ruid (ps_creds (ch_process c)) = euid (ps_creds (ch_process c))
  end.

Lemma source_confine_starts c cfg : ss_config s = Some cfg -> ready_to_start c cfg -> wp (source_confine host s) (fun r _ => r = Ok tt) c.
Proof.
  intros Ecfg (Hr & Ha & Hd & Hj). unfold source_confine. apply wp_bind.
  apply (wp_mono _ (fun r c1 => r = Ok tt /\ ch_process c1 = ch_process c /\ ch_no_aslr c1 = false)).
  { unfold set_fsize_limit. rewrite Hr. destruct (negb _ && _); by wp_steps. }
  intros r c1 (-> & Ep & Ha1). unfold disable_core_dumps, disable_aslr. rewrite Hr. apply wp_bind. wp_step. wp_step. wp_step. apply wp_bind. wp_step. wp_step. cbn [ch_no_aslr ch_set_core]. rewrite Ha1. cbn [negb].
  wp_step. wp_step. wp_step. apply wp_bind.
  apply (wp_mono _ (fun r c2 => r = Ok tt /\ ruid (ps_creds (ch_process c2)) = euid (ps_creds (ch_process c2)))).
  { destruct (ss_jail s) as [j|]; [|wp_steps; split; [done|]; cbn; by rewrite Ep]. destruct Hj as (Hh & Hp & [[u g] Hdrop]).
    rewrite <- Ep in Hp. destruct (enter_succeeds host j Hh (ch_process c1) Hp) as [p' E]. eapply wp_in_process; [exact E|]. split; [done|].
    pose proof (enter_any j (ch_process c1) _ _ E) as (_ & _ & _ & Ec & _). cbn. rewrite Ec. unfold dropped. by rewrite Hdrop. }
  intros r c2 (-> & Eu). rewrite Ecfg. cbn [unwrap]. apply wp_bind, (wp_lift _ cfg); [done|]. cbv beta iota. apply wp_bind.
  eapply wp_in_process; [unfold set_current_dir, require, mbind, eff_bind, get; rewrite Hd; reflexivity|].
  unfold same_user, same_group. wp_steps. cbn. rewrite Eu, Z.eqb_refl. wp_steps. cbn. rewrite Z.eqb_refl. by wp_steps.
Qed.

Lemma source_child_starts c cfg shm :
  ss_config s = Some cfg -> ss_shm_name s = Some shm -> forallb no_nul (path_str (ss_path s) :: ss_args s ++ source_envp s shm) = true ->
  is_Some (k_fresh (ch_fds c)) -> is_Some stdout_target -> is_Some stderr_target -> ready_to_start c cfg ->
  exists ex c', source_child host k_fresh s c = Ret (Ok ex, c').
Proof.
  intros Ecfg Eshm Hnul [d Hd] [t1 E1] [t2 E2] Hready. cbn in Hnul. apply andb_true_iff in Hnul as [Hp Hnul]. rewrite forallb_app in Hnul. apply andb_true_iff in Hnul as [Ha He].
  cut (wp (source_child host k_fresh s) (fun r _ => exists ex, r = Ok ex) c); [intros (r & c' & E & ex & ->)%wp_result; eauto|].
  unfold source_child. apply wp_bind. wp_step. apply wp_bind, wp_cstrings; [done|]. apply wp_bind. unfold cstring. rewrite Hp. wp_steps. rewrite Eshm. cbn [unwrap].
  apply (wp_lift _ shm); [done|]. cbv beta iota. apply wp_bind, wp_cstrings; [done|]. apply wp_bind. unfold open_dev_null. wp_steps. cbn [ch_fds ch_set_session]. rewrite Hd. cbn [unwrap].
  apply (wp_lift _ d); [done|]. cbv beta iota. apply wp_bind. wp_step. wp_step. apply wp_bind. eapply wp_eq; [apply source_stdin_eq|]. apply wp_bind.
  eapply wp_eq; [by rewrite source_stdout_eq, E1|]. apply wp_bind. eapply wp_eq; [by rewrite source_stderr_eq, E2|].
  do 3 (apply wp_bind; eapply wp_eq; [apply close_eq|]). apply wp_bind. eapply wp_mono; [by eapply source_confine_starts|]. intros r c' ->. wp_steps. by eexists.
Qed.

(** C15: whatever fails on the way, the child of the source executes its target only with its input,
    its output and its logs on the standard descriptors (nothing else is left open of them),
    without core dumps and address randomisation, with equal real and effective user, in its
    working directory, and, if there is a jail, in the new root of an own mount namespace with
    the working directory mounted and all user and group ids dropped (the supplementary groups
    stay). *)
Theorem source_started_confined c r c' :
  SourceFiles (ch_fds c) -> (forall fds fd, k_fresh fds = Some fd -> fds !! fd = None) ->
  source_child host k_fresh s c = Ret (r, c') ->
  exists ex cfg t1 t2, r = Ok ex /\ ss_config s = Some cfg /\ stdout_target = Some t1 /\ stderr_target = Some t2 /\ SourceStarted c cfg t1 t2 ex c'.
Proof. intros Hf Hfresh E. by apply (source_child_spec c Hf Hfresh). Qed.
End source.

(** ** The child of the sink *)

Section sink.
Context (host : Host) (k_fresh : gmap Z Desc -> option Z) (s : SinkStart).
Context (Hfresh : forall fds fd, k_fresh fds = Some fd -> fds !! fd = None).

(** Open descriptors stay as they are, but for some. *)
Definition fds_kept (but : Z -> Prop) (c c' : Child) : Prop :=
  ch_process c' = ch_process c /\ forall fd, is_Some (ch_fds c !! fd) -> ~ but fd -> ch_fds c' !! fd = ch_fds c !! fd.

Lemma fds_kept_trans (but but' : Z -> Prop) c1 c2 c3 : fds_kept but c1 c2 -> fds_kept but' c2 c3 -> fds_kept (fun fd => but fd \/ but' fd) c1 c3.
Proof.
  intros [Ep1 H1] [Ep2 H2]. split; [congruence|]. intros fd Hfd Hbut. rewrite H2; [apply H1; tauto| |tauto]. rewrite H1; tauto.
Qed.
Lemma fds_kept_weaken (but but' : Z -> Prop) c1 c2 : fds_kept but c1 c2 -> (forall fd, but fd -> but' fd) -> fds_kept but' c1 c2.
Proof. intros [Ep H1] Hb. split; [done|]. intros fd Hfd Hn. apply H1; [done|]. intros Hx. by apply Hn, Hb. Qed.

Lemma open_dev_null_kept c : wlp (open_dev_null k_fresh) (fun r c' => (exists fd, r = Ok fd) /\ fds_kept (fun _ => False) c c') c.
Proof.
  unfold open_dev_null. apply wlp_bind, wlp_get. cbv beta iota. apply wlp_bind, wlp_lift. intros fd Efd. apply wlp_bind, wlp_update, wlp_ret. split; [eauto|].
  split; [done|]. cbn. intros x [y Hx] _. rewrite lookup_insert_ne; [done|]. intros ->. destruct (k_fresh (ch_fds c)) eqn:E; [|done]. injection Efd as ->.
  apply Hfresh in E. congruence.
Qed.
Lemma dev_null_kept c : wlp (dev_null_fd k_fresh) (fun r c' => (exists fd, r = Ok fd) /\ fds_kept (fun _ => False) c c') c.
Proof.
  unfold dev_null_fd. apply wlp_bind, wlp_get. cbv beta iota. destruct (ch_dev_null c) as [fd|]; [apply wlp_ret; split; [eauto|]; by split|].
  apply wlp_bind. eapply wlp_mono; [apply open_dev_null_kept|]. intros r c1 [[fd ->] H1]. apply wlp_bind, wlp_update, wlp_ret. split; [eauto|]. exact H1.
Qed.
Lemma dup2_kept old new c : fds_kept (eq new) c (ch_set_fds (connect old new (ch_fds c)) c).
Proof. split; [done|]. intros fd _ Hne. cbn. by apply connect_ne. Qed.

(** Which descriptor is given up for a log. *)
Definition stdio_changes (fd : Z) : Prop := 0 <= fd <= 2 \/ sn_stdout_file s = Some fd \/ sn_stderr_file s = Some fd.

Lemma null_std c std : 0 <= std <= 2 -> wlp (fd ← dev_null_fd k_fresh; dup2_ fd std) (fun r c' => r = Ok tt /\ fds_kept stdio_changes c c') c.
Proof.
  intros Hstd. apply wlp_bind. eapply wlp_mono; [apply dev_null_kept|]. intros r c1 [[fd ->] H1]. eapply wlp_eq; [apply dup2_eq|]. split; [done|].
  eapply fds_kept_weaken; [exact (fds_kept_trans _ _ _ _ _ H1 (dup2_kept fd std c1))|]. unfold stdio_changes. cbn. intros x [[]|<-]. by left.
Qed.
Lemma connect_log_kept log file std c :
  0 <= std <= 2 -> (forall fd, file = Some fd -> stdio_changes fd) -> wlp (connect_log k_fresh log file std) (fun r c' => r = Ok tt /\ fds_kept stdio_changes c c') c.
Proof.
  intros Hstd Hfile. unfold connect_log. destruct log; [|by apply null_std]. apply wlp_bind, wlp_lift. intros fd Efd. destruct file as [f|]; [|done]. injection Efd as ->.
  eapply wlp_eq; [apply redirect_eq|]. split; [done|]. split; [done|]. intros x _ Hx. cbn. rewrite lookup_delete_ne by (intros ->; by apply Hx, Hfile).
  apply connect_ne. intros ->. apply Hx. by left.
Qed.
Lemma stdin_kept c : wlp (close_stdin_or_connect_to_input_file k_fresh s) (fun r c' => r = Ok tt /\ fds_kept stdio_changes c c') c.
Proof.
  unfold close_stdin_or_connect_to_input_file. destruct (sn_input_channel s); try (apply null_std; lia).
  eapply wlp_eq; [apply dup2_eq|]. split; [done|]. eapply fds_kept_weaken; [apply dup2_kept|]. intros fd <-. left. lia.
Qed.
Lemma logging_kept c : wlp (setup_stdout_stderr_logging k_fresh s) (fun r c' => r = Ok tt /\ fds_kept stdio_changes c c') c.
Proof.
  unfold setup_stdout_stderr_logging. apply wlp_bind. eapply wlp_mono; [apply connect_log_kept; [lia|unfold stdio_changes; auto]|]. intros r c2 [-> H2].
  eapply wlp_mono; [apply connect_log_kept; [lia|unfold stdio_changes; auto]|]. intros r c3 [-> H3]. split; [done|].
  eapply fds_kept_weaken; [exact (fds_kept_trans _ _ _ _ _ H2 H3)|]. cbn. tauto.
Qed.

(** The two ends of a new pipe. *)
Lemma pipe_spec n c :
  wlp (k_pipe k_fresh n) (fun r c' => exists rd wr, r = Ok (rd, wr) /\ rd <> wr /\ ch_fds c !! rd = None /\ ch_fds c !! wr = None /\
     c' = ch_set_fds (<[wr := mk_desc (PipeWrite n) true]> (<[rd := mk_desc (PipeRead n) false]> (ch_fds c))) c) c.
Proof.
  unfold k_pipe. apply wlp_bind, wlp_get. cbv beta iota. apply wlp_bind, wlp_lift. intros rd Er. cbv zeta. apply wlp_bind, wlp_lift. intros wr Ew. apply wlp_bind, wlp_update, wlp_ret.
  assert (Hr : ch_fds c !! rd = None) by (by apply Hfresh, unwrap_Ret).
  assert (Hw : <[rd := mk_desc (PipeRead n) false]> (ch_fds c) !! wr = None) by (by apply Hfresh, unwrap_Ret).
  assert (rd <> wr) by (intros ->; by rewrite lookup_insert_eq in Hw). rewrite lookup_insert_ne in Hw by done. by exists rd, wr.
Qed.

Lemma move_fd_spec old new c d :
  ch_fds c !! old = Some d -> old <> new -> move_fd old new c = Ret (Ok tt, ch_set_fds (delete old (<[new := d]> (ch_fds c))) c).
Proof.
  intros Ed Hne. unfold move_fd. destruct (Z.eqb_spec old new); [done|]. unfold dup2, mbind, eff_bind, get. rewrite Ed. done.
Qed.

(** The ends of the child are moved to the numbers that the fork server expects. *)
Definition moved_fds (sd rc ft crc csd cft : Z) (d1 d2 d3 : Desc) (fds : gmap Z Desc) : gmap Z Desc :=
  delete cft (<[200 := d3]> (delete csd (<[199 := d2]> (delete crc (<[198 := d1]> (delete sd (delete ft (delete rc fds)))))))).

Lemma moved_fds_spec fds sd rc ft crc csd cft d1 d2 d3 :
  NoDup [sd; rc; ft; crc; csd; cft; 198; 199; 200] ->
  let fds' := moved_fds sd rc ft crc csd cft d1 d2 d3 fds in
  fds' !! 198 = Some d1 /\ fds' !! 199 = Some d2 /\ fds' !! 200 = Some d3 /\ Forall (fun fd => fds' !! fd = None) [sd; rc; ft; crc; csd; cft].
Proof.
  intros Hnd. rewrite !NoDup_cons, !not_elem_of_cons in Hnd. destruct_and! Hnd. cbv zeta. unfold moved_fds. do 3 (split; [by fds_simpl|]).
  do 6 (apply Forall_cons; split; [by fds_simpl|]). by apply Forall_nil.
Qed.

Lemma child_fds_moved Q c sd rc ft crc csd cft d1 d2 d3 :
  ch_fds c !! crc = Some d1 -> ch_fds c !! csd = Some d2 -> ch_fds c !! cft = Some d3 ->
  NoDup [sd; rc; ft; crc; csd; cft; 198; 199; 200] ->
  Q (Ok tt) (ch_set_fds (moved_fds sd rc ft crc csd cft d1 d2 d3 (ch_fds c)) c) -> wlp (dup2_child_fds sd rc ft crc csd cft) Q c.
Proof.
  intros E1 E2 E3 Hnd HQ. rewrite !NoDup_cons, !not_elem_of_cons in Hnd. destruct_and! Hnd. unfold dup2_child_fds.
  do 3 (apply wlp_bind; eapply wlp_eq; [apply close_eq|]; cbn [ch_fds ch_set_fds]).
  apply wlp_bind. eapply wlp_eq; [apply (move_fd_spec _ _ _ d1); [cbn [ch_fds ch_set_fds]; by fds_simpl|unfold AFL_READ_FROM_PARENT_FD, FORKSRV_FD; done]|]. cbn [ch_fds ch_set_fds].
  unfold AFL_WRITE_TO_PARENT_FD, AFL_FT_WRITE_TO_PARENT_FD, AFL_READ_FROM_PARENT_FD, FORKSRV_FD. cbn [Z.add Pos.add Pos.succ].
  apply wlp_bind. eapply wlp_eq; [apply (move_fd_spec _ _ _ d2); [cbn [ch_fds ch_set_fds]; by fds_simpl|done]|]. cbn [ch_fds ch_set_fds].
  eapply wlp_eq; [apply (move_fd_spec _ _ _ d3); [cbn [ch_fds ch_set_fds]; by fds_simpl|done]|]. exact HQ.
Qed.

(** Limits, directory and user of the sink; descriptors stay. *)
Lemma fsize_kept c l1 l2 limit : wlp (set_fsize_limit host l1 l2 limit) (fun r c' => r = Ok tt /\ ch_process c' = ch_process c /\ ch_fds c' = ch_fds c) c.
Proof. unfold set_fsize_limit. destruct (_ && _); [|by apply wlp_ret]. apply wlp_bind, wlp_lift. intros [] _. by apply wlp_update. Qed.

Definition privileges_dropped (config : Config) (p p' : Creds) : Prop :=
  exists ids, jail_uid_gid (c_general config) = Ret ids /\
  match ids with Some (u, g) => k_setgid g p ≫= k_setuid u = Some p' | None => p' = p end.

Lemma wrap_libc_spec call p :
  wlp (wrap_libc call) (fun r p' => match r with Ok _ => exists c, call (ps_creds p) = Some c /\ p' = ps_set_creds c p | Err _ => True end) p.
Proof. unfold wrap_libc, fail_jail. apply wlp_bind, wlp_get. cbv beta iota. destruct (call _) as [c|] eqn:E; [apply wlp_update; eauto|by apply wlp_of_result]. Qed.

Lemma sink_drop_spec config c :
  wlp (sink_drop_privileges config)
      (fun r c' => r = Ok tt /\ ch_fds c' = ch_fds c /\ privileges_dropped config (ps_creds (ch_process c)) (ps_creds (ch_process c'))) c.
Proof.
  unfold sink_drop_privileges, privileges_dropped. apply wlp_bind, wlp_lift. intros ids Eids. destruct ids as [[u g]|]; [|apply wlp_ret; do 2 (split; [done|]); by exists None].
  apply wlp_bind, wlp_in_process. eapply wlp_mono; [apply wrap_libc_spec|]. intros [[]|e] p1 H1; [|done]. destruct H1 as (c1 & E1 & ->).
  apply wlp_in_process. eapply wlp_mono; [apply wrap_libc_spec|]. intros [[]|e] p2 H2; [|done]. destruct H2 as (c2 & E2 & ->).
  split; [done|]. split; [done|]. exists (Some (u, g)). split; [done|]. rewrite E1. exact E2.
Qed.

Record SinkStarted (c : Child) (ex : Exec) (c' : Child) : Prop := {
  sd_pipes : ch_fds c' !! 198 = Some (mk_desc (PipeRead 0) false) /\ ch_fds c' !! 199 = Some (mk_desc (PipeWrite 1) true) /\ ch_fds c' !! 200 = Some (mk_desc (PipeWrite 2) true);
  sd_user : ruid (ps_creds (ch_process c')) = euid (ps_creds (ch_process c'));
  sd_privileges : if sn_enable_rr s then ps_creds (ch_process c') = ps_creds (ch_process c)
                  else privileges_dropped (sn_config s) (ps_creds (ch_process c)) (ps_creds (ch_process c'));
  sd_cwd : ps_cwd (ch_process c') = path_str (default (sn_workdir s) (si_working_dir (c_sink (sn_config s))));
  sd_exec : ex_envp ex = sink_envp s /\ exists before, ex_argv ex = before ++ path_str (sn_path s) :: sn_args s;
}.

Lemma sink_confine_spec c :
  wlp (sink_confine host s) (fun r c' => r = Ok tt /\ ch_fds c' = ch_fds c /\ ruid (ps_creds (ch_process c')) = euid (ps_creds (ch_process c')) /\
    (if sn_enable_rr s then ps_creds (ch_process c') = ps_creds (ch_process c) else privileges_dropped (sn_config s) (ps_creds (ch_process c)) (ps_creds (ch_process c'))) /\
    ps_cwd (ch_process c') = path_str (default (sn_workdir s) (si_working_dir (c_sink (sn_config s))))) c.
Proof.
  unfold sink_confine. apply wlp_bind. eapply wlp_mono; [apply fsize_kept|]. intros r c1 (-> & Ep1 & Ef1). unfold disable_core_dumps, disable_aslr.
  apply wlp_bind, wlp_bind, wlp_lift. intros [] _. apply wlp_update, wlp_bind, wlp_bind, wlp_get. cbv beta iota. apply wlp_bind, wlp_lift. intros [] _. apply wlp_update.
  apply wlp_bind. eapply (wlp_mono _ (fun r c2 => r = Ok tt /\ ch_fds c2 = ch_fds c /\
    if sn_enable_rr s then ps_creds (ch_process c2) = ps_creds (ch_process c) else privileges_dropped (sn_config s) (ps_creds (ch_process c)) (ps_creds (ch_process c2)))).
  { destruct (sn_enable_rr s); [apply wlp_ret; cbn; by rewrite Ep1, Ef1|]. eapply wlp_mono; [apply sink_drop_spec|]. cbn. by rewrite Ep1, Ef1. }
  intros r c2 (-> & Ef2 & Hc2). apply wlp_bind, wlp_in_process. eapply wlp_mono; [apply chdir_spec|]. intros [[]|e] p' Hp'; [|done]. subst p'.
  unfold same_user, same_group. apply wlp_bind, wlp_bind, wlp_get. cbv beta iota. apply wlp_lift. intros [] Euser.
  apply wlp_bind, wlp_get. cbv beta iota. apply wlp_lift. intros [] _. cbn in Euser.
  destruct (Z.eqb_spec (ruid (ps_creds (ch_process c2))) (euid (ps_creds (ch_process c2)))) as [Eu|]; [|done]. by split.
Qed.

(** New descriptors differ from open ones. *)
Lemma pipes_differ (fds : gmap Z Desc) a1 b1 a2 b2 a3 b3 da1 db1 da2 db2 :
  (forall fd, 198 <= fd <= 200 -> is_Some (fds !! fd)) ->
  a1 <> b1 -> fds !! a1 = None -> fds !! b1 = None ->
  a2 <> b2 -> <[b1:=db1]> (<[a1:=da1]> fds) !! a2 = None -> <[b1:=db1]> (<[a1:=da1]> fds) !! b2 = None ->
  a3 <> b3 -> <[b2:=db2]> (<[a2:=da2]> (<[b1:=db1]> (<[a1:=da1]> fds))) !! a3 = None -> <[b2:=db2]> (<[a2:=da2]> (<[b1:=db1]> (<[a1:=da1]> fds))) !! b3 = None ->
  NoDup [b1; a2; a3; a1; b2; b3; 198; 199; 200] /\ fds !! a1 = None /\ fds !! b2 = None /\ fds !! b3 = None.
Proof.
  intros Hres H1 Ha1 Hb1 H2 Ha2 Hb2 H3 Ha3 Hb3. rewrite !lookup_insert_None in *. destruct_and!.
  assert (Hold : forall x fd, fds !! x = None -> 198 <= fd <= 200 -> x <> fd) by (intros x fd Hx Hfd ->; destruct (Hres fd Hfd); congruence).
  split; [|done]. rewrite !NoDup_cons, !not_elem_of_cons. assert (Hno : forall x : Z, x ∉ []) by (intros x; apply not_elem_of_nil).
  repeat split; first [done | by apply not_eq_sym | by apply Hold | by apply NoDup_nil].
Qed.

(** C16: if the descriptors 198 to 200 were reserved before, the fork server of the sink is executed with
    its end of the control pipe at 198 and its ends of the status pipes at 199 and 200,
    whatever numbers the pipes got; the privileges are dropped unless [rr] records the run, and
    real and effective user are the same. *)
Theorem forkserver_pipes_connected c r c' :
  (forall fd, 198 <= fd <= 200 -> is_Some (ch_fds c !! fd)) ->
  (forall fd, stdio_changes fd -> is_Some (ch_fds c !! fd)) ->
  sink_child host k_fresh s c = Ret (r, c') -> exists ex, r = Ok ex /\ SinkStarted c ex c'.
Proof.
  intros Hres Hstd. cut (wlp (sink_child host k_fresh s) (fun r c' => exists ex, r = Ok ex /\ SinkStarted c ex c') c); [intros Hw E; by apply Hw|].
  unfold sink_child. apply wlp_bind. eapply wlp_mono; [apply pipe_spec|]. intros x c1 (a1 & b1 & -> & N1 & Ha1 & Hb1 & ->).
  apply wlp_bind. eapply wlp_mono; [apply pipe_spec|]. intros x c2 (a2 & b2 & -> & N2 & Ha2 & Hb2 & ->).
  apply wlp_bind. eapply wlp_mono; [apply pipe_spec|]. intros x c3 (a3 & b3 & -> & N3 & Ha3 & Hb3 & ->).
  cbn [ch_fds ch_set_fds] in Ha2, Hb2, Ha3, Hb3.
  destruct (pipes_differ (ch_fds c) a1 b1 a2 b2 a3 b3 _ _ _ _ Hres N1 Ha1 Hb1 N2 Ha2 Hb2 N3 Ha3 Hb3) as (Hnd & Hn1 & Hn2 & Hn3).
  apply wlp_bind, wlp_update, wlp_bind, wlp_cstring, wlp_bind, wlp_cstrings. intros _. cbv zeta. apply wlp_bind, wlp_cstrings. intros _.
  apply wlp_bind. eapply wlp_mono; [apply stdin_kept|]. intros x c4 [-> K4]. apply wlp_bind. eapply wlp_mono; [apply logging_kept|]. intros x c5 [-> K5].
  destruct (fds_kept_trans _ _ _ _ _ K4 K5) as [Ep5 K]. cbn [ch_fds ch_set_fds ch_set_session ch_process] in K, Ep5.
  assert (Hpipe : forall fd d, ch_fds c !! fd = None ->
    <[b3:=mk_desc (PipeWrite 2) true]> (<[a3:=mk_desc (PipeRead 2) false]> (<[b2:=mk_desc (PipeWrite 1) true]> (<[a2:=mk_desc (PipeRead 1) false]>
      (<[b1:=mk_desc (PipeWrite 0) true]> (<[a1:=mk_desc (PipeRead 0) false]> (ch_fds c)))))) !! fd = Some d -> ch_fds c5 !! fd = Some d).
  { intros fd d Hn Hd. rewrite K; [done|by eexists|]. intros [H|H]; apply Hstd in H as [? H]; congruence. }
  pose proof Hnd as Hdiff. rewrite !NoDup_cons, !not_elem_of_cons in Hdiff. destruct_and! Hdiff.
  apply wlp_bind. eapply child_fds_moved; [apply Hpipe; [done|by fds_simpl]|apply Hpipe; [done|by fds_simpl]|apply Hpipe; [done|by fds_simpl]|done|].
  apply wlp_bind. eapply wlp_mono; [apply sink_confine_spec|]. intros x c6 (-> & Ef6 & Eu & Hc & Hcwd). apply wlp_ret. cbn in Ef6, Hc. rewrite Ep5 in Hc.
  eexists. split; [done|]. destruct (moved_fds_spec (ch_fds c5) _ _ _ _ _ _ (mk_desc (PipeRead 0) false) (mk_desc (PipeWrite 1) true) (mk_desc (PipeWrite 2) true) Hnd) as (M1 & M2 & M3 & _).
  split; rewrite ?Ef6; [done|done|done|done|]. destruct (sn_enable_rr s); (split; [done|]); [by exists rr_args|by exists []].
Qed.
End sink.

(** The descriptors are reserved, if they were free. *)
Lemma forkserver_fds_reserved k_fresh c d :
  k_fresh (ch_fds c) = Some d -> ~ 198 <= d <= 200 ->
  exists c', reserver_forkserver_fds_once k_fresh false c = Ret (Ok tt, c') /\ forall fd, 198 <= fd <= 200 -> is_Some (ch_fds c' !! fd).
Proof.
  intros Ed Hd. cut (wp (reserver_forkserver_fds_once k_fresh false) (fun r c' => r = Ok tt /\ forall fd, 198 <= fd <= 200 -> is_Some (ch_fds c' !! fd)) c).
  { intros (r & c' & E & -> & H)%wp_result. eauto. }
  unfold reserver_forkserver_fds_once, open_dev_null. apply wp_bind. wp_steps. rewrite Ed. apply (wp_lift _ d); [done|]. cbv beta iota. apply wp_bind. wp_step. wp_step.
  do 3 (apply wp_bind; eapply wp_eq; [apply dup2_eq|]). eapply wp_eq; [apply close_eq|]. split; [done|]. cbn [ch_fds ch_set_fds].
  unfold AFL_READ_FROM_PARENT_FD, AFL_WRITE_TO_PARENT_FD, AFL_FT_WRITE_TO_PARENT_FD, FORKSRV_FD. change (198 + 1) with 199. change (198 + 2) with 200. intros fd Hfd.
  assert (fd = 198 \/ fd = 199 \/ fd = 200) as [-> |[-> | ->]] by lia; fds_simpl; by eexists.
Qed.

(** ** The queues of the agent *)

(** What the agent sends the source receives, and the other way round. *)
Lemma agent_finds_queues s shm mq_open :
  mq_open (ss_mq_recv_name s) = true -> mq_open (ss_mq_send_name s) = true ->
  from_env mq_open (source_envp s shm) = Ok (ss_mq_recv_name s, ss_mq_send_name s).
Proof.
  intros Hr Hs. unfold from_env.
  assert (getenv (source_envp s shm) "FT_MQ_RECV" = Some (ss_mq_send_name s)) as -> by reflexivity.
  assert (getenv (source_envp s shm) "FT_MQ_SEND" = Some (ss_mq_recv_name s)) as -> by reflexivity. by rewrite Hr, Hs.
Qed.

(** ** Fork servers that do not stop *)

Lemma stop_with_normal server t1 t2 :
  sv_pidfd_open server = true -> sv_poll server = true -> sv_waitpid server = true ->
  stop_with server t1 t2 [] = if sv_ends server [SIGTERM] then Some (tt, [SIGTERM]) else None.
Proof.
  intros H1 H2 H3. unfold stop_with, wait_pid_timeout, poll_pidfd, waitpid, kill, mbind, stopping_bind, mret, stopping_ret. rewrite H1, H2, H3. cbn. by destruct (sv_ends server [SIGTERM]).
Qed.

(** C31: the timeouts of [wait_pid_timeout] have no effect: after [poll] it waits for the process without
    a limit.  Stopping the source or the sink returns exactly when the fork server ends on
    SIGTERM, however long this takes; for one that ignores it the call never returns, and SIGKILL
    is never sent. *)
Theorem stubborn_server_blocks server sid :
  sv_pidfd_open server = true -> sv_poll server = true -> sv_waitpid server = true ->
  let stopped := if sv_ends server [SIGTERM] then Some (tt, [SIGTERM]) else None in
  stop_forkserver server [] = stopped /\ AflSink_stop server (Some sid) [] = stopped.
Proof. intros H1 H2 H3. split; by apply stop_with_normal. Qed.
Lemma stubborn_server_blocks_witness :
  stop_forkserver (mk_server (fun l => bool_decide (SIGKILL ∈ l)) (fun _ _ => false) true true true) [] = None /\
  AflSink_stop (mk_server (fun l => bool_decide (SIGKILL ∈ l)) (fun _ _ => false) true true true) (Some 7) [] = None.
Proof. exact (stubborn_server_blocks (mk_server (fun l => bool_decide (SIGKILL ∈ l)) (fun _ _ => false) true true true) 7 eq_refl eq_refl eq_refl). Defined.

(** ** A concrete start *)

Module LaunchExample.

(** The lowest number that is not in use. *)
Definition lowest_free (fds : gmap Z Desc) : option Z := snd <$> list_find (fun n => fds !! n = None) (seqZ 0 1024).
Lemma lowest_free_new fds fd : lowest_free fds = Some fd -> fds !! fd = None.
Proof. unfold lowest_free. intros ([i x] & (_ & Hx & _)%list_find_Some & ->)%fmap_Some. exact Hx. Qed.

Definition host : Host :=
  mk_host true (fun _ => true) (fun _ => true) (fun _ => true) (fun _ _ => true) (fun _ => true) (Some "/tmp/ft_jail_x"%string) true
    (fun _ => None) (fun _ _ => true) true true (fun _ => None) (fun _ => Ok 1%nat).
Definition config : Config :=
  mk_config (mk_general_config (path "/in") (path "/w") (secs 300) (Some 1000) (Some 1000) false)
    (mk_source_config [] (path "/bin/s") [] In_Stdin Out_File None false true None None None None None None None) PhasesConfig_default
    (mk_sink_config (path "/bin/t") [] [] In_Stdin Out_None false false false None None None None false) None
    (mk_vanilla_config [] (path "/bin/t") []) None None None.

Definition jail : option Jail := match source_jail host (Some config) (path "/w/0/source/workdir") with Ret (Ok j) => j | _ => None end.
Definition file (p : string) : Desc := mk_desc (RegularFile p) true.
(** Input 3, output 4, log of the errors 5. *)
Definition source : SourceStart :=
  mk_source_start (path "/bin/s") ["-o"; "/w/out"]%string (path "/w/0/source/workdir") In_Stdin Out_File 3 4 None (Some 5) "/mq_send_1" "/mq_recv_1" false true "INFO"
    (Some "/ft_shm_1"%string) (Some config) jail.
Definition root_process : Process := mk_process (mk_creds 0 0 0 0 0 0 [0]) false [] "/" "/" 0 (1024, 1024).
Definition parent (fds : gmap Z Desc) : Child := mk_child root_process fds false None None false None.
Definition fds : gmap Z Desc := list_to_map [(0, file "tty"); (1, file "tty"); (2, file "tty"); (3, file "in"); (4, file "out"); (5, file "log")].
Definition started : Child := match source_child host lowest_free source (parent fds) with Ret (_, c) => c | Panic => parent fds end.

Lemma files_open : SourceFiles source (ch_fds (parent fds)).
Proof.
  split.
  - intros fd Hfd. assert (fd = 0 \/ fd = 1 \/ fd = 2) as [-> |[-> | ->]] by lia; by eexists.
  - split; [cbn; lia|by eexists].
  - split; [cbn; lia|]. split; [by eexists|done].
  - done.
  - intros fd [= <-]. split; [lia|]. split; [by eexists|]. done.
Qed.

Definition sink : SinkStart :=
  mk_sink_start (path "/bin/t") [] (path "/w/0/sink") In_Stdin 3 None None false false (path "/w/0/sink/latest-asan-report") 11 65536 None false config.
Definition reserved : gmap Z Desc := list_to_map [(0, file "tty"); (1, file "tty"); (2, file "tty"); (3, file "in"); (198, null_desc); (199, null_desc); (200, null_desc)].
Definition sink_started : Child := match sink_child host lowest_free sink (parent reserved) with Ret (_, c) => c | Panic => parent reserved end.
End LaunchExample.

Lemma source_started_confined_witness :
  ps_creds (ch_process LaunchExample.started) = mk_creds 1000 1000 1000 1000 1000 1000 [0] /\
  exists ex cfg t1 t2, ss_config LaunchExample.source = Some cfg /\ stdout_target LaunchExample.source = Some t1 /\ stderr_target LaunchExample.source = Some t2 /\
    SourceStarted LaunchExample.source (LaunchExample.parent LaunchExample.fds) cfg t1 t2 ex LaunchExample.started.
Proof.
  split; [vm_compute; reflexivity|].
  destruct (source_started_confined LaunchExample.host LaunchExample.lowest_free LaunchExample.source (LaunchExample.parent LaunchExample.fds)
    (match source_child LaunchExample.host LaunchExample.lowest_free LaunchExample.source (LaunchExample.parent LaunchExample.fds) with Ret (r, _) => r | Panic => Err OsError end)
    LaunchExample.started LaunchExample.files_open LaunchExample.lowest_free_new) as (ex & cfg & t1 & t2 & _ & H).
  - vm_compute; reflexivity.
  - by exists ex, cfg, t1, t2.
Defined.

Lemma forkserver_pipes_connected_witness :
  exists ex, SinkStarted LaunchExample.sink (LaunchExample.parent LaunchExample.reserved) ex LaunchExample.sink_started.
Proof.
  destruct (forkserver_pipes_connected LaunchExample.host LaunchExample.lowest_free LaunchExample.sink LaunchExample.lowest_free_new (LaunchExample.parent LaunchExample.reserved)
    (match sink_child LaunchExample.host LaunchExample.lowest_free LaunchExample.sink (LaunchExample.parent LaunchExample.reserved) with Ret (r, _) => r | Panic => Err OsError end)
    LaunchExample.sink_started) as (ex & _ & H).
  - intros fd Hfd. assert (fd = 198 \/ fd = 199 \/ fd = 200) as [-> |[-> | ->]] by lia; by eexists.
  - intros fd [Hfd|[Hfd|Hfd]]; [|discriminate Hfd..]. assert (fd = 0 \/ fd = 1 \/ fd = 2) as [-> |[-> | ->]] by lia; by eexists.
  - vm_compute; reflexivity.
  - by exists ex.
Defined.

(** ** The marker of the output *)

Module MarkerTheorems.
Import SourceArgs.

Definition markers (l : list string) : nat := length (List.filter (str_contains "$$") l).
Definition with_output (out a : string) : string := if str_contains "$$" a then replace "$$" out a else a.

Lemma existsb_markers l : existsb (str_contains "$$") l = negb (markers l =? 0)%nat.
Proof. induction l as [|a l IH]; [done|]. cbn [existsb]. unfold markers in *. cbn [List.filter]. by destruct (str_contains "$$" a). Qed.

(** Every argument with a marker removes the file, which is there once. *)
Lemma replace_outputs_gone out l a :
  sa_output_exists a = false -> replace_outputs out l a = Ret (if (markers l =? 0)%nat then Ok (with_output out <$> l) else Err FatalIOError, a).
Proof.
  intros Ha. induction l as [|x l IH]; [done|]. cbn [replace_outputs]. unfold markers, with_output in *. cbn [List.filter fmap list_fmap].
  destruct (str_contains "$$" x).
  - unfold remove_output, mbind, eff_bind, get. by rewrite Ha.
  - unfold mbind at 1, eff_bind at 1, mret at 1, eff_ret at 1. unfold mbind, eff_bind. rewrite IH. by destruct (_ =? 0)%nat.
Qed.
Lemma replace_outputs_once out l a :
  sa_output_exists a = true ->
  replace_outputs out l a =
    Ret (if (markers l <=? 1)%nat then Ok (with_output out <$> l) else Err FatalIOError, if (markers l =? 0)%nat then a else mk_args (sa_args a) (sa_output a) false).
Proof.
  intros Ha. induction l as [|x l IH]; [done|]. cbn [replace_outputs]. unfold markers, with_output in *. cbn [List.filter fmap list_fmap].
  destruct (str_contains "$$" x).
  - unfold mbind at 1, eff_bind at 1. unfold remove_output at 1, mbind at 1, eff_bind at 1, mbind at 1, eff_bind at 1, get at 1. rewrite Ha. unfold update at 1, mret at 1, eff_ret at 1.
    unfold mbind, eff_bind. rewrite replace_outputs_gone by done. unfold markers, with_output. cbn [length]. by destruct (length _).
  - unfold mbind at 1, eff_bind at 1, mret at 1, eff_ret at 1. unfold mbind, eff_bind. rewrite IH. by destruct (length _) as [|[|n]].
Qed.

(** An output that goes to a file needs the marker [$$] in exactly one argument: without one
    the source is rejected, and with two the file that is removed for the first one cannot be
    removed again, so that it is rejected with an error of the file system. *)
Theorem output_marker_once temp input_channel input_path suffix a :
  input_channel <> In_File -> existsb (String.eqb "@$") (sa_args a) = false -> sa_output_exists a = true ->
  exists a', prepare temp input_channel Out_File input_path suffix a =
      Ret (match markers (sa_args a) with O => Err MissingFileIdentifier | 1%nat => Ok tt | _ => Err FatalIOError end, a') /\
    (markers (sa_args a) = 1%nat -> sa_args a' = replace_markers temp (with_output (sa_output a) <$> sa_args a)).
Proof.
  intros Hin Hat Ha. unfold prepare. unfold mbind at 1, eff_bind at 1, get at 1. rewrite Hat.
  assert (E : match input_channel with In_File => if existsb (str_contains "@@") (sa_args a)
      then update (fun a => set_args ((fun s => if str_contains "@@" s then replace "@@" input_path s else s) <$> sa_args a) a) else of_result (Err MissingFileIdentifier) | _ => mret tt end
      = (mret tt : AM unit)) by (by destruct input_channel).
  rewrite E. unfold mbind, eff_bind, mret, eff_ret, get. rewrite existsb_markers. destruct (markers (sa_args a)) as [|[|n]] eqn:Em; cbn [negb Nat.eqb]; [by eexists| |];
    rewrite replace_outputs_once, Em by done; cbn [Nat.leb Nat.eqb update of_result]; by eexists.
Qed.

End MarkerTheorems.
