(* ===== verification/Valgrind.v ===== *)
(** * Running the inputs of a campaign under Valgrind

    Models [scheduler/src/valgrind/core.rs]: looking for inputs that were not examined before,
    running the target on them, putting the reports into buckets, and the file that remembers
    the inputs from one start to the next.  What is on disk and what the target does is the
    record [VgWorld], asked with a number that grows with every question; only the files that
    the manager writes are part of the state.  The digest of the [sha2] crate and the format
    of [serde_json] are arguments.  The inputs that the pool of threads works on are processed
    as a whole each, in the order in which they are completed, which the world chooses; when
    the request to stop is seen, the inputs that the other threads are working on are still
    completed.  Texts are sequences of bytes. *)

From Stdlib Require Import Ascii.
From stdpp Require Import pretty.
From S2P Require Import Prelude Effects Phases Config ConfigTheorems CoverageTrace Coverage.

(** ** The text of a report *)

Definition newline : ascii := ascii_of_nat 10.

(** The lines that are ended by a newline. *)
Fixpoint full_lines (s : string) : list string :=
  match s with
  | EmptyString => []
  | String c s =>
      if Ascii.eqb c newline then EmptyString :: full_lines s
      else match full_lines s with [] => [] | l :: ls => String c l :: ls end
  end.

(** The match at the last position, which [.*] prefers. *)
Fixpoint last_match {A} (m : string -> option A) (s : string) : option A :=
  match s with
  | EmptyString => m EmptyString
  | String _ s' => match last_match m s' with Some a => Some a | None => m s end
  end.

(** [by (0x[0-9a-fA-F]+):] *)
Definition by_address (s : string) : option string :=
  s ← lit "by 0x" s; '(h, s) ← some is_hex s; _ ← lit ":" s; Some ("0x" +:+ h).
(** [==.*by (0x[0-9a-fA-F]+):.*\n] on a full line. *)
Definition frame_address (line : string) : option string :=
  s ← search (lit "==") line; last_match by_address s.

Definition get_address_stack_trace (report : string) : list string := omap frame_address (full_lines report).

(** The text before the last match of a word. *)
Fixpoint before_last (w s : string) : option string :=
  match s with
  | EmptyString => match w with EmptyString => Some EmptyString | _ => None end
  | String c s' =>
      match before_last w s' with
      | Some p => Some (String c p)
      | None => match lit w s with Some _ => Some EmptyString | None => None end
      end
  end.
(** [(.+)] followed by the word. *)
Definition some_before_last (w s : string) : option string :=
  p ← before_last w s; match p with EmptyString => None | _ => Some p end.

(** The text without a closing parenthesis at its end. *)
Fixpoint strip_close (s : string) : option string :=
  match s with
  | EmptyString => None
  | String c EmptyString => if Ascii.eqb c ")"%char then Some EmptyString else None
  | String c s => String c <$> strip_close s
  end.

(** Three question marks or any text, a blank and a part in parentheses at the end of the line. *)
Definition name_and_place (s : string) : option string :=
  s ← strip_close s;
  match lit "??? (" s with Some _ => Some "???"%string | None => some_before_last " (" s end.
(** From [at] or [by] to the end of the line. *)
Definition frame_tail (s : string) : option string :=
  s ← match lit "at 0x" s with Some s => Some s | None => lit "by 0x" s end;
  '(_, s) ← some is_hex s; s ← lit ": " s; name_and_place s.
Definition frame_name (line : string) : option string := s ← search (lit "==") line; last_match frame_tail s.

(** [function_names.sort()] *)
Definition str_le (a b : string) : Prop := String.leb a b = true.
#[export] Instance str_le_dec : RelDecision str_le := fun a b => decide (String.leb a b = true).

Definition function_names (report : string) : list string :=
  let names : gset string := list_to_set (omap frame_name (full_lines report)) in
  merge_sort str_le (filter (fun e => e <> "???"%string /\ e <> "(below main)"%string) (elements names)).

(** [default action of signal \d+ \((.+)\)] *)
Definition first_line (s : string) : string := (span (fun c => negb (Ascii.eqb c newline)) s).1.
Definition SIGNAL_REGEX : string -> option string :=
  search (fun s => s ← lit "default action of signal " s; '(_, s) ← some is_digit s; s ← lit " (" s; some_before_last ")" (first_line s)).

Definition signal_class (report : string) : list string :=
  if Blocks.contains "default action of signal" report
  then match SIGNAL_REGEX report with Some cap => [cap] | None => [] end else [].
Definition class_if (found : bool) (name : string) : list string := if found then [name] else [].

(** Each class is pushed with a [+] after it; the last [+] is removed. *)
Definition push_class (classification name : string) : string := classification +:+ name +:+ "+".
Definition pop (s : string) : string := String.substring 0 (String.length s - 1) s.

Definition get_classification_string (report : string) : string :=
  let classification := foldl push_class EmptyString
    (signal_class report ++
     class_if (Blocks.contains "Invalid write" report) "invalidwrite" ++
     class_if (Blocks.contains "Invalid read" report) "invalidread" ++
     class_if (Blocks.contains "uninitialised value" report) "uninitval") in
  match classification with EmptyString => "unknown"%string | s => pop s end.

(** The last part of a path that does not end in a slash. *)
Definition file_name (p : PathBuf) : option string :=
  match after_last_slash (path_str p) with
  | EmptyString => None
  | n => if String.eqb n ".." then None else Some n
  end.
(** [with_extension("report")] on the name of a file. *)
Definition report_name (name : string) : string :=
  match before_last "." name with
  | None | Some EmptyString => name
  | Some stem => stem
  end +:+ ".report".

(** ** The manager *)

Definition seconds (n : Z) : Z := n * 10 ^ 9.
Definition DEFAULT_TIMEOUT : Z := seconds 60.
Definition DEFAULT_SCAN_INTERVAL : Z := seconds 300.

Record ValgrindManager := mk_valgrind {
  vm_known_inputs : gset string;
  vm_inputs_queue : list PathBuf;
  vm_findings : gmap string PathBuf;
  vm_save_path : PathBuf;
  vm_scan_interval : Z;
  vm_input_directories : list PathBuf;
  vm_valgrind_options : list string;
  vm_timeout : Z;
  vm_target_binary : PathBuf;
  vm_target_args : list string;
  vm_env : list (string * string);
  vm_config : option Config;
  vm_job_cnt : option Z;
  vm_pool_initialized : bool;
}.

(** A prepared process; the input is a file, or nothing. *)
Record VgCommand := mk_vg_command {
  vc_args : list string;
  vc_envs : list (string * string);
  vc_stdin : option PathBuf;
}.

(** A write that fails may have replaced a part of the file. *)
Inductive WriteResult := Written | WriteFailed (left_over : option string).

Record VgWorld := mk_vg_world {
  (** [Path::exists], [Path::is_dir] *)
  wo_exists : nat -> PathBuf -> bool;
  wo_is_dir : nat -> PathBuf -> bool;
  (** the entries of a directory, in no particular order *)
  wo_read_dir : nat -> PathBuf -> option (list (result unit string));
  (** the content of an input or a temporary file *)
  wo_read : nat -> PathBuf -> option string;
  (** a new temporary file *)
  wo_temp : nat -> option PathBuf;
  (** the exit code, and the report if it is a text *)
  wo_output : nat -> VgCommand -> option (option Z * option string);
  (** the file of known inputs can be read *)
  wo_readable : nat -> PathBuf -> bool;
  wo_create_dir_all : nat -> PathBuf -> bool;
  wo_write : nat -> PathBuf -> string -> WriteResult;
  wo_setrlimit : nat -> bool;
  wo_build_pool : nat -> Z -> bool;
  wo_schedule : nat -> list PathBuf -> list PathBuf;
  (** the request to stop, and the number of threads that are at work when it is seen *)
  wo_terminate : nat -> bool;
  wo_busy : nat -> nat;
}.

(** What happens to inputs: one is queued for its digest, one is processed (with or without an
    error), the known digests are written. *)
Inductive VgEvent :=
| Queued (input : PathBuf) (hash : string)
| Processed (input : PathBuf) (failed : bool)
| StoredKnown (known : gset string).

(** Files are named by their directory and their name; the newest event is the first one. *)
Record VgState := mk_vg_state {
  vs_manager : ValgrindManager;
  vs_files : gmap (string * string) string;
  vs_step : nat;
  vs_log : list VgEvent;
}.

Definition VG (A : Type) : Type := eff VgState unit A.
Definition vs_set_manager (f : ValgrindManager -> ValgrindManager) s := mk_vg_state (f (vs_manager s)) (vs_files s) (vs_step s) (vs_log s).
Definition vs_write dir name text s := mk_vg_state (vs_manager s) (<[(path_str dir, name) := text]> (vs_files s)) (vs_step s) (vs_log s).
Definition vs_event e s := mk_vg_state (vs_manager s) (vs_files s) (vs_step s) (e :: vs_log s).
Definition vs_tick s := mk_vg_state (vs_manager s) (vs_files s) (S (vs_step s)) (vs_log s).

Definition vm_set_queue l m := mk_valgrind (vm_known_inputs m) l (vm_findings m) (vm_save_path m) (vm_scan_interval m) (vm_input_directories m)
  (vm_valgrind_options m) (vm_timeout m) (vm_target_binary m) (vm_target_args m) (vm_env m) (vm_config m) (vm_job_cnt m) (vm_pool_initialized m).
Definition vm_set_known k m := mk_valgrind k (vm_inputs_queue m) (vm_findings m) (vm_save_path m) (vm_scan_interval m) (vm_input_directories m)
  (vm_valgrind_options m) (vm_timeout m) (vm_target_binary m) (vm_target_args m) (vm_env m) (vm_config m) (vm_job_cnt m) (vm_pool_initialized m).
Definition vm_set_pool b m := mk_valgrind (vm_known_inputs m) (vm_inputs_queue m) (vm_findings m) (vm_save_path m) (vm_scan_interval m) (vm_input_directories m)
  (vm_valgrind_options m) (vm_timeout m) (vm_target_binary m) (vm_target_args m) (vm_env m) (vm_config m) (vm_job_cnt m) b.

Definition fail_vg {A} : VG A := of_result (Err tt).
Definition ensure (b : bool) : VG unit := if b then mret tt else fail_vg.
Definition of_option {A} (o : option A) : VG A := match o with Some a => mret a | None => fail_vg end.

(** ** Durations, as [{:?}] prints them *)

(** [w] digits of [n], without the zeros at the end. *)
Fixpoint fraction (w : nat) (n : Z) : string :=
  match w with
  | O => EmptyString
  | S w =>
      if n =? 0 then EmptyString
      else pretty (Z.to_N (n / 10 ^ Z.of_nat w)) +:+ fraction w (n mod 10 ^ Z.of_nat w)
  end.
Definition decimal (whole : Z) (w : nat) (part : Z) (suffix : string) : string :=
  pretty (Z.to_N whole) +:+ (if part =? 0 then EmptyString else "." +:+ fraction w part) +:+ suffix.
(** The sign of micro is written in two bytes. *)
Definition micro : string := String (ascii_of_nat 194) (String (ascii_of_nat 181) EmptyString).
Definition fmt_duration (ns : Z) : string :=
  if 10 ^ 9 <=? ns then decimal (ns / 10 ^ 9) 9 (ns mod 10 ^ 9) "s"
  else if 10 ^ 6 <=? ns then decimal (ns / 10 ^ 6) 6 (ns mod 10 ^ 6) "ms"
  else if 10 ^ 3 <=? ns then decimal (ns / 10 ^ 3) 3 (ns mod 10 ^ 3) (micro +:+ "s")
  else decimal ns 0 0 "ns".

Section valgrind.
(** The crates: the digest in hexadecimal, and sets of texts in JSON. *)
Context (sha256_hex : string -> string) (to_json : gset string -> string) (from_json : string -> option (gset string)).
Context (world : VgWorld).

Definition look {A} (f : VgWorld -> nat -> A) : VG A := fun s => Ret (Ok (f world (vs_step s)), vs_tick s).
Definition manager {A} (f : ValgrindManager -> A) : VG A := get (fun s => f (vs_manager s)).

Definition hash_bytes (t : string) : string := sha256_hex t.
(** The digest of all items one after the other. *)
Definition hash_iterator (l : list string) : string := sha256_hex (String.concat EmptyString l).

Definition hash_report (report : string) : string := hash_bytes (String.concat " " (get_address_stack_trace report)).
Definition function_name_hash (report : string) : string := hash_iterator (function_names report).

Definition bucket_dir_name (report hash : string) : string := get_classification_string report +:+ "_" +:+ hash.
Definition get_bucket_dir (m : ValgrindManager) (report hash : string) : PathBuf := path_push (vm_save_path m) (bucket_dir_name report hash).
Definition get_function_name_bucket_dir (m : ValgrindManager) (report hash : string) : PathBuf :=
  path_push (path_push (vm_save_path m) "by_function_name") (bucket_dir_name report hash).

(** [fs::write], [fs::copy] and [File::create] with [write_all]. *)
Definition write_file (dir : PathBuf) (name text : string) : VG unit :=
  written ← look (fun w n => wo_write w n (path_push dir name) text);
  match written with
  | Written => update (vs_write dir name text)
  | WriteFailed None => fail_vg
  | WriteFailed (Some part) => update (vs_write dir name part) ;; fail_vg
  end.

Definition save (input : PathBuf) (report : string) (bucket_dir : PathBuf) : VG unit :=
  ok ← look (fun w n => wo_create_dir_all w n bucket_dir); ensure ok ;;
  name ← lift_outcome (unwrap (file_name input));
  content ← look (fun w n => wo_read w n input);
  content ← of_option content;
  write_file bucket_dir name content ;;
  write_file bucket_dir (report_name name) report.

Definition store_address_backtrace (input : PathBuf) (report : string) : VG unit :=
  m ← manager id; save input report (get_bucket_dir m report (hash_report report)).
Definition store_function_name_backtrace (input : PathBuf) (report : string) : VG unit :=
  m ← manager id; save input report (get_function_name_bucket_dir m report (function_name_hash report)).

(** [report] is the text in the file of the report, if it can be read. *)
Definition process_potential_finding (input : PathBuf) (report : option string) : VG unit :=
  report_str ← of_option report;
  if bool_decide (get_address_stack_trace report_str = []) then mret tt
  else store_address_backtrace input report_str ;; store_function_name_backtrace input report_str.

Definition timeout_text (m : ValgrindManager) : string :=
  "Valgrind timeouted after " +:+ fmt_duration (vm_timeout m) +:+ " seconds" +:+ String newline EmptyString.
Definition process_timeout (input : PathBuf) (report : option string) : VG unit :=
  m ← manager id;
  text ← of_option report;
  save input (timeout_text m +:+ text) (path_push (vm_save_path m) "timeout").

Definition build_args (m : ValgrindManager) (report_file : PathBuf) : list string :=
  (["--kill-after=5"; fmt_duration (vm_timeout m); "/usr/bin/valgrind"; "--log-file=" +:+ path_str report_file]%string ++
   vm_valgrind_options m ++ ["--"%string; path_str (vm_target_binary m)] ++ vm_target_args m).

(** The first element with this text is replaced. *)
Fixpoint replace_first (what new : string) (args : list string) : option (list string) :=
  match args with
  | [] => None
  | a :: args => if String.eqb a what then Some (new :: args) else cons a <$> replace_first what new args
  end.
Definition setup_output_channel (args : list string) (output_file : PathBuf) : list string :=
  default args (replace_first "$$" (path_str output_file) args).
(** The arguments, and the file for the standard input, which is opened. *)
Definition setup_input_channel (args : list string) (input_file : PathBuf) : VG (list string * option PathBuf) :=
  match replace_first "@@" (path_str input_file) args with
  | Some args => mret (args, None)
  | None => ok ← look (fun w n => bool_decide (is_Some (wo_read w n input_file))); ensure ok ;; mret (args, Some input_file)
  end.

Definition new_temp : VG PathBuf := t ← look wo_temp; lift_outcome (unwrap t).
Definition backup_input (input : PathBuf) : VG PathBuf :=
  input_clone ← new_temp;
  content ← look (fun w n => wo_read w n input);
  content ← of_option content;
  written ← look (fun w n => wo_write w n input_clone content);
  match written with Written => mret input_clone | WriteFailed _ => fail_vg end.

Definition process_input (input : PathBuf) : VG unit :=
  temp_input ← backup_input input;
  report_file ← new_temp;
  output_file ← new_temp;
  m ← manager id;
  '(args, stdin) ← setup_input_channel (build_args m report_file) temp_input;
  let args := setup_output_channel args output_file in
  output ← look (fun w n => wo_output w n (mk_vg_command args (vm_env m) stdin));
  '(exit_code, report) ← of_option output;
  match exit_code with
  | Some 0 => mret tt
  | Some 124 | Some 137 => process_timeout input report
  | _ => process_potential_finding input report
  end.

(** ** Looking for inputs *)

(** The body of the inner loop. *)
Definition queue_entry (dir : PathBuf) (entry : result unit string) : VG unit :=
  name ← of_result entry;
  let input := path_push dir name in
  is_dir ← look (fun w n => wo_is_dir w n input);
  if is_dir : bool then mret tt
  else
    content ← look (fun w n => wo_read w n input);
    content ← of_option content;
    let hash := hash_bytes content in
    known ← manager vm_known_inputs;
    if bool_decide (hash ∈ known) then mret tt
    else
      update (vs_set_manager (fun m => vm_set_queue (vm_inputs_queue m ++ [input]) (vm_set_known ({[hash]} ∪ vm_known_inputs m) m))) ;;
      update (vs_event (Queued input hash)).

Fixpoint for_each {A} (f : A -> VG unit) (l : list A) : VG unit :=
  match l with [] => mret tt | a :: l => f a ;; for_each f l end.

Definition queue_directory (dir : PathBuf) : VG unit :=
  is_dir ← look (fun w n => wo_is_dir w n dir);
  if is_dir : bool then entries ← look (fun w n => wo_read_dir w n dir); entries ← lift_outcome (unwrap entries); for_each (queue_entry dir) entries else mret tt.
Definition queue_new_inputs : VG unit := dirs ← manager vm_input_directories; for_each queue_directory dirs.

(** ** A round *)

Definition sanity_checks : VG unit :=
  m ← manager id;
  ok ← look (fun w n => wo_exists w n (vm_target_binary m)); ensure ok ;;
  ok ← look (fun w n => wo_exists w n (path "/usr/bin/valgrind")); ensure ok.

(** The body of the closure: errors are only logged. *)
Definition process_logged (input : PathBuf) : VG unit :=
  after (process_input input) (fun r => update (vs_event (Processed input (match r with Ok _ => false | Err _ => true end)))).

(** The other threads that are at work: at most all but the one that asks.  With 0 jobs the
    library chooses the number of threads. *)
Definition in_flight (jobs : Z) (busy : nat) : nat := if jobs =? 0 then busy else Nat.min busy (Z.to_nat jobs - 1).

(** [try_for_each]: once a thread has seen the request, no input is begun. *)
Fixpoint process_inputs (jobs : Z) (inputs : list PathBuf) : VG unit :=
  match inputs with
  | [] => mret tt
  | input :: inputs =>
      process_logged input ;;
      stop ← look wo_terminate;
      if stop : bool then busy ← look wo_busy; for_each process_logged (take (in_flight jobs busy) inputs) else process_inputs jobs inputs
  end.

Definition store_known_inputs (save_path : PathBuf) (known_inputs : gset string) : VG unit :=
  write_file save_path "known_inputs" (to_json known_inputs) ;; update (vs_event (StoredKnown known_inputs)).

Definition init_pool : VG unit :=
  m ← manager id;
  if vm_pool_initialized m then mret tt
  else
    ok ← look (fun w n => wo_build_pool w n (default 1 (vm_job_cnt m)));
    lift_outcome (assert_that ok) ;; update (vs_set_manager (vm_set_pool true)).

Definition run : VG unit :=
  sanity_checks ;;
  ok ← look wo_setrlimit; lift_outcome (assert_that ok) ;;
  inputs ← manager vm_inputs_queue;
  update (vs_set_manager (vm_set_queue [])) ;;
  init_pool ;;
  inputs ← look (fun w n => wo_schedule w n inputs);
  jobs ← manager (fun m => default 1 (vm_job_cnt m));
  process_inputs jobs inputs ;;
  m ← manager id;
  store_known_inputs (vm_save_path m) (vm_known_inputs m).

(** The body of the loop of [start], without the pause. *)
Definition iteration : VG unit :=
  queue_new_inputs ;;
  queue ← manager vm_inputs_queue;
  if bool_decide (queue = []) then mret tt else run.
(** As many iterations as there are until the process is stopped. *)
Fixpoint start (iterations : nat) : VG unit :=
  match iterations with O => mret tt | S n => iteration ;; start n end.

(** ** Starts *)

Definition restore_known_inputs (save_path : PathBuf) : VG (gset string) :=
  file ← get (fun s => vs_files s !! (path_str save_path, "known_inputs"%string));
  match file with
  | None => mret ∅
  | Some content =>
      ok ← look (fun w n => wo_readable w n (path_push save_path "known_inputs"));
      if ok : bool then lift_outcome (unwrap (from_json content)) else mret ∅
  end.

Definition valgrind_options : list string :=
  ["--error-limit=no"; "--track-origins=yes"; "--trace-children=yes"; "--error-exitcode=44"]%string.

(** The new manager takes the place of the old one. *)
Definition from_config (config : Config) (input_dirs : list PathBuf) (job_cnt : option Z) : VG unit :=
  let target_binary := va_bin_path (c_vanilla config) in
  ok ← look (fun w n => wo_exists w n target_binary); ensure ok ;;
  let save_path := valgrind_path (c_general config) in
  known_inputs ← restore_known_inputs save_path;
  ok ← look (fun w n => wo_create_dir_all w n save_path); ensure ok ;;
  update (vs_set_manager (fun _ =>
    mk_valgrind known_inputs [] ∅ save_path DEFAULT_SCAN_INTERVAL
      ([crashing_path (c_general config); interesting_path (c_general config)] ++ input_dirs)
      valgrind_options DEFAULT_TIMEOUT target_binary (si_arguments (c_sink config)) (va_env (c_vanilla config)) (Some config) job_cnt false)).

(** The subcommand, with [--once] or for a number of iterations. *)
Definition handle_cli_valgrind_subcommand (config : Config) (input_dirs : list PathBuf) (job_cnt : option Z) (iterations : option nat) : VG unit :=
  from_config config input_dirs job_cnt ;;
  match iterations with
  | None => queue_new_inputs ;; run
  | Some n => start n
  end.

(** One start after the other, whether they fail or not. *)
Fixpoint sessions (config : Config) (input_dirs : list PathBuf) (job_cnt : option Z) (l : list (option nat)) : VG unit :=
  match l with
  | [] => mret tt
  | n :: l => after (handle_cli_valgrind_subcommand config input_dirs job_cnt n) (fun _ => sessions config input_dirs job_cnt l)
  end.

End valgrind.
