(* ===== verification/ValgrindTheorems.v ===== *)
(** * What the manager of Valgrind remembers

    Theorems on the model of [scheduler/src/valgrind/core.rs]: which inputs a scan queues, what
    the file of known inputs guarantees across starts, what is lost when a round is
    interrupted, and what is taken from a report. *)

From Stdlib Require Import Ascii.
From stdpp Require Import pretty.
From S2P Require Import Prelude Effects Phases Config ConfigTheorems CoverageTrace Coverage Valgrind.

(** ** The log *)

(** The digests that were written last. *)
Fixpoint stored (log : list VgEvent) : gset string :=
  match log with
  | [] => ∅
  | StoredKnown known :: _ => known
  | _ :: log => stored log
  end.
Definition queued (log : list VgEvent) (h : string) : Prop := exists p, Queued p h ∈ log.

(** A digest is queued only while it is not written; what is written was queued, and includes
    what was written before. *)
Fixpoint log_ok (log : list VgEvent) : Prop :=
  match log with
  | [] => True
  | Queued _ h :: log => h ∉ stored log /\ log_ok log
  | Processed _ _ :: log => log_ok log
  | StoredKnown known :: log => stored log ⊆ known /\ (forall h, h ∈ known -> queued log h) /\ log_ok log
  end.

Lemma queued_cons e log h : queued log h -> queued (e :: log) h.
Proof. intros [p Hp]. exists p. by right. Qed.

Lemma stored_grows log known : log_ok log -> StoredKnown known ∈ log -> known ⊆ stored log.
Proof.
  induction log as [|e log IH]; intros Hok Hin; [by apply elem_of_nil in Hin|]. apply elem_of_cons in Hin as [<-|Hin]; [done|].
  destruct e; cbn in *; [apply IH; tauto..|]. destruct Hok as (Hsub & _ & Hok). etrans; [by apply IH|done].
Qed.

Lemma stored_queued log h : log_ok log -> h ∈ stored log -> queued log h.
Proof.
  induction log as [|e log IH]; cbn; [set_solver|]. destruct e; cbn; intros Hok Hh; apply queued_cons; [apply IH; tauto..|]. by apply Hok.
Qed.

Lemma log_ok_suffix l1 l2 : log_ok (l1 ++ l2) -> log_ok l2.
Proof. induction l1 as [|e l1 IH]; [done|]. destruct e; cbn; intros; apply IH; tauto. Qed.

(** The names of reports are never the one of the file of known inputs. *)
Lemma report_name_not_known name : report_name name <> "known_inputs"%string.
Proof.
  unfold report_name. generalize (match before_last "." name with None | Some EmptyString => name | Some stem => stem end). intros s.
  do 13 (destruct s as [|? s]; [discriminate|]). discriminate.
Qed.

Section valgrind.
Context (sha256_hex : string -> string) (to_json : gset string -> string) (from_json : string -> option (gset string)).
Context (world : VgWorld).
Context (config : Config) (input_dirs : list PathBuf) (job_cnt : option Z).

#[local] Abbreviation save_path := (valgrind_path (c_general config)).
#[local] Abbreviation hash := (hash_bytes sha256_hex).

(** ** Known inputs across starts *)

(** A set that was written is read back; the file of known inputs is written whole or not at
    all and can be read; nothing else has its name; the pool works on the inputs it is given. *)
Record FilesKept := {
  fk_json : forall known, from_json (to_json known) = Some known;
  fk_write : forall n text part, wo_write world n (path_push save_path "known_inputs") text <> WriteFailed (Some part);
  fk_read : forall n, wo_readable world n (path_push save_path "known_inputs") = true;
  fk_names : forall n dir entries name, wo_read_dir world n dir = Some entries -> Ok name ∈ entries -> file_name (path_push dir name) <> Some "known_inputs"%string;
  fk_schedule : forall n l, wo_schedule world n l ≡ₚ l;
}.

Definition disk_ok (s : VgState) : Prop :=
  log_ok (vs_log s) /\
  match vs_files s !! (path_str save_path, "known_inputs"%string) with
  | None => stored (vs_log s) = ∅
  | Some text => from_json text = Some (stored (vs_log s))
  end.
Definition manager_ok (s : VgState) : Prop :=
  vm_save_path (vs_manager s) = save_path /\ stored (vs_log s) ⊆ vm_known_inputs (vs_manager s) /\
  (forall h, h ∈ vm_known_inputs (vs_manager s) -> queued (vs_log s) h) /\
  (forall p, p ∈ vm_inputs_queue (vs_manager s) -> file_name p <> Some "known_inputs"%string).
Definition vg_ok (s : VgState) : Prop := disk_ok s /\ manager_ok s.

Context (Hkept : FilesKept).

Lemma look_preserves {A} (P : VgState -> Prop) (f : VgWorld -> nat -> A) : (forall s, P s -> P (vs_tick s)) -> preserves P (look world f).
Proof. intros Ht s r s' [= _ <-]. apply Ht. Qed.
Lemma look_vg_ok {A} (f : VgWorld -> nat -> A) : preserves vg_ok (look world f).
Proof. by apply look_preserves. Qed.
Lemma look_disk_ok {A} (f : VgWorld -> nat -> A) : preserves disk_ok (look world f).
Proof. by apply look_preserves. Qed.
Lemma manager_preserves {A} P (f : ValgrindManager -> A) : preserves P (manager f).
Proof. apply preserves_get. Qed.
Lemma of_option_preserves {A} P (o : option A) : preserves P (of_option o).
Proof. destruct o; [apply preserves_ret|apply preserves_of_result]. Qed.
Lemma ensure_preserves P b : preserves P (ensure b).
Proof. destruct b; [apply preserves_ret|apply preserves_of_result]. Qed.
Hint Resolve look_vg_ok look_disk_ok manager_preserves of_option_preserves ensure_preserves : preserves.
Hint Unfold fail_vg : preserves.

Lemma preserves_bind_pure {A B} P (a : A) (f : A -> VG B) : preserves P (f a) -> preserves P (lift_outcome (unwrap (Some a)) ≫= f).
Proof. done. Qed.

Lemma write_vg_ok dir name text s : name <> "known_inputs"%string -> vg_ok s -> vg_ok (vs_write dir name text s).
Proof.
  intros Hn [[Hlog Hfile] Hm]. split; [|done]. split; [done|]. cbn. rewrite lookup_insert_ne; [done|]. by intros [= _ ->].
Qed.
Lemma write_file_vg_ok dir name text : name <> "known_inputs"%string -> preserves vg_ok (write_file world dir name text).
Proof. intros Hn. unfold write_file, fail_vg. keeps; by apply write_vg_ok. Qed.
Hint Resolve write_file_vg_ok : preserves.

Lemma save_vg_ok input report dir : file_name input <> Some "known_inputs"%string -> preserves vg_ok (save world input report dir).
Proof.
  intros Hn. unfold save. apply preserves_bind; [keeps|intros ok]. apply preserves_bind; [keeps|intros _].
  destruct (file_name input) as [name|]; [|done]. apply (preserves_bind_pure _ name).
  pose proof (report_name_not_known name). assert (name <> "known_inputs"%string) by congruence. keeps.
Qed.
Hint Resolve save_vg_ok : preserves.

Lemma process_input_vg_ok input : file_name input <> Some "known_inputs"%string -> preserves vg_ok (process_input sha256_hex world input).
Proof.
  intros Hn. unfold process_input, backup_input, new_temp, setup_input_channel, process_timeout, process_potential_finding, store_address_backtrace, store_function_name_backtrace, fail_vg.
  keeps.
Qed.
Hint Resolve process_input_vg_ok : preserves.

Lemma processed_vg_ok p b s : vg_ok s -> vg_ok (vs_event (Processed p b) s).
Proof. intros [[Hlog Hfile] (Hs & Hk & Hq & Hn)]. do 2 (split; [done|]). split; [done|]. split; [|done]. intros h Hh. by apply queued_cons, Hq. Qed.
Lemma process_logged_vg_ok input : file_name input <> Some "known_inputs"%string -> preserves vg_ok (process_logged sha256_hex world input).
Proof. intros Hp. unfold process_logged. keeps; by apply processed_vg_ok. Qed.
Hint Resolve process_logged_vg_ok : preserves.
Lemma for_each_preserves {A} P (f : A -> VG unit) l : (forall a, a ∈ l -> preserves P (f a)) -> preserves P (for_each f l).
Proof.
  induction l as [|a l IH]; intros Hf; cbn; keeps; [apply Hf; by left|]. apply IH. intros a' Ha'. apply Hf. by right.
Qed.
Lemma process_inputs_vg_ok jobs inputs :
  Forall (fun p => file_name p <> Some "known_inputs"%string) inputs -> preserves vg_ok (process_inputs sha256_hex world jobs inputs).
Proof.
  induction 1 as [|p inputs Hp Hps IH]; cbn [process_inputs]; keeps. apply for_each_preserves. intros p' Hp'.
  apply process_logged_vg_ok. revert p' Hp'. by apply Forall_forall, Forall_take.
Qed.

Lemma wlp_preserved {A} (P : VgState -> Prop) (m : VG A) : (forall s, P s -> wlp m (fun _ s' => P s') s) -> preserves P m.
Proof. intros Hm s r s' Er Hs. by apply (Hm s Hs r). Qed.
Lemma wlp_look {A} (f : VgWorld -> nat -> A) Q s : Q (Ok (f world (vs_step s))) (vs_tick s) -> wlp (look world f) Q s.
Proof. by intros HQ r s' [= <- <-]. Qed.

(** A digest that is not known is queued. *)
Lemma queue_vg_ok input h s :
  vg_ok s -> file_name input <> Some "known_inputs"%string -> h ∉ vm_known_inputs (vs_manager s) ->
  vg_ok (vs_event (Queued input h) (vs_set_manager (fun m => vm_set_queue (vm_inputs_queue m ++ [input]) (vm_set_known ({[h]} ∪ vm_known_inputs m) m)) s)).
Proof.
  intros [[Hlog Hfile] (Hs & Hk & Hq & Hn)] Hname Hh. split; [split; [split; [|done]|done]|split; [done|split; [|split]]]; cbn.
  - set_solver.
  - set_solver.
  - intros h' [->%elem_of_singleton|Hh']%elem_of_union; [exists input; by left|]. by apply queued_cons, Hq.
  - intros p [Hp| ->%list_elem_of_singleton]%elem_of_app; auto.
Qed.

Lemma queue_entry_vg_ok n dir entries entry :
  wo_read_dir world n dir = Some entries -> entry ∈ entries -> preserves vg_ok (queue_entry sha256_hex world dir entry).
Proof.
  intros Hdir Hin. unfold queue_entry. destruct entry as [name|]; [|by intros s r s' [= _ <-]].
  pose proof (fk_names Hkept n dir entries name Hdir Hin) as Hname. apply wlp_preserved. intros s Hs.
  apply wlp_bind, wlp_of_result, wlp_bind, wlp_look. cbv beta iota. destruct (wo_is_dir _ _ _); [by apply wlp_ret|].
  apply wlp_bind, wlp_look. cbv beta. destruct (wo_read _ _ _) as [content|]; [|by apply wlp_of_result].
  apply wlp_bind, wlp_ret. unfold manager. wlp_steps. case_bool_decide; wlp_steps; [done|]. by apply queue_vg_ok.
Qed.
Lemma queue_new_inputs_vg_ok : preserves vg_ok (queue_new_inputs sha256_hex world).
Proof.
  unfold queue_new_inputs. apply preserves_bind; [keeps|]. intros dirs. apply for_each_preserves. intros dir _. apply wlp_preserved. intros s Hs.
  unfold queue_directory. apply wlp_bind, wlp_look. cbv beta iota. destruct (wo_is_dir _ _ _); [|by apply wlp_ret].
  apply wlp_bind, wlp_look. cbv beta iota. destruct (wo_read_dir _ _ _) as [entries|] eqn:Hdir; [|done].
  apply wlp_bind, wlp_lift. intros ? [= <-]. apply wlp_preserves; [|done]. apply for_each_preserves. intros entry. by eapply queue_entry_vg_ok.
Qed.

Lemma store_known_vg_ok s : vg_ok s -> wlp (store_known_inputs to_json world (vm_save_path (vs_manager s)) (vm_known_inputs (vs_manager s))) (fun _ s' => vg_ok s') s.
Proof.
  intros [[Hlog Hfile] (Hs & Hk & Hq & Hn)]. unfold store_known_inputs, write_file. rewrite Hs.
  apply wlp_bind, wlp_bind, wlp_look. cbv beta iota. destruct (wo_write _ _ _ _) as [|[part|]] eqn:Hw; [| |by apply wlp_of_result].
  - wlp_steps. split; [split|split; [done|split; [done|split; [|done]]]]; cbn; [done|by rewrite lookup_insert_eq, (fk_json Hkept)|].
    intros h Hh. by apply queued_cons, Hq.
  - by apply (fk_write Hkept) in Hw.
Qed.

Lemma init_pool_vg_ok : preserves vg_ok (init_pool world).
Proof. unfold init_pool. keeps. Qed.
Lemma sanity_checks_vg_ok : preserves vg_ok (sanity_checks world).
Proof. unfold sanity_checks. keeps. Qed.
Hint Resolve init_pool_vg_ok sanity_checks_vg_ok queue_new_inputs_vg_ok : preserves.

Lemma run_vg_ok : preserves vg_ok (run sha256_hex to_json world).
Proof.
  unfold run. apply preserves_bind; [keeps|intros _]. apply preserves_bind; [keeps|intros ok]. apply preserves_bind; [keeps|intros _].
  apply wlp_preserved. intros s Hs. apply wlp_bind, wlp_get. cbv beta iota. apply wlp_bind, wlp_update. cbv beta iota.
  assert (Hnames : Forall (fun p => file_name p <> Some "known_inputs"%string) (vm_inputs_queue (vs_manager s))) by (apply Forall_forall, Hs).
  apply wlp_preserves; [|destruct Hs as [Hd (Hp & Hk & Hq & _)]; split; [done|]; split; [done|]; split; [done|]; split; [done|]; by intros p Hp'%elem_of_nil].
  apply preserves_bind; [keeps|intros _]. apply wlp_preserved. intros s1 Hs1. apply wlp_bind, wlp_look. cbv beta iota.
  apply wlp_preserves; [|done]. apply preserves_bind; [keeps|intros jobs]. apply preserves_bind; [apply process_inputs_vg_ok; by rewrite (fk_schedule Hkept)|intros _].
  apply wlp_preserved. intros s2 Hs2. apply wlp_bind, wlp_get. cbv beta iota. by apply store_known_vg_ok.
Qed.
Hint Resolve run_vg_ok : preserves.

Lemma start_vg_ok n : preserves vg_ok (start sha256_hex to_json world n).
Proof. induction n as [|n IH]; cbn [start]; unfold iteration; keeps. Qed.
Hint Resolve start_vg_ok : preserves.

(** A start reads what was written last. *)
Lemma restore_stored s :
  disk_ok s -> wlp (restore_known_inputs from_json world save_path) (fun r s' => r = Ok (stored (vs_log s')) /\ disk_ok s') s.
Proof.
  intros Hs. pose proof Hs as [Hlog Hfile]. unfold restore_known_inputs. apply wlp_bind, wlp_get. cbv beta iota. destruct (vs_files s !! _) as [text|] eqn:Ef.
  - apply wlp_bind, wlp_look. rewrite (fk_read Hkept). apply wlp_lift. rewrite Hfile. intros ? [= <-]. by split.
  - apply wlp_ret. rewrite Hfile. by split.
Qed.
Lemma from_config_vg_ok s :
  disk_ok s -> wlp (from_config from_json world config input_dirs job_cnt) (fun r s' => match r with Ok _ => vg_ok s' | Err _ => disk_ok s' end) s.
Proof.
  intros Hs. unfold from_config. apply wlp_bind, wlp_look. cbv beta iota. apply wlp_bind.
  destruct (wo_exists _ _ _); [|by apply wlp_of_result]. apply wlp_ret, wlp_bind. eapply wlp_mono; [by apply restore_stored|].
  intros r s1 [-> Hs1]. apply wlp_bind, wlp_look. cbv beta iota. apply wlp_bind. destruct (wo_create_dir_all _ _ _); [|by apply wlp_of_result].
  apply wlp_ret, wlp_update. split; [done|]. split; [done|]. cbn. split; [done|]. split; [|by intros p Hp%elem_of_nil].
  intros h Hh. apply stored_queued; [apply Hs1|done].
Qed.

Lemma handle_disk_ok n : preserves disk_ok (handle_cli_valgrind_subcommand sha256_hex to_json from_json world config input_dirs job_cnt n).
Proof.
  apply wlp_preserved. intros s Hs. unfold handle_cli_valgrind_subcommand. apply wlp_bind. eapply wlp_mono; [by apply from_config_vg_ok|].
  intros [[]|[]] s1 Hs1; [|done]. eapply wlp_mono; [apply (wlp_preserves vg_ok); [|done]|by intros r s2 []]. destruct n; keeps.
Qed.
Hint Resolve handle_disk_ok : preserves.
Lemma sessions_disk_ok l : preserves disk_ok (sessions sha256_hex to_json from_json world config input_dirs job_cnt l).
Proof. induction l as [|n l IH]; cbn [sessions]; keeps. Qed.

(** C33: once the digest of an input has been written to the file of known inputs, no scan of
    this or of a later start, whatever fails in between, queues an input with that digest
    again; and everything in that file was queued before.  (The file is written whole or not at
    all and can be read, and no input has its name.) *)
Theorem known_inputs_not_queued_again l s0 r s :
  vs_log s0 = [] -> vs_files s0 !! (path_str save_path, "known_inputs"%string) = None ->
  sessions sha256_hex to_json from_json world config input_dirs job_cnt l s0 = Ret (r, s) ->
  (forall newer older p h known, vs_log s = newer ++ Queued p h :: older -> StoredKnown known ∈ older -> h ∉ known) /\
  (forall newer older known h, vs_log s = newer ++ StoredKnown known :: older -> h ∈ known -> exists p, Queued p h ∈ older).
Proof.
  intros Hlog Hfile Hrun. destruct (sessions_disk_ok l s0 r s Hrun) as [Hok _]; [split; [by rewrite Hlog|by rewrite Hfile, Hlog]|]. split.
  - intros newer older p h known E Hin Hh. rewrite E in Hok. apply log_ok_suffix in Hok as [Hn Hok]. by apply Hn, (stored_grows older known).
  - intros newer older known h E Hh. rewrite E in Hok. apply log_ok_suffix in Hok as (_ & Hq & _). by apply Hq.
Qed.

End valgrind.

(** ** Interrupted rounds *)

(** The computation returns, and changes at most files. *)
Definition quiet {A} (m : VG A) : Prop := forall s, wp m (fun _ s' => vs_manager s' = vs_manager s /\ vs_log s' = vs_log s) s.

Lemma quiet_ret {A} (a : A) : quiet (mret a).
Proof. by intros s. Qed.
Lemma quiet_fail {A} : quiet (fail_vg (A:=A)).
Proof. by intros s. Qed.
Lemma quiet_manager {A} (f : ValgrindManager -> A) : quiet (manager f).
Proof. by intros s. Qed.
Lemma quiet_look {A} world (f : VgWorld -> nat -> A) : quiet (look world f).
Proof. by intros s. Qed.
Lemma quiet_ensure b : quiet (ensure b).
Proof. by destruct b. Qed.
Lemma quiet_option {A} (o : option A) : quiet (of_option o).
Proof. by destruct o. Qed.
Lemma quiet_write dir name text : quiet (update (vs_write dir name text)).
Proof. by intros s. Qed.
Lemma quiet_bind {A B} (m : VG A) (f : A -> VG B) : quiet m -> (forall a, quiet (f a)) -> quiet (m ≫= f).
Proof.
  intros Hm Hf s. apply wp_bind. eapply wp_mono; [apply Hm|]. intros [a|[]] s1 [Em El]; [|done].
  eapply wp_mono; [apply Hf|]. cbn. by rewrite Em, El.
Qed.
Lemma quiet_Some {A B} (o : option A) (f : A -> VG B) : is_Some o -> (forall a, quiet (f a)) -> quiet (lift_outcome (unwrap o) ≫= f).
Proof. intros [a ->] Hf s. apply (Hf a). Qed.
Lemma wp_vg_look {A} world (f : VgWorld -> nat -> A) Q s : Q (Ok (f world (vs_step s))) (vs_tick s) -> wp (look world f) Q s.
Proof. done. Qed.
Create HintDb quiet discriminated.
#[export] Hint Resolve quiet_ret quiet_fail quiet_manager quiet_look quiet_ensure quiet_option quiet_write : quiet.
Ltac quietly := repeat first [ solve [eauto with quiet] | apply quiet_Some; [by eauto|intros] | apply quiet_bind; [|intros] | case_match ].

Section interrupted.
Context (sha256_hex : string -> string) (to_json : gset string -> string) (from_json : string -> option (gset string)).
Context (world : VgWorld).
Context (config : Config) (input_dirs : list PathBuf) (job_cnt : option Z).
#[local] Abbreviation save_path := (valgrind_path (c_general config)).

Lemma write_file_quiet dir name text : quiet (write_file world dir name text).
Proof. unfold write_file. quietly. Qed.
Hint Resolve write_file_quiet : quiet.

Lemma save_quiet input report dir : is_Some (file_name input) -> quiet (save world input report dir).
Proof. intros Hn. unfold save. quietly. Qed.
Hint Resolve save_quiet : quiet.

Context (Htemp : forall n, is_Some (wo_temp world n)).
Lemma new_temp_quiet : quiet (new_temp world).
Proof. intros s. unfold new_temp. apply wp_bind, wp_vg_look. by destruct (Htemp (vs_step s)) as [t ->]. Qed.
Hint Resolve new_temp_quiet : quiet.

Lemma process_input_quiet input : is_Some (file_name input) -> quiet (process_input sha256_hex world input).
Proof.
  intros Hn. unfold process_input, backup_input, setup_input_channel, process_timeout, process_potential_finding, store_address_backtrace, store_function_name_backtrace.
  quietly.
Qed.

(** The world of an interrupted round: the programs and the directories are there, the file of
    known inputs can be written and read, and the request to stop came before the round. *)
Record StoppedWorld := {
  sw_json : forall known, from_json (to_json known) = Some known;
  sw_binary : forall n, wo_exists world n (va_bin_path (c_vanilla config)) = true;
  sw_valgrind : forall n, wo_exists world n (path "/usr/bin/valgrind") = true;
  sw_dir : forall n, wo_create_dir_all world n save_path = true;
  sw_write : forall n text, wo_write world n (path_push save_path "known_inputs") text = Written;
  sw_readable : forall n, wo_readable world n (path_push save_path "known_inputs") = true;
  sw_read_dir : forall n dir, is_Some (wo_read_dir world n dir);
  sw_setrlimit : forall n, wo_setrlimit world n = true;
  sw_pool : forall n jobs, wo_build_pool world n jobs = true;
  sw_schedule : forall n l, wo_schedule world n l ≡ₚ l;
  sw_terminate : forall n, wo_terminate world n = true;
}.
Context (Hw : StoppedWorld).

(** The inputs of a list are completed one after the other. *)
Definition processed_event (x : PathBuf * bool) : VgEvent := Processed x.1 x.2.
Definition completes (inputs : list PathBuf) (m : VG unit) : Prop := forall s,
  wp m (fun r s' => r = Ok tt /\ vs_manager s' = vs_manager s /\
    exists processed, processed.*1 = inputs /\ vs_log s' = reverse (processed_event <$> processed) ++ vs_log s) s.

Lemma process_logged_completes input : is_Some (file_name input) -> completes [input] (process_logged sha256_hex world input).
Proof.
  intros Hn s. unfold process_logged. apply wp_after. eapply wp_mono; [by apply process_input_quiet|]. intros r s1 [Em El]. wp_steps. cbn. rewrite Em, El.
  split; [done|]. split; [done|]. by exists [(input, match r with Ok _ => false | Err _ => true end)].
Qed.
Lemma completes_bind l1 l2 m1 m2 : completes l1 m1 -> completes l2 m2 -> completes (l1 ++ l2) (m1 ;; m2).
Proof.
  intros H1 H2 s. apply wp_bind. eapply wp_mono; [apply H1|]. intros r s1 (-> & Em & p1 & <- & El). eapply wp_mono; [apply H2|].
  intros r s2 (-> & Em2 & p2 & <- & El2). split; [done|]. split; [congruence|]. exists (p1 ++ p2). by rewrite fmap_app, El2, El, fmap_app, reverse_app, app_assoc.
Qed.
Lemma completes_nil : completes [] (mret tt).
Proof. intros s. wp_steps. split; [done|]. split; [done|]. by exists []. Qed.
Lemma for_each_completes inputs : Forall (fun p => is_Some (file_name p)) inputs -> completes inputs (for_each (process_logged sha256_hex world) inputs).
Proof. induction 1 as [|p inputs Hp _ IH]; [apply completes_nil|]. apply (completes_bind [p] inputs); [by apply process_logged_completes|done]. Qed.
Lemma completes_look {A} (f : VgWorld -> nat -> A) (k : A -> VG unit) inputs s :
  completes (inputs (f world (vs_step s))) (k (f world (vs_step s))) ->
  wp (look world f ≫= k) (fun r s' => r = Ok tt /\ vs_manager s' = vs_manager s /\
    exists processed, processed.*1 = inputs (f world (vs_step s)) /\ vs_log s' = reverse (processed_event <$> processed) ++ vs_log s) s.
Proof. intros Hk. apply wp_bind, wp_vg_look. apply (Hk (vs_tick s)). Qed.

(** The first input is completed, and at most one for each other job. *)
Lemma process_inputs_stopped jobs input inputs s :
  Forall (fun p => is_Some (file_name p)) (input :: inputs) ->
  wp (process_inputs sha256_hex world jobs (input :: inputs))
     (fun r s' => r = Ok tt /\ vs_manager s' = vs_manager s /\
        exists n processed, processed.*1 = input :: take n inputs /\ (jobs <> 0 -> (n <= Z.to_nat jobs - 1)%nat) /\
          vs_log s' = reverse (processed_event <$> processed) ++ vs_log s) s.
Proof.
  intros Hn. inversion Hn as [|? ? Hi His]; subst. cbn [process_inputs]. apply wp_bind. eapply wp_mono; [by apply process_logged_completes|].
  intros r s1 (-> & Em & p1 & E1 & El). apply wp_bind, wp_vg_look. rewrite (sw_terminate Hw). cbv beta iota.
  eapply wp_mono; [apply (completes_look wo_busy _ (fun busy => take (in_flight jobs busy) inputs)), for_each_completes, Forall_take, His|].
  intros r s2 (-> & Em2 & p2 & E2 & El2). split; [done|]. split; [by rewrite Em2|]. eexists _, (p1 ++ p2). rewrite fmap_app, E1, E2. split; [done|]. split.
  - intros Hj. unfold in_flight. rewrite (proj2 (Z.eqb_neq jobs 0) Hj). lia.
  - rewrite El2. cbn [vs_log vs_tick]. by rewrite El, fmap_app, reverse_app, app_assoc.
Qed.

Lemma sanity_checks_pass s :
  vm_target_binary (vs_manager s) = va_bin_path (c_vanilla config) ->
  wp (sanity_checks world) (fun r s' => r = Ok tt /\ vs_manager s' = vs_manager s /\ vs_log s' = vs_log s) s.
Proof.
  intros Hb. unfold sanity_checks, manager. wp_steps. apply wp_vg_look. unfold id. rewrite Hb, (sw_binary Hw). cbn [ensure]. wp_steps. apply wp_vg_look. by rewrite (sw_valgrind Hw).
Qed.

Lemma init_pool_passes s :
  wp (init_pool world) (fun r s' => r = Ok tt /\ vs_log s' = vs_log s /\ exists b, vs_manager s' = vm_set_pool b (vs_manager s)) s.
Proof.
  unfold init_pool, manager. wp_steps. unfold id. destruct (vm_pool_initialized _) eqn:Eb.
  - wp_steps. split; [done|]. split; [done|]. exists true. rewrite <- Eb. by destruct (vs_manager s).
  - apply wp_bind, wp_vg_look. rewrite (sw_pool Hw). wp_steps. by eauto.
Qed.

(** What a round that is stopped leaves behind. *)
Lemma run_stopped s :
  vm_target_binary (vs_manager s) = va_bin_path (c_vanilla config) -> vm_save_path (vs_manager s) = save_path ->
  vm_inputs_queue (vs_manager s) <> [] -> Forall (fun p => is_Some (file_name p)) (vm_inputs_queue (vs_manager s)) ->
  let known := vm_known_inputs (vs_manager s) in
  let jobs := default 1 (vm_job_cnt (vs_manager s)) in
  wp (run sha256_hex to_json world)
     (fun r s' => r = Ok tt /\ vs_files s' !! (path_str save_path, "known_inputs"%string) = Some (to_json known) /\
        exists processed left, processed.*1 ++ left ≡ₚ vm_inputs_queue (vs_manager s) /\
          (0 < length processed)%nat /\ (0 < jobs -> Z.of_nat (length processed) <= jobs) /\
          vs_log s' = StoredKnown known :: reverse (processed_event <$> processed) ++ vs_log s) s.
Proof.
  intros Hb Hp Hne Hnames known jobs. unfold run. apply wp_bind. eapply wp_mono; [by apply sanity_checks_pass|].
  intros r s1 (-> & Em & El). cbv beta iota. apply wp_bind, wp_vg_look. rewrite (sw_setrlimit Hw). unfold manager. wp_steps. cbn [vs_manager vs_tick]. rewrite Em.
  eapply wp_mono; [apply init_pool_passes|]. intros r s2 (-> & El2 & b & Em2). apply wp_bind, wp_vg_look. cbv beta iota.
  pose proof (sw_schedule Hw (vs_step s2) (vm_inputs_queue (vs_manager s))) as Hperm.
  destruct (wo_schedule _ _ _) as [|input inputs]; [by apply Permutation_nil_l in Hperm|]. rewrite <- Hperm in Hnames.
  cbn [vs_manager vs_set_manager vs_tick] in Em2. rewrite Em in Em2. wp_steps. cbn [vs_manager vs_tick]. rewrite Em2. cbn [vm_job_cnt vm_set_pool vm_set_queue].
  eapply wp_mono; [by apply process_inputs_stopped|]. intros r s3 (-> & Em3 & n & processed & Ein & Hjobs & El3). wp_steps. unfold id.
  rewrite Em3. cbn [vs_manager vs_tick]. rewrite Em2. cbn [vm_save_path vm_known_inputs vm_set_pool vm_set_queue]. rewrite Hp.
  unfold store_known_inputs, write_file. apply wp_bind, wp_bind, wp_vg_look. rewrite (sw_write Hw). wp_steps. cbn. rewrite El3. cbn. rewrite El2. cbn. rewrite El.
  split; [done|]. split; [apply lookup_insert_eq|]. exists processed, (drop n inputs).
  assert (Hlen : length processed = length (input :: take n inputs)) by (by rewrite <- Ein, length_fmap).
  split; [rewrite Ein; cbn; by rewrite take_drop|]. rewrite Hlen. cbn [length]. rewrite length_take. split; [lia|]. split; [|done].
  intros Hpos. fold jobs in Hjobs. specialize (Hjobs ltac:(lia)). lia.
Qed.

(** A scan queues inputs whose digests were not known, each digest once; all of them are known
    afterwards. *)
Definition queued_event (x : PathBuf * string) : VgEvent := Queued x.1 x.2.
Record ScanAdds (s : VgState) (found : list (PathBuf * string)) (s' : VgState) : Prop := {
  sc_log : vs_log s' = reverse (queued_event <$> found) ++ vs_log s;
  sc_queue : vm_inputs_queue (vs_manager s') = vm_inputs_queue (vs_manager s) ++ found.*1;
  sc_known : vm_known_inputs (vs_manager s') = list_to_set found.*2 ∪ vm_known_inputs (vs_manager s);
  sc_new : forall p h, (p, h) ∈ found -> h ∉ vm_known_inputs (vs_manager s) /\
    exists n content, wo_read world n p = Some content /\ h = hash_bytes sha256_hex content;
  sc_once : NoDup found.*2;
  sc_settings : vm_target_binary (vs_manager s') = vm_target_binary (vs_manager s) /\ vm_save_path (vs_manager s') = vm_save_path (vs_manager s) /\
    vm_job_cnt (vs_manager s') = vm_job_cnt (vs_manager s);
}.
Definition scans (m : VG unit) : Prop := forall s, wp m (fun _ s' => exists found, ScanAdds s found s') s.

Lemma scan_adds_nothing s s' : vs_manager s' = vs_manager s -> vs_log s' = vs_log s -> ScanAdds s [] s'.
Proof. intros Em El. split; rewrite ?Em, ?El; [done|by rewrite app_nil_r|set_solver|by intros p h Hp%elem_of_nil|constructor|done]. Qed.
Lemma scan_adds_app s f1 s1 f2 s2 : ScanAdds s f1 s1 -> ScanAdds s1 f2 s2 -> ScanAdds s (f1 ++ f2) s2.
Proof.
  intros [El1 Eq1 Ek1 Hn1 Ho1 (?&?&?)] [El2 Eq2 Ek2 Hn2 Ho2 (?&?&?)].
  assert (Hsep : forall h, h ∈ f2.*2 -> h ∉ list_to_set (C := gset string) f1.*2 ∪ vm_known_inputs (vs_manager s)).
  { intros h Hh. apply list_elem_of_fmap in Hh as ([p h'] & -> & Hp). rewrite <- Ek1. by apply (Hn2 p h'). }
  split.
  - by rewrite El2, El1, fmap_app, reverse_app, app_assoc.
  - by rewrite Eq2, Eq1, fmap_app, app_assoc.
  - rewrite Ek2, Ek1, fmap_app, list_to_set_app_L. set_solver.
  - intros p h [Hp|Hp]%elem_of_app; [by apply Hn1|]. split; [|by apply Hn2 in Hp as [_ Hp]].
    intros Hk. apply (Hsep h); [|set_solver]. apply list_elem_of_fmap. by exists (p, h).
  - rewrite fmap_app. apply NoDup_app. split; [done|]. split; [|done]. intros h Hh1 Hh2. apply (Hsep h Hh2), elem_of_union_l. by apply elem_of_list_to_set.
  - repeat split; congruence.
Qed.

Lemma scans_quiet m : quiet m -> scans m.
Proof. intros Hm s. eapply wp_mono; [apply Hm|]. intros r s' [Em El]. exists []. by apply scan_adds_nothing. Qed.
Lemma scans_bind m m' : scans m -> scans m' -> scans (m ;; m').
Proof.
  intros Hm Hm' s. apply wp_bind. eapply wp_mono; [apply Hm|]. intros [[]|[]] s1 [f1 H1]; [|by eauto].
  eapply wp_mono; [apply Hm'|]. intros r s2 [f2 H2]. exists (f1 ++ f2). by eapply scan_adds_app.
Qed.
Lemma scans_look {A} (f : VgWorld -> nat -> A) (k : A -> VG unit) : (forall n, scans (k (f world n))) -> scans (look world f ≫= k).
Proof.
  intros Hk s. apply wp_bind, wp_vg_look. eapply wp_mono; [apply Hk|]. intros r s' [found H]. exists found.
  apply (scan_adds_app s [] (vs_tick s)); [by apply scan_adds_nothing|done].
Qed.
Lemma for_each_scans {A} (f : A -> VG unit) l : (forall a, scans (f a)) -> scans (for_each f l).
Proof. intros Hf. induction l as [|a l IH]; [apply scans_quiet, quiet_ret|]. by apply scans_bind. Qed.

Lemma queue_entry_scans dir entry : scans (queue_entry sha256_hex world dir entry).
Proof.
  unfold queue_entry. destruct entry as [name|[]]; [|apply (scans_quiet fail_vg), quiet_fail]. apply (scans_look (fun w n => wo_is_dir w n (path_push dir name))).
  intros n. destruct (wo_is_dir _ _ _); [apply scans_quiet, quiet_ret|]. apply scans_look. intros n'.
  destruct (wo_read _ _ _) as [content|] eqn:Er; [|apply (scans_quiet fail_vg), quiet_fail]. intros s. unfold of_option, manager. wp_steps.
  case_bool_decide as Hh; wp_steps; [exact (scans_quiet (mret tt) (quiet_ret tt) s)|]. exists [(path_push dir name, hash_bytes sha256_hex content)].
  split; cbn; [done|done|set_solver| |apply NoDup_singleton|done]. intros p h [= -> ->]%list_elem_of_singleton. by eauto.
Qed.
Lemma queue_new_inputs_scans : scans (queue_new_inputs sha256_hex world).
Proof.
  intros s. unfold queue_new_inputs, manager. wp_steps. apply for_each_scans. intros dir. unfold queue_directory. apply scans_look. intros n.
  destruct (wo_is_dir _ _ _); [|apply scans_quiet, quiet_ret]. apply scans_look. intros n'. destruct (sw_read_dir Hw n' dir) as [entries ->].
  apply (for_each_scans (queue_entry sha256_hex world dir)). apply queue_entry_scans.
Qed.
Lemma scan_result r s s1 : queue_new_inputs sha256_hex world s = Ret (r, s1) -> exists found, ScanAdds s found s1.
Proof. intros E. pose proof (queue_new_inputs_scans s) as H. apply wp_result in H as (r' & s' & E' & H). rewrite E in E'. injection E' as -> ->. done. Qed.

Lemma from_config_restores s known :
  vs_files s !! (path_str save_path, "known_inputs"%string) = Some (to_json known) ->
  wp (from_config from_json world config input_dirs job_cnt)
     (fun r s' => r = Ok tt /\ vm_known_inputs (vs_manager s') = known /\ vm_inputs_queue (vs_manager s') = [] /\ vs_log s' = vs_log s) s.
Proof.
  intros Hf. unfold from_config, restore_known_inputs. apply wp_bind, wp_vg_look. rewrite (sw_binary Hw). cbn [ensure]. wp_steps. cbn [vs_files vs_tick]. rewrite Hf.
  apply wp_bind, wp_vg_look. rewrite (sw_readable Hw), (sw_json Hw). cbn [unwrap]. apply wp_lift with known; [done|]. cbv beta iota.
  apply wp_bind, wp_vg_look. rewrite (sw_dir Hw). cbn [ensure]. by wp_steps.
Qed.

Lemma scan_after_restart s known :
  vs_files s !! (path_str save_path, "known_inputs"%string) = Some (to_json known) ->
  wp (from_config from_json world config input_dirs job_cnt ;; queue_new_inputs sha256_hex world)
    (fun _ s' => exists again, vs_log s' = reverse (queued_event <$> again) ++ vs_log s /\ forall h, h ∈ again.*2 -> h ∉ known) s.
Proof.
  intros Hf. apply wp_bind. eapply wp_mono; [by apply from_config_restores|]. intros r s1 (-> & <- & _ & El).
  eapply wp_mono; [apply queue_new_inputs_scans|]. intros r s2 [again H]. exists again. rewrite <- El. split; [by apply sc_log|].
  intros h Hh. apply list_elem_of_fmap in Hh as ([p h'] & -> & Hp). by apply (sc_new _ _ _ H p h').
Qed.

(** C34: a scan queues inputs, and the round that follows was told to stop.  The round returns
    [Ok] although it completes only some of the queued inputs: at least one, at most one for
    each job.  It writes the digests of all the inputs that the scan queued, so that the scan
    of a new start queues no input with one of these digests: the inputs that are left over are
    never examined. *)
Theorem interrupted_inputs_forgotten s s1 :
  vm_target_binary (vs_manager s) = va_bin_path (c_vanilla config) -> vm_save_path (vs_manager s) = save_path ->
  vm_inputs_queue (vs_manager s) = [] -> queue_new_inputs sha256_hex world s = Ret (Ok tt, s1) ->
  vm_inputs_queue (vs_manager s1) <> [] -> Forall (fun p => is_Some (file_name p)) (vm_inputs_queue (vs_manager s1)) ->
  let jobs := default 1 (vm_job_cnt (vs_manager s)) in
  exists found processed left s2 r s3 again,
    vs_log s1 = reverse (queued_event <$> found) ++ vs_log s /\ vm_inputs_queue (vs_manager s1) = found.*1 /\ NoDup found.*2 /\
    (forall p h, (p, h) ∈ found -> exists n content, wo_read world n p = Some content /\ h = hash_bytes sha256_hex content) /\
    run sha256_hex to_json world s1 = Ret (Ok tt, s2) /\
    processed.*1 ++ left ≡ₚ found.*1 /\ (0 < length processed)%nat /\ (0 < jobs -> Z.of_nat (length processed) <= jobs) /\
    vs_log s2 = StoredKnown (list_to_set found.*2 ∪ vm_known_inputs (vs_manager s)) :: reverse (processed_event <$> processed) ++ vs_log s1 /\
    (from_config from_json world config input_dirs job_cnt ;; queue_new_inputs sha256_hex world) s2 = Ret (r, s3) /\
    vs_log s3 = reverse (queued_event <$> again) ++ vs_log s2 /\ (forall h, h ∈ again.*2 -> h ∉ found.*2).
Proof.
  intros Hb Hp Hempty Hscan Hne Hnames jobs. apply scan_result in Hscan as [found [El Eq Ek Hn Ho (Eb & Ep & Ej)]]. rewrite Hempty in Eq. cbn in Eq.
  pose proof (run_stopped s1) as Hrun. cbv zeta in Hrun. rewrite Eb, Ep, Ej, Ek, Eq in Hrun. fold jobs in Hrun.
  rewrite Eq in Hne, Hnames. specialize (Hrun Hb Hp Hne Hnames). apply wp_result in Hrun as (? & s2 & Er & -> & Hf & processed & left & Hperm & Hpos & Hjobs & El2).
  pose proof (scan_after_restart _ _ Hf) as Hagain. apply wp_result in Hagain as (r & s3 & Er3 & again & El3 & Hnot).
  exists found, processed, left, s2, r, s3, again. repeat (split; [done|]). split; [by intros p h Hh; apply Hn in Hh as [_ Hh]|]. repeat (split; [done|]).
  intros h Hh Hin. apply (Hnot h Hh), elem_of_union_l. by apply elem_of_list_to_set.
Qed.
End interrupted.

(** ** A concrete world *)

Module ValgrindExample.

(** Sets as texts of zeros and ones. *)
Fixpoint bits_of (p : positive) : string :=
  match p with xH => EmptyString | xO p => String "0" (bits_of p) | xI p => String "1" (bits_of p) end.
Fixpoint of_bits (s : string) : positive :=
  match s with EmptyString => xH | String "0"%char s => xO (of_bits s) | String _ s => xI (of_bits s) end.
Lemma of_bits_of p : of_bits (bits_of p) = p.
Proof. induction p as [p IH|p IH|]; cbn; by rewrite ?IH. Qed.
Definition to_bits (k : gset string) : string := bits_of (encode k).
Definition from_bits (s : string) : option (gset string) := decode (of_bits s).
Lemma from_to_bits k : from_bits (to_bits k) = Some k.
Proof. unfold from_bits, to_bits. by rewrite of_bits_of, decode_encode. Qed.

(** Two inputs that crash, and one of them once more. *)
Definition entries (dir : PathBuf) : list (result unit string) := if String.eqb (path_str dir) "/w/crashing" then [Ok "a"; Ok "b"; Ok "c"]%string else [].
Definition example_world (stop : bool) : VgWorld :=
  mk_vg_world (fun _ _ => true) (fun _ p => String.prefix "/w/crashing" (path_str p) && (String.length (path_str p) =? 11)%nat)
    (fun _ dir => Some (entries dir)) (fun _ p => Some (if String.eqb (path_str p) "/w/crashing/b" then "B" else "A")%string)
    (fun _ => Some (path "/tmp/t")) (fun _ _ => Some (Some 0, Some EmptyString)) (fun _ _ => true) (fun _ _ => true) (fun _ _ _ => Written)
    (fun _ => true) (fun _ _ => true) (fun _ l => l) (fun _ => stop) (fun _ => 0%nat).
Definition example_config : Config := 
  mk_config (mk_general_config (path "/in") (path "/w") (secs 300) None None true)
    (mk_source_config [] (path "/bin/s") [] In_None Out_None None false false None None None None None None None) PhasesConfig_default
    (mk_sink_config (path "/bin/t") ["@@"%string] [] In_File Out_None false false false None None None None false) None
    (mk_vanilla_config [] (path "/bin/t") []) None None None.
Definition nothing : ValgrindManager := mk_valgrind ∅ [] ∅ (path EmptyString) 0 [] [] 0 (path EmptyString) [] [] None None false.
Definition before : VgState := mk_vg_state nothing ∅ 0 [].

Lemma files_kept stop : FilesKept to_bits from_bits (example_world stop) example_config.
Proof.
  split; try done; [apply from_to_bits|]. intros n dir es name [= <-]. unfold entries. destruct (String.eqb_spec (path_str dir) "/w/crashing") as [Ed|]; [|by intros ?%elem_of_nil].
  destruct dir as [d]. cbn in Ed. subst d. rewrite !elem_of_cons. by intros [[= ->]|[[= ->]|[[= ->]|?%elem_of_nil]]].
Qed.
Lemma stopped_world : StoppedWorld to_bits from_bits (example_world true) example_config.
Proof. split; try done; apply from_to_bits. Qed.

(** The states after a start, after a scan, after two starts. *)
Definition started : VgState :=
  match from_config from_bits (example_world true) example_config [] None before with Ret (_, s) => s | Panic => before end.
Definition scanned : VgState := match queue_new_inputs id (example_world true) started with Ret (_, s) => s | Panic => before end.
Definition two_starts : VgState :=
  match sessions id to_bits from_bits (example_world false) example_config [] None [Some 2%nat; None] before with Ret (_, s) => s | Panic => before end.
End ValgrindExample.

Lemma known_inputs_not_queued_again_witness :
  length (vs_log ValgrindExample.two_starts) = 6%nat /\
  (forall newer older p h known, vs_log ValgrindExample.two_starts = newer ++ Queued p h :: older -> StoredKnown known ∈ older -> h ∉ known) /\
  (forall newer older known h, vs_log ValgrindExample.two_starts = newer ++ StoredKnown known :: older -> h ∈ known -> exists p, Queued p h ∈ older).
Proof.
  split; [vm_compute; reflexivity|].
  apply (known_inputs_not_queued_again id ValgrindExample.to_bits ValgrindExample.from_bits (ValgrindExample.example_world false) ValgrindExample.example_config [] None
           (ValgrindExample.files_kept false) [Some 2%nat; None] ValgrindExample.before (Ok tt)); vm_compute; reflexivity.
Defined.

(** Two inputs are queued, and the one job completes one of them. *)
Lemma interrupted_inputs_forgotten_witness :
  exists found processed left s2 r s3 again,
    vs_log ValgrindExample.scanned = reverse (queued_event <$> found) /\ length found = 2%nat /\
    run id ValgrindExample.to_bits (ValgrindExample.example_world true) ValgrindExample.scanned = Ret (Ok tt, s2) /\
    processed.*1 ++ left ≡ₚ found.*1 /\ length processed = 1%nat /\
    vs_log s2 = StoredKnown (list_to_set found.*2) :: reverse (processed_event <$> processed) ++ vs_log ValgrindExample.scanned /\
    (from_config ValgrindExample.from_bits (ValgrindExample.example_world true) ValgrindExample.example_config [] None ;;
     queue_new_inputs id (ValgrindExample.example_world true)) s2 = Ret (r, s3) /\
    vs_log s3 = reverse (queued_event <$> again) ++ vs_log s2 /\ (forall h, h ∈ again.*2 -> h ∉ found.*2).
Proof.
  destruct (interrupted_inputs_forgotten id ValgrindExample.to_bits ValgrindExample.from_bits (ValgrindExample.example_world true) ValgrindExample.example_config [] None
    (fun n => mk_is_Some (Some (path "/tmp/t")) _ eq_refl) ValgrindExample.stopped_world ValgrindExample.started ValgrindExample.scanned)
    as (found & processed & left & s2 & r & s3 & again & El & Eq & _ & _ & Er & Hp & Hpos & Hj & El2 & E3 & El3 & Hn).
  - vm_compute; reflexivity.
  - vm_compute; reflexivity.
  - vm_compute; reflexivity.
  - vm_compute; reflexivity.
  - intros E. apply (f_equal length) in E. vm_compute in E. discriminate E.
  - apply (bool_decide_eq_true_1 (Forall (fun p => is_Some (file_name p)) (vm_inputs_queue (vs_manager ValgrindExample.scanned)))). vm_compute; reflexivity.
  - exists found, processed, left, s2, r, s3, again.
    assert (Hlog : vs_log ValgrindExample.started = []) by (vm_compute; reflexivity). rewrite Hlog, app_nil_r in El.
    assert (Hknown : vm_known_inputs (vs_manager ValgrindExample.started) = ∅) by (vm_compute; reflexivity). rewrite Hknown, union_empty_r_L in El2.
    assert (Hfound : length found = 2%nat).
    { apply (f_equal length) in Eq. rewrite length_fmap in Eq. rewrite <- Eq. vm_compute; reflexivity. }
    assert (Hone : default 1 (vm_job_cnt (vs_manager ValgrindExample.started)) = 1) by (vm_compute; reflexivity). rewrite Hone in Hj.
    repeat (split; [done|]). split; [lia|]. done.
Defined.

(** ** The addresses of a report *)

#[local] Arguments is_digit : simpl never.
#[local] Arguments is_hex : simpl never.
#[local] Arguments String.append : simpl never.

(** A line of a report: a frame of a stack, or something else. *)
Inductive ReportLine := FrameLine (pid : N) (at_frame : bool) (address description : string) | TextLine (text : string).

Definition no_newline : string -> bool := all_chars (fun c => negb (Ascii.eqb c newline)).
Definition mentions_by (s : string) : bool := Blocks.contains "by 0x" s.
Definition report_line_ok (l : ReportLine) : bool :=
  match l with
  | FrameLine _ _ address description => all_hex address && no_newline description && negb (mentions_by description)
  | TextLine text => no_newline text && negb (mentions_by text)
  end.

(** The frame after the mark of the process, and the line. *)
Definition frame_text (at_frame : bool) (address description : string) : string :=
  (if at_frame then "at" else "by") +:+ " 0x" +:+ address +:+ ":" +:+ description.
Definition report_line (l : ReportLine) : string :=
  match l with
  | FrameLine pid at_frame address description => "==" +:+ pretty pid +:+ "==    " +:+ frame_text at_frame address description
  | TextLine text => text
  end.
Fixpoint print_report (l : list ReportLine) : string :=
  match l with [] => EmptyString | x :: l => report_line x +:+ String newline (print_report l) end.

Lemma full_lines_app l s : no_newline l = true -> full_lines (l +:+ String newline s) = l :: full_lines s.
Proof.
  induction l as [|c l IH]; intros Hl; [done|]. cbn in Hl. apply andb_true_iff in Hl as [Hc%negb_true_iff Hl]. rewrite append_cons. cbn. by rewrite Hc, (IH Hl).
Qed.

Lemma not_mentioned s : mentions_by s = false <-> search (lit "by 0x") s = None.
Proof.
  unfold mentions_by, Blocks.contains. rewrite bool_decide_eq_false, <- eq_None_not_Some. done.
Qed.
Lemma search_None_app {A} (m : string -> option A) p s : search m (p +:+ s) = None -> search m s = None.
Proof. induction p as [|c p IH]; [done|]. rewrite append_cons. cbn. by destruct (m _). Qed.
Lemma lit_Some w s s' : lit w s = Some s' -> s = w +:+ s'.
Proof.
  revert s. induction w as [|a w IH]; intros s; [by intros [= <-]|]. destruct s as [|b s]; [done|]. cbn. destruct (Ascii.eqb_spec a b) as [->|]; [|done].
  intros E. by rewrite append_cons, <- (IH s E).
Qed.
Lemma search_lit_suffix w s s' : search (lit w) s = Some s' -> exists p, s = p +:+ s'.
Proof.
  induction s as [|c s IH]; intros E; cbn in E.
  - destruct (lit w EmptyString) as [r|] eqn:El; [|done]. injection E as <-. exists w. by apply lit_Some.
  - destruct (lit w (String c s)) as [r|] eqn:El; [injection E as <-; exists w; by apply lit_Some|]. destruct (IH E) as [p Hp]. exists (String c p). by rewrite append_cons, <- Hp.
Qed.
Lemma by_address_lit s : lit "by 0x" s = None -> by_address s = None.
Proof. unfold by_address. by intros ->. Qed.
Lemma last_match_None s : search (lit "by 0x") s = None -> last_match by_address s = None.
Proof.
  induction s as [|c s IH]; intros E; [done|]. cbn [last_match]. cbn [search] in E. destruct (lit "by 0x" (String c s)) eqn:El; [done|].
  by rewrite (IH E), by_address_lit.
Qed.
Lemma last_match_app {A} (m : string -> option A) p s a : last_match m s = Some a -> last_match m (p +:+ s) = Some a.
Proof. intros E. induction p as [|c p IH]; [done|]. rewrite append_cons. cbn. by rewrite IH. Qed.

(** Text without the letter [y] mentions nothing. *)
Definition not_y (c : ascii) : bool := negb (Ascii.eqb c "y").
Lemma skip_text d s : all_chars not_y d = true -> stops (Ascii.eqb "y") s = true -> search (lit "by 0x") s = None -> search (lit "by 0x") (d +:+ s) = None.
Proof.
  intros Hd Hs E. induction d as [|c d IH]; [done|]. cbn in Hd. apply andb_true_iff in Hd as [Hc Hd]. rewrite append_cons. cbn [search].
  assert (El : lit "by 0x" (String c (d +:+ s)) = None); [|by rewrite El, IH].
  cbn [lit]. destruct (Ascii.eqb "b" c); [|done]. destruct d as [|c' d].
  - rewrite append_nil. destruct s as [|c' s]; [done|]. cbn [lit]. apply negb_true_iff in Hs. by rewrite Hs.
  - rewrite append_cons. cbn [lit]. cbn in Hd. apply andb_true_iff in Hd as [Hc' _]. apply negb_true_iff in Hc'. by rewrite Ascii.eqb_sym, Hc'.
Qed.

Lemma hex_no_by h : all_hex h = true -> all_chars not_y h = true.
Proof. intros [Hh _]%hex_parts. revert Hh. by apply (class_excludes _ (fun c => Ascii.eqb c "y")). Qed.
Lemma pretty_no_by (n : N) : all_chars not_y (pretty n) = true.
Proof. destruct (pretty_digits n) as (Hd & _ & _). rewrite digits_chars in Hd. revert Hd. by apply (class_excludes _ (fun c => Ascii.eqb c "y")). Qed.

(** What follows the first word of a frame mentions no address. *)
Lemma after_word address description :
  all_hex address = true -> mentions_by description = false -> search (lit "by 0x") (" 0x" +:+ address +:+ ":" +:+ description) = None.
Proof.
  intros Ha Hd%not_mentioned. apply skip_text; [done| |].
  - apply hex_parts in Ha as [Hh Hne]. by apply (stops_first is_hex).
  - apply skip_text; [by apply hex_no_by|done|]. cbn [search]. by rewrite append_cons.
Qed.

Lemma by_frame address description :
  all_hex address = true -> mentions_by description = false -> last_match by_address (frame_text false address description) = Some ("0x" +:+ address).
Proof.
  intros Ha Hd. pose proof (after_word _ _ Ha Hd) as E. unfold frame_text.
  change (last_match by_address (String "b" (String "y" (" 0x" +:+ address +:+ ":" +:+ description))) = Some ("0x" +:+ address)). cbn [last_match].
  rewrite (last_match_None _ E), by_address_lit by done. unfold by_address.
  apply hex_parts in Ha as [Hh Hne].
  assert (Hl : lit "by 0x" (String "b" (String "y" (" 0x" +:+ address +:+ ":" +:+ description))) = Some (address +:+ ":" +:+ description)) by exact (lit_app "by 0x" _).
  rewrite Hl. cbn [mbind option_bind]. rewrite some_app by done. cbn [mbind option_bind]. by rewrite lit_app.
Qed.
Lemma at_frame_None address description :
  all_hex address = true -> mentions_by description = false -> search (lit "by 0x") (frame_text true address description) = None.
Proof. intros Ha Hd. unfold frame_text. apply (skip_text "at"); [done|done|by apply after_word]. Qed.

Lemma frame_address_line l :
  report_line_ok l = true ->
  frame_address (report_line l) = match l with FrameLine _ false address _ => Some ("0x" +:+ address) | _ => None end.
Proof.
  intros Hok. unfold frame_address. destruct l as [pid at_frame address description|text]; cbn [report_line_ok report_line] in *.
  - apply andb_true_iff in Hok as [[Ha _]%andb_true_iff Hd%negb_true_iff]. rewrite (search_here _ _ (pretty pid +:+ "==    " +:+ frame_text at_frame address description)) by apply lit_app.
    cbn [mbind option_bind]. destruct at_frame; [|by do 2 apply last_match_app; apply by_frame].
    apply last_match_None, skip_text; [apply pretty_no_by|done|]. apply skip_text; [done|done|by apply at_frame_None].
  - apply andb_true_iff in Hok as [_ Ht%negb_true_iff%not_mentioned]. destruct (search (lit "==") text) as [s|] eqn:Es; [|done]. cbn [mbind option_bind].
    apply search_lit_suffix in Es as [p ->]. by eapply last_match_None, search_None_app.
Qed.

Lemma report_line_newline l : report_line_ok l = true -> no_newline (report_line l) = true.
Proof.
  destruct l as [pid at_frame address description|text]; cbn [report_line_ok report_line].
  - intros [[[Ha _]%hex_parts Hd]%andb_true_iff _]%andb_true_iff. destruct (pretty_digits pid) as (Hp & _ & _). rewrite digits_chars in Hp.
    apply (class_excludes is_hex (fun c => Ascii.eqb c newline)) in Ha; [|done]. apply (class_excludes is_digit (fun c => Ascii.eqb c newline)) in Hp; [|done].
    unfold frame_text, no_newline in *. rewrite !all_chars_app, Ha, Hp, Hd. by destruct at_frame.
  - by intros [Ht _]%andb_true_iff.
Qed.

(** The stack trace that names the bucket of a report is the list of the addresses of its [by]
    frames in order; the innermost frame of a stack, which is written with [at], is left
    out. *)
Theorem stack_trace_of_report l :
  forallb report_line_ok l = true ->
  get_address_stack_trace (print_report l) =
    omap (fun x => match x with FrameLine _ false address _ => Some ("0x" +:+ address) | _ => None end) l.
Proof.
  unfold get_address_stack_trace. induction l as [|x l IH]; [done|]. cbn [forallb print_report]. intros [Hx Hl]%andb_true_iff.
  rewrite full_lines_app by (by apply report_line_newline). cbn [omap list_omap]. rewrite frame_address_line by done. by rewrite <- IH.
Qed.
