(* ===== verification/Competitors.v ===== *)
(** * Campaigns of other fuzzers

    Models [scheduler/src/competitors] ([worker.rs], [aflnet.rs], [stateafl.rs], [sgfuzz.rs]), the
    commands that start these campaigns in [scheduler/src/cli/handler.rs], and the durations of the
    command line ([cli/util.rs]).  A campaign is a labelled transition system: the thread that
    calls [run_campaign], one thread per worker, the processes they start, and the flag that all
    threads share.  A step of a thread is everything up to the next point at which other threads
    or processes matter; the label says what the operating system answered.  Between two steps of
    a thread anything else may happen, which is what sleeping and waiting allow. *)

From Stdlib Require Import Ascii.
From stdpp Require Import pretty.
From S2P Require Import Prelude Phases Config.

(** ** Durations and arguments of the command line *)

(** What follows the amount in [^([0-9]+)(ms|s|m|h|d|a)$], as factors to milliseconds. *)
Definition cli_suffix (s : string) : option (list Z) :=
  if String.eqb s "ms" then Some []
  else if String.eqb s "s" then Some [1000]
  else if String.eqb s "m" then Some [60; 1000]
  else if String.eqb s "h" then Some [3600; 1000]
  else if String.eqb s "d" then Some [3600; 24; 1000]
  else if String.eqb s "a" then Some [3600; 24; 365; 1000]
  else None.

Definition CliDuration_from_str (s : string) : outcome (result unit Z) :=
  let (amount, suffix) := take_digits s in
  match amount, cli_suffix suffix with
  | String _ _, Some factors =>
      amount ← unwrap (parse_digits 64 amount);
      millis ← mul_all 64 amount factors;
      mret (Ok millis)
  | _, _ => mret (Err tt)
  end.

(** The timeout in milliseconds and the number of jobs. *)
Definition competitor_arguments (timeout jobs : option string) : outcome (Z * nat) :=
  timeout ← (match timeout with
             | Some e => r ← CliDuration_from_str e; match r with Ok v => mret v | Err _ => Panic end
             | None => mret 60000
             end);
  jobs ← unwrap jobs;
  job_cnt ← unwrap (parse_uint 64 jobs);
  mret (timeout, Z.to_nat job_cnt).

(** ** Commands *)

Inductive WorkerId := Master | Slave (n : nat).
Inductive Competitor := AflNet | StateAfl | SGFuzz.
#[export] Instance Competitor_eq_dec : EqDecision Competitor.
Proof. solve_decision. Defined.

(** The ids of [run_campaign]. *)
Definition worker_id (job_id : nat) : WorkerId := match job_id with O => Master | _ => Slave job_id end.

(** [std::process::Command]: the variables of the environment are a map, and the last value
    that is set for a variable counts. *)
Record Command := mk_command {
  cmd_program : string;
  cmd_args : list string;
  cmd_envs : gmap string string;
  cmd_output : string;
  cmd_ids : option (Z * Z);
}.
Definition envs (l : list (string * string)) (m : gmap string string) : gmap string string :=
  foldl (fun m kv => <[kv.1 := kv.2]> m) m l.

(** [format!("{:?}.log", id)] *)
Definition log_name (id : WorkerId) : string :=
  match id with Master => "Master.log" | Slave n => "Slave(" +:+ pretty n +:+ ").log" end.
(** The option that names an instance of [afl-fuzz]. *)
Definition instance_option (id : WorkerId) : string :=
  match id with Master => "-Mmaster" | Slave n => "-Sslave" +:+ pretty n end.

Definition fuzzer_asan_options : string := String.concat ":"
  ["abort_on_error=1"; "symbolize=0"; "detect_leaks=0"; "handle_abort=2"; "handle_segv=2"; "handle_sigbus=2";
   "handle_sigill=2"; "detect_stack_use_after_return=0"; "detect_odr_violation=0"]%string.

Definition AFLNET_PROTOCOLS : list string :=
  ["RTSP"; "FTP"; "DTLS12"; "DNS"; "DICOM"; "SMTP"; "SSH"; "TLS"; "DAAP-HTTP"; "SIP"; "NOP"]%string.

Definition aflnet_command (config : Config) (id : WorkerId) : outcome Command :=
  cfg ← unwrap (c_aflnet config);
  let workdir := aflnet_workdir (c_general config) in
  let log_path := path_push (path_push workdir "logs") (log_name id) in
  assert_that (existsb (String.eqb (an_protocol cfg)) AFLNET_PROTOCOLS) ;;
  ids ← jail_uid_gid (c_general config);
  mret (mk_command "/competitors/aflnet/afl-fuzz"
    (["-m"; "none"; "-i"; path_str (an_input_dir cfg); "-o"; path_str workdir; instance_option id;
      "-N"; an_netinfo cfg; "-P"; an_protocol cfg]%string
     ++ (if an_enable_state_aware_mode cfg then ["-E"%string] else [])
     ++ ["-R"%string]
     ++ (if an_send_sigterm cfg then ["-K"%string] else [])
     ++ ["-t"; "500+"; "--"; path_str (an_bin_path cfg)]%string
     ++ si_arguments (c_sink config))
    (envs (an_env cfg) (envs [("AFL_NO_UI", "1"); ("AFL_SKIP_CRASHES", "1"); ("AFL_NO_AFFINITY", "1")]%string ∅))
    (path_str log_path) ids).

(** The variables that [_loop] of AFLNet writes to the log as the environment of the command. *)
Definition aflnet_logged_env (cmd : Command) : list (string * string) :=
  map_to_list (cmd_envs cmd) ++ [("ASAN_OPTIONS"%string, fuzzer_asan_options)].

(** [no_affinity]: whether [FT_NO_AFFINITY] is set; the variable is set in any case later. *)
Definition stateafl_command (no_affinity : bool) (config : Config) (id : WorkerId) : outcome Command :=
  cfg ← unwrap (c_stateafl config);
  let workdir := stateafl_workdir (c_general config) in
  let log_path := path_push (path_push workdir "logs") (log_name id) in
  ids ← jail_uid_gid (c_general config);
  let env := envs [("AFL_NO_UI", "1")]%string ∅ in
  let env := if no_affinity then envs [("AFL_NO_AFFINITY", "1")]%string env else env in
  let env := envs [("ASAN_OPTIONS"%string, fuzzer_asan_options)] (envs (sa_env cfg) env) in
  let env := envs [("AFL_NO_AFFINITY", "1")]%string env in
  mret (mk_command "/competitors/stateafl/afl-fuzz"
    (["-m"; "none"; "-i"; path_str (sa_input_dir cfg); "-o"; path_str workdir; instance_option id;
      "-N"; sa_netinfo cfg; "-q"; "3"; "-s"; "3"; "-R"]%string
     ++ (if sa_enable_state_aware_mode cfg then ["-E"%string] else [])
     ++ (if sa_send_sigterm cfg then ["-K"%string] else [])
     ++ ["--"; path_str (sa_bin_path cfg)]%string
     ++ si_arguments (c_sink config))
    env (path_str log_path) ids).

Definition sgfuzz_command (config : Config) (id : WorkerId) : outcome Command :=
  cfg ← unwrap (c_sgfuzz config);
  let general := c_general config in
  let log_path := path_push (path_push (sgfuzz_workdir general) "logs") (log_name id) in
  let output := if si_log_stdout (c_sink config) || si_log_stderr (c_sink config) then path_str log_path else "/dev/null"%string in
  port ← dst_port cfg;
  ids ← jail_uid_gid general;
  mret (mk_command (path_str (sg_bin_path cfg))
    (["-artifact_prefix=" +:+ path_str (sgfuzz_crash_out_dir general) +:+ "/"; "-detect_leaks=0"; "-print_final_stats=1";
      "-reload=30"; "-reduce_inputs=1"; "-check_input_sha1=1"; "-print_full_coverage=1"; "-shrink=1"; "-close_fd_mask=3";
      path_str (sgfuzz_seed_out_dir general) +:+ "/"; path_str (sg_input_dir cfg) +:+ "/"; "--"]%string
     ++ default (si_arguments (c_sink config)) (sg_args cfg))
    (envs [("HFND_TCP_PORT", pretty port); ("ASAN_OPTIONS", fuzzer_asan_options)]%string (envs (sg_env cfg) ∅))
    output ids).

Definition worker_command (k : Competitor) (no_affinity : bool) (config : Config) (id : WorkerId) : outcome Command :=
  match k with
  | AflNet => aflnet_command config id
  | StateAfl => stateafl_command no_affinity config id
  | SGFuzz => sgfuzz_command config id
  end.

(** ** Threads and processes *)

(** A process that was not waited for yet, with the worker that started it. *)
Record Proc := mk_proc { pr_owner : nat; pr_exited : bool; pr_sigterm : bool; pr_command : Command }.

(** [std::process::Child]: its id, and whether its exit status was fetched, which is then
    remembered in the handle. *)
Record Handle := mk_handle { hd_id : Z; hd_reaped : bool }.

(** Where the thread of a worker is. *)
Inductive Pc :=
| AtUnshare                       (** [unshare_network_namespace] *)
| AtSpawn (tries : nat)           (** the command is started, and [tries] tries are left after that *)
| AtImport (tries : nat) (h : Handle)  (** StateAFL: [wait_timeout] after a start *)
| AtSend (h : Handle)             (** [init_finished.send] *)
| AtPoll (h : Handle)             (** [thread::sleep] and [try_wait] *)
| AtEarly (h : Handle)            (** [status.is_some() && !termination_flag] *)
| AtRestart                       (** SGFuzz: the child is started again *)
| AtFlag (h : Handle)             (** [if termination_flag] *)
| AtKill (h : Handle)             (** [kill(child_pid, SIGTERM)] *)
| AtWait (h : Handle)             (** [child.wait()] *)
| Finished
| Panicked.

Record Thread := mk_thread { th_pc : Pc; th_sent : bool }.

(** Where [run_campaign] is. *)
Inductive MainPc :=
| MainSpawn (job_id : nat)        (** the loop over the jobs *)
| MainInit (job_id : nat)         (** [recv_timeout] in [run] of the worker *)
| MainPoll                        (** the loop that waits for the timeout *)
| MainJoin (job_id : nat)         (** [worker.join(None)] *)
| MainReturned
| MainPanicked.

Record State := mk_state {
  st_flag : bool;
  st_main : MainPc;
  st_threads : list Thread;
  st_procs : gmap Z Proc;
  (** Children whose handle was dropped before they were waited for. *)
  st_lost : list Z;
  (** The process ids that were sent [SIGTERM], with the worker that sent it. *)
  st_signals : list (nat * Z);
}.

Inductive Answer := Succeeds | Spawned (pid : Z) | Fails.
Inductive Label :=
| LMain (elapsed : bool)          (** a step of [run_campaign]; whether its time is over (or the other end of the channel is gone) *)
| LWorker (i : nat) (a : Answer)
| LExit (pid : Z)                 (** a process ends *)
| LSignal.                        (** the handler of signals sets the flag *)

Definition set_procs (m : gmap Z Proc) (s : State) : State :=
  mk_state (st_flag s) (st_main s) (st_threads s) m (st_lost s) (st_signals s).
Definition set_flag (s : State) : State :=
  mk_state true (st_main s) (st_threads s) (st_procs s) (st_lost s) (st_signals s).
Definition set_main (m : MainPc) (s : State) : State :=
  mk_state (st_flag s) m (st_threads s) (st_procs s) (st_lost s) (st_signals s).
Definition set_thread (i : nat) (t : Thread) (s : State) : State :=
  mk_state (st_flag s) (st_main s) (<[i := t]> (st_threads s)) (st_procs s) (st_lost s) (st_signals s).
Definition add_thread (t : Thread) (s : State) : State :=
  mk_state (st_flag s) (st_main s) (st_threads s ++ [t]) (st_procs s) (st_lost s) (st_signals s).
Definition lose (pid : Z) (s : State) : State :=
  mk_state (st_flag s) (st_main s) (st_threads s) (st_procs s) (pid :: st_lost s) (st_signals s).

(** A [Child] is dropped: nobody waits for its process any more. *)
Definition drop_child (h : Handle) (s : State) : State := if hd_reaped h then s else lose (hd_id h) s.

(** [kill(pid, SIGTERM)], whatever process has the id now; errors are ignored. *)
Definition send_sigterm (i : nat) (pid : Z) (s : State) : State :=
  mk_state (st_flag s) (st_main s) (st_threads s)
    (alter (fun p => mk_proc (pr_owner p) (pr_exited p) true (pr_command p)) pid (st_procs s))
    (st_lost s) ((i, pid) :: st_signals s).

(** [Child::try_wait]: the status that is remembered, or the one of the process, which is then
    gone.  [None]: the call fails. *)
Definition try_wait (h : Handle) (s : State) : option (Handle * State) :=
  if hd_reaped h then Some (h, s)
  else match st_procs s !! hd_id h with
       | Some p => if pr_exited p then Some (mk_handle (hd_id h) true, set_procs (delete (hd_id h) (st_procs s)) s) else Some (h, s)
       | None => None
       end.

Section campaign.
Context (k : Competitor) (no_affinity : bool) (config : Config) (job_cnt : nat).

(** How often the import of the seeds is tried. *)
Definition import_tries : nat := match k with StateAfl => 6 | _ => 1 end.

(** [Command::spawn]: the new process has an id that no process has. *)
Definition spawn_command (i : nat) (a : Answer) (s : State) : option (option (Handle * State)) :=
  match a, worker_command k no_affinity config (worker_id i) with
  | Spawned pid, Ret cmd =>
      if decide (st_procs s !! pid = None) then Some (Some (mk_handle pid false, set_procs (<[pid := mk_proc i false false cmd]> (st_procs s)) s))
      else None
  | Fails, _ => Some None
  | _, _ => None
  end.

(** A step of a worker: [run] and [_loop]. *)
Definition worker_step (i : nat) (a : Answer) (t : Thread) (s : State) : option State :=
  let go pc s := Some (set_thread i (mk_thread pc (th_sent t)) s) in
  match th_pc t with
  | AtUnshare => match a with Succeeds => go (AtSpawn (import_tries - 1)) s | Fails => go Panicked s | _ => None end
  | AtSpawn tries =>
      match spawn_command i a s with
      | Some (Some (h, s)) => match k with StateAfl => go (AtImport tries h) s | _ => go (AtSend h) s end
      | Some None => go Panicked s
      | None => None
      end
  | AtImport tries h =>
      match a with
      | Succeeds =>
          match try_wait h s with
          | Some (h, s) => if hd_reaped h then (if decide (tries = 0%nat) then go (AtSend h) s else go (AtSpawn (tries - 1)) s) else go (AtSend h) s
          | None => None
          end
      | Fails => if decide (tries = 0%nat) then go (AtSend h) s else go (AtSpawn (tries - 1)) (drop_child h s)
      | _ => None
      end
  | AtSend h => match a with Succeeds => Some (set_thread i (mk_thread (AtPoll h) true) s) | _ => None end
  | AtPoll h =>
      match a with
      | Succeeds => match try_wait h s with Some (h, s) => go (AtEarly h) s | None => None end
      | Fails => go Panicked s
      | _ => None
      end
  | AtEarly h =>
      match a with
      | Succeeds => if hd_reaped h && negb (st_flag s) then (match k with SGFuzz => go AtRestart s | _ => go Finished s end) else go (AtFlag h) s
      | _ => None
      end
  | AtRestart =>
      match spawn_command i a s with
      | Some (Some (h, s)) => go (AtFlag h) s
      | Some None => go Panicked s
      | None => None
      end
  | AtFlag h => match a with Succeeds => if st_flag s then go (AtKill h) s else go (AtPoll h) s | _ => None end
  | AtKill h => match a with Succeeds => go (AtWait h) (send_sigterm i (hd_id h) s) | _ => None end
  | AtWait h =>
      match a with
      | Succeeds => match try_wait h s with Some (h, s) => if hd_reaped h then go Finished s else None | None => None end
      | Fails => go Panicked s
      | _ => None
      end
  | Finished | Panicked => None
  end.

(** A step of [run_campaign].  While a thread that is joined has not ended nothing changes. *)
Definition main_step (elapsed : bool) (s : State) : option State :=
  match st_main s with
  | MainSpawn j =>
      if (j <? job_cnt)%nat then Some (set_main (MainInit j) (add_thread (mk_thread AtUnshare false) s)) else Some (set_main MainPoll s)
  | MainInit j =>
      match st_threads s !! j with
      | Some t => if th_sent t then Some (set_main (MainSpawn (S j)) s) else if elapsed then Some (set_main MainPanicked s) else Some s
      | None => None
      end
  | MainPoll =>
      if elapsed then Some (set_main (MainJoin 0) (set_flag s))
      else if st_flag s then Some (set_main (MainJoin 0) s) else Some s
  | MainJoin j =>
      match st_threads s !! j with
      | Some t =>
          match th_pc t with
          | Finished => Some (set_main (MainJoin (S j)) s)
          | Panicked => Some (set_main MainPanicked s)
          | _ => Some s
          end
      | None => Some (set_main MainReturned s)
      end
  | MainReturned | MainPanicked => None
  end.

(** A panic of [run_campaign] ends the program with all its threads, but not the processes. *)
Definition campaign_step (l : Label) (s : State) : option State :=
  match l with
  | LMain elapsed => main_step elapsed s
  | LWorker i a =>
      match st_main s with
      | MainPanicked => None
      | _ => t ← st_threads s !! i; worker_step i a t s
      end
  | LExit pid =>
      p ← st_procs s !! pid;
      if pr_exited p : bool then None
      else Some (set_procs (<[pid := mk_proc (pr_owner p) true (pr_sigterm p) (pr_command p)]> (st_procs s)) s)
  | LSignal => Some (set_flag s)
  end.

Fixpoint run_steps (ls : list Label) (s : State) : option State :=
  match ls with [] => Some s | l :: ls => s ← campaign_step l s; run_steps ls s end.

(** [register_on_termination_flag] and the call of [run_campaign]. *)
Definition campaign_begin : State := mk_state false (MainSpawn 0) [] ∅ [] [].

Inductive reachable : State -> Prop :=
| reach_begin : reachable campaign_begin
| reach_step l s s' : reachable s -> campaign_step l s = Some s' -> reachable s'.

Lemma reachable_run ls s s' : reachable s -> run_steps ls s = Some s' -> reachable s'.
Proof.
  revert s. induction ls as [|l ls IH]; intros s Hs; cbn; [by intros [= <-]|].
  destruct (campaign_step l s) as [s1|] eqn:E; cbn; [|done]. apply IH. by eapply reach_step.
Qed.
End campaign.
