(* ===== verification/CompetitorsTheorems.v ===== *)
(** * How campaigns of other fuzzers end

    Theorems on the transition system of [Competitors]: no process that a campaign started is
    left behind when it returns, a campaign that is told to stop does so as soon as its fuzzers
    do, and what the code does besides: signals to processes that are no longer the worker's
    own, and an environment that is logged but not set. *)

From stdpp Require Import pretty.
From S2P Require Import Prelude Effects Phases Config ConfigTheorems Competitors.

(** ** The invariant *)

Definition pc_handle (pc : Pc) : option Handle :=
  match pc with
  | AtImport _ h | AtSend h | AtPoll h | AtEarly h | AtFlag h | AtKill h | AtWait h => Some h
  | _ => None
  end.
(** The child a thread still has to wait for. *)
Definition live (pc : Pc) : option Z :=
  h ← pc_handle pc; if hd_reaped h then None else Some (hd_id h).
Definition importing (pc : Pc) : bool := match pc with AtImport _ _ => true | _ => false end.
Definition waiting (pc : Pc) : bool := match pc with AtWait _ => true | _ => false end.
(** How many steps a thread has left once the flag is set. *)
Definition pc_rank (pc : Pc) : nat :=
  match pc with
  | AtUnshare => 19
  | AtSpawn tries => 8 + 2 * tries
  | AtImport tries _ => 7 + 2 * tries
  | AtSend _ => 6
  | AtPoll _ => 5
  | AtEarly _ | AtRestart => 4
  | AtFlag _ => 3
  | AtKill _ => 2
  | AtWait _ => 1
  | Finished | Panicked => 0
  end.
(** Before the worker has told that it started. *)
Definition starting (pc : Pc) : bool :=
  match pc with AtUnshare | AtSpawn _ | AtImport _ _ | AtSend _ | Panicked => true | _ => false end.

Section invariant.
Context (k : Competitor) (no_affinity : bool) (config : Config) (job_cnt : nat).
Local Notation campaign_step := (campaign_step k no_affinity config job_cnt).
Local Notation reachable := (reachable k no_affinity config job_cnt).

Record Inv (s : State) : Prop := {
  inv_owned pid p : st_procs s !! pid = Some p ->
    pid ∈ st_lost s \/ exists t, st_threads s !! pr_owner p = Some t /\ (th_pc t = Panicked \/ live (th_pc t) = Some pid);
  inv_live i t pid : st_threads s !! i = Some t -> live (th_pc t) = Some pid ->
    exists p, st_procs s !! pid = Some p /\ pr_owner p = i /\ (waiting (th_pc t) = true -> pr_sigterm p = true);
  inv_import i t : k <> StateAfl -> st_threads s !! i = Some t -> importing (th_pc t) = false;
  inv_lost : k <> StateAfl -> st_lost s = [];
  inv_sent i t : st_threads s !! i = Some t -> th_sent t = false -> starting (th_pc t) = true;
  inv_main :
    match st_main s with
    | MainInit j => is_Some (st_threads s !! j)
    | MainJoin j => forall i t, (i < j)%nat -> st_threads s !! i = Some t -> th_pc t = Finished
    | MainReturned => forall i t, st_threads s !! i = Some t -> th_pc t = Finished
    | _ => True
    end;
}.

(** What a step of a thread may do to the processes. *)
Lemma inv_thread s i t t' s' :
  Inv s -> st_threads s !! i = Some t -> th_pc t <> Finished ->
  st_main s' = st_main s -> st_threads s' = <[i := t']> (st_threads s) ->
  (forall pid p, st_procs s' !! pid = Some p ->
     pid ∈ st_lost s' \/ (pr_owner p = i /\ (th_pc t' = Panicked \/ live (th_pc t') = Some pid)) \/
     (pr_owner p <> i /\ exists p0, st_procs s !! pid = Some p0 /\ pr_owner p0 = pr_owner p)) ->
  st_lost s ⊆ st_lost s' ->
  (forall pid, live (th_pc t') = Some pid -> exists p, st_procs s' !! pid = Some p /\ pr_owner p = i /\ (waiting (th_pc t') = true -> pr_sigterm p = true)) ->
  (forall pid p, st_procs s !! pid = Some p -> pr_owner p <> i ->
     exists p', st_procs s' !! pid = Some p' /\ pr_owner p' = pr_owner p /\ (pr_sigterm p = true -> pr_sigterm p' = true)) ->
  (k <> StateAfl -> importing (th_pc t') = false /\ st_lost s' = []) ->
  (th_sent t' = false -> starting (th_pc t') = true) ->
  Inv s'.
Proof.
  intros I Hi Hf Em Et Ho Hsub Hv Hold Hk Hsent.
  assert (Hlen : (i < length (st_threads s))%nat) by (by eapply lookup_lt_Some).
  split.
  - intros pid p Hp. rewrite Et. destruct (Ho _ _ Hp) as [Hl|[[Eo Hl]|(Hne & p0 & Hp0 & Eo)]]; [by left| |].
    + right. exists t'. subst i. by rewrite list_lookup_insert_eq.
    + destruct (inv_owned _ I _ _ Hp0) as [Hl|(t0 & Ht0 & Hl)]; [left; by apply Hsub|].
      right. exists t0. rewrite Eo in Ht0. by rewrite list_lookup_insert_ne.
  - intros j u pid. rewrite Et. destruct (decide (i = j)) as [<-|Hne].
    + rewrite list_lookup_insert_eq by done. intros [= <-]. apply Hv.
    + rewrite list_lookup_insert_ne by done. intros Hu Hl. destruct (inv_live _ I _ _ _ Hu Hl) as (p & Hp & Eo & Hs).
      destruct (Hold _ _ Hp ltac:(congruence)) as (p' & Hp' & Eo' & Hs'). exists p'. split_and!; [done|congruence|auto].
  - intros j u Hkn. rewrite Et. intros Hu. destruct (decide (i = j)) as [<-|Hne].
    + rewrite list_lookup_insert_eq in Hu by done. injection Hu as <-. by apply Hk.
    + rewrite list_lookup_insert_ne in Hu by done. by eapply inv_import.
  - intros Hkn. by apply Hk.
  - intros j u. rewrite Et. intros Hu. destruct (decide (i = j)) as [<-|Hne].
    + rewrite list_lookup_insert_eq in Hu by done. by injection Hu as <-.
    + rewrite list_lookup_insert_ne in Hu by done. by eapply inv_sent.
  - rewrite Em, Et. pose proof (inv_main _ I) as Hm. destruct (st_main s) as [j|j| |j| |]; try done.
    + destruct (decide (i = j)) as [<-|Hne]; [by rewrite list_lookup_insert_eq; eauto|by rewrite list_lookup_insert_ne].
    + intros a u Ha Hu. destruct (decide (i = a)) as [<-|Hne]; [by destruct Hf; eapply Hm|].
      rewrite list_lookup_insert_ne in Hu by done. by eapply Hm.
    + intros a u Hu. destruct (decide (i = a)) as [<-|Hne]; [by destruct Hf; eapply Hm|].
      rewrite list_lookup_insert_ne in Hu by done. by eapply Hm.
Qed.

(** A thread that goes on has its child, and only that. *)
Lemma owned_live s i t pid p :
  Inv s -> st_threads s !! i = Some t -> th_pc t <> Panicked -> st_procs s !! pid = Some p -> pr_owner p = i ->
  pid ∈ st_lost s \/ live (th_pc t) = Some pid.
Proof.
  intros I Hi Hne Hp Eo. destruct (inv_owned _ I _ _ Hp) as [Hl|(t0 & Ht0 & Hl)]; [by left|].
  rewrite Eo, Hi in Ht0. injection Ht0 as <-. destruct Hl as [Hl|Hl]; [done|by right].
Qed.

(** A thread moves without touching a process, and keeps its child, panics, or loses it. *)
Lemma inv_move s i t pc sent lost :
  Inv s -> st_threads s !! i = Some t -> th_pc t <> Finished -> th_pc t <> Panicked ->
  (pc = Panicked \/ live pc = live (th_pc t) \/ (live pc = None /\ live (th_pc t) = lost)) ->
  importing pc = false -> waiting pc = false -> (sent = false -> starting pc = true) ->
  (is_Some lost -> k = StateAfl) ->
  Inv (set_thread i (mk_thread pc sent) (match lost with Some pid => lose pid s | None => s end)).
Proof.
  intros I Hi Hf Hnp Hlive Himp Hw Hsent Hlost.
  set (s1 := match lost with Some pid => lose pid s | None => s end).
  assert (Es1 : st_main s1 = st_main s /\ st_threads s1 = st_threads s /\ st_procs s1 = st_procs s) by (by destruct lost).
  destruct Es1 as (Em & Et & Ep).
  eapply inv_thread with (t' := mk_thread pc sent); [exact I|exact Hi|done|exact Em|by cbn; rewrite Et|..]; cbn [st_procs st_lost set_thread th_pc th_sent]; rewrite ?Ep.
  - intros pid p Hp. destruct (decide (pr_owner p = i)) as [Eo|Hne]; [|right; right; eauto].
    destruct (owned_live _ _ _ _ _ I Hi Hnp Hp Eo) as [Hl|Hl]; [left; subst s1; destruct lost; cbn; [by right|done]|].
    destruct Hlive as [->|[->|[_ E]]]; [by right; left; auto|by right; left; auto|]. left. subst s1 lost. rewrite Hl. cbn. by left.
  - subst s1. destruct lost; cbn; [by right|done].
  - intros pid Hl. rewrite Hw. destruct Hlive as [->|[E|[E _]]]; [done| |by rewrite E in Hl].
    rewrite E in Hl. destruct (inv_live _ I _ _ _ Hi Hl) as (p & Hp & Eo & _). by exists p.
  - intros pid p Hp _. by exists p.
  - intros Hk. split; [done|]. subst s1. destruct lost; [by destruct (Hk (Hlost ltac:(eauto)))|]. by eapply inv_lost.
  - done.
Qed.

(** Waiting for a child. *)
Inductive wait_outcome (h : Handle) (s : State) : Handle -> State -> Prop :=
| wait_same : (hd_reaped h = true \/ exists p, st_procs s !! hd_id h = Some p /\ pr_exited p = false) -> wait_outcome h s h s
| wait_reaped : hd_reaped h = false -> wait_outcome h s (mk_handle (hd_id h) true) (set_procs (delete (hd_id h) (st_procs s)) s).

Lemma try_wait_waited h s h' s' : try_wait h s = Some (h', s') -> wait_outcome h s h' s'.
Proof.
  unfold try_wait. destruct (hd_reaped h) eqn:E; [intros [= <- <-]; constructor; auto|].
  destruct (st_procs s !! hd_id h) as [p|] eqn:Ep; [|done]. destruct (pr_exited p) eqn:Ee; intros [= <- <-]; constructor; eauto.
Qed.

Lemma inv_wait s i t h h' s1 pc :
  Inv s -> st_threads s !! i = Some t -> pc_handle (th_pc t) = Some h -> try_wait h s = Some (h', s1) ->
  (pc_handle pc = Some h' \/ (pc_handle pc = None /\ hd_reaped h' = true)) ->
  importing pc = false -> waiting pc = false -> (th_sent t = false -> starting pc = true) ->
  Inv (set_thread i (mk_thread pc (th_sent t)) s1).
Proof.
  intros I Hi Hh Hw Hpc Himp Hwt Hsent.
  assert (Hnf : th_pc t <> Finished) by (by intros E; rewrite E in Hh). assert (Hnp : th_pc t <> Panicked) by (by intros E; rewrite E in Hh).
  destruct (try_wait_waited _ _ _ _ Hw) as [_|Hr].
  - apply (inv_move s i t pc (th_sent t) None); [done..| |done|done|done|by intros []]. right. left. unfold live. rewrite Hh.
    destruct Hpc as [->|[-> Er]]; [done|]. cbn. by rewrite Er.
  - assert (El : live (th_pc t) = Some (hd_id h)) by (unfold live; rewrite Hh; cbn; by rewrite Hr).
    assert (En : live pc = None) by (unfold live; destruct Hpc as [->|[-> _]]; done).
    destruct (inv_live _ I _ _ _ Hi El) as (q & Hq & Eq & _).
    eapply inv_thread with (t' := mk_thread pc (th_sent t)); [exact I|exact Hi|done|done|done|..]; cbn [st_procs st_lost set_procs set_thread th_pc th_sent].
    + intros pid p [Hne Hp]%lookup_delete_Some. destruct (decide (pr_owner p = i)) as [Eo|]; [|right; right; eauto].
      destruct (owned_live _ _ _ _ _ I Hi Hnp Hp Eo) as [|E]; [by left|]. congruence.
    + done.
    + by rewrite En.
    + intros pid p Hp Hne. exists p. rewrite lookup_delete_ne; [done|]. intros <-. congruence.
    + intros Hk. split; [done|]. by eapply inv_lost.
    + done.
Qed.

Lemma inv_spawn s i t a h s1 pc :
  Inv s -> st_threads s !! i = Some t -> pc_handle (th_pc t) = None -> th_pc t <> Finished -> th_pc t <> Panicked ->
  spawn_command k no_affinity config i a s = Some (Some (h, s1)) -> pc_handle pc = Some h -> waiting pc = false ->
  (k <> StateAfl -> importing pc = false) -> (th_sent t = false -> starting pc = true) ->
  Inv (set_thread i (mk_thread pc (th_sent t)) s1).
Proof.
  intros I Hi Hh Hnf Hnp Hs Hpc Hwt Himp Hsent. unfold spawn_command in Hs. destruct a as [|pid|]; [done| |done].
  destruct (worker_command _ _ _ _) as [cmd|]; [|done]. case_decide as Hn; [|done]. injection Hs as <- <-.
  assert (El : live pc = Some pid) by (unfold live; by rewrite Hpc).
  eapply inv_thread with (t' := mk_thread pc (th_sent t)); [exact I|exact Hi|done|done|done|..]; cbn [st_procs st_lost set_procs set_thread th_pc th_sent].
  - intros pid' p [[<- <-]|[Hne Hp]]%lookup_insert_Some; [right; left; auto|].
    destruct (decide (pr_owner p = i)) as [Eo|]; [|right; right; eauto].
    destruct (owned_live _ _ _ _ _ I Hi Hnp Hp Eo) as [|E]; [by left|]. unfold live in E. by rewrite Hh in E.
  - done.
  - rewrite El, Hwt. intros pid' [= <-]. exists (mk_proc i false false cmd). by rewrite lookup_insert_eq.
  - intros pid' p Hp Hne. exists p. rewrite lookup_insert_ne; [done|]. intros <-. congruence.
  - intros Hk. split; [auto|]. by eapply inv_lost.
  - done.
Qed.

Lemma kill_lookup i pid s pid' p' :
  st_procs (send_sigterm i pid s) !! pid' = Some p' ->
  exists p, st_procs s !! pid' = Some p /\ pr_owner p' = pr_owner p.
Proof.
  cbn. rewrite lookup_alter_Some. intros [(_ & p & Hp & ->)|[_ Hp]]; eauto.
Qed.

Lemma kill_keeps i pid s pid' p :
  st_procs s !! pid' = Some p ->
  exists p', st_procs (send_sigterm i pid s) !! pid' = Some p' /\ pr_owner p' = pr_owner p /\ (pid = pid' \/ pr_sigterm p = true -> pr_sigterm p' = true).
Proof.
  intros Hp. cbn. destruct (decide (pid = pid')) as [->|Hne].
  - rewrite lookup_alter_eq, Hp. cbn. by eexists.
  - rewrite lookup_alter_ne, Hp by done. exists p. naive_solver.
Qed.

Lemma inv_kill s i t h :
  Inv s -> st_threads s !! i = Some t -> th_pc t = AtKill h ->
  Inv (set_thread i (mk_thread (AtWait h) (th_sent t)) (send_sigterm i (hd_id h) s)).
Proof.
  intros I Hi Et. assert (El : live (AtWait h) = live (th_pc t)) by (by rewrite Et).
  eapply inv_thread with (t' := mk_thread (AtWait h) (th_sent t)); [exact I|exact Hi|by rewrite Et|done|done|..]; cbn [set_thread st_procs st_lost th_pc th_sent].
  - intros pid p Hp. destruct (kill_lookup _ _ _ _ _ Hp) as (p0 & Hp0 & ->). destruct (decide (pr_owner p0 = i)) as [Eo|]; [|right; right; eauto].
    destruct (owned_live _ _ _ _ _ I Hi ltac:(by rewrite Et) Hp0 Eo) as [|E]; [by left|]. right; left. by rewrite El; auto.
  - done.
  - rewrite El. intros pid Hl. destruct (inv_live _ I _ _ _ Hi Hl) as (p & Hp & Eo & _).
    destruct (kill_keeps i (hd_id h) _ _ _ Hp) as (p' & Hp' & Eo' & Hs). exists p'. split_and!; [done|congruence|]. intros _. apply Hs. left.
    rewrite Et in Hl. unfold live in Hl. cbn in Hl. destruct (hd_reaped h); congruence.
  - intros pid p Hp Hne. destruct (kill_keeps i (hd_id h) _ _ _ Hp) as (p' & Hp' & Eo' & Hs). exists p'. auto.
  - intros Hk. split; [done|]. by apply (inv_lost _ I).
  - intros Hs. pose proof (inv_sent _ I _ _ Hi Hs) as Hst. by rewrite Et in Hst.
Qed.

(** ** Steps keep the invariant *)

Lemma worker_step_inv s i a t s' :
  Inv s -> st_threads s !! i = Some t -> worker_step k no_affinity config i a t s = Some s' -> Inv s'.
Proof.
  intros I Hi Hs. pose proof (inv_sent _ I _ _ Hi) as Hsent. destruct t as [pc sent]. cbn [th_sent th_pc] in Hsent.
  assert (Hstay : forall pc', pc <> Finished -> pc <> Panicked -> pc' = Panicked \/ live pc' = live pc -> importing pc' = false -> waiting pc' = false ->
            (sent = false -> starting pc' = true) -> Inv (set_thread i (mk_thread pc' sent) s)).
  { intros pc' Hf Hnp Hl Hi' Hw Hs'. apply (inv_move s i (mk_thread pc sent) pc' sent None); try done; naive_solver. }
  unfold worker_step in Hs. cbn [th_pc th_sent] in Hs.
  destruct pc as [|tries|tries h|h|h|h| |h|h|h| |]; try done.
  - destruct a; [injection Hs as <-|done|injection Hs as <-]; apply Hstay; auto.
  - destruct (spawn_command _ _ _ _ _ _) as [[[h s1]|]|] eqn:Esp; [| |done].
    + assert (s' = set_thread i (mk_thread (match k with StateAfl => AtImport tries h | _ => AtSend h end) sent) s1) as -> by (destruct k; by injection Hs).
      apply (inv_spawn s i (mk_thread (AtSpawn tries) sent) a h s1); try done; by destruct k.
    + injection Hs as <-. apply Hstay; auto.
  - assert (Hk : k = StateAfl). { destruct (decide (k = StateAfl)) as [|Hk]; [done|]. by specialize (inv_import _ I _ _ Hk Hi). }
    destruct a; [|done|].
    + destruct (try_wait h s) as [[h' s1]|] eqn:Ew; [|done]. destruct (hd_reaped h') eqn:Er; [case_decide|];
        injection Hs as <-; (apply (inv_wait s i (mk_thread (AtImport tries h) sent) h h' s1); cbn; auto).
    + case_decide; injection Hs as <-; [apply Hstay; auto|].
      unfold drop_child. destruct (hd_reaped h) eqn:Er.
      * apply Hstay; auto. right. unfold live; cbn. by rewrite Er.
      * apply (inv_move s i (mk_thread (AtImport tries h) sent) (AtSpawn (tries - 1)) sent (Some (hd_id h))); try done.
        right; right. split; [done|]. unfold live; cbn. by rewrite Er.
  - destruct a; [|done..]. injection Hs as <-. apply (inv_move s i (mk_thread (AtSend h) sent) (AtPoll h) true None); try done; by right; left.
  - destruct a; [|done|]; [|injection Hs as <-; apply Hstay; auto].
    destruct (try_wait h s) as [[h' s1]|] eqn:Ew; [|done]. injection Hs as <-.
    apply (inv_wait s i (mk_thread (AtPoll h) sent) h h' s1); cbn; auto.
  - destruct a; [|done..]. destruct (hd_reaped h && negb (st_flag s)) eqn:Er; [|injection Hs as <-; apply Hstay; auto].
    apply andb_prop in Er as [Er _]. assert (Hl : live (AtEarly h) = None) by (unfold live; cbn; by rewrite Er).
    destruct k; injection Hs as <-; apply Hstay; auto.
  - destruct (spawn_command _ _ _ _ _ _) as [[[h s1]|]|] eqn:Esp; [| |done]; injection Hs as <-; [|apply Hstay; auto].
    apply (inv_spawn s i (mk_thread AtRestart sent) a h s1); try done.
  - destruct a; [|done..]. destruct (st_flag s); injection Hs as <-; apply Hstay; auto.
  - destruct a; [|done..]. injection Hs as <-. by apply (inv_kill s i (mk_thread (AtKill h) sent) h).
  - destruct a; [|done|]; [|injection Hs as <-; apply Hstay; auto].
    destruct (try_wait h s) as [[h' s1]|] eqn:Ew; [|done]. destruct (hd_reaped h') eqn:Er; [|done]. injection Hs as <-.
    apply (inv_wait s i (mk_thread (AtWait h) sent) h h' s1); cbn; auto.
Qed.

(** Changes of the flag or of the position of [run_campaign] concern nothing else. *)
Lemma inv_main_only s s' :
  Inv s -> st_threads s' = st_threads s -> st_procs s' = st_procs s -> st_lost s' = st_lost s ->
  match st_main s' with
  | MainInit j => is_Some (st_threads s !! j)
  | MainJoin j => forall i t, (i < j)%nat -> st_threads s !! i = Some t -> th_pc t = Finished
  | MainReturned => forall i t, st_threads s !! i = Some t -> th_pc t = Finished
  | _ => True
  end -> Inv s'.
Proof. intros I Et Ep El Hm. split; rewrite ?Et, ?Ep, ?El; try apply I. done. Qed.

Lemma inv_add_thread s j : Inv s -> length (st_threads s) = j -> Inv (set_main (MainInit j) (add_thread (mk_thread AtUnshare false) s)).
Proof.
  intros I Hlen.
  assert (Hcase : forall i t, (st_threads s ++ [mk_thread AtUnshare false]) !! i = Some t -> st_threads s !! i = Some t \/ t = mk_thread AtUnshare false).
  { intros i t [?|[_ Hx]]%lookup_app_Some; [by left|]. apply list_lookup_singleton_Some in Hx as [_ <-]. by right. }
  split; cbn [set_main add_thread st_main st_threads st_procs st_lost].
  - intros pid p Hp. destruct (inv_owned _ I _ _ Hp) as [|(t & Ht & Hl)]; [by left|]. right. exists t. split; [by apply lookup_app_l_Some|done].
  - intros i t pid [Ht| ->]%Hcase; [by eapply inv_live|done].
  - intros i t Hk [Ht| ->]%Hcase; [by eapply inv_import|done].
  - apply I.
  - intros i t [Ht| ->]%Hcase; [by eapply inv_sent|done].
  - rewrite <-Hlen, list_lookup_middle by done. eauto.
Qed.

(** The threads that were created so far. *)
Definition threads_counted (s : State) : Prop :=
  match st_main s with
  | MainSpawn j => length (st_threads s) = j
  | MainInit j => length (st_threads s) = S j
  | _ => True
  end.

(** Waiting and starting concern only processes. *)
Definition same_threads (s s' : State) : Prop :=
  st_flag s' = st_flag s /\ st_main s' = st_main s /\ st_threads s' = st_threads s.

Lemma try_wait_frame h s h' s' : try_wait h s = Some (h', s') -> same_threads s s'.
Proof. intros Hw. by destruct (try_wait_waited _ _ _ _ Hw). Qed.

Lemma spawn_frame k' i a s h s' : spawn_command k' no_affinity config i a s = Some (Some (h, s')) -> same_threads s s'.
Proof. unfold spawn_command. intros Hs. by repeat case_match; simplify_eq. Qed.

Lemma spawn_fails k' i a s : spawn_command k' no_affinity config i a s = Some None -> a = Fails.
Proof. unfold spawn_command. intros Hs. by repeat case_match; simplify_eq. Qed.

Lemma worker_step_frame i a t s s' :
  worker_step k no_affinity config i a t s = Some s' ->
  st_flag s' = st_flag s /\ st_main s' = st_main s /\
  exists t', st_threads s' = <[i := t']> (st_threads s) /\
    (st_flag s = true -> (pc_rank (th_pc t') < pc_rank (th_pc t))%nat) /\ (a <> Fails -> th_pc t' <> Panicked).
Proof.
  unfold worker_step, drop_child, import_tries. intros Hs. repeat case_match; simplify_eq; cbn;
    try match goal with
        | H : try_wait _ _ = Some _ |- _ => destruct (try_wait_frame _ _ _ _ H) as (Ef & -> & ->); rewrite ?Ef
        | H : spawn_command _ _ _ _ _ _ = Some _ |- _ => destruct (spawn_frame _ _ _ _ _ _ H) as (-> & -> & ->)
        end; (split; [done|split; [done|]]); eexists; (split; [reflexivity|]); cbn; (split; [|first [done|intros Ha; by destruct Ha; eapply spawn_fails]]); try (intros; lia).
  all: intros Hf; rewrite ?Hf in *; try done; try lia; destruct (hd_reaped _); done.
Qed.

Lemma step_inv l s s' : Inv s -> threads_counted s -> campaign_step l s = Some s' -> Inv s' /\ threads_counted s'.
Proof.
  intros I C Hs. destruct l as [elapsed|i a|pid|]; cbn [Competitors.campaign_step] in Hs.
  - unfold main_step in Hs. unfold threads_counted in C. pose proof (inv_main _ I) as Hm. destruct (st_main s) as [j|j| |j| |] eqn:Em; try done.
    + destruct (j <? job_cnt)%nat; injection Hs as <-; [|by split; [eapply inv_main_only|]].
      split; [by apply inv_add_thread|]. unfold threads_counted. cbn. rewrite length_app. cbn. lia.
    + destruct (st_threads s !! j) as [t|]; [|done]. destruct (th_sent t); [injection Hs as <-; by split; [eapply inv_main_only|]|].
      destruct elapsed; injection Hs as <-; [by split; [eapply inv_main_only|]|]. split; [done|]. unfold threads_counted. by rewrite Em.
    + assert (Inv (set_main (MainJoin 0) (set_flag s)) /\ Inv (set_main (MainJoin 0) s)) as [I1 I2]
        by (split; (eapply inv_main_only; [done..|]); cbn; intros; lia).
      destruct elapsed; [|destruct (st_flag s)]; injection Hs as <-; [done|done|]. split; [done|]. unfold threads_counted. by rewrite Em.
    + destruct (st_threads s !! j) as [t|] eqn:Ej; [destruct (th_pc t) eqn:Ep|]; injection Hs as <-;
        try (split; [done|unfold threads_counted; by rewrite Em]); (split; [|done]); (eapply inv_main_only; [done..|]); cbn; [|done|].
      * intros i u Hi Hu. destruct (decide (i = j)) as [->|]; [congruence|]. apply (Hm i u); [lia|done].
      * intros i u Hu. apply (Hm i u); [|done]. apply lookup_ge_None in Ej. apply lookup_lt_Some in Hu. lia.
  - assert (exists t, st_threads s !! i = Some t /\ worker_step k no_affinity config i a t s = Some s') as (t & Ht & Hw).
    { destruct (st_main s); try done; destruct (st_threads s !! i) as [t|]; try done; by exists t. }
    split; [by eapply worker_step_inv|]. destruct (worker_step_frame _ _ _ _ _ Hw) as (_ & Em & t' & Et & _).
    unfold threads_counted. by rewrite Em, Et, length_insert.
  - destruct (st_procs s !! pid) as [p|] eqn:Ep; [|done]. cbn in Hs. destruct (pr_exited p); [done|]. injection Hs as <-.
    split; [|done]. split; cbn; try apply I.
    + intros pid' p' [[<- <-]|[_ Hp']]%lookup_insert_Some; [apply (inv_owned _ I _ _ Ep)|apply (inv_owned _ I _ _ Hp')].
    + intros i t pid' Ht Hl. destruct (inv_live _ I _ _ _ Ht Hl) as (q & Hq & Eo & Hsig). destruct (decide (pid = pid')) as [<-|Hne].
      * rewrite lookup_insert_eq. rewrite Ep in Hq. injection Hq as <-. by eexists.
      * rewrite lookup_insert_ne by done. by exists q.
  - injection Hs as <-. split; [|done]. eapply inv_main_only; [done..|]. apply (inv_main _ I).
Qed.

Lemma reachable_inv s : reachable s -> Inv s /\ threads_counted s.
Proof.
  induction 1 as [|l s s' _ [I C] Hs]; [|by eapply step_inv].
  split; [|done]. split; cbn; done.
Qed.

(** ** Stopping *)

Definition main_rank (s : State) : nat :=
  let n := length (st_threads s) in
  match st_main s with
  | MainSpawn j => (job_cnt - j) * 24 + n + 3
  | MainInit j => (job_cnt - S j) * 24 + n + 4
  | MainPoll => n + 2
  | MainJoin j => S (n - j)
  | MainReturned | MainPanicked => 0
  end.
Definition threads_rank (l : list Thread) : nat := sum_list_with (pc_rank ∘ th_pc) l.
(** How many steps the threads of a campaign have left once the flag is set. *)
Definition moves_left (s : State) : nat := main_rank s + threads_rank (st_threads s).

Lemma threads_rank_insert l i t t' :
  l !! i = Some t -> (threads_rank (<[i := t']> l) + pc_rank (th_pc t) = threads_rank l + pc_rank (th_pc t'))%nat.
Proof.
  revert i. induction l as [|u l IH]; intros [|i] Hi; try done; unfold threads_rank in *.
  - injection Hi as ->. cbn. lia.
  - specialize (IH i Hi). change (<[S i := t']> (u :: l)) with (u :: <[i := t']> l). cbn [sum_list_with]. lia.
Qed.

Definition thread_label (l : Label) : bool := match l with LMain _ | LWorker _ _ => true | _ => false end.

Lemma worker_step_rank i a t s s' :
  st_flag s = true -> st_threads s !! i = Some t -> worker_step k no_affinity config i a t s = Some s' -> (moves_left s' < moves_left s)%nat.
Proof.
  intros Hf Hi Hw. destruct (worker_step_frame _ _ _ _ _ Hw) as (_ & Em & t' & Et & Hr & _). specialize (Hr Hf).
  unfold moves_left, main_rank. rewrite Em, Et, length_insert. pose proof (threads_rank_insert _ _ _ t' Hi). lia.
Qed.

Lemma threads_rank_app l t : threads_rank (l ++ [t]) = (threads_rank l + pc_rank (th_pc t))%nat.
Proof. unfold threads_rank. rewrite sum_list_with_app. cbn. lia. Qed.

Lemma main_step_rank elapsed s s' :
  st_flag s = true -> main_step job_cnt elapsed s = Some s' -> s' = s \/ (moves_left s' < moves_left s)%nat.
Proof.
  intros Hf Hs. unfold main_step in Hs. unfold moves_left, main_rank. destruct (st_main s) as [j|j| |j| |] eqn:Em; try done.
  - destruct (j <? job_cnt)%nat eqn:Ej; injection Hs as <-; right; cbn [set_main add_thread st_main st_threads]; [|lia].
    rewrite length_app, threads_rank_app. cbn [length pc_rank th_pc]. apply Nat.ltb_lt in Ej.
    replace (job_cnt - j)%nat with (S (job_cnt - S j)) by lia. lia.
  - destruct (st_threads s !! j) as [t|]; [|done]. destruct (th_sent t); [injection Hs as <-; right; cbn [set_main set_flag st_main st_threads]; lia|].
    destruct elapsed; injection Hs as <-; [right; cbn [set_main set_flag st_main st_threads]; lia|by left].
  - rewrite Hf in Hs. destruct elapsed; injection Hs as <-; right; cbn [set_main set_flag st_main st_threads]; lia.
  - destruct (st_threads s !! j) as [t|] eqn:Ej; [|injection Hs as <-; right; cbn [set_main set_flag st_main st_threads]; lia].
    apply lookup_lt_Some in Ej. destruct (th_pc t); injection Hs as <-; try (by left); right; cbn [set_main set_flag st_main st_threads]; lia.
Qed.

Lemma step_rank l s s' :
  st_flag s = true -> thread_label l = true -> campaign_step l s = Some s' -> s' = s \/ (moves_left s' < moves_left s)%nat.
Proof.
  intros Hf Hl Hs. destruct l as [elapsed|i a| |]; try done; cbn in Hs; [by eapply main_step_rank|].
  right. destruct (st_threads s !! i) as [t|] eqn:Ei; [|by destruct (st_main s)].
  eapply worker_step_rank; [done..|]. by destruct (st_main s).
Qed.

(** Steps in which nothing goes wrong: system calls succeed, workers start in time, and
    processes end when they are sent [SIGTERM]. *)
Definition orderly (s : State) (l : Label) : bool :=
  match l with
  | LMain elapsed => negb elapsed
  | LWorker _ a => match a with Fails => false | _ => true end
  | LExit pid => match st_procs s !! pid with Some p => pr_sigterm p | None => false end
  | LSignal => false
  end.
Fixpoint orderly_run (ls : list Label) (s : State) : option State :=
  match ls with
  | [] => Some s
  | l :: ls => if orderly s l then s' ← campaign_step l s; orderly_run ls s' else None
  end.

Definition healthy (s : State) : Prop :=
  st_main s <> MainPanicked /\ forall i t, st_threads s !! i = Some t -> th_pc t <> Panicked.

(** What is reached by an orderly run of at most two steps. *)
Definition advances (s : State) : Prop :=
  exists ls s', (length ls <= 2)%nat /\ orderly_run ls s = Some s' /\ (moves_left s' < moves_left s)%nat /\ healthy s' /\ st_flag s' = true.

Lemma worker_advances s i t a s' :
  st_flag s = true -> healthy s -> st_threads s !! i = Some t -> a <> Fails ->
  worker_step k no_affinity config i a t s = Some s' ->
  orderly_run [LWorker i a] s = Some s' /\ (moves_left s' < moves_left s)%nat /\ healthy s' /\ st_flag s' = true.
Proof.
  intros Hf [Hm Hh] Hi Ha Hw. destruct (worker_step_frame _ _ _ _ _ Hw) as (Ef & Em & t' & Et & _ & Hp). split_and!.
  - cbn. replace (match a with Fails => false | _ => true end) with true by (by destruct a). rewrite Hi. cbn.
    destruct (st_main s); by try rewrite Hw.
  - by eapply worker_step_rank.
  - split; [by rewrite Em|]. rewrite Et. intros j u. destruct (decide (i = j)) as [<-|Hne].
    + rewrite list_lookup_insert_eq by (by eapply lookup_lt_Some). intros [= <-]. by apply Hp.
    + rewrite list_lookup_insert_ne by done. apply Hh.
  - by rewrite Ef.
Qed.

(** Whoever has a child can ask for its status. *)
Lemma try_wait_returns s i t h :
  Inv s -> st_threads s !! i = Some t -> pc_handle (th_pc t) = Some h -> exists h' s', try_wait h s = Some (h', s').
Proof.
  intros I Hi Hh. unfold try_wait. destruct (hd_reaped h) eqn:Er; [by eauto|].
  destruct (inv_live _ I i t (hd_id h) Hi) as (p & -> & _); [unfold live; rewrite Hh; cbn; by rewrite Er|].
  destruct (pr_exited p); eauto.
Qed.

Context (Hcommand : forall i, exists cmd, worker_command k no_affinity config (worker_id i) = Ret cmd).

Lemma spawn_returns s i : exists pid h s', spawn_command k no_affinity config i (Spawned pid) s = Some (Some (h, s')).
Proof.
  destruct (Hcommand i) as [cmd Hc]. exists (fresh (dom (st_procs s))). unfold spawn_command. rewrite Hc.
  rewrite decide_True; [by eauto|]. apply not_elem_of_dom, is_fresh.
Qed.

(** A thread that still runs can move on, except that it may have to wait for its child. *)
Lemma worker_moves s i t :
  Inv s -> st_threads s !! i = Some t -> th_pc t <> Finished -> th_pc t <> Panicked ->
  (exists a s', a <> Fails /\ worker_step k no_affinity config i a t s = Some s') \/
  (exists h p, th_pc t = AtWait h /\ hd_reaped h = false /\ st_procs s !! hd_id h = Some p /\ pr_exited p = false /\ pr_sigterm p = true).
Proof.
  intros I Hi Hnf Hnp.
  assert (Hw : forall h, pc_handle (th_pc t) = Some h -> exists h' s', try_wait h s = Some (h', s')) by (intros h; by eapply try_wait_returns).
  unfold worker_step. destruct (th_pc t) as [|tries|tries h|h|h|h| |h|h|h| |] eqn:Ep; try done.
  - left. exists Succeeds. eauto.
  - destruct (spawn_returns s i) as (pid & h & s1 & Hs). left. exists (Spawned pid). rewrite Hs. destruct k; eauto.
  - left. exists Succeeds. destruct (Hw h eq_refl) as (h' & s1 & ->). repeat case_match; eauto.
  - left. exists Succeeds. eauto.
  - left. exists Succeeds. destruct (Hw h eq_refl) as (h' & s1 & ->). eauto.
  - left. exists Succeeds. repeat case_match; eauto.
  - destruct (spawn_returns s i) as (pid & h & s1 & Hs). left. exists (Spawned pid). rewrite Hs. eauto.
  - left. exists Succeeds. case_match; eauto.
  - left. exists Succeeds. eauto.
  - unfold try_wait. destruct (hd_reaped h) eqn:Er; [left; exists Succeeds; rewrite Er; eauto|].
    destruct (inv_live _ I i t (hd_id h) Hi) as (p & Hp & _ & Hsig); [rewrite Ep; unfold live; cbn; by rewrite Er|].
    rewrite Ep in Hsig. destruct (pr_exited p) eqn:Ee; [|right; exists h, p; by rewrite Hsig].
    left. exists Succeeds. rewrite Hp, Ee. cbn. eauto.
Qed.

Lemma worker_goes_on s i t :
  Inv s -> st_flag s = true -> healthy s -> st_threads s !! i = Some t -> th_pc t <> Finished -> advances s.
Proof.
  intros I Hf Hh Hi Hnf. destruct (worker_moves s i t I Hi Hnf (proj2 Hh i t Hi)) as [(a & s' & Ha & Hw)|(h & p & Ep & Er & Hp & Ee & Hsig)].
  - exists [LWorker i a], s'. split; [cbn; lia|]. by eapply worker_advances.
  - set (s1 := set_procs (<[hd_id h := mk_proc (pr_owner p) true (pr_sigterm p) (pr_command p)]> (st_procs s)) s).
    assert (Hx : campaign_step (LExit (hd_id h)) s = Some s1) by (cbn; rewrite Hp; cbn; by rewrite Ee).
    assert (Hw : exists s', worker_step k no_affinity config i Succeeds t s1 = Some s').
    { unfold worker_step. rewrite Ep. unfold try_wait. rewrite Er. subst s1. cbn [st_procs set_procs]. rewrite lookup_insert_eq. cbn. eauto. }
    destruct Hw as [s' Hw]. destruct (worker_advances s1 i t Succeeds s') as (Hr & Hrank & Hh' & Hf'); [done..|].
    exists [LExit (hd_id h); LWorker i Succeeds], s'. split_and!; [cbn; lia| |exact Hrank|done|done].
    change (orderly_run [LExit (hd_id h); LWorker i Succeeds] s) with
      (if orderly s (LExit (hd_id h)) then s' ← campaign_step (LExit (hd_id h)) s; orderly_run [LWorker i Succeeds] s' else None).
    rewrite Hx. cbn [orderly]. by rewrite Hp, Hsig.
Qed.

(** Steps of [run_campaign] before its time is over. *)
Lemma main_step_healthy s s' : healthy s -> main_step job_cnt false s = Some s' -> healthy s' /\ st_flag s' = st_flag s.
Proof.
  intros [Hm Hh] Hs. unfold main_step in Hs. destruct (st_main s) as [j|j| |j| |] eqn:Em; try done.
  - destruct (j <? job_cnt)%nat; injection Hs as <-; [|done]. split; [|done]. split; [done|]. intros i t.
    cbn. intros [Ht|[_ Ht]]%lookup_app_Some; [by eapply Hh|]. by apply list_lookup_singleton_Some in Ht as [_ <-].
  - destruct (st_threads s !! j) as [t|]; [|done]. destruct (th_sent t); injection Hs as <-; [done|]. by rewrite <-Em in Hm.
  - destruct (st_flag s) eqn:Ef; injection Hs as <-; (split; [|done]); [done|]. by rewrite <-Em in Hm.
  - destruct (st_threads s !! j) as [t|] eqn:Ej; [destruct (th_pc t) eqn:Ep|]; injection Hs as <-; try done; try by rewrite <-Em in Hm.
    by apply Hh in Ej.
Qed.

Lemma set_main_same m s : set_main m s = s -> st_main s = m.
Proof. intros E. by rewrite <-E. Qed.

(** [run_campaign] only waits for threads that have not ended. *)
Lemma main_blocked s :
  Inv s -> st_flag s = true -> main_step job_cnt false s = Some s -> exists i t, st_threads s !! i = Some t /\ th_pc t <> Finished.
Proof.
  intros I Hf Hs. pose proof (inv_sent _ I) as Hsent. unfold main_step in Hs. destruct (st_main s) as [j|j| |j| |] eqn:Em; try done.
  - destruct (_ <? _)%nat; injection Hs as Hs; apply (f_equal st_main) in Hs; cbn in Hs; congruence.
  - destruct (st_threads s !! j) as [t|] eqn:Ht; [|done]. exists j, t. split; [done|]. intros E. destruct (th_sent t) eqn:Et.
    + injection Hs as Hs%set_main_same. congruence.
    + specialize (Hsent _ _ Ht Et). by rewrite E in Hsent.
  - rewrite Hf in Hs. injection Hs as Hs%set_main_same. congruence.
  - destruct (st_threads s !! j) as [t|] eqn:Ht.
    + exists j, t. split; [done|]. intros E. rewrite E in Hs. injection Hs as Hs%set_main_same. rewrite Em in Hs. injection Hs. lia.
    + injection Hs as Hs%set_main_same. congruence.
Qed.

Lemma main_steps s : Inv s -> healthy s -> st_main s <> MainReturned -> exists s', main_step job_cnt false s = Some s'.
Proof.
  intros I [Hm _] Hnr. pose proof (inv_main _ I) as Hi. unfold main_step. destruct (st_main s); try done; try (repeat case_match; eauto).
  by destruct Hi.
Qed.

Lemma campaign_advances s : Inv s -> st_flag s = true -> healthy s -> st_main s <> MainReturned -> advances s.
Proof.
  intros I Hf Hh Hnr. destruct (main_steps s I Hh Hnr) as [s1 Hs]. destruct (main_step_rank _ _ _ Hf Hs) as [->|Hr].
  - destruct (main_blocked s I Hf Hs) as (i & t & Hi & Hp). by eapply worker_goes_on.
  - destruct (main_step_healthy _ _ Hh Hs) as [Hh' Hf']. exists [LMain false], s1. split_and!; try done; [cbn; lia|cbn; by rewrite Hs|by rewrite Hf'].
Qed.

Lemma orderly_run_app ls1 ls2 s s1 s2 : orderly_run ls1 s = Some s1 -> orderly_run ls2 s1 = Some s2 -> orderly_run (ls1 ++ ls2) s = Some s2.
Proof.
  revert s. induction ls1 as [|l ls IH]; intros s; cbn; [by intros [= ->]|]. destruct (orderly s l); [|done].
  destruct (campaign_step l s) as [s'|]; cbn; [|done]. apply IH.
Qed.

Lemma orderly_run_inv ls s s' : orderly_run ls s = Some s' -> Inv s -> threads_counted s -> Inv s' /\ threads_counted s'.
Proof.
  revert s. induction ls as [|l ls IH]; intros s; cbn; [by intros [= ->]|]. destruct (orderly s l); [|done].
  destruct (campaign_step l s) as [s1|] eqn:Es; cbn; [|done]. intros Hr I C. destruct (step_inv _ _ _ I C Es). by eapply IH.
Qed.

Lemma campaign_stops_from s :
  Inv s -> threads_counted s -> st_flag s = true -> healthy s ->
  exists ls s', (length ls <= 2 * moves_left s)%nat /\ orderly_run ls s = Some s' /\ st_main s' = MainReturned.
Proof.
  remember (moves_left s) as n eqn:En. revert s En. induction (lt_wf n) as [n _ IH]; intros s -> I C Hf Hh.
  destruct (st_main s) eqn:Em; try by exists [], s; split_and!; [cbn; lia|done|].
  all: destruct (campaign_advances s I Hf Hh ltac:(by rewrite Em)) as (ls & s1 & Hlen & Hr & Hlt & Hh1 & Hf1);
    destruct (orderly_run_inv _ _ _ Hr I C) as [I1 C1];
    destruct (IH _ Hlt s1 eq_refl I1 C1 Hf1 Hh1) as (ls2 & s2 & Hlen2 & Hr2 & Em2);
    exists (ls ++ ls2), s2; split_and!; [rewrite length_app; lia|by eapply orderly_run_app|done].
Qed.
End invariant.

(** ** Theorems *)

(** C23: Campaigns leave no process behind.  However the threads, the processes and a request to
    stop are interleaved, and whatever system calls fail: when [run_campaign] returns, every
    worker has ended, and every process that a worker started has ended and was waited for.
    Only a worker of StateAFL can lose a child, by starting the next one when [wait_timeout]
    fails. *)
Theorem campaign_reaps_children k no_affinity config job_cnt s :
  reachable k no_affinity config job_cnt s -> st_main s = MainReturned ->
  (forall t, t ∈ st_threads s -> th_pc t = Finished) /\
  (forall pid, is_Some (st_procs s !! pid) -> pid ∈ st_lost s) /\
  (k <> StateAfl -> st_procs s = ∅).
Proof.
  intros Hs Em. destruct (reachable_inv _ _ _ _ _ Hs) as [I _]. pose proof (inv_main _ _ I) as Hm. rewrite Em in Hm.
  assert (Hlost : forall pid, is_Some (st_procs s !! pid) -> pid ∈ st_lost s).
  { intros pid [p Hp]. destruct (inv_owned _ _ I _ _ Hp) as [|(t & Ht & Hl)]; [done|]. rewrite (Hm _ _ Ht) in Hl. by destruct Hl. }
  split_and!; [|done|].
  - intros t [i Hi]%list_elem_of_lookup. by eapply Hm.
  - intros Hk. apply map_empty. intros pid. destruct (st_procs s !! pid) as [p|] eqn:Ep; [|done].
    specialize (Hlost pid ltac:(eauto)). rewrite (inv_lost _ _ I Hk) in Hlost. by apply not_elem_of_nil in Hlost.
Qed.

(** C26: Campaigns stop when they are told to.  Once the flag is set, every step of a thread
    brings the campaign closer to its end or is a thread looking again for the end of another
    one, so that the threads take at most [moves_left] steps.  They never wait for each other in a
    circle: as long as system calls succeed, commands can be built, and processes end when they
    are sent [SIGTERM], [run_campaign] returns. *)
Theorem competitor_campaign_stops k no_affinity config job_cnt s :
  reachable k no_affinity config job_cnt s -> st_flag s = true -> healthy s ->
  (forall i, exists cmd, worker_command k no_affinity config (worker_id i) = Ret cmd) ->
  (forall l s', thread_label l = true -> campaign_step k no_affinity config job_cnt l s = Some s' -> s' = s \/ (moves_left job_cnt s' < moves_left job_cnt s)%nat) /\
  exists ls s', (length ls <= 2 * moves_left job_cnt s)%nat /\ orderly_run k no_affinity config job_cnt ls s = Some s' /\ st_main s' = MainReturned.
Proof.
  intros Hs Hf Hh Hc. destruct (reachable_inv _ _ _ _ _ Hs) as [I C]. split; [|by apply campaign_stops_from].
  intros l s'. by apply step_rank.
Qed.

(** Every command runs with the ids of the jail. *)
Lemma competitor_ids k no_affinity config id cmd :
  worker_command k no_affinity config id = Ret cmd -> jail_uid_gid (c_general config) = Ret (cmd_ids cmd).
Proof.
  destruct k; cbn; unfold aflnet_command, stateafl_command, sgfuzz_command; intros H;
    repeat (apply outcome_bind_Ret in H as (? & ? & H)); by injection H as <-.
Qed.

(** The instances of [afl-fuzz] have different names. *)
Lemma instance_names_unique i j : instance_option (worker_id i) = instance_option (worker_id j) -> i = j.
Proof. destruct i as [|i], j as [|j]; cbn -[pretty]; try done. intros [= E]. apply (inj (String.append EmptyString)) in E. by apply (inj pretty) in E. Qed.

Lemma envs_lookup_ne l m x : x ∉ l.*1 -> envs l m !! x = m !! x.
Proof.
  revert m. induction l as [|[a b] l IH]; intros m; cbn; [done|]. rewrite not_elem_of_cons. intros [Hne Hl].
  unfold envs in *. cbn. rewrite IH by done. by rewrite lookup_insert_ne.
Qed.

(** AFLNet runs without the options for ASan that are written to its log as part of its
    environment, unless the configuration sets them. *)
Lemma aflnet_asan_only_logged config id cfg cmd :
  c_aflnet config = Some cfg -> aflnet_command config id = Ret cmd -> "ASAN_OPTIONS"%string ∉ (an_env cfg).*1 ->
  cmd_envs cmd !! "ASAN_OPTIONS"%string = None /\ ("ASAN_OPTIONS"%string, fuzzer_asan_options) ∈ aflnet_logged_env cmd.
Proof.
  intros Hc H Hn. unfold aflnet_command in H. rewrite Hc in H. cbn [unwrap] in H.
  repeat (apply outcome_bind_Ret in H as (? & ? & H)). split; [|apply elem_of_app; right; by left].
  injection H as <-. simplify_eq. etransitivity; [by apply envs_lookup_ne|reflexivity].
Qed.

(** A duration of the command line is read as it is written; milliseconds that do not fit into
    64 bits panic. *)
Lemma cli_duration_parsed n c u f :
  cli_suffix (String c u) = Some f ->
  CliDuration_from_str (pretty n +:+ String c u) =
    if decide (Z.of_N n * unit_millis f < 2 ^ 64) then Ret (Ok (Z.of_N n * unit_millis f)) else Panic.
Proof.
  intros Hf. destruct (pretty_digits n) as (Hd & Hv & Hne). unfold CliDuration_from_str.
  assert (Hcf : is_digit c = false /\ Forall (fun x => 0 < x) f).
  { revert Hf. unfold cli_suffix.
    repeat match goal with
           | |- context [String.eqb ?s ?w] => destruct (String.eqb_spec s w) as [[= -> ->]|_]; [intros [= <-]; split; [reflexivity|by repeat constructor]|]
           end. done. }
  destruct Hcf as [Hc Hpos]. rewrite (take_digits_app _ _ _ Hd Hc), Hf. destruct (pretty n) as [|x d] eqn:Ep; [done|].
  unfold parse_digits. rewrite Hv. pose proof (unit_millis_positive f Hpos) as Hm.
  destruct (Z.ltb_spec (Z.of_N n) (2 ^ 64)) as [Hlt|Hge]; cbn [unwrap mbind outcome_bind].
  - rewrite mul_all_spec by (done || lia). by case_decide.
  - rewrite decide_False by nia. done.
Qed.

(** ** Examples *)

Module CompetitorsExample.

Definition competitor_config (protocol : string) : Config :=
  mk_config (mk_general_config (path "/in") (path "/w") (secs 300) (Some 1000) (Some 1000) false)
    (mk_source_config [] (path "/bin/s") [] In_Stdin Out_File None false true None None None None None None None) PhasesConfig_default
    (mk_sink_config (path "/bin/t") ["-v"%string] [] In_Stdin Out_None false false false None None None None false) None
    (mk_vanilla_config [] (path "/bin/t") [])
    (Some (mk_aflnet_config [] (path "/bin/t") (path "/seeds") protocol "tcp://127.0.0.1/8554" true true)) None
    (Some (mk_sgfuzz_config (path "/bin/sg") [] None (path "/seeds") "tcp://127.0.0.1/8554")).

(** [run_campaign] starts worker [i], whose process gets the id [pid]. *)
Definition start_worker (i : nat) (pid : Z) : list Label :=
  [LMain false; LWorker i Succeeds; LWorker i (Spawned pid); LWorker i Succeeds; LMain false].
(** A worker looks once for the end of its child and for the flag. *)
Definition poll (i : nat) : list Label := [LWorker i Succeeds; LWorker i Succeeds; LWorker i Succeeds].

(** Two workers of AFLNet that are told to stop when the time is over. *)
Definition regular_run : list Label :=
  start_worker 0 100 ++ start_worker 1 101 ++ [LMain false] ++ poll 0 ++ poll 1 ++ [LMain true] ++ poll 0 ++ [LWorker 0 Succeeds; LExit 100; LWorker 0 Succeeds]
    ++ poll 1 ++ [LWorker 1 Succeeds; LExit 101; LWorker 1 Succeeds] ++ [LMain false; LMain false; LMain false].
Definition stopping_run : list Label := start_worker 0 100 ++ start_worker 1 101 ++ [LMain false] ++ poll 0 ++ [LMain true].
Definition state_after (k : Competitor) (n : nat) (ls : list Label) : State :=
  default campaign_begin (run_steps k false (competitor_config "FTP") n ls campaign_begin).

(** The first worker of SGFuzz fetched the status of its child; before it looks at the flag,
    the second one starts its fuzzer again, which gets the same id, and the campaign is told to
    stop. *)
Definition racing_run : list Label :=
  start_worker 0 100 ++ start_worker 1 101 ++ [LExit 100; LExit 101; LWorker 0 Succeeds; LWorker 1 Succeeds; LWorker 1 Succeeds; LWorker 1 (Spawned 100); LSignal;
    LWorker 0 Succeeds; LWorker 0 Succeeds; LWorker 0 Succeeds].

(** The second worker does not start in time. *)
Definition failing_run : list Label := start_worker 0 100 ++ [LMain false; LMain true].

End CompetitorsExample.
Import CompetitorsExample.

(** A worker sends [SIGTERM] to the id of a child it waited for before: the process that has the
    id now, here the fuzzer of another worker, gets the signal. *)
Lemma stale_id_signalled :
  exists s p, run_steps SGFuzz false (competitor_config "FTP") 2 racing_run campaign_begin = Some s /\
    st_procs s !! 100 = Some p /\ pr_owner p = 1%nat /\ pr_sigterm p = true /\ st_signals s = [(0%nat, 100)].
Proof. eexists _, _. split_and!; vm_compute; reflexivity. Qed.

(** When a worker does not start in time, [run_campaign] panics and leaves the fuzzers of the
    other workers running. *)
Lemma failed_start_leaves_fuzzers :
  exists s p, run_steps AflNet false (competitor_config "FTP") 2 failing_run campaign_begin = Some s /\
    st_main s = MainPanicked /\ st_procs s !! 100 = Some p /\ pr_exited p = false /\ pr_sigterm p = false.
Proof. eexists _, _. split_and!; vm_compute; reflexivity. Qed.

Lemma campaign_reaps_children_witness :
  st_main (state_after AflNet 2 regular_run) = MainReturned /\
  (length (st_threads (state_after AflNet 2 regular_run)) = 2)%nat /\ st_procs (state_after AflNet 2 regular_run) = ∅.
Proof.
  split; [vm_compute; reflexivity|]. split; [vm_compute; reflexivity|].
  apply (campaign_reaps_children AflNet false (competitor_config "FTP") 2 (state_after AflNet 2 regular_run)); [|vm_compute; reflexivity|done].
  apply (reachable_run AflNet false (competitor_config "FTP") 2 regular_run campaign_begin); [apply reach_begin|vm_compute; reflexivity].
Defined.

Lemma competitor_campaign_stops_witness :
  exists ls s', (length ls <= 2 * moves_left 2 (state_after AflNet 2 stopping_run))%nat /\
    orderly_run AflNet false (competitor_config "FTP") 2 ls (state_after AflNet 2 stopping_run) = Some s' /\ st_main s' = MainReturned.
Proof.
  apply (competitor_campaign_stops AflNet false (competitor_config "FTP") 2 (state_after AflNet 2 stopping_run)).
  - apply (reachable_run AflNet false (competitor_config "FTP") 2 stopping_run campaign_begin); [apply reach_begin|vm_compute; reflexivity].
  - vm_compute; reflexivity.
  - split; [vm_compute; discriminate|]. intros [|[|i]] t; vm_compute; intros [= <-]; discriminate.
  - intros i. eexists. reflexivity.
Defined.
