(* ===== verification/Replay.v ===== *)
(** * Replaying the inputs of other fuzzers for coverage

    Models [scheduler/src/coverage/aflnet.rs], which runs the inputs that AFLNet, StateAFL or SGFuzz
    left behind on the sink with coverage, together with the callers [stateafl.rs] and [sgfuzz.rs]
    and [write_cov_binary_info] of [mod.rs].  The files are the record [Files]; the sink is the one
    of [Sink], after it was started.  What [glob] and the hash map of SGFuzz return is an argument,
    and so are what the sockets accept and the report the sink leaves behind; writing reports is
    taken to succeed.  Names are ASCII. *)

From Stdlib Require Import Ascii.
From stdpp Require Import pretty.
From S2P Require Import Prelude Effects Bytes Bitmap Phases Source Config ConfigTheorems Sink CoverageTrace Valgrind.

(** ** Names of inputs *)

(** The leftmost match of a word and a number, as in [id:([0-9]+)]: the number. *)
Fixpoint capture (w s : string) : option string :=
  match lit w s with
  | Some rest =>
      match (take_digits rest).1 with
      | EmptyString => match s with EmptyString => None | String _ s' => capture w s' end
      | d => Some d
      end
  | None => match s with EmptyString => None | String _ s' => capture w s' end
  end.
Definition id_regex : string -> option string := capture "id:".
Definition ts_regex : string -> option string := capture "ts:".

(** [^id:([0-9]+),sync:] *)
Definition sync_regex (s : string) : bool :=
  match lit "id:" s with
  | Some rest =>
      match take_digits rest with
      | (String _ _, rest) => bool_decide (is_Some (lit ",sync:" rest))
      | _ => false
      end
  | None => false
  end.

(** ** Inputs *)

Record Files := mk_files {
  fs_read : PathBuf -> option (list Z);
  fs_exists : PathBuf -> bool;
  fs_is_file : PathBuf -> bool;
  (** whether [remove_dir_all], [create_dir] and [copy] succeed *)
  fs_remove_ok : bool;
  fs_create_ok : bool;
  fs_copy_ok : bool;
}.

(** [drain(0..4)] and [drain(0..len)], which panic behind the end, until nothing is left. *)
Fixpoint split_packages (fuel : nat) (content : list Z) : outcome (list (list Z)) :=
  match content with
  | [] => mret []
  | _ =>
      match fuel with
      | O => Panic
      | S fuel =>
          assert_that (4 <=? length content)%nat ;;
          let len := Z.to_nat (of_le (take 4 content)) in
          let content := drop 4 content in
          assert_that (len <=? length content)%nat ;;
          packages ← split_packages fuel (drop len content);
          mret (take len content :: packages)
      end
  end.

Definition read_input (fs : Files) (replayable_inputs : bool) (p : PathBuf) : outcome (list (list Z)) :=
  content ← unwrap (fs_read fs p);
  if replayable_inputs then split_packages (length content) content else mret [content].

(** [glob] of each directory, and only files. *)
Definition collect_input_file_paths (fs : Files) (glob : PathBuf -> list PathBuf) (input_dirs : list PathBuf) : list PathBuf :=
  mjoin ((fun d => List.filter (fs_is_file fs) (glob d)) <$> input_dirs).

Section duplicates.
Context (fs : Files) (digest : list Z -> string).

Definition input_ts (name : string) : outcome Z :=
  ts_in_ms ← unwrap (ts_regex name);
  unwrap (parse_digits 64 ts_in_ms).

(** The first loop of [remove_duplicates]. *)
Fixpoint discovery_ts (files : list PathBuf) (m : gmap string Z) : outcome (gmap string Z) :=
  match files with
  | [] => mret m
  | input :: files =>
      content ← unwrap (fs_read fs input);
      let content_hash := digest content in
      input_name ← unwrap (file_name input);
      ts_in_ms ← input_ts input_name;
      discovery_ts files (<[content_hash := match m !! content_hash with Some e => Z.min ts_in_ms e | None => ts_in_ms end]> m)
  end.

(** The closure of [retain]. *)
Definition retain_input (m : gmap string Z) (e : PathBuf) : outcome bool :=
  input_name ← unwrap (file_name e);
  if sync_regex input_name then mret false
  else
    current_entry_ts ← input_ts input_name;
    content ← unwrap (fs_read fs e);
    lowest_ts ← unwrap (m !! digest content);
    mret (negb (lowest_ts <? current_entry_ts)).

Fixpoint retain_inputs (m : gmap string Z) (files : list PathBuf) : outcome (list PathBuf) :=
  match files with
  | [] => mret []
  | e :: files =>
      keep ← retain_input m e;
      files ← retain_inputs m files;
      mret (if keep : bool then e :: files else files)
  end.

Definition remove_duplicates (files : list PathBuf) : outcome (list PathBuf) :=
  m ← discovery_ts files ∅;
  retain_inputs m files.
End duplicates.

(** ** The replay *)

(** [components()]: the root and the names between slashes. *)
Fixpoint path_names (acc s : string) : list string :=
  match s with
  | EmptyString => if String.eqb acc EmptyString then [] else [acc]
  | String c s =>
      if Ascii.eqb c "/" then (if String.eqb acc EmptyString then path_names EmptyString s else acc :: path_names EmptyString s)
      else path_names (acc +:+ String c EmptyString) s
  end.
Definition components (p : PathBuf) : list string :=
  (if is_relative p then [] else ["/"%string]) ++ path_names EmptyString (path_str p).

(** The report of an input, in the directories that the names of its own two give. *)
Definition profraw_path (llvm_cov_path input_path : PathBuf) (id ts_in_ms : string) : PathBuf :=
  let components := rev (take 2 (drop 1 (rev (components input_path)))) in
  path_push (foldl path_push llvm_cov_path components) ("id:" +:+ id +:+ ";ts:" +:+ ts_in_ms +:+ ".profraw").

Section replay.
Context {K : Type} `{Kernel K}.
Context (config : Config) (known_signal : Z -> bool) (fuel polls flushes : nat) (timeout : Z).
Context (fs : Files) (transport : TransportType) (replayable_inputs : bool) (llvm_cov_path : PathBuf).
(** Whether the flag is set at a look at it, whether the server takes an input, and the reports
    that an input leaves behind. *)
Context (exit_requested : nat -> bool) (write_tcp : list Z -> bool) (write_udp : list (list Z) -> bool)
  (get_latest_cov_report : PathBuf -> result unit (option (list (list Z)))).

Record Replay := mk_replay {
  rp_sink : AflSink * K;
  rp_looks : nat;
  (** the files that were written, the last one first *)
  rp_reports : list (PathBuf * list Z);
}.
Definition RM (A : Type) : Type := eff Replay unit A.

Definition in_sink {A} (m : SM A) : RM (result SinkError A) := fun r =>
  match m (rp_sink r) with Ret (res, sk) => Ret (Ok res, mk_replay sk (rp_looks r) (rp_reports r)) | Panic => Panic end.

Definition wait_for_child (kill_child : bool) (issue_sigterm_after : option Z) : RM unit :=
  _ ← in_sink (wait_for_child_termination (c_sink config) known_signal fuel timeout kill_child issue_sigterm_after);
  mret tt.

Definition send_input (content : list (list Z)) : bool :=
  match transport with TCP => write_tcp (mjoin content) | UDP => write_udp content end.

Definition write_report (input_path : PathBuf) (id ts_in_ms : string) : RM unit :=
  match get_latest_cov_report input_path with
  | Ok (Some reports) =>
      lift_outcome (assert_that (length reports =? 1)%nat) ;;
      report ← lift_outcome (unwrap (head reports));
      update (fun r => mk_replay (rp_sink r) (rp_looks r) ((profraw_path llvm_cov_path input_path id ts_in_ms, report) :: rp_reports r))
  | _ => mret tt
  end.

(** The body of the loop for one input. *)
Definition replay_input (input_path : PathBuf) : RM unit :=
  input_name ← lift_outcome (unwrap (file_name input_path));
  id ← lift_outcome (unwrap (id_regex input_name));
  ts_in_ms ← lift_outcome (unwrap (ts_regex input_name));
  content ← lift_outcome (read_input fs replayable_inputs input_path);
  spawned ← in_sink (spawn_child fuel flushes);
  match spawned with
  | Err _ => mret tt
  | Ok _ =>
      server_ready_state ← in_sink (wait_for_server (c_sink config) known_signal fuel polls timeout);
      match server_ready_state with
      | Ok WP_Ready =>
          if send_input content then
            wait_for_child false (Some (timeout / 2)) ;;
            write_report input_path id ts_in_ms
          else wait_for_child true None
      | Ok _ | Err _ => wait_for_child true None
      end
  end.

(** The loop: the flag is looked at, and the last input is taken. *)
Fixpoint replay_rev (inputs : list PathBuf) : RM unit :=
  looks ← get rp_looks;
  update (fun r => mk_replay (rp_sink r) (S (rp_looks r)) (rp_reports r)) ;;
  if exit_requested looks then mret tt
  else match inputs with
       | [] => mret tt
       | input_path :: inputs => replay_input input_path ;; replay_rev inputs
       end.
Definition replay_inputs (inputs : list PathBuf) : RM unit := replay_rev (rev inputs).
End replay.
Arguments Replay K : clear implicits.
Arguments mk_replay {K}.

(** [compute_llvm_cov_afl_like_inputs] up to the replay: [Ok None] if there are results already,
    otherwise how inputs are sent and which ones. *)
Definition prepare_replay (config : Config) (fs : Files) (digest : list Z -> string) (glob : PathBuf -> list PathBuf)
    (overwrite_results : bool) (input_dirs : list PathBuf) : outcome (result unit (option (TransportType * list PathBuf))) :=
  let llvm_cov_path := llvm_cov_directory (c_general config) in
  let go :=
    if fs_create_ok fs then
      cov_bin_info ← unwrap (c_sink_cov config);
      _ ← unwrap (file_name (sc_bin_path cov_bin_info));
      assert_that (fs_copy_ok fs) ;;
      cfg ← unwrap (c_aflnet config);
      transport_type ← transport_type (an_netinfo cfg);
      inputs ← remove_duplicates fs digest (collect_input_file_paths fs glob input_dirs);
      mret (Ok (Some (transport_type, inputs)))
    else mret (Err tt) in
  if fs_exists fs llvm_cov_path then
    if overwrite_results then (if fs_remove_ok fs then go else mret (Err tt)) else mret (Ok None)
  else go.

(** ** SGFuzz *)

(** The copies that [sgfuzz.rs] makes of its findings and seeds: [files] are they, each with the
    time it was changed, in the order of time. *)
Definition renamed (idx : nat) (offset : Z) (name : string) : string :=
  "id:" +:+ pretty idx +:+ ",ts:" +:+ pretty offset +:+ "," +:+ name.
Fixpoint rename_findings (idx : nat) (min_modified_ts : Z) (files : list (PathBuf * Z)) : outcome (list (PathBuf * string)) :=
  match files with
  | [] => mret []
  | (finding, creation_ts) :: files =>
      assert_that (min_modified_ts <=? creation_ts) ;;
      name ← unwrap (file_name finding);
      copies ← rename_findings (S idx) min_modified_ts files;
      mret ((finding, renamed idx ((creation_ts - min_modified_ts) / 10 ^ 6) name) :: copies)
  end.
Definition min_ts (findings : list (PathBuf * Z)) : option Z :=
  match findings with [] => None | f :: l => Some (foldr Z.min f.2 (snd <$> l)) end.
(** [sorted]: [sorted_by_key] of the pairs of the map, whose order is not specified. *)
Definition sgfuzz_copies (sorted : list (PathBuf * Z) -> list (PathBuf * Z)) (findings : list (PathBuf * Z)) (seeds : list PathBuf)
    : outcome (list (PathBuf * string)) :=
  min_modified_ts ← unwrap (min_ts findings);
  let all := filter (fun f => f.1 ∉ seeds) findings ++ ((fun s => (s, min_modified_ts)) <$> seeds) in
  rename_findings 0 min_modified_ts (sorted all).

(** ** Packages *)

(** The format of an input that can be replayed. *)
Definition encode_packages (ps : list (list Z)) : list Z := mjoin ((fun p => to_le 4 (Z.of_nat (length p)) ++ p) <$> ps).

Lemma encode_packages_cons p ps : encode_packages (p :: ps) = to_le 4 (Z.of_nat (length p)) ++ p ++ encode_packages ps.
Proof. unfold encode_packages. cbn [fmap list_fmap mjoin list_join]. by rewrite <-app_assoc. Qed.

Lemma split_packages_encode ps fuel :
  Forall (fun p => Z.of_nat (length p) < 2 ^ 32) ps -> (length ps <= fuel)%nat -> split_packages fuel (encode_packages ps) = Ret ps.
Proof.
  intros Hp. revert fuel. induction Hp as [|p ps Hp _ IH]; intros fuel Hf; [by destruct fuel|].
  destruct fuel as [|fuel]; [cbn in Hf; lia|]. cbn in Hf.
  rewrite encode_packages_cons. pose proof (to_le_length 4 (Z.of_nat (length p))) as Hl. destruct (to_le 4 (Z.of_nat (length p)) ++ p ++ encode_packages ps) as [|x l] eqn:El.
  { apply (f_equal length) in El. rewrite length_app, Hl in El. done. }
  cbn [split_packages]. rewrite <-El. rewrite take_app_length', drop_app_length' by done. rewrite of_le_to_le by (split; [lia|exact Hp]).
  rewrite Nat2Z.id, take_app_length, drop_app_length.
  rewrite (proj2 (Nat.leb_le 4 _)) by (rewrite length_app, Hl; lia). rewrite (proj2 (Nat.leb_le (length p) _)) by (rewrite length_app; lia).
  cbn [assert_that mbind outcome_bind].
  rewrite IH by lia. done.
Qed.

(** An input that can be replayed is read as the packages it was made of. *)
Lemma read_input_packages fs p ps :
  fs_read fs p = Some (encode_packages ps) -> Forall (fun p => Z.of_nat (length p) < 2 ^ 32) ps -> read_input fs true p = Ret ps.
Proof.
  intros Hr Hp. unfold read_input. rewrite Hr. cbn [unwrap mbind outcome_bind]. apply split_packages_encode; [done|].
  clear Hr Hp. induction ps as [|q ps IH]; [done|]. rewrite encode_packages_cons, !length_app, to_le_length. cbn. lia.
Qed.

(** ** Duplicates *)

Section duplicate_theorems.
Context (fs : Files) (digest : list Z -> string).

(** An input with its digest and its time. *)
Definition proper_input (p : PathBuf) (h : string) (ts : Z) : Prop :=
  exists content name d, fs_read fs p = Some content /\ digest content = h /\ file_name p = Some name /\ ts_regex name = Some d /\ parse_digits 64 d = Some ts.
Definition is_synced (p : PathBuf) : bool := match file_name p with Some name => sync_regex name | None => false end.

Lemma proper_input_ts p h ts name : proper_input p h ts -> file_name p = Some name -> input_ts name = Ret ts.
Proof. intros (c & n & d & _ & _ & Hn & Ht & Hd) E. rewrite Hn in E. injection E as <-. unfold input_ts. rewrite Ht. cbn. by rewrite Hd. Qed.

Context (hash : PathBuf -> string) (ts : PathBuf -> Z).

Lemma discovery_ts_spec files m :
  Forall (fun p => proper_input p (hash p) (ts p)) files ->
  exists m', discovery_ts fs digest files m = Ret m' /\
    forall h, m' !! h = foldl (fun o p => if decide (hash p = h) then Some (match o with Some e => Z.min (ts p) e | None => ts p end) else o) (m !! h) files.
Proof.
  intros Hf. revert m. induction Hf as [|p files Hp _ IH]; intros m; [by exists m|].
  pose proof Hp as (content & name & d & Hr & Hh & Hn & _). cbn [discovery_ts]. rewrite Hr. cbn [unwrap mbind outcome_bind]. rewrite Hn. cbn [unwrap mbind outcome_bind].
  rewrite (proper_input_ts _ _ _ _ Hp Hn). cbn [mbind outcome_bind]. rewrite Hh.
  destruct (IH (<[hash p := match m !! hash p with Some e => Z.min (ts p) e | None => ts p end]> m)) as (m' & -> & Hm').
  exists m'. split; [done|]. intros h. rewrite Hm'. cbn [foldl]. f_equal. destruct (decide (hash p = h)) as [<-|Hne].
  - by rewrite lookup_insert_eq.
  - by rewrite lookup_insert_ne.
Qed.

(** The map holds the lowest time of each digest. *)
Lemma lowest_ts files h o :
  match foldl (fun o p => if decide (hash p = h) then Some (match o with Some e => Z.min (ts p) e | None => ts p end) else o) o files with
  | Some t => (forall e, o = Some e -> t <= e) /\ (forall q, q ∈ files -> hash q = h -> t <= ts q) /\
              (o = Some t \/ exists q, q ∈ files /\ hash q = h /\ ts q = t)
  | None => o = None /\ forall q, q ∈ files -> hash q <> h
  end.
Proof.
  revert o. induction files as [|p files IH]; intros o; cbn [foldl].
  { destruct o as [t|]; [|split; [done|]; intros q; set_solver]. split; [intros e [= <-]; lia|]. split; [intros q; set_solver|by left]. }
  specialize (IH (if decide (hash p = h) then Some (match o with Some e => Z.min (ts p) e | None => ts p end) else o)).
  destruct (foldl _ _ files) as [t|].
  - destruct IH as (H1 & H2 & H3). destruct (decide (hash p = h)) as [Hh|Hh].
    + specialize (H1 _ eq_refl). split_and!.
      * intros e ->. lia.
      * intros q [->|Hq]%elem_of_cons; [|by apply H2]. destruct o; lia.
      * destruct H3 as [H3|(q & Hq & Hqh & Hqt)]; [|right; exists q; split_and!; [by right|done..]].
        injection H3 as H3. destruct o as [e|]; [|right; exists p; split_and!; [by left|done|done]].
        destruct (Z.min_spec (ts p) e) as [[_ E]|[_ E]]; rewrite E in H3; [right; exists p; split_and!; [by left|done|done]|left; by f_equal].
    + split; [exact H1|]. split; [|destruct H3 as [H3|(q & Hq & Hqh & Hqt)]; [by left|right; exists q; split_and!; [by right|done..]]].
      intros q [->|Hq]%elem_of_cons Hqh; [by destruct Hh|by apply H2].
  - destruct IH as [H1 H2]. destruct (decide (hash p = h)) as [Hh|Hh]; [done|]. split; [done|].
    intros q [->|Hq]%elem_of_cons; [done|by apply H2].
Qed.

(** Inputs that are first copies of their content and were not taken from another worker. *)
Definition kept_input (files : list PathBuf) (p : PathBuf) : bool :=
  negb (is_synced p) && forallb (fun q => negb (String.eqb (hash q) (hash p)) || (ts p <=? ts q)) files.

Lemma retain_input_spec files m p :
  proper_input p (hash p) (ts p) -> p ∈ files ->
  (forall h, m !! h = foldl (fun o p => if decide (hash p = h) then Some (match o with Some e => Z.min (ts p) e | None => ts p end) else o) None files) ->
  retain_input fs digest m p = Ret (kept_input files p).
Proof.
  intros Hp Hin Hm. pose proof Hp as (content & name & d & Hr & Hh & Hn & _). unfold retain_input, kept_input, is_synced. rewrite Hn.
  cbn [unwrap mbind outcome_bind]. destruct (sync_regex name); [done|]. rewrite (proper_input_ts _ _ _ _ Hp Hn). cbn [mbind outcome_bind].
  rewrite Hr. cbn [unwrap mbind outcome_bind]. rewrite Hh, Hm. pose proof (lowest_ts files (hash p) None) as Hl.
  destruct (foldl _ None files) as [t|]; [|by destruct Hl as [_ Hl]; destruct (Hl p Hin)].
  destruct Hl as (_ & Hle & [?|(q & Hq & Hqh & Hqt)]); [done|]. cbn [unwrap mbind outcome_bind mret outcome_ret negb andb]. f_equal.
  destruct (Z.ltb_spec t (ts p)) as [Hlt|Hge]; cbn [negb]; symmetry.
  - apply not_true_is_false. intros Hall. rewrite forallb_forall in Hall. specialize (Hall q (proj1 (list_elem_of_In _ _) Hq)).
    rewrite Hqh, String.eqb_refl in Hall. cbn in Hall. lia.
  - apply forallb_forall. intros r Hr'%list_elem_of_In. destruct (String.eqb_spec (hash r) (hash p)) as [E|]; [|done]. cbn.
    specialize (Hle r Hr' E). lia.
Qed.

(** Of the inputs with the same content exactly those with the lowest time are kept, unless they
    were taken from another worker: then the content is lost, also where another copy of it was
    not. *)
Lemma duplicates_by_time files :
  Forall (fun p => proper_input p (hash p) (ts p)) files ->
  remove_duplicates fs digest files = Ret (List.filter (kept_input files) files).
Proof.
  intros Hf. unfold remove_duplicates. destruct (discovery_ts_spec files ∅ Hf) as (m & -> & Hm). cbn [mbind outcome_bind].
  assert (Hgo : forall l, Forall (fun p => proper_input p (hash p) (ts p)) l -> (forall p, p ∈ l -> p ∈ files) ->
            retain_inputs fs digest m l = Ret (List.filter (kept_input files) l)).
  { induction 1 as [|p l Hp _ IH]; intros Hsub; [done|]. cbn [retain_inputs List.filter].
    rewrite (retain_input_spec files m p Hp (Hsub p ltac:(by left))) by (intros h; rewrite Hm; by rewrite lookup_empty).
    cbn [mbind outcome_bind]. rewrite IH by (intros q Hq; apply Hsub; by right). by destruct (kept_input files p). }
  by apply Hgo.
Qed.
End duplicate_theorems.
