(* ===== verification/ReplayTheorems.v ===== *)
(** * Servers that are not ready

    Theorems on [Replay]: what becomes of a replay when the server of an input ends before it is
    ready, and that the names SGFuzz's files are given can be read again. *)

From Stdlib Require Import Ascii.
From stdpp Require Import pretty.
From S2P Require Import Prelude Effects Bytes Bitmap Phases Source Config ConfigTheorems Sink SinkTheorems CoverageTrace Valgrind Replay.

Section unready.
Context {K : Type} `{Kernel K}.
Context (config : Config) (known_signal : Z -> bool) (fuel : nat).

Lemma exit_msg_forgets sk : wlp (handle_child_exit_msg known_signal) (fun r sk' => match r with Ok _ => sk_child_pid sk'.1 = None | Err _ => True end) sk.
Proof.
  unfold handle_child_exit_msg. wlp_steps. intros r sk1 _. destruct r as [buffer|]; [|done]. destruct (negb _); [by apply wlp_of_result|].
  destruct (WIFEXITED _); [unfold sink_update; by wlp_steps|]. destruct (WIFSIGNALED _); [|done]. unfold sink_update. wlp_steps.
  destruct (_ =? SIGTERM); by wlp_steps.
Qed.

Lemma await_killed_forgets sk : wlp (await_killed fuel) (fun r sk' => match r with Ok (Ok _) => sk_child_pid sk'.1 = None | _ => True end) sk.
Proof.
  unfold await_killed. wlp_steps. intros r sk1 _. destruct r as [[l|e]|]; [|by wlp_steps|done].
  wlp_steps. intros r sk2 _. destruct r; [|done]. unfold sink_update. by wlp_steps.
Qed.

(** A server that is not ready is gone: [wait_for_server] read its status or killed it. *)
Lemma unready_forgets n timeout sk :
  wlp (wait_for_server (c_sink config) known_signal fuel n timeout)
    (fun r sk' => match r with Ok WP_Ready | Err _ => True | Ok _ => sk_child_pid sk'.1 = None end) sk.
Proof.
  revert sk. induction n as [|n IH]; intros sk; cbn [wait_for_server]; [done|]. unfold sink_get. wlp_steps.
  apply wlp_lift. intros child_pid _. wlp_steps. intros r sk1 _. destruct r as [[ready|e]|]; [| |done].
  - destruct (bool_decide (ReceiveFd ∈ ready)).
    + apply wlp_bind. eapply wlp_mono; [apply exit_msg_forgets|]. intros [r|e] sk2; [|done]. intros E. wlp_steps. by destruct r.
    + destruct (bool_decide (FtReceiveFd ∈ ready)); [|done]. wlp_steps. intros r sk2 _. destruct r as [buffer|]; [|done].
      destruct (negb _); [by apply wlp_of_result|]. unfold sink_update. wlp_steps. destruct (is_ready_signal _ _ _ _); [by wlp_steps|apply IH].
  - apply wlp_bind. intros r sk2 _. destruct r; [|done]. apply wlp_bind. eapply wlp_mono; [apply await_killed_forgets|].
    intros [[u|e']|e'] sk3 E; [by wlp_steps| |done]. wlp_steps. apply wlp_lift. intros sid _. apply wlp_bind. intros r sk4 _.
    destruct r as [reason|]; [|done]. apply wlp_bind. destruct reason; unfold sink_update, sink_fail; by wlp_steps.
Qed.

(** There is no child to wait for any more. *)
Lemma wait_without_child (s : Replay K) timeout kill_child after :
  sk_child_pid (rp_sink s).1 = None -> wait_for_child config known_signal fuel timeout kill_child after s = Panic.
Proof.
  intros E. unfold wait_for_child, in_sink, wait_for_child_termination, sink_get. unfold mbind at 1, eff_bind at 1.
  unfold mbind at 1, eff_bind at 1, get. rewrite E. done.
Qed.

Context (polls flushes : nat) (timeout : Z) (fs : Files) (transport : TransportType) (replayable_inputs : bool) (llvm_cov_path : PathBuf).
Context (exit_requested : nat -> bool) (write_tcp : list Z -> bool) (write_udp : list (list Z) -> bool)
  (get_latest_cov_report : PathBuf -> result unit (option (list (list Z)))).
Local Notation replay_one := (replay_input config known_signal fuel polls flushes timeout fs transport replayable_inputs llvm_cov_path
  write_tcp write_udp get_latest_cov_report).

(** A computation that is undone by a panic of what follows. *)
Lemma lift_bind_panic {A B} (m : outcome A) (f : A -> RM (K := K) B) s : (forall a, f a s = Panic) -> (lift_outcome m ≫= f) s = Panic.
Proof. intros Hf. unfold mbind, eff_bind, lift_outcome. by destruct m. Qed.

Lemma unready_input_panics s p sk1 r sk2 :
  spawn_child fuel flushes (rp_sink s) = Ret (Ok tt, sk1) ->
  wait_for_server (c_sink config) known_signal fuel polls timeout sk1 = Ret (Ok r, sk2) -> r <> WP_Ready ->
  replay_one p s = Panic.
Proof.
  intros Hs Hw Hr. pose proof (unready_forgets polls timeout sk1 _ _ Hw) as Hnone. cbv beta iota in Hnone.
  unfold replay_input. apply lift_bind_panic; intros name. apply lift_bind_panic; intros id. apply lift_bind_panic; intros ts.
  apply lift_bind_panic; intros content. unfold mbind at 1, eff_bind at 1, in_sink at 1. rewrite Hs.
  unfold mbind at 1, eff_bind at 1, in_sink at 1. cbn [rp_sink]. rewrite Hw. destruct r; first [by destruct Hr|apply wait_without_child; exact Hnone].
Qed.
End unready.

(** C32: A server that is not ready ends the replay.  When the server of an input ends or is killed
    before it listens, [wait_for_server] has already waited for it; the loop then waits for it once
    more, for which there is no child left, and panics.  None of the inputs that are left is run. *)
Theorem unready_server_panics {K} `{Kernel K} config known_signal fuel polls flushes timeout fs transport replayable llvm_cov_path
    exit_requested write_tcp write_udp get_latest_cov_report (s : Replay K) inputs p sk1 r sk2 :
  exit_requested (rp_looks s) = false ->
  spawn_child fuel flushes (rp_sink s) = Ret (Ok tt, sk1) ->
  wait_for_server (c_sink config) known_signal fuel polls timeout sk1 = Ret (Ok r, sk2) -> r <> WP_Ready ->
  replay_inputs config known_signal fuel polls flushes timeout fs transport replayable llvm_cov_path
    exit_requested write_tcp write_udp get_latest_cov_report (inputs ++ [p]) s = Panic.
Proof.
  intros He Hs Hw Hr. unfold replay_inputs. rewrite rev_app_distr. cbn [rev app replay_rev].
  unfold mbind at 1, eff_bind at 1, get. unfold mbind at 1, eff_bind at 1, update. rewrite He. unfold mbind at 1, eff_bind at 1.
  by erewrite unready_input_panics.
Qed.

(** ** SGFuzz *)

Lemma capture_number w d c rest :
  all_digits d = true -> d <> EmptyString -> is_digit c = false -> capture w (w +:+ d +:+ String c rest) = Some d.
Proof.
  intros Hd Hne Hc. assert (E : forall s, lit w s = Some (d +:+ String c rest) -> capture w s = Some d); [|by apply E, lit_app].
  intros s Hl. destruct s as [|x s]; cbn [capture]; rewrite Hl, (take_digits_app _ _ _ Hd Hc); cbn [fst]; by destruct d.
Qed.

(** Digits before the word do not matter. *)
Lemma capture_skips w d s : all_digits d = true -> (forall c s', is_digit c = true -> lit w (String c s') = None) -> capture w (d +:+ s) = capture w s.
Proof.
  intros Hd Hw. induction d as [|c d IH]; [by rewrite append_nil|]. cbn [all_digits] in Hd. apply andb_prop in Hd as [Hc Hd].
  rewrite append_cons. cbn [capture]. rewrite Hw by done. by apply IH.
Qed.

(** The names that the files of SGFuzz are given can be read again: neither [remove_duplicates] nor
    the replay stumbles over them, and none counts as taken from another worker. *)
Lemma renamed_readable idx offset name :
  0 <= offset ->
  id_regex (renamed idx offset name) = Some (pretty idx) /\ ts_regex (renamed idx offset name) = Some (pretty offset) /\
  sync_regex (renamed idx offset name) = false.
Proof.
  intros Ho. destruct (pretty_digits (N.of_nat idx)) as (Hd & _ & Hne). change (pretty (N.of_nat idx)) with (pretty idx) in *.
  destruct (pretty_digits (Z.to_N offset)) as (Hd2 & _ & Hne2).
  assert (Ep : pretty (Z.to_N offset) = pretty offset) by (destruct offset; [done|done|lia]). rewrite Ep in *.
  unfold id_regex, ts_regex, sync_regex, renamed. split_and!.
  - by apply (capture_number "id:" (pretty idx) ","%char).
  - change (capture "ts:" (pretty idx +:+ String ","%char ("ts:" +:+ pretty offset +:+ String ","%char name)) = Some (pretty offset)).
    rewrite capture_skips; [|done|by intros [[] [] [] [] [] [] [] []]].
    change (capture "ts:" ("ts:" +:+ pretty offset +:+ String ","%char name) = Some (pretty offset)). by apply capture_number.
  - rewrite lit_app. change (",ts:" +:+ pretty offset +:+ "," +:+ name) with (String ","%char ("ts:" +:+ pretty offset +:+ "," +:+ name)).
    rewrite (take_digits_app (pretty idx) ","%char _ Hd) by done. by destruct (pretty idx).
Qed.

(** ** Example *)

(** The fork server of [SinkTheorems], whose children exit at once, and three inputs. *)
Definition replay_config : Config :=
  mk_config (mk_general_config (path "/in") (path "/w") (secs 300) None None false)
    (mk_source_config [] (path "/bin/s") [] In_Stdin Out_File None false true None None None None None None None) PhasesConfig_default
    demo_sink_config None (mk_vanilla_config [] (path "/bin/t") []) None None None.
Definition replay_files : Files := mk_files (fun _ => Some [2; 0; 0; 0; 65; 66]) (fun _ => false) (fun _ => true) true true true.
Definition replay_start : Replay View := mk_replay (demo_sink, mk_view [] [1; 2] None [] 0) 0 [].

Lemma unready_server_panics_witness :
  @replay_inputs View demo_kernel replay_config (fun _ => true) 3 3 3 (secs 1) replay_files TCP true (path "/w/llvm-cov")
    (fun _ => false) (fun _ => true) (fun _ => true) (fun _ => Ok (Some [[1]]))
    ([path "/w/a/q/id:0,ts:1"; path "/w/a/q/id:1,ts:2"] ++ [path "/w/a/q/id:2,ts:3"]) replay_start = Panic.
Proof.
  eapply (@unready_server_panics View demo_kernel); [reflexivity|vm_compute; reflexivity|vm_compute; reflexivity|discriminate].
Defined.
